(* ===== verification/_CoqProject ===== *)
-Q . S2P
Prelude.v
RustStd.v
Externals.v
Instances.v
Runtime.v
RuntimeFacts.v
TaskData.v
TaskSchedule.v
TaskScheduleFacts.v
TaskIdentity.v
TaskPatch.v
TaskPatchFacts.v
Session.v
SessionReplay.v
SessionFacts.v
SessionDispatch.v
SessionExamples.v
SessionManagement.v
SessionManagementFacts.v
SessionProjectionJson.v
FileSystem.v
StoreData.v
StoreChecks.v
Store.v
StoreSpec.v
StoreLogic.v
StoreReads.v
StoreRefine.v
StoreSystem.v
StoreInvariants.v
StoreFacts.v
StoreIntake.v
StoreReceiptFacts.v
StoreContinuationFacts.v
StoreReplayFacts.v
StoreInstances.v
StoreExamples.v
RustText.v
RustPath.v
JSpaceScopes.v
JSpaceScopeFacts.v
JSpaceClaimFacts.v
JSpaceArgv.v
JSpaceJson.v
JSpaceTemplates.v
JSpaceVerifier.v
JSpacePolicies.v
JSpaceDigest.v
JSpaceMatcher.v
JSpaceCompile.v
JSpaceAdmission.v
JSpaceSettles.v
JSpaceMatcherFacts.v
JSpaceIsolation.v
JSpaceCommands.v
JSpaceDiscovery.v
JSpaceInstances.v
JSpaceWitnesses.v
CommandSafety.v
CommandText.v
CommandTextFacts.v
CommandGrammar.v
CommandPathFacts.v
CommandPrograms.v
CommandInterception.v
FileLocks.v
FileLockFacts.v
PatchParse.v
PatchApply.v
PatchFiles.v
PatchParseFacts.v
PatchApplyFacts.v
PatchFilesFacts.v
PatchExamples.v
OutputBindings.v
PatchAdmission.v
PatchAdmissionExamples.v
CommandBatch.v
CommandBatchFacts.v
CommandStreaming.v
