(* ===== verification/Prelude.v ===== *)
(** * Verification of the execution payload: lifecycle, store and capability contracts

    The repository ships an agent harness whose execution payload is the Rust
    workspace under [src/runtime].  Its state is event sourced: the crate
    [lifecycle] ([src/runtime/crates/lifecycle/src]) holds the state machines,
    and the services around it (gateway, router, runtime worker, session store)
    send them commands, store the events they return and rebuild them by
    replay.  The crate [session_lifecycle]
    ([src/runtime/crates/session_lifecycle/src/lib.rs]) is the durable side:
    several processes share a directory of JSON files in which a commander
    session keeps the receipts, callbacks, continuations, checkpoints, released
    slots and blockers of its child sessions.  The crate [path]
    ([src/runtime/crates/path/src]) admits capability contracts: a session may
    read, change and run only what its contract lists, and the dispatcher in
    [router/src/services/execution.rs] lets two sessions run at once only when
    the scopes they publish do not conflict.  The crate [tools]
    ([src/runtime/crates/tools/src]) runs the commands: of it, the interceptor of
    destructive shell commands, the manager of file locks and the command that
    patches files are here.  This library models these parts and proves what
    the services rely on.

    ** Parts of the program and files of the library

    - [Prelude] (this file): record update [r.{f := v}], the type [outcome] of
      fallible Rust code with its monad, the tactics [outcome_inv], [guards],
      [split_match], and list searches.  [RustStd]: the part of the standard
      library the payload uses (strings are UTF-8 bytes; [trim] follows the
      Unicode white-space property; [u64] is [Z] with saturation and wrapping
      written out; stable sorting; floats as specification floats).
      [Externals]: the crates [chrono], [serde_json] and [sha2] as classes of
      operations, with their documented behaviour as separate classes of laws;
      [Instances]: concrete models of these classes, used by the examples.
    - [Runtime], [RuntimeFacts]: one model call ([runtime.rs]).
      [RuntimeAggregate] with commands, events, [decide], [apply], [execute],
      the buffer of events not yet acknowledged, [replay], the wire forms and
      the projection.
    - [TaskData], [TaskSchedule], [TaskScheduleFacts], [TaskIdentity]: planned
      tasks ([session.rs], first half).  Contracts, dispatch claims and callback
      acknowledgements with their validators; eligibility, polling and the
      ready-set classifier [classify_task_ready_set]; the canonical JSON text
      and the digests built on it.
    - [TaskPatch], [TaskPatchFacts]: session states, and the functions that
      patch a plan ([apply_task_patch], [patch_one_task], [patch_task_list],
      [apply_task_plan_patch]).
    - [Session]: the session aggregate, one handler per command of [decide],
      [apply], [execute], [replay] with [as_command] and
      [scheduled_replay_command], and the callback index.  [SessionReplay]:
      replay against execution.  [SessionFacts]: the invariant and the ended
      states.  [SessionDispatch]: totality, claims, callbacks.
      [SessionExamples]: a session evaluated end to end.
    - [SessionManagement], [SessionManagementFacts]: the session state object
      ([session_management.rs]): log and tool-result index, compaction,
      capabilities, task types, turns, persistence delta, wire form.
    - [SessionProjectionJson]: the JSON projections of a plan
      ([session_projection.rs]).

    The store ([session_lifecycle/src/lib.rs]), bottom up:

    - [FileSystem]: the machine a process runs on ([World]: files, directories,
      lock, temporary counter, pending faults), the state-and-error monad [M]
      of a method, and the file routines ([durable_write], [remove_durable],
      [json_files], [read_json], [with_lock], [with_shared_lock]).
    - [StoreData], [StoreChecks]: the records and outcomes; constructors, keys,
      digests and validations that need no file.  The convergence proof and the
      continuation binding of [runtime_contract] are here.  [Store]: one
      definition per method of [SessionLifecycleStore], the closure it runs
      under the lock ([..._locked]) apart from the checks before it.
    - [StoreSpec]: the abstract store, a finite map from logical paths to
      records, the relation [rep] between a machine and such a store, and
      [change], the moves a store may make.  [StoreLogic]: weakest
      preconditions for [M], with rules for each file routine under faults.
      [StoreReads]: the moves read as steps on records, what listing and
      reading a represented store returns, and the methods that only read.
    - [StoreRefine]: each closure makes only abstract moves, on every path.
      [StoreSystem]: the sixteen writing methods as requests, their checks and
      closures, and [sys_step], the interleaving of any number of processes
      with faults and crashes.  [StoreInvariants]: what [change] preserves.
    - [StoreFacts], [StoreIntake], [StoreReceiptFacts],
      [StoreContinuationFacts] (blockers too), [StoreReplayFacts]: the theorems.
    - [StoreInstances]: an encoding of the records that reads back, and a hash,
      to evaluate the store.  [StoreExamples]: a run of two processes with
      faults, from an empty directory to an acknowledged continuation, and the
      theorems at the states of that run.

    Capability contracts ([path/src/jspace.rs] and the [jspace_*.rs] beside it),
    bottom up:

    - [RustText], [RustPath]: characters, splitting, trimming and searching;
      [std::path] on Unix; [FileTree], the answers of the file system to the
      calls of the crate; [resolve_existing_boundary] and what it returns on
      canonical trees.
    - [JSpaceScopes], [JSpaceScopeFacts], [JSpaceClaimFacts]: scopes and claims,
      the trie as the arena of nodes of the source, projections, overlap and
      conflict.  [JSpaceArgv]: command types and the parser of shell lines,
      with the grammar it accepts.
    - [JSpaceJson]: contract fields and canonical JSON.  [JSpaceTemplates]:
      effect domains and command templates.  [JSpaceVerifier]: the grants of
      focused verifiers.  [JSpacePolicies]: discovery commands
      ([jspace_read.rs]) and the two delegated shells ([jspace_inspect.rs],
      [jspace_parent_shell.rs]).  [JSpaceDigest]: what the two digests of a
      contract cover.
    - [JSpaceMatcher]: the admitted contract with its checks of paths, commands
      and discovery.  [JSpaceCompile]: source reads, verifier pins, and
      [from_value], one definition per phase.  [JSpaceAdmission]: [admit], as
      one function and as [cache_step], the interleaving of the calls of any
      number of threads between their two uses of the lock, with its theorems.
    - [JSpaceSettles], [JSpaceMatcherFacts]: every function ends; what
      [from_value] establishes ([matcher_wf]); what a path check decides.
      [JSpaceIsolation], [JSpaceCommands], [JSpaceDiscovery]: the theorems.
      [JSpaceInstances], [JSpaceWitnesses]: a small workspace, signed
      contracts of the three versions, and the theorems applied to them.

    Tools ([tools/src]), in four parts:

    - The interceptor ([commands/command_safety.rs]).  [CommandSafety]: targets,
      paths and the patterns of one command.  [CommandText]: words, segments,
      substitutions, library calls, wrappers and nested shells of a line;
      variables, one segment, the recursive [scan] and [is_dangerous_command]
      with and without a workspace.  [CommandTextFacts], [CommandGrammar],
      [CommandPathFacts]: lemmas and the grammar of words.  [CommandPrograms]:
      the part of the shell language that the theorems follow ([runs]: a
      command that a line runs).  [CommandInterception]: the theorems, and the
      tests of the source and the gaps, evaluated.
    - File locks ([runtime/file_locks/mod.rs]).  [FileLocks]: the requests of an
      access, [can_acquire], and [lock_step], the interleaving of any number of
      commands that take, wait for and give back their locks, with the
      wake-ups of a condition variable.  [FileLockFacts]: the theorems.
    - Patches ([commands/apply_patch]).  [PatchParse]: lines, finding a patch
      in what was sent, and [parse_patch].  [PatchApply]: hunks
      ([apply_hunks_with_delta]) and the evidence of a change
      ([postimage.rs], [failure_context.rs]).  [PatchFiles]: paths, locks and
      the operations on the disk, up to [execute].  [PatchParseFacts],
      [PatchApplyFacts], [PatchFilesFacts]: the theorems.  [PatchExamples]: a
      disk of directories and files, the tests of the source on it, and the
      witnesses.
    - Commands of a batch.  [OutputBindings]
      ([command_run/output_binding.rs]): the placeholders by which a command
      names the output of an earlier one, and what interpolation makes of a
      text.  [PatchAdmission]: the patch branch of the admission check of
      [router/src/services/command_run.rs], which reads a patch before its
      placeholders are replaced, on the contracts of [JSpaceMatcher].
      [PatchAdmissionExamples]: both at concrete inputs.
      [CommandBatch] ([command_run/handler.rs]): the executor of a batch, as
      [batch_step] with its commands in flight, and the one that receives a
      batch command by command ([push_command_value], [finish]); the repair of
      step numbers, the guard of a terminal status, and [task_status]
      ([commands/task_status/mod.rs]).  [CommandBatchFacts]: the theorems.
      [CommandStreaming]: both executors agree; batches evaluated.

    A Rust method on [&mut self] is a function that returns the new struct; one
    that can fail returns [outcome].  Commands and events keep the names of the
    source with the prefixes [Cmd] and [Ev]; fields carry a prefix per struct.

    ** What the theorems show

    - Replay (sessions and runtimes): what [execute] records, [replay] accepts
      and rebuilds exactly, and [replay] accepts nothing the reducer could not
      have recorded.  For sessions this includes polled starts, whose clock
      reading is not stored: the replayed clock is one at which the scheduler
      gives the same result.
    - State machines: the invariants of reachable runtimes and sessions; ended
      runtimes and sessions stay ended; a live runtime can always be settled;
      the session reducer is total, up to the panic of an uncomputable polling
      date.
    - Dispatch: a task is ready exactly under the listed conditions; an accepted
      claim names the plan and contract it was made against; a task is
      dispatched at most once; patches cannot rebind it; its callback settles
      exactly that task and is idempotent.
    - Identities: equal digests mean equal contracts or plans, or a collision of
      the digest on the two texts hashed (no assumption that the digest is
      injective is made).
    - Plans: patches keep identities valid (for unpadded names), order and
      number tasks as asked, and do not requeue or start work.
    - State object: compaction keeps absolute log positions, the persistence
      delta and the wire form restore the state, capabilities and task types
      behave as sets of canonical names.
    - Store, all methods together: any interleaving of the writing methods of
      any processes, with any I/O errors and crashes, refines the abstract
      moves; every method ends, gives the lock back and leaves a store; JSON
      files are whole records; durable records keep their bytes; applied
      receipts and blockers are numbered without gaps; callbacks are backed by
      receipts; continuations only advance, and complete only with a reconciled
      delivery or a validated convergence proof.
    - Store, method by method: what intake, replay, blockers, slot release and
      preparation answer and change; that a delivery is handed out at most once;
      that an interrupted intake is completed by repeating it; that a receipt
      once written is read back; that a durable write is atomic; that the
      reading methods only read.
    - Contracts, scopes: a trie of scopes matches what some scope covers; the
      conflict test answers whether a path written by one side is read or
      written by the other; a canonical scope reads back, unless trimming sees
      its ends; the line parser accepts exactly a grammar of words and quotes.
    - Contracts, admission: admission and every check end, with no index out of
      range; an admitted matcher is well formed; a session keeps its root and
      authorization under any interleaving of admissions.
    - Contracts, grants: what a path check decides; a granted path is a file
      below the root, covered by a published claim; two contracts over one
      root, or two multi-domain ones, whose projections do not conflict never
      share a file one of them may change;
      a shell line runs on one of four routes, and on the template route every
      mutation has a granted target; a multi-domain contract runs only the
      removal of a worktree; discovery runs pinned binaries on claimed files.
    - Interceptor: every line gets a verdict; a line that is accepted in a
      workspace removes nothing outside of it, as far as [runs] follows the
      shell; lines that destroy protected paths or disks are refused, also
      nested; a workspace only relaxes the verdict.
    - File locks: locks that exclude each other are never held together; no
      deadlock among accesses that do not ask for clashing locks themselves;
      an access that does is never granted.
    - Patches: the format is printed and parsed back, and only well-formed
      changes parse; the patch that runs is the one that was admitted; hunks
      edit the first lines they fit, and the result is the edited lines with
      the line ends of the file; the evidence of a change replays it; a batch
      tries every change once and answers what became of each; a refused
      change leaves the disk as it was, an applied one has taken effect; a
      validated patch only touches paths whose names begin with those of the
      session directory, while its paths keep their meaning and have no
      backslashes; an admitted patch that holds no placeholder changes only
      files that its contract grants.
    - Batches: steps are barriers, and a command sees the outputs of smaller
      steps only; however its commands interleave, a batch runs as if they ran
      one by one, or stops at a patch that failed; it ends; a terminal status
      that says done is recorded last, after successes only, in a batch that is
      executed as a whole and in a stream; both executors give the same
      results.
    - Some theorems state defects: after an interrupted first blocker no blocker
      can be recorded, identifiers that contain NUL can share a file name,
      canonical scopes are not always canonical, the line parser drops
      backslashes that a shell keeps, and a patch with two sections for one file
      waits for itself.  Others are examples: the gaps of the interceptor,
      contracts on nested roots that share a file, a file beside the session
      directory that a backslash moves into it, a patch with a placeholder that
      changes files its contract does not grant, a file that is moved onto
      itself and lost, a file of one empty line that is emptied, line ends that
      are rewritten, a repaired step number that wraps around, a failed patch
      that does not stop its batch.

    ** Bounds and fuel

    Of the lifecycle, the one loop that is not structural is the polling loop
    ([TaskSchedule.poll_loop]); [poll_fuel] gives it one iteration more than the
    number of intervals between the start and now, and
    [TaskScheduleFacts.polling_least_next_start] shows that it never runs out.
    [RustPath.existing_boundary] pops one component per round and gets as many
    rounds as the path has components; [RustPath.resolve_settles] shows that
    they are enough.  [RustPath.ancestors] gets one more, for the path itself.
    [CommandText.scan] recurses to depth nine and gets ten rounds; the loops over
    the characters or words of a line get as many rounds as there are, or one
    more; [CommandInterception.interceptor_answers] shows that none runs out.
    The functions on patches are structural.  [OutputBindings.interpolate_text]
    gets as many rounds as the text has bytes; every placeholder takes some.  A
    batch has no fuel: [CommandBatchFacts.batch_ends].
    [usize] is taken to be 64 bits wide.  Theorems that depend on a length or a
    counter staying below [2^64] say so.

    ** Faults of the store's machine

    [w_faults] lists, for the I/O calls to come, which of them fail and with
    what; a failing write leaves a prefix of its bytes.  No method undoes its
    earlier writes when a later call fails, so a crash between two calls leaves
    what an error of the later call leaves; the operating system releases the
    lock, and the process that starts next has its own number and temporary
    counter (a step of [sys_step]).  Assumed of the machine: the
    tests [exists], [is_file] and [is_dir] do not err, a completed call is not
    undone (no power loss), [rename] replaces its target at once, and the lock
    excludes other processes' closures.  Assumed of serde: the law
    [SerdeLaws], that reading back the text of a record gives that record;
    [StoreInstances] gives an encoding that satisfies it.

    ** What the contract layer observes

    A check sees one [FileTree] for the length of one call, as if nothing
    changed the files meanwhile; theorems about two calls take two trees, and
    those about grants hold under whatever tree the check sees, not under later
    changes before the granted operation runs.  File names are UTF-8.  A read of
    the first bytes of a file returns as many as there are.  Assumed of the file
    system: [FileTreeLaws], that a canonical path is absolute, without dots and
    empty parts.  Isolation also asks for canonical roots without backslashes
    and claims that stand for their scopes ([clean_matcher]), because of the
    defects above.  Parameters: the derived readers of verifiers and bindings
    ([JSpaceSerde]), the descriptor check of a mapped source read and [Debug] of
    a list of strings ([JSpaceHost]).

    ** What the tools observe

    The interceptor reads a line and the names of two directories, no file; the
    variable that switches it off is a parameter.  Its theorems take canonical
    Unix paths for the working directory and the workspace, and say nothing of
    what [runs] does not follow: comments, groups, keywords, a changed
    directory, variables of the environment.  The steps of the lock manager are
    atomic, as the mutex makes them.  The disk under a patch ([Disk]) may change
    and fail at every call; [DiskLaws] says what [std::fs] documents about
    canonical paths, reading what was written and removing a file, and only the
    theorems on effects and on confinement ask for it.  [JsonLines] says that no line of a JSON text begins
    like a patch.  Paths are Unix paths and UTF-8, and other processes do not
    change the disk during a patch.  A batch asks the tools behind the router
    for answers, any answers ([may_answer]); whether a call may share is theirs
    to say, except for patches ([CommandHost], [is_macro_command_safe]).
    Commands in flight are steps of the machine; what they do to the disk
    meanwhile is not part of it.  The theorems on whole batches suppose that
    commands are numbered as [parse_args] numbers them and that repaired steps
    fit in 64 bits ([steps_fit]); a stream of pushed commands needs neither.

    ** What is not modelled

    Serde's derived readers and writers beyond the values they produce, wall
    clock reads, and the crates around these (gateway, router, provider,
    runtime worker, session log), which are services and I/O; of [tools],
    the registry of tools, processes, searches, source reads and media, and the
    parser of batches.  Of
    [session_lifecycle], the native watcher, which forwards events of the
    operating system, and the report of the control deck; of
    [runtime_contract], everything but the two records above; of [path], the
    descriptors behind a mapped source read, command receipts, git and process
    settings. *)

From stdpp Require Import base list strings gmap sets sorting.
From Stdlib Require Import ZArith Lia.

Create HintDb lifecycle.
Create Rewrite HintDb lifecycle_rw.

(** ** Functional update of records

    Rust code mutates one field of a struct ([self.state = next]).  The model
    passes structs by value, so such an assignment is [r.{st_state := next}].
    A record [R] opts in by an instance of [Eta R], its eta expansion; the
    update function of a field is derived from that expansion. *)

Class Eta (R : Type) := MkEta { eta : R → R }.
Class Setter {R T : Type} (f : R → T) := set_field : T → R → R.
Arguments MkEta {R} _.
Arguments set_field {R T} f {_} _ _.
#[global] Typeclasses Opaque Setter.

Ltac derive_setter :=
  lazymatch goal with
  | |- @Setter ?R ?T ?f =>
      let e := eval hnf in (@eta R _) in
      exact (λ (v : T) (r : R),
        ltac:(let b := eval cbv beta in (e r) in
              let p := eval pattern (f r) in b in
              lazymatch p with
              | ?g (f r) => let t := eval cbv beta in (g v) in exact t
              end))
  end.
#[export] Hint Extern 0 (Setter _) => derive_setter : typeclass_instances.

Declare Scope record_scope.
Notation "r '.{' f ':=' v '}'" := (set_field f v r)
  (at level 1, left associativity, f at level 99, v at level 200,
   format "r .{ f  :=  v }") : record_scope.
Open Scope record_scope.

(** ** Outcomes of fallible Rust code

    [Ok] and [Err] are the two arms of [Result]; [Panic] is an unwinding
    [panic!] of the standard library or of a dependency; [OutOfFuel] is the
    artefact of a loop translated with a fuel argument and is proved
    unreachable wherever such a loop is used. *)

Inductive outcome (E A : Type) : Type :=
| Ok (a : A)
| Err (e : E)
| Panic
| OutOfFuel.
Arguments Ok {E A} _.
Arguments Err {E A} _.
Arguments Panic {E A}.
Arguments OutOfFuel {E A}.

#[export] Instance outcome_ret {E} : MRet (outcome E) := λ _ a, Ok a.
#[export] Instance outcome_bind {E} : MBind (outcome E) := λ _ _ k m,
  match m with
  | Ok a => k a
  | Err e => Err e
  | Panic => Panic
  | OutOfFuel => OutOfFuel
  end.

(** [if condition { return Err(error) }]. *)
Definition reject_if {E} (condition : bool) (error : E) : outcome E unit :=
  if condition then Err error else Ok tt.

(** [option.ok_or(error)?]. *)
Definition ok_or {E A} (o : option A) (error : E) : outcome E A :=
  match o with Some a => Ok a | None => Err error end.

(** A library call that panics where [None]. *)
Definition or_panic {E A} (o : option A) : outcome E A :=
  match o with Some a => Ok a | None => Panic end.

Definition map_err {E F A} (f : E → F) (m : outcome E A) : outcome F A :=
  match m with
  | Ok a => Ok a
  | Err e => Err (f e)
  | Panic => Panic
  | OutOfFuel => OutOfFuel
  end.

Definition is_ok {E A} (m : outcome E A) : bool :=
  match m with Ok _ => true | _ => false end.
Definition is_err {E A} (m : outcome E A) : bool :=
  match m with Err _ => true | _ => false end.

(** The value of a successful outcome, else a default. *)
Definition ok_value {E A} (d : A) (m : outcome E A) : A :=
  match m with Ok a => a | _ => d end.

Lemma is_ok_value {E A} (d : A) (m : outcome E A) :
  is_ok m = true → m = Ok (ok_value d m).
Proof. by destruct m. Qed.

Lemma is_ok_pair {E A B} (d : A * B) (m : outcome E (A * B)) :
  is_ok m = true → m = Ok ((ok_value d m).1, (ok_value d m).2).
Proof. by destruct m as [[]| | |]. Qed.

Section OutcomeLemmas.
Context {E : Type}.

Lemma bind_Ok_inv {A B} (m : outcome E A) (k : A → outcome E B) b :
  m ≫= k = Ok b → ∃ a, m = Ok a ∧ k a = Ok b.
Proof. destruct m; simpl; try discriminate. eauto. Qed.

Lemma reject_if_Ok (c : bool) (e : E) u : reject_if c e = Ok u ↔ c = false.
Proof. destruct c, u; simpl; split; congruence. Qed.

Lemma ok_or_Ok {A} (o : option A) (e : E) a : ok_or o e = Ok a ↔ o = Some a.
Proof. destruct o; simpl; split; congruence. Qed.

Lemma or_panic_Ok {A} (o : option A) a : or_panic (E:=E) o = Ok a ↔ o = Some a.
Proof. destruct o; simpl; split; congruence. Qed.

(** A computation that neither panics nor runs out of fuel. *)
Definition settles {A} (m : outcome E A) : Prop := (∃ a, m = Ok a) ∨ (∃ e, m = Err e).

Lemma settles_reject_if (c : bool) (e : E) : settles (reject_if c e).
Proof. unfold settles. destruct c; simpl; eauto. Qed.

Lemma settles_bind {A B} (m : outcome E A) (k : A → outcome E B) :
  settles m → (∀ a, settles (k a)) → settles (m ≫= k).
Proof. intros [[a ->]|[e ->]] Hk; simpl; [apply Hk|right; eauto]. Qed.

Lemma settles_not_err {A} (m : outcome E A) : settles m → is_err m = false → is_ok m = true.
Proof. by intros [[a ->]|[e ->]]. Qed.

Lemma settles_Ok {A} (a : A) : settles (Ok (E:=E) a).
Proof. left. eauto. Qed.
Lemma settles_Err {A} (e : E) : settles (Err (A:=A) e).
Proof. right. eauto. Qed.
Lemma settles_ok_or {A} (o : option A) (e : E) : settles (ok_or o e).
Proof. destruct o; [apply settles_Ok|apply settles_Err]. Qed.
Lemma settles_bind_Ok {A B} (m : outcome E A) (k : A → outcome E B) :
  settles m → (∀ a, m = Ok a → settles (k a)) → settles (m ≫= k).
Proof. intros [[a ->]|[e ->]] Hk; [by apply Hk|apply settles_Err]. Qed.
End OutcomeLemmas.
Lemma settles_map_err {E F A} (f : E → F) (m : outcome E A) : settles m → settles (map_err f m).
Proof. intros [[a ->]|[e ->]]; [apply settles_Ok|apply settles_Err]. Qed.
#[export] Hint Resolve settles_reject_if settles_bind : lifecycle.

(** ** Automation

    [outcome_inv] turns a hypothesis [m = Ok x] about a sequence of fallible
    steps into the facts each step established. *)


Ltac outcome_inv :=
  repeat match goal with
  | H : Ok _ = Ok _ |- _ => injection H as H; try subst
  | H : Err _ = Err _ |- _ => injection H as H; try subst
  | H : Ok _ = Err _ |- _ => discriminate H
  | H : Err _ = Ok _ |- _ => discriminate H
  | H : Panic = Ok _ |- _ => discriminate H
  | H : OutOfFuel = Ok _ |- _ => discriminate H
  | H : mbind _ _ = Ok _ |- _ =>
      apply bind_Ok_inv in H; destruct H as (? & ? & ?)
  | H : reject_if _ _ = Ok _ |- _ => apply reject_if_Ok in H
  | H : ok_or _ _ = Ok _ |- _ => apply ok_or_Ok in H
  | H : or_panic _ = Ok _ |- _ => apply or_panic_Ok in H
  | H : mret _ = Ok _ |- _ => injection H as H; try subst
  end.

(** Splits a boolean guard found false into its disjuncts found false, and a
    guard found true into its conjuncts. *)
Ltac guards :=
  repeat match goal with
  | H : (_ || _)%bool = false |- _ => apply orb_false_iff in H; destruct H
  | H : (_ && _)%bool = true |- _ => apply andb_true_iff in H; destruct H
  | H : negb _ = false |- _ => apply negb_false_iff in H
  | H : negb _ = true |- _ => apply negb_true_iff in H
  | H : bool_decide _ = true |- _ => apply bool_decide_eq_true_1 in H
  | H : bool_decide _ = false |- _ => apply bool_decide_eq_false_1 in H
  end.

(** Case analysis on the scrutinee of a [match] or [if] in the goal or in a
    hypothesis, innermost first. *)
Ltac split_match :=
  match goal with
  | |- context [match ?x with _ => _ end] =>
      lazymatch x with context [match _ with _ => _ end] => fail | _ => destruct x eqn:? end
  | H : context [match ?x with _ => _ end] |- _ =>
      lazymatch x with context [match _ with _ => _ end] => fail | _ => destruct x eqn:? end
  end.

(** The same on hypotheses only. *)
Ltac split_hyp :=
  match goal with
  | H : context [match ?x with _ => _ end] |- _ =>
      lazymatch x with context [match _ with _ => _ end] => fail | _ => destruct x eqn:? end
  end.

(** ** Lists *)

Section Lists.
Context {A : Type}.
Implicit Types (l : list A) (P : A → bool).

(** [iter().position(p)]. *)
Fixpoint position P l : option nat :=
  match l with
  | [] => None
  | x :: l' => if P x then Some 0 else S <$> position P l'
  end.

(** [iter().find(p)]. *)
Fixpoint find P l : option A :=
  match l with
  | [] => None
  | x :: l' => if P x then Some x else find P l'
  end.

Lemma position_Some P l i :
  position P l = Some i →
  ∃ x, l !! i = Some x ∧ P x = true ∧ ∀ j y, j < i → l !! j = Some y → P y = false.
Proof.
  revert i. induction l as [|x l IH]; intros i; simpl; [done|].
  destruct (P x) eqn:HP.
  - intros [= <-]. exists x. split_and!; [done..|]. intros; lia.
  - destruct (position P l) as [k|] eqn:Hk; simpl; [|done].
    intros [= <-]. destruct (IH k eq_refl) as (y & Hy & HPy & Hlt).
    exists y. split_and!; [done..|]. intros [|j] z Hj; simpl.
    + by intros [= <-].
    + apply Hlt; lia.
Qed.

Lemma position_first P l i x :
  l !! i = Some x → P x = true →
  (∀ j y, j < i → l !! j = Some y → P y = false) →
  position P l = Some i.
Proof.
  revert i. induction l as [|z l IH]; intros i; simpl; [done|].
  destruct i as [|i]; simpl.
  - intros [= ->] -> _. done.
  - intros Hi HP Hlt. rewrite (Hlt 0 z); [|lia|done].
    rewrite (IH i); [done..|]. intros j y Hj. apply (Hlt (S j)); lia.
Qed.

Lemma position_lt P l i : position P l = Some i → i < length l.
Proof. intros (x & Hx & _)%position_Some. by eapply lookup_lt_Some. Qed.

Lemma position_None P l : position P l = None ↔ ∀ x, x ∈ l → P x = false.
Proof.
  induction l as [|x l IH]; simpl.
  - split; [|done]. intros _ x Hx. by apply not_elem_of_nil in Hx.
  - destruct (P x) eqn:HP.
    + split; [done|]. intros H. rewrite (H x) in HP; [done|constructor].
    + rewrite fmap_None, IH. split.
      * intros H y [->|Hy]%elem_of_cons; auto.
      * intros H y Hy. apply H. by constructor.
Qed.

Lemma find_position P l : find P l = position P l ≫= λ i, l !! i.
Proof.
  induction l as [|x l IH]; simpl; [done|].
  destruct (P x); [done|]. rewrite IH. by destruct (position P l).
Qed.

Lemma find_Some P l x : find P l = Some x → x ∈ l ∧ P x = true.
Proof.
  induction l as [|y l IH]; simpl; [done|]. destruct (P y) eqn:HP.
  - intros [= ->]. split; [constructor|done].
  - intros [Hx ?]%IH. split; [by constructor|done].
Qed.

Lemma find_None P l : find P l = None ↔ ∀ x, x ∈ l → P x = false.
Proof.
  rewrite find_position, <- position_None.
  destruct (position P l) as [i|] eqn:Hp; simpl; [|done].
  destruct (position_Some _ _ _ Hp) as (x & Hx & _). rewrite Hx. done.
Qed.
End Lists.
#[export] Hint Resolve position_lt : lifecycle.
