(* ===== verification/RustStd.v ===== *)
(** * The part of the Rust standard library the payload uses

    Strings are byte strings (the UTF-8 encoding Rust stores), so [len] counts
    bytes and the order is the byte order of [str]'s [Ord].  [trim] removes the
    UTF-8 encodings of the code points with the Unicode [White_Space]
    property, as [str::trim] does.  Machine integers are [Z] with their width
    written out; [BTreeSet] is a [gset] whose iteration order is the sorted
    one; [Vec::sort_by_key] is a stable insertion sort. *)

From stdpp Require Import base list strings gmap sets sorting.
From Stdlib Require Import ZArith Lia Ascii SpecFloat.
From Stdlib Require String.
From S2P Require Import Prelude.
Open Scope Z_scope.

(** ** Machine integers *)

Definition u64_max : Z := 2 ^ 64 - 1.
Definition i64_max : Z := 2 ^ 63 - 1.
Definition in_u64 (x : Z) : Prop := 0 ≤ x ≤ u64_max.

Definition u64_saturating_add (a b : Z) : Z := Z.min (a + b) u64_max.
Definition u64_saturating_mul (a b : Z) : Z := Z.min (a * b) u64_max.
(** [+= 1] on [u64] in a release build: wrap around. *)
Definition u64_wrapping_add (a b : Z) : Z := (a + b) mod 2 ^ 64.

Lemma u64_saturating_add_range a b :
  in_u64 a → in_u64 b → in_u64 (u64_saturating_add a b).
Proof. unfold in_u64, u64_saturating_add, u64_max. lia. Qed.

Lemma u64_saturating_mul_range a b :
  in_u64 a → in_u64 b → in_u64 (u64_saturating_mul a b).
Proof. unfold in_u64, u64_saturating_mul, u64_max. nia. Qed.
#[export] Hint Resolve u64_saturating_add_range u64_saturating_mul_range : lifecycle.

(** ** Floating point

    [f32]/[f64] values are only stored, copied and compared, so they are the
    specification floats of the Standard Library; [==] is IEEE equality, which
    is not reflexive at NaN. *)

Definition f64 : Type := spec_float.
Definition f64_eqb : f64 → f64 → bool := SFeqb.
Definition f64_is_nan (x : f64) : bool :=
  match x with S754_nan => true | _ => false end.

Lemma f64_eqb_refl x : f64_eqb x x = negb (f64_is_nan x).
Proof.
  unfold f64_eqb, SFeqb. destruct x as [[]|[]| |[] m e]; simpl; try done;
    rewrite Z.compare_refl, Pos.compare_refl; done.
Qed.

(** ** Whitespace trimming *)

Section Strip.
(** Recognisers of a one-, two- and three-byte prefix. *)
Context (w1 : ascii → bool) (w2 : ascii → ascii → bool)
        (w3 : ascii → ascii → ascii → bool).

Fixpoint strip (s : list ascii) : list ascii :=
  match s with
  | [] => []
  | a :: s1 =>
      if w1 a then strip s1 else
      match s1 with
      | [] => s
      | b :: s2 =>
          if w2 a b then strip s2 else
          match s2 with
          | [] => s
          | c :: s3 => if w3 a b c then strip s3 else s
          end
      end
  end.

Definition has_prefix (s : list ascii) : bool :=
  match s with
  | [] => false
  | [a] => w1 a
  | [a; b] => w1 a || w2 a b
  | a :: b :: c :: _ => w1 a || w2 a b || w3 a b c
  end.

Lemma strip_spec n s :
  (length s ≤ n)%nat →
  has_prefix (strip s) = false ∧ ∃ u, s = u ++ strip s.
Proof.
  revert s. induction n as [|n IH]; intros s Hn.
  { destruct s; simpl in *; [|lia]. split; [done|]. by exists []. }
  destruct s as [|a [|b [|c s]]]; simpl in *.
  - split; [done|]. by exists [].
  - destruct (w1 a) eqn:E1; simpl.
    + split; [done|]. by exists [a].
    + rewrite E1. split; [done|]. by exists [].
  - destruct (w1 a) eqn:E1.
    { destruct (IH [b]) as [? [u Hu]]; [simpl; lia|]. split; [done|].
      exists (a :: u). simpl in *. by rewrite <- Hu. }
    destruct (w2 a b) eqn:E2; simpl.
    + split; [done|]. by exists [a; b].
    + rewrite E1, E2. split; [done|]. by exists [].
  - destruct (w1 a) eqn:E1.
    { destruct (IH (b :: c :: s)) as [? [u Hu]]; [simpl; lia|]. split; [done|].
      exists (a :: u). simpl in *. by rewrite <- Hu. }
    destruct (w2 a b) eqn:E2.
    { destruct (IH (c :: s)) as [? [u Hu]]; [simpl; lia|]. split; [done|].
      exists (a :: b :: u). simpl in *. by rewrite <- Hu. }
    destruct (w3 a b c) eqn:E3; simpl.
    + destruct (IH s) as [? [u Hu]]; [lia|]. split; [done|].
      exists (a :: b :: c :: u). simpl. by rewrite <- Hu.
    + rewrite E1, E2, E3. split; [done|]. by exists [].
Qed.

Lemma strip_suffix s : ∃ u, s = u ++ strip s.
Proof. by destruct (strip_spec (length s) s). Qed.

Lemma strip_no_prefix s : has_prefix (strip s) = false.
Proof. by destruct (strip_spec (length s) s). Qed.

Lemma strip_fixed s : has_prefix s = false → strip s = s.
Proof.
  destruct s as [|a [|b [|c s]]]; simpl; [done|..]; intros; guards;
    repeat match goal with H : _ = false |- _ => rewrite H; clear H end; done.
Qed.

Lemma strip_idemp s : strip (strip s) = strip s.
Proof. apply strip_fixed, strip_no_prefix. Qed.

(** What is stripped entirely consists of recognised bytes. *)
Lemma strip_nil (P : ascii → Prop) :
  (∀ a, w1 a = true → P a) → (∀ a b, w2 a b = true → P a ∧ P b) →
  (∀ a b c, w3 a b c = true → P a ∧ P b ∧ P c) → ∀ s, strip s = [] → Forall P s.
Proof.
  intros H1 H2 H3 s. remember (length s) as n eqn:Hn.
  revert s Hn. induction (lt_wf n) as [n _ IH]. intros s -> Hs.
  destruct s as [|a s1]; [done|]. simpl in Hs. destruct (w1 a) eqn:E1.
  { constructor; [auto|]. by eapply IH; [|done|]; [simpl; lia|]. }
  destruct s1 as [|b s2]; [done|]. destruct (w2 a b) eqn:E2.
  { destruct (H2 _ _ E2). repeat constructor; [done..|].
    by eapply IH; [|done|]; [simpl; lia|]. }
  destruct s2 as [|c s3]; [done|]. destruct (w3 a b c) eqn:E3; [|done].
  destruct (H3 _ _ _ E3) as (? & ? & ?). repeat constructor; [done..|].
  by eapply IH; [|done|]; [simpl; lia|].
Qed.

Lemma has_prefix_app u v : has_prefix (u ++ v) = false → has_prefix u = false.
Proof.
  destruct u as [|a [|b [|c u]]]; destruct v as [|d [|e v]]; simpl; intros;
    guards; repeat match goal with H : _ = false |- _ => rewrite H; clear H end; done.
Qed.
End Strip.

(** [char::is_whitespace] by the length of the UTF-8 encoding. *)
Definition ws1 (a : ascii) : bool :=
  let n := nat_of_ascii a in
  ((9 <=? n) && (n <=? 13) || (n =? 32))%nat.
Definition ws2 (a b : ascii) : bool :=
  let n := nat_of_ascii b in
  ((nat_of_ascii a =? 194) && ((n =? 133) || (n =? 160)))%nat.
Definition ws3 (a b c : ascii) : bool :=
  let x := nat_of_ascii a in let y := nat_of_ascii b in let z := nat_of_ascii c in
  ((x =? 225) && (y =? 154) && (z =? 128)
   || (x =? 226) && (y =? 128)
      && ((128 <=? z) && (z <=? 138) || (z =? 168) || (z =? 169) || (z =? 175))
   || (x =? 226) && (y =? 129) && (z =? 159)
   || (x =? 227) && (y =? 128) && (z =? 128))%nat.

Definition trim_start_bytes : list ascii → list ascii := strip ws1 ws2 ws3.
Definition trim_end_bytes (s : list ascii) : list ascii :=
  rev (strip ws1 (λ a b, ws2 b a) (λ a b c, ws3 c b a) (rev s)).
Definition trim_bytes (s : list ascii) : list ascii :=
  trim_end_bytes (trim_start_bytes s).

(** [str::trim]. *)
Definition trim (s : string) : string :=
  String.string_of_list_ascii (trim_bytes (String.list_ascii_of_string s)).
(** [str::is_empty]. *)
Definition is_empty (s : string) : bool := bool_decide (s = ""%string).
(** [s.trim().is_empty()]. *)
Definition is_blank (s : string) : bool := is_empty (trim s).
(** [str::len]: bytes. *)
Definition len (s : string) : Z := Z.of_nat (String.length s).
(** [<] on [str]. *)
Definition str_lt (s t : string) : bool := (s <? t)%string.

Lemma trim_end_bytes_prefix s : ∃ u, s = trim_end_bytes s ++ u.
Proof.
  unfold trim_end_bytes.
  destruct (strip_suffix ws1 (λ a b, ws2 b a) (λ a b c, ws3 c b a) (rev s)) as [u Hu].
  exists (rev u). rewrite <- rev_app_distr, <- Hu. symmetry. apply rev_involutive.
Qed.

Lemma trim_bytes_idemp s : trim_bytes (trim_bytes s) = trim_bytes s.
Proof.
  unfold trim_bytes at 2 3. set (t := trim_start_bytes s).
  assert (Hfix : trim_start_bytes (trim_end_bytes t) = trim_end_bytes t).
  { apply strip_fixed. destruct (trim_end_bytes_prefix t) as [u Hu].
    apply (has_prefix_app _ _ _ _ u). rewrite <- Hu. apply strip_no_prefix. }
  unfold trim_bytes. rewrite Hfix. unfold trim_end_bytes.
  by rewrite rev_involutive, strip_idemp.
Qed.

Lemma trim_idemp s : trim (trim s) = trim s.
Proof.
  unfold trim. by rewrite String.list_ascii_of_string_of_list_ascii, trim_bytes_idemp.
Qed.

Lemma is_blank_trim s : is_blank (trim s) = is_blank s.
Proof. unfold is_blank. by rewrite trim_idemp. Qed.

(** A text that starts with a visible ASCII character is not blank. *)
Lemma visible_not_blank a s :
  (33 ≤ nat_of_ascii a < 127)%nat → is_blank (String a s) = false.
Proof.
  intros Ha. apply bool_decide_eq_false_2. unfold trim. intros Hnil.
  apply (f_equal String.list_ascii_of_string) in Hnil.
  rewrite String.list_ascii_of_string_of_list_ascii in Hnil. simpl in Hnil.
  set (l := a :: String.list_ascii_of_string s) in *.
  set (P := λ c : ascii, ¬ (33 ≤ nat_of_ascii c < 127)%nat).
  assert (Hfix : trim_start_bytes l = l).
  { apply strip_fixed. unfold l.
    destruct (String.list_ascii_of_string s) as [|b [|c l']]; simpl; unfold ws1, ws2, ws3;
      rewrite ?orb_false_iff, ?andb_false_iff, ?orb_false_iff; repeat split;
      rewrite ?Nat.eqb_neq, ?Nat.leb_gt; lia. }
  unfold trim_bytes in Hnil. rewrite Hfix in Hnil. unfold trim_end_bytes in Hnil.
  apply (f_equal (@rev ascii)) in Hnil. rewrite rev_involutive in Hnil. simpl in Hnil.
  apply (strip_nil _ _ _ P) in Hnil.
  - rewrite Forall_forall in Hnil. apply (Hnil a); [|done].
    apply elem_of_app. right. by apply list_elem_of_singleton.
  - intros c. unfold ws1, P. rewrite orb_true_iff, andb_true_iff, !Nat.leb_le, Nat.eqb_eq. lia.
  - intros c d. unfold ws2, P.
    rewrite andb_true_iff, orb_true_iff, !Nat.eqb_eq. lia.
  - intros c d e. unfold ws3, P.
    rewrite !orb_true_iff, !andb_true_iff, !orb_true_iff, !andb_true_iff, !Nat.eqb_eq, !Nat.leb_le.
    lia.
Qed.

Lemma trimmed_not_blank s : trim s = s → is_empty s = false → is_blank s = false.
Proof. unfold is_blank. by intros ->. Qed.
#[export] Hint Rewrite trim_idemp is_blank_trim : lifecycle_rw.

(** A space, a tab, U+3000 and U+00A0 around a word. *)
Example trim_examples :
  trim "  a b " = "a b"%string ∧ trim "" = ""%string ∧
  trim (String.string_of_list_ascii
          (ascii_of_nat <$> [9; 227; 128; 128; 120; 32; 121; 194; 160]%nat)) = "x y"%string.
Proof. vm_compute. done. Qed.

(** ** ASCII case and characters *)

Fixpoint str_map (f : ascii → ascii) (s : string) : string :=
  match s with
  | EmptyString => EmptyString
  | String a s' => String (f a) (str_map f s')
  end.

(** [str::to_ascii_lowercase]. *)
Definition to_ascii_lowercase : string → string :=
  str_map (λ a, let n := nat_of_ascii a in
    if ((65 <=? n) && (n <=? 90))%nat then ascii_of_nat (n + 32) else a).
(** [str::replace(from, to)] on single characters. *)
Definition replace_char (from to : ascii) : string → string :=
  str_map (λ a, if Ascii.eqb a from then to else a).

Lemma strip_cons3 w1 w2 w3 a b c s :
  strip w1 w2 w3 (a :: b :: c :: s) =
  if w1 a then strip w1 w2 w3 (b :: c :: s) else
  if w2 a b then strip w1 w2 w3 (c :: s) else
  if w3 a b c then strip w1 w2 w3 s else a :: b :: c :: s.
Proof. reflexivity. Qed.

(** A map of bytes that neither makes nor breaks a white-space encoding commutes
    with trimming. *)
Lemma strip_map w1 w2 w3 (f : ascii → ascii) s :
  (∀ a, w1 (f a) = w1 a) → (∀ a b, w2 (f a) (f b) = w2 a b) →
  (∀ a b c, w3 (f a) (f b) (f c) = w3 a b c) →
  strip w1 w2 w3 (f <$> s) = f <$> strip w1 w2 w3 s.
Proof.
  intros H1 H2 H3. remember (length s) as n eqn:Hn. assert (length s ≤ n)%nat as Hle by lia.
  clear Hn. revert s Hle. induction n as [|n IH]; intros s Hle.
  { destruct s; [done|simpl in Hle; lia]. }
  destruct s as [|a [|b [|c s]]]; [done|..].
  - simpl. rewrite H1. by destruct (w1 a).
  - simpl. rewrite !H1, H2. destruct (w1 a); [by destruct (w1 b)|]. by destruct (w2 a b).
  - change (f <$> a :: b :: c :: s) with (f a :: f b :: f c :: (f <$> s)).
    rewrite !(strip_cons3 w1 w2 w3), H1, H2, H3. simpl in Hle.
    destruct (w1 a); [apply (IH (b :: c :: s)); simpl; lia|].
    destruct (w2 a b); [apply (IH (c :: s)); simpl; lia|].
    destruct (w3 a b c); [apply IH; lia|done].
Qed.

(** Bytes [f] may move: not those of a white-space encoding, nor onto them. *)
Definition ws_byte (a : ascii) : bool :=
  let n := nat_of_ascii a in ws1 a || (128 <=? n)%nat.
Definition keeps_ws (f : ascii → ascii) : Prop :=
  ∀ a, if ws_byte a then f a = a else ws_byte (f a) = false.

Lemma ws2_byte a b : ws2 a b = true → ws_byte a = true ∧ ws_byte b = true.
Proof.
  unfold ws2, ws_byte. intros Hw. guards.
  rewrite orb_true_iff in *. rewrite !Nat.eqb_eq in *. rewrite !orb_true_iff, !Nat.leb_le. lia.
Qed.

Lemma ws3_byte a b c :
  ws3 a b c = true → ws_byte a = true ∧ ws_byte b = true ∧ ws_byte c = true.
Proof.
  unfold ws3, ws_byte. rewrite !orb_true_iff, !andb_true_iff, !orb_true_iff, !andb_true_iff,
    !Nat.eqb_eq, !Nat.leb_le. lia.
Qed.

Lemma keeps_ws_spec f : keeps_ws f →
  (∀ a, ws1 (f a) = ws1 a) ∧ (∀ a b, ws2 (f a) (f b) = ws2 a b) ∧
  (∀ a b c, ws3 (f a) (f b) (f c) = ws3 a b c).
Proof.
  intros Hf.
  assert (Hcase : ∀ a, (ws_byte a = true ∧ f a = a) ∨
                       (ws_byte a = false ∧ ws_byte (f a) = false)).
  { intros a. specialize (Hf a). destruct (ws_byte a); auto. }
  assert (Hn1 : ∀ a, ws_byte a = false → ws1 a = false).
  { intros a. unfold ws_byte. intros. by guards. }
  assert (Hn2 : ∀ a b, ws_byte a = false ∨ ws_byte b = false → ws2 a b = false).
  { intros a b Hab. destruct (ws2 a b) eqn:He; [|done].
    apply ws2_byte in He as [??]. destruct Hab; congruence. }
  assert (Hn3 : ∀ a b c, ws_byte a = false ∨ ws_byte b = false ∨ ws_byte c = false →
                         ws3 a b c = false).
  { intros a b c Hab. destruct (ws3 a b c) eqn:He; [|done].
    apply ws3_byte in He as (?&?&?). destruct Hab as [?|[?|?]]; congruence. }
  split_and!.
  - intros a. destruct (Hcase a) as [[_ ->]|[Ha Hfa]]; [done|]. by rewrite !Hn1.
  - intros a b. destruct (Hcase a) as [[_ ->]|[Ha Hfa]], (Hcase b) as [[_ ->]|[Hb Hfb]];
      [done|..]; by rewrite !Hn2 by auto.
  - intros a b c. destruct (Hcase a) as [[_ ->]|[Ha Hfa]], (Hcase b) as [[_ ->]|[Hb Hfb]],
      (Hcase c) as [[_ ->]|[Hc Hfc]]; [done|..]; by rewrite !Hn3 by auto.
Qed.

Lemma list_ascii_str_map f s :
  String.list_ascii_of_string (str_map f s) = f <$> String.list_ascii_of_string s.
Proof. induction s as [|a s IH]; simpl; [done|]. by rewrite IH. Qed.

Lemma string_of_list_map f l :
  String.string_of_list_ascii (f <$> l) = str_map f (String.string_of_list_ascii l).
Proof. induction l as [|a l IH]; [done|]. exact (f_equal (String (f a)) IH). Qed.

Lemma trim_map f s : keeps_ws f → trim (str_map f s) = str_map f (trim s).
Proof.
  intros (H1 & H2 & H3)%keeps_ws_spec. unfold trim. rewrite list_ascii_str_map.
  unfold trim_bytes, trim_start_bytes, trim_end_bytes.
  assert (Hrev : ∀ l : list ascii, rev (f <$> l) = f <$> rev l)
    by (intros l; symmetry; apply map_rev).
  rewrite strip_map by done. rewrite Hrev, strip_map by done.
  rewrite Hrev. apply string_of_list_map.
Qed.

Lemma str_map_compose f g s : str_map f (str_map g s) = str_map (f ∘ g) s.
Proof. induction s as [|a s IH]; simpl; [done|]. by rewrite IH. Qed.

Lemma str_map_ext f g s : (∀ a, f a = g a) → str_map f s = str_map g s.
Proof. intros Hfg. induction s as [|a s IH]; simpl; [done|]. by rewrite Hfg, IH. Qed.

Lemma append_assoc (s t u : string) : (s +:+ t) +:+ u = s +:+ (t +:+ u).
Proof. induction s as [|x s IH]; [done|]. exact (f_equal (String x) IH). Qed.

Lemma append_empty (s : string) : s +:+ "" = s.
Proof. induction s as [|x s IH]; [done|]. exact (f_equal (String x) IH). Qed.

Fixpoint bytes_all (p : ascii → bool) (s : string) : bool :=
  match s with
  | EmptyString => true
  | String a s' => p a && bytes_all p s'
  end.

(** ** Collections *)

(** [Vec::contains]. *)
Definition contains `{EqDecision A} (l : list A) (x : A) : bool :=
  bool_decide (x ∈ l).

(** Iteration over a [BTreeSet<String>]: ascending order. *)
Definition btree_iter (s : gset string) : list string :=
  merge_sort String.le (elements s).

Lemma elem_of_btree_iter s x : x ∈ btree_iter s ↔ x ∈ s.
Proof. unfold btree_iter. by rewrite merge_sort_Permutation, elem_of_elements. Qed.

(** [Vec::sort] on strings, [Vec::dedup]. *)
Definition sort_strings : list string → list string := merge_sort String.le.
Fixpoint dedup `{EqDecision A} (l : list A) : list A :=
  match l with
  | [] => []
  | x :: l' =>
      match l' with
      | [] => [x]
      | y :: _ => if bool_decide (x = y) then dedup l' else x :: dedup l'
      end
  end.

(** [slice.windows(2).all(|pair| r(pair[0], pair[1]))]. *)
Fixpoint windows2_all {A} (r : A → A → bool) (l : list A) : bool :=
  match l with
  | [] => true
  | x :: l' => match l' with [] => true | y :: _ => r x y && windows2_all r l' end
  end.

(** [Vec::sort_by_key]: stable. *)
Section SortByKey.
Context {A : Type} (key : A → Z).

Fixpoint insert_by_key (x : A) (l : list A) : list A :=
  match l with
  | [] => [x]
  | y :: l' => if key x <=? key y then x :: l else y :: insert_by_key x l'
  end.
Fixpoint sort_by_key (l : list A) : list A :=
  match l with
  | [] => []
  | x :: l' => insert_by_key x (sort_by_key l')
  end.

Lemma insert_by_key_perm x l : insert_by_key x l ≡ₚ x :: l.
Proof.
  induction l as [|y l IH]; simpl; [done|]. case_match; [done|].
  rewrite IH. apply Permutation_swap.
Qed.

Lemma sort_by_key_perm l : sort_by_key l ≡ₚ l.
Proof.
  induction l as [|x l IH]; simpl; [done|]. by rewrite insert_by_key_perm, IH.
Qed.

Lemma insert_by_key_sorted x l :
  StronglySorted (λ a b, key a ≤ key b) l →
  StronglySorted (λ a b, key a ≤ key b) (insert_by_key x l).
Proof.
  induction 1 as [|y l Hl IH Hy]; simpl.
  - repeat constructor.
  - destruct (Z.leb_spec (key x) (key y)).
    + constructor; [by constructor|]. constructor; [done|].
      eapply Forall_impl; [exact Hy|]. simpl. lia.
    + constructor; [done|]. rewrite insert_by_key_perm. constructor; [lia|done].
Qed.

Lemma sort_by_key_sorted l :
  StronglySorted (λ a b, key a ≤ key b) (sort_by_key l).
Proof. induction l; simpl; [constructor|]. by apply insert_by_key_sorted. Qed.

(** Stability: the elements of one key keep their relative order. *)
Lemma insert_by_key_stable k x l :
  filter (λ y, key y = k) (insert_by_key x l) = filter (λ y, key y = k) (x :: l).
Proof.
  induction l as [|y l IH]; simpl; [done|].
  destruct (Z.leb_spec (key x) (key y)); [done|].
  rewrite filter_cons, IH, !filter_cons. repeat case_decide; try done. lia.
Qed.

Lemma sort_by_key_stable k l :
  filter (λ y, key y = k) (sort_by_key l) = filter (λ y, key y = k) l.
Proof.
  induction l as [|x l IH]; simpl; [done|].
  rewrite insert_by_key_stable, !filter_cons, IH. done.
Qed.
End SortByKey.
