(* ===== verification/Externals.v ===== *)
(** * Interfaces to the crates the payload depends on

    The payload calls [chrono], [serde_json] and [sha2], whose sources are not
    part of the repository.  Each is a class of operations; what the payload
    relies on is a second class of laws that restate the crate's
    documentation.  Every component is parameterised by the operations, and a
    theorem that needs a law says so in its context. *)

From stdpp Require Import base list strings gmap.
From Stdlib Require Import ZArith Lia Ascii.
From S2P Require Import Prelude RustStd.
Open Scope Z_scope.

(** ** chrono

    [DateTime<Utc>] and [Duration] ([TimeDelta]).  [dt_nanos] and [td_nanos]
    are their meaning as nanoseconds; the code never computes them, they state
    the laws and bound the one loop over dates.  [None] is a panic for
    [duration_seconds] and [dt_add], and [None] for [checked_sub_signed]. *)
Class Chrono := {
  DateTime : Type;
  TimeDelta : Type;
  #[global] DateTime_eq_dec :: EqDecision DateTime;
  dt_leb : DateTime → DateTime → bool;
  timestamp_millis : DateTime → Z;
  MIN_UTC : DateTime;
  duration_seconds : Z → option TimeDelta;
  dt_add : DateTime → TimeDelta → option DateTime;
  checked_sub_signed : DateTime → TimeDelta → option DateTime;
  dt_serialize : DateTime → string;
  dt_nanos : DateTime → Z;
  td_nanos : TimeDelta → Z;
}.

(** Dates are ordered by the instant they denote, [Duration::seconds] accepts
    exactly the seconds whose milliseconds fit an [i64], adding or subtracting
    a duration moves the instant by it whenever the moved instant is a
    representable date, and the serialised form (RFC 3339 with the full
    sub-second precision) determines the date.  Leap seconds are left out. *)
Class ChronoLaws (C : Chrono) : Prop := {
  dt_leb_nanos a b : dt_leb a b = true ↔ dt_nanos a ≤ dt_nanos b;
  dt_nanos_inj a b : dt_nanos a = dt_nanos b → a = b;
  timestamp_millis_nanos a : timestamp_millis a = dt_nanos a / 10 ^ 6;
  duration_seconds_some n d : duration_seconds n = Some d → td_nanos d = n * 10 ^ 9;
  duration_seconds_total n :
    is_Some (duration_seconds n) ↔ - (i64_max / 1000) ≤ n ≤ i64_max / 1000;
  dt_add_nanos a d b : dt_add a d = Some b ↔ dt_nanos b = dt_nanos a + td_nanos d;
  checked_sub_nanos a d b :
    checked_sub_signed a d = Some b ↔ dt_nanos b = dt_nanos a - td_nanos d;
  dt_serialize_inj a b : dt_serialize a = dt_serialize b → a = b;
}.

(** ** serde_json

    [Number] is opaque.  [Value] has the crate's constructors; an object is
    the [BTreeMap] the crate uses without its [preserve_order] feature, as the
    list of its entries in key order. *)
Class JsonNumber := {
  Number : Type;
  number_eqb : Number → Number → bool;
  number_to_string : Number → string;
  number_of_u64 : Z → Number;
}.

Class JsonNumberLaws (N : JsonNumber) : Prop := {
  number_eqb_refl n : number_eqb n n = true;
}.

#[warnings="-register-all"]
Inductive Value `{JsonNumber} : Type :=
| Null
| VBool (b : bool)
| VNumber (n : Number)
| VString (s : string)
| VArray (vs : list Value)
| VObject (fields : list (string * Value)).

Section ValueInd.
Context `{JsonNumber} (P : Value → Prop).
Hypothesis (HNull : P Null) (HBool : ∀ b, P (VBool b)) (HNum : ∀ n, P (VNumber n))
  (HStr : ∀ s, P (VString s))
  (HArr : ∀ vs, Forall P vs → P (VArray vs))
  (HObj : ∀ fs, Forall (λ f, P f.2) fs → P (VObject fs)).

Fixpoint Value_nested_ind (v : Value) : P v :=
  match v with
  | Null => HNull
  | VBool b => HBool b
  | VNumber n => HNum n
  | VString s => HStr s
  | VArray vs => HArr vs
      ((fix go (l : list Value) : Forall P l :=
         match l with
         | [] => Forall_nil_2 _
         | x :: l' => Forall_cons_2 _ _ _ (Value_nested_ind x) (go l')
         end) vs)
  | VObject fs => HObj fs
      ((fix go (l : list (string * Value)) : Forall (λ f, P f.2) l :=
         match l with
         | [] => Forall_nil_2 _
         | x :: l' => Forall_cons_2 _ _ _ (Value_nested_ind x.2) (go l')
         end) fs)
  end.
End ValueInd.

(** [PartialEq for Value]. *)
Fixpoint value_eqb `{JsonNumber} (v w : Value) : bool :=
  match v, w with
  | Null, Null => true
  | VBool a, VBool b => Bool.eqb a b
  | VNumber a, VNumber b => number_eqb a b
  | VString a, VString b => bool_decide (a = b)
  | VArray a, VArray b =>
      (fix go (l k : list Value) : bool :=
         match l, k with
         | [], [] => true
         | x :: l', y :: k' => value_eqb x y && go l' k'
         | _, _ => false
         end) a b
  | VObject a, VObject b =>
      (fix go (l k : list (string * Value)) : bool :=
         match l, k with
         | [], [] => true
         | x :: l', y :: k' =>
             bool_decide (x.1 = y.1) && value_eqb x.2 y.2 && go l' k'
         | _, _ => false
         end) a b
  | _, _ => false
  end.

Lemma value_eqb_refl `{JsonNumberLaws} v : value_eqb v v = true.
Proof.
  induction v as [| | | |vs IH|fs IH] using Value_nested_ind; simpl; try done.
  - by destruct b.
  - apply number_eqb_refl.
  - by rewrite bool_decide_eq_true_2.
  - induction IH as [|x l Hx _ IHl]; simpl; [done|]. by rewrite Hx, IHl.
  - induction IH as [|x l Hx _ IHl]; simpl; [done|].
    by rewrite bool_decide_eq_true_2, Hx, IHl.
Qed.

(** [Map::insert] and the [json!({ ... })] macro. *)
Fixpoint map_insert `{JsonNumber} (k : string) (v : Value)
    (fields : list (string * Value)) : list (string * Value) :=
  match fields with
  | [] => [(k, v)]
  | (k', v') :: rest =>
      if bool_decide (k = k') then (k, v) :: rest
      else if str_lt k k' then (k, v) :: fields
      else (k', v') :: map_insert k v rest
  end.
Definition json_object `{JsonNumber} (fields : list (string * Value)) : Value :=
  VObject (foldl (λ m f, map_insert f.1 f.2 m) [] fields).
Definition json_strings `{JsonNumber} (l : list string) : Value := VArray (VString <$> l).

(** [value.get(key)] on an object, [Value::as_str]. *)
Definition value_get `{JsonNumber} (v : Value) (key : string) : option Value :=
  match v with
  | VObject fields => snd <$> find (λ f, bool_decide (f.1 = key)) fields
  | _ => None
  end.
Definition as_str `{JsonNumber} (v : Value) : option string :=
  match v with VString s => Some s | _ => None end.

(** [serde_json::to_string] of a string and [serde_json::from_str]. *)
Class SerdeJson `{JsonNumber} := {
  quote : string → string;
  from_str : string → option Value;
}.

(** JSON text is self-delimiting: a quoted string starts with a quote character
    and ends at its closing quote; a number is a non-empty run of number
    characters that determines the number. *)
Definition is_number_char (c : ascii) : bool :=
  let n := nat_of_ascii c in
  ((48 <=? n) && (n <=? 57) || (n =? 43) || (n =? 45) || (n =? 46)
   || (n =? 69) || (n =? 101))%nat.

Class JsonTextLaws `{S : SerdeJson} : Prop := {
  quote_head s : ∃ r, quote s = String (ascii_of_nat 34) r;
  quote_split s t u v : quote s +:+ u = quote t +:+ v → s = t ∧ u = v;
  number_text n : ∃ c r, number_to_string n = String c r ∧
                         bytes_all is_number_char (String c r) = true;
  number_to_string_inj m n : number_to_string m = number_to_string n → m = n;
  number_of_u64_inj a b : in_u64 a → in_u64 b → number_of_u64 a = number_of_u64 b → a = b;
}.

(** ** sha2: [format!("{:x}", Sha256::digest(bytes))]. *)
Class Sha2 := { sha256_hex : string → string }.

Definition is_lower_hex (byte : ascii) : bool :=
  let n := nat_of_ascii byte in
  ((48 <=? n) && (n <=? 57) || (97 <=? n) && (n <=? 102))%nat.

Class Sha2Laws (S : Sha2) : Prop := {
  sha256_hex_length s : len (sha256_hex s) = 64;
  sha256_hex_lower s : bytes_all is_lower_hex (sha256_hex s) = true;
}.
