(* ===== verification/Instances.v ===== *)
(** * Concrete instances of the external interfaces

    Small models of [chrono], [serde_json] and [sha2] that satisfy the laws of
    [Externals]; the evaluated examples of the components run on them. *)

From stdpp Require Import base list strings pretty.
From Stdlib Require Import ZArith Lia Ascii.
From S2P Require Import Prelude RustStd Externals.
Open Scope Z_scope.

(** Dates as nanoseconds since the epoch, without a bound on the year. *)
Definition chrono_ns : Chrono := {|
  DateTime := Z;
  TimeDelta := Z;
  DateTime_eq_dec := Z.eq_dec;
  dt_leb := Z.leb;
  timestamp_millis t := t / 10 ^ 6;
  MIN_UTC := - 2 ^ 63 * 10 ^ 9;
  duration_seconds n :=
    if (- (i64_max / 1000) <=? n) && (n <=? i64_max / 1000) then Some (n * 10 ^ 9) else None;
  dt_add t d := Some (t + d);
  checked_sub_signed t d := Some (t - d);
  dt_serialize t := pretty t;
  dt_nanos t := t;
  td_nanos d := d;
|}.

#[export] Instance chrono_ns_laws : ChronoLaws chrono_ns.
Proof.
  split.
  - exact Z.leb_le.
  - done.
  - done.
  - intros n d. cbn -[Z.mul Z.leb i64_max Z.pow]. case_match; congruence.
  - intros n. cbn -[Z.mul Z.leb i64_max Z.pow]. split.
    + intros [d Hd]. case_match eqn:Hc; [|done]. guards. lia.
    + intros Hn. rewrite (proj2 (Z.leb_le _ _)), (proj2 (Z.leb_le _ _)) by lia. simpl. eauto.
  - intros a d b. simpl. split; congruence.
  - intros a d b. simpl. split; congruence.
  - intros a b. apply (inj pretty).
Qed.

(** Numbers in unary, a sign and as many ones as the magnitude. *)
Fixpoint ones (n : nat) : string :=
  match n with O => "" | S n => String "1"%char (ones n) end.
Definition unary (z : Z) : string :=
  if 0 <=? z then String "1"%char (ones (Z.to_nat z)) else String "-"%char (ones (Z.to_nat (- z))).

Lemma ones_inj m n : ones m = ones n → m = n.
Proof. revert n. induction m; intros [|n] Heq; simplify_eq/=; auto. Qed.

Lemma unary_inj a b : unary a = unary b → a = b.
Proof.
  unfold unary. destruct (Z.leb_spec 0 a), (Z.leb_spec 0 b); intros [= Heq];
    apply ones_inj in Heq; lia.
Qed.

Lemma ones_number n : bytes_all is_number_char (ones n) = true.
Proof. induction n; done. Qed.

Definition json_z : JsonNumber := {|
  Number := Z;
  number_eqb := Z.eqb;
  number_to_string := unary;
  number_of_u64 n := n;
|}.

#[export] Instance json_z_laws : JsonNumberLaws json_z.
Proof. split. exact Z.eqb_refl. Qed.

(** A digest that only looks at the length of its input. *)
Definition sha_len : Sha2 := {|
  sha256_hex s :=
    if Nat.even (String.length s)
    then "0000000000000000000000000000000000000000000000000000000000000000"
    else "ffffffffffffffffffffffffffffffffffffffffffffffffffffffffffffffff";
|}.

#[export] Instance sha_len_laws : Sha2Laws sha_len.
Proof. split; intros s; simpl; case_match; reflexivity. Qed.

(** Quoting that escapes the quote and the backslash, and a parser that
    accepts nothing. *)
Definition quote_char : Ascii.ascii := Ascii.ascii_of_nat 34.
Definition backslash : Ascii.ascii := Ascii.ascii_of_nat 92.
Fixpoint escape (s : string) : string :=
  match s with
  | EmptyString => String quote_char ""
  | String c s =>
      if bool_decide (c = quote_char ∨ c = backslash)
      then String backslash (String c (escape s)) else String c (escape s)
  end.
Definition json_text : SerdeJson (H:=json_z) := {|
  quote s := String quote_char (escape s);
  from_str _ := None;
|}.

Lemma escape_split s t u v : escape s +:+ u = escape t +:+ v → s = t ∧ u = v.
Proof.
  revert t. induction s as [|c s IH]; intros [|d t]; simpl;
    repeat case_bool_decide; intros Heq; injection Heq; clear Heq.
  all: repeat match goal with
  | |- _ = _ → _ => intros ?
  end; subst; try discriminate; try (by exfalso; eauto); try done.
  all: match goal with He : _ |- _ => apply IH in He as [-> ->] end; done.
Qed.

#[export] Instance json_text_laws : JsonTextLaws (S:=json_text).
Proof.
  split.
  - intros s. by eexists.
  - intros s t u v [= Heq]. by apply escape_split.
  - intros n. simpl. unfold unary. case_match; eexists _, _; (split; [done|]); apply ones_number.
  - exact unary_inj.
  - done.
Qed.
