(* ===== verification/Runtime.v ===== *)
(** * The runtime aggregate: [lifecycle/src/runtime.rs]

    One provider invocation as an event-sourced state machine.  A command is
    checked by [decide] against the current state and becomes an event;
    [apply] folds an event into the state; [execute] is the two in sequence
    and remembers the event until the session service acknowledges it;
    [replay] rebuilds the aggregate from its stored events. *)

From stdpp Require Import base list strings.
From Stdlib Require Import ZArith Lia.
From S2P Require Import Prelude RustStd Externals.
Open Scope Z_scope.

Definition DEFAULT_CONTEXT_TOKEN_LIMIT : Z := 260000.

Inductive ToolChoice := Auto | Strict | Disable.
#[export] Instance ToolChoice_eq_dec : EqDecision ToolChoice.
Proof. solve_decision. Defined.

Inductive RuntimeCallResultStatus :=
| StatusPending | StatusStreaming | StatusSucceeded | StatusFailed
| StatusTimedOut | StatusCancelled.
#[export] Instance RuntimeCallResultStatus_eq_dec : EqDecision RuntimeCallResultStatus.
Proof. solve_decision. Defined.

Inductive RuntimeState :=
| Created | Dispatching | WaitingFirstToken | Streaming
| Finished | Failed | TimedOut | Cancelled.
#[export] Instance RuntimeState_eq_dec : EqDecision RuntimeState.
Proof. solve_decision. Defined.

(** [{:?}] of a state. *)
Definition RuntimeState_debug (s : RuntimeState) : string :=
  match s with
  | Created => "Created" | Dispatching => "Dispatching"
  | WaitingFirstToken => "WaitingFirstToken" | Streaming => "Streaming"
  | Finished => "Finished" | Failed => "Failed"
  | TimedOut => "TimedOut" | Cancelled => "Cancelled"
  end.

Module RuntimeStateOps.
Definition can_transition_to (self next : RuntimeState) : bool :=
  match self, next with
  | Created, (Dispatching | Failed | TimedOut | Cancelled) => true
  | Dispatching, (WaitingFirstToken | Failed | TimedOut | Cancelled) => true
  | WaitingFirstToken, (Streaming | Finished | Failed | TimedOut | Cancelled) => true
  | Streaming, (Finished | Failed | TimedOut | Cancelled) => true
  | (Finished | Failed | TimedOut | Cancelled), _ => false
  | _, _ => bool_decide (self = next)
  end.

Definition call_result_status (self : RuntimeState) : RuntimeCallResultStatus :=
  match self with
  | Created | Dispatching | WaitingFirstToken => StatusPending
  | Streaming => StatusStreaming
  | Finished => StatusSucceeded
  | Failed => StatusFailed
  | TimedOut => StatusTimedOut
  | Cancelled => StatusCancelled
  end.

Definition is_live (self : RuntimeState) : bool :=
  match self with
  | Created | Dispatching | WaitingFirstToken | Streaming => true
  | _ => false
  end.

Definition is_terminal (self : RuntimeState) : bool := negb (is_live self).
End RuntimeStateOps.
Import RuntimeStateOps.

Record ContextTokenStats := MkContextTokenStats { ct_input : Z; ct_limit : Z }.
#[export] Instance ContextTokenStats_eta : Eta ContextTokenStats :=
  MkEta (λ r, MkContextTokenStats (ct_input r) (ct_limit r)).
#[export] Instance ContextTokenStats_eq_dec : EqDecision ContextTokenStats.
Proof. solve_decision. Defined.
Definition ContextTokenStats_default : ContextTokenStats :=
  MkContextTokenStats 0 DEFAULT_CONTEXT_TOKEN_LIMIT.

Record ProviderConfig := MkProviderConfig {
  pc_tura_llm_name : string;
  pc_default_model_tier : option string;
  pc_current_model : option string;
  pc_stream : bool;
  pc_temperature : f64;
  pc_max_tokens : Z;
  pc_tool_choice : ToolChoice;
  pc_time_out_ms : Z;
}.

Record RuntimeProviderConfig := MkRuntimeProviderConfig {
  rpc_base : ProviderConfig;
  rpc_thinking : bool;
  rpc_provider_name : string;
  rpc_model_name : string;
  rpc_provider_url_name : string;
  rpc_llm_provider_name : string;
}.

Record RuntimeError := MkRuntimeError {
  re_error_code : option string;
  re_error_text : option string;
  re_retry_allowed : bool;
  re_fallback_allowed : bool;
  re_fallback_to_id : option string;
}.
#[export] Instance RuntimeError_eq_dec : EqDecision RuntimeError.
Proof. solve_decision. Defined.

Record UsageReport := MkUsageReport {
  ur_input_tokens : Z;
  ur_output_tokens : Z;
  ur_total_tokens : Z;
  ur_cached_input_tokens : Z;
  ur_cache_write_tokens : Z;
  ur_reasoning_tokens : Z;
  ur_attachment_input_tokens : Z;
  ur_input_cost : f64;
  ur_output_cost : f64;
  ur_total_cost : f64;
  ur_currency : string;
  ur_pricing_source : string;
  ur_latency_ms : Z;
  ur_time_to_first_token_ms : Z;
  ur_token_per_second : f64;
}.

Section RuntimeData.
Context `{Chrono, JsonNumber}.

Record ToolCallRecord := MkToolCallRecord {
  tc_tool_called_name : string;
  tc_tool_called_input : Value;
  tc_provider_metadata : option Value;
  tc_tool_received_at : DateTime;
  tc_tool_executed_at : DateTime;
  tc_tool_calldata_received_at : DateTime;
  tc_tool_reported_success : bool;
  tc_agent_reported_success : bool;
  tc_agent_reported_helpful : bool;
  tc_agent_reported_summary : string;
  tc_validator_reported_success : option bool;
}.

Record ProviderObservation := MkProviderObservation {
  po_schema_version : string;
  po_source : string;
  po_response_id : option string;
  po_model : option string;
  po_service_tier : option string;
  po_failed_attempts : list Value;
}.

Inductive RuntimeCommand :=
| CmdTransition (next : RuntimeState)
| CmdCallStarted (called_at : DateTime)
| CmdWaitingFirstToken
| CmdFirstTokenReceived (first_token_at : DateTime)
| CmdAppendText (chunk : string)
| CmdCaptureInput (input : Value)
| CmdCaptureOutput (output : Value) (observation : option ProviderObservation)
| CmdRecordToolCall (record : ToolCallRecord)
| CmdUpdateContextTokens (context_tokens : ContextTokenStats)
| CmdUpdateUsage (usage : option UsageReport)
| CmdUpdateReasoning (reasoning reasoning_hash : option string)
| CmdFinishSuccess (finished_at : DateTime) (usage : option UsageReport)
| CmdFinishFailure (finished_at : DateTime) (error : RuntimeError)
    (terminal_state : RuntimeState) (usage : option UsageReport).

Inductive RuntimeEvent :=
| EvRuntimeCreated (session_id agent_id : string) (provider : RuntimeProviderConfig)
    (created_at : DateTime) (fallback_from_id : option string)
    (context_tokens : ContextTokenStats)
| EvStateChanged (state : RuntimeState)
| EvCallStarted (called_at : DateTime)
| EvWaitingFirstToken
| EvFirstTokenReceived (first_token_at : DateTime)
| EvTextAppended (chunk : string)
| EvInputCaptured (input : Value)
| EvOutputCaptured (output : Value) (observation : option ProviderObservation)
| EvToolCallRecorded (record : ToolCallRecord)
| EvContextTokensUpdated (context_tokens : ContextTokenStats)
| EvUsageUpdated (usage : option UsageReport)
| EvReasoningUpdated (reasoning reasoning_hash : option string)
| EvRuntimeFinished (finished_at : DateTime) (usage : option UsageReport)
| EvRuntimeFailed (finished_at : DateTime) (error : RuntimeError)
    (state : RuntimeState) (usage : option UsageReport).

Record RuntimeAggregate := MkRuntimeAggregate {
  ra_runtime_id : string;
  ra_session_id : string;
  ra_state : RuntimeState;
  ra_created_at : DateTime;
  ra_called_at : option DateTime;
  ra_first_token_at : option DateTime;
  ra_call_finished_at : option DateTime;
  ra_fallback_from_id : option string;
  ra_agent_id : string;
  ra_provider : RuntimeProviderConfig;
  ra_error : option RuntimeError;
  ra_reasoning : option string;
  ra_reasoning_hash : option string;
  ra_input : option Value;
  ra_output : option Value;
  ra_provider_observation : option ProviderObservation;
  ra_text : string;
  ra_tool_call : list ToolCallRecord;
  ra_context_tokens : ContextTokenStats;
  ra_usage : option UsageReport;
  ra_uncommitted_events : list RuntimeEvent;
}.

#[global] Instance RuntimeAggregate_eta : Eta RuntimeAggregate := MkEta (λ r,
  MkRuntimeAggregate (ra_runtime_id r) (ra_session_id r) (ra_state r)
    (ra_created_at r) (ra_called_at r) (ra_first_token_at r)
    (ra_call_finished_at r) (ra_fallback_from_id r) (ra_agent_id r)
    (ra_provider r) (ra_error r) (ra_reasoning r) (ra_reasoning_hash r)
    (ra_input r) (ra_output r) (ra_provider_observation r) (ra_text r)
    (ra_tool_call r) (ra_context_tokens r) (ra_usage r) (ra_uncommitted_events r)).
End RuntimeData.

(** ** [PartialEq]

    The derived equalities, field by field.  Two of the structs hold floats, so
    these are not decision procedures for Leibniz equality: a report with a NaN
    differs from itself. *)

Definition option_eqb {A} (eqb : A → A → bool) (x y : option A) : bool :=
  match x, y with
  | None, None => true
  | Some a, Some b => eqb a b
  | _, _ => false
  end.

Fixpoint list_eqb {A} (eqb : A → A → bool) (l k : list A) : bool :=
  match l, k with
  | [], [] => true
  | x :: l', y :: k' => eqb x y && list_eqb eqb l' k'
  | _, _ => false
  end.

Definition ProviderConfig_eqb (x y : ProviderConfig) : bool :=
  bool_decide (pc_tura_llm_name x = pc_tura_llm_name y)
  && bool_decide (pc_default_model_tier x = pc_default_model_tier y)
  && bool_decide (pc_current_model x = pc_current_model y)
  && bool_decide (pc_stream x = pc_stream y)
  && f64_eqb (pc_temperature x) (pc_temperature y)
  && bool_decide (pc_max_tokens x = pc_max_tokens y)
  && bool_decide (pc_tool_choice x = pc_tool_choice y)
  && bool_decide (pc_time_out_ms x = pc_time_out_ms y).

Definition RuntimeProviderConfig_eqb (x y : RuntimeProviderConfig) : bool :=
  ProviderConfig_eqb (rpc_base x) (rpc_base y)
  && bool_decide (rpc_thinking x = rpc_thinking y)
  && bool_decide (rpc_provider_name x = rpc_provider_name y)
  && bool_decide (rpc_model_name x = rpc_model_name y)
  && bool_decide (rpc_provider_url_name x = rpc_provider_url_name y)
  && bool_decide (rpc_llm_provider_name x = rpc_llm_provider_name y).

Definition UsageReport_eqb (x y : UsageReport) : bool :=
  bool_decide (ur_input_tokens x = ur_input_tokens y)
  && bool_decide (ur_output_tokens x = ur_output_tokens y)
  && bool_decide (ur_total_tokens x = ur_total_tokens y)
  && bool_decide (ur_cached_input_tokens x = ur_cached_input_tokens y)
  && bool_decide (ur_cache_write_tokens x = ur_cache_write_tokens y)
  && bool_decide (ur_reasoning_tokens x = ur_reasoning_tokens y)
  && bool_decide (ur_attachment_input_tokens x = ur_attachment_input_tokens y)
  && f64_eqb (ur_input_cost x) (ur_input_cost y)
  && f64_eqb (ur_output_cost x) (ur_output_cost y)
  && f64_eqb (ur_total_cost x) (ur_total_cost y)
  && bool_decide (ur_currency x = ur_currency y)
  && bool_decide (ur_pricing_source x = ur_pricing_source y)
  && bool_decide (ur_latency_ms x = ur_latency_ms y)
  && bool_decide (ur_time_to_first_token_ms x = ur_time_to_first_token_ms y)
  && f64_eqb (ur_token_per_second x) (ur_token_per_second y).

Section RuntimeEq.
Context `{Chrono, JsonNumber}.

Definition ToolCallRecord_eqb (x y : ToolCallRecord) : bool :=
  bool_decide (tc_tool_called_name x = tc_tool_called_name y)
  && value_eqb (tc_tool_called_input x) (tc_tool_called_input y)
  && option_eqb value_eqb (tc_provider_metadata x) (tc_provider_metadata y)
  && bool_decide (tc_tool_received_at x = tc_tool_received_at y)
  && bool_decide (tc_tool_executed_at x = tc_tool_executed_at y)
  && bool_decide (tc_tool_calldata_received_at x = tc_tool_calldata_received_at y)
  && bool_decide (tc_tool_reported_success x = tc_tool_reported_success y)
  && bool_decide (tc_agent_reported_success x = tc_agent_reported_success y)
  && bool_decide (tc_agent_reported_helpful x = tc_agent_reported_helpful y)
  && bool_decide (tc_agent_reported_summary x = tc_agent_reported_summary y)
  && bool_decide (tc_validator_reported_success x = tc_validator_reported_success y).

Definition ProviderObservation_eqb (x y : ProviderObservation) : bool :=
  bool_decide (po_schema_version x = po_schema_version y)
  && bool_decide (po_source x = po_source y)
  && bool_decide (po_response_id x = po_response_id y)
  && bool_decide (po_model x = po_model y)
  && bool_decide (po_service_tier x = po_service_tier y)
  && list_eqb value_eqb (po_failed_attempts x) (po_failed_attempts y).

Definition RuntimeEvent_eqb (x y : RuntimeEvent) : bool :=
  match x, y with
  | EvRuntimeCreated s a p c f t, EvRuntimeCreated s' a' p' c' f' t' =>
      bool_decide (s = s') && bool_decide (a = a') && RuntimeProviderConfig_eqb p p'
      && bool_decide (c = c') && bool_decide (f = f') && bool_decide (t = t')
  | EvStateChanged s, EvStateChanged s' => bool_decide (s = s')
  | EvCallStarted t, EvCallStarted t' => bool_decide (t = t')
  | EvWaitingFirstToken, EvWaitingFirstToken => true
  | EvFirstTokenReceived t, EvFirstTokenReceived t' => bool_decide (t = t')
  | EvTextAppended c, EvTextAppended c' => bool_decide (c = c')
  | EvInputCaptured i, EvInputCaptured i' => value_eqb i i'
  | EvOutputCaptured o p, EvOutputCaptured o' p' =>
      value_eqb o o' && option_eqb ProviderObservation_eqb p p'
  | EvToolCallRecorded r, EvToolCallRecorded r' => ToolCallRecord_eqb r r'
  | EvContextTokensUpdated c, EvContextTokensUpdated c' => bool_decide (c = c')
  | EvUsageUpdated u, EvUsageUpdated u' => option_eqb UsageReport_eqb u u'
  | EvReasoningUpdated r h, EvReasoningUpdated r' h' =>
      bool_decide (r = r') && bool_decide (h = h')
  | EvRuntimeFinished t u, EvRuntimeFinished t' u' =>
      bool_decide (t = t') && option_eqb UsageReport_eqb u u'
  | EvRuntimeFailed t e s u, EvRuntimeFailed t' e' s' u' =>
      bool_decide (t = t') && bool_decide (e = e') && bool_decide (s = s')
      && option_eqb UsageReport_eqb u u'
  | _, _ => false
  end.

(** The aggregate's hand-written equality: everything but the transport buffer. *)
Definition RuntimeAggregate_eqb (x y : RuntimeAggregate) : bool :=
  bool_decide (ra_runtime_id x = ra_runtime_id y)
  && bool_decide (ra_session_id x = ra_session_id y)
  && bool_decide (ra_state x = ra_state y)
  && bool_decide (ra_created_at x = ra_created_at y)
  && bool_decide (ra_called_at x = ra_called_at y)
  && bool_decide (ra_first_token_at x = ra_first_token_at y)
  && bool_decide (ra_call_finished_at x = ra_call_finished_at y)
  && bool_decide (ra_fallback_from_id x = ra_fallback_from_id y)
  && bool_decide (ra_agent_id x = ra_agent_id y)
  && RuntimeProviderConfig_eqb (ra_provider x) (ra_provider y)
  && bool_decide (ra_error x = ra_error y)
  && bool_decide (ra_reasoning x = ra_reasoning y)
  && bool_decide (ra_reasoning_hash x = ra_reasoning_hash y)
  && option_eqb value_eqb (ra_input x) (ra_input y)
  && option_eqb value_eqb (ra_output x) (ra_output y)
  && option_eqb ProviderObservation_eqb (ra_provider_observation x) (ra_provider_observation y)
  && bool_decide (ra_text x = ra_text y)
  && list_eqb ToolCallRecord_eqb (ra_tool_call x) (ra_tool_call y)
  && bool_decide (ra_context_tokens x = ra_context_tokens y)
  && option_eqb UsageReport_eqb (ra_usage x) (ra_usage y).
End RuntimeEq.

(** ** Commands, events and the reducer *)

Section RuntimeOps.
Context `{Chrono, JsonNumber}.

(** [RuntimeEvent::as_command]. *)
Definition as_command (event : RuntimeEvent) : option RuntimeCommand :=
  match event with
  | EvRuntimeCreated _ _ _ _ _ _ => None
  | EvStateChanged state => Some (CmdTransition state)
  | EvCallStarted called_at => Some (CmdCallStarted called_at)
  | EvWaitingFirstToken => Some CmdWaitingFirstToken
  | EvFirstTokenReceived first_token_at => Some (CmdFirstTokenReceived first_token_at)
  | EvTextAppended chunk => Some (CmdAppendText chunk)
  | EvInputCaptured input => Some (CmdCaptureInput input)
  | EvOutputCaptured output observation => Some (CmdCaptureOutput output observation)
  | EvToolCallRecorded record => Some (CmdRecordToolCall record)
  | EvContextTokensUpdated context_tokens => Some (CmdUpdateContextTokens context_tokens)
  | EvUsageUpdated usage => Some (CmdUpdateUsage usage)
  | EvReasoningUpdated reasoning reasoning_hash =>
      Some (CmdUpdateReasoning reasoning reasoning_hash)
  | EvRuntimeFinished finished_at usage => Some (CmdFinishSuccess finished_at usage)
  | EvRuntimeFailed finished_at error state usage =>
      Some (CmdFinishFailure finished_at error state usage)
  end.

Definition validate_fallback_source (runtime_id : string)
    (fallback_from_id : option string) : outcome string unit :=
  match fallback_from_id with
  | None => Ok tt
  | Some source =>
      if is_blank source then Err "runtime fallback source must be non-empty"
      else if bool_decide (source = runtime_id)
      then Err "runtime cannot fall back from itself"
      else Ok tt
  end.

(** [RuntimeTransitionError]'s [Display]. *)
Definition transition_error (previous next : RuntimeState) : string :=
  "invalid runtime state transition: " +:+ RuntimeState_debug previous
    +:+ " -> " +:+ RuntimeState_debug next.

Definition check_transition (self : RuntimeAggregate) (next : RuntimeState)
    : outcome string unit :=
  if can_transition_to (ra_state self) next then Ok tt
  else Err (transition_error (ra_state self) next).

Definition require_live_command (self : RuntimeAggregate) (command : string)
    : outcome string unit :=
  if is_live (ra_state self) then Ok tt
  else Err ("runtime command " +:+ command +:+ " rejected in terminal state "
              +:+ RuntimeState_debug (ra_state self)).

Definition decide (self : RuntimeAggregate) (command : RuntimeCommand)
    : outcome string RuntimeEvent :=
  match command with
  | CmdTransition next =>
      _ ← check_transition self next; mret (EvStateChanged next)
  | CmdCallStarted called_at =>
      _ ← check_transition self Dispatching; mret (EvCallStarted called_at)
  | CmdWaitingFirstToken =>
      _ ← check_transition self WaitingFirstToken; mret EvWaitingFirstToken
  | CmdFirstTokenReceived first_token_at =>
      _ ← check_transition self Streaming; mret (EvFirstTokenReceived first_token_at)
  | CmdAppendText chunk =>
      _ ← require_live_command self "append_text"; mret (EvTextAppended chunk)
  | CmdCaptureInput input =>
      _ ← require_live_command self "capture_input"; mret (EvInputCaptured input)
  | CmdCaptureOutput output observation =>
      _ ← require_live_command self "capture_output";
      mret (EvOutputCaptured output observation)
  | CmdRecordToolCall record =>
      _ ← require_live_command self "record_tool_call"; mret (EvToolCallRecorded record)
  | CmdUpdateContextTokens context_tokens =>
      _ ← require_live_command self "update_context_tokens";
      mret (EvContextTokensUpdated context_tokens)
  | CmdUpdateUsage usage =>
      _ ← require_live_command self "update_usage"; mret (EvUsageUpdated usage)
  | CmdUpdateReasoning reasoning reasoning_hash =>
      _ ← require_live_command self "update_reasoning";
      mret (EvReasoningUpdated reasoning reasoning_hash)
  | CmdFinishSuccess finished_at usage =>
      _ ← check_transition self Finished; mret (EvRuntimeFinished finished_at usage)
  | CmdFinishFailure finished_at error terminal_state usage =>
      match terminal_state with
      | Failed | TimedOut | Cancelled =>
          _ ← check_transition self terminal_state;
          mret (EvRuntimeFailed finished_at error terminal_state usage)
      | _ => Err ("runtime failure requires a failure terminal state, got "
                    +:+ RuntimeState_debug terminal_state)
      end
  end.

(** The usage report of a finished call overrides the context size when it
    counted any input tokens. *)
Definition context_tokens_after (context_tokens : ContextTokenStats)
    (usage : option UsageReport) : ContextTokenStats :=
  match usage with
  | Some usage =>
      if 0 <? ur_input_tokens usage
      then context_tokens.{ct_input := ur_input_tokens usage} else context_tokens
  | None => context_tokens
  end.

Definition apply (self : RuntimeAggregate) (event : RuntimeEvent) : RuntimeAggregate :=
  match event with
  | EvRuntimeCreated session_id agent_id provider created_at fallback_from_id context_tokens =>
      self.{ra_session_id := session_id}.{ra_agent_id := agent_id}
          .{ra_provider := provider}.{ra_created_at := created_at}
          .{ra_fallback_from_id := fallback_from_id}
          .{ra_context_tokens := context_tokens}
  | EvStateChanged state => self.{ra_state := state}
  | EvCallStarted called_at =>
      self.{ra_state := Dispatching}.{ra_called_at := Some called_at}
  | EvWaitingFirstToken => self.{ra_state := WaitingFirstToken}
  | EvFirstTokenReceived first_token_at =>
      self.{ra_state := Streaming}.{ra_first_token_at := Some first_token_at}
  | EvTextAppended chunk => self.{ra_text := ra_text self +:+ chunk}
  | EvInputCaptured input => self.{ra_input := Some input}
  | EvOutputCaptured output observation =>
      self.{ra_output := Some output}.{ra_provider_observation := observation}
  | EvToolCallRecorded record => self.{ra_tool_call := ra_tool_call self ++ [record] }
  | EvContextTokensUpdated context_tokens => self.{ra_context_tokens := context_tokens}
  | EvUsageUpdated usage => self.{ra_usage := usage}
  | EvReasoningUpdated reasoning reasoning_hash =>
      self.{ra_reasoning := reasoning}.{ra_reasoning_hash := reasoning_hash}
  | EvRuntimeFinished finished_at usage =>
      self.{ra_state := Finished}.{ra_call_finished_at := Some finished_at}
          .{ra_usage := usage}
          .{ra_context_tokens := context_tokens_after (ra_context_tokens self) usage}
  | EvRuntimeFailed finished_at error state usage =>
      self.{ra_state := state}.{ra_call_finished_at := Some finished_at}
          .{ra_error := Some error}.{ra_usage := usage}
          .{ra_context_tokens := context_tokens_after (ra_context_tokens self) usage}
  end.

(** A fresh aggregate in [Created]; the constructor and [replay] build it with
    different context sizes and transport buffers. *)
Definition fresh (runtime_id session_id agent_id : string)
    (provider : RuntimeProviderConfig) (created_at : DateTime)
    (fallback_from_id : option string) (context_tokens : ContextTokenStats)
    (uncommitted_events : list RuntimeEvent) : RuntimeAggregate :=
  {| ra_runtime_id := runtime_id; ra_session_id := session_id; ra_state := Created;
     ra_created_at := created_at; ra_called_at := None; ra_first_token_at := None;
     ra_call_finished_at := None; ra_fallback_from_id := fallback_from_id;
     ra_agent_id := agent_id; ra_provider := provider; ra_error := None;
     ra_reasoning := None; ra_reasoning_hash := None; ra_input := None;
     ra_output := None; ra_provider_observation := None; ra_text := "";
     ra_tool_call := []; ra_context_tokens := context_tokens; ra_usage := None;
     ra_uncommitted_events := uncommitted_events |}.

Definition new_with_fallback (runtime_id session_id agent_id : string)
    (provider : RuntimeProviderConfig) (created_at : DateTime)
    (fallback_from_id : option string) : outcome string RuntimeAggregate :=
  _ ← validate_fallback_source runtime_id fallback_from_id;
  let context_tokens := ContextTokenStats_default in
  let created := EvRuntimeCreated session_id agent_id provider created_at
                   fallback_from_id context_tokens in
  mret (fresh runtime_id session_id agent_id provider created_at fallback_from_id
          context_tokens [created]).

(** [RuntimeAggregate::new]: [expect] on the constructor above. *)
Definition new (runtime_id session_id agent_id : string)
    (provider : RuntimeProviderConfig) (created_at : DateTime)
    : outcome string RuntimeAggregate :=
  match new_with_fallback runtime_id session_id agent_id provider created_at None with
  | Ok self => Ok self
  | _ => Panic
  end.

Definition execute (self : RuntimeAggregate) (command : RuntimeCommand)
    : outcome string (RuntimeEvent * RuntimeAggregate) :=
  event ← decide self command;
  let self := apply self event in
  let self := self.{ra_uncommitted_events := ra_uncommitted_events self ++ [event] } in
  mret (event, self).

Definition apply_committed (self : RuntimeAggregate) (event : RuntimeEvent)
    : outcome string RuntimeAggregate :=
  command ← ok_or (as_command event) "runtime_created may only be the first runtime event";
  expected ← decide self command;
  _ ← reject_if (negb (RuntimeEvent_eqb expected event))
        "runtime event does not match the canonical reducer result";
  mret (apply self event).

Fixpoint apply_committed_all (self : RuntimeAggregate) (events : list RuntimeEvent)
    : outcome string RuntimeAggregate :=
  match events with
  | [] => mret self
  | event :: rest => self ← apply_committed self event; apply_committed_all self rest
  end.

Definition replay (runtime_id : string) (events : list RuntimeEvent)
    : outcome string RuntimeAggregate :=
  match events with
  | [] => Err ("runtime " +:+ runtime_id +:+ " has no creation event")
  | EvRuntimeCreated session_id agent_id provider created_at fallback_from_id
      context_tokens :: rest =>
      _ ← validate_fallback_source runtime_id fallback_from_id;
      apply_committed_all
        (fresh runtime_id session_id agent_id provider created_at fallback_from_id
           context_tokens []) rest
  | _ :: _ =>
      Err ("runtime " +:+ runtime_id +:+ " event stream must begin with runtime_created")
  end.

Definition take_uncommitted_events (self : RuntimeAggregate)
    : list RuntimeEvent * RuntimeAggregate :=
  (ra_uncommitted_events self, self.{ra_uncommitted_events := [] }).
Definition next_uncommitted_event (self : RuntimeAggregate) : option RuntimeEvent :=
  head (ra_uncommitted_events self).
Definition acknowledge_uncommitted_event (self : RuntimeAggregate)
    : option RuntimeEvent * RuntimeAggregate :=
  match ra_uncommitted_events self with
  | [] => (None, self)
  | event :: rest => (Some event, self.{ra_uncommitted_events := rest})
  end.
Definition has_uncommitted_events (self : RuntimeAggregate) : bool :=
  match ra_uncommitted_events self with [] => false | _ => true end.
End RuntimeOps.

(** ** The command methods: [self.execute(command).map(|_| ())] *)

Section RuntimeMethods.
Context `{Chrono, JsonNumber}.
Implicit Types self : RuntimeAggregate.

Definition execute_unit self (command : RuntimeCommand) : outcome string RuntimeAggregate :=
  result ← execute self command; mret result.2.

Definition transition self next := execute_unit self (CmdTransition next).
Definition mark_called self called_at := execute_unit self (CmdCallStarted called_at).
Definition mark_waiting_first_token self := execute_unit self CmdWaitingFirstToken.
Definition mark_first_token self first_token_at :=
  execute_unit self (CmdFirstTokenReceived first_token_at).
Definition append_text self chunk := execute_unit self (CmdAppendText chunk).
Definition set_input self input := execute_unit self (CmdCaptureInput input).
Definition set_output_with_provider_observation self output observation :=
  execute_unit self (CmdCaptureOutput output observation).
Definition set_output self output :=
  set_output_with_provider_observation self output None.
Definition push_tool_call self record := execute_unit self (CmdRecordToolCall record).
Definition update_context_tokens self context_tokens :=
  execute_unit self (CmdUpdateContextTokens context_tokens).
Definition update_usage self usage := execute_unit self (CmdUpdateUsage usage).
Definition update_reasoning self reasoning reasoning_hash :=
  execute_unit self (CmdUpdateReasoning reasoning reasoning_hash).
Definition finish_success self finished_at usage :=
  execute_unit self (CmdFinishSuccess finished_at usage).
Definition finish_failure self finished_at error terminal_state usage :=
  execute_unit self (CmdFinishFailure finished_at error terminal_state usage).

(** ** Read side *)

Definition live_overlay_active self : bool := is_live (ra_state self).
Definition session_db_refresh_required self : bool := negb (live_overlay_active self).
Definition aggregate_call_result_status self : RuntimeCallResultStatus :=
  call_result_status (ra_state self).

(** Milliseconds of the assistant message: creation (first token, else call,
    else runtime creation) and update (end of the call, else creation). *)
Definition assistant_message_timestamps self : Z * Z :=
  let created_at :=
    match ra_first_token_at self with
    | Some t => t
    | None => match ra_called_at self with Some t => t | None => ra_created_at self end
    end in
  let updated_at :=
    match ra_call_finished_at self with Some t => t | None => created_at end in
  (timestamp_millis created_at, timestamp_millis updated_at).
End RuntimeMethods.

Record RuntimeProjection := MkRuntimeProjection {
  rp_runtime_id : string;
  rp_state : RuntimeState;
  rp_call_result_status : RuntimeCallResultStatus;
  rp_live : bool;
  rp_session_db_refresh_required : bool;
}.

Definition RuntimeProjection_new (runtime_id : string) (state : RuntimeState)
    : RuntimeProjection :=
  {| rp_runtime_id := runtime_id; rp_state := state;
     rp_call_result_status := call_result_status state;
     rp_live := is_live state;
     rp_session_db_refresh_required := negb (is_live state) |}.

(** [Deserialize for RuntimeProjection]: the decoded [Wire] struct has the
    projection's fields; the derived ones must agree with the state. *)
Definition RuntimeProjection_of_wire (wire : RuntimeProjection)
    : outcome string RuntimeProjection :=
  let projection := RuntimeProjection_new (rp_runtime_id wire) (rp_state wire) in
  _ ← reject_if
        (negb (bool_decide (rp_call_result_status wire = rp_call_result_status projection))
         || negb (Bool.eqb (rp_live wire) (rp_live projection))
         || negb (Bool.eqb (rp_session_db_refresh_required wire)
                           (rp_session_db_refresh_required projection)))
        "runtime lifecycle projection contradicts runtime state";
  mret projection.

Section RuntimeWire.
Context `{Chrono, JsonNumber}.

Definition query (self : RuntimeAggregate) : RuntimeProjection :=
  RuntimeProjection_new (ra_runtime_id self) (ra_state self).

(** The aggregate on the wire.  Fields other than the three payloads carry
    their value; a payload is the JSON under its key, [None] when the key is
    absent. *)
Record RuntimeWire := MkRuntimeWire {
  rw_runtime_id : string;
  rw_created_at : DateTime;
  rw_called_at : option DateTime;
  rw_first_token_at : option DateTime;
  rw_call_finished_at : option DateTime;
  rw_call_result_status : RuntimeCallResultStatus;
  rw_fallback_from_id : option string;
  rw_session_id : string;
  rw_agent_id : string;
  rw_provider : RuntimeProviderConfig;
  rw_error : option RuntimeError;
  rw_reasoning : option string;
  rw_reasoning_hash : option string;
  rw_input : option Value;
  rw_output : option Value;
  rw_provider_observation : option ProviderObservation;
  rw_text : string;
  rw_tool_call : list ToolCallRecord;
  rw_context_tokens : ContextTokenStats;
  rw_usage : option UsageReport;
  rw_state : RuntimeState;
}.

(** [Serialize for RuntimeAggregate]: an absent payload is not written. *)
Definition serialize (self : RuntimeAggregate) : RuntimeWire :=
  {| rw_runtime_id := ra_runtime_id self; rw_created_at := ra_created_at self;
     rw_called_at := ra_called_at self; rw_first_token_at := ra_first_token_at self;
     rw_call_finished_at := ra_call_finished_at self;
     rw_call_result_status := aggregate_call_result_status self;
     rw_fallback_from_id := ra_fallback_from_id self;
     rw_session_id := ra_session_id self; rw_agent_id := ra_agent_id self;
     rw_provider := ra_provider self; rw_error := ra_error self;
     rw_reasoning := ra_reasoning self; rw_reasoning_hash := ra_reasoning_hash self;
     rw_input := ra_input self; rw_output := ra_output self;
     rw_provider_observation := ra_provider_observation self; rw_text := ra_text self;
     rw_tool_call := ra_tool_call self; rw_context_tokens := ra_context_tokens self;
     rw_usage := ra_usage self; rw_state := ra_state self |}.

(** Decoding an [Option<Value>]: an absent key and a JSON [null] are [None]. *)
Definition decode_option_value (slot : option Value) : option Value :=
  match slot with Some Null => None | _ => slot end.

(** [Deserialize for RuntimeAggregate]. *)
Definition deserialize (wire : RuntimeWire) : outcome string RuntimeAggregate :=
  _ ← reject_if
        (negb (bool_decide (rw_call_result_status wire = call_result_status (rw_state wire))))
        "runtime call result projection contradicts runtime state";
  mret
    {| ra_runtime_id := rw_runtime_id wire; ra_session_id := rw_session_id wire;
       ra_state := rw_state wire; ra_created_at := rw_created_at wire;
       ra_called_at := rw_called_at wire; ra_first_token_at := rw_first_token_at wire;
       ra_call_finished_at := rw_call_finished_at wire;
       ra_fallback_from_id := rw_fallback_from_id wire;
       ra_agent_id := rw_agent_id wire; ra_provider := rw_provider wire;
       ra_error := rw_error wire; ra_reasoning := rw_reasoning wire;
       ra_reasoning_hash := rw_reasoning_hash wire;
       ra_input := decode_option_value (rw_input wire);
       ra_output := decode_option_value (rw_output wire);
       ra_provider_observation := rw_provider_observation wire; ra_text := rw_text wire;
       ra_tool_call := rw_tool_call wire; ra_context_tokens := rw_context_tokens wire;
       ra_usage := rw_usage wire; ra_uncommitted_events := [] |}.
End RuntimeWire.
