(* ===== verification/RuntimeFacts.v ===== *)
(** * Correctness of the runtime aggregate *)

From stdpp Require Import base list strings.
From Stdlib Require Import ZArith Lia SpecFloat.
From S2P Require Import Prelude RustStd Externals Runtime Instances.
Import RuntimeStateOps.
Open Scope Z_scope.

Section Reducer.
Context `{Chrono, JsonNumber}.
Implicit Types (a : RuntimeAggregate) (ev : RuntimeEvent) (cmd : RuntimeCommand).

(** *** Commands and events determine each other *)

Lemma decide_Ok_as_command a cmd ev :
  decide a cmd = Ok ev → as_command ev = Some cmd.
Proof. destruct cmd; simpl; intros; repeat split_match; outcome_inv; done. Qed.

Lemma as_command_decide a cmd ev ev' :
  as_command ev = Some cmd → decide a cmd = Ok ev' → ev' = ev.
Proof.
  intros Hev Hd%decide_Ok_as_command.
  destruct ev, ev'; simpl in *; congruence.
Qed.

(** An event of the canonical stream is accepted exactly when the reducer
    would produce it now and it equals itself (holds no NaN). *)
Lemma apply_committed_Ok a ev a' :
  apply_committed a ev = Ok a' ↔
  ∃ cmd, as_command ev = Some cmd ∧ decide a cmd = Ok ev ∧
         RuntimeEvent_eqb ev ev = true ∧ a' = apply a ev.
Proof.
  unfold apply_committed. split.
  - intros. outcome_inv. guards.
    match goal with Hc : as_command _ = Some _, Hd : decide _ _ = Ok _ |- _ =>
      pose proof (as_command_decide _ _ _ _ Hc Hd); subst; eauto end.
  - intros (cmd & Hc & Hd & He & ->). rewrite Hc. simpl. rewrite Hd. simpl.
    by rewrite He.
Qed.

(** The transport buffer plays no part in the reducer. *)
Lemma decide_buffer a l cmd : decide a.{ra_uncommitted_events := l} cmd = decide a cmd.
Proof. by destruct cmd. Qed.

Lemma apply_buffer a l ev :
  apply a.{ra_uncommitted_events := l} ev = (apply a ev).{ra_uncommitted_events := l}.
Proof. by destruct ev. Qed.

Lemma apply_keeps_buffer a ev :
  ra_uncommitted_events (apply a ev) = ra_uncommitted_events a.
Proof. by destruct ev. Qed.

Lemma apply_committed_all_app a l k :
  apply_committed_all a (l ++ k) = apply_committed_all a l ≫= λ a', apply_committed_all a' k.
Proof.
  revert a. induction l as [|ev l IH]; intros a; simpl; [done|].
  destruct (apply_committed a ev); simpl; [apply IH|done..].
Qed.

Lemma replay_snoc id l ev :
  l ≠ [] → replay id (l ++ [ev]) = replay id l ≫= λ a, apply_committed a ev.
Proof.
  destruct l as [|[] l]; [done|..]; intros _; simpl; try done.
  destruct (validate_fallback_source _ _); simpl; try done.
  rewrite apply_committed_all_app.
  destruct (apply_committed_all _ _); simpl; try done.
  by destruct (apply_committed _ _).
Qed.
End Reducer.

(** ** NaN-free events are exactly the self-equal ones *)

Definition usage_nan_free (u : UsageReport) : bool :=
  negb (f64_is_nan (ur_input_cost u)) && negb (f64_is_nan (ur_output_cost u))
  && negb (f64_is_nan (ur_total_cost u)) && negb (f64_is_nan (ur_token_per_second u)).
Definition usage_opt_nan_free (u : option UsageReport) : bool :=
  match u with Some u => usage_nan_free u | None => true end.
Definition event_nan_free `{Chrono, JsonNumber} (ev : RuntimeEvent) : bool :=
  match ev with
  | EvRuntimeCreated _ _ p _ _ _ => negb (f64_is_nan (pc_temperature (rpc_base p)))
  | EvUsageUpdated u | EvRuntimeFinished _ u | EvRuntimeFailed _ _ _ u =>
      usage_opt_nan_free u
  | _ => true
  end.

Ltac eqb_refl_tac :=
  repeat first [ rewrite bool_decide_eq_true_2 by done
               | rewrite f64_eqb_refl | rewrite andb_true_l | rewrite andb_true_r ].

Lemma usage_eqb_refl u : UsageReport_eqb u u = usage_nan_free u.
Proof. unfold UsageReport_eqb, usage_nan_free. by eqb_refl_tac. Qed.

Lemma usage_opt_eqb_refl u : option_eqb UsageReport_eqb u u = usage_opt_nan_free u.
Proof. destruct u; simpl; [apply usage_eqb_refl|done]. Qed.

Lemma list_eqb_refl {A} (eqb : A → A → bool) l :
  (∀ x, eqb x x = true) → list_eqb eqb l l = true.
Proof. intros Hr. induction l; simpl; [done|]. by rewrite Hr. Qed.

Lemma option_eqb_refl {A} (eqb : A → A → bool) o :
  (∀ x, eqb x x = true) → option_eqb eqb o o = true.
Proof. intros Hr. destruct o; simpl; auto. Qed.

Section NanFree.
Context `{Chrono, JsonNumberLaws}.

Lemma ToolCallRecord_eqb_refl r : ToolCallRecord_eqb r r = true.
Proof.
  unfold ToolCallRecord_eqb.
  rewrite value_eqb_refl, (option_eqb_refl value_eqb) by apply value_eqb_refl.
  by eqb_refl_tac.
Qed.

Lemma ProviderObservation_eqb_refl p : ProviderObservation_eqb p p = true.
Proof.
  unfold ProviderObservation_eqb. rewrite list_eqb_refl by apply value_eqb_refl.
  by eqb_refl_tac.
Qed.

Lemma event_eqb_refl ev : RuntimeEvent_eqb ev ev = event_nan_free ev.
Proof.
  destruct ev; simpl; unfold RuntimeProviderConfig_eqb, ProviderConfig_eqb;
    rewrite ?usage_opt_eqb_refl, ?value_eqb_refl, ?ToolCallRecord_eqb_refl,
      ?option_eqb_refl by apply ProviderObservation_eqb_refl;
    by eqb_refl_tac.
Qed.
End NanFree.

(** ** Histories

    [history id a log]: the aggregate [a] of runtime [id] was created, executed
    commands and had events acknowledged by the session service, in any order,
    and [log] is the sequence of events the service has acknowledged. *)
Section Histories.
Context `{Chrono, JsonNumber}.

Inductive history (id : string) : RuntimeAggregate → list RuntimeEvent → Prop :=
| history_new sid aid provider created_at fallback a :
    new_with_fallback id sid aid provider created_at fallback = Ok a →
    history id a []
| history_execute a log cmd ev a' :
    history id a log → execute a cmd = Ok (ev, a') → history id a' log
| history_acknowledge a log ev a' :
    history id a log → acknowledge_uncommitted_event a = (Some ev, a') →
    history id a' (log ++ [ev])
| history_take a log evs a' :
    history id a log → take_uncommitted_events a = (evs, a') →
    history id a' (log ++ evs).

Definition full_log (a : RuntimeAggregate) (log : list RuntimeEvent) : list RuntimeEvent :=
  log ++ ra_uncommitted_events a.

Definition committed (a : RuntimeAggregate) : RuntimeAggregate :=
  a.{ra_uncommitted_events := [] }.

Lemma decide_committed a cmd : decide (committed a) cmd = decide a cmd.
Proof. apply decide_buffer. Qed.

Lemma execute_Ok a cmd ev a' :
  execute a cmd = Ok (ev, a') ↔
  decide a cmd = Ok ev ∧
  a' = (apply a ev).{ra_uncommitted_events := ra_uncommitted_events a ++ [ev] }.
Proof.
  unfold execute. rewrite <- (apply_keeps_buffer a ev). split.
  - intros. outcome_inv. simplify_eq. by rewrite apply_keeps_buffer.
  - intros [-> ->]. simpl. by rewrite apply_keeps_buffer.
Qed.

Lemma history_nonempty id a log : history id a log → full_log a log ≠ [].
Proof.
  unfold full_log. induction 1 as [sid aid p t fb a Hn|a log cmd ev a' _ IH He
                                  |a log ev a' _ IH Ha|a log evs a' _ IH Ht].
  - unfold new_with_fallback in Hn. outcome_inv. done.
  - apply execute_Ok in He as [_ ->]. simpl. rewrite app_assoc. by destruct (log ++ _).
  - by destruct log.
  - unfold take_uncommitted_events in Ht. injection Ht as <- <-. simpl.
    by rewrite app_nil_r.
Qed.

Lemma acknowledge_full_log a log ev a' :
  acknowledge_uncommitted_event a = (Some ev, a') →
  full_log a' (log ++ [ev]) = full_log a log ∧ committed a' = committed a.
Proof.
  unfold acknowledge_uncommitted_event, full_log, committed.
  destruct (ra_uncommitted_events a) eqn:He; [done|].
  intros [= <- <-]. simpl. by rewrite <- app_assoc.
Qed.
End Histories.

Section Replay.
Context `{Chrono, JsonNumberLaws}.

(** C33: Durability of the runtime event stream.  Whatever sequence of commands
    and acknowledgements an aggregate went through, replaying the acknowledged
    events followed by the buffered ones rebuilds exactly the aggregate (with
    an empty transport buffer), provided no event carries a NaN float. *)
Theorem replay_rebuilds_aggregate id a log :
  history id a log →
  Forall (λ ev, event_nan_free ev = true) (full_log a log) →
  replay id (full_log a log) = Ok (committed a).
Proof.
  induction 1 as [sid aid p t fb a Hn|a log cmd ev a' Hh IH He
                 |a log ev a' _ IH Ha|a log evs a' _ IH Ht]; intros Hnan.
  - unfold new_with_fallback in Hn. outcome_inv. simpl.
    match goal with Hv : validate_fallback_source _ _ = _ |- _ => rewrite Hv end. done.
  - apply execute_Ok in He as [Hd ->]. unfold full_log in *. simpl in *.
    rewrite app_assoc in *. apply Forall_app in Hnan as [Hl Hev].
    rewrite replay_snoc by (by apply (history_nonempty id)).
    rewrite IH by done. simpl. apply apply_committed_Ok. exists cmd.
    rewrite decide_committed, event_eqb_refl.
    split_and!; [by eapply decide_Ok_as_command|done|by inversion Hev|].
    unfold committed. by rewrite (apply_buffer a []).
  - destruct (acknowledge_full_log a log ev a' Ha) as [Hf Hc].
    rewrite Hf, Hc in *. auto.
  - unfold take_uncommitted_events, full_log in *. injection Ht as <- <-. simpl in *.
    rewrite app_nil_r in *. auto.
Qed.

(** A sequence of commands, all accepted. *)
Fixpoint run (a : RuntimeAggregate) (cmds : list RuntimeCommand)
    : outcome string RuntimeAggregate :=
  match cmds with
  | [] => mret a
  | cmd :: rest => result ← execute a cmd; run result.2 rest
  end.

Lemma apply_committed_all_run a evs a' :
  apply_committed_all a evs = Ok a' →
  ∃ cmds, ∀ buffer,
    run a.{ra_uncommitted_events := buffer} cmds
    = Ok a'.{ra_uncommitted_events := buffer ++ evs}.
Proof.
  revert a. induction evs as [|ev evs IH]; intros a; simpl.
  - intros. outcome_inv. exists []. intros. by rewrite app_nil_r.
  - intros Hr. outcome_inv.
    match goal with Ha : apply_committed _ _ = Ok _, Hr : apply_committed_all _ _ = Ok _ |- _ =>
      apply apply_committed_Ok in Ha as (cmd & Hc & Hd & _ & ->);
      destruct (IH _ Hr) as (cmds & Hrun) end.
    exists (cmd :: cmds). intros buffer. simpl.
    unfold execute. rewrite decide_buffer, Hd. simpl.
    rewrite apply_buffer. specialize (Hrun (buffer ++ [ev])).
    rewrite <- app_assoc in Hrun. exact Hrun.
Qed.

(** Replay accepts only producible histories.  If replay accepts a stream
    whose creation event has the default context size, then the same stream is
    what the constructor followed by some sequence of accepted commands
    buffers, and it ends in the replayed state. *)
Theorem replay_only_producible id sid aid provider created_at fallback evs a :
  let created := EvRuntimeCreated sid aid provider created_at fallback
                   ContextTokenStats_default in
  replay id (created :: evs) = Ok a →
  ∃ a0 cmds a1,
    new_with_fallback id sid aid provider created_at fallback = Ok a0 ∧
    run a0 cmds = Ok a1 ∧
    ra_uncommitted_events a1 = created :: evs ∧ committed a1 = committed a.
Proof.
  simpl. intros Hr. outcome_inv.
  match goal with Hr : apply_committed_all _ _ = _ |- _ =>
    destruct (apply_committed_all_run _ _ _ Hr) as [cmds Hrun] end.
  eexists _, cmds, _. unfold new_with_fallback.
  match goal with Hv : validate_fallback_source _ _ = _ |- _ => rewrite Hv end.
  split_and!; [reflexivity|exact (Hrun [_])|done|done].
Qed.
End Replay.

(** ** The state graph *)

(** Progress of a call: transitions never decrease it. *)
Definition rank (s : RuntimeState) : nat :=
  match s with
  | Created => 0 | Dispatching => 1 | WaitingFirstToken => 2 | Streaming => 3
  | Finished | Failed | TimedOut | Cancelled => 4
  end.

(** The state an event leads to, if it changes the state. *)
Definition event_state `{Chrono, JsonNumber} (ev : RuntimeEvent) : option RuntimeState :=
  match ev with
  | EvStateChanged s => Some s
  | EvCallStarted _ => Some Dispatching
  | EvWaitingFirstToken => Some WaitingFirstToken
  | EvFirstTokenReceived _ => Some Streaming
  | EvRuntimeFinished _ _ => Some Finished
  | EvRuntimeFailed _ _ s _ => Some s
  | _ => None
  end.

Lemma can_transition_live s s' : can_transition_to s s' = true → is_live s = true.
Proof. by destruct s, s'. Qed.

Lemma can_transition_rank s s' :
  can_transition_to s s' = true → s = s' ∨ (rank s < rank s')%nat.
Proof. destruct s, s'; simpl; intros; (done || (left; done) || (right; lia)). Qed.

Lemma streaming_forward s s' :
  s = Streaming ∨ is_terminal s = true → can_transition_to s s' = true →
  s' = Streaming ∨ is_terminal s' = true.
Proof. intros [->|]; destruct s'; try destruct s; simpl; auto; discriminate. Qed.

Lemma not_created_forward s s' :
  s ≠ Created → can_transition_to s s' = true → s' ≠ Created.
Proof. by destruct s, s'. Qed.

Section StateGraph.
Context `{Chrono, JsonNumber}.
Implicit Types (a : RuntimeAggregate) (ev : RuntimeEvent) (cmd : RuntimeCommand).

Lemma check_transition_Ok a s u :
  check_transition a s = Ok u ↔ can_transition_to (ra_state a) s = true.
Proof. unfold check_transition. destruct (can_transition_to _ _), u; split; congruence. Qed.

Lemma require_live_Ok a c u :
  require_live_command a c = Ok u ↔ is_live (ra_state a) = true.
Proof. unfold require_live_command. destruct (is_live _), u; split; congruence. Qed.

(** What an accepted command says of the state it was accepted in. *)
Lemma decide_Ok_state a cmd ev :
  decide a cmd = Ok ev →
  is_live (ra_state a) = true ∧
  match event_state ev with
  | Some s => can_transition_to (ra_state a) s = true
  | None => True
  end.
Proof.
  destruct cmd; simpl; intros; repeat split_hyp; outcome_inv; simpl;
    repeat match goal with
    | Hc : check_transition _ _ = Ok _ |- _ => apply check_transition_Ok in Hc
    | Hc : require_live_command _ _ = Ok _ |- _ => apply require_live_Ok in Hc
    end; split; eauto using can_transition_live.
Qed.

Lemma apply_state a ev :
  ra_state (apply a ev) = default (ra_state a) (event_state ev).
Proof. by destruct ev. Qed.

Lemma terminal_decide_Err a cmd :
  is_terminal (ra_state a) = true → ∃ e, decide a cmd = Err e.
Proof.
  intros Ht. assert (Hl : is_live (ra_state a) = false)
    by (unfold is_terminal in Ht; by destruct (is_live _)).
  assert (Hct : ∀ s, can_transition_to (ra_state a) s = false).
  { intros s. destruct (can_transition_to _ s) eqn:Hs; [|done].
    apply can_transition_live in Hs. congruence. }
  destruct cmd; simpl; unfold check_transition, require_live_command;
    rewrite ?Hct, ?Hl; simpl; eauto.
  destruct terminal_state; simpl; eauto.
Qed.

Lemma terminal_not_committed a ev a' :
  is_terminal (ra_state a) = true → apply_committed a ev ≠ Ok a'.
Proof.
  intros Ht (c & _ & Hc & _)%apply_committed_Ok.
  destruct (terminal_decide_Err a c Ht). congruence.
Qed.

(** Terminal states are absorbing: a finished, failed, timed-out or
    cancelled runtime refuses every command with an error (never a panic), and
    no event of the canonical stream is accepted after it. *)
Theorem terminal_refuses_every_command a cmd :
  is_terminal (ra_state a) = true →
  (∃ e, decide a cmd = Err e) ∧ (∃ e, execute a cmd = Err e) ∧
  ∀ ev a', apply_committed a ev ≠ Ok a'.
Proof.
  intros Ht. split_and!; [by apply terminal_decide_Err| |].
  - destruct (terminal_decide_Err a cmd Ht) as [e He]. exists e.
    unfold execute. by rewrite He.
  - intros ev a'. by apply terminal_not_committed.
Qed.

(** A live call can always be settled.  From every live state the three
    failure outcomes are accepted with any error and usage, and success is
    accepted exactly from [WaitingFirstToken] and [Streaming]. *)
Theorem live_call_can_settle a finished_at error usage :
  is_live (ra_state a) = true →
  (∀ s, s = Failed ∨ s = TimedOut ∨ s = Cancelled →
     ∃ a', execute a (CmdFinishFailure finished_at error s usage)
           = Ok (EvRuntimeFailed finished_at error s usage, a') ∧
           ra_state a' = s ∧ ra_error a' = Some error ∧
           ra_call_finished_at a' = Some finished_at ∧ ra_usage a' = usage) ∧
  (is_ok (execute a (CmdFinishSuccess finished_at usage)) = true ↔
   ra_state a = WaitingFirstToken ∨ ra_state a = Streaming).
Proof.
  intros Hl. split.
  - intros s Hs. unfold execute, decide, check_transition.
    destruct Hs as [->|[->| ->]]; destruct (ra_state a); try discriminate Hl; simpl;
      eexists; (split; [reflexivity|split_and!; reflexivity]).
  - unfold execute, decide, check_transition.
    destruct (ra_state a); try discriminate Hl; simpl; intuition congruence.
Qed.

Lemma apply_committed_all_rank a evs a' :
  apply_committed_all a evs = Ok a' → (rank (ra_state a) ≤ rank (ra_state a'))%nat.
Proof.
  revert a. induction evs as [|ev evs IH]; intros a; simpl; intros; outcome_inv; [done|].
  match goal with Hr : apply_committed_all _ _ = Ok _ |- _ => apply IH in Hr end.
  match goal with Ha : apply_committed _ _ = Ok _ |- _ =>
    apply apply_committed_Ok in Ha as (c & _ & Hd & _ & ->) end.
  rewrite apply_state in *. apply decide_Ok_state in Hd as [_ Hs].
  destruct (event_state ev) as [s|]; simpl in *; [|done].
  apply can_transition_rank in Hs as [<-|]; lia.
Qed.

(** A terminal event closes the stream.  In every stream replay accepts,
    an event that leads to a terminal state is the last one, and the calls'
    states never go backwards along the stream. *)
Theorem terminal_event_is_last id pre ev post a s :
  replay id (pre ++ ev :: post) = Ok a →
  pre ≠ [] → event_state ev = Some s → is_terminal s = true →
  post = [] ∧ ra_state a = s.
Proof.
  intros Hr Hpre Hs Ht.
  assert (Hev : ∃ b, apply_committed_all b (ev :: post) = Ok a).
  { destruct pre as [|[] pre]; try done; simpl in Hr; outcome_inv.
    rewrite apply_committed_all_app in *. outcome_inv. eauto. }
  clear Hr. destruct Hev as [b Hb]. simpl in Hb. outcome_inv.
  match goal with Ha : apply_committed _ _ = Ok _ |- _ =>
    apply apply_committed_Ok in Ha as (c & _ & _ & _ & ->) end.
  assert (Hst : ra_state (apply b ev) = s) by (by rewrite apply_state, Hs).
  destruct post as [|ev' post]; simpl in *; outcome_inv; [done|].
  exfalso. eapply (terminal_not_committed (apply b ev)); [|eassumption]. by rewrite Hst.
Qed.
End StateGraph.

(** ** What a replayed aggregate contains *)

Definition event_text `{Chrono, JsonNumber} (ev : RuntimeEvent) : string :=
  match ev with EvTextAppended chunk => chunk | _ => "" end.
Definition event_tool_call `{Chrono, JsonNumber} (ev : RuntimeEvent) : list ToolCallRecord :=
  match ev with EvToolCallRecorded r => [r] | _ => [] end.
Definition event_usage `{Chrono, JsonNumber} (ev : RuntimeEvent) : option (option UsageReport) :=
  match ev with
  | EvUsageUpdated u | EvRuntimeFinished _ u | EvRuntimeFailed _ _ _ u => Some u
  | _ => None
  end.
Definition concat_text `{Chrono, JsonNumber} (evs : list RuntimeEvent) : string :=
  foldr (λ ev s, event_text ev +:+ s) "" evs.

Section Contents.
Context `{Chrono, JsonNumber}.
Implicit Types (a : RuntimeAggregate) (ev : RuntimeEvent).

Lemma apply_committed_all_foldl a evs a' :
  apply_committed_all a evs = Ok a' → a' = foldl apply a evs.
Proof.
  revert a. induction evs as [|ev evs IH]; intros a; simpl; intros; outcome_inv; [done|].
  match goal with Hr : apply_committed_all _ _ = Ok _ |- _ => apply IH in Hr end.
  match goal with Ha : apply_committed _ _ = Ok _ |- _ =>
    apply apply_committed_Ok in Ha as (c & _ & _ & _ & ->) end. done.
Qed.

Lemma foldl_apply_text a evs :
  ra_text (foldl apply a evs) = ra_text a +:+ concat_text evs.
Proof.
  revert a. induction evs as [|ev evs IH]; intros a; simpl; [by rewrite append_empty|].
  rewrite IH, <- append_assoc. f_equal. destruct ev; simpl; by rewrite ?append_empty.
Qed.

Lemma foldl_apply_tool_call a evs :
  ra_tool_call (foldl apply a evs) = ra_tool_call a ++ (evs ≫= event_tool_call).
Proof.
  revert a. induction evs as [|ev evs IH]; intros a; simpl; [by rewrite app_nil_r|].
  rewrite IH, app_assoc. f_equal. destruct ev; simpl; by rewrite ?app_nil_r.
Qed.

Lemma foldl_apply_usage a evs :
  ra_usage (foldl apply a evs) = default (ra_usage a) (last (omap event_usage evs)).
Proof.
  revert a. induction evs as [|ev evs IH] using rev_ind; intros a; [done|].
  rewrite foldl_app, omap_app. simpl.
  destruct (event_usage ev) as [u|] eqn:Hu.
  - rewrite last_snoc. destruct ev; simplify_eq/=; done.
  - rewrite app_nil_r, <- IH. by destruct ev.
Qed.

(** The replayed transcript is the stream's.  The text of a replayed
    runtime is the concatenation of the appended chunks in order, its tool
    calls are the recorded ones in order, and its usage is the last usage any
    event reported. *)
Theorem replay_transcript id evs a :
  replay id evs = Ok a →
  ra_runtime_id a = id ∧ ra_text a = concat_text evs ∧
  ra_tool_call a = (evs ≫= event_tool_call) ∧
  ra_usage a = default None (last (omap event_usage evs)).
Proof.
  destruct evs as [|[] evs]; simpl; intros; try done. outcome_inv.
  match goal with Hr : apply_committed_all _ _ = Ok _ |- _ =>
    apply apply_committed_all_foldl in Hr as -> end.
  rewrite foldl_apply_text, foldl_apply_tool_call, foldl_apply_usage.
  split_and!; try done.
  set (b := fresh _ _ _ _ _ _ _ _). change id with (ra_runtime_id b). clearbody b.
  revert b. induction evs as [|ev evs IH]; intros b; simpl; [done|].
  rewrite IH. by destruct ev.
Qed.

(** *** Which fields a state determines *)

Record coherent (a : RuntimeAggregate) : Prop := {
  coherent_finished : is_Some (ra_call_finished_at a) → is_terminal (ra_state a) = true;
  coherent_error : is_Some (ra_error a) →
    (ra_state a = Failed ∨ ra_state a = TimedOut ∨ ra_state a = Cancelled) ∧
    is_Some (ra_call_finished_at a);
  coherent_first_token : is_Some (ra_first_token_at a) →
    ra_state a = Streaming ∨ is_terminal (ra_state a) = true;
  coherent_called : is_Some (ra_called_at a) → ra_state a ≠ Created;
}.

Lemma fresh_coherent id sid aid p t fb ct unc : coherent (fresh id sid aid p t fb ct unc).
Proof. split; simpl; intros [x Hx]; done. Qed.

Lemma decide_FinishFailure_state a cmd ev t e s u :
  decide a cmd = Ok ev → ev = EvRuntimeFailed t e s u →
  s = Failed ∨ s = TimedOut ∨ s = Cancelled.
Proof.
  intros Hd ->. apply decide_Ok_as_command in Hd as Hc. injection Hc as <-.
  simpl in Hd. destruct s; auto; discriminate.
Qed.

Lemma apply_coherent a cmd ev : coherent a → decide a cmd = Ok ev → coherent (apply a ev).
Proof.
  intros [Hf He Ht Hc] Hd. pose proof (decide_Ok_state _ _ _ Hd) as [Hl Hs].
  assert (Hnt : is_terminal (ra_state a) = false) by (unfold is_terminal; by rewrite Hl).
  assert (Hnf : ra_call_finished_at a = None).
  { destruct (ra_call_finished_at a); [|done]. rewrite Hf in Hnt; [done|eauto]. }
  assert (Hne : ra_error a = None).
  { destruct (ra_error a); [|done]. destruct (He ltac:(eauto)) as [_ [? ?]]. congruence. }
  destruct ev; split; simpl in *; rewrite ?Hnf, ?Hne; intros Hi;
    try (by destruct Hi); try (by auto); try (by eauto);
    try (eapply streaming_forward; by eauto);
    try (eapply not_created_forward; by eauto);
    destruct (decide_FinishFailure_state _ _ _ _ _ _ _ Hd eq_refl) as [->|[->| ->]]; eauto.
Qed.

Lemma history_coherent id a log : history id a log → coherent a.
Proof.
  induction 1 as [sid aid p t fb a Hn|a log cmd ev a' _ IH He
                 |a log ev a' _ IH Ha|a log evs a' _ IH Ht].
  - unfold new_with_fallback in Hn. outcome_inv. apply fresh_coherent.
  - apply execute_Ok in He as [Hd ->]. eapply apply_coherent in IH as []; [|done].
    by split.
  - unfold acknowledge_uncommitted_event in Ha.
    destruct (ra_uncommitted_events a); [done|]. injection Ha as _ <-.
    destruct IH. by split.
  - injection Ht as _ <-. destruct IH. by split.
Qed.

(** Field coherence.  Along every history of a runtime: a recorded end time
    means the state is terminal; an error is only present in a failed,
    timed-out or cancelled runtime that has an end time; a first-token time
    means the call streams or is over; a call time means it left [Created]. *)
Theorem reachable_runtime_coherent id a log : history id a log → coherent a.
Proof. apply history_coherent. Qed.
End Contents.

(** ** The wire form *)

Section Wire.
Context `{Chrono, JsonNumber}.

(** Snapshot round trip.  Decoding an encoded aggregate gives the aggregate
    back with an empty transport buffer and with [null] payloads read as
    absent; in particular it is the identity on aggregates whose payloads are
    not [null] and whose buffer is empty. *)
Theorem serialize_roundtrip a :
  deserialize (serialize a)
  = Ok (committed a).{ra_input := decode_option_value (ra_input a)}
                     .{ra_output := decode_option_value (ra_output a)}.
Proof. unfold deserialize. simpl. by rewrite bool_decide_eq_true_2. Qed.

(** A snapshot cannot contradict itself: decoding succeeds exactly when the
    result status agrees with the state, and a decoded aggregate re-encodes to
    the same status and state. *)
Theorem deserialize_consistent w :
  (is_ok (deserialize w) = true ↔ rw_call_result_status w = call_result_status (rw_state w)) ∧
  ∀ a, deserialize w = Ok a →
    rw_call_result_status (serialize a) = rw_call_result_status w ∧
    rw_state (serialize a) = rw_state w ∧ ra_uncommitted_events a = [].
Proof.
  unfold deserialize. split.
  - case_bool_decide; simpl; split; done.
  - intros a ?. outcome_inv. guards. simpl. eauto.
Qed.
End Wire.

(** A lifecycle projection received from another process is accepted
    exactly when its derived fields are those of its state, and then it is
    returned unchanged. *)
Theorem projection_wire_exact w p :
  RuntimeProjection_of_wire w = Ok p ↔
  p = w ∧ w = RuntimeProjection_new (rp_runtime_id w) (rp_state w).
Proof.
  destruct w as [id s st live refresh]. unfold RuntimeProjection_of_wire. simpl. split.
  - intros. outcome_inv. guards.
    repeat match goal with He : Bool.eqb _ _ = true |- _ => apply Bool.eqb_prop in He end.
    simpl in *. subst. done.
  - intros [-> Hw]. injection Hw as -> -> ->. simpl.
    by rewrite bool_decide_eq_true_2, !Bool.eqb_reflx.
Qed.

(** ** A concrete call: created, dispatched, streamed and finished *)

Lemma history_run `{Chrono, JsonNumber} id a log cmds a' :
  history id a log → run a cmds = Ok a' → history id a' log.
Proof.
  revert a. induction cmds as [|cmd cmds IH]; intros a Hh; simpl; intros; outcome_inv; [done|].
  destruct x as [ev b]. eapply IH; [|eassumption]. by eapply history_execute.
Qed.

Module RuntimeExample.
#[local] Existing Instance chrono_ns.
#[local] Existing Instance json_z.

(** A date by its nanoseconds. *)
Definition at_ns (n : Z) : @DateTime chrono_ns := n.

Definition provider : RuntimeProviderConfig :=
  {| rpc_base :=
       {| pc_tura_llm_name := "main"; pc_default_model_tier := None;
          pc_current_model := Some "m"; pc_stream := true; pc_temperature := S754_zero false;
          pc_max_tokens := 4096; pc_tool_choice := Auto; pc_time_out_ms := 60000 |};
     rpc_thinking := false; rpc_provider_name := "p"; rpc_model_name := "m";
     rpc_provider_url_name := "u"; rpc_llm_provider_name := "openai" |}.
Definition usage (cost : f64) : UsageReport :=
  {| ur_input_tokens := 120; ur_output_tokens := 8; ur_total_tokens := 128;
     ur_cached_input_tokens := 0; ur_cache_write_tokens := 0; ur_reasoning_tokens := 0;
     ur_attachment_input_tokens := 0; ur_input_cost := cost; ur_output_cost := S754_zero false;
     ur_total_cost := S754_zero false; ur_currency := "USD"; ur_pricing_source := "table";
     ur_latency_ms := 10; ur_time_to_first_token_ms := 3; ur_token_per_second := S754_zero false |}.
Definition created : RuntimeEvent :=
  EvRuntimeCreated "s1" "agent" provider (at_ns 5) (Some "rt-0") ContextTokenStats_default.
Definition start : RuntimeAggregate :=
  fresh "rt-1" "s1" "agent" provider (at_ns 5) (Some "rt-0") ContextTokenStats_default [created].
Definition commands : list RuntimeCommand :=
  [CmdCallStarted (at_ns 6); CmdWaitingFirstToken; CmdFirstTokenReceived (at_ns 7);
   CmdAppendText "hel"; CmdAppendText "lo";
   CmdFinishSuccess (at_ns 9) (Some (usage (S754_zero false)))].
Definition final : RuntimeAggregate :=
  ok_value start (run start commands).
Definition acknowledged : RuntimeAggregate := (acknowledge_uncommitted_event final).2.

Definition replayed : RuntimeAggregate :=
  ok_value start (replay "rt-1" (created :: tail (ra_uncommitted_events final))).

Lemma start_history : history "rt-1" start [].
Proof. by apply (history_new "rt-1" "s1" "agent" provider (at_ns 5) (Some "rt-0")). Qed.

Lemma final_history : history "rt-1" final [].
Proof.
  apply (history_run "rt-1" start [] commands); [exact start_history|].
  apply is_ok_value. reflexivity.
Qed.

Lemma acknowledged_history : history "rt-1" acknowledged [created].
Proof. apply (history_acknowledge _ final []); [exact final_history|]. reflexivity. Qed.

Lemma replay_rebuilds_aggregate_witness :
  replay "rt-1" (full_log acknowledged [created]) = Ok (committed acknowledged) ∧
  ra_text acknowledged = "hello" ∧ ra_state acknowledged = Finished ∧
  ct_input (ra_context_tokens acknowledged) = 120.
Proof.
  split; [|repeat split; reflexivity].
  apply replay_rebuilds_aggregate; [exact acknowledged_history|].
  repeat constructor.
Defined.

Lemma replay_only_producible_witness :
  ∃ a0 cmds a1,
    new_with_fallback "rt-1" "s1" "agent" provider (at_ns 5) (Some "rt-0") = Ok a0 ∧
    run a0 cmds = Ok a1 ∧
    ra_uncommitted_events a1 = created :: tail (ra_uncommitted_events final) ∧
    committed a1 = committed replayed.
Proof.
  apply (replay_only_producible "rt-1" "s1" "agent" provider (at_ns 5) (Some "rt-0")
           (tail (ra_uncommitted_events final)) replayed).
  apply is_ok_value. reflexivity.
Defined.

Lemma terminal_refuses_every_command_witness :
  (∃ e, decide final (CmdAppendText "late") = Err e) ∧
  (∃ e, execute final (CmdAppendText "late") = Err e) ∧
  ∀ ev a', apply_committed final ev ≠ Ok a'.
Proof. apply terminal_refuses_every_command. reflexivity. Defined.

Lemma live_call_can_settle_witness :
  (∀ s, s = Failed ∨ s = TimedOut ∨ s = Cancelled →
     ∃ a', execute start (CmdFinishFailure (at_ns 8)
             (MkRuntimeError (Some "500") None true false None) s None)
           = Ok (EvRuntimeFailed (at_ns 8)
                   (MkRuntimeError (Some "500") None true false None) s None, a') ∧
           ra_state a' = s ∧
           ra_error a' = Some (MkRuntimeError (Some "500") None true false None) ∧
           ra_call_finished_at a' = Some (at_ns 8) ∧ ra_usage a' = None) ∧
  (is_ok (execute start (CmdFinishSuccess (at_ns 8) None)) = true ↔
   ra_state start = WaitingFirstToken ∨ ra_state start = Streaming).
Proof. apply live_call_can_settle. reflexivity. Defined.

Lemma terminal_event_is_last_witness :
  ([] : list RuntimeEvent) = [] ∧
  ra_state (ok_value start (replay "rt-1" (take 6 (ra_uncommitted_events final) ++
     [EvRuntimeFinished (at_ns 9) (Some (usage (S754_zero false)))]))) = Finished.
Proof.
  apply (terminal_event_is_last "rt-1" (take 6 (ra_uncommitted_events final))
           (EvRuntimeFinished (at_ns 9) (Some (usage (S754_zero false)))) []).
  - apply is_ok_value. reflexivity.
  - discriminate.
  - reflexivity.
  - reflexivity.
Defined.

Lemma replay_transcript_witness :
  let evs := created :: tail (ra_uncommitted_events final) in
  ra_runtime_id replayed = "rt-1" ∧ ra_text replayed = concat_text evs ∧
  ra_tool_call replayed = (evs ≫= event_tool_call) ∧
  ra_usage replayed = default None (last (omap event_usage evs)).
Proof. apply replay_transcript. apply is_ok_value. reflexivity. Defined.

Lemma reachable_runtime_coherent_witness : coherent acknowledged.
Proof. apply (reachable_runtime_coherent "rt-1" _ [created]). exact acknowledged_history. Defined.

(** A usage report with a NaN cost is accepted by [execute] and refused by
    [replay]: the hypothesis of [replay_rebuilds_aggregate] is necessary. *)
Example nan_usage_is_not_replayable :
  is_ok (run start [CmdUpdateUsage (Some (usage S754_nan))]) = true ∧
  replay "rt-1" [created; EvUsageUpdated (Some (usage S754_nan))]
  = Err "runtime event does not match the canonical reducer result".
Proof. done. Qed.
End RuntimeExample.
