(* ===== verification/TaskData.v ===== *)
(** * Task plans and their scheduling identities: data of [lifecycle/src/session.rs]

    The contract a planned task is scheduled under, the claim that binds a
    dispatched child to it, the acknowledgement of the child's callback, the
    plan itself, and the canonical digests that tie them together. *)

From stdpp Require Import base list strings gmap sorting.
From Stdlib Require Import ZArith Lia Ascii.
From Stdlib Require String.
From S2P Require Import Prelude RustStd Externals.
Open Scope Z_scope.

Definition TASK_SCHEDULING_CONTRACT_SCHEMA_VERSION : string :=
  "tura_task_scheduling_contract_v1".
Definition MAX_TASK_SCHEDULING_DEPENDENCIES : Z := 64.
Definition MAX_TASK_SCHEDULING_SCOPE_ENTRIES : Z := 1024.
Definition MAX_TASK_SCHEDULING_INPUTS : Z := 128.
Definition MAX_TASK_SCHEDULING_CONFLICT_IDENTITIES : Z := 128.
Definition MAX_TASK_SCHEDULING_VALUE_CHARS : Z := 1024.
Definition MAX_TASK_SCHEDULING_PARALLEL_RUNTIME_WORKERS : Z := 128.
Definition TASK_DISPATCH_CLAIM_SCHEMA_VERSION : string := "tura_task_dispatch_claim_v1".
Definition ACKNOWLEDGED_CHILD_CALLBACK_IDENTITY_SCHEMA_VERSION : string :=
  "tura_acknowledged_child_callback_identity_v1".

Record TaskSchedulingContractV1 := MkTaskSchedulingContractV1 {
  sc_schema_version : string;
  sc_mission_id : string;
  sc_semantic_dispatch_key : string;
  sc_authority_mission_revision_sha256 : string;
  sc_delegated_input_sha256 : string;
  sc_task_context_capsule_semantic_sha256 : string;
  sc_dependency_task_ids : list string;
  sc_exact_input_sha256s : list string;
  sc_jspace_authorization_semantic_sha256 : string;
  sc_read_scopes : list string;
  sc_write_scopes : list string;
  sc_declared_targets : list string;
  sc_conflict_identities : list string;
  sc_maximum_parallel_runtime_workers : Z;
}.
#[export] Instance TaskSchedulingContractV1_eta : Eta TaskSchedulingContractV1 := MkEta (λ r,
  MkTaskSchedulingContractV1 (sc_schema_version r) (sc_mission_id r)
    (sc_semantic_dispatch_key r) (sc_authority_mission_revision_sha256 r)
    (sc_delegated_input_sha256 r) (sc_task_context_capsule_semantic_sha256 r)
    (sc_dependency_task_ids r) (sc_exact_input_sha256s r)
    (sc_jspace_authorization_semantic_sha256 r) (sc_read_scopes r) (sc_write_scopes r)
    (sc_declared_targets r) (sc_conflict_identities r)
    (sc_maximum_parallel_runtime_workers r)).
#[export] Instance TaskSchedulingContractV1_eq_dec : EqDecision TaskSchedulingContractV1.
Proof. solve_decision. Defined.

Record TaskDispatchClaimV1 := MkTaskDispatchClaimV1 {
  dc_schema_version : string;
  dc_mission_id : string;
  dc_task_id : string;
  dc_child_session_id : string;
  dc_child_runtime_id : string;
  dc_child_lease_id : string;
  dc_child_transaction_id : string;
  dc_semantic_dispatch_key : string;
  dc_authority_mission_revision_sha256 : string;
  dc_delegated_input_sha256 : string;
  dc_task_context_capsule_semantic_sha256 : string;
  dc_parent_task_plan_sha256 : string;
  dc_task_scheduling_contract_sha256 : string;
  dc_scope_claim_sha256 : string;
}.
#[export] Instance TaskDispatchClaimV1_eq_dec : EqDecision TaskDispatchClaimV1.
Proof. solve_decision. Defined.

Record AcknowledgedChildCallbackIdentityV1 := MkAcknowledgedChildCallbackIdentityV1 {
  ack_schema_version : string;
  ack_parent_mission_revision_sha256 : string;
  ack_commander_thread_id : string;
  ack_child_session_id : string;
  ack_child_runtime_id : string;
  ack_child_lease_id : string;
  ack_child_transaction_id : string;
  ack_event_id : string;
  ack_callback_payload_sha256 : string;
  ack_effect_identity_sha256 : string;
}.
#[export] Instance AcknowledgedChildCallbackIdentityV1_eq_dec :
  EqDecision AcknowledgedChildCallbackIdentityV1.
Proof. solve_decision. Defined.

Inductive PlanStatus := Todo | WaitingUser | Doing | Question | Done | Archived.
#[export] Instance PlanStatus_eq_dec : EqDecision PlanStatus.
Proof. solve_decision. Defined.

Inductive StartCondition := SessionIdle | UserAction | ScheduledTask | PollingTask.
#[export] Instance StartCondition_eq_dec : EqDecision StartCondition.
Proof. solve_decision. Defined.

(** [serde(rename_all = "snake_case")]. *)
Definition PlanStatus_name (s : PlanStatus) : string :=
  match s with
  | Todo => "todo" | WaitingUser => "waiting_user" | Doing => "doing"
  | Question => "question" | Done => "done" | Archived => "archived"
  end.
Definition StartCondition_name (c : StartCondition) : string :=
  match c with
  | SessionIdle => "session_idle" | UserAction => "user_action"
  | ScheduledTask => "scheduled_task" | PollingTask => "polling_task"
  end.

Record PollInterval := MkPollInterval { pi_m : Z; pi_d : Z; pi_h : Z; pi_s : Z }.
#[export] Instance PollInterval_eq_dec : EqDecision PollInterval.
Proof. solve_decision. Defined.
Definition PollInterval_default : PollInterval := MkPollInterval 0 0 0 0.

Section TaskPlans.
Context `{Chrono}.

Record TaskStep := MkTaskStep {
  ts_task_id : string;
  ts_step : Z;
  ts_sub_session_id : string;
  ts_start_at : DateTime;
  ts_poll_interval : PollInterval;
  ts_start_condition : StartCondition;
  ts_status : PlanStatus;
  ts_scheduling_contract : option TaskSchedulingContractV1;
  ts_dispatch_claim : option TaskDispatchClaimV1;
  ts_task_summary : string;
  ts_step_task : string;
  ts_step_turn : Z;
  ts_step_tool : string;
  ts_step_context : string;
  ts_step_agent_name : string;
  ts_step_deliverable_description : string;
  ts_step_deliverable_path : string;
}.
#[global] Instance TaskStep_eta : Eta TaskStep := MkEta (λ r,
  MkTaskStep (ts_task_id r) (ts_step r) (ts_sub_session_id r) (ts_start_at r)
    (ts_poll_interval r) (ts_start_condition r) (ts_status r)
    (ts_scheduling_contract r) (ts_dispatch_claim r) (ts_task_summary r)
    (ts_step_task r) (ts_step_turn r) (ts_step_tool r) (ts_step_context r)
    (ts_step_agent_name r) (ts_step_deliverable_description r)
    (ts_step_deliverable_path r)).
#[global] Instance TaskStep_eq_dec : EqDecision TaskStep.
Proof. solve_decision. Defined.

(** [TaskStep { start_at, ..TaskStep::default() }]: every use overrides the
    default's wall-clock start. *)
Definition TaskStep_default (start_at : DateTime) : TaskStep :=
  {| ts_task_id := ""; ts_step := 0; ts_sub_session_id := ""; ts_start_at := start_at;
     ts_poll_interval := PollInterval_default; ts_start_condition := UserAction;
     ts_status := Todo; ts_scheduling_contract := None; ts_dispatch_claim := None;
     ts_task_summary := ""; ts_step_task := ""; ts_step_turn := 0; ts_step_tool := "";
     ts_step_context := ""; ts_step_agent_name := "";
     ts_step_deliverable_description := ""; ts_step_deliverable_path := "" |}.

Record TaskPlan := MkTaskPlan {
  tp_plan_summary : string;
  tp_detailed_tasks : list TaskStep;
}.
#[global] Instance TaskPlan_eta : Eta TaskPlan := MkEta (λ r,
  MkTaskPlan (tp_plan_summary r) (tp_detailed_tasks r)).
#[global] Instance TaskPlan_eq_dec : EqDecision TaskPlan.
Proof. solve_decision. Defined.
Definition TaskPlan_default : TaskPlan := MkTaskPlan "" [].

(** [TaskPlan::scheduling_identities_valid]: the closure inserts each identity
    into a set and stops at the first refusal. *)
Fixpoint identities_valid (identities : gset string) (tasks : list TaskStep) : bool :=
  match tasks with
  | [] => true
  | task :: rest =>
      negb (is_blank (ts_task_id task))
      && bool_decide (trim (ts_task_id task) = ts_task_id task)
      && negb (bool_decide (ts_task_id task ∈ identities))
      && identities_valid ({[ts_task_id task]} ∪ identities) rest
  end.
Definition scheduling_identities_valid (self : TaskPlan) : bool :=
  identities_valid ∅ (tp_detailed_tasks self).
End TaskPlans.

(** ** Validation *)

Definition is_lower_sha256 (value : string) : bool :=
  (len value =? 64) && bytes_all is_lower_hex value.

Definition canonical_values (values : list string) : bool :=
  forallb (λ value, negb (is_blank value)
                    && (len value <=? MAX_TASK_SCHEDULING_VALUE_CHARS)
                    && bool_decide (trim value = value)) values
  && windows2_all str_lt values.

(** The identity test the two validators below repeat for each identifier. *)
Definition identifier_invalid (value : string) : bool :=
  is_blank value || negb (bool_decide (trim value = value))
  || (MAX_TASK_SCHEDULING_VALUE_CHARS <? len value).

Module Ack.
Definition validate (self : AcknowledgedChildCallbackIdentityV1) : outcome string unit :=
  _ ← reject_if
        (negb (bool_decide (ack_schema_version self
                            = ACKNOWLEDGED_CHILD_CALLBACK_IDENTITY_SCHEMA_VERSION)))
        "ACKNOWLEDGED_CHILD_CALLBACK_IDENTITY_SCHEMA_UNSUPPORTED";
  _ ← reject_if
        (existsb identifier_invalid
           [ack_commander_thread_id self; ack_child_session_id self;
            ack_child_runtime_id self; ack_child_lease_id self;
            ack_child_transaction_id self; ack_event_id self])
        "ACKNOWLEDGED_CHILD_CALLBACK_IDENTITY_INVALID";
  reject_if
    (existsb (λ value, negb (is_lower_sha256 value))
       [ack_parent_mission_revision_sha256 self; ack_callback_payload_sha256 self;
        ack_effect_identity_sha256 self])
    "ACKNOWLEDGED_CHILD_CALLBACK_DIGEST_INVALID".
End Ack.

Module Claim.
Definition validate (self : TaskDispatchClaimV1) : outcome string unit :=
  _ ← reject_if
        (negb (bool_decide (dc_schema_version self = TASK_DISPATCH_CLAIM_SCHEMA_VERSION)))
        "TASK_DISPATCH_CLAIM_SCHEMA_UNSUPPORTED";
  _ ← reject_if
        (existsb identifier_invalid
           [dc_mission_id self; dc_task_id self; dc_child_session_id self;
            dc_child_runtime_id self; dc_child_lease_id self; dc_child_transaction_id self])
        "TASK_DISPATCH_CLAIM_IDENTITY_INVALID";
  reject_if
    (existsb (λ value, negb (is_lower_sha256 value))
       [dc_semantic_dispatch_key self; dc_authority_mission_revision_sha256 self;
        dc_delegated_input_sha256 self; dc_task_context_capsule_semantic_sha256 self;
        dc_parent_task_plan_sha256 self; dc_task_scheduling_contract_sha256 self;
        dc_scope_claim_sha256 self])
    "TASK_DISPATCH_CLAIM_DIGEST_INVALID".
End Claim.

Definition matches_dispatch_claim (self : AcknowledgedChildCallbackIdentityV1)
    (claim : TaskDispatchClaimV1) : bool :=
  is_ok (Claim.validate claim)
  && bool_decide (dc_child_session_id claim = ack_child_session_id self)
  && bool_decide (dc_child_runtime_id claim = ack_child_runtime_id self)
  && bool_decide (dc_child_lease_id claim = ack_child_lease_id self)
  && bool_decide (dc_child_transaction_id claim = ack_child_transaction_id self)
  && bool_decide (dc_authority_mission_revision_sha256 claim
                  = ack_parent_mission_revision_sha256 self).

Module Contract.
Definition validate (self : TaskSchedulingContractV1) (task_id : string) : outcome string unit :=
  _ ← reject_if (negb (bool_decide (sc_schema_version self
                                    = TASK_SCHEDULING_CONTRACT_SCHEMA_VERSION)))
        "TASK_SCHEDULING_SCHEMA_UNSUPPORTED";
  _ ← reject_if (negb (is_lower_sha256 (sc_semantic_dispatch_key self)))
        "TASK_SCHEDULING_SEMANTIC_DISPATCH_KEY_INVALID";
  _ ← reject_if (is_blank (sc_mission_id self)
                 || (MAX_TASK_SCHEDULING_VALUE_CHARS <? len (sc_mission_id self)))
        "TASK_SCHEDULING_MISSION_ID_INVALID";
  _ ← reject_if (negb (is_lower_sha256 (sc_authority_mission_revision_sha256 self)))
        "TASK_SCHEDULING_AUTHORITY_REVISION_INVALID";
  _ ← reject_if (negb (is_lower_sha256 (sc_jspace_authorization_semantic_sha256 self)))
        "TASK_SCHEDULING_JSPACE_IDENTITY_INVALID";
  _ ← reject_if (negb (is_lower_sha256 (sc_delegated_input_sha256 self)))
        "TASK_SCHEDULING_DELEGATED_INPUT_INVALID";
  _ ← reject_if (negb (is_lower_sha256 (sc_task_context_capsule_semantic_sha256 self)))
        "TASK_SCHEDULING_CAPSULE_IDENTITY_INVALID";
  _ ← reject_if
        ((MAX_TASK_SCHEDULING_DEPENDENCIES <? Z.of_nat (length (sc_dependency_task_ids self)))
         || negb (canonical_values (sc_dependency_task_ids self))
         || existsb (λ dependency, bool_decide (dependency = task_id))
              (sc_dependency_task_ids self))
        "TASK_SCHEDULING_DEPENDENCIES_INVALID";
  _ ← reject_if
        ((MAX_TASK_SCHEDULING_INPUTS <? Z.of_nat (length (sc_exact_input_sha256s self)))
         || negb (canonical_values (sc_exact_input_sha256s self))
         || existsb (λ value, negb (is_lower_sha256 value)) (sc_exact_input_sha256s self))
        "TASK_SCHEDULING_EXACT_INPUTS_INVALID";
  _ ← reject_if
        (existsb (λ scopes,
             (MAX_TASK_SCHEDULING_SCOPE_ENTRIES <? Z.of_nat (length scopes))
             || negb (canonical_values scopes))
           [sc_read_scopes self; sc_write_scopes self; sc_declared_targets self])
        "TASK_SCHEDULING_SCOPE_INVALID";
  _ ← reject_if
        ((MAX_TASK_SCHEDULING_CONFLICT_IDENTITIES
            <? Z.of_nat (length (sc_conflict_identities self)))
         || negb (canonical_values (sc_conflict_identities self)))
        "TASK_SCHEDULING_CONFLICT_IDENTITIES_INVALID";
  reject_if
    ((sc_maximum_parallel_runtime_workers self =? 0)
     || (MAX_TASK_SCHEDULING_PARALLEL_RUNTIME_WORKERS
           <? sc_maximum_parallel_runtime_workers self))
    "TASK_SCHEDULING_PARALLEL_RUNTIME_LIMIT_INVALID".
End Contract.
