(* ===== verification/TaskSchedule.v ===== *)
(** * Scheduling of planned tasks: eligibility, polling and the ready set

    [TaskStep]'s scheduling methods and [classify_task_ready_set] of
    [lifecycle/src/session.rs]. *)

From stdpp Require Import base list strings gmap sorting.
From Stdlib Require Import ZArith Lia Ascii.
From S2P Require Import Prelude RustStd Externals TaskData.
Open Scope Z_scope.

Section TaskMethods.
Context `{Chrono}.
Implicit Types (self : TaskStep) (now : DateTime).

(** [matches!(self.status, PlanStatus::Todo | PlanStatus::Question)]. *)
Definition todo_or_question (status : PlanStatus) : bool :=
  match status with Todo | Question => true | _ => false end.

Definition scheduler_eligible self now : bool :=
  match ts_status self with
  | WaitingUser | Done | Archived => false
  | _ =>
      match ts_start_condition self with
      | ScheduledTask | PollingTask =>
          todo_or_question (ts_status self) && dt_leb (ts_start_at self) now
      | SessionIdle => todo_or_question (ts_status self)
      | UserAction => false
      end
  end.

Definition direct_dispatch_eligible self now : bool :=
  match ts_start_condition self with
  | UserAction => todo_or_question (ts_status self)
  | _ => scheduler_eligible self now
  end.

Definition display_summary self (plan_summary : string) : string :=
  match find (λ value, negb (is_empty value))
          (trim <$> [ts_task_summary self; ts_step_task self; plan_summary]) with
  | Some value => value
  | None => "Continue planned task"
  end.

(** The poll interval in seconds, saturating, at least one. *)
Definition poll_seconds (p : PollInterval) : Z :=
  Z.max 1
    (u64_saturating_add
       (u64_saturating_add
          (u64_saturating_add (pi_s p) (u64_saturating_mul (pi_m p) 60))
          (u64_saturating_mul (pi_h p) (60 * 60)))
       (u64_saturating_mul (pi_d p) (24 * 60 * 60))).

(** [while next <= now { next += step; }]. *)
Fixpoint poll_loop {E} (fuel : nat) (now next : DateTime) (step : TimeDelta)
    : outcome E DateTime :=
  match fuel with
  | O => OutOfFuel
  | S fuel =>
      if dt_leb next now
      then next ← or_panic (dt_add next step); poll_loop fuel now next step
      else mret next
  end.

(** Enough iterations to pass [now] from [next] in steps of [step]. *)
Definition poll_fuel (now next : DateTime) (step : TimeDelta) : nat :=
  S (S (Z.to_nat ((dt_nanos now - dt_nanos next) / td_nanos step))).

Definition advance_polling_start {E} self now : outcome E TaskStep :=
  step ← or_panic (duration_seconds (Z.min (poll_seconds (ts_poll_interval self)) i64_max));
  next ← or_panic (dt_add (ts_start_at self) step);
  next ← poll_loop (poll_fuel now next step) now next step;
  mret self.{ts_start_at := next}.
End TaskMethods.

(** ** The ready set *)

Inductive TaskReadySetState :=
| Ready | BlockedState | BlockedDependency | BlockedScope | BlockedLease
| BlockedCapacity | TypedUnknown.
#[export] Instance TaskReadySetState_eq_dec : EqDecision TaskReadySetState.
Proof. solve_decision. Defined.

Record TaskReadySetDecision := MkTaskReadySetDecision {
  rd_state : TaskReadySetState;
  rd_reason_codes : list string;
  rd_blocking_task_ids : list string;
}.

Definition TaskReadySetDecision_new (state : TaskReadySetState) (reason : string)
    (blocking_task_ids : list string) : TaskReadySetDecision :=
  MkTaskReadySetDecision state [reason] (dedup (sort_strings blocking_task_ids)).

Definition typed_unknown (reason : string) : TaskReadySetDecision :=
  TaskReadySetDecision_new TypedUnknown reason [].

Record TaskLeaseReadinessEvidence := MkTaskLeaseReadinessEvidence {
  le_task_id : string;
  le_lease_id : string;
  le_lease_active : bool;
  le_terminal : bool;
}.

Record TaskReadySetEvidence := MkTaskReadySetEvidence {
  ev_evaluated_at_ms : Z;
  ev_parent_session_can_transition_to_running : bool;
  ev_authority_mission_revision_sha256 : string;
  ev_execution_terminal_task_ids : gset string;
  ev_available_exact_input_sha256s : option (gset string);
  ev_semantic_dispatch_identity_valid : bool;
  ev_candidate_scope_identity_valid : bool;
  ev_parallel_runtime_limit_supported : bool;
  ev_task_leases : list TaskLeaseReadinessEvidence;
  ev_lease_unknown_task_ids : gset string;
  ev_scope_evaluated_task_ids : gset string;
  ev_scope_conflicting_task_ids : gset string;
  ev_scope_unknown_task_ids : gset string;
  ev_active_runtime_workers : Z;
  ev_requested_lease_id : option string;
  ev_claimed_task_id : option string;
}.

Section ReadySet.
Context `{Chrono}.
Implicit Types (task_plan : TaskPlan) (task : TaskStep) (evidence : TaskReadySetEvidence).

(** [detailed_tasks.iter().find(|t| t.task_id == id)]. *)
Definition find_task task_plan (task_id : string) : option TaskStep :=
  find (λ task, bool_decide (ts_task_id task = task_id)) (tp_detailed_tasks task_plan).

(** The exact inputs the contract names are the available ones. *)
Definition exact_inputs_reason evidence (contract : TaskSchedulingContractV1)
    : option string :=
  match ev_available_exact_input_sha256s evidence with
  | Some available =>
      if bool_decide (available = list_to_set (sc_exact_input_sha256s contract)) then None
      else Some "TASK_READY_SET_EXACT_INPUT_IDENTITY_MISSING"
  | None =>
      match sc_exact_input_sha256s contract with
      | [] => None
      | _ => Some "TASK_READY_SET_EXACT_INPUT_AVAILABILITY_UNKNOWN"
      end
  end.

Definition execution_eligible task (task_id : string) evidence : bool :=
  let claimed_by_this_admission :=
    bool_decide (ts_status task = Doing)
    && bool_decide (ev_claimed_task_id evidence = Some task_id) in
  let direct_dispatch_eligible :=
    bool_decide (ts_start_condition task = UserAction)
    && bool_decide (is_Some (ev_requested_lease_id evidence))
    && todo_or_question (ts_status task) in
  claimed_by_this_admission || direct_dispatch_eligible
  || match ts_start_condition task with
     | ScheduledTask | PollingTask =>
         todo_or_question (ts_status task)
         && (timestamp_millis (ts_start_at task) <=? ev_evaluated_at_ms evidence)
     | SessionIdle => todo_or_question (ts_status task)
     | UserAction => false
     end.

Definition ineligible_reason task evidence : string :=
  match ts_status task, ts_start_condition task with
  | (Done | Archived), _ => "TASK_READY_SET_TASK_TERMINAL"
  | WaitingUser, _ => "TASK_READY_SET_WAITING_USER"
  | Doing, _ => "TASK_READY_SET_TASK_ALREADY_RUNNING"
  | _, UserAction => "TASK_READY_SET_USER_ACTION_REQUIRED"
  | _, (ScheduledTask | PollingTask) =>
      if ev_evaluated_at_ms evidence <? timestamp_millis (ts_start_at task)
      then "TASK_READY_SET_NOT_DUE" else "TASK_READY_SET_TASK_STATE_BLOCKED"
  | _, _ => "TASK_READY_SET_TASK_STATE_BLOCKED"
  end.

(** A dependency is terminal in the plan or by execution evidence. *)
Definition dependency_terminal evidence (dependency : TaskStep) (dependency_id : string) : bool :=
  match ts_status dependency with Done | Archived => true | _ => false end
  || bool_decide (dependency_id ∈ ev_execution_terminal_task_ids evidence).

(** The loop over dependencies: the first one that is missing or unfinished. *)
Fixpoint dependency_block task_plan evidence (dependency_ids : list string)
    : option TaskReadySetDecision :=
  match dependency_ids with
  | [] => None
  | dependency_id :: rest =>
      match find_task task_plan dependency_id with
      | None => Some (TaskReadySetDecision_new TypedUnknown
                        "TASK_READY_SET_DEPENDENCY_NOT_FOUND" [dependency_id])
      | Some dependency =>
          if dependency_terminal evidence dependency dependency_id
          then dependency_block task_plan evidence rest
          else Some (TaskReadySetDecision_new BlockedDependency
                       "TASK_READY_SET_DEPENDENCY_NOT_TERMINAL" [dependency_id])
      end
  end.

Definition lease_live (lease : TaskLeaseReadinessEvidence) : bool :=
  le_lease_active lease && negb (le_terminal lease).

(** The loop over the other tasks' live leases. *)
Fixpoint scope_block evidence (task_id : string) (leases : list TaskLeaseReadinessEvidence)
    : option TaskReadySetDecision :=
  match leases with
  | [] => None
  | lease :: rest =>
      if negb (bool_decide (le_task_id lease = task_id)) && lease_live lease then
        if bool_decide (le_task_id lease ∈ ev_scope_unknown_task_ids evidence)
           || negb (bool_decide (le_task_id lease ∈ ev_scope_evaluated_task_ids evidence))
        then Some (TaskReadySetDecision_new TypedUnknown
                     "TASK_READY_SET_ACTIVE_SCOPE_UNKNOWN" [le_task_id lease])
        else if bool_decide (le_task_id lease ∈ ev_scope_conflicting_task_ids evidence)
        then Some (TaskReadySetDecision_new BlockedScope
                     "TASK_READY_SET_SCOPE_CONFLICT" [le_task_id lease])
        else scope_block evidence task_id rest
      else scope_block evidence task_id rest
  end.

(** A live lease on the task itself that is not the one requested. *)
Definition conflicting_lease evidence (task_id : string)
    : option TaskLeaseReadinessEvidence :=
  find (λ lease, bool_decide (le_task_id lease = task_id) && lease_live lease
                 && negb (bool_decide (ev_requested_lease_id evidence = Some (le_lease_id lease))))
    (ev_task_leases evidence).

(** Leases and capacity, once the dependencies are settled. *)
Definition classify_leases task_id evidence (contract : TaskSchedulingContractV1)
    : TaskReadySetDecision :=
  if bool_decide (task_id ∈ ev_lease_unknown_task_ids evidence)
  then TaskReadySetDecision_new TypedUnknown "TASK_READY_SET_LEASE_EVIDENCE_UNKNOWN" [task_id]
  else
  match find (λ unknown, negb (bool_decide (unknown = task_id)))
          (btree_iter (ev_lease_unknown_task_ids evidence)) with
  | Some unknown =>
      TaskReadySetDecision_new TypedUnknown "TASK_READY_SET_ACTIVE_LEASE_SET_UNKNOWN" [unknown]
  | None =>
  match conflicting_lease evidence task_id with
  | Some active =>
      TaskReadySetDecision_new BlockedLease "TASK_READY_SET_LEASE_CONFLICT" [le_task_id active]
  | None =>
  if sc_maximum_parallel_runtime_workers contract <=? ev_active_runtime_workers evidence
  then TaskReadySetDecision_new BlockedCapacity "TASK_READY_SET_CAPACITY_EXHAUSTED" []
  else
  match scope_block evidence task_id (ev_task_leases evidence) with
  | Some decision => decision
  | None => TaskReadySetDecision_new Ready "TASK_READY_SET_READY" []
  end end end.

Definition classify_task_ready_set task_plan (task_id : string) evidence
    : TaskReadySetDecision :=
  if negb (scheduling_identities_valid task_plan)
  then TaskReadySetDecision_new TypedUnknown "TASK_READY_SET_TASK_IDENTITIES_INVALID" [] else
  match find_task task_plan task_id with
  | None => TaskReadySetDecision_new TypedUnknown "TASK_READY_SET_TASK_NOT_FOUND" []
  | Some task =>
  match ts_scheduling_contract task with
  | None =>
      TaskReadySetDecision_new TypedUnknown "TASK_READY_SET_SCHEDULING_CONTRACT_MISSING" []
  | Some contract =>
  match Contract.validate contract task_id with
  | Err reason => TaskReadySetDecision_new TypedUnknown reason []
  | _ =>
  if negb (bool_decide (sc_authority_mission_revision_sha256 contract
                        = ev_authority_mission_revision_sha256 evidence))
  then TaskReadySetDecision_new TypedUnknown "TASK_READY_SET_AUTHORITY_REVISION_MISMATCH" []
  else if negb (ev_semantic_dispatch_identity_valid evidence)
  then TaskReadySetDecision_new TypedUnknown
         "TASK_READY_SET_SEMANTIC_DISPATCH_IDENTITY_MISMATCH" []
  else if negb (ev_candidate_scope_identity_valid evidence)
  then TaskReadySetDecision_new TypedUnknown "TASK_READY_SET_SCOPE_IDENTITY_INVALID" []
  else if negb (ev_parallel_runtime_limit_supported evidence)
  then TaskReadySetDecision_new TypedUnknown
         "TASK_READY_SET_PARALLEL_RUNTIME_LIMIT_UNSUPPORTED" []
  else if negb (ev_parent_session_can_transition_to_running evidence)
  then TaskReadySetDecision_new BlockedState "TASK_READY_SET_PARENT_SESSION_TERMINAL" []
  else
  match exact_inputs_reason evidence contract with
  | Some reason => TaskReadySetDecision_new TypedUnknown reason []
  | None =>
  if negb (execution_eligible task task_id evidence)
  then TaskReadySetDecision_new BlockedState (ineligible_reason task evidence) []
  else
  match dependency_block task_plan evidence (sc_dependency_task_ids contract) with
  | Some decision => decision
  | None => classify_leases task_id evidence contract
  end end end end end.
End ReadySet.
