(* ===== verification/TaskScheduleFacts.v ===== *)
(** * Correctness of scheduling: what "ready" means, and polling *)

From stdpp Require Import base list strings gmap sorting.
From Stdlib Require Import ZArith Lia Ascii.
From S2P Require Import Prelude RustStd Externals Instances TaskData TaskSchedule.
Open Scope Z_scope.

(** ** Task identities *)

Section Identities.
Context `{Chrono}.
Implicit Types (plan : TaskPlan) (task : TaskStep).

Lemma identities_valid_spec s tasks :
  identities_valid s tasks = true ↔
  NoDup (ts_task_id <$> tasks) ∧
  Forall (λ t, is_blank (ts_task_id t) = false ∧ trim (ts_task_id t) = ts_task_id t ∧
               ts_task_id t ∉ s) tasks.
Proof.
  revert s. induction tasks as [|t tasks IH]; intros s; simpl.
  - split; [|done]. intros _. split; constructor.
  - rewrite !andb_true_iff, !negb_true_iff, bool_decide_eq_true, bool_decide_eq_false, IH.
    rewrite NoDup_cons, Forall_cons. split.
    + intros [[[? ?] ?] [Hnd Hall]]. split_and!; try done.
      * intros (t' & Ht' & Hin)%list_elem_of_fmap.
        eapply Forall_forall in Hall as (_ & _ & Hn); [|exact Hin].
        rewrite Ht' in Hn. clear -Hn. set_solver.
      * eapply Forall_impl; [exact Hall|]. simpl. intros t' (? & ? & Hn).
        split_and!; [done..|]. clear -Hn. set_solver.
    + intros [[Hni Hnd] [(? & ? & ?) Hall]]. split_and!; try done.
      apply Forall_forall. intros t' Hin.
      pose proof (proj1 (Forall_forall _ _) Hall t' Hin) as (? & ? & ?). split_and!; try done.
      rewrite elem_of_union, elem_of_singleton. intros [He|?]; [|done].
      apply Hni. rewrite <- He. by apply list_elem_of_fmap_2.
Qed.

Lemma find_task_Some plan id task :
  find_task plan id = Some task → task ∈ tp_detailed_tasks plan ∧ ts_task_id task = id.
Proof. unfold find_task. intros [? ?]%find_Some. guards. done. Qed.

(** In a plan with valid identities a task is found by its identity. *)
Lemma find_task_iff plan id task :
  scheduling_identities_valid plan = true →
  find_task plan id = Some task ↔ task ∈ tp_detailed_tasks plan ∧ ts_task_id task = id.
Proof.
  intros [Hnd _]%identities_valid_spec. split; [apply find_task_Some|].
  intros [Hin Hid]. destruct (find_task plan id) as [t|] eqn:Hf.
  - apply find_task_Some in Hf as [Hin' Hid']. f_equal.
    apply list_elem_of_lookup in Hin as [i Hi], Hin' as [j Hj].
    assert (i = j) as ->; [|congruence].
    apply (NoDup_lookup (ts_task_id <$> tp_detailed_tasks plan) i j id); [done|..];
      rewrite list_lookup_fmap, ?Hi, ?Hj; simpl; congruence.
  - unfold find_task in Hf. rewrite find_None in Hf. specialize (Hf task Hin).
    apply bool_decide_eq_false in Hf. done.
Qed.
End Identities.

(** ** The ready set, as a specification *)

Section ReadySpec.
Context `{Chrono}.
Implicit Types (plan : TaskPlan) (task : TaskStep) (ev : TaskReadySetEvidence).

(** Every dependency of the contract is a task of the plan that is finished,
    in the plan or by execution evidence. *)
Definition dependencies_settled plan ev (contract : TaskSchedulingContractV1) : Prop :=
  ∀ d, d ∈ sc_dependency_task_ids contract →
    ∃ t, t ∈ tp_detailed_tasks plan ∧ ts_task_id t = d ∧
         (ts_status t = Done ∨ ts_status t = Archived ∨
          d ∈ ev_execution_terminal_task_ids ev).

(** Nobody else holds the task: no lease evidence is missing, and a live lease
    on the task is the requested one. *)
Definition lease_free ev (task_id : string) : Prop :=
  ev_lease_unknown_task_ids ev = ∅ ∧
  ∀ l, l ∈ ev_task_leases ev → le_task_id l = task_id → lease_live l = true →
    ev_requested_lease_id ev = Some (le_lease_id l).

(** The scopes of all other live leases are known and do not conflict. *)
Definition scopes_disjoint ev (task_id : string) : Prop :=
  ∀ l, l ∈ ev_task_leases ev → le_task_id l ≠ task_id → lease_live l = true →
    (le_task_id l ∉ ev_scope_unknown_task_ids ev) ∧
    le_task_id l ∈ ev_scope_evaluated_task_ids ev ∧
    le_task_id l ∉ ev_scope_conflicting_task_ids ev.

Record ready_spec plan (task_id : string) ev : Prop := {
  ready_identities : scheduling_identities_valid plan = true;
  ready_task : ∃ task contract,
    task ∈ tp_detailed_tasks plan ∧ ts_task_id task = task_id ∧
    ts_scheduling_contract task = Some contract ∧
    Contract.validate contract task_id = Ok tt ∧
    sc_authority_mission_revision_sha256 contract = ev_authority_mission_revision_sha256 ev ∧
    exact_inputs_reason ev contract = None ∧
    execution_eligible task task_id ev = true ∧
    dependencies_settled plan ev contract ∧
    ev_active_runtime_workers ev < sc_maximum_parallel_runtime_workers contract;
  ready_evidence :
    ev_semantic_dispatch_identity_valid ev = true ∧
    ev_candidate_scope_identity_valid ev = true ∧
    ev_parallel_runtime_limit_supported ev = true ∧
    ev_parent_session_can_transition_to_running ev = true;
  ready_lease : lease_free ev task_id;
  ready_scopes : scopes_disjoint ev task_id;
}.

Lemma dependency_terminal_iff ev t d :
  dependency_terminal ev t d = true ↔
  ts_status t = Done ∨ ts_status t = Archived ∨ d ∈ ev_execution_terminal_task_ids ev.
Proof.
  unfold dependency_terminal. rewrite orb_true_iff, bool_decide_eq_true.
  destruct (ts_status t); intuition congruence.
Qed.

Lemma dependency_block_None plan ev contract :
  scheduling_identities_valid plan = true →
  dependency_block plan ev (sc_dependency_task_ids contract) = None ↔
  dependencies_settled plan ev contract.
Proof.
  intros Hids. unfold dependencies_settled.
  induction (sc_dependency_task_ids contract) as [|d ds IH]; simpl.
  - split; [|done]. intros _ d Hd. by apply not_elem_of_nil in Hd.
  - destruct (find_task plan d) as [t|] eqn:Hf.
    + apply find_task_Some in Hf as [Hin Hid].
      destruct (dependency_terminal ev t d) eqn:Ht.
      * rewrite IH. apply dependency_terminal_iff in Ht. split.
        -- intros Hds d' [->|Hd']%elem_of_cons; [by exists t|auto].
        -- intros Hds d' Hd'. apply Hds. by constructor.
      * split; [done|]. intros Hds.
        destruct (Hds d ltac:(constructor)) as (t' & Hin' & Hid' & Ht').
        apply dependency_terminal_iff in Ht'.
        assert (t' = t) as ->; [|congruence].
        assert (H1 : find_task plan d = Some t') by (by apply find_task_iff).
        assert (H2 : find_task plan d = Some t) by (by apply find_task_iff). congruence.
    + split; [done|]. intros Hds.
      destruct (Hds d ltac:(constructor)) as (t' & Hin' & Hid' & _).
      assert (H1 : find_task plan d = Some t') by (by apply find_task_iff). congruence.
Qed.

Lemma dependency_block_state plan ev ds decision :
  dependency_block plan ev ds = Some decision →
  ∃ d, d ∈ ds ∧ rd_blocking_task_ids decision = [d] ∧
    ((rd_state decision = TypedUnknown ∧ find_task plan d = None) ∨
     (rd_state decision = BlockedDependency ∧
      ∃ t, find_task plan d = Some t ∧ dependency_terminal ev t d = false)).
Proof.
  induction ds as [|d ds IH]; simpl; [done|].
  destruct (find_task plan d) as [t|] eqn:Hf.
  - destruct (dependency_terminal ev t d) eqn:Ht.
    + intros (d' & Hd' & ?)%IH. exists d'. split; [by constructor|done].
    + intros [= <-]. exists d. split; [constructor|]. split; [done|]. right. eauto.
  - intros [= <-]. exists d. split; [constructor|]. split; [done|]. by left.
Qed.

Lemma scope_block_None ev id leases :
  scope_block ev id leases = None ↔
  ∀ l, l ∈ leases → le_task_id l ≠ id → lease_live l = true →
    (le_task_id l ∉ ev_scope_unknown_task_ids ev) ∧
    le_task_id l ∈ ev_scope_evaluated_task_ids ev ∧
    le_task_id l ∉ ev_scope_conflicting_task_ids ev.
Proof.
  induction leases as [|l leases IH]; simpl.
  - split; [|done]. intros _ l Hl. by apply not_elem_of_nil in Hl.
  - setoid_rewrite elem_of_cons.
    destruct (decide (le_task_id l = id)) as [He|He].
    { rewrite bool_decide_eq_true_2 by done. simpl. rewrite IH. split; [|by eauto].
      intros Hl l' [->|?]; [done|by auto]. }
    rewrite bool_decide_eq_false_2 by done. simpl.
    destruct (lease_live l) eqn:Hlive.
    2:{ rewrite IH. split; [|by eauto]. intros Hl l' [->|?]; [congruence|by auto]. }
    repeat case_bool_decide; simpl; rewrite ?IH; split; try done;
      try (intros Hl; destruct (Hl l) as (? & ? & ?); [by auto..|]; done).
    + intros Hl l' [->|?]; [done|by auto].
    + eauto.
Qed.

Lemma scope_block_state ev id leases decision :
  scope_block ev id leases = Some decision → rd_state decision ≠ Ready.
Proof.
  induction leases as [|l leases IH]; simpl; [done|].
  repeat case_match; try done; by intros [= <-].
Qed.

Lemma conflicting_lease_None ev id :
  conflicting_lease ev id = None ↔
  ∀ l, l ∈ ev_task_leases ev → le_task_id l = id → lease_live l = true →
    ev_requested_lease_id ev = Some (le_lease_id l).
Proof.
  unfold conflicting_lease. rewrite find_None. split; intros Hl l Hin.
  - intros Hid Hlive. specialize (Hl l Hin). rewrite Hlive in Hl.
    rewrite bool_decide_eq_true_2 in Hl by done. simpl in Hl. by guards.
  - destruct (bool_decide (le_task_id l = id)) eqn:Hid; [|done].
    destruct (lease_live l) eqn:Hlive; [|done]. guards. simpl.
    rewrite bool_decide_eq_true_2; [done|]. by apply Hl.
Qed.

Lemma lease_unknown_None ev id :
  ((id ∉ ev_lease_unknown_task_ids ev) ∧
   find (λ u, negb (bool_decide (u = id))) (btree_iter (ev_lease_unknown_task_ids ev)) = None)
  ↔ ev_lease_unknown_task_ids ev = ∅.
Proof.
  rewrite find_None. split.
  - intros [Hid Hall]. apply set_eq. intros u. split; [|set_solver]. intros Hu.
    specialize (Hall u). rewrite elem_of_btree_iter in Hall. specialize (Hall Hu).
    guards. congruence.
  - intros ->. split; [set_solver|]. intros u Hu%elem_of_btree_iter. set_solver.
Qed.

Lemma classify_leases_Ready ev id contract :
  rd_state (classify_leases id ev contract) = Ready ↔
  lease_free ev id ∧ scopes_disjoint ev id ∧
  ev_active_runtime_workers ev < sc_maximum_parallel_runtime_workers contract.
Proof.
  unfold classify_leases, lease_free, scopes_disjoint.
  rewrite <- (lease_unknown_None ev id), <- conflicting_lease_None, <- scope_block_None.
  case_bool_decide; simpl; [split; [done|tauto]|].
  destruct (find _ _); simpl; [split; [done|intuition congruence]|].
  destruct (conflicting_lease ev id); simpl; [split; [done|intuition congruence]|].
  destruct (Z.leb_spec (sc_maximum_parallel_runtime_workers contract)
              (ev_active_runtime_workers ev)); simpl; [split; [done|lia]|].
  destruct (scope_block ev id (ev_task_leases ev)) eqn:Hs; simpl; [|intuition].
  apply scope_block_state in Hs. split; [done|intuition congruence].
Qed.

Lemma validate_cases contract id :
  Contract.validate contract id = Ok tt ∨ ∃ e, Contract.validate contract id = Err e.
Proof.
  assert (Hs : settles (Contract.validate contract id)).
  { repeat (apply settles_bind; [apply settles_reject_if|intros _]).
    apply settles_reject_if. }
  destruct Hs as [[[] ?]|?]; auto.
Qed.

(** C34: Soundness and completeness of the ready set.  A task is classified
    [Ready] exactly when: the plan's identities are valid, the task exists
    under a valid contract of the current mission revision, the evidence flags
    hold, its exact inputs are the available ones, its status and start
    condition allow execution now, every dependency is finished, no lease
    evidence is missing, no other lease holds the task, the parallel limit is
    not reached, and every other live lease has a known, non-conflicting
    scope. *)
Theorem classify_ready_iff plan task_id ev :
  rd_state (classify_task_ready_set plan task_id ev) = Ready ↔ ready_spec plan task_id ev.
Proof.
  unfold classify_task_ready_set. split.
  - destruct (scheduling_identities_valid plan) eqn:Hids; simpl; [|done].
    destruct (find_task plan task_id) as [task|] eqn:Hf; simpl; [|done].
    destruct (ts_scheduling_contract task) as [contract|] eqn:Hc; simpl; [|done].
    destruct (validate_cases contract task_id) as [Hv|[e Hv]]; rewrite Hv; [|done].
    case_bool_decide; simpl; [|done].
    destruct (ev_semantic_dispatch_identity_valid ev) eqn:?; simpl; [|done].
    destruct (ev_candidate_scope_identity_valid ev) eqn:?; simpl; [|done].
    destruct (ev_parallel_runtime_limit_supported ev) eqn:?; simpl; [|done].
    destruct (ev_parent_session_can_transition_to_running ev) eqn:?; simpl; [|done].
    destruct (exact_inputs_reason ev contract) eqn:Hi; simpl; [done|].
    destruct (execution_eligible task task_id ev) eqn:He; simpl; [|done].
    destruct (dependency_block plan ev _) as [d|] eqn:Hd.
    { apply dependency_block_state in Hd as (? & _ & _ & [[-> _]|[-> _]]); done. }
    rewrite classify_leases_Ready. intros (? & ? & ?).
    apply dependency_block_None in Hd; [|done].
    apply find_task_Some in Hf as [? ?]. split; [done|..|done|done|done].
    exists task, contract. done.
  - intros [Hids (task & contract & Hin & Hid & Hc & Hv & Ha & Hi & He & Hd & Hcap)
            (H1 & H2 & H3 & H4) Hl Hs].
    assert (Hf : find_task plan task_id = Some task) by (by apply find_task_iff).
    rewrite Hids, Hf, Hc, Hv, bool_decide_eq_true_2, H1, H2, H3, H4, Hi, He by done. simpl.
    rewrite (proj2 (dependency_block_None _ _ _ Hids) Hd).
    by apply classify_leases_Ready.
Qed.
End ReadySpec.

(** ** Polling *)

Section Polling.
Context `{ChronoLaws}.
Implicit Types (now next : DateTime) (step : TimeDelta).

Lemma poll_seconds_range p :
  1 ≤ poll_seconds p ∧
  (in_u64 (pi_m p) → in_u64 (pi_d p) → in_u64 (pi_h p) → in_u64 (pi_s p) →
   poll_seconds p ≤ u64_max).
Proof.
  unfold poll_seconds. split; [lia|].
  intros. apply Z.max_lub; [unfold u64_max; lia|]. unfold u64_saturating_add. lia.
Qed.

(** What the loop computes with enough fuel: it stops at the first multiple of
    the step after [now], or panics on an unrepresentable date on the way. *)
Lemma poll_loop_spec {E} fuel now next step :
  0 < td_nanos step →
  dt_nanos now - dt_nanos next < Z.of_nat fuel * td_nanos step →
  match poll_loop (E:=E) (S fuel) now next step with
  | Ok next' =>
      ∃ k, 0 ≤ k ∧ dt_nanos next' = dt_nanos next + k * td_nanos step ∧
           dt_nanos now < dt_nanos next' ∧
           (k = 0 ∨ dt_nanos next' - td_nanos step ≤ dt_nanos now)
  | Panic =>
      ∃ k, 0 ≤ k ∧ dt_nanos next + k * td_nanos step ≤ dt_nanos now ∧
           ∀ t, dt_nanos t ≠ dt_nanos next + (k + 1) * td_nanos step
  | _ => False
  end.
Proof.
  intros Hstep. revert next. induction fuel as [|fuel IH]; intros next Hfuel;
    cbn [poll_loop]; destruct (dt_leb next now) eqn:Hle.
  - apply dt_leb_nanos in Hle. lia.
  - exists 0. assert (dt_nanos now < dt_nanos next); [|lia].
    destruct (Z.lt_ge_cases (dt_nanos now) (dt_nanos next)); [done|].
    rewrite (proj2 (dt_leb_nanos _ _)) in Hle by lia. done.
  - apply dt_leb_nanos in Hle.
    destruct (dt_add next step) as [next2|] eqn:Ha; simpl.
    + apply dt_add_nanos in Ha. specialize (IH next2 ltac:(lia)).
      cbn [poll_loop] in IH.
      destruct (if dt_leb next2 now then _ else _); try done.
      * destruct IH as (k & ? & ? & ? & ?). exists (k + 1). split_and!; lia.
      * destruct IH as (k & ? & ? & Hun). exists (k + 1). split_and!; [lia..|].
        intros t Ht. apply (Hun t). lia.
    + exists 0. split_and!; [lia..|]. intros t Ht.
      assert (Hs : dt_add next step = Some t) by (apply dt_add_nanos; lia). congruence.
  - exists 0. assert (dt_nanos now < dt_nanos next); [|lia].
    destruct (Z.lt_ge_cases (dt_nanos now) (dt_nanos next)); [done|].
    rewrite (proj2 (dt_leb_nanos _ _)) in Hle by lia. done.
Qed.

Lemma poll_fuel_enough now next step :
  0 < td_nanos step →
  dt_nanos now - dt_nanos next
  < Z.of_nat (S (Z.to_nat ((dt_nanos now - dt_nanos next) / td_nanos step)))
    * td_nanos step.
Proof.
  intros Hs. set (d := dt_nanos now - dt_nanos next).
  pose proof (Z.div_mod d (td_nanos step) ltac:(lia)).
  pose proof (Z.mod_pos_bound d (td_nanos step) Hs).
  destruct (Z.le_gt_cases 0 d).
  - assert (0 ≤ d / td_nanos step) by (apply Z.div_pos; lia). nia.
  - nia.
Qed.

Lemma duration_seconds_poll p step :
  duration_seconds (Z.min (poll_seconds p) i64_max) = Some step →
  poll_seconds p ≤ i64_max / 1000 ∧ td_nanos step = poll_seconds p * 10 ^ 9.
Proof.
  intros Hd. apply duration_seconds_some in Hd as Hn.
  assert (is_Some (duration_seconds (Z.min (poll_seconds p) i64_max))) as Ht
    by (rewrite Hd; eauto).
  apply duration_seconds_total in Ht. assert (i64_max / 1000 < i64_max) by reflexivity.
  assert (Hmin : Z.min (poll_seconds p) i64_max = poll_seconds p) by lia.
  rewrite Hmin in Hn. split; [lia|done].
Qed.

#[local] Arguments poll_loop : simpl never.

(** The three ways [advance_polling_start] can end. *)
Lemma advance_polling_start_cases {E} (task : TaskStep) now :
  let secs := poll_seconds (ts_poll_interval task) in
  let ns := secs * 10 ^ 9 in
  let start := dt_nanos (ts_start_at task) in
  match advance_polling_start (E:=E) task now with
  | Ok task' =>
      ∃ next k, task' = task.{ts_start_at := next} ∧ 1 ≤ k ∧
        dt_nanos next = start + k * ns ∧ dt_nanos now < dt_nanos next ∧
        (k = 1 ∨ dt_nanos next - ns ≤ dt_nanos now)
  | Panic =>
      i64_max / 1000 < secs ∨
      ∃ k, 0 ≤ k ∧ (k = 0 ∨ start + k * ns ≤ dt_nanos now) ∧
           ∀ t, dt_nanos t ≠ start + (k + 1) * ns
  | _ => False
  end.
Proof.
  intros secs ns start. unfold advance_polling_start. fold secs.
  destruct (poll_seconds_range (ts_poll_interval task)) as [Hlo _]. fold secs in Hlo.
  destruct (duration_seconds _) as [step|] eqn:Hd; simpl.
  2:{ left. destruct (Z.le_gt_cases secs (i64_max / 1000)) as [Hle|]; [|done].
      assert (Hs : is_Some (duration_seconds (Z.min secs i64_max)));
        [|rewrite Hd in Hs; by destruct Hs].
      apply duration_seconds_total. assert (0 < i64_max / 1000 < i64_max) by done. lia. }
  destruct (duration_seconds_poll _ _ Hd) as [_ Hns]. fold secs ns in Hns.
  assert (0 < ns) by (unfold ns; lia).
  destruct (dt_add (ts_start_at task) step) as [next|] eqn:Ha; simpl.
  2:{ right. exists 0. split_and!; [lia|by left|]. intros t Ht.
      assert (Hs : dt_add (ts_start_at task) step = Some t)
        by (apply dt_add_nanos; unfold start in Ht; lia). congruence. }
  apply dt_add_nanos in Ha.
  pose proof (poll_loop_spec (E:=E) _ now next step ltac:(lia)
                (poll_fuel_enough now next step ltac:(lia))) as Hloop.
  fold (poll_fuel now next step) in Hloop.
  destruct (poll_loop _ now next step) as [next'|e| |]; simpl;
    rewrite ?Hns in Hloop; try done.
  - destruct Hloop as (k & ? & ? & ? & ?). exists next', (k + 1).
    unfold start. split_and!; [done|lia..].
  - right. destruct Hloop as (k & ? & ? & Hun). exists (k + 1).
    unfold start. split_and!; [lia|lia|]. intros t Ht. apply (Hun t). lia.
Qed.

(** Every multiple of the step up to the result is a date the loop reached. *)
Lemma poll_loop_passes {E} fuel now next step next' :
  poll_loop (E:=E) fuel now next step = Ok next' →
  ∃ k, 0 ≤ k ∧ dt_nanos next' = dt_nanos next + k * td_nanos step ∧
       ∀ j, 0 ≤ j ≤ k → ∃ t, dt_nanos t = dt_nanos next + j * td_nanos step.
Proof.
  revert next. induction fuel as [|fuel IH]; intros next; unfold poll_loop; fold @poll_loop;
    [done|].
  destruct (dt_leb next now).
  - intros (next2 & Ha & (k & Hk & He & Hj)%IH)%bind_Ok_inv. outcome_inv.
    apply dt_add_nanos in Ha. exists (k + 1). split_and!; [lia|lia|]. intros j Hjk.
    destruct (decide (j = 0)) as [->|]; [exists next; lia|].
    destruct (Hj (j - 1)) as [t Ht]; [lia|]. exists t. lia.
  - intros [= ->]. exists 0. split_and!; [lia|lia|]. intros j Hj. exists next'. assert (j = 0) as -> by lia. lia.
Qed.

Lemma advance_polling_start_passes {E} (task task' : TaskStep) now :
  advance_polling_start (E:=E) task now = Ok task' →
  ∃ k step, duration_seconds (Z.min (poll_seconds (ts_poll_interval task)) i64_max) = Some step ∧
    1 ≤ k ∧ dt_nanos (ts_start_at task') = dt_nanos (ts_start_at task) + k * td_nanos step ∧
    ∀ j, 0 ≤ j ≤ k → ∃ t, dt_nanos t = dt_nanos (ts_start_at task) + j * td_nanos step.
Proof.
  unfold advance_polling_start. intros Hr. outcome_inv. simpl.
  match goal with Ha : dt_add _ ?step = Some _, Hl : poll_loop _ _ _ _ = _ |- _ =>
    apply dt_add_nanos in Ha; apply poll_loop_passes in Hl as (k & Hk & He & Hj);
    exists (k + 1), step end.
  split_and!; [done|lia|lia|]. intros j Hjk.
  destruct (decide (j = 0)) as [->|]; [exists (ts_start_at task); lia|].
  destruct (Hj (j - 1)) as [t Ht]; [lia|]. exists t. lia.
Qed.

(** Running again one interval before the result gives the result again. *)
Lemma advance_polling_start_again {E F} (task task' : TaskStep) now :
  advance_polling_start (E:=E) task now = Ok task' →
  ∃ step prev,
    duration_seconds (Z.min (poll_seconds (ts_poll_interval task)) i64_max) = Some step ∧
    checked_sub_signed (ts_start_at task') step = Some prev ∧
    dt_leb (ts_start_at task) prev = true ∧
    advance_polling_start (E:=F) task prev = Ok task'.
Proof.
  intros Hr. pose proof (advance_polling_start_cases (E:=E) task now) as Hc. rewrite Hr in Hc.
  destruct Hc as (next & _ & -> & _).
  apply advance_polling_start_passes in Hr as (k & step & Hd & Hk & Hn & Hj). simpl in Hn.
  destruct (Hj (k - 1)) as [prev Hprev]; [lia|]. exists step, prev.
  destruct (duration_seconds_poll _ _ Hd) as [Hmax Hns].
  destruct (poll_seconds_range (ts_poll_interval task)) as [Hlo _].
  set (secs := poll_seconds (ts_poll_interval task)) in *.
  split_and!; [done|apply checked_sub_nanos; simpl; lia|apply dt_leb_nanos; nia|].
  pose proof (advance_polling_start_cases (E:=F) task prev) as Hc. fold secs in Hc.
  rewrite Hns in *. destruct (advance_polling_start task prev) as [t|e| |]; try done.
  - destruct Hc as (next2 & k2 & -> & Hk2 & Hn2 & Hlt & Hor). f_equal. f_equal.
    apply dt_nanos_inj. rewrite Hn, Hn2. assert (k2 = k); [|by subst]. nia.
  - exfalso. destruct Hc as [Hc|(k0 & Hk0 & Hor & Hun)]; [lia|].
    destruct (Hj (k0 + 1)) as [t Ht]; [|by apply (Hun t)].
    destruct Hor as [->|Hle]; [lia|]. nia.
Qed.

(** Polling.  [advance_polling_start] always terminates.  When it returns,
    only the start date has changed, and the new start is the least
    [start + k * interval], [k >= 1], that lies after [now].  It panics only
    when the saturated interval has more seconds than [Duration::seconds]
    accepts, or when a multiple of the interval at or before the one it is
    looking for is not a representable date. *)
Theorem polling_least_next_start {E} (task : TaskStep) now :
  let secs := poll_seconds (ts_poll_interval task) in
  let start k := dt_nanos (ts_start_at task) + k * (secs * 10 ^ 9) in
  match advance_polling_start (E:=E) task now with
  | Ok task' =>
      task' = task.{ts_start_at := ts_start_at task'} ∧
      ∃ k, 1 ≤ k ∧ dt_nanos (ts_start_at task') = start k ∧ dt_nanos now < start k ∧
           ∀ j, 1 ≤ j < k → start j ≤ dt_nanos now
  | Panic =>
      i64_max / 1000 < secs ∨
      ∃ k, 1 ≤ k ∧ (∀ t, dt_nanos t ≠ start k) ∧ ∀ j, 1 ≤ j < k → start j ≤ dt_nanos now
  | _ => False
  end.
Proof.
  intros secs start. pose proof (advance_polling_start_cases (E:=E) task now) as Hc.
  fold secs in Hc. destruct (poll_seconds_range (ts_poll_interval task)) as [Hlo _].
  fold secs in Hlo.
  assert (Hmono : ∀ j k, j ≤ k → start j ≤ start k) by (unfold start; intros; nia).
  destruct (advance_polling_start task now) as [task'|e| |]; try done.
  - destruct Hc as (next & k & -> & Hk & Hn & Hlt & Hor). simpl. split; [done|].
    exists k. fold (start k) in Hn. split_and!; [done|done|lia|].
    intros j Hj. destruct Hor as [->|Hle]; [lia|].
    assert (start (k - 1) = start k - secs * 10 ^ 9) by (unfold start; lia).
    specialize (Hmono j (k - 1)). lia.
  - destruct Hc as [Hc|(k & Hk & Hor & Hun)]; [by left|right].
    exists (k + 1). split_and!; [lia|done|]. intros j Hj.
    destruct Hor as [->|Hle]; [lia|]. fold (start k) in Hle. specialize (Hmono j k). lia.
Qed.
End Polling.

(** ** Evaluated examples *)

Module ScheduleExample.
#[local] Existing Instance chrono_ns.

Definition at_s (n : Z) : @DateTime chrono_ns := n * 10 ^ 9.
(** A task polled every 90 seconds from second 10. *)
Definition poller : TaskStep :=
  (TaskStep_default (at_s 10)).{ts_poll_interval := MkPollInterval 1 0 0 30}
    .{ts_start_condition := PollingTask}.

Definition poller_run : outcome string TaskStep := advance_polling_start poller (at_s 200).

Lemma polling_least_next_start_witness :
  is_ok poller_run = true ∧
  ∃ k, 1 ≤ k ∧ ts_start_at (ok_value poller poller_run) = at_s 10 + k * (90 * 10 ^ 9) ∧
       at_s 200 < at_s 10 + k * (90 * 10 ^ 9).
Proof.
  assert (Hok : is_ok poller_run = true) by reflexivity.
  split; [exact Hok|]. apply (is_ok_value poller) in Hok.
  pose proof (polling_least_next_start (E:=string) poller (at_s 200)) as Hp.
  cbv zeta in Hp. unfold poller_run in Hok. rewrite Hok in Hp.
  destruct Hp as [_ (k & Hk & He & Hlt & _)]. exists k. split_and!; [exact Hk|exact He|exact Hlt].
Defined.

Example poller_next_start :
  ts_start_at (ok_value poller poller_run) = at_s 280.
Proof. reflexivity. Qed.

(** The saturating interval arithmetic is followed by [Duration::seconds],
    which panics on what it lets through. *)
Example huge_poll_interval_panics :
  match advance_polling_start (E:=string)
    poller.{ts_poll_interval := MkPollInterval 0 u64_max 0 0} (at_s 200) with
  | Panic => True | _ => False end.
Proof. exact I. Qed.
End ScheduleExample.
