(* ===== verification/TaskIdentity.v ===== *)
(** * Canonical digests: [canonical_value_sha256] and the identities built on it

    A contract, a scope claim and a plan are identified by the SHA-256 of a
    canonical JSON text of a value.  The text is an encoding of the value:
    [canonical_inj] recovers the value from it, so two identities agree only
    for the same value or on a collision of the digest. *)

From stdpp Require Import base list strings gmap sorting.
From Stdlib Require Import ZArith Lia Ascii.
From Stdlib Require String.
From S2P Require Import Prelude RustStd Externals Instances TaskData.
Open Scope Z_scope.

Definition field_le (a b : string * string) : Prop := String.le a.1 b.1.
#[export] Instance field_le_dec : RelDecision field_le.
Proof. intros a b. unfold field_le. apply _. Defined.

Section Canonical.
Context `{SerdeJson}.

(** [keys.sort(); keys.map(|key| ... &values[key])]: the fields of an object in
    key order, each as the text of its key, a colon and its value. *)
Fixpoint canonical (value : Value) : string :=
  match value with
  | Null => "null"
  | VBool b => if b then "true" else "false"
  | VNumber n => number_to_string n
  | VString s => quote s
  | VArray values => "[" +:+ String.concat "," (canonical <$> values) +:+ "]"
  | VObject fields =>
      let texts := (λ f, (f.1, canonical f.2)) <$> fields in
      "{" +:+ String.concat ","
                ((λ f, quote f.1 +:+ ":" +:+ f.2) <$> merge_sort field_le texts) +:+ "}"
  end.

Definition canonical_value_sha256 `{Sha2} (value : Value) : string :=
  sha256_hex (canonical value).
End Canonical.

(** ** Serialised forms *)

Section Identities.
Context `{SerdeJson, Sha2}.

Definition json_u64 (n : Z) : Value := VNumber (number_of_u64 n).
Definition json_opt_string (o : option string) : Value :=
  match o with Some s => VString s | None => Null end.

(** [serde_json::to_value] of the derived [Serialize] implementations. *)
Definition contract_to_value (self : TaskSchedulingContractV1) : Value :=
  json_object
    [("schema_version", VString (sc_schema_version self));
     ("mission_id", VString (sc_mission_id self));
     ("semantic_dispatch_key", VString (sc_semantic_dispatch_key self));
     ("authority_mission_revision_sha256", VString (sc_authority_mission_revision_sha256 self));
     ("delegated_input_sha256", VString (sc_delegated_input_sha256 self));
     ("task_context_capsule_semantic_sha256",
      VString (sc_task_context_capsule_semantic_sha256 self));
     ("dependency_task_ids", json_strings (sc_dependency_task_ids self));
     ("exact_input_sha256s", json_strings (sc_exact_input_sha256s self));
     ("jspace_authorization_semantic_sha256",
      VString (sc_jspace_authorization_semantic_sha256 self));
     ("read_scopes", json_strings (sc_read_scopes self));
     ("write_scopes", json_strings (sc_write_scopes self));
     ("declared_targets", json_strings (sc_declared_targets self));
     ("conflict_identities", json_strings (sc_conflict_identities self));
     ("maximum_parallel_runtime_workers",
      json_u64 (sc_maximum_parallel_runtime_workers self))].

Definition claim_to_value (self : TaskDispatchClaimV1) : Value :=
  json_object
    [("schema_version", VString (dc_schema_version self));
     ("mission_id", VString (dc_mission_id self));
     ("task_id", VString (dc_task_id self));
     ("child_session_id", VString (dc_child_session_id self));
     ("child_runtime_id", VString (dc_child_runtime_id self));
     ("child_lease_id", VString (dc_child_lease_id self));
     ("child_transaction_id", VString (dc_child_transaction_id self));
     ("semantic_dispatch_key", VString (dc_semantic_dispatch_key self));
     ("authority_mission_revision_sha256", VString (dc_authority_mission_revision_sha256 self));
     ("delegated_input_sha256", VString (dc_delegated_input_sha256 self));
     ("task_context_capsule_semantic_sha256",
      VString (dc_task_context_capsule_semantic_sha256 self));
     ("parent_task_plan_sha256", VString (dc_parent_task_plan_sha256 self));
     ("task_scheduling_contract_sha256", VString (dc_task_scheduling_contract_sha256 self));
     ("scope_claim_sha256", VString (dc_scope_claim_sha256 self))].

Definition acknowledgment_to_value (self : AcknowledgedChildCallbackIdentityV1) : Value :=
  json_object
    [("schema_version", VString (ack_schema_version self));
     ("parent_mission_revision_sha256", VString (ack_parent_mission_revision_sha256 self));
     ("commander_thread_id", VString (ack_commander_thread_id self));
     ("child_session_id", VString (ack_child_session_id self));
     ("child_runtime_id", VString (ack_child_runtime_id self));
     ("child_lease_id", VString (ack_child_lease_id self));
     ("child_transaction_id", VString (ack_child_transaction_id self));
     ("event_id", VString (ack_event_id self));
     ("callback_payload_sha256", VString (ack_callback_payload_sha256 self));
     ("effect_identity_sha256", VString (ack_effect_identity_sha256 self))].

Definition poll_interval_to_value (self : PollInterval) : Value :=
  json_object [("m", json_u64 (pi_m self)); ("d", json_u64 (pi_d self));
               ("h", json_u64 (pi_h self)); ("s", json_u64 (pi_s self))].

(** An absent contract or claim is not written. *)
Definition task_to_value `{Chrono} (self : TaskStep) : Value :=
  json_object
    ([("task_id", VString (ts_task_id self));
      ("step", json_u64 (ts_step self));
      ("sub_session_id", VString (ts_sub_session_id self));
      ("start_at", VString (dt_serialize (ts_start_at self)));
      ("poll_interval", poll_interval_to_value (ts_poll_interval self));
      ("start_condition", VString (StartCondition_name (ts_start_condition self)));
      ("status", VString (PlanStatus_name (ts_status self)))]
     ++ match ts_scheduling_contract self with
        | Some contract => [("scheduling_contract", contract_to_value contract)]
        | None => []
        end
     ++ match ts_dispatch_claim self with
        | Some claim => [("dispatch_claim", claim_to_value claim)]
        | None => []
        end
     ++ [("task_summary", VString (ts_task_summary self));
         ("step_task", VString (ts_step_task self));
         ("step_turn", json_u64 (ts_step_turn self));
         ("step_tool", VString (ts_step_tool self));
         ("step_context", VString (ts_step_context self));
         ("step_agent_name", VString (ts_step_agent_name self));
         ("step_deliverable_description", VString (ts_step_deliverable_description self));
         ("step_deliverable_path", VString (ts_step_deliverable_path self))]).

(** ** Identities *)

Definition semantic_dispatch_identity (self : TaskSchedulingContractV1) (task_id : string)
    : Value :=
  json_object
    [("schema_version", VString "tura_task_semantic_dispatch_identity_v1");
     ("contract_schema_version", VString (sc_schema_version self));
     ("mission_id", VString (sc_mission_id self));
     ("authority_mission_revision_sha256", VString (sc_authority_mission_revision_sha256 self));
     ("task_id", VString task_id);
     ("delegated_input_sha256", VString (sc_delegated_input_sha256 self));
     ("task_context_capsule_semantic_sha256",
      VString (sc_task_context_capsule_semantic_sha256 self));
     ("dependency_task_ids", json_strings (sc_dependency_task_ids self));
     ("exact_input_sha256s", json_strings (sc_exact_input_sha256s self));
     ("jspace_authorization_semantic_sha256",
      VString (sc_jspace_authorization_semantic_sha256 self));
     ("read_scopes", json_strings (sc_read_scopes self));
     ("write_scopes", json_strings (sc_write_scopes self));
     ("declared_targets", json_strings (sc_declared_targets self));
     ("conflict_identities", json_strings (sc_conflict_identities self));
     ("maximum_parallel_runtime_workers",
      json_u64 (sc_maximum_parallel_runtime_workers self))].

Definition semantic_dispatch_sha256 (self : TaskSchedulingContractV1) (task_id : string)
    : string :=
  canonical_value_sha256 (semantic_dispatch_identity self task_id).

Definition contract_sha256 (self : TaskSchedulingContractV1) : string :=
  canonical_value_sha256 (contract_to_value self).

Definition scope_claim_value (self : TaskSchedulingContractV1) : Value :=
  json_object
    [("jspace_authorization_semantic_sha256",
      VString (sc_jspace_authorization_semantic_sha256 self));
     ("read_scopes", json_strings (sc_read_scopes self));
     ("write_scopes", json_strings (sc_write_scopes self));
     ("declared_targets", json_strings (sc_declared_targets self));
     ("conflict_identities", json_strings (sc_conflict_identities self))].
Definition scope_claim_sha256 (self : TaskSchedulingContractV1) : string :=
  canonical_value_sha256 (scope_claim_value self).

Definition task_plan_ready_set_value `{Chrono} (task_plan : TaskPlan) : Value :=
  json_object
    [("schema_version", VString "tura_task_plan_ready_set_identity_v1");
     ("plan_summary", VString (tp_plan_summary task_plan));
     ("tasks", VArray (task_to_value <$> tp_detailed_tasks task_plan))].
Definition task_plan_ready_set_sha256 `{Chrono} (task_plan : TaskPlan) : string :=
  canonical_value_sha256 (task_plan_ready_set_value task_plan).

Definition receipt_command_id (self : AcknowledgedChildCallbackIdentityV1)
    (parent_session_id : string) : string :=
  "acknowledged-child-callback:" +:+
    canonical_value_sha256
      (json_object
         [("command", VString "converge_acknowledged_child_callback");
          ("parent_session_id", VString parent_session_id);
          ("acknowledgment", acknowledgment_to_value self)]).
End Identities.

(** ** The canonical text determines the value *)

(** Objects are [BTreeMap]s: their keys ascend strictly. *)
Section WellFormed.
Context `{JsonNumber}.

Definition keys_ascend (fields : list (string * Value)) : bool :=
  windows2_all (λ a b, str_lt a.1 b.1) fields.

Fixpoint value_wf (v : Value) : bool :=
  match v with
  | VArray vs => forallb value_wf vs
  | VObject fields => keys_ascend fields && forallb (λ f, value_wf f.2) fields
  | _ => true
  end.
End WellFormed.

Lemma str_lt_le s t : str_lt s t = true → String.le s t.
Proof.
  unfold str_lt, String.le, String.ltb, String.leb. by destruct (String.compare s t).
Qed.

Lemma str_lt_irrefl s : str_lt s s = false.
Proof.
  unfold str_lt, String.ltb. pose proof (String.compare_antisym s s) as Hc.
  by destruct (String.compare s s).
Qed.

Lemma str_lt_trans s t u : str_lt s t = true → str_lt t u = true → str_lt s u = true.
Proof.
  intros Hst Htu. pose proof (str_lt_le _ _ Hst) as H1. pose proof (str_lt_le _ _ Htu) as H2.
  assert (Hle : String.le s u) by (by etrans).
  unfold str_lt, String.ltb. unfold String.le, String.leb in Hle.
  destruct (String.compare s u) eqn:Hc; [|done|done].
  apply String.compare_eq_iff in Hc as ->.
  assert (t = u) as -> by (by apply (anti_symm String.le)).
  by rewrite str_lt_irrefl in Htu.
Qed.

Lemma str_lt_total s t : s ≠ t → str_lt s t = false → str_lt t s = true.
Proof.
  unfold str_lt, String.ltb. rewrite (String.compare_antisym s t).
  destruct (String.compare t s) eqn:Hc; simpl; try done.
  apply String.compare_eq_iff in Hc. congruence.
Qed.

Section ObjectLemmas.
Context `{JsonNumber}.
Implicit Types fields : list (string * Value).

Lemma keys_ascend_sorted fields :
  keys_ascend fields = true →
  StronglySorted (λ a b, str_lt a.1 b.1 = true) fields.
Proof.
  intros Hk. apply Sorted_StronglySorted.
  { intros x y z. apply str_lt_trans. }
  unfold keys_ascend in Hk.
  induction fields as [|x fields IH]; [constructor|].
  destruct fields as [|y fields]; [repeat constructor|].
  simpl in Hk. guards. constructor; [by apply IH|]. by constructor.
Qed.

Lemma keys_ascend_cons f fields :
  keys_ascend fields = true → Forall (λ g, str_lt f.1 g.1 = true) fields →
  keys_ascend (f :: fields) = true.
Proof.
  unfold keys_ascend. destruct fields as [|g fields]; [done|].
  intros Hk Hf. apply Forall_cons in Hf as [Hg _]. simpl in *. by rewrite Hg, Hk.
Qed.

Lemma map_insert_elem k v fields f :
  f ∈ map_insert k v fields → f = (k, v) ∨ f ∈ fields.
Proof.
  induction fields as [|[k' v'] fields IH]; simpl.
  - rewrite list_elem_of_singleton. auto.
  - repeat case_match; rewrite !elem_of_cons; intuition auto.
Qed.

Lemma map_insert_ascend k v fields :
  keys_ascend fields = true → keys_ascend (map_insert k v fields) = true.
Proof.
  induction fields as [|[k' v'] fields IH]; [done|]. intros Hk.
  apply keys_ascend_sorted in Hk as Hs. inversion Hs as [|? ? Hs' Hlt]; subst.
  assert (Hk' : keys_ascend fields = true).
  { destruct fields; [done|]. unfold keys_ascend in *. simpl in *. by guards. }
  simpl. case_bool_decide as Heq; [subst|].
  - by apply keys_ascend_cons.
  - destruct (str_lt k k') eqn:Hlk.
    + apply keys_ascend_cons; [done|]. constructor; [done|].
      eapply Forall_impl; [exact Hlt|]. simpl. intros g. by apply str_lt_trans.
    + apply keys_ascend_cons; [by apply IH|]. apply Forall_forall.
      intros f [->|Hf]%map_insert_elem; simpl.
      * by apply str_lt_total.
      * by eapply Forall_forall in Hlt.
Qed.

Lemma json_object_wf fields :
  Forall (λ f, value_wf f.2 = true) fields → value_wf (json_object fields) = true.
Proof.
  unfold json_object. intros Hf. simpl.
  enough (Hgen : ∀ acc, keys_ascend acc = true → Forall (λ f, value_wf f.2 = true) acc →
    keys_ascend (foldl (λ m f, map_insert f.1 f.2 m) acc fields) = true ∧
    Forall (λ f, value_wf f.2 = true) (foldl (λ m f, map_insert f.1 f.2 m) acc fields)).
  { destruct (Hgen []) as [-> Hall]; [done..|]. simpl. apply forallb_forall.
    intros f Hin%list_elem_of_In. by eapply Forall_forall in Hall. }
  induction Hf as [|[k v] fields Hv _ IH]; intros acc Hk Hacc; [done|]. simpl.
  apply IH; [by apply map_insert_ascend|].
  apply Forall_forall. intros f [->|Hin]%map_insert_elem; [done|].
  by eapply Forall_forall in Hacc.
Qed.

Lemma json_strings_wf l : value_wf (json_strings l) = true.
Proof. unfold json_strings. simpl. induction l; done. Qed.
End ObjectLemmas.

(** What may follow a value inside a canonical text. *)
Definition delimited (r : string) : Prop :=
  match r with
  | EmptyString => True
  | String c _ => c = ","%char ∨ c = "]"%char ∨ c = "}"%char
  end.

(** The kind of value a text starts, by its first byte. *)
Definition text_kind (c : ascii) : nat :=
  if Ascii.eqb c "n" then 0 else if Ascii.eqb c "t" then 1 else if Ascii.eqb c "f" then 2
  else if Ascii.eqb c (ascii_of_nat 34) then 3 else if Ascii.eqb c "[" then 4
  else if Ascii.eqb c "{" then 5 else if is_number_char c then 6 else 7.
Definition value_kind `{JsonNumber} (v : Value) : nat :=
  match v with
  | Null => 0 | VBool true => 1 | VBool false => 2 | VString _ => 3
  | VArray _ => 4 | VObject _ => 5 | VNumber _ => 6
  end.

Lemma number_char_kind c : is_number_char c = true → text_kind c = 6%nat.
Proof. by destruct c as [[] [] [] [] [] [] [] []]. Qed.

Lemma delimited_not_number c r : delimited (String c r) → is_number_char c = false.
Proof. intros [->|[->| ->]]; done. Qed.

Lemma String_append c s r : String c s +:+ r = String c (s +:+ r).
Proof. done. Qed.

(** A run of number characters ends where a delimiter follows. *)
Lemma number_run_split s t r r' :
  bytes_all is_number_char s = true → bytes_all is_number_char t = true →
  delimited r → delimited r' → s +:+ r = t +:+ r' → s = t ∧ r = r'.
Proof.
  revert t. induction s as [|c s IH]; intros [|d t] Hs Ht Hr Hr'; simpl in Hs, Ht;
    rewrite ?String_append; guards; intros Heq.
  - done.
  - change ("" +:+ r) with r in Heq. subst r.
    apply delimited_not_number in Hr. congruence.
  - change ("" +:+ r') with r' in Heq. subst r'.
    apply delimited_not_number in Hr'. congruence.
  - injection Heq as -> Heq. destruct (IH t) as [-> ->]; done.
Qed.

(** Comma-separated items are split by splitting each item. *)
Lemma concat_cons x l :
  String.concat "," (x :: l)
  = match l with [] => x | _ => x +:+ "," +:+ String.concat "," l end.
Proof. by destruct l. Qed.

Lemma join_split {A} (f : A → string) (P : A → Prop) (close : ascii) l :
  close = "]"%char ∨ close = "}"%char →
  (∀ x, P x → ∃ c s, f x = String c s ∧ c ≠ close) →
  Forall (λ x, P x ∧ ∀ y r r', P y → delimited r → delimited r' →
            f x +:+ r = f y +:+ r' → x = y ∧ r = r') l →
  ∀ k r r', Forall P k →
    String.concat "," (f <$> l) +:+ String close r
    = String.concat "," (f <$> k) +:+ String close r' → l = k ∧ r = r'.
Proof.
  intros Hclose Hhead. induction 1 as [|x l [Px Hx] Hl IH]; intros k r r' Hk.
  - destruct k as [|y k]; [by intros [= ->]|].
    apply Forall_cons in Hk as [Py _]. destruct (Hhead y Py) as (c & s & Hy & Hc).
    rewrite fmap_cons, concat_cons, Hy. simpl. destruct (f <$> k); intros [= -> _]; done.
  - destruct k as [|y k].
    { destruct (Hhead x Px) as (c & s & Hy & Hc).
      rewrite fmap_cons, concat_cons, Hy. simpl. destruct (f <$> l); intros [= -> _]; done. }
    apply Forall_cons in Hk as [Py Hk]. rewrite !fmap_cons, !concat_cons.
    destruct l as [|x' l], k as [|y' k]; simpl; rewrite ?append_assoc; intros Heq.
    all: apply (Hx y) in Heq as [-> Heq]; [|done|by simpl; destruct Hclose; auto..].
    + by injection Heq as ->.
    + injection Heq as Hcl _. by destruct Hclose as [->| ->].
    + injection Heq as Hcl _. by destruct Hclose as [->| ->].
    + rewrite !String_append in Heq. injection Heq as Heq.
      destruct (IH (y' :: k) r r' Hk) as [Hlk ->]; [exact Heq|]. by rewrite Hlk.
Qed.

Section Injective.
Context `{JsonTextLaws}.

Lemma canonical_head v :
  ∃ c r, canonical v = String c r ∧ text_kind c = value_kind v.
Proof.
  destruct v as [|[]|n|s|vs|fs]; simpl; try (by eexists _, _).
  - destruct (number_text n) as (c & r & -> & Hc). exists c, r. split; [done|].
    simpl in Hc. guards. by apply number_char_kind.
  - destruct (quote_head s) as [r ->]. by eexists _, _.
Qed.

Lemma canonical_kind v w r r' :
  canonical v +:+ r = canonical w +:+ r' → value_kind v = value_kind w.
Proof.
  destruct (canonical_head v) as (c & s & -> & <-).
  destruct (canonical_head w) as (d & t & -> & <-).
  by intros [= -> _].
Qed.

(** On the entries of a [BTreeMap] the sort of the keys does nothing. *)
Lemma canonical_object fields :
  keys_ascend fields = true →
  canonical (VObject fields)
  = "{" +:+ String.concat "," ((λ f, quote f.1 +:+ ":" +:+ canonical f.2) <$> fields) +:+ "}".
Proof.
  intros Hk%keys_ascend_sorted. cbn [canonical]. do 3 f_equal.
  rewrite (StronglySorted_unique_strong field_le
             (merge_sort field_le ((λ f, (f.1, canonical f.2)) <$> fields))
             ((λ f, (f.1, canonical f.2)) <$> fields)).
  - by rewrite <- list_fmap_compose.
  - intros a b Ha Hb. rewrite merge_sort_Permutation in Ha.
    apply list_elem_of_fmap in Ha as (f & -> & Hf), Hb as (g & -> & Hg).
    unfold field_le. simpl. intros Hle1 Hle2.
    assert (Hkey : f.1 = g.1) by (by apply (anti_symm String.le)).
    enough (f = g) by congruence.
    clear -Hk Hf Hg Hkey. induction Hk as [|h fields Hk IH Hlt]; [by inversion Hf|].
    rewrite Forall_forall in Hlt.
    apply elem_of_cons in Hf as [->|Hf], Hg as [->|Hg]; auto.
    + specialize (Hlt _ Hg). simpl in Hlt. rewrite Hkey, str_lt_irrefl in Hlt. done.
    + specialize (Hlt _ Hf). simpl in Hlt. rewrite <- Hkey, str_lt_irrefl in Hlt. done.
  - apply StronglySorted_merge_sort.
    + intros a b c. unfold field_le. apply transitivity.
    + intros a b. unfold field_le. apply total, _.
  - induction Hk as [|h fields Hk IH Hlt]; simpl; constructor; [done|].
    apply Forall_fmap. eapply Forall_impl; [exact Hlt|]. intros g. unfold field_le. simpl.
    apply str_lt_le.
  - by rewrite merge_sort_Permutation.
Qed.

(** The canonical text of a value, inside any larger text, gives back the value
    and where it ends. *)
Lemma canonical_split v : ∀ w r r',
  value_wf v = true → value_wf w = true → delimited r → delimited r' →
  canonical v +:+ r = canonical w +:+ r' → v = w ∧ r = r'.
Proof.
  induction v as [|b|n|s|vs IH|fs IH] using Value_nested_ind; intros w r r' Hv Hw Hr Hr' Heq;
    pose proof (canonical_kind _ _ _ _ Heq) as Hkind;
    destruct w as [|b'|m|t|ws|gs]; try discriminate Hkind;
    try (by destruct b); try (by destruct b').
  - by apply (inj (String.append _)) in Heq.
  - assert (b = b') as -> by (by destruct b, b').
    by apply (inj (String.append _)) in Heq.
  - simpl in Heq. destruct (number_text n) as (c & u & Hn & Hcu).
    destruct (number_text m) as (d & u' & Hm & Hdu).
    rewrite Hn, Hm in Heq. apply number_run_split in Heq as [Hnm ->]; [|done..].
    split; [|done]. f_equal. apply number_to_string_inj. congruence.
  - simpl in Heq. by apply quote_split in Heq as [-> ->].
  - simpl in Heq, Hv, Hw. rewrite !append_assoc in Heq.
    apply (inj (String.append _)) in Heq.
    apply (join_split canonical (λ x, value_wf x = true) "]") in Heq as [-> ->]; [done|..].
    + by left.
    + intros x _. destruct (canonical_head x) as (c & u & Hx & Hc).
      exists c, u. split; [done|]. intros ->. by destruct x as [|[]| | | |].
    + rewrite forallb_forall in Hv. rewrite Forall_forall in IH |- *.
      intros x Hx. split; [by apply Hv, list_elem_of_In|]. intros y u u' Hy Hu Hu'.
      apply IH; auto. by apply Hv, list_elem_of_In.
    + rewrite forallb_forall in Hw. apply Forall_forall.
      intros x Hx. by apply Hw, list_elem_of_In.
  - simpl in Hv, Hw. guards. rewrite !canonical_object, !append_assoc in Heq by done.
    apply (inj (String.append _)) in Heq.
    apply (join_split (λ f, quote f.1 +:+ ":" +:+ canonical f.2)
             (λ f, value_wf f.2 = true) "}") in Heq as [-> ->]; [done|..].
    + by right.
    + intros [k x] _. simpl. destruct (quote_head k) as [u ->].
      eexists _, _. split; [reflexivity|done].
    + apply Forall_forall. intros [k x] Hx.
      assert (Hwx : value_wf x = true).
      { match goal with Hf : forallb _ fs = true |- _ =>
          rewrite forallb_forall in Hf;
          exact (Hf (k, x) (proj1 (list_elem_of_In _ _) Hx)) end. }
      split; [done|]. intros [k' y] u u' Hy Hu Hu'. simpl. rewrite !append_assoc.
      intros [<- He]%quote_split. apply (inj (String.append _)) in He.
      rewrite Forall_forall in IH.
      destruct (IH (k, x) Hx y u u') as [Hxy ->]; try done. simpl in Hxy. by subst.
    + apply Forall_forall. intros x Hx.
      match goal with Hf : forallb _ gs = true |- _ =>
        rewrite forallb_forall in Hf; by apply Hf, list_elem_of_In end.
Qed.

Lemma canonical_inj v w :
  value_wf v = true → value_wf w = true → canonical v = canonical w → v = w.
Proof.
  intros Hv Hw Heq. destruct (canonical_split v w "" "") as [-> _]; try done.
  by rewrite !append_empty.
Qed.

(** Equal digests of two values mean equal values, or that the digest collides
    on the two texts hashed. *)
Definition collides `{Sha2} (v w : Value) : Prop :=
  canonical v ≠ canonical w ∧ sha256_hex (canonical v) = sha256_hex (canonical w).

Lemma canonical_value_sha256_inj `{Sha2} v w :
  value_wf v = true → value_wf w = true →
  canonical_value_sha256 v = canonical_value_sha256 w → v = w ∨ collides v w.
Proof.
  unfold canonical_value_sha256. intros Hv Hw Heq.
  destruct (decide (canonical v = canonical w)) as [Hc|Hc].
  - left. by apply canonical_inj.
  - by right.
Qed.
End Injective.

(** ** Identities bind what they are computed from *)

Lemma json_strings_inj `{JsonNumber} l k : json_strings l = json_strings k → l = k.
Proof.
  unfold json_strings. intros [= Heq]. revert k Heq.
  induction l as [|x l IH]; intros [|y k] Heq; simplify_eq/=; [done|].
  f_equal. by apply IH.
Qed.

Lemma some_strings_inj `{JsonNumber} l k :
  Some (json_strings l) = Some (json_strings k) → l = k.
Proof. intros Heq. apply json_strings_inj. congruence. Qed.

Section Binding.
Context `{JsonTextLaws, Sha2}.
Implicit Types (c : TaskSchedulingContractV1).

Lemma contract_to_value_wf c : value_wf (contract_to_value c) = true.
Proof. apply json_object_wf. repeat constructor; simpl; apply json_strings_wf. Qed.

Lemma semantic_dispatch_identity_wf c t : value_wf (semantic_dispatch_identity c t) = true.
Proof. apply json_object_wf. repeat constructor; simpl; apply json_strings_wf. Qed.

Lemma json_u64_inj a b : in_u64 a → in_u64 b → json_u64 a = json_u64 b → a = b.
Proof. unfold json_u64. intros Ha Hb [= Hn]. by apply number_of_u64_inj. Qed.

Lemma some_u64_inj a b :
  in_u64 a → in_u64 b → Some (json_u64 a) = Some (json_u64 b) → a = b.
Proof. intros Ha Hb Heq. apply json_u64_inj; congruence. Qed.

Lemma semantic_dispatch_identity_inj c c' t t' :
  in_u64 (sc_maximum_parallel_runtime_workers c) →
  in_u64 (sc_maximum_parallel_runtime_workers c') →
  semantic_dispatch_identity c t = semantic_dispatch_identity c' t' →
  t = t' ∧ c' = c.{sc_semantic_dispatch_key := sc_semantic_dispatch_key c'}.
Proof.
  intros Hc Hc' Heq.
  assert (Hg : ∀ k, value_get (semantic_dispatch_identity c t) k
                    = value_get (semantic_dispatch_identity c' t') k) by congruence.
  assert (Some (VString t) = Some (VString t')) as [= ->] by exact (Hg "task_id").
  split; [done|]. destruct c, c'. simpl in *. unfold set_field. simpl.
  pose proof (Hg "contract_schema_version") as [= ->].
  pose proof (Hg "mission_id") as [= ->].
  pose proof (Hg "authority_mission_revision_sha256") as [= ->].
  pose proof (Hg "delegated_input_sha256") as [= ->].
  pose proof (Hg "task_context_capsule_semantic_sha256") as [= ->].
  pose proof (Hg "jspace_authorization_semantic_sha256") as [= ->].
  rewrite (some_strings_inj _ _ (Hg "dependency_task_ids")).
  rewrite (some_strings_inj _ _ (Hg "exact_input_sha256s")).
  rewrite (some_strings_inj _ _ (Hg "read_scopes")).
  rewrite (some_strings_inj _ _ (Hg "write_scopes")).
  rewrite (some_strings_inj _ _ (Hg "declared_targets")).
  rewrite (some_strings_inj _ _ (Hg "conflict_identities")).
  by rewrite (some_u64_inj _ _ Hc Hc' (Hg "maximum_parallel_runtime_workers")).
Qed.

Lemma contract_to_value_inj c c' :
  in_u64 (sc_maximum_parallel_runtime_workers c) →
  in_u64 (sc_maximum_parallel_runtime_workers c') →
  contract_to_value c = contract_to_value c' → c = c'.
Proof.
  intros Hc Hc' Heq.
  assert (Hg : ∀ k, value_get (contract_to_value c) k = value_get (contract_to_value c') k)
    by congruence.
  destruct c, c'. simpl in *.
  pose proof (Hg "schema_version") as [= ->].
  pose proof (Hg "mission_id") as [= ->].
  pose proof (Hg "semantic_dispatch_key") as [= ->].
  pose proof (Hg "authority_mission_revision_sha256") as [= ->].
  pose proof (Hg "delegated_input_sha256") as [= ->].
  pose proof (Hg "task_context_capsule_semantic_sha256") as [= ->].
  pose proof (Hg "jspace_authorization_semantic_sha256") as [= ->].
  rewrite (some_strings_inj _ _ (Hg "dependency_task_ids")).
  rewrite (some_strings_inj _ _ (Hg "exact_input_sha256s")).
  rewrite (some_strings_inj _ _ (Hg "read_scopes")).
  rewrite (some_strings_inj _ _ (Hg "write_scopes")).
  rewrite (some_strings_inj _ _ (Hg "declared_targets")).
  rewrite (some_strings_inj _ _ (Hg "conflict_identities")).
  by rewrite (some_u64_inj _ _ Hc Hc' (Hg "maximum_parallel_runtime_workers")).
Qed.

(** The dispatch key binds the whole contract.  Two contracts with the same
    semantic dispatch digest, for tasks [t] and [t'], are for the same task and
    agree in every field except the stored key itself, unless SHA-256
    collides on their two canonical texts. *)
Theorem semantic_dispatch_binds_contract c c' t t' :
  in_u64 (sc_maximum_parallel_runtime_workers c) →
  in_u64 (sc_maximum_parallel_runtime_workers c') →
  semantic_dispatch_sha256 c t = semantic_dispatch_sha256 c' t' →
  (t = t' ∧ c' = c.{sc_semantic_dispatch_key := sc_semantic_dispatch_key c'}) ∨
  collides (semantic_dispatch_identity c t) (semantic_dispatch_identity c' t').
Proof.
  intros Hc Hc' Heq.
  apply canonical_value_sha256_inj in Heq as [Heq|?];
    [|by right|apply semantic_dispatch_identity_wf..].
  left. by apply semantic_dispatch_identity_inj.
Qed.

(** The contract digest identifies the contract: equal [contract_sha256]
    means equal contracts, unless SHA-256 collides on their canonical texts. *)
Theorem contract_digest_identifies c c' :
  in_u64 (sc_maximum_parallel_runtime_workers c) →
  in_u64 (sc_maximum_parallel_runtime_workers c') →
  contract_sha256 c = contract_sha256 c' →
  c = c' ∨ collides (contract_to_value c) (contract_to_value c').
Proof.
  intros Hc Hc' Heq.
  apply canonical_value_sha256_inj in Heq as [Heq|?]; [|by right|apply contract_to_value_wf..].
  left. by apply contract_to_value_inj.
Qed.
End Binding.

(** ** The plan identity *)

Section PlanBinding.
Context `{JsonTextLaws, Sha2, ChronoLaws}.

(** The machine-integer fields of a plan are in range. *)
Definition poll_interval_in_range (p : PollInterval) : Prop :=
  in_u64 (pi_m p) ∧ in_u64 (pi_d p) ∧ in_u64 (pi_h p) ∧ in_u64 (pi_s p).
Definition task_in_range (t : TaskStep) : Prop :=
  in_u64 (ts_step t) ∧ in_u64 (ts_step_turn t) ∧
  poll_interval_in_range (ts_poll_interval t) ∧
  ∀ c, ts_scheduling_contract t = Some c → in_u64 (sc_maximum_parallel_runtime_workers c).

Lemma claim_to_value_inj d d' : claim_to_value d = claim_to_value d' → d = d'.
Proof.
  intros Heq.
  assert (Hg : ∀ k, value_get (claim_to_value d) k = value_get (claim_to_value d') k)
    by congruence.
  destruct d, d'. simpl in *.
  pose proof (Hg "schema_version") as [= ->]. pose proof (Hg "mission_id") as [= ->].
  pose proof (Hg "task_id") as [= ->]. pose proof (Hg "child_session_id") as [= ->].
  pose proof (Hg "child_runtime_id") as [= ->]. pose proof (Hg "child_lease_id") as [= ->].
  pose proof (Hg "child_transaction_id") as [= ->].
  pose proof (Hg "semantic_dispatch_key") as [= ->].
  pose proof (Hg "authority_mission_revision_sha256") as [= ->].
  pose proof (Hg "delegated_input_sha256") as [= ->].
  pose proof (Hg "task_context_capsule_semantic_sha256") as [= ->].
  pose proof (Hg "parent_task_plan_sha256") as [= ->].
  pose proof (Hg "task_scheduling_contract_sha256") as [= ->].
  pose proof (Hg "scope_claim_sha256") as [= ->]. done.
Qed.

Lemma poll_interval_to_value_inj p p' :
  poll_interval_in_range p → poll_interval_in_range p' →
  poll_interval_to_value p = poll_interval_to_value p' → p = p'.
Proof.
  intros (?&?&?&?) (?&?&?&?) Heq.
  assert (Hg : ∀ k, value_get (poll_interval_to_value p) k
                    = value_get (poll_interval_to_value p') k) by congruence.
  destruct p, p'. simpl in *. f_equal.
  - apply some_u64_inj; [done..|]. exact (Hg "m").
  - apply some_u64_inj; [done..|]. exact (Hg "d").
  - apply some_u64_inj; [done..|]. exact (Hg "h").
  - apply some_u64_inj; [done..|]. exact (Hg "s").
Qed.

Lemma PlanStatus_name_inj s s' : PlanStatus_name s = PlanStatus_name s' → s = s'.
Proof. by destruct s, s'. Qed.
Lemma StartCondition_name_inj c c' : StartCondition_name c = StartCondition_name c' → c = c'.
Proof. by destruct c, c'. Qed.

Lemma task_to_value_wf t : value_wf (task_to_value t) = true.
Proof.
  assert (Hp : ∀ p, value_wf (poll_interval_to_value p) = true).
  { intros p. apply json_object_wf. repeat constructor. }
  assert (Hc : ∀ d, value_wf (claim_to_value d) = true).
  { intros d. apply json_object_wf. repeat constructor. }
  apply json_object_wf.
  destruct (ts_scheduling_contract t), (ts_dispatch_claim t);
    repeat (apply Forall_cons_2; [first [done | apply contract_to_value_wf | apply Hp | apply Hc]|]);
    apply Forall_nil_2.
Qed.

(** The keys of a serialised task. *)
Lemma task_to_value_get (t : TaskStep) :
  let g := value_get (task_to_value t) in
  g "task_id" = Some (VString (ts_task_id t)) ∧ g "step" = Some (json_u64 (ts_step t)) ∧
  g "sub_session_id" = Some (VString (ts_sub_session_id t)) ∧
  g "start_at" = Some (VString (dt_serialize (ts_start_at t))) ∧
  g "poll_interval" = Some (poll_interval_to_value (ts_poll_interval t)) ∧
  g "start_condition" = Some (VString (StartCondition_name (ts_start_condition t))) ∧
  g "status" = Some (VString (PlanStatus_name (ts_status t))) ∧
  g "scheduling_contract" = contract_to_value <$> ts_scheduling_contract t ∧
  g "dispatch_claim" = claim_to_value <$> ts_dispatch_claim t ∧
  g "task_summary" = Some (VString (ts_task_summary t)) ∧
  g "step_task" = Some (VString (ts_step_task t)) ∧
  g "step_turn" = Some (json_u64 (ts_step_turn t)) ∧
  g "step_tool" = Some (VString (ts_step_tool t)) ∧
  g "step_context" = Some (VString (ts_step_context t)) ∧
  g "step_agent_name" = Some (VString (ts_step_agent_name t)) ∧
  g "step_deliverable_description" = Some (VString (ts_step_deliverable_description t)) ∧
  g "step_deliverable_path" = Some (VString (ts_step_deliverable_path t)).
Proof.
  unfold task_to_value.
  destruct (ts_scheduling_contract t), (ts_dispatch_claim t); split_and!; reflexivity.
Qed.

Lemma task_to_value_inj t t' :
  task_in_range t → task_in_range t' → task_to_value t = task_to_value t' → t = t'.
Proof.
  intros (Hs&Hu&Hp&Hm) (Hs'&Hu'&Hp'&Hm') Heq.
  pose proof (task_to_value_get t) as Hg. pose proof (task_to_value_get t') as Hg'.
  rewrite <- Heq in Hg'. clear Heq. revert Hg Hg'. generalize (task_to_value t) as v.
  cbv zeta. intros v Hg Hg'. destruct_and!. destruct t, t'. simpl in *.
  repeat match goal with
  | H1 : value_get _ ?k = _, H2 : value_get _ ?k = _ |- _ => rewrite H1 in H2; clear H1
  end.
  repeat match goal with
  | H1 : Some (VString _) = Some (VString _) |- _ => injection H1 as H1
  | H1 : Some (json_u64 _) = Some (json_u64 _) |- _ => apply some_u64_inj in H1; [|done..]
  | H1 : Some (poll_interval_to_value _) = Some _ |- _ => apply (inj Some) in H1
  end.
  f_equal; eauto using dt_serialize_inj, StartCondition_name_inj, PlanStatus_name_inj,
    poll_interval_to_value_inj.
  - match goal with |- ?o = ?o' => destruct o, o' end; try discriminate; [|done].
    f_equal. apply contract_to_value_inj; auto. by apply (inj Some).
  - match goal with |- ?o = ?o' => destruct o, o' end; try discriminate; [|done].
    f_equal. apply claim_to_value_inj. by apply (inj Some).
Qed.

Lemma tasks_to_value_inj l k :
  Forall task_in_range l → Forall task_in_range k →
  task_to_value <$> l = task_to_value <$> k → l = k.
Proof.
  intros Hl. revert k. induction Hl as [|t l Ht _ IH]; intros [|t' k] Hk Heq;
    try done. inversion Hk; subst.
  pose proof (f_equal (List.hd Null) Heq : task_to_value t = task_to_value t') as Hhd.
  pose proof (f_equal (@List.tl Value) Heq) as Htl.
  f_equal; [by apply task_to_value_inj|by apply IH].
Qed.

Lemma plan_digest_inj (p p' : TaskPlan) :
  Forall task_in_range (tp_detailed_tasks p) →
  Forall task_in_range (tp_detailed_tasks p') →
  task_plan_ready_set_sha256 p = task_plan_ready_set_sha256 p' →
  p = p' ∨ collides (task_plan_ready_set_value p) (task_plan_ready_set_value p').
Proof.
  assert (Hwf : ∀ q : TaskPlan, value_wf (task_plan_ready_set_value q) = true).
  { intros q. apply json_object_wf. repeat constructor. simpl. apply forallb_forall.
    intros v (t & <- & _)%in_map_iff. apply task_to_value_wf. }
  intros Hp Hp' Heq.
  apply canonical_value_sha256_inj in Heq as [Heq|?]; [|by right|apply Hwf..]. left.
  assert (Hg : ∀ k, value_get (task_plan_ready_set_value p) k
                    = value_get (task_plan_ready_set_value p') k) by congruence.
  destruct p as [s l], p' as [s' l']. simpl in *.
  pose proof (Hg "plan_summary") as [= ->].
  assert (Htasks : Some (VArray (task_to_value <$> l)) = Some (VArray (task_to_value <$> l')))
    by exact (Hg "tasks").
  f_equal. apply tasks_to_value_inj; [done..|]. congruence.
Qed.

(** The ready-set digest identifies the plan: equal
    [task_plan_ready_set_sha256] means the same summary and the same tasks with
    every field (status, claim, contract, times, ...), unless SHA-256
    collides on their canonical texts. *)
Theorem plan_digest_identifies (p p' : TaskPlan) :
  Forall task_in_range (tp_detailed_tasks p) →
  Forall task_in_range (tp_detailed_tasks p') →
  task_plan_ready_set_sha256 p = task_plan_ready_set_sha256 p' →
  p = p' ∨ collides (task_plan_ready_set_value p) (task_plan_ready_set_value p').
Proof. apply plan_digest_inj. Qed.
End PlanBinding.

(** ** Evaluated examples *)

Module IdentityExample.
#[local] Existing Instance chrono_ns.
#[local] Existing Instance json_z.
#[local] Existing Instance json_text.
#[local] Existing Instance sha_len.

Definition zeros : string :=
  "0000000000000000000000000000000000000000000000000000000000000000".

Definition contract : TaskSchedulingContractV1 :=
  {| sc_schema_version := TASK_SCHEDULING_CONTRACT_SCHEMA_VERSION; sc_mission_id := "m1";
     sc_semantic_dispatch_key := zeros; sc_authority_mission_revision_sha256 := zeros;
     sc_delegated_input_sha256 := zeros; sc_task_context_capsule_semantic_sha256 := zeros;
     sc_dependency_task_ids := ["t0"]; sc_exact_input_sha256s := [];
     sc_jspace_authorization_semantic_sha256 := zeros; sc_read_scopes := ["a"; "b"];
     sc_write_scopes := ["b"]; sc_declared_targets := []; sc_conflict_identities := [];
     sc_maximum_parallel_runtime_workers := 4 |}.

(** The stored key is not part of what the key is computed from. *)
Lemma semantic_dispatch_binds_contract_witness :
  let stale := contract.{sc_semantic_dispatch_key := "stale"} in
  ("t1" = "t1" ∧ contract = stale.{sc_semantic_dispatch_key := zeros}) ∨
  collides (semantic_dispatch_identity stale "t1") (semantic_dispatch_identity contract "t1").
Proof.
  apply (semantic_dispatch_binds_contract _ contract "t1" "t1");
    [split; done|split; done|reflexivity].
Defined.

Lemma contract_digest_identifies_witness :
  contract = contract.{sc_mission_id := "m1"} ∨
  collides (contract_to_value contract) (contract_to_value contract.{sc_mission_id := "m1"}).
Proof.
  apply (contract_digest_identifies contract contract.{sc_mission_id := "m1"});
    [split; done|split; done|reflexivity].
Defined.

Definition plan : TaskPlan :=
  MkTaskPlan "ship" [(TaskStep_default (0 : @DateTime chrono_ns)).{ts_task_id := "t1"}
                       .{ts_scheduling_contract := Some contract}].

Lemma plan_digest_identifies_witness :
  plan = plan.{tp_plan_summary := "ship"} ∨
  collides (task_plan_ready_set_value plan)
    (task_plan_ready_set_value plan.{tp_plan_summary := "ship"}).
Proof.
  assert (Hr : Forall task_in_range (tp_detailed_tasks plan)).
  { apply Forall_singleton. split_and!; try done. intros c Hc.
    injection Hc as <-. done. }
  apply (plan_digest_identifies plan plan.{tp_plan_summary := "ship"}); [exact Hr..|reflexivity].
Defined.

(** A length-parity digest does collide, so the second alternative is not idle. *)
Example contract_collision :
  contract_sha256 contract = contract_sha256 contract.{sc_mission_id := "m2"}.
Proof. vm_compute. reflexivity. Qed.
End IdentityExample.
