(* ===== verification/TaskPatch.v ===== *)
(** * Patches of a task plan, and the session states

    [SessionState] with its transition table, [SessionTransitionError], and the
    four functions that patch a plan ([apply_task_patch], [patch_one_task],
    [patch_task_list], [apply_task_plan_patch]) of [lifecycle/src/session.rs].
    The functions mutate the plan behind a [&mut]; here they return the new
    plan, and the error when they stop early. *)

From stdpp Require Import base list strings gmap.
From Stdlib Require Import ZArith Lia.
From S2P Require Import Prelude RustStd Externals TaskData TaskSchedule.
Open Scope Z_scope.

(** ** Session states *)

Inductive SessionState :=
| Created | Running | Paused | Completed | Failed | Cancelled | Interrupted.
#[export] Instance SessionState_eq_dec : EqDecision SessionState.
Proof. solve_decision. Defined.

Definition can_transition_to (self next : SessionState) : bool :=
  match self, next with
  | Created, (Running | Cancelled) => true
  | Running, (Paused | Completed | Failed | Cancelled | Interrupted) => true
  | Paused, (Running | Cancelled | Failed | Interrupted) => true
  | Completed, (Created | Running) => true
  | (Failed | Cancelled | Interrupted), _ => false
  | _, _ => bool_decide (self = next)
  end.

Definition ui_status (self : SessionState) : string :=
  match self with
  | Created | Completed => "idle"
  | Running | Paused => "busy"
  | Failed | Cancelled | Interrupted => "error"
  end.

Definition is_recoverable_running (self : SessionState) : bool :=
  match self with Running | Paused => true | _ => false end.

Definition is_terminal (self : SessionState) : bool :=
  match self with Completed | Failed | Cancelled | Interrupted => true | _ => false end.

Record SessionTransitionError := MkSessionTransitionError {
  te_previous : SessionState;
  te_next : SessionState;
}.
#[export] Instance SessionTransitionError_eq_dec : EqDecision SessionTransitionError.
Proof. solve_decision. Defined.

Definition task_patch_error : SessionTransitionError :=
  MkSessionTransitionError Created Created.

(** ** Patches *)

(** [value.filter(|value| !value.trim().is_empty())]. *)
Definition non_blank (value : option string) : option string :=
  match value with
  | Some v => if is_blank v then None else Some v
  | None => None
  end.
(** [value.map(str::trim).filter(|value| !value.is_empty())]. *)
Definition trimmed_non_empty (value : option string) : option string :=
  match value with
  | Some v => if is_empty (trim v) then None else Some (trim v)
  | None => None
  end.

Section Patches.
Context `{Chrono}.

Record SessionTaskPatch := MkSessionTaskPatch {
  pt_task_id : option string;
  pt_step : option Z;
  pt_task_summary : option string;
  pt_deliverable : option string;
  pt_sub_session_id : option string;
  pt_start_condition : option StartCondition;
  pt_start_at : option DateTime;
  pt_poll_interval : option PollInterval;
  pt_status : option PlanStatus;
  pt_scheduling_contract : option TaskSchedulingContractV1;
}.
#[global] Instance SessionTaskPatch_eta : Eta SessionTaskPatch := MkEta (λ r,
  MkSessionTaskPatch (pt_task_id r) (pt_step r) (pt_task_summary r) (pt_deliverable r)
    (pt_sub_session_id r) (pt_start_condition r) (pt_start_at r) (pt_poll_interval r)
    (pt_status r) (pt_scheduling_contract r)).
#[global] Instance SessionTaskPatch_eq_dec : EqDecision SessionTaskPatch.
Proof. solve_decision. Defined.
Definition SessionTaskPatch_default : SessionTaskPatch :=
  MkSessionTaskPatch None None None None None None None None None None.

Record SessionTaskPlanPatch := MkSessionTaskPlanPatch {
  pp_plan_summary : option string;
  pp_tasks : option (list SessionTaskPatch);
  pp_task : option SessionTaskPatch;
  pp_generated_task_ids : list string;
  pp_generated_task_id : string;
  pp_now : DateTime;
}.

Definition patch_result := outcome SessionTransitionError.

(** The identity of a claimed task may not change under a patch. *)
Definition claim_blocks_patch (task : TaskStep) (patch : SessionTaskPatch) : bool :=
  match ts_dispatch_claim task with
  | None => false
  | Some claim =>
      let task_identity_changes :=
        match non_blank (pt_task_id patch) with
        | Some task_id => negb (bool_decide (task_id = ts_task_id task))
        | None => false
        end in
      let child_identity_changes :=
        match non_blank (pt_sub_session_id patch) with
        | Some child => negb (bool_decide (child = dc_child_session_id claim))
        | None => false
        end in
      let scheduling_identity_changes :=
        match pt_scheduling_contract patch with
        | Some contract => negb (bool_decide (Some contract = ts_scheduling_contract task))
        | None => false
        end in
      task_identity_changes || child_identity_changes || scheduling_identity_changes
  end.

Definition patch_summary (task : TaskStep) (summary : option string) : TaskStep :=
  match non_blank summary with
  | None => task
  | Some summary =>
      let task := task.{ts_task_summary := summary} in
      if is_blank (ts_step_task task) then task.{ts_step_task := summary} else task
  end.

Definition patch_poll_interval (task : TaskStep) (poll_interval : option PollInterval)
    : TaskStep :=
  match poll_interval with
  | None => task
  | Some poll_interval =>
      let task := task.{ts_poll_interval := poll_interval} in
      if negb (bool_decide (poll_interval = PollInterval_default))
      then task.{ts_start_condition := PollingTask}
      else if bool_decide (ts_start_condition task = PollingTask)
      then task.{ts_start_condition := UserAction}
      else task
  end.

Definition patch_start_at (task : TaskStep) (start_at : option DateTime) : TaskStep :=
  match start_at with
  | None => task
  | Some start_at =>
      let task := task.{ts_start_at := start_at} in
      if bool_decide (ts_start_condition task = PollingTask) then task
      else task.{ts_start_condition := ScheduledTask}
  end.

Definition apply_task_patch (task : TaskStep) (patch : SessionTaskPatch)
    : patch_result TaskStep :=
  _ ← reject_if (claim_blocks_patch task patch) task_patch_error;
  let task := match non_blank (pt_task_id patch) with
              | Some task_id => task.{ts_task_id := task_id} | None => task end in
  let task := match pt_step patch with
              | Some step => task.{ts_step := step} | None => task end in
  let task := patch_summary task (pt_task_summary patch) in
  let task := match non_blank (pt_deliverable patch) with
              | Some d => task.{ts_step_deliverable_description := d} | None => task end in
  let task := match non_blank (pt_sub_session_id patch) with
              | Some child => task.{ts_sub_session_id := child} | None => task end in
  let task := match pt_status patch with
              | Some status => task.{ts_status := status} | None => task end in
  let task := match pt_scheduling_contract patch with
              | Some contract => task.{ts_scheduling_contract := Some contract}
              | None => task end in
  let task := patch_poll_interval task (pt_poll_interval patch) in
  let task := patch_start_at task (pt_start_at patch) in
  mret match pt_start_condition patch with
       | Some c => task.{ts_start_condition := c} | None => task end.

(** [apply_task_patch(&mut task_plan.detailed_tasks[index], patch)?]. *)
Definition patch_index (tasks : list TaskStep) (index : nat) (patch : SessionTaskPatch)
    : patch_result (list TaskStep) :=
  task ← or_panic (tasks !! index);
  task ← apply_task_patch task patch;
  mret (<[index := task]> tasks).

(** A contract can only be set on a task that the patch names. *)
Definition contract_without_id (patch : SessionTaskPatch) : bool :=
  bool_decide (is_Some (pt_scheduling_contract patch))
  && match pt_task_id patch with Some task_id => is_blank task_id | None => true end.

(** [TaskStep { task_id, step: patch.step.unwrap_or(len + 1), start_at: now, .. }]. *)
Definition new_task (task_id : string) (step : option Z) (tasks : list TaskStep)
    (now : DateTime) : TaskStep :=
  (TaskStep_default now).{ts_task_id := task_id}
    .{ts_step := default (Z.of_nat (length tasks) + 1) step}.

Definition task_position (tasks : list TaskStep) (task_id : string) : option nat :=
  position (λ task, bool_decide (ts_task_id task = task_id)) tasks.

(** The task a single patch is for: the tasks, extended if need be, and its index. *)
Definition select_task (task_plan : TaskPlan) (task_id : option string) (step : option Z)
    (generated_task_id : string) (now : DateTime) : list TaskStep * nat :=
  let tasks := tp_detailed_tasks task_plan in
  match task_id with
  | Some id =>
      match task_position tasks id with
      | Some index => (tasks, index)
      | None => (tasks ++ [new_task id step tasks now], length tasks)
      end
  | None =>
      match tasks with
      | [] =>
          let summary := tp_plan_summary task_plan in
          ([(TaskStep_default now).{ts_task_id := generated_task_id}.{ts_step := 1}
              .{ts_task_summary := summary}.{ts_step_task := summary}], 0%nat)
      | _ => (tasks, 0%nat)
      end
  end.

Definition patch_one_task (task_plan : TaskPlan) (patch : SessionTaskPatch)
    (generated_task_id : string) (now : DateTime) : patch_result TaskPlan :=
  _ ← reject_if (contract_without_id patch) task_patch_error;
  let task_id := trimmed_non_empty (pt_task_id patch) in
  _ ← reject_if (bool_decide (task_id = None)
                 && (1 <? Z.of_nat (length (tp_detailed_tasks task_plan)))) task_patch_error;
  let '(tasks, index) := select_task task_plan task_id (pt_step patch) generated_task_id now in
  tasks ← patch_index tasks index patch;
  let task_plan := task_plan.{tp_detailed_tasks := tasks} in
  if is_blank (tp_plan_summary task_plan)
  then task ← or_panic (tasks !! index);
       mret task_plan.{tp_plan_summary := ts_task_summary task}
  else mret task_plan.

(** The loop of [patch_task_list]: the tasks and [requested_order]. *)
Fixpoint patch_loop (tasks : list TaskStep) (requested_order : list string)
    (patches : list (SessionTaskPatch * string)) (now : DateTime)
    : patch_result (list TaskStep * list string) :=
  match patches with
  | [] => mret (tasks, requested_order)
  | (patch, generated_task_id) :: rest =>
      _ ← reject_if (contract_without_id patch) task_patch_error;
      let task_id := default generated_task_id (trimmed_non_empty (pt_task_id patch)) in
      let existing := task_position tasks task_id in
      let requested_order :=
        if bool_decide (is_Some existing) && negb (contains requested_order task_id)
        then requested_order ++ [task_id] else requested_order in
      let '(tasks, index) :=
        match existing with
        | Some index => (tasks, index)
        | None => (tasks ++ [new_task task_id (pt_step patch) tasks now], length tasks)
        end in
      tasks ← patch_index tasks index patch;
      patch_loop tasks requested_order rest now
  end.

Definition order_key (requested_order : list string) (task : TaskStep) : Z :=
  match position (λ task_id, bool_decide (task_id = ts_task_id task)) requested_order with
  | Some index => Z.of_nat index
  | None => u64_max
  end.

(** [for (index, task) in tasks.iter_mut().enumerate() { task.step = index + 1 }]. *)
Definition renumber (tasks : list TaskStep) : list TaskStep :=
  imap (λ index task, task.{ts_step := Z.of_nat index + 1}) tasks.

Definition patch_task_list (task_plan : TaskPlan) (patches : list SessionTaskPatch)
    (generated_task_ids : list string) (now : DateTime) : patch_result TaskPlan :=
  _ ← reject_if (negb (bool_decide (length generated_task_ids = length patches)))
        task_patch_error;
  '(tasks, requested_order) ←
    patch_loop (tp_detailed_tasks task_plan) [] (zip patches generated_task_ids) now;
  mret task_plan.{tp_detailed_tasks :=
                    renumber (sort_by_key (order_key requested_order) tasks)}.

(** The status rule at the end of [apply_task_plan_patch]. *)
Definition settle_status (state : SessionState) (existing_ids doing_ids : list string)
    (task : TaskStep) : TaskStep :=
  if is_recoverable_running state then
    if contains doing_ids (ts_task_id task) && todo_or_question (ts_status task)
    then task.{ts_status := Doing} else task
  else
    if negb (contains existing_ids (ts_task_id task))
       && bool_decide (ts_start_condition task = SessionIdle)
       && todo_or_question (ts_status task)
    then task.{ts_status := WaitingUser} else task.

Definition task_ids (tasks : list TaskStep) : list string := ts_task_id <$> tasks.
Definition doing_task_ids (tasks : list TaskStep) : list string :=
  ts_task_id <$> filter (λ task, ts_status task = Doing) tasks.

Definition apply_task_plan_patch (task_plan : TaskPlan) (state : SessionState)
    (patch : SessionTaskPlanPatch) : patch_result TaskPlan :=
  let existing_ids := task_ids (tp_detailed_tasks task_plan) in
  let doing_ids := doing_task_ids (tp_detailed_tasks task_plan) in
  task_plan ← match pp_tasks patch with
              | Some tasks =>
                  patch_task_list task_plan tasks (pp_generated_task_ids patch) (pp_now patch)
              | None => mret task_plan
              end;
  let task_plan := match trimmed_non_empty (pp_plan_summary patch) with
                   | Some summary => task_plan.{tp_plan_summary := summary}
                   | None => task_plan
                   end in
  task_plan ← match pp_task patch with
              | Some task =>
                  patch_one_task task_plan task (pp_generated_task_id patch) (pp_now patch)
              | None => mret task_plan
              end;
  mret task_plan.{tp_detailed_tasks :=
    settle_status state existing_ids doing_ids <$> tp_detailed_tasks task_plan}.
End Patches.
