(* ===== verification/TaskPatchFacts.v ===== *)
(** * Correctness of plan patches

    Patches keep what a dispatched task is bound to, keep task identities
    canonical and distinct, number the tasks, and never put a running task
    back in the queue. *)

From stdpp Require Import base list strings gmap sorting.
From Stdlib Require Import ZArith Lia.
From S2P Require Import Prelude RustStd Externals Instances TaskData TaskSchedule.
From S2P Require Import TaskScheduleFacts TaskPatch.
Open Scope Z_scope.

Section Bindings.
Context `{Chrono}.
Implicit Types (task : TaskStep) (tasks : list TaskStep) (plan : TaskPlan)
  (patch : SessionTaskPatch).

(** What a dispatched task is bound to: its identity, its claim and the
    contract the claim was made under. *)
Definition binding task : option (string * TaskDispatchClaimV1 * option TaskSchedulingContractV1) :=
  match ts_dispatch_claim task with
  | Some claim => Some (ts_task_id task, claim, ts_scheduling_contract task)
  | None => None
  end.
Definition claimed_bindings tasks := omap binding tasks.

(** The child session of a dispatched task is the one its claim names. *)
Definition child_bound task : Prop :=
  ∀ claim, ts_dispatch_claim task = Some claim →
           ts_sub_session_id task = dc_child_session_id claim.

(** The fields the claims are about, and the steps of [apply_task_patch] that
    leave them alone. *)
Definition core task :=
  (ts_dispatch_claim task, ts_task_id task, ts_sub_session_id task,
   ts_scheduling_contract task, ts_status task).

Lemma patch_summary_core task o : core (patch_summary task o) = core task.
Proof. unfold patch_summary. repeat case_match; done. Qed.
Lemma patch_poll_interval_core task o : core (patch_poll_interval task o) = core task.
Proof. unfold patch_poll_interval. repeat case_match; done. Qed.
Lemma patch_start_at_core task o : core (patch_start_at task o) = core task.
Proof. unfold patch_start_at. repeat case_match; done. Qed.

Lemma start_condition_core task c : core task.{ts_start_condition := c} = core task.
Proof. done. Qed.

(** [apply_task_patch] as its effect on each field the claims are about. *)
Lemma apply_task_patch_Ok task patch task' :
  apply_task_patch task patch = Ok task' →
  claim_blocks_patch task patch = false ∧
  core task' =
    (ts_dispatch_claim task,
     default (ts_task_id task) (non_blank (pt_task_id patch)),
     default (ts_sub_session_id task) (non_blank (pt_sub_session_id patch)),
     match pt_scheduling_contract patch with
     | Some c => Some c | None => ts_scheduling_contract task end,
     default (ts_status task) (pt_status patch)).
Proof.
  unfold apply_task_patch. intros Hp. outcome_inv. split; [done|].
  set (t1 := match non_blank (pt_task_id patch) with Some _ => _ | None => task end).
  assert (H1 : core t1 = (ts_dispatch_claim task,
    default (ts_task_id task) (non_blank (pt_task_id patch)), ts_sub_session_id task,
    ts_scheduling_contract task, ts_status task)) by (unfold t1; by destruct (non_blank _)).
  clearbody t1.
  set (t2 := match pt_step patch with Some _ => _ | None => t1 end).
  assert (H2 : core t2 = core t1) by (unfold t2; by destruct (pt_step patch)).
  rewrite H1 in H2. rewrite <- (patch_summary_core _ (pt_task_summary patch)) in H2.
  revert H2. generalize (patch_summary t2 (pt_task_summary patch)). clear t1 t2 H1.
  intros [] [= -> -> -> -> ->].
  destruct (non_blank (pt_deliverable patch)), (non_blank (pt_sub_session_id patch)),
    (pt_status patch), (pt_scheduling_contract patch), (pt_start_condition patch);
    by rewrite ?start_condition_core, patch_start_at_core, patch_poll_interval_core.
Qed.

Lemma apply_task_patch_binding task patch task' :
  apply_task_patch task patch = Ok task' → binding task' = binding task.
Proof.
  intros (Hb & [= Hc Hid _ Hct _])%apply_task_patch_Ok.
  unfold binding, claim_blocks_patch in *. rewrite Hc, Hid, Hct.
  destruct (ts_dispatch_claim task) as [claim|]; [|done].
  apply orb_false_iff in Hb as [[Hb1 Hb2]%orb_false_iff Hb3].
  destruct (non_blank (pt_task_id patch)), (pt_scheduling_contract patch); simpl;
    guards; congruence.
Qed.

Lemma apply_task_patch_child task patch task' :
  apply_task_patch task patch = Ok task' → child_bound task → child_bound task'.
Proof.
  intros (Hb & [= Hc _ Hs _ _])%apply_task_patch_Ok Hok claim Hcl.
  unfold claim_blocks_patch in Hb. rewrite Hc in Hcl. rewrite Hcl in Hb. rewrite Hs.
  specialize (Hok claim Hcl).
  destruct (non_blank (pt_sub_session_id patch)); simpl; [|done]. by guards.
Qed.

Lemma patch_index_Ok tasks index patch tasks' :
  patch_index tasks index patch = Ok tasks' →
  ∃ task task', tasks !! index = Some task ∧ apply_task_patch task patch = Ok task' ∧
                tasks' = <[index := task']> tasks.
Proof. unfold patch_index. intros Hp. outcome_inv. eauto. Qed.

(** One patch, of an existing task or of one pushed for it. *)
Definition patched tasks tasks' : Prop :=
  claimed_bindings tasks' = claimed_bindings tasks ∧
  (Forall child_bound tasks → Forall child_bound tasks').

Lemma patched_index tasks index patch tasks' :
  patch_index tasks index patch = Ok tasks' → patched tasks tasks'.
Proof.
  intros (task & task' & Hi & Hp & ->)%patch_index_Ok. split.
  - apply apply_task_patch_binding in Hp. unfold claimed_bindings.
    rewrite insert_take_drop by (by eapply lookup_lt_Some).
    rewrite <- (take_drop_middle tasks index task Hi) at 3.
    rewrite !omap_app. simpl. by rewrite Hp.
  - intros Hall. apply Forall_insert; [done|].
    eapply apply_task_patch_child; [exact Hp|]. by eapply Forall_lookup_1.
Qed.

Lemma patched_push tasks task :
  ts_dispatch_claim task = None → patched tasks (tasks ++ [task]).
Proof.
  intros Hn. split.
  - unfold claimed_bindings. rewrite omap_app. simpl. unfold binding. rewrite Hn.
    by rewrite app_nil_r.
  - intros Hall. apply Forall_app. split; [done|]. repeat constructor.
    intros claim Hc. congruence.
Qed.

Lemma patched_trans tasks1 tasks2 tasks3 :
  patched tasks1 tasks2 → patched tasks2 tasks3 → patched tasks1 tasks3.
Proof. intros [H1 H2] [H3 H4]. split; [congruence|auto]. Qed.

Lemma patched_refl tasks : patched tasks tasks.
Proof. by split. Qed.

Lemma patch_loop_patched tasks order patches now tasks' order' :
  patch_loop tasks order patches now = Ok (tasks', order') → patched tasks tasks'.
Proof.
  revert tasks order. induction patches as [|[patch id] rest IH]; intros tasks order;
    cbn [patch_loop].
  { intros [= -> _]. apply patched_refl. }
  intros Hp. outcome_inv. destruct (task_position tasks _); outcome_inv.
  all: eapply patched_trans; [|by eapply IH].
  - by eapply patched_index.
  - eapply patched_trans; [|by eapply patched_index]. by apply patched_push.
Qed.

(** Reordering and renumbering. *)
Lemma claimed_bindings_perm tasks tasks' :
  tasks ≡ₚ tasks' → claimed_bindings tasks ≡ₚ claimed_bindings tasks'.
Proof. intros Hp. unfold claimed_bindings. induction Hp; simpl; repeat case_match; try done.
  - by constructor.
  - apply Permutation_swap.
  - by etrans.
Qed.

Lemma Forall2_map_self {A} (R : A → A → Prop) (f : A → A) l :
  (∀ x, R x (f x)) → Forall2 R l (f <$> l).
Proof. intros Hf. induction l; constructor; auto. Qed.

Lemma Forall2_imap_self {A} (R : A → A → Prop) (f : nat → A → A) l :
  (∀ i x, R x (f i x)) → Forall2 R l (imap f l).
Proof.
  intros Hf. revert f Hf. induction l as [|x l IH]; intros f Hf; simpl;
    constructor; [apply Hf|]. apply (IH (f ∘ S)). intros i y. apply Hf.
Qed.

(** Two tasks that differ in neither identity, claim, contract nor child. *)
Definition same_binding task task' : Prop :=
  ts_task_id task' = ts_task_id task ∧ ts_dispatch_claim task' = ts_dispatch_claim task ∧
  ts_scheduling_contract task' = ts_scheduling_contract task ∧
  ts_sub_session_id task' = ts_sub_session_id task.

Lemma same_binding_patched tasks tasks' :
  Forall2 same_binding tasks tasks' → patched tasks tasks'.
Proof.
  induction 1 as [|t t' l l' (Hid & Hc & Hct & Hs) _ [IHb IHc]]; [apply patched_refl|].
  assert (binding t' = binding t) as Hb.
  { unfold binding. by rewrite Hc, Hid, Hct. }
  split.
  - unfold claimed_bindings in *. change (t' :: l') with ([t'] ++ l').
    change (t :: l) with ([t] ++ l). rewrite !omap_app, IHb. simpl. by rewrite Hb.
  - intros [Ht Hl]%Forall_cons. constructor; [|auto].
    intros claim Hcl. rewrite Hs. apply Ht. congruence.
Qed.

Lemma renumber_patched tasks : patched tasks (renumber tasks).
Proof. apply same_binding_patched, Forall2_imap_self. by intros i []. Qed.

Lemma settle_status_patched state ids doing tasks :
  patched tasks (settle_status state ids doing <$> tasks).
Proof.
  apply same_binding_patched, Forall2_map_self. intros t. unfold settle_status.
  repeat case_match; done.
Qed.

(** What a whole patch command keeps: as [patched], up to reordering. *)
Definition kept plan plan' : Prop :=
  claimed_bindings (tp_detailed_tasks plan') ≡ₚ claimed_bindings (tp_detailed_tasks plan) ∧
  (Forall child_bound (tp_detailed_tasks plan) → Forall child_bound (tp_detailed_tasks plan')).

Lemma patched_kept plan plan' :
  patched (tp_detailed_tasks plan) (tp_detailed_tasks plan') → kept plan plan'.
Proof. intros [Hb Hc]. split; [by rewrite Hb|done]. Qed.

Lemma kept_trans plan1 plan2 plan3 : kept plan1 plan2 → kept plan2 plan3 → kept plan1 plan3.
Proof. intros [H1 H2] [H3 H4]. split; [by rewrite H3|auto]. Qed.

Lemma patch_task_list_kept plan patches ids now plan' :
  patch_task_list plan patches ids now = Ok plan' → kept plan plan'.
Proof.
  unfold patch_task_list. intros Hp. outcome_inv.
  match goal with r : (list TaskStep * list string)%type |- _ => destruct r as [tasks order] end.
  outcome_inv. match goal with Hl : patch_loop _ _ _ _ = _ |- _ =>
    apply patch_loop_patched in Hl as [Hb Hc] end.
  destruct (renumber_patched (sort_by_key (order_key order) tasks)) as [Hb' Hc'].
  split; simpl.
  - rewrite Hb', <- Hb. apply claimed_bindings_perm, sort_by_key_perm.
  - intros Hall. apply Hc'. rewrite sort_by_key_perm. auto.
Qed.

Lemma select_task_patched plan id step gen now :
  patched (tp_detailed_tasks plan) (select_task plan id step gen now).1.
Proof.
  unfold select_task. destruct id as [id|].
  - destruct (task_position _ id); [apply patched_refl|by apply patched_push].
  - destruct (tp_detailed_tasks plan) as [|t l]; [|apply patched_refl].
    by apply (patched_push []).
Qed.

Lemma patch_one_task_kept plan patch gen now plan' :
  patch_one_task plan patch gen now = Ok plan' → kept plan plan'.
Proof.
  unfold patch_one_task. intros Hp. outcome_inv.
  pose proof (select_task_patched plan (trimmed_non_empty (pt_task_id patch))
                (pt_step patch) gen now) as Hs.
  destruct (select_task _ _ _ _ _) as [tasks index]. simpl in Hs.
  outcome_inv. match goal with Hi : patch_index _ _ _ = _ |- _ => apply patched_index in Hi end.
  apply patched_kept. eapply patched_trans; [exact Hs|].
  destruct (is_blank _); outcome_inv; done.
Qed.

Lemma patches_kept plan state (patch : SessionTaskPlanPatch) plan' :
  apply_task_plan_patch plan state patch = Ok plan' → kept plan plan'.
Proof.
  unfold apply_task_plan_patch. intros Hp. outcome_inv.
  match goal with
  | H1 : match pp_tasks patch with _ => _ end = Ok ?a,
    H2 : match pp_task patch with _ => _ end = Ok ?b |- _ =>
      assert (kept plan a) as Ha; [|assert (kept a b) as Hb]
  end.
  - destruct (pp_tasks patch); outcome_inv; [by eapply patch_task_list_kept|].
    by apply patched_kept.
  - destruct (pp_task patch); outcome_inv.
    + match goal with H : patch_one_task _ _ _ _ = _ |- _ => apply patch_one_task_kept in H end.
      by destruct (trimmed_non_empty _).
    + destruct (trimmed_non_empty _); by apply patched_kept.
  - eapply kept_trans; [exact Ha|]. eapply kept_trans; [exact Hb|].
    apply patched_kept, settle_status_patched.
Qed.

(** Patches cannot rebind a dispatched task.  Whatever plan patch succeeds,
    in whatever session state, the dispatched tasks keep their identity, their
    claim and their scheduling contract, none is dropped and none is added
    (reordering aside), and each stays attached to the child session its claim
    names. *)
Theorem patches_keep_claims plan state (patch : SessionTaskPlanPatch) plan' :
  apply_task_plan_patch plan state patch = Ok plan' →
  claimed_bindings (tp_detailed_tasks plan') ≡ₚ claimed_bindings (tp_detailed_tasks plan) ∧
  (Forall child_bound (tp_detailed_tasks plan) → Forall child_bound (tp_detailed_tasks plan')).
Proof. apply patches_kept. Qed.
End Bindings.

(** ** Identities *)

Section PatchIdentities.
Context `{Chrono}.
Implicit Types (task : TaskStep) (tasks : list TaskStep) (plan : TaskPlan).

Definition valid_id (id : string) : Prop := is_blank id = false ∧ trim id = id.
Definition ids_ok tasks : Prop := NoDup (task_ids tasks) ∧ Forall valid_id (task_ids tasks).

Lemma scheduling_identities_ids_ok plan :
  scheduling_identities_valid plan = true ↔ ids_ok (tp_detailed_tasks plan).
Proof.
  unfold scheduling_identities_valid, ids_ok, task_ids.
  rewrite identities_valid_spec, Forall_fmap. apply and_iff_compat_l.
  unfold valid_id, compose.
  split; (intros Hall; eapply Forall_impl; [exact Hall|]; simpl);
    [by intros t (? & ? & _)|].
  intros t [? ?]. split_and!; [done..|apply not_elem_of_empty].
Qed.

(** A patch that names its task as the plan does: without padding. *)
Definition unpadded (patch : SessionTaskPatch) : Prop :=
  ∀ id, pt_task_id patch = Some id → trim id = id.

Lemma unpadded_non_blank patch :
  unpadded patch → non_blank (pt_task_id patch) = trimmed_non_empty (pt_task_id patch).
Proof.
  unfold unpadded, non_blank, trimmed_non_empty, is_blank.
  destruct (pt_task_id patch) as [id|]; [|done]. intros Ht. by rewrite (Ht id).
Qed.

Lemma trimmed_non_empty_valid o id : trimmed_non_empty o = Some id → valid_id id.
Proof.
  unfold trimmed_non_empty. destruct o as [v|]; [|done]. case_match eqn:He; [done|].
  intros [= <-]. unfold valid_id, is_blank. by rewrite trim_idemp.
Qed.

Lemma patch_index_ids tasks index patch tasks' :
  patch_index tasks index patch = Ok tasks' →
  (∀ task id, tasks !! index = Some task → non_blank (pt_task_id patch) = Some id →
              ts_task_id task = id) →
  task_ids tasks' = task_ids tasks.
Proof.
  intros (task & task' & Hi & Hp & ->)%patch_index_Ok Hid.
  apply apply_task_patch_Ok in Hp as [_ [= _ Ht _ _ _]].
  unfold task_ids. rewrite list_fmap_insert. apply list_insert_id.
  rewrite list_lookup_fmap, Hi. simpl. f_equal. rewrite Ht.
  destruct (non_blank _) as [id|] eqn:Hn; [|done]. simpl. by eapply Hid.
Qed.

Lemma task_position_Some tasks id i :
  task_position tasks id = Some i → ∃ task, tasks !! i = Some task ∧ ts_task_id task = id.
Proof. intros (task & Ht & Hd & _)%position_Some. guards. eauto. Qed.

Lemma task_position_None tasks id : task_position tasks id = None ↔ id ∉ task_ids tasks.
Proof.
  unfold task_position, task_ids. rewrite position_None, list_elem_of_fmap. split.
  - intros Hn (t & -> & Ht). specialize (Hn t Ht). by guards.
  - intros Hn t Ht. apply bool_decide_eq_false. intros <-. apply Hn. eauto.
Qed.

Lemma ids_ok_push tasks task :
  ids_ok tasks → valid_id (ts_task_id task) → ts_task_id task ∉ task_ids tasks →
  ids_ok (tasks ++ [task]).
Proof.
  intros [Hnd Hall] Hv Hn. unfold ids_ok, task_ids in *. rewrite fmap_app. simpl. split.
  - apply NoDup_app. split_and!; [done| |apply NoDup_singleton].
    intros x Hx ->%list_elem_of_singleton. done.
  - apply Forall_app. split; [done|]. by constructor.
Qed.

(** Selecting the task a patch names, pushing it if it is new, keeps the
    identities; the task selected then has the patch's identity, if any. *)
Lemma patch_selected_ids_ok tasks id patch tasks' :
  unpadded patch → valid_id id → ids_ok tasks →
  (∀ pid, trimmed_non_empty (pt_task_id patch) = Some pid → pid = id) →
  (∀ step now,
    (let '(ts, i) := match task_position tasks id with
                     | Some i => (tasks, i)
                     | None => (tasks ++ [new_task id step tasks now], length tasks)
                     end in patch_index ts i patch) = Ok tasks' →
    ids_ok tasks' ∧ ∃ extra, task_ids tasks' = task_ids tasks ++ extra).
Proof.
  intros Hu Hv Hok Hpid step now.
  destruct (task_position tasks id) as [i|] eqn:Hpos; intros Hp.
  - apply patch_index_ids in Hp as He.
    + unfold ids_ok. rewrite He. split; [done|]. exists []. by rewrite app_nil_r.
    + intros t pid Ht Hpt. rewrite unpadded_non_blank in Hpt by done.
      apply task_position_Some in Hpos as (t' & Ht' & <-). rewrite (Hpid pid Hpt). congruence.
  - apply task_position_None in Hpos.
    apply patch_index_ids in Hp as He.
    + unfold ids_ok. rewrite He. split; [by apply ids_ok_push|].
      eexists. unfold task_ids. by rewrite fmap_app.
    + intros t pid Ht Hpt. rewrite unpadded_non_blank in Hpt by done.
      rewrite lookup_app_r, Nat.sub_diag in Ht by lia. injection Ht as <-.
      by rewrite (Hpid pid Hpt).
Qed.

Lemma patch_loop_ids_ok tasks order patches now tasks' order' :
  Forall (λ p, unpadded p.1 ∧ valid_id p.2) patches →
  ids_ok tasks → patch_loop tasks order patches now = Ok (tasks', order') → ids_ok tasks'.
Proof.
  intros Hall. revert tasks order. induction Hall as [|[patch gen] rest [Hu Hg] _ IH];
    intros tasks order Hok; cbn [patch_loop].
  { by intros [= <- _]. }
  set (id := default gen (trimmed_non_empty (pt_task_id patch))).
  assert (Hv : valid_id id).
  { unfold id. destruct (trimmed_non_empty _) eqn:Ht; [|done].
    by eapply trimmed_non_empty_valid. }
  assert (Hpid : ∀ pid, trimmed_non_empty (pt_task_id patch) = Some pid → pid = id).
  { intros pid Hp. unfold id. by rewrite Hp. }
  intros Hp. outcome_inv. pose proof (λ ts, patch_selected_ids_ok tasks id patch ts Hu Hv Hok
    Hpid (pt_step patch) now) as Hsel.
  destruct (match task_position tasks id with Some _ => _ | None => _ end) as [ts i].
  outcome_inv. eapply IH; [|done]. by eapply Hsel.
Qed.

Lemma task_ids_perm tasks tasks' : tasks ≡ₚ tasks' → task_ids tasks ≡ₚ task_ids tasks'.
Proof. intros Hp. unfold task_ids. by rewrite Hp. Qed.

Lemma ids_ok_perm tasks tasks' : task_ids tasks ≡ₚ task_ids tasks' → ids_ok tasks → ids_ok tasks'.
Proof. unfold ids_ok. by intros ->. Qed.

Lemma renumber_ids tasks : task_ids (renumber tasks) = task_ids tasks.
Proof.
  unfold task_ids, renumber. apply list_eq. intros i.
  rewrite !list_lookup_fmap, list_lookup_imap. by destruct (tasks !! i).
Qed.

Lemma patch_task_list_ids_ok plan patches gens now plan' :
  Forall unpadded patches → Forall valid_id gens →
  ids_ok (tp_detailed_tasks plan) →
  patch_task_list plan patches gens now = Ok plan' → ids_ok (tp_detailed_tasks plan').
Proof.
  intros Hp Hg Hok. unfold patch_task_list. intros Hpt. outcome_inv. guards.
  match goal with r : (list TaskStep * list string)%type |- _ => destruct r as [tasks order] end.
  outcome_inv. simpl. match goal with Hl : patch_loop _ _ _ _ = _ |- _ =>
    apply patch_loop_ids_ok in Hl; [|clear Hl|done] end.
  - eapply ids_ok_perm; [|done]. rewrite renumber_ids.
    apply task_ids_perm. symmetry. apply sort_by_key_perm.
  - clear -Hp Hg. revert gens Hg. induction Hp as [|p ps Hp _ IH]; intros [|g gs]; simpl;
      [constructor..|]. intros [? ?]%Forall_cons. constructor; auto.
Qed.

Lemma patch_one_task_ids_ok plan patch gen now plan' :
  unpadded patch → valid_id gen → ids_ok (tp_detailed_tasks plan) →
  patch_one_task plan patch gen now = Ok plan' → ids_ok (tp_detailed_tasks plan').
Proof.
  intros Hu Hg Hok. unfold patch_one_task. intros Hp. outcome_inv.
  destruct (select_task _ _ _ _ _) as [tasks index] eqn:Hsel. outcome_inv.
  match goal with Hi : patch_index _ _ _ = Ok ?ts |- _ =>
    assert (ids_ok ts) as Hres; [rename Hi into Hpi|] end.
  2:{ destruct (is_blank _); outcome_inv; done. }
  unfold select_task in Hsel. destruct (trimmed_non_empty _) as [id|] eqn:Ht.
  - eapply patch_selected_ids_ok with (id := id) (now := now) (step := pt_step patch) in Hok;
      [by destruct Hok|done|by eapply trimmed_non_empty_valid|by intros; congruence|].
    destruct (task_position _ id); by simplify_eq.
  - rewrite <- unpadded_non_blank in Ht by done.
    apply patch_index_ids in Hpi; [|congruence].
    unfold ids_ok. rewrite Hpi. destruct (tp_detailed_tasks plan); simplify_eq; [|exact Hok].
    split; simpl; [apply NoDup_singleton|by constructor].
Qed.

Lemma settle_status_ids state ids doing tasks :
  task_ids (settle_status state ids doing <$> tasks) = task_ids tasks.
Proof.
  unfold task_ids. rewrite <- list_fmap_compose. apply list_fmap_ext.
  intros i t _. unfold compose, settle_status. repeat case_match; done.
Qed.

(** Patches keep the plan schedulable: if the patches name tasks without
    surrounding blanks and the generated identities are non-blank and
    unpadded, then a plan with valid scheduling identities (non-blank, trimmed,
    pairwise distinct) still has them after any plan patch that succeeds, even
    when a generated identity is already in use. *)
Theorem patches_keep_identities plan state (patch : SessionTaskPlanPatch) plan' :
  (∀ patches, pp_tasks patch = Some patches → Forall unpadded patches) →
  (∀ one, pp_task patch = Some one → unpadded one) →
  Forall valid_id (pp_generated_task_id patch :: pp_generated_task_ids patch) →
  scheduling_identities_valid plan = true →
  apply_task_plan_patch plan state patch = Ok plan' →
  scheduling_identities_valid plan' = true.
Proof.
  rewrite !scheduling_identities_ids_ok. intros Hps Hpt [Hg Hgs]%Forall_cons Hok.
  unfold apply_task_plan_patch. intros Hp. outcome_inv. simpl.
  match goal with
  | H1 : match pp_tasks patch with _ => _ end = Ok ?a,
    H2 : match pp_task patch with _ => _ end = Ok ?b |- _ =>
      assert (ids_ok (tp_detailed_tasks a)) as Ha;
        [|assert (ids_ok (tp_detailed_tasks b)) as Hb]
  end.
  - destruct (pp_tasks patch); outcome_inv; [|done].
    eapply patch_task_list_ids_ok; [by apply Hps|exact Hgs|exact Hok|done].
  - destruct (pp_task patch); outcome_inv.
    + eapply patch_one_task_ids_ok; [by apply Hpt|exact Hg| |done].
      by destruct (trimmed_non_empty _).
    + by destruct (trimmed_non_empty _).
  - unfold ids_ok. by rewrite settle_status_ids.
Qed.

(** A padded identity in a patch breaks the plan.  A patch finds its task by
    the trimmed identity but stores the identity as given: whenever a
    single-task patch that names a task with surrounding blanks succeeds, the
    plan it leaves has no valid scheduling identities. *)
Theorem padded_patch_unschedulable plan patch gen now plan' id :
  pt_task_id patch = Some id → is_blank id = false → trim id ≠ id →
  patch_one_task plan patch gen now = Ok plan' →
  scheduling_identities_valid plan' = false.
Proof.
  intros Hid Hb Hpad. unfold patch_one_task. intros Hp. outcome_inv.
  destruct (select_task _ _ _ _ _) as [tasks index]. outcome_inv.
  match goal with Hi : patch_index _ _ _ = Ok ?ts |- _ =>
    apply patch_index_Ok in Hi as (t & t' & Hi & Ht & ->) end.
  apply apply_task_patch_Ok in Ht as [_ [= _ Ht _ _ _]].
  assert (Hn : non_blank (pt_task_id patch) = Some id)
    by (unfold non_blank; by rewrite Hid, Hb).
  rewrite Hn in Ht. simpl in Ht.
  assert (Hin : id ∈ task_ids (<[index := t']> tasks)).
  { unfold task_ids. rewrite <- Ht. apply list_elem_of_fmap_2.
    eapply list_elem_of_lookup_2, list_lookup_insert_eq. by eapply lookup_lt_Some. }
  apply not_true_is_false. rewrite scheduling_identities_ids_ok. intros [_ Hall].
  assert (Htasks : tp_detailed_tasks plan' = <[index := t']> tasks)
    by (destruct (is_blank (tp_plan_summary _)); outcome_inv; done).
  rewrite Htasks, Forall_forall in Hall. by apply Hpad, Hall.
Qed.
End PatchIdentities.

(** ** Status and order *)

Section PatchOrder.
Context `{Chrono}.
Implicit Types (task : TaskStep) (tasks : list TaskStep) (plan : TaskPlan).

(** A plan patch does not requeue or start work on its own.  While the
    session runs (or is paused), a task whose identity was being executed is
    not left queued ([todo] or [question]) by the patch; while the session is
    idle, a task the patch added to start when the session is idle waits for
    the user instead of being queued. *)
Theorem plan_patch_settles_status plan state (patch : SessionTaskPlanPatch) plan' :
  apply_task_plan_patch plan state patch = Ok plan' →
  ∀ task, task ∈ tp_detailed_tasks plan' →
  if is_recoverable_running state
  then ts_task_id task ∈ doing_task_ids (tp_detailed_tasks plan) →
       todo_or_question (ts_status task) = false
  else ts_task_id task ∉ task_ids (tp_detailed_tasks plan) →
       ts_start_condition task = SessionIdle →
       todo_or_question (ts_status task) = false.
Proof.
  unfold apply_task_plan_patch. intros Hp task. outcome_inv. simpl.
  intros (t & -> & _)%list_elem_of_fmap. unfold settle_status, contains.
  destruct (is_recoverable_running state).
  - destruct (todo_or_question (ts_status t)) eqn:Hq; [|by rewrite andb_false_r].
    rewrite andb_true_r. case_bool_decide; done.
  - destruct (todo_or_question (ts_status t)) eqn:Hq; [|by rewrite andb_false_r].
    rewrite andb_true_r. repeat case_bool_decide; simpl; done.
Qed.

Lemma renumber_steps tasks :
  ts_step <$> renumber tasks = (λ i, Z.of_nat i + 1) <$> seq 0 (length tasks).
Proof.
  apply list_eq. intros i. unfold renumber.
  rewrite !list_lookup_fmap, list_lookup_imap.
  destruct (tasks !! i) as [t|] eqn:Hi; simpl.
  - rewrite lookup_seq_lt by (by eapply lookup_lt_Some). done.
  - rewrite lookup_seq_ge by (by apply lookup_ge_None). done.
Qed.

(** A stable sort is determined by being sorted and stable. *)
Lemma sorted_stable_unique {A} (key : A → Z) l l' :
  StronglySorted (λ a b, key a ≤ key b) l → StronglySorted (λ a b, key a ≤ key b) l' →
  (∀ k, filter (λ x, key x = k) l = filter (λ x, key x = k) l') → l = l'.
Proof.
  intros Hl. revert l'. induction Hl as [|x l Hl IH Hx]; intros l' Hl' Hf.
  - destruct l' as [|y l']; [done|]. specialize (Hf (key y)).
    rewrite filter_cons_True in Hf by done. done.
  - assert (Hin : x ∈ l').
    { specialize (Hf (key x)). rewrite filter_cons_True in Hf by done.
      assert (x ∈ filter (λ z, key z = key x) l') as [_ ?]%list_elem_of_filter
        by (rewrite <- Hf; left). done. }
    destruct Hl' as [|y l' Hl' Hy]; [by apply not_elem_of_nil in Hin|].
    assert (Hyin : y ∈ x :: l).
    { specialize (Hf (key y)). rewrite (filter_cons_True _ y) in Hf by done.
      assert (y ∈ filter (λ z, key z = key y) (x :: l)) as [_ ?]%list_elem_of_filter
        by (rewrite Hf; left). done. }
    assert (Hk : key x = key y).
    { rewrite Forall_forall in Hx, Hy. apply elem_of_cons in Hin as [->|Hin]; [done|].
      apply elem_of_cons in Hyin as [->|Hyin]; [done|].
      specialize (Hx _ Hyin). specialize (Hy _ Hin). lia. }
    pose proof (Hf (key x)) as Hfx. rewrite !filter_cons_True in Hfx by done.
    injection Hfx as <- _. f_equal. apply IH; [done|]. intros k. specialize (Hf k).
    rewrite !filter_cons in Hf. case_decide; congruence.
Qed.

Lemma sort_by_key_fmap {A B} (f : A → B) (key : B → Z) l :
  f <$> sort_by_key (key ∘ f) l = sort_by_key key (f <$> l).
Proof.
  induction l as [|x l IH]; [done|]. rewrite fmap_cons. cbn [sort_by_key].
  rewrite <- IH. clear IH. generalize (sort_by_key (key ∘ f) l). intros k.
  induction k as [|y k IH]; [done|]. cbn [insert_by_key fmap list_fmap].
  unfold compose at 1 2. destruct (key (f x) <=? key (f y)); [done|].
  rewrite fmap_cons. by rewrite IH.
Qed.

(** The rank of an identity in the requested order. *)
Definition order_rank (order : list string) (id : string) : Z :=
  match position (λ x, bool_decide (x = id)) order with
  | Some index => Z.of_nat index
  | None => u64_max
  end.

Lemma order_rank_lookup order i id :
  NoDup order → order !! i = Some id → order_rank order id = Z.of_nat i.
Proof.
  intros Hnd Hi. unfold order_rank.
  rewrite (position_first _ _ i id); [done|done|by apply bool_decide_eq_true|].
  intros j y Hj Hy. apply bool_decide_eq_false. intros ->.
  pose proof (NoDup_lookup _ _ _ _ Hnd Hi Hy). lia.
Qed.

Lemma order_rank_absent order id : id ∉ order → order_rank order id = u64_max.
Proof.
  intros Hn. unfold order_rank. rewrite (proj2 (position_None _ _)); [done|].
  intros x Hx. apply bool_decide_eq_false. by intros ->.
Qed.

Lemma order_rank_inv order id k :
  NoDup order → order_rank order id = k → k ≠ u64_max → order !! Z.to_nat k = Some id.
Proof.
  intros Hnd Hr Hk. destruct (decide (id ∈ order)) as [[i Hi]%list_elem_of_lookup|Hn].
  - rewrite (order_rank_lookup _ i) in Hr by done. subst. by rewrite Nat2Z.id.
  - by rewrite order_rank_absent in Hr.
Qed.

Lemma order_sorted pre suf :
  NoDup (pre ++ suf) →
  StronglySorted (λ a b, order_rank (pre ++ suf) a ≤ order_rank (pre ++ suf) b) suf.
Proof.
  remember (pre ++ suf) as order eqn:Ho. intros Hnd. revert pre Ho.
  induction suf as [|x suf IH]; intros pre Ho; constructor.
  - apply (IH (pre ++ [x])). by rewrite <- app_assoc.
  - apply Forall_forall. intros y [i Hi]%list_elem_of_lookup.
    rewrite (order_rank_lookup _ (length pre) x), (order_rank_lookup _ (length pre + S i) y);
      [lia|done| |done|]; subst order.
    + rewrite lookup_app_r by lia. replace (length pre + S i - length pre)%nat with (S i) by lia.
      done.
    + by rewrite list_lookup_middle.
Qed.

Lemma NoDup_all_eq {A} (l : list A) x : NoDup l → x ∈ l → (∀ y, y ∈ l → y = x) → l = [x].
Proof.
  intros Hnd Hin Heq. destruct l as [|a [|b l]]; [by apply not_elem_of_nil in Hin| |].
  - f_equal. apply Heq. left.
  - apply NoDup_cons in Hnd as [Hn _]. exfalso. apply Hn.
    rewrite (Heq a), (Heq b); [left|right; left|left].
Qed.

Lemma StronglySorted_app_intro {A} (R : A → A → Prop) l k :
  StronglySorted R l → StronglySorted R k → (∀ x y, x ∈ l → y ∈ k → R x y) →
  StronglySorted R (l ++ k).
Proof.
  intros Hl Hk Hlk. induction Hl as [|x l Hl IH Hx]; simpl; [done|]. constructor.
  - apply IH. intros a b ?. apply Hlk. by right.
  - apply Forall_app. split; [done|]. apply Forall_forall. intros y ?. apply Hlk; [left|done].
Qed.

Lemma const_sorted {A} (key : A → Z) k l :
  Forall (λ x, key x = k) l → StronglySorted (λ a b, key a ≤ key b) l.
Proof.
  induction 1 as [|x l Hx Hl IH]; constructor; [done|].
  eapply Forall_impl; [exact Hl|]. simpl. lia.
Qed.

Lemma filter_none {A} (P : A → Prop) `{∀ x, Decision (P x)} l :
  (∀ x, x ∈ l → ¬ P x) → filter P l = [].
Proof.
  intros Hn. induction l as [|x l IH]; [done|].
  rewrite filter_cons_False by (apply Hn; left). apply IH. intros y ?. apply Hn. by right.
Qed.

Lemma filter_unique {A} (P : A → Prop) `{∀ x, Decision (P x)} l k :
  NoDup l → NoDup k → (∀ x y, P x → P y → x = y) → (∀ x, P x → x ∈ l ↔ x ∈ k) →
  filter P l = filter P k.
Proof.
  intros Hl Hk Hu Hlk. destruct (filter P l) as [|x m] eqn:Hf.
  - symmetry. apply filter_none. intros x Hx HP. apply (Hlk x HP) in Hx.
    by apply (filter_nil_not_elem_of P l x Hf HP).
  - assert (x ∈ filter P l) as [HP Hx]%list_elem_of_filter by (rewrite Hf; left).
    rewrite <- Hf. trans [x]; [|symmetry]; apply NoDup_all_eq.
    all: try by apply NoDup_filter.
    all: try (intros y [? _]%list_elem_of_filter; by apply Hu).
    all: apply list_elem_of_filter; split; [done|]. { done. } by apply Hlk.
Qed.

(** Sorting identities by a requested order: the requested ones in that order,
    then the others as they were. *)
Lemma sort_by_rank order ids :
  NoDup order → NoDup ids → order ⊆ ids → Z.of_nat (length order) < u64_max →
  sort_by_key (order_rank order) ids = order ++ filter (λ id, id ∉ order) ids.
Proof.
  intros Ho Hi Hsub Hlen.
  assert (Hrest : ∀ id, id ∈ filter (λ id, id ∉ order) ids → order_rank order id = u64_max).
  { intros id [Hn _]%list_elem_of_filter. by apply order_rank_absent. }
  assert (Hlt : ∀ id, id ∈ order → order_rank order id < u64_max).
  { intros id [i Hid]%list_elem_of_lookup. rewrite (order_rank_lookup _ i) by done.
    apply lookup_lt_Some in Hid. lia. }
  apply (sorted_stable_unique (order_rank order)); [apply sort_by_key_sorted| |].
  - apply StronglySorted_app_intro; [by apply (order_sorted [])| |].
    + apply const_sorted with (k := u64_max). by apply Forall_forall.
    + intros x y Hx%Hlt Hy%Hrest. lia.
  - intros k. rewrite sort_by_key_stable, filter_app.
    destruct (decide (k = u64_max)) as [->|Hk].
    + rewrite (filter_none _ order) by (intros x Hx%Hlt; lia). simpl.
      rewrite list_filter_filter_l; [done|].
      intros x Hx Hin%Hlt. lia.
    + rewrite (filter_none _ (filter _ ids)) by (intros x Hx%Hrest; congruence).
      rewrite app_nil_r. apply filter_unique; [done|done| |].
      * intros x y Hx%order_rank_inv Hy%order_rank_inv; congruence.
      * intros x Hx%order_rank_inv; [|done..]. split; [|apply Hsub].
        intros _. by eapply list_elem_of_lookup_2.
Qed.

(** The loop of [patch_task_list] when every patch names an existing task. *)
Lemma patch_loop_reorders tasks order patches now tasks' order' ids :
  Forall2 (λ p id, pt_task_id p.1 = Some id ∧ valid_id id ∧ id ∈ task_ids tasks) patches ids →
  NoDup ids → (∀ id, id ∈ ids → id ∉ order) →
  patch_loop tasks order patches now = Ok (tasks', order') →
  task_ids tasks' = task_ids tasks ∧ order' = order ++ ids.
Proof.
  intros Hall. revert tasks order Hall. revert ids.
  induction patches as [|[patch gen] rest IH]; intros ids tasks order Hall Hnd Hdis;
    inversion Hall as [|? id ? ids' (Hid & [Hb Ht] & Hin) Hrest]; subst; cbn [patch_loop].
  { intros [= <- <-]. by rewrite app_nil_r. }
  simpl in Hid. unfold trimmed_non_empty. rewrite Hid.
  unfold is_blank in Hb. rewrite Hb. simpl. rewrite Ht. intros Hp. outcome_inv.
  destruct (task_position tasks id) as [i|] eqn:Hpos.
  2:{ by apply task_position_None in Hpos. }
  outcome_inv. apply NoDup_cons in Hnd as [Hni Hnd].
  assert (contains order id = false) as Hc.
  { apply bool_decide_eq_false, Hdis. left. }
  match goal with H1 : patch_index _ _ _ = Ok ?ts, H2 : patch_loop _ _ _ _ = _ |- _ =>
    assert (Hids : task_ids ts = task_ids tasks);
      [clear H2; apply patch_index_ids in H1; [done|]|clear H1; rename H2 into Hl] end.
  { intros t pid Hti. unfold non_blank, is_blank. rewrite Hid, Ht.
    rewrite <- Ht, Hb. rewrite Ht. intros [= <-].
    apply task_position_Some in Hpos as (t' & Ht' & <-). congruence. }
  rewrite Hc in Hl. simpl in Hl. apply (IH ids') in Hl as [-> ->]; try done.
  - by rewrite <- app_assoc.
  - by rewrite Hids.
  - intros y Hy [Hyo|Hyo%list_elem_of_singleton]%elem_of_app; [|by subst].
    apply (Hdis y); [by right|done].
Qed.

(** A list patch that names existing tasks reorders the plan as asked: the
    named tasks come first in the order of the patches, the others follow in
    the order they had, and the steps are numbered from one. *)
Theorem task_list_patch_reorders plan patches ids gens now plan' :
  Forall2 (λ p id, pt_task_id p = Some id ∧ valid_id id ∧
                   id ∈ task_ids (tp_detailed_tasks plan)) patches ids →
  NoDup ids → NoDup (task_ids (tp_detailed_tasks plan)) →
  Z.of_nat (length ids) < u64_max →
  patch_task_list plan patches gens now = Ok plan' →
  let tasks' := tp_detailed_tasks plan' in
  task_ids tasks' = ids ++ filter (λ id, id ∉ ids) (task_ids (tp_detailed_tasks plan)) ∧
  ts_step <$> tasks' = (λ i, Z.of_nat i + 1) <$> seq 0 (length (tp_detailed_tasks plan)).
Proof.
  intros Hall Hnd Hndp Hlen. unfold patch_task_list. intros Hp. outcome_inv. guards.
  match goal with r : (list TaskStep * list string)%type |- _ => destruct r as [tasks order] end.
  outcome_inv. simpl. match goal with Hl : patch_loop _ _ _ _ = _ |- _ =>
    apply patch_loop_reorders with (ids := ids) in Hl as [Hids ->]; try done end.
  - rewrite renumber_ids, renumber_steps. split.
    + change (order_key ([] ++ ids)) with (order_rank ids ∘ ts_task_id).
      unfold task_ids at 1. rewrite sort_by_key_fmap. fold (task_ids tasks). rewrite Hids.
      apply sort_by_rank; try done. intros id Hid.
      apply list_elem_of_lookup in Hid as [i Hi].
      eapply Forall2_lookup_r in Hall as (p & _ & _ & _ & Hin); [exact Hin|exact Hi].
    + rewrite sort_by_key_perm. do 2 f_equal.
      rewrite <- (length_fmap ts_task_id tasks). fold (task_ids tasks). rewrite Hids.
      apply length_fmap.
  - match goal with Hg : length _ = length patches |- _ => revert Hg end.
    clear -Hall. revert gens. induction Hall; intros [|g gens] Hg; try done; constructor; [done|].
    apply IHHall. by injection Hg.
  - intros id _. apply not_elem_of_nil.
Qed.
End PatchOrder.

(** ** Evaluated examples *)

Module PatchExample.
#[local] Existing Instance chrono_ns.

Definition zero : @DateTime chrono_ns := 0.
Definition claim : TaskDispatchClaimV1 :=
  {| dc_schema_version := TASK_DISPATCH_CLAIM_SCHEMA_VERSION; dc_mission_id := "m1";
     dc_task_id := "t2"; dc_child_session_id := "child"; dc_child_runtime_id := "rt";
     dc_child_lease_id := "lease"; dc_child_transaction_id := "tx";
     dc_semantic_dispatch_key := ""; dc_authority_mission_revision_sha256 := "";
     dc_delegated_input_sha256 := ""; dc_task_context_capsule_semantic_sha256 := "";
     dc_parent_task_plan_sha256 := ""; dc_task_scheduling_contract_sha256 := "";
     dc_scope_claim_sha256 := "" |}.
Definition task (id : string) : TaskStep := (TaskStep_default zero).{ts_task_id := id}.
(** Three tasks, the second dispatched. *)
Definition plan : TaskPlan :=
  MkTaskPlan "ship"
    [task "t1";
     (task "t2").{ts_status := Doing}.{ts_sub_session_id := "child"}
       .{ts_dispatch_claim := Some claim};
     task "t3"].
Definition names (id : string) : SessionTaskPatch :=
  SessionTaskPatch_default.{pt_task_id := Some id}.{pt_status := Some Todo}.
(** Move the third and second tasks to the front, and ask for all to be queued. *)
Definition patch : SessionTaskPlanPatch :=
  MkSessionTaskPlanPatch None (Some [names "t3"; names "t2"]) (Some (names "t4"))
    ["g1"; "g2"] "g3" zero.
Definition run : patch_result TaskPlan := apply_task_plan_patch plan Running patch.
Definition plan' : TaskPlan := ok_value plan run.
#[local] Strategy expand [run plan'].

Lemma run_ok : apply_task_plan_patch plan Running patch = Ok plan'.
Proof.
  assert (Hr : is_ok run = true) by reflexivity. apply (is_ok_value plan) in Hr.
  unfold run at 1 in Hr. exact Hr.
Defined.

Example run_ids :
  task_ids (tp_detailed_tasks plan') = ["t3"; "t2"; "t1"; "t4"] ∧
  ts_status <$> tp_detailed_tasks plan' = [Todo; Doing; Todo; Todo].
Proof. split; reflexivity. Qed.

Lemma patches_keep_claims_witness :
  claimed_bindings (tp_detailed_tasks plan') ≡ₚ [("t2", claim, None)] ∧
  Forall child_bound (tp_detailed_tasks plan').
Proof.
  destruct (patches_keep_claims plan Running patch plan' run_ok) as [Hb Hc].
  split; [exact Hb|]. apply Hc.
  repeat first [apply Forall_nil_2 | apply Forall_cons_2];
    intros c Hcl; simpl in Hcl; try discriminate Hcl.
  injection Hcl as <-. reflexivity.
Defined.

Lemma nth_elem (l : list TaskStep) i d : (i < length l)%nat → default d (l !! i) ∈ l.
Proof.
  intros [x Hx]%lookup_lt_is_Some_2. rewrite Hx. by eapply list_elem_of_lookup_2.
Defined.

(** The task that was being executed, after the patch. *)
Definition executed : TaskStep := default (task "") (tp_detailed_tasks plan' !! 1%nat).

Lemma plan_patch_settles_status_witness : todo_or_question (ts_status executed) = false.
Proof.
  apply (plan_patch_settles_status plan Running patch plan' run_ok executed).
  - apply nth_elem. apply Nat.ltb_lt. vm_compute. reflexivity.
  - assert (Hid : ts_task_id executed = "t2") by (vm_compute; reflexivity).
    rewrite Hid. left.
Defined.

Lemma names_unpadded id : trim id = id → unpadded (names id).
Proof. intros Ht id' [= <-]. exact Ht. Defined.

Lemma patches_keep_identities_witness : scheduling_identities_valid plan' = true.
Proof.
  apply (patches_keep_identities plan Running patch plan'); [| | |reflexivity|exact run_ok].
  - intros ps [= <-]. repeat constructor; by apply names_unpadded.
  - intros one [= <-]. by apply names_unpadded.
  - repeat constructor.
Defined.

Definition reordered : patch_result TaskPlan :=
  patch_task_list plan [names "t3"; names "t2"] ["g1"; "g2"] zero.
#[local] Strategy expand [reordered].

Lemma task_list_patch_reorders_witness :
  task_ids (tp_detailed_tasks (ok_value plan reordered)) = ["t3"; "t2"; "t1"] ∧
  ts_step <$> tp_detailed_tasks (ok_value plan reordered) = [1; 2; 3].
Proof.
  apply (task_list_patch_reorders plan [names "t3"; names "t2"] ["t3"; "t2"] ["g1"; "g2"] zero
           (ok_value plan reordered)).
  - repeat constructor; simpl; set_solver.
  - apply (bool_decide_unpack _). reflexivity.
  - apply (bool_decide_unpack _). reflexivity.
  - reflexivity.
  - apply is_ok_value. reflexivity.
Defined.

(** Naming ["t1"] with padding renames the task and leaves a plan whose
    identities the scheduler refuses. *)
Definition padded : patch_result TaskPlan :=
  patch_one_task plan (names " t1 ") "g" zero.
Example padded_patch_breaks_identities :
  is_ok padded = true ∧ scheduling_identities_valid plan = true ∧
  task_ids (tp_detailed_tasks (ok_value plan padded)) = [" t1 "; "t2"; "t3"] ∧
  scheduling_identities_valid (ok_value plan padded) = false.
Proof. split_and!; reflexivity. Qed.
#[local] Strategy expand [padded].

Lemma padded_patch_unschedulable_witness :
  scheduling_identities_valid (ok_value plan padded) = false.
Proof.
  apply (padded_patch_unschedulable plan (names " t1 ") "g" zero (ok_value plan padded) " t1 ");
    [reflexivity|reflexivity|discriminate|].
  apply (is_ok_value plan padded). reflexivity.
Defined.
End PatchExample.
