(* ===== verification/Session.v ===== *)
(** * The session aggregate of [lifecycle/src/session.rs]

    A session is event sourced: [decide] turns a command into an event or a
    refusal, [apply] folds an event into the aggregate, [execute] does both,
    and [replay] rebuilds the aggregate from a stored stream, accepting an
    event only if the reducer would produce it again.  [decide] is one handler
    per command. *)

From stdpp Require Import base list strings gmap.
From Stdlib Require Import ZArith Lia.
From S2P Require Import Prelude RustStd Externals TaskData TaskSchedule TaskIdentity TaskPatch.
Open Scope Z_scope.

Section Session.
Context `{Chrono, SerdeJson, Sha2}.

Record SessionAggregate := MkSessionAggregate {
  sa_session_id : string;
  sa_state : SessionState;
  sa_parent_id : option string;
  sa_task_plan : TaskPlan;
  sa_pending_user_inputs : list string;
  sa_cancelled : bool;
  sa_runtime_ids : list string;
  sa_active_runtime_id : option string;
}.
#[global] Instance SessionAggregate_eta : Eta SessionAggregate := MkEta (λ r,
  MkSessionAggregate (sa_session_id r) (sa_state r) (sa_parent_id r) (sa_task_plan r)
    (sa_pending_user_inputs r) (sa_cancelled r) (sa_runtime_ids r) (sa_active_runtime_id r)).

Inductive SessionCommand :=
| CmdCreateSession (task_plan : TaskPlan)
| CmdSubmitUserInput
| CmdStartUserTurn
| CmdQueueUserInputWhileBusy (input : string)
| CmdConsumeQueuedUserInputs
| CmdRuntimeStarted (runtime_id : string)
| CmdRuntimeRetried (runtime_id fallback_from_id : string)
| CmdRuntimeCompleted (runtime_id : string)
| CmdRuntimeFailed (runtime_id : string)
| CmdRuntimeCancelled (runtime_id : string)
| CmdRuntimeEnded (runtime_id : string)
| CmdApplyRuntimeState (state : SessionState)
| CmdInterruptSession
| CmdCancelSession
| CmdRegisterChildSession (parent_id : string)
| CmdForkSession (parent_id : string)
| CmdApplyTaskStatus (task_plan : TaskPlan)
| CmdApplyTaskPatch (patch : SessionTaskPatch) (generated_task_id : string) (now : DateTime)
| CmdApplyTaskPatches (tasks : list SessionTaskPatch) (generated_task_ids : list string)
    (now : DateTime)
| CmdApplyTaskPlanPatch (patch : SessionTaskPlanPatch)
| CmdStartScheduledTask (task_id task_summary : string) (start_condition : StartCondition)
    (now : DateTime)
| CmdClaimScheduledChildTask (expected_task_plan : TaskPlan) (claim : TaskDispatchClaimV1)
    (now : DateTime)
| CmdConvergeAcknowledgedChildCallback (acknowledgment : AcknowledgedChildCallbackIdentityV1)
| CmdDeleteSession.

Inductive SessionEvent :=
| EvSessionCreated (task_plan : TaskPlan)
| EvUserInputAccepted (state : SessionState)
| EvUserTurnStarted (state : SessionState)
| EvUserInputQueued (input : string)
| EvQueuedUserInputsConsumed (inputs : list string)
| EvRuntimeStarted (runtime_id : string) (state : SessionState)
| EvRuntimeCompleted (runtime_id : string) (state : SessionState)
| EvRuntimeFailed (runtime_id : string) (state : SessionState)
| EvRuntimeCancelled (runtime_id : string) (state : SessionState)
| EvRuntimeEnded (runtime_id : string) (state : SessionState)
| EvRuntimeStateApplied (state : SessionState)
| EvSessionInterrupted (state : SessionState) (task_plan : TaskPlan)
| EvSessionCancelled (state : SessionState)
| EvChildSessionRegistered (parent_id : string) (state : SessionState)
| EvSessionForked (parent_id : string)
| EvTaskPlanChanged (task_plan : TaskPlan)
| EvScheduledTaskClaimed (task_plan : TaskPlan) (task_id task_summary : string)
    (start_condition : StartCondition) (state : SessionState)
| EvScheduledChildTaskClaimed (task_plan : TaskPlan) (claim : TaskDispatchClaimV1)
    (claimed_at : DateTime) (state : SessionState)
| EvAcknowledgedChildCallbackConverged (acknowledgment : AcknowledgedChildCallbackIdentityV1)
    (task_plan : TaskPlan) (state : SessionState)
| EvSessionDeleted.
#[global] Instance SessionEvent_eq_dec : EqDecision SessionEvent.
Proof. solve_decision. Defined.

Definition session_result := outcome SessionTransitionError.
Definition refuse {A} (previous next : SessionState) : session_result A :=
  Err (MkSessionTransitionError previous next).

Implicit Types (self : SessionAggregate).

Definition new (session_id : string) : SessionAggregate :=
  {| sa_session_id := session_id; sa_state := Created; sa_parent_id := None;
     sa_task_plan := TaskPlan_default; sa_pending_user_inputs := []; sa_cancelled := false;
     sa_runtime_ids := []; sa_active_runtime_id := None |}.

(** ** Runtimes of the session *)

Definition runtime_terminal_matches self (runtime_id : string) (next : SessionState) : bool :=
  if is_blank runtime_id then false else
  match sa_active_runtime_id self with
  | Some active => bool_decide (active = runtime_id)
  | None =>
      if contains (sa_runtime_ids self) runtime_id
      then bool_decide (sa_state self = next) else false
  end.

Definition decide_apply_runtime_state self (next : SessionState) : session_result SessionEvent :=
  let previous := sa_state self in
  let active := bool_decide (is_Some (sa_active_runtime_id self)) in
  let active_runtime_state_transition :=
    active && is_recoverable_running previous && is_recoverable_running next in
  let execution_terminal_transition :=
    active && is_recoverable_running previous && is_terminal next in
  if (active && negb active_runtime_state_transition && negb execution_terminal_transition)
     || negb (can_transition_to previous next)
  then refuse previous next
  else mret (EvRuntimeStateApplied next).

Definition decide_runtime_started self (runtime_id : string) : session_result SessionEvent :=
  let previous := sa_state self in
  if is_blank runtime_id
     || match sa_active_runtime_id self with
        | Some active => negb (bool_decide (active = runtime_id))
        | None => false
        end
     || negb (can_transition_to previous Running)
  then refuse previous Running
  else mret (EvRuntimeStarted runtime_id Running).

Definition decide_runtime_retried self (runtime_id fallback_from_id : string)
    : session_result SessionEvent :=
  let previous := sa_state self in
  if negb (bool_decide (previous = Failed))
     || is_blank runtime_id
     || is_blank fallback_from_id
     || bool_decide (runtime_id = fallback_from_id)
     || bool_decide (is_Some (sa_active_runtime_id self))
     || negb (bool_decide (last (sa_runtime_ids self) = Some fallback_from_id))
  then refuse previous Running
  else mret (EvRuntimeStarted runtime_id Running).

Definition decide_runtime_completed self (runtime_id : string) : session_result SessionEvent :=
  let previous := sa_state self in
  if negb (runtime_terminal_matches self runtime_id Completed)
     || negb (can_transition_to previous Completed)
  then refuse previous Completed
  else mret (EvRuntimeCompleted runtime_id Completed).

Definition decide_runtime_failed self (runtime_id : string) : session_result SessionEvent :=
  let previous := sa_state self in
  if negb (runtime_terminal_matches self runtime_id Failed)
     || (negb (bool_decide (previous = Failed)) && negb (can_transition_to previous Failed))
  then refuse previous Failed
  else mret (EvRuntimeFailed runtime_id Failed).

Definition decide_runtime_cancelled self (runtime_id : string) : session_result SessionEvent :=
  let previous := sa_state self in
  if negb (runtime_terminal_matches self runtime_id Cancelled)
     || (negb (bool_decide (previous = Cancelled)) && negb (can_transition_to previous Cancelled))
  then refuse previous Cancelled
  else mret (EvRuntimeCancelled runtime_id Cancelled).

Definition decide_runtime_ended self (runtime_id : string) : session_result SessionEvent :=
  let previous := sa_state self in
  if is_blank runtime_id
     || negb (bool_decide (sa_active_runtime_id self = Some runtime_id))
     || negb (is_recoverable_running previous)
  then refuse previous previous
  else mret (EvRuntimeEnded runtime_id previous).

(** ** User input, interruption, cancellation, lineage *)

Definition decide_submit_user_input self : session_result SessionEvent :=
  mret (EvUserInputAccepted
          match sa_state self with
          | Completed | Failed | Cancelled | Interrupted => Created
          | state => state
          end).

Definition decide_start_user_turn self : session_result SessionEvent :=
  let previous := sa_state self in
  if is_recoverable_running previous then refuse previous Running
  else mret (EvUserTurnStarted Running).

Definition decide_queue_user_input self (input : string) : session_result SessionEvent :=
  let previous := sa_state self in
  let input := trim input in
  if negb (is_recoverable_running previous) || is_empty input then refuse previous previous
  else mret (EvUserInputQueued input).

(** A task being executed waits for the user after an interruption. *)
Definition interrupt_task (task : TaskStep) : TaskStep :=
  if bool_decide (ts_status task = Doing) then task.{ts_status := WaitingUser} else task.

Definition decide_interrupt_session self : session_result SessionEvent :=
  let previous := sa_state self in
  let task_plan := sa_task_plan self in
  let task_plan :=
    if negb (is_terminal previous)
    then task_plan.{tp_detailed_tasks := interrupt_task <$> tp_detailed_tasks task_plan}
    else task_plan in
  mret (EvSessionInterrupted (if is_terminal previous then previous else Interrupted) task_plan).

Definition decide_register_child_session self (parent_id : string)
    : session_result SessionEvent :=
  let previous := sa_state self in
  if negb (can_transition_to previous Running) then refuse previous Running
  else mret (EvChildSessionRegistered parent_id Running).

(** ** The task plan *)

Definition decide_apply_task_patch self (patch : SessionTaskPatch) (generated_task_id : string)
    (now : DateTime) : session_result SessionEvent :=
  task_plan ← patch_one_task (sa_task_plan self) patch generated_task_id now;
  mret (EvTaskPlanChanged task_plan).

Definition decide_apply_task_patches self (tasks : list SessionTaskPatch)
    (generated_task_ids : list string) (now : DateTime) : session_result SessionEvent :=
  task_plan ← patch_task_list (sa_task_plan self) tasks generated_task_ids now;
  mret (EvTaskPlanChanged task_plan).

Definition decide_apply_task_plan_patch self (patch : SessionTaskPlanPatch)
    : session_result SessionEvent :=
  match apply_task_plan_patch (sa_task_plan self) (sa_state self) patch with
  | Ok task_plan => mret (EvTaskPlanChanged task_plan)
  | Err _ => mret (EvTaskPlanChanged (sa_task_plan self))
  | Panic => Panic
  | OutOfFuel => OutOfFuel
  end.

(** [task.advance_polling_start(now)] if the task is polled. *)
Definition advance_if_polling (task : TaskStep) (now : DateTime) : session_result TaskStep :=
  match ts_start_condition task with
  | PollingTask => advance_polling_start task now
  | _ => mret task
  end.

Definition scheduled_task_matches self (task_id task_summary : string)
    (start_condition : StartCondition) (now : DateTime) (task : TaskStep) : bool :=
  bool_decide (ts_task_id task = task_id)
  && bool_decide (ts_start_condition task = start_condition)
  && bool_decide (display_summary task (tp_plan_summary (sa_task_plan self)) = task_summary)
  && scheduler_eligible task now.

Definition decide_start_scheduled_task self (task_id task_summary : string)
    (start_condition : StartCondition) (now : DateTime) : session_result SessionEvent :=
  let previous := sa_state self in
  let task_plan := sa_task_plan self in
  match position (scheduled_task_matches self task_id task_summary start_condition now)
          (tp_detailed_tasks task_plan) with
  | None => refuse previous previous
  | Some index =>
      if negb (can_transition_to previous Running) then refuse previous Running else
      task ← or_panic (tp_detailed_tasks task_plan !! index);
      let task_id := ts_task_id task in
      let task_summary := display_summary task (tp_plan_summary task_plan) in
      let start_condition := ts_start_condition task in
      task ← advance_if_polling task.{ts_status := Doing} now;
      mret (EvScheduledTaskClaimed
              task_plan.{tp_detailed_tasks := <[index := task]> (tp_detailed_tasks task_plan)}
              task_id task_summary start_condition Running)
  end.

(** The claim names the task's contract and the plan it was read from. *)
Definition claim_mismatch (task_plan : TaskPlan) (task : TaskStep)
    (contract : TaskSchedulingContractV1) (claim : TaskDispatchClaimV1) : bool :=
  bool_decide (is_Some (ts_dispatch_claim task))
  || negb (is_empty (ts_sub_session_id task))
  || is_err (Contract.validate contract (ts_task_id task))
  || negb (bool_decide (sc_mission_id contract = dc_mission_id claim))
  || negb (bool_decide (sc_semantic_dispatch_key contract = dc_semantic_dispatch_key claim))
  || negb (bool_decide (semantic_dispatch_sha256 contract (ts_task_id task)
                        = dc_semantic_dispatch_key claim))
  || negb (bool_decide (sc_authority_mission_revision_sha256 contract
                        = dc_authority_mission_revision_sha256 claim))
  || negb (bool_decide (sc_delegated_input_sha256 contract = dc_delegated_input_sha256 claim))
  || negb (bool_decide (sc_task_context_capsule_semantic_sha256 contract
                        = dc_task_context_capsule_semantic_sha256 claim))
  || negb (bool_decide (task_plan_ready_set_sha256 task_plan
                        = dc_parent_task_plan_sha256 claim))
  || negb (bool_decide (contract_sha256 contract = dc_task_scheduling_contract_sha256 claim))
  || negb (bool_decide (scope_claim_sha256 contract = dc_scope_claim_sha256 claim)).

Definition decide_claim_scheduled_child_task self (expected_task_plan : TaskPlan)
    (claim : TaskDispatchClaimV1) (now : DateTime) : session_result SessionEvent :=
  let previous := sa_state self in
  let task_plan := sa_task_plan self in
  if is_err (Claim.validate claim)
     || negb (bool_decide (task_plan = expected_task_plan))
     || negb (scheduling_identities_valid task_plan)
  then refuse previous previous else
  match position (λ task, bool_decide (ts_task_id task = dc_task_id claim)
                          && direct_dispatch_eligible task now)
          (tp_detailed_tasks task_plan) with
  | None => refuse previous previous
  | Some index =>
      task ← or_panic (tp_detailed_tasks task_plan !! index);
      match ts_scheduling_contract task with
      | None => refuse previous previous
      | Some contract =>
          if claim_mismatch task_plan task contract claim then refuse previous previous else
          if negb (can_transition_to previous Running) then refuse previous Running else
          task ← advance_if_polling
                   task.{ts_status := Doing}.{ts_sub_session_id := dc_child_session_id claim}
                     .{ts_dispatch_claim := Some claim} now;
          mret (EvScheduledChildTaskClaimed
                  task_plan.{tp_detailed_tasks :=
                               <[index := task]> (tp_detailed_tasks task_plan)}
                  claim now Running)
      end
  end.

(** ** Child callbacks *)

Definition claim_matches_callback (acknowledgment : AcknowledgedChildCallbackIdentityV1)
    (task : TaskStep) : bool :=
  match ts_dispatch_claim task with
  | Some claim =>
      bool_decide (dc_task_id claim = ts_task_id task)
      && bool_decide (ts_sub_session_id task = ack_child_session_id acknowledgment)
      && matches_dispatch_claim acknowledgment claim
  | None => false
  end.

Definition mentions_child (acknowledgment : AcknowledgedChildCallbackIdentityV1)
    (task : TaskStep) : bool :=
  bool_decide (ts_sub_session_id task = ack_child_session_id acknowledgment)
  || match ts_dispatch_claim task with
     | Some claim =>
         bool_decide (dc_child_session_id claim = ack_child_session_id acknowledgment)
     | None => false
     end.

(** The indexes of the matching tasks, in order. *)
Definition matching_indexes (acknowledgment : AcknowledgedChildCallbackIdentityV1)
    (tasks : list TaskStep) : list nat :=
  omap (λ it, if claim_matches_callback acknowledgment it.2 then Some it.1 else None)
    (imap pair tasks).

Definition acknowledged_child_callback_task_index self
    (acknowledgment : AcknowledgedChildCallbackIdentityV1) : outcome string nat :=
  _ ← Ack.validate acknowledgment;
  let tasks := tp_detailed_tasks (sa_task_plan self) in
  matching_index ←
    match matching_indexes acknowledgment tasks with
    | [matching_index] => mret matching_index
    | [] =>
        if existsb (mentions_child acknowledgment) tasks
        then Err "ACKNOWLEDGED_CHILD_CALLBACK_DISPATCH_CLAIM_MISMATCH"
        else Err "ACKNOWLEDGED_CHILD_CALLBACK_DISPATCH_CLAIM_MISSING"
    | _ => Err "ACKNOWLEDGED_CHILD_CALLBACK_DISPATCH_CLAIM_AMBIGUOUS"
    end;
  task ← or_panic (tasks !! matching_index);
  match ts_status task with
  | Doing | Done | Archived => mret matching_index
  | Todo | WaitingUser | Question => Err "ACKNOWLEDGED_CHILD_CALLBACK_TASK_STATUS_CONFLICT"
  end.

Definition validate_acknowledged_child_callback self
    (acknowledgment : AcknowledgedChildCallbackIdentityV1) : outcome string unit :=
  _ ← acknowledged_child_callback_task_index self acknowledgment; mret tt.

Definition task_terminal (task : TaskStep) : bool :=
  match ts_status task with Done | Archived => true | _ => false end.

Definition decide_converge_callback self
    (acknowledgment : AcknowledgedChildCallbackIdentityV1) : session_result SessionEvent :=
  let previous := sa_state self in
  let task_plan := sa_task_plan self in
  match acknowledged_child_callback_task_index self acknowledgment with
  | Panic => Panic
  | OutOfFuel => OutOfFuel
  | Err _ => refuse previous previous
  | Ok matching_index =>
      task ← or_panic (tp_detailed_tasks task_plan !! matching_index);
      task ← match ts_status task with
             | Doing => mret task.{ts_status := Done}
             | Done | Archived => mret task
             | Todo | WaitingUser | Question => refuse previous previous
             end;
      let task_plan :=
        task_plan.{tp_detailed_tasks := <[matching_index := task]> (tp_detailed_tasks task_plan)} in
      let all_tasks_terminal := forallb task_terminal (tp_detailed_tasks task_plan) in
      let state :=
        if bool_decide (previous = Running)
           && negb (bool_decide (is_Some (sa_active_runtime_id self)))
           && all_tasks_terminal
        then Completed else previous in
      mret (EvAcknowledgedChildCallbackConverged acknowledgment task_plan state)
  end.

(** ** The reducer *)

Definition decide self (command : SessionCommand) : session_result SessionEvent :=
  match command with
  | CmdCreateSession task_plan => mret (EvSessionCreated task_plan)
  | CmdApplyRuntimeState next => decide_apply_runtime_state self next
  | CmdSubmitUserInput => decide_submit_user_input self
  | CmdStartUserTurn => decide_start_user_turn self
  | CmdQueueUserInputWhileBusy input => decide_queue_user_input self input
  | CmdConsumeQueuedUserInputs =>
      mret (EvQueuedUserInputsConsumed (sa_pending_user_inputs self))
  | CmdRuntimeStarted runtime_id => decide_runtime_started self runtime_id
  | CmdRuntimeRetried runtime_id fallback_from_id =>
      decide_runtime_retried self runtime_id fallback_from_id
  | CmdRuntimeCompleted runtime_id => decide_runtime_completed self runtime_id
  | CmdRuntimeFailed runtime_id => decide_runtime_failed self runtime_id
  | CmdRuntimeCancelled runtime_id => decide_runtime_cancelled self runtime_id
  | CmdRuntimeEnded runtime_id => decide_runtime_ended self runtime_id
  | CmdInterruptSession => decide_interrupt_session self
  | CmdCancelSession => mret (EvSessionCancelled Cancelled)
  | CmdRegisterChildSession parent_id => decide_register_child_session self parent_id
  | CmdForkSession parent_id => mret (EvSessionForked parent_id)
  | CmdApplyTaskStatus task_plan => mret (EvTaskPlanChanged task_plan)
  | CmdApplyTaskPatch patch generated_task_id now =>
      decide_apply_task_patch self patch generated_task_id now
  | CmdApplyTaskPatches tasks generated_task_ids now =>
      decide_apply_task_patches self tasks generated_task_ids now
  | CmdApplyTaskPlanPatch patch => decide_apply_task_plan_patch self patch
  | CmdStartScheduledTask task_id task_summary start_condition now =>
      decide_start_scheduled_task self task_id task_summary start_condition now
  | CmdClaimScheduledChildTask expected_task_plan claim now =>
      decide_claim_scheduled_child_task self expected_task_plan claim now
  | CmdConvergeAcknowledgedChildCallback acknowledgment =>
      decide_converge_callback self acknowledgment
  | CmdDeleteSession => mret EvSessionDeleted
  end.

(** [if !ids.contains(id) { ids.push(id) }]. *)
Definition remember_runtime self (runtime_id : string) : SessionAggregate :=
  if contains (sa_runtime_ids self) runtime_id then self
  else self.{sa_runtime_ids := sa_runtime_ids self ++ [runtime_id] }.

Definition apply self (event : SessionEvent) : SessionAggregate :=
  match event with
  | EvSessionCreated task_plan => self.{sa_task_plan := task_plan}
  | EvSessionDeleted => self
  | EvUserInputAccepted state | EvUserTurnStarted state =>
      self.{sa_state := state}.{sa_cancelled := false}
  | EvRuntimeStarted runtime_id state =>
      (remember_runtime self.{sa_state := state} runtime_id)
        .{sa_active_runtime_id := Some runtime_id}
  | EvRuntimeCompleted runtime_id state | EvRuntimeFailed runtime_id state =>
      (remember_runtime self.{sa_state := state} runtime_id).{sa_active_runtime_id := None}
  | EvRuntimeCancelled runtime_id state =>
      (remember_runtime self.{sa_state := state} runtime_id).{sa_active_runtime_id := None}
        .{sa_cancelled := true}.{sa_pending_user_inputs := [] }
  | EvRuntimeEnded runtime_id state =>
      (remember_runtime self.{sa_state := state} runtime_id).{sa_active_runtime_id := None}
  | EvRuntimeStateApplied state =>
      let self := self.{sa_state := state} in
      if is_terminal state then self.{sa_active_runtime_id := None} else self
  | EvSessionInterrupted state task_plan =>
      self.{sa_state := state}.{sa_task_plan := task_plan}
        .{sa_pending_user_inputs := [] }.{sa_active_runtime_id := None}
  | EvSessionCancelled state =>
      self.{sa_state := state}.{sa_cancelled := true}
        .{sa_pending_user_inputs := [] }.{sa_active_runtime_id := None}
  | EvChildSessionRegistered parent_id state =>
      self.{sa_parent_id := Some parent_id}.{sa_state := state}
  | EvSessionForked parent_id => self.{sa_parent_id := Some parent_id}
  | EvTaskPlanChanged task_plan => self.{sa_task_plan := task_plan}
  | EvUserInputQueued input =>
      self.{sa_pending_user_inputs := sa_pending_user_inputs self ++ [input] }
        .{sa_cancelled := false}
  | EvQueuedUserInputsConsumed _ => self.{sa_pending_user_inputs := [] }
  | EvScheduledTaskClaimed task_plan _ _ _ state
  | EvScheduledChildTaskClaimed task_plan _ _ state
  | EvAcknowledgedChildCallbackConverged _ task_plan state =>
      self.{sa_task_plan := task_plan}.{sa_state := state}
  end.

(** The aggregate after the command, and the event it produced. *)
Definition execute self (command : SessionCommand)
    : session_result (SessionAggregate * SessionEvent) :=
  event ← decide self command;
  mret (apply self event, event).

(** ** Replay *)

(** [result.is_ok_and(p)]; a panic inside unwinds through it. *)
Definition is_ok_and {E F A} (m : outcome E A) (p : A → bool) : outcome F bool :=
  match m with
  | Ok a => Ok (p a)
  | Err _ => Ok false
  | Panic => Panic
  | OutOfFuel => OutOfFuel
  end.

(** The date the scheduler must have run at, as far as the result shows it. *)
Definition replay_now {E} (task_plan : TaskPlan) (task_id : string) (task : TaskStep)
    : outcome E (option DateTime) :=
  match ts_start_condition task with
  | ScheduledTask => mret (Some (ts_start_at task))
  | PollingTask =>
      match find_task task_plan task_id with
      | None => mret None
      | Some result_task =>
          step ← or_panic
            (duration_seconds (Z.min (poll_seconds (ts_poll_interval task)) i64_max));
          mret (checked_sub_signed (ts_start_at result_task) step)
      end
  | SessionIdle => mret (Some MIN_UTC)
  | UserAction => mret None
  end.

Definition scheduled_replay_command {E} self (event : SessionEvent)
    : outcome E (option SessionCommand) :=
  match event with
  | EvScheduledTaskClaimed task_plan task_id _ _ _ =>
      match find_task (sa_task_plan self) task_id with
      | None => mret None
      | Some task =>
          now ← replay_now task_plan task_id task;
          match now with
          | None => mret None
          | Some now =>
              let command :=
                CmdStartScheduledTask task_id
                  (display_summary task (tp_plan_summary (sa_task_plan self)))
                  (ts_start_condition task) now in
              same ← is_ok_and (decide self command) (λ expected, bool_decide (expected = event));
              mret (if (same : bool) then Some command else None)
          end
      end
  | _ => mret None
  end.

(** A start may have been a retry: decided by what the reducer would say. *)
Definition runtime_started_command self (event : SessionEvent) (runtime_id : string)
    : outcome string SessionCommand :=
  let started := CmdRuntimeStarted runtime_id in
  same ← is_ok_and (decide self started) (λ expected, bool_decide (expected = event));
  mret (if (same : bool) then started
        else match last (sa_runtime_ids self) with
             | Some fallback_from_id => CmdRuntimeRetried runtime_id fallback_from_id
             | None => started
             end).

Definition as_command (event : SessionEvent) self : outcome string (option SessionCommand) :=
  match event with
  | EvSessionCreated _ | EvSessionForked _ => mret None
  | EvUserInputAccepted _ => mret (Some CmdSubmitUserInput)
  | EvUserTurnStarted _ => mret (Some CmdStartUserTurn)
  | EvUserInputQueued input => mret (Some (CmdQueueUserInputWhileBusy input))
  | EvQueuedUserInputsConsumed _ => mret (Some CmdConsumeQueuedUserInputs)
  | EvRuntimeStarted runtime_id _ =>
      command ← runtime_started_command self event runtime_id; mret (Some command)
  | EvRuntimeCompleted runtime_id _ => mret (Some (CmdRuntimeCompleted runtime_id))
  | EvRuntimeFailed runtime_id _ => mret (Some (CmdRuntimeFailed runtime_id))
  | EvRuntimeCancelled runtime_id _ => mret (Some (CmdRuntimeCancelled runtime_id))
  | EvRuntimeEnded runtime_id _ => mret (Some (CmdRuntimeEnded runtime_id))
  | EvRuntimeStateApplied state => mret (Some (CmdApplyRuntimeState state))
  | EvSessionInterrupted _ _ => mret (Some CmdInterruptSession)
  | EvSessionCancelled _ => mret (Some CmdCancelSession)
  | EvChildSessionRegistered parent_id _ => mret (Some (CmdRegisterChildSession parent_id))
  | EvTaskPlanChanged task_plan => mret (Some (CmdApplyTaskStatus task_plan))
  | EvScheduledTaskClaimed _ _ _ _ _ =>
      command ← scheduled_replay_command self event;
      match command with
      | Some command => mret (Some command)
      | None => Err "scheduled_task_claimed does not match a canonical scheduler result"
      end
  | EvScheduledChildTaskClaimed _ claim claimed_at _ =>
      mret (Some (CmdClaimScheduledChildTask (sa_task_plan self) claim claimed_at))
  | EvAcknowledgedChildCallbackConverged acknowledgment _ _ =>
      mret (Some (CmdConvergeAcknowledgedChildCallback acknowledgment))
  | EvSessionDeleted => mret (Some CmdDeleteSession)
  end.

(** [Display for SessionTransitionError]. *)
Definition state_debug (state : SessionState) : string :=
  match state with
  | Created => "Created" | Running => "Running" | Paused => "Paused"
  | Completed => "Completed" | Failed => "Failed" | Cancelled => "Cancelled"
  | Interrupted => "Interrupted"
  end.
Definition transition_error_to_string (error : SessionTransitionError) : string :=
  "invalid session state transition: " +:+ state_debug (te_previous error) +:+ " -> "
  +:+ state_debug (te_next error).

Definition apply_committed self (event : SessionEvent) : outcome string SessionAggregate :=
  _ ← reject_if (bool_decide (event = EvSessionDeleted))
        "session_deleted cannot appear in a retained session event stream";
  command ← as_command event self;
  command ← ok_or command "session creation events may only be the first session event";
  expected ← map_err transition_error_to_string (decide self command);
  _ ← reject_if (negb (bool_decide (expected = event)))
        "session event does not match the canonical reducer result";
  mret (apply self event).

Fixpoint apply_all self (events : list SessionEvent) : outcome string SessionAggregate :=
  match events with
  | [] => mret self
  | event :: rest => self ← apply_committed self event; apply_all self rest
  end.

Definition creation_command (event : SessionEvent) : outcome string SessionCommand :=
  match event with
  | EvSessionCreated task_plan => mret (CmdCreateSession task_plan)
  | EvChildSessionRegistered parent_id _ => mret (CmdRegisterChildSession parent_id)
  | EvSessionForked parent_id => mret (CmdForkSession parent_id)
  | _ => Err "first session event is not a creation event"
  end.

Definition replay (session_id : string) (events : list SessionEvent)
    : outcome string SessionAggregate :=
  match events with
  | [] => Err ("session " +:+ session_id +:+ " has no creation event")
  | first :: rest =>
      command ← creation_command first;
      let aggregate := new session_id in
      expected ← map_err transition_error_to_string (decide aggregate command);
      _ ← reject_if (negb (bool_decide (expected = first)))
            "session creation event does not match the canonical reducer result";
      apply_all (apply aggregate first) rest
  end.

(** ** Queries *)

Inductive SessionQuery := Lifecycle.

Record SessionProjection := MkSessionProjection {
  sp_session_id : string;
  sp_state : SessionState;
  sp_parent_id : option string;
  sp_task_plan : TaskPlan;
  sp_pending_user_inputs : list string;
  sp_cancelled : bool;
  sp_runtime_ids : list string;
  sp_active_runtime_id : option string;
}.

Definition query self (q : SessionQuery) : SessionProjection :=
  match q with
  | Lifecycle =>
      {| sp_session_id := sa_session_id self; sp_state := sa_state self;
         sp_parent_id := sa_parent_id self; sp_task_plan := sa_task_plan self;
         sp_pending_user_inputs := sa_pending_user_inputs self;
         sp_cancelled := sa_cancelled self; sp_runtime_ids := sa_runtime_ids self;
         sp_active_runtime_id := sa_active_runtime_id self |}
  end.
End Session.
