(* ===== verification/SessionReplay.v ===== *)
(** * Replay of session event streams

    What [execute] records, [replay] accepts and rebuilds; and [replay] accepts
    nothing the reducer could not have recorded. *)

From stdpp Require Import base list strings gmap.
From Stdlib Require Import ZArith Lia.
From S2P Require Import Prelude RustStd Externals Instances TaskData TaskSchedule.
From S2P Require Import TaskScheduleFacts TaskIdentity TaskPatch Session.
Open Scope Z_scope.

Section Replay.
Context `{ChronoLaws, SerdeJson, Sha2}.
Implicit Types (self : SessionAggregate) (command : SessionCommand) (event : SessionEvent).

Definition plan_tasks self : list TaskStep := tp_detailed_tasks (sa_task_plan self).

(** Commands whose events belong in a stream after its first event. *)
Definition stream_command command : bool :=
  match command with
  | CmdCreateSession _ | CmdForkSession _ | CmdDeleteSession => false
  | _ => true
  end.

(** Of these, the ones that replay: a scheduled start needs task identities to
    be distinct, since its event names the task by identity alone. *)
Definition replayable self command : Prop :=
  stream_command command = true ∧
  match command with
  | CmdStartScheduledTask _ _ _ _ => NoDup (task_ids (plan_tasks self))
  | _ => True
  end.

Definition creation command : bool :=
  match command with
  | CmdCreateSession _ | CmdRegisterChildSession _ | CmdForkSession _ => true
  | _ => false
  end.

(** ** A scheduled start determines its command *)

Lemma id_index_unique (tasks : list TaskStep) i j t t' :
  NoDup (task_ids tasks) → tasks !! i = Some t → tasks !! j = Some t' →
  ts_task_id t = ts_task_id t' → i = j.
Proof.
  intros Hnd Hi Hj He. eapply NoDup_lookup; [exact Hnd| |]; unfold task_ids;
    rewrite list_lookup_fmap; [rewrite Hi|rewrite Hj]; simpl; [done|by rewrite He].
Qed.

Lemma find_unique_id (plan : TaskPlan) i task :
  NoDup (task_ids (tp_detailed_tasks plan)) → tp_detailed_tasks plan !! i = Some task →
  find_task plan (ts_task_id task) = Some task.
Proof.
  intros Hnd Hi. unfold find_task. rewrite find_position.
  rewrite (position_first _ _ i task); [done|done|by apply bool_decide_eq_true|].
  intros j t Hj Ht. apply bool_decide_eq_false. intros He.
  pose proof (id_index_unique _ _ _ _ _ Hnd Ht Hi He). lia.
Qed.

Lemma advance_if_polling_Ok (task task' : TaskStep) now :
  advance_if_polling task now = Ok task' →
  task' = task.{ts_start_at := ts_start_at task'} ∧
  match ts_start_condition task with
  | PollingTask => advance_polling_start (E:=SessionTransitionError) task now = Ok task'
  | _ => task' = task
  end.
Proof.
  unfold advance_if_polling. destruct (ts_start_condition task) eqn:Hc; intros Hr;
    try (injection Hr as <-; split; [by destruct task|done]).
  split; [|done]. pose proof (advance_polling_start_cases (E:=SessionTransitionError) task now) as Ha.
  rewrite Hr in Ha. destruct Ha as (next & _ & -> & _). done.
Qed.

(** The parts of a successful scheduled start. *)
Lemma decide_start_Ok self id summary condition now event :
  decide_start_scheduled_task self id summary condition now = Ok event →
  ∃ i task task',
    position (scheduled_task_matches self id summary condition now) (plan_tasks self) = Some i ∧
    plan_tasks self !! i = Some task ∧
    ts_task_id task = id ∧ ts_start_condition task = condition ∧
    display_summary task (tp_plan_summary (sa_task_plan self)) = summary ∧
    scheduler_eligible task now = true ∧
    can_transition_to (sa_state self) Running = true ∧
    advance_if_polling task.{ts_status := Doing} now = Ok task' ∧
    event = EvScheduledTaskClaimed
              (sa_task_plan self).{tp_detailed_tasks := <[i := task']> (plan_tasks self)}
              id summary condition Running.
Proof.
  unfold decide_start_scheduled_task. destruct (position _ _) as [i|] eqn:Hpos; [|done].
  destruct (position_Some _ _ _ Hpos) as (task & Hi & Hm & _).
  unfold scheduled_task_matches in Hm. guards.
  destruct (can_transition_to _ _) eqn:Hcan; simpl; [|done].
  rewrite Hi. simpl. intros Hr. outcome_inv. by eexists i, task, _.
Qed.

Lemma decide_start_intro self i task task' now :
  NoDup (task_ids (plan_tasks self)) →
  plan_tasks self !! i = Some task →
  scheduler_eligible task now = true →
  can_transition_to (sa_state self) Running = true →
  advance_if_polling task.{ts_status := Doing} now = Ok task' →
  let summary := display_summary task (tp_plan_summary (sa_task_plan self)) in
  decide_start_scheduled_task self (ts_task_id task) summary (ts_start_condition task) now
  = Ok (EvScheduledTaskClaimed
          (sa_task_plan self).{tp_detailed_tasks := <[i := task']> (plan_tasks self)}
          (ts_task_id task) summary (ts_start_condition task) Running).
Proof.
  intros Hnd Hi He Hcan Ha summary. unfold decide_start_scheduled_task.
  rewrite (position_first _ _ i task); [|done| |].
  - rewrite Hcan. unfold plan_tasks in Hi. rewrite Hi. simpl. rewrite Ha. done.
  - unfold scheduled_task_matches. by rewrite !bool_decide_eq_true_2, He.
  - intros j t Hj Ht. unfold scheduled_task_matches.
    rewrite bool_decide_eq_false_2; [done|]. intros Heq.
    pose proof (id_index_unique _ _ _ _ _ Hnd Ht Hi Heq). lia.
Qed.

(** The date replay picks is one at which the scheduler gives the same result. *)
Lemma replay_now_again (plan : TaskPlan) i (task task' : TaskStep) now :
  NoDup (task_ids (tp_detailed_tasks plan)) →
  tp_detailed_tasks plan !! i = Some task →
  scheduler_eligible task now = true →
  advance_if_polling task.{ts_status := Doing} now = Ok task' →
  ∃ now', replay_now (E:=string) plan.{tp_detailed_tasks := <[i := task']> (tp_detailed_tasks plan)}
            (ts_task_id task) task = Ok (Some now') ∧
    scheduler_eligible task now' = true ∧
    advance_if_polling task.{ts_status := Doing} now' = Ok task'.
Proof.
  intros Hnd Hi He Ha. destruct (advance_if_polling_Ok _ _ _ Ha) as [Ht Hcase].
  unfold replay_now. unfold scheduler_eligible in *. simpl in Hcase.
  unfold advance_if_polling in *. simpl in *.
  destruct (ts_start_condition task) eqn:Hc.
  - exists MIN_UTC. split_and!; [done|by destruct (ts_status task)|done].
  - by destruct (ts_status task).
  - exists (ts_start_at task). split_and!; [done| |done].
    rewrite (proj2 (dt_leb_nanos _ _)) by lia. destruct (ts_status task); done.
  - destruct (advance_polling_start_again (F:=SessionTransitionError) _ _ _ Hcase)
      as (step & prev & Hd & Hsub & Hle & Hagain). simpl in *.
    assert (Hid : ts_task_id task' = ts_task_id task) by (rewrite Ht; done).
    rewrite <- Hid. rewrite (find_unique_id _ i task'); simpl.
    + rewrite Hd. simpl. rewrite Hsub. exists prev. split_and!; [done| |done].
      rewrite Hle. by destruct (ts_status task).
    + unfold task_ids. rewrite list_fmap_insert, list_insert_id; [done|].
      rewrite list_lookup_fmap, Hi. simpl. congruence.
    + apply list_lookup_insert_eq. by eapply lookup_lt_Some.
Qed.

Lemma scheduled_replay_command_again self id summary condition now event :
  NoDup (task_ids (plan_tasks self)) →
  decide_start_scheduled_task self id summary condition now = Ok event →
  ∃ command, scheduled_replay_command (E:=string) self event = Ok (Some command) ∧
             decide self command = Ok event.
Proof.
  intros Hnd (i & task & task' & _ & Hi & <- & <- & <- & He & Hcan & Ha & ->)%decide_start_Ok.
  destruct (replay_now_again _ i _ _ _ Hnd Hi He Ha) as (now' & Hnow & He' & Ha').
  pose proof (decide_start_intro _ i _ _ _ Hnd Hi He' Hcan Ha') as Hd. cbv zeta in Hd.
  unfold scheduled_replay_command. rewrite (find_unique_id _ i task Hnd Hi).
  unfold plan_tasks in *. rewrite Hnow. cbn [mbind outcome_bind].
  cbn [decide]. rewrite Hd. cbn [is_ok_and mbind outcome_bind].
  rewrite bool_decide_eq_true_2 by done. eexists. split; [done|]. cbn [decide]. exact Hd.
Qed.

(** ** Every command replays *)

Lemma runtime_started_again self id event :
  decide self (CmdRuntimeStarted id) = Ok event →
  event = EvRuntimeStarted id Running ∧
  runtime_started_command self event id = Ok (CmdRuntimeStarted id).
Proof.
  intros Hd. unfold runtime_started_command. rewrite Hd. simpl.
  rewrite bool_decide_eq_true_2 by done. split; [|done].
  simpl in Hd. unfold decide_runtime_started in Hd. case_match; [done|]. by outcome_inv.
Qed.

Lemma runtime_retried_again self id from event :
  decide self (CmdRuntimeRetried id from) = Ok event →
  event = EvRuntimeStarted id Running ∧
  runtime_started_command self event id = Ok (CmdRuntimeRetried id from).
Proof.
  intros Hd. simpl in Hd. unfold decide_runtime_retried in Hd.
  case_match eqn:Hg; [done|]. guards. outcome_inv. split; [done|].
  unfold runtime_started_command. simpl. unfold decide_runtime_started.
  match goal with Hs : sa_state self = Failed |- _ => rewrite Hs end.
  rewrite orb_true_r. simpl.
  match goal with Hl : last _ = _ |- _ => by rewrite Hl end.
Qed.

(** An accepted command's event names a command that decides it again. *)
Lemma decide_again self command event :
  replayable self command → decide self command = Ok event →
  event ≠ EvSessionDeleted ∧
  ∃ command', as_command event self = Ok (Some command') ∧ decide self command' = Ok event.
Proof.
  intros [Hs Hr] Hd. destruct command; try discriminate Hs; clear Hs.
  all: try (cbn [decide] in Hd;
    unfold decide_apply_runtime_state, decide_submit_user_input, decide_start_user_turn,
      decide_runtime_completed, decide_runtime_failed, decide_runtime_cancelled,
      decide_runtime_ended, decide_interrupt_session, decide_register_child_session in Hd;
    try (case_match; [discriminate Hd|]); injection Hd as <-;
    split; [done|]; eexists; split; [done|]; cbn [decide];
    unfold decide_apply_runtime_state, decide_submit_user_input, decide_start_user_turn,
      decide_runtime_completed, decide_runtime_failed, decide_runtime_cancelled,
      decide_runtime_ended, decide_interrupt_session, decide_register_child_session;
    by repeat match goal with Hg : _ = false |- _ => rewrite Hg; clear Hg end).
  - cbn [decide] in Hd. unfold decide_queue_user_input in Hd. case_match eqn:Hg; [done|].
    injection Hd as <-. split; [done|]. eexists. split; [done|]. cbn [decide].
    unfold decide_queue_user_input. by rewrite trim_idemp, Hg.
  - destruct (runtime_started_again _ _ _ Hd) as [-> Hc]. split; [done|].
    cbn [as_command]. rewrite Hc. cbn. eauto.
  - destruct (runtime_retried_again _ _ _ _ Hd) as [-> Hc]. split; [done|].
    cbn [as_command]. rewrite Hc. cbn. eauto.
  - cbn [decide] in Hd. unfold decide_apply_task_patch in Hd. outcome_inv. eauto.
  - cbn [decide] in Hd. unfold decide_apply_task_patches in Hd. outcome_inv. eauto.
  - cbn [decide] in Hd. unfold decide_apply_task_plan_patch in Hd.
    case_match; outcome_inv; eauto.
  - cbn [decide] in Hd. destruct (scheduled_replay_command_again _ _ _ _ _ _ Hr Hd)
      as (c & Hc & Hdc).
    apply decide_start_Ok in Hd as (i & task & task' & _ & _ & _ & _ & _ & _ & _ & _ & ->).
    split; [done|]. cbn [as_command]. rewrite Hc. cbn. eauto.
  - pose proof Hd as Hd'. cbn [decide] in Hd. unfold decide_claim_scheduled_child_task in Hd.
    case_match eqn:Hg; [done|]. guards. subst.
    assert (∃ plan', event = EvScheduledChildTaskClaimed plan' claim now Running) as [plan' ->].
    { clear Hd'. repeat (case_match; try done); outcome_inv; repeat (case_match; try done);
        outcome_inv; eauto. }
    split; [done|]. eexists. split; [done|]. exact Hd'.
  - pose proof Hd as Hd'. cbn [decide] in Hd. unfold decide_converge_callback in Hd.
    assert (∃ plan' st, event = EvAcknowledgedChildCallbackConverged acknowledgment plan' st)
      as (plan' & st & ->).
    { clear Hd'. case_match; try done. outcome_inv. eauto. }
    split; [done|]. eexists. split; [done|]. exact Hd'.
Qed.

Lemma session_execute_Ok self command self' event :
  execute self command = Ok (self', event) ↔
  decide self command = Ok event ∧ self' = apply self event.
Proof.
  unfold execute. split.
  - intros Hr. outcome_inv. naive_solver.
  - intros [Hd ->]. by rewrite Hd.
Qed.

Lemma apply_committed_again self command self' event :
  replayable self command → execute self command = Ok (self', event) →
  apply_committed self event = Ok self'.
Proof.
  intros Hr [Hd ->]%session_execute_Ok. destruct (decide_again _ _ _ Hr Hd) as (Hn & c & Hc & Hdc).
  unfold apply_committed. rewrite (bool_decide_eq_false_2 (event = _)) by done. cbn.
  rewrite Hc. cbn. rewrite Hdc. cbn. by rewrite bool_decide_eq_true_2.
Qed.

(** Conversely, what replay accepts the reducer records. *)
Lemma apply_committed_sound self event self' :
  apply_committed self event = Ok self' →
  ∃ command, stream_command command = true ∧ execute self command = Ok (self', event).
Proof.
  unfold apply_committed. intros Hr. outcome_inv. guards. subst.
  match goal with Hc : as_command _ _ = Ok (Some ?c), Hd : map_err _ (decide self ?c) = Ok _ |- _ =>
    exists c; split;
    [clear Hd; rename Hc into Hcmd
    |apply session_execute_Ok; destruct (decide self c); simpl in Hd; try discriminate Hd;
     by injection Hd as ->] end.
  destruct event; cbn [as_command] in Hcmd; try discriminate Hcmd;
    try (injection Hcmd as <-; done).
  - outcome_inv. unfold runtime_started_command in *. outcome_inv. repeat case_match; simplify_eq; done.
  - unfold scheduled_replay_command in Hcmd. outcome_inv. repeat case_match; outcome_inv;
      repeat case_match; outcome_inv; simplify_eq; try done.
    repeat case_match; simplify_eq; done.
Qed.

(** ** Streams *)

(** [history admissible self events self']: from [self], admissible commands
    recorded [events] and left [self']. *)
Inductive history (admissible : SessionAggregate → SessionCommand → Prop)
    : SessionAggregate → list SessionEvent → SessionAggregate → Prop :=
| history_nil self : history admissible self [] self
| history_cons self command self1 event events self2 :
    admissible self command → execute self command = Ok (self1, event) →
    history admissible self1 events self2 → history admissible self (event :: events) self2.

(** A session's whole stream: a creating command on the fresh aggregate first. *)
Inductive session_history (admissible : SessionAggregate → SessionCommand → Prop)
    (session_id : string) : list SessionEvent → SessionAggregate → Prop :=
| session_history_intro command self1 event events self2 :
    creation command = true → execute (new session_id) command = Ok (self1, event) →
    history admissible self1 events self2 →
    session_history admissible session_id (event :: events) self2.

Lemma creation_again session_id command self1 event :
  creation command = true → execute (new session_id) command = Ok (self1, event) →
  creation_command event = Ok command.
Proof.
  intros Hc [Hd _]%session_execute_Ok. destruct command; try discriminate Hc; simpl in Hd;
    by injection Hd as <-.
Qed.

Lemma apply_all_complete self events self' :
  history replayable self events self' → apply_all self events = Ok self'.
Proof.
  induction 1 as [|self command self1 event events self2 Hr He _ IH]; [done|].
  cbn [apply_all]. by rewrite (apply_committed_again _ _ _ _ Hr He).
Qed.

Lemma apply_all_sound self events self' :
  apply_all self events = Ok self' → history (λ _ c, stream_command c = true) self events self'.
Proof.
  revert self. induction events as [|event events IH]; intros self; cbn [apply_all].
  - intros [= ->]. constructor.
  - intros Hr. outcome_inv.
    match goal with Hc : apply_committed _ _ = _ |- _ =>
      apply apply_committed_sound in Hc as (c & Hs & He) end.
    by eapply history_cons; [exact Hs|exact He|apply IH].
Qed.

(** C3: Session replay is complete.  Take any session history: a creating
    command, then any sequence of commands, of which the ones that can appear
    in a stream, each accepted; where a scheduled task is started, task
    identities are distinct.  Replaying the recorded events gives exactly the
    aggregate the commands left, including the dates of polled tasks, which
    the stream does not record the clock for. *)
Theorem session_replay_complete session_id events self :
  session_history replayable session_id events self →
  replay session_id events = Ok self.
Proof.
  destruct 1 as [command self1 event events self2 Hc He Hh]. unfold replay.
  rewrite (creation_again _ _ _ _ Hc He). apply session_execute_Ok in He as [Hd ->].
  cbn [mbind outcome_bind]. rewrite Hd. cbn. rewrite bool_decide_eq_true_2 by done. cbn.
  by apply apply_all_complete.
Qed.

(** Session replay is sound.  If a stream replays to an aggregate, then
    commands exist that record exactly this stream and leave exactly this
    aggregate: a stored stream cannot bring a session into a state the reducer
    does not reach. *)
Theorem session_replay_sound session_id events self :
  replay session_id events = Ok self →
  session_history (λ _ c, stream_command c = true) session_id events self.
Proof.
  unfold replay. destruct events as [|event events]; [done|]. intros Hr. outcome_inv. guards.
  subst. match goal with Hc : creation_command event = Ok ?c, Hd : map_err _ _ = Ok event |- _ =>
    apply (session_history_intro _ _ c (apply (new session_id) event));
    [destruct event; simpl in Hc; try discriminate Hc; by injection Hc as <-
    |apply session_execute_Ok; destruct (decide _ c); simpl in Hd; try discriminate Hd; by injection Hd as ->
    |by apply apply_all_sound] end.
Qed.
End Replay.
