(* ===== verification/SessionFacts.v ===== *)
(** * Correctness of the session aggregate

    The invariant of every reachable session, the transition rules of ended
    sessions, totality of the reducer, exactly-once dispatch of planned tasks
    and the convergence of child callbacks. *)

From stdpp Require Import base list strings gmap.
From Stdlib Require Import ZArith Lia.
From S2P Require Import Prelude RustStd Externals Instances TaskData TaskSchedule.
From S2P Require Import TaskScheduleFacts TaskIdentity TaskPatch TaskPatchFacts Session.
From S2P Require Import SessionReplay.
Open Scope Z_scope.

Section Invariant.
Context `{ChronoLaws, SerdeJson, Sha2}.
Implicit Types (self : SessionAggregate) (command : SessionCommand) (event : SessionEvent).

(** A session that is executing has the runtime it executes among its
    runtimes; runtimes are remembered once each, under proper names; queued
    inputs are trimmed and not empty; a session marked cancelled is in the
    cancelled state and has nothing queued. *)
Record session_ok self : Prop := {
  ok_active r :
    sa_active_runtime_id self = Some r →
    is_recoverable_running (sa_state self) = true ∧ r ∈ sa_runtime_ids self;
  ok_runtimes :
    NoDup (sa_runtime_ids self) ∧ Forall (λ r, is_blank r = false) (sa_runtime_ids self);
  ok_inputs :
    Forall (λ input, trim input = input ∧ is_empty input = false) (sa_pending_user_inputs self);
  ok_cancelled :
    sa_cancelled self = true → sa_state self = Cancelled ∧ sa_pending_user_inputs self = [];
}.

Definition runtimes_ok (ids : list string) : Prop :=
  NoDup ids ∧ Forall (λ r, is_blank r = false) ids.

Lemma remember_runtime_ok self id :
  is_blank id = false → runtimes_ok (sa_runtime_ids self) →
  runtimes_ok (sa_runtime_ids (remember_runtime self id)) ∧
  id ∈ sa_runtime_ids (remember_runtime self id).
Proof.
  intros Hb [Hnd Hall]. unfold remember_runtime, contains. case_bool_decide as Hin; [done|].
  simpl. split; [|apply elem_of_app; right; left]. split.
  - apply NoDup_app. split_and!; [done| |apply NoDup_singleton].
    intros x Hx Hx'%list_elem_of_singleton. by subst.
  - apply Forall_app. split; [done|]. by constructor.
Qed.

Lemma remember_runtime_other self id :
  sa_state (remember_runtime self id) = sa_state self ∧
  sa_pending_user_inputs (remember_runtime self id) = sa_pending_user_inputs self ∧
  sa_cancelled (remember_runtime self id) = sa_cancelled self.
Proof. unfold remember_runtime. by case_match. Qed.

(** After the event of a runtime that ended, none is active. *)
Lemma runtime_over_ok self id state :
  session_ok self → is_blank id = false → (sa_cancelled self = true → state = Cancelled) →
  session_ok (remember_runtime self.{sa_state := state} id).{sa_active_runtime_id := None}.
Proof.
  intros [Ha Hr Hi Hc] Hb Hcan.
  destruct (remember_runtime_ok self.{sa_state := state} id Hb) as [Hok _]; [exact Hr|].
  destruct (remember_runtime_other self.{sa_state := state} id) as (Hst & Hp & Hcn).
  split; simpl; rewrite ?Hst, ?Hp, ?Hcn; simpl; [done|exact Hok|done|].
  intros Hx. split; [by apply Hcan|by apply Hc].
Qed.

Lemma cancel_ok self :
  session_ok self → sa_state self = Cancelled → sa_active_runtime_id self = None →
  session_ok self.{sa_cancelled := true}.{sa_pending_user_inputs := [] }.
Proof. intros [Ha Hr Hi Hc] Hs Hn. by split; simpl; [congruence|..]. Qed.

Lemma runtime_started_ok self id :
  session_ok self → is_blank id = false → sa_cancelled self = false →
  session_ok (apply self (EvRuntimeStarted id Running)).
Proof.
  intros [Ha Hr Hi Hc] Hb Hcan.
  destruct (remember_runtime_ok self.{sa_state := Running} id Hb) as [Hok Hin]; [exact Hr|].
  destruct (remember_runtime_other self.{sa_state := Running} id) as (Hst & Hp & Hcn).
  split; simpl; rewrite ?Hst, ?Hp, ?Hcn; simpl; [|exact Hok|done|congruence].
  intros r [= <-]. done.
Qed.

Lemma runtime_terminal_matches_id self id next :
  runtime_terminal_matches self id next = true → is_blank id = false.
Proof. unfold runtime_terminal_matches. by case_match. Qed.

(** No transition leads out of a state that [can_transition_to] closes. *)
Lemma not_cancelled_before self next :
  session_ok self → can_transition_to (sa_state self) next = true → sa_cancelled self = false.
Proof.
  intros [_ _ _ Hc] Ht. destruct (sa_cancelled self); [|done].
  destruct (Hc eq_refl) as [Hs _]. by rewrite Hs in Ht.
Qed.

Lemma session_ok_plan self plan state :
  session_ok self →
  (sa_state self = state ∨
   sa_cancelled self = false ∧
   (is_recoverable_running state = true ∨ sa_active_runtime_id self = None)) →
  session_ok self.{sa_task_plan := plan}.{sa_state := state}.
Proof.
  intros [Ha Hr Hi Hc] Hst. split; simpl; [|done|done|].
  - intros r Hact. destruct (Ha r Hact) as [Hrun Hin]. split; [|done].
    destruct Hst as [<-|[_ [?|Hn]]]; [done..|congruence].
  - intros Hcan. destruct Hst as [<-|[Hn _]]; [by apply Hc|congruence].
Qed.

Lemma claim_validate_settles claim : settles (Claim.validate claim).
Proof. unfold Claim.validate. auto with lifecycle. Qed.

(** The reducer's events by the handler that produced them. *)
Lemma decide_claim_Ok self plan claim now event :
  decide_claim_scheduled_child_task self plan claim now = Ok event →
  ∃ i task contract task',
    is_ok (Claim.validate claim) = true ∧ sa_task_plan self = plan ∧
    scheduling_identities_valid (sa_task_plan self) = true ∧
    plan_tasks self !! i = Some task ∧ ts_task_id task = dc_task_id claim ∧
    direct_dispatch_eligible task now = true ∧
    ts_scheduling_contract task = Some contract ∧
    claim_mismatch (sa_task_plan self) task contract claim = false ∧
    can_transition_to (sa_state self) Running = true ∧
    advance_if_polling
      task.{ts_status := Doing}.{ts_sub_session_id := dc_child_session_id claim}
        .{ts_dispatch_claim := Some claim} now = Ok task' ∧
    event = EvScheduledChildTaskClaimed
              (sa_task_plan self).{tp_detailed_tasks := <[i := task']> (plan_tasks self)}
              claim now Running.
Proof.
  unfold decide_claim_scheduled_child_task. case_match eqn:Hg; [done|]. guards.
  destruct (position _ _) as [i|] eqn:Hpos; [|done].
  destruct (position_Some _ _ _ Hpos) as (task & Hi & Hm & _). guards. rewrite Hi. simpl.
  destruct (ts_scheduling_contract task) as [contract|] eqn:Hct; [|done].
  destruct (claim_mismatch _ _ _ _) eqn:Hmis; [done|].
  destruct (can_transition_to _ _) eqn:Hcan; simpl; [|done].
  intros Hr. outcome_inv. eexists i, task, contract, _. split_and!; try done.
  apply settles_not_err; [apply claim_validate_settles|done].
Qed.

Lemma decide_converge_Ok self ack event :
  decide_converge_callback self ack = Ok event →
  ∃ i task,
    acknowledged_child_callback_task_index self ack = Ok i ∧
    plan_tasks self !! i = Some task ∧
    (ts_status task = Doing ∨ ts_status task = Done ∨ ts_status task = Archived) ∧
    let task' := if bool_decide (ts_status task = Doing) then task.{ts_status := Done} else task in
    let tasks' := <[i := task']> (plan_tasks self) in
    event = EvAcknowledgedChildCallbackConverged ack
              (sa_task_plan self).{tp_detailed_tasks := tasks'}
              (if bool_decide (sa_state self = Running)
                  && negb (bool_decide (is_Some (sa_active_runtime_id self)))
                  && forallb task_terminal tasks'
               then Completed else sa_state self).
Proof.
  unfold decide_converge_callback.
  destruct (acknowledged_child_callback_task_index self ack) as [i|e| |] eqn:Hi; try done.
  intros Hr. outcome_inv. eexists i, _. split; [done|]. split; [done|].
  destruct (ts_status _) eqn:Hs; try discriminate; outcome_inv; (split; [auto|]); done.
Qed.

Lemma execute_session_ok self command self' event :
  session_ok self → execute self command = Ok (self', event) → session_ok self'.
Proof.
  intros Hok [Hd ->]%session_execute_Ok. pose proof Hok as [Ha Hr Hi Hc].
  destruct command; cbn [decide] in Hd.
  - (* CreateSession *) injection Hd as <-. by split.
  - (* SubmitUserInput *) injection Hd as <-. split; simpl; [|done|done|done].
    intros r Hact. destruct (Ha r Hact) as [Hrun Hin]. split; [|done].
    by destruct (sa_state self).
  - (* StartUserTurn *) unfold decide_start_user_turn in Hd. case_match; [done|].
    injection Hd as <-. split; simpl; [|done|done|done].
    intros r Hact. destruct (Ha r Hact) as [Hrun Hin]. congruence.
  - (* QueueUserInputWhileBusy *) unfold decide_queue_user_input in Hd.
    case_match; [done|]. guards. injection Hd as <-. split; simpl; [done|done| |done].
    apply Forall_app. split; [done|]. constructor; [|constructor]. by rewrite trim_idemp.
  - (* ConsumeQueuedUserInputs *) injection Hd as <-. split; simpl; [done|done|constructor|].
    intros Hcan. by destruct (Hc Hcan).
  - (* RuntimeStarted *) unfold decide_runtime_started in Hd. case_match; [done|].
    guards. injection Hd as <-. apply runtime_started_ok; [done..|].
    by eapply not_cancelled_before.
  - (* RuntimeRetried *) unfold decide_runtime_retried in Hd. case_match; [done|].
    guards. injection Hd as <-. apply runtime_started_ok; [done|done|].
    destruct (sa_cancelled self); [|done]. destruct (Hc eq_refl). congruence.
  - (* RuntimeCompleted *) unfold decide_runtime_completed in Hd. case_match; [done|]. guards.
    injection Hd as <-. apply runtime_over_ok; [done|by eapply runtime_terminal_matches_id|].
    intros Hx. erewrite not_cancelled_before in Hx; done.
  - (* RuntimeFailed *) unfold decide_runtime_failed in Hd. case_match eqn:Hg; [done|].
    apply orb_false_iff in Hg as [Hm Hg]. guards.
    injection Hd as <-. apply runtime_over_ok; [done|by eapply runtime_terminal_matches_id|].
    intros Hx. destruct (Hc Hx) as [Hs _]. by rewrite Hs in Hg.
  - (* RuntimeCancelled *) unfold decide_runtime_cancelled in Hd. case_match eqn:Hg; [done|].
    apply orb_false_iff in Hg as [Hm _]. guards.
    injection Hd as <-. apply cancel_ok; [apply runtime_over_ok| |done]; [done| |done|].
    { by eapply runtime_terminal_matches_id. }
    simpl. by rewrite (proj1 (remember_runtime_other _ _)).
  - (* RuntimeEnded *) unfold decide_runtime_ended in Hd. case_match; [done|]. guards.
    injection Hd as <-. apply runtime_over_ok; [done|done|]. intros Hx. by apply Hc.
  - (* ApplyRuntimeState *) unfold decide_apply_runtime_state in Hd. case_match eqn:Hg; [done|].
    injection Hd as <-. apply orb_false_iff in Hg as [Hg Ht]. guards.
    assert (Hcan : sa_cancelled self = false) by (by eapply not_cancelled_before).
    simpl. destruct (is_terminal state) eqn:Hterm; split; simpl; try done; try congruence.
    intros r Hact. destruct (Ha r Hact) as [Hrun Hin]. split; [|done].
    rewrite Hact, Hrun, bool_decide_eq_true_2 in Hg by eauto.
    by destruct (is_recoverable_running state).
  - (* InterruptSession *) injection Hd as <-. split; simpl; [done|done|constructor|].
    intros Hx. destruct (Hc Hx) as [Hs _]. by rewrite Hs.
  - (* CancelSession *) injection Hd as <-. by split; simpl; [..|constructor|].
  - (* RegisterChildSession *) unfold decide_register_child_session in Hd.
    case_match; [done|]. guards. injection Hd as <-.
    assert (sa_cancelled self = false) by (by eapply not_cancelled_before).
    split; simpl; [|done|done|congruence]. intros r Hact. split; [done|by apply Ha].
  - (* ForkSession *) injection Hd as <-. by split.
  - (* ApplyTaskStatus *) injection Hd as <-. by split.
  - (* ApplyTaskPatch *) unfold decide_apply_task_patch in Hd. outcome_inv. by split.
  - (* ApplyTaskPatches *) unfold decide_apply_task_patches in Hd. outcome_inv. by split.
  - (* ApplyTaskPlanPatch *) unfold decide_apply_task_plan_patch in Hd.
    case_match; outcome_inv; by split.
  - (* StartScheduledTask *)
    apply decide_start_Ok in Hd as (i & t & t' & _ & _ & _ & _ & _ & _ & Hcan & _ & ->).
    apply session_ok_plan; [done|]. right. split; [|by left]. by eapply not_cancelled_before.
  - (* ClaimScheduledChildTask *)
    apply decide_claim_Ok in Hd as (i & t & c & t' & _ & _ & _ & _ & _ & _ & _ & _ & Hcan & _ & ->).
    apply session_ok_plan; [done|]. right. split; [|by left]. by eapply not_cancelled_before.
  - (* ConvergeAcknowledgedChildCallback *)
    apply decide_converge_Ok in Hd as (i & t & _ & _ & _ & ->).
    apply session_ok_plan; [done|]. case_match eqn:Hg; [right|by left]. guards.
    split; [|right; by apply eq_None_not_Some].
    destruct (sa_cancelled self); [|done]. destruct (Hc eq_refl). congruence.
  - (* DeleteSession *) by injection Hd as <-.
Qed.

Lemma new_session_ok session_id : session_ok (new session_id).
Proof. split; simpl; try done. split; constructor. Qed.

Lemma history_session_ok admissible self events self' :
  session_ok self → history admissible self events self' → session_ok self'.
Proof.
  intros Hok Hh. induction Hh as [|self c self1 ev evs self2 _ He _ IH]; [done|].
  apply IH. by eapply execute_session_ok.
Qed.

(** C32: The session invariant holds in every reachable session, whatever the
    commands, accepted in whatever order: an active runtime implies that the
    session is running or paused and the runtime is one of the session's;
    runtime identifiers are distinct and not blank; queued inputs are trimmed
    and not empty; and the cancelled flag implies the cancelled state and an
    empty queue. *)
Theorem reachable_session_ok session_id events self :
  session_history (λ _ _, True) session_id events self → session_ok self.
Proof.
  destruct 1 as [command self1 event events self2 _ He Hh].
  eapply history_session_ok; [|exact Hh]. eapply execute_session_ok; [|exact He].
  apply new_session_ok.
Qed.

(** An ended session stays as it ended.  In the failed, cancelled or
    interrupted state every accepted command leaves the state alone, except
    the ones that begin anew: a user input (to [Created]) or user turn (to
    [Running]), a retry of a failed runtime, and cancellation. *)
Theorem ended_session_stays self command self' event :
  (sa_state self = Failed ∨ sa_state self = Cancelled ∨ sa_state self = Interrupted) →
  execute self command = Ok (self', event) →
  match command with
  | CmdSubmitUserInput => sa_state self' = Created
  | CmdStartUserTurn => sa_state self' = Running
  | CmdRuntimeRetried _ _ => sa_state self = Failed ∧ sa_state self' = Running
  | CmdCancelSession => sa_state self' = Cancelled
  | _ => sa_state self' = sa_state self
  end.
Proof.
  intros Hend [Hd ->]%session_execute_Ok.
  assert (Hcan : ∀ next, can_transition_to (sa_state self) next = false).
  { intros next. by destruct Hend as [->|[->| ->]]. }
  destruct command; cbn [decide] in Hd.
  all: try (injection Hd as <-; simpl; first [done|destruct Hend as [->|[->| ->]]; done]).
  - unfold decide_start_user_turn in Hd. case_match; [done|]. by injection Hd as <-.
  - unfold decide_queue_user_input in Hd. case_match; [done|]. by injection Hd as <-.
  - unfold decide_runtime_started in Hd. by rewrite Hcan, orb_true_r in Hd.
  - unfold decide_runtime_retried in Hd. case_match; [done|]. guards. injection Hd as <-.
    split; [done|]. exact (proj1 (remember_runtime_other _ _)).
  - unfold decide_runtime_completed in Hd. by rewrite Hcan, orb_true_r in Hd.
  - unfold decide_runtime_failed in Hd. rewrite Hcan in Hd. case_match eqn:Hg; [done|].
    apply orb_false_iff in Hg as [_ Hg]. rewrite andb_true_r in Hg. guards. injection Hd as <-.
    rewrite Hg. exact (proj1 (remember_runtime_other _ _)).
  - unfold decide_runtime_cancelled in Hd. rewrite Hcan in Hd. case_match eqn:Hg; [done|].
    apply orb_false_iff in Hg as [_ Hg]. rewrite andb_true_r in Hg. guards. injection Hd as <-.
    rewrite Hg. exact (proj1 (remember_runtime_other _ _)).
  - unfold decide_runtime_ended in Hd. case_match; [done|]. injection Hd as <-.
    exact (proj1 (remember_runtime_other _ _)).
  - unfold decide_apply_runtime_state in Hd. cbv zeta in Hd. by rewrite Hcan, orb_true_r in Hd.
  - unfold decide_register_child_session in Hd. by rewrite Hcan in Hd.
  - unfold decide_apply_task_patch in Hd. by outcome_inv.
  - unfold decide_apply_task_patches in Hd. by outcome_inv.
  - unfold decide_apply_task_plan_patch in Hd. case_match; by outcome_inv.
  - apply decide_start_Ok in Hd as (i & t & t' & _ & _ & _ & _ & _ & _ & Ht & _).
    by rewrite Hcan in Ht.
  - apply decide_claim_Ok in Hd as (i & t & c & t' & _ & _ & _ & _ & _ & _ & _ & _ & Ht & _).
    by rewrite Hcan in Ht.
  - apply decide_converge_Ok in Hd as (i & t & _ & _ & _ & ->). simpl.
    rewrite bool_decide_eq_false_2; [done|]. destruct Hend as [->|[->| ->]]; done.
Qed.
End Invariant.
