(* ===== verification/SessionDispatch.v ===== *)
(** * Dispatch of planned tasks: totality, exactly-once claims, callbacks *)

From stdpp Require Import base list strings gmap.
From Stdlib Require Import ZArith Lia.
From S2P Require Import Prelude RustStd Externals Instances TaskData TaskSchedule.
From S2P Require Import TaskScheduleFacts TaskIdentity TaskPatch TaskPatchFacts Session.
From S2P Require Import SessionReplay SessionFacts.
Open Scope Z_scope.

(** ** Totality *)

Section Totality.
Context `{ChronoLaws, SerdeJson, Sha2}.
Implicit Types (self : SessionAggregate) (command : SessionCommand) (event : SessionEvent)
  (task : TaskStep) (tasks : list TaskStep).

Lemma patch_index_settles tasks i patch :
  (i < length tasks)%nat → settles (patch_index tasks i patch).
Proof.
  intros [task Hi]%lookup_lt_is_Some_2. unfold patch_index. rewrite Hi. simpl.
  apply settles_bind; [|intros; left; eauto].
  unfold apply_task_patch. apply settles_bind; [auto with lifecycle|]. intros; left; eauto.
Qed.

Lemma task_position_lt tasks id i : task_position tasks id = Some i → (i < length tasks)%nat.
Proof. apply position_lt. Qed.

Lemma patch_loop_settles tasks order patches now : settles (patch_loop tasks order patches now).
Proof.
  revert tasks order. induction patches as [|[patch gen] rest IH]; intros tasks order;
    cbn [patch_loop]; [left; eauto|].
  apply settles_bind; [auto with lifecycle|]. intros _.
  set (id := default gen _). destruct (task_position tasks id) as [i|] eqn:Hpos.
  - apply settles_bind; [by eapply patch_index_settles, task_position_lt|auto].
  - apply settles_bind; [|auto]. apply patch_index_settles. rewrite length_app. simpl. lia.
Qed.

Lemma patch_task_list_settles plan patches gens now :
  settles (patch_task_list plan patches gens now).
Proof.
  apply settles_bind; [auto with lifecycle|]. intros _.
  apply settles_bind; [apply patch_loop_settles|]. intros [? ?]. left. eauto.
Qed.

Lemma select_task_lt plan id step gen now :
  ((select_task plan id step gen now).2 < length (select_task plan id step gen now).1)%nat.
Proof.
  unfold select_task. destruct id as [id|].
  - destruct (task_position _ id) eqn:Hpos; simpl; [by eapply task_position_lt|].
    rewrite length_app. simpl. lia.
  - destruct (tp_detailed_tasks plan); simpl; lia.
Qed.

Lemma patch_one_task_settles plan patch gen now : settles (patch_one_task plan patch gen now).
Proof.
  apply settles_bind; [auto with lifecycle|]. intros _.
  apply settles_bind; [auto with lifecycle|]. intros _.
  pose proof (select_task_lt plan (trimmed_non_empty (pt_task_id patch)) (pt_step patch) gen now)
    as Hlt.
  destruct (select_task _ _ _ _ _) as [tasks i]. simpl in Hlt.
  destruct (patch_index_settles tasks i patch Hlt) as [[tasks' Hp]|[e Hp]]; rewrite Hp; simpl;
    [|right; eauto].
  apply patch_index_Ok in Hp as (t & t' & Hi & _ & ->).
  destruct (is_blank _); [|left; eauto].
  rewrite list_lookup_insert_eq by done. left. simpl. eauto.
Qed.

Lemma apply_task_plan_patch_settles plan state (patch : SessionTaskPlanPatch) :
  settles (apply_task_plan_patch plan state patch).
Proof.
  apply settles_bind.
  { destruct (pp_tasks patch); [apply patch_task_list_settles|left; eauto]. }
  intros plan1. apply settles_bind; [|left; eauto].
  destruct (pp_task patch); [apply patch_one_task_settles|left; eauto].
Qed.

(** The clock reading a command carries to the scheduler. *)
Definition command_now command : option DateTime :=
  match command with
  | CmdStartScheduledTask _ _ _ now | CmdClaimScheduledChildTask _ _ now => Some now
  | _ => None
  end.

#[local] Arguments poll_loop : simpl never.
#[local] Arguments advance_if_polling : simpl never.

(** Polling does not depend on what a claim changes in the task. *)
Lemma advance_if_polling_cases task task0 now :
  ts_start_condition task = ts_start_condition task0 →
  ts_start_at task = ts_start_at task0 → ts_poll_interval task = ts_poll_interval task0 →
  match advance_if_polling task now with
  | Ok _ => True
  | Panic => ts_start_condition task0 = PollingTask ∧
             advance_polling_start (E:=SessionTransitionError) task0 now = Panic
  | _ => False
  end.
Proof.
  intros Hc Hs Hp. unfold advance_if_polling. rewrite Hc.
  destruct (ts_start_condition task0); [exact I..|].
  pose proof (advance_polling_start_cases (E:=SessionTransitionError) task now) as Ht.
  unfold advance_polling_start in *. rewrite Hs, Hp in *.
  destruct (or_panic (duration_seconds _)); simpl in *; try done.
  destruct (or_panic (dt_add _ _)); simpl in *; try done.
  destruct (poll_loop _ _ _ _); simpl in *; done.
Qed.

Lemma matching_index_lookup ack tasks i :
  i ∈ matching_indexes ack tasks →
  ∃ task, tasks !! i = Some task ∧ claim_matches_callback ack task = true.
Proof.
  unfold matching_indexes. intros ([j t] & Hin & Hc)%list_elem_of_omap.
  apply elem_of_lookup_imap in Hin as (n & t' & [= -> ->] & Ht). simpl in Hc.
  case_match; [|done]. injection Hc as <-. eauto.
Qed.

Lemma callback_index_Ok self ack i :
  acknowledged_child_callback_task_index self ack = Ok i →
  ∃ task, plan_tasks self !! i = Some task ∧
    Ack.validate ack = Ok tt ∧ matching_indexes ack (plan_tasks self) = [i] ∧
    (ts_status task = Doing ∨ ts_status task = Done ∨ ts_status task = Archived).
Proof.
  unfold acknowledged_child_callback_task_index. intros Hr.
  apply bind_Ok_inv in Hr as ([] & Hv & Hr). apply bind_Ok_inv in Hr as (j & Hm & Hr).
  apply bind_Ok_inv in Hr as (t & Ht & Hr). apply or_panic_Ok in Ht.
  assert (j = i) as -> by (destruct (ts_status t); by outcome_inv).
  exists t. split_and!; [done..| |destruct (ts_status t); try done; auto].
  unfold plan_tasks. destruct (matching_indexes _ _) as [|i' [|j l]]; [by destruct (existsb _ _)| |done].
  by injection Hm as ->.
Qed.

Lemma callback_index_settles self ack :
  settles (acknowledged_child_callback_task_index self ack).
Proof.
  unfold acknowledged_child_callback_task_index. apply settles_bind.
  { unfold Ack.validate. auto with lifecycle. }
  intros _. destruct (matching_indexes _ _) as [|i [|j l]] eqn:Hm; simpl.
  - case_match; right; eauto.
  - destruct (matching_index_lookup ack (tp_detailed_tasks (sa_task_plan self)) i)
      as (t & Ht & _); [rewrite Hm; left|].
    rewrite Ht. simpl. destruct (ts_status t); [right; eauto..|left|right|left|left]; eauto.
  - right. eauto.
Qed.

(** A handler that ends with a value or a refusal. *)
Definition safe_or_polling self command : Prop :=
  match decide self command with
  | Ok _ | Err _ => True
  | OutOfFuel => False
  | Panic =>
      ∃ task now, command_now command = Some now ∧ task ∈ plan_tasks self ∧
        ts_start_condition task = PollingTask ∧
        advance_polling_start (E:=SessionTransitionError) task now = Panic
  end.

Lemma settles_safe self command : settles (decide self command) → safe_or_polling self command.
Proof. unfold safe_or_polling. by intros [[a ->]|[e ->]]. Qed.

Lemma start_safe self id summary condition now :
  safe_or_polling self (CmdStartScheduledTask id summary condition now).
Proof.
  unfold safe_or_polling. cbn [decide]. unfold decide_start_scheduled_task.
  destruct (position _ _) as [i|] eqn:Hpos; [|done].
  destruct (position_Some _ _ _ Hpos) as (task & Hi & _). rewrite Hi.
  destruct (can_transition_to _ _); simpl; [|done].
  pose proof (advance_if_polling_cases task.{ts_status := Doing} task now) as Ha.
  specialize (Ha eq_refl eq_refl eq_refl).
  destruct (advance_if_polling _ _); simpl; try done. destruct Ha as [Hc Ha].
  exists task, now. split_and!; try done. by eapply list_elem_of_lookup_2.
Qed.

Lemma claim_safe self plan claim now :
  safe_or_polling self (CmdClaimScheduledChildTask plan claim now).
Proof.
  unfold safe_or_polling. cbn [decide]. unfold decide_claim_scheduled_child_task.
  destruct (is_err _ || _ || _); [done|].
  destruct (position _ _) as [i|] eqn:Hpos; [|done].
  destruct (position_Some _ _ _ Hpos) as (task & Hi & _). rewrite Hi. simpl.
  destruct (ts_scheduling_contract task); [|done].
  destruct (claim_mismatch _ _ _ _); [done|]. destruct (can_transition_to _ _); simpl; [|done].
  set (task1 := task.{ts_status := Doing}.{ts_sub_session_id := dc_child_session_id claim}
                  .{ts_dispatch_claim := Some claim}).
  pose proof (advance_if_polling_cases task1 task now eq_refl eq_refl eq_refl) as Ha.
  destruct (advance_if_polling _ _); simpl; try done. destruct Ha as [Hc Ha].
  exists task, now. split_and!; try done. by eapply list_elem_of_lookup_2.
Qed.

Lemma converge_safe self ack :
  settles (decide self (CmdConvergeAcknowledgedChildCallback ack)).
Proof.
  cbn [decide]. unfold decide_converge_callback.
  destruct (callback_index_settles self ack) as [[i Hi]|[e He]]; [|rewrite He; right; by eexists].
  rewrite Hi. destruct (callback_index_Ok _ _ _ Hi) as (t & Ht & _).
  unfold plan_tasks in Ht. rewrite Ht. simpl. destruct (ts_status t); simpl; first [by left; eexists | by right; eexists].
Qed.

(** The reducer is total.  For every session and every command, [decide]
    ends with an event or a refusal.  The one exception is a polled task whose
    next start cannot be computed: then claiming or starting that task at that
    time panics, as [advance_polling_start] does. *)
Theorem decide_total self command :
  match decide self command with
  | Ok _ | Err _ => True
  | OutOfFuel => False
  | Panic =>
      ∃ task now, command_now command = Some now ∧ task ∈ plan_tasks self ∧
        ts_start_condition task = PollingTask ∧
        advance_polling_start (E:=SessionTransitionError) task now = Panic
  end.
Proof.
  change (safe_or_polling self command). destruct command;
    try (apply settles_safe; cbn [decide];
         unfold decide_apply_runtime_state, decide_start_user_turn, decide_queue_user_input,
           decide_runtime_started, decide_runtime_retried, decide_runtime_completed,
           decide_runtime_failed, decide_runtime_cancelled, decide_runtime_ended,
           decide_register_child_session;
         try case_match; ((by left; eauto) || (by right; eexists))).
  - apply settles_safe. apply settles_bind; [apply patch_one_task_settles|left; eauto].
  - apply settles_safe. apply settles_bind; [apply patch_task_list_settles|left; eauto].
  - apply settles_safe. cbn [decide]. unfold decide_apply_task_plan_patch.
    destruct (apply_task_plan_patch_settles (sa_task_plan self) (sa_state self) patch)
      as [[? ->]|[? ->]]; left; eauto.
  - apply start_safe.
  - apply claim_safe.
  - apply settles_safe, converge_safe.
Qed.
End Totality.

(** ** Claims *)

Section Claims.
Context `{ChronoLaws, SerdeJson, Sha2}.
Implicit Types (self : SessionAggregate) (command : SessionCommand) (event : SessionEvent)
  (task : TaskStep) (tasks : list TaskStep) (claim : TaskDispatchClaimV1).

(** The two commands that replace the plan as a whole. *)
Definition overwrites_plan command : bool :=
  match command with CmdCreateSession _ | CmdApplyTaskStatus _ => true | _ => false end.

Lemma claimed_bindings_insert tasks i task task' :
  tasks !! i = Some task → (binding task = None ∨ binding task' = binding task) →
  claimed_bindings tasks ⊆ claimed_bindings (<[i := task']> tasks).
Proof.
  intros Hi Hb. unfold claimed_bindings.
  rewrite insert_take_drop by (by eapply lookup_lt_Some).
  rewrite <- (take_drop_middle tasks i task Hi) at 1. rewrite !omap_app. simpl.
  destruct Hb as [->| ->]; [|done]. intros x. rewrite !elem_of_app.
  destruct (binding task'); [rewrite elem_of_cons|]; tauto.
Qed.

Lemma advance_binding task now task' :
  advance_if_polling task now = Ok task' → binding task' = binding task.
Proof. intros [-> _]%advance_if_polling_Ok. done. Qed.

Lemma kept_subset plan plan' :
  kept plan plan' →
  claimed_bindings (tp_detailed_tasks plan) ⊆ claimed_bindings (tp_detailed_tasks plan').
Proof. intros [Hp _] x. by rewrite Hp. Qed.


(** A command that does not replace the plan keeps every binding in it. *)
Lemma execute_keeps_bindings self command self' event :
  overwrites_plan command = false → execute self command = Ok (self', event) →
  claimed_bindings (plan_tasks self) ⊆ claimed_bindings (plan_tasks self').
Proof.
  intros Ho [Hd ->]%session_execute_Ok.
  assert (Hsame : sa_task_plan (apply self event) = sa_task_plan self →
    claimed_bindings (plan_tasks self) ⊆ claimed_bindings (plan_tasks (apply self event)))
    by (unfold plan_tasks; by intros ->).
  destruct command; try discriminate Ho; cbn [decide] in Hd.
  all: try (apply Hsame;
    unfold decide_apply_runtime_state, decide_start_user_turn, decide_queue_user_input,
      decide_runtime_started, decide_runtime_retried, decide_runtime_completed,
      decide_runtime_failed, decide_runtime_cancelled, decide_runtime_ended,
      decide_register_child_session in Hd;
    try (case_match; [discriminate Hd|]); injection Hd as <-; simpl;
    unfold remember_runtime; repeat case_match; reflexivity).
  - injection Hd as <-. apply (kept_subset (sa_task_plan self)), patched_kept. simpl.
    destruct (is_terminal _); [apply patched_refl|].
    apply same_binding_patched, Forall2_map_self. intros t. unfold interrupt_task.
    by case_bool_decide.
  - unfold decide_apply_task_patch in Hd. outcome_inv.
    by eapply (kept_subset (sa_task_plan self)), patch_one_task_kept.
  - unfold decide_apply_task_patches in Hd. outcome_inv.
    by eapply (kept_subset (sa_task_plan self)), patch_task_list_kept.
  - unfold decide_apply_task_plan_patch in Hd.
    destruct (apply_task_plan_patch _ _ _) eqn:Hp; outcome_inv; [|done].
    by eapply (kept_subset (sa_task_plan self)), patches_kept.
  - apply decide_start_Ok in Hd as (i & t & t' & _ & Hi & _ & _ & _ & _ & _ & Ha & ->).
    apply (claimed_bindings_insert _ _ t); [done|]. right. by rewrite (advance_binding _ _ _ Ha).
  - apply decide_claim_Ok in Hd
      as (i & t & c & t' & _ & _ & _ & Hi & _ & _ & _ & Hm & _ & _ & ->).
    apply (claimed_bindings_insert _ _ t); [done|]. left. unfold claim_mismatch in Hm. guards.
    match goal with Hn : ¬ is_Some _ |- _ => apply eq_None_not_Some in Hn as Hnone end.
    unfold binding. by rewrite Hnone.
  - apply decide_converge_Ok in Hd as (i & t & _ & Hi & _ & ->).
    apply (claimed_bindings_insert _ _ t); [done|]. right. by case_bool_decide.
Qed.

Lemma history_keeps_bindings self events self' :
  history (λ _ c, overwrites_plan c = false) self events self' →
  claimed_bindings (plan_tasks self) ⊆ claimed_bindings (plan_tasks self').
Proof.
  induction 1 as [|self c self1 ev evs self2 Ho He _ IH]; [done|].
  etrans; [by eapply execute_keeps_bindings|done].
Qed.

Lemma elem_of_claimed_bindings tasks id claim contract :
  (id, claim, contract) ∈ claimed_bindings tasks ↔
  ∃ task, task ∈ tasks ∧ ts_task_id task = id ∧ ts_dispatch_claim task = Some claim ∧
          ts_scheduling_contract task = contract.
Proof.
  unfold claimed_bindings. rewrite list_elem_of_omap. unfold binding. split.
  - intros (t & Ht & Hb). destruct (ts_dispatch_claim t) eqn:Hc; [|done].
    injection Hb as <- <- <-. eauto.
  - intros (t & Ht & <- & Hc & <-). exists t. by rewrite Hc.
Qed.

(** A task already dispatched is not dispatched again. *)
Lemma claimed_task_refused self task plan claim now :
  task ∈ plan_tasks self → is_Some (ts_dispatch_claim task) →
  ts_task_id task = dc_task_id claim →
  is_err (decide self (CmdClaimScheduledChildTask plan claim now)) = true.
Proof.
  intros [j Hj]%list_elem_of_lookup Hc Hid.
  cbn [decide]. unfold decide_claim_scheduled_child_task.
  destruct (is_err _ || _ || _) eqn:Hg; [done|]. guards.
  destruct (position _ _) as [i|] eqn:Hpos; [|done].
  destruct (position_Some _ _ _ Hpos) as (task' & Hi & Hm & _). guards.
  match goal with Hv : scheduling_identities_valid _ = true |- _ =>
    apply scheduling_identities_ids_ok in Hv as [Hnd _] end.
  assert (i = j) as <-.
  { eapply id_index_unique; [exact Hnd|exact Hi|exact Hj|congruence]. }
  assert (task' = task) as -> by (unfold plan_tasks in Hj; congruence).
  rewrite Hi. simpl. destruct (ts_scheduling_contract task); [|done].
  assert (Hmis : ∀ c, claim_mismatch (sa_task_plan self) task c claim = true).
  { intros c. unfold claim_mismatch. by rewrite bool_decide_eq_true_2. }
  by rewrite Hmis.
Qed.

(** C4: A planned task is dispatched at most once.  After a claim has been
    accepted, along every further history whose commands do not replace the
    whole plan (patches, scheduling, callbacks, interruption and cancellation
    included), the plan still holds the task with this claim, and every claim
    for the same task, by whatever child and against whatever expected plan, is
    refused. *)
Theorem dispatch_at_most_once self plan claim now self1 event events self2 :
  execute self (CmdClaimScheduledChildTask plan claim now) = Ok (self1, event) →
  history (λ _ c, overwrites_plan c = false) self1 events self2 →
  (∃ task, task ∈ plan_tasks self2 ∧ ts_task_id task = dc_task_id claim ∧
           ts_dispatch_claim task = Some claim) ∧
  ∀ plan2 claim2 now2, dc_task_id claim2 = dc_task_id claim →
    is_err (decide self2 (CmdClaimScheduledChildTask plan2 claim2 now2)) = true.
Proof.
  intros [Hd ->]%session_execute_Ok Hh. cbn [decide] in Hd.
  apply decide_claim_Ok in Hd
    as (i & t & c & t' & _ & _ & _ & Hi & Hid & _ & _ & _ & _ & Ha & ->).
  apply history_keeps_bindings in Hh.
  assert (Hin : (dc_task_id claim, claim, ts_scheduling_contract t')
                ∈ claimed_bindings (plan_tasks self2)).
  { apply Hh, elem_of_claimed_bindings. exists t'.
    apply advance_if_polling_Ok in Ha as [-> _]. split; [|done].
    eapply list_elem_of_lookup_2. apply list_lookup_insert_eq. by eapply lookup_lt_Some. }
  apply elem_of_claimed_bindings in Hin as (t2 & Ht2 & Hid2 & Hc2 & _). split; [eauto|].
  intros plan2 claim2 now2 He. eapply claimed_task_refused; [exact Ht2|eauto|congruence].
Qed.

(** What a claim that is accepted agrees with. *)
Lemma claim_match_fields plan task contract claim :
  claim_mismatch plan task contract claim = false →
  ts_dispatch_claim task = None ∧ ts_sub_session_id task = "" ∧
  Contract.validate contract (ts_task_id task) = Ok tt ∧
  dc_mission_id claim = sc_mission_id contract ∧
  dc_semantic_dispatch_key claim = sc_semantic_dispatch_key contract ∧
  dc_semantic_dispatch_key claim = semantic_dispatch_sha256 contract (ts_task_id task) ∧
  dc_authority_mission_revision_sha256 claim = sc_authority_mission_revision_sha256 contract ∧
  dc_delegated_input_sha256 claim = sc_delegated_input_sha256 contract ∧
  dc_task_context_capsule_semantic_sha256 claim
    = sc_task_context_capsule_semantic_sha256 contract ∧
  dc_parent_task_plan_sha256 claim = task_plan_ready_set_sha256 plan ∧
  dc_task_scheduling_contract_sha256 claim = contract_sha256 contract ∧
  dc_scope_claim_sha256 claim = scope_claim_sha256 contract.
Proof.
  unfold claim_mismatch. intros Hm. guards. split_and!; try done.
  - by apply eq_None_not_Some.
  - unfold is_empty in *. by guards.
  - destruct (validate_cases contract (ts_task_id task)) as [|[e He]]; [done|].
    match goal with Hv : is_err _ = false |- _ => by rewrite He in Hv end.
Qed.

(** What an accepted claim binds.  The claimed task is the one the claim
    names; it was queued, undispatched and had no child; its contract is valid,
    and mission, dispatch key (both the stored and the recomputed one),
    authority revision, delegated input, context capsule, plan digest, contract
    digest and scope digest of the claim are those of the contract and of the
    plan at the time.  The command changes that one task, to be executed by the
    child the claim names under this claim, and runs the session. *)
Theorem dispatch_claim_binds self plan claim now self' event :
  execute self (CmdClaimScheduledChildTask plan claim now) = Ok (self', event) →
  ∃ i task contract start,
    plan_tasks self !! i = Some task ∧
    ts_task_id task = dc_task_id claim ∧ todo_or_question (ts_status task) = true ∧
    ts_scheduling_contract task = Some contract ∧
    ts_dispatch_claim task = None ∧ ts_sub_session_id task = "" ∧
    Contract.validate contract (ts_task_id task) = Ok tt ∧
    dc_mission_id claim = sc_mission_id contract ∧
    dc_semantic_dispatch_key claim = sc_semantic_dispatch_key contract ∧
    dc_semantic_dispatch_key claim = semantic_dispatch_sha256 contract (ts_task_id task) ∧
    dc_authority_mission_revision_sha256 claim = sc_authority_mission_revision_sha256 contract ∧
    dc_delegated_input_sha256 claim = sc_delegated_input_sha256 contract ∧
    dc_task_context_capsule_semantic_sha256 claim
      = sc_task_context_capsule_semantic_sha256 contract ∧
    dc_parent_task_plan_sha256 claim = task_plan_ready_set_sha256 (sa_task_plan self) ∧
    dc_task_scheduling_contract_sha256 claim = contract_sha256 contract ∧
    dc_scope_claim_sha256 claim = scope_claim_sha256 contract ∧
    sa_state self' = Running ∧
    plan_tasks self' =
      <[i := task.{ts_status := Doing}.{ts_sub_session_id := dc_child_session_id claim}
               .{ts_dispatch_claim := Some claim}.{ts_start_at := start}]> (plan_tasks self).
Proof.
  intros [Hd ->]%session_execute_Ok. cbn [decide] in Hd.
  apply decide_claim_Ok in Hd
    as (i & t & c & t' & _ & _ & _ & Hi & Hid & He & Hc & Hm & _ & Ha & ->).
  apply claim_match_fields in Hm as (? & ? & ? & ? & ? & ? & ? & ? & ? & ? & ? & ?).
  exists i, t, c, (ts_start_at t'). split_and!; try done.
  - unfold direct_dispatch_eligible, scheduler_eligible in He.
    destruct (ts_start_condition t), (ts_status t); by simpl in He; guards.
  - apply advance_if_polling_Ok in Ha as [Ha _]. unfold plan_tasks. simpl.
    f_equal. exact Ha.
Qed.

(** A claim fits one plan.  If the same claim is accepted by two sessions
    (or by one session at two times), their task plans were equal in every
    field, unless SHA-256 collides on the two canonical texts. *)
Theorem claim_fits_one_plan `{!JsonTextLaws} self self' plan plan' claim now now' r r' :
  Forall task_in_range (plan_tasks self) → Forall task_in_range (plan_tasks self') →
  execute self (CmdClaimScheduledChildTask plan claim now) = Ok r →
  execute self' (CmdClaimScheduledChildTask plan' claim now') = Ok r' →
  sa_task_plan self = sa_task_plan self' ∨
  collides (task_plan_ready_set_value (sa_task_plan self))
    (task_plan_ready_set_value (sa_task_plan self')).
Proof.
  destruct r as [self1 event], r' as [self1' event'].
  intros Hr Hr' [Hd _]%session_execute_Ok [Hd' _]%session_execute_Ok. cbn [decide] in Hd, Hd'.
  apply decide_claim_Ok in Hd as (? & ? & ? & ? & _ & _ & _ & _ & _ & _ & _ & Hm & _).
  apply decide_claim_Ok in Hd' as (? & ? & ? & ? & _ & _ & _ & _ & _ & _ & _ & Hm' & _).
  apply claim_match_fields in Hm as (_ & _ & _ & _ & _ & _ & _ & _ & _ & Hp & _).
  apply claim_match_fields in Hm' as (_ & _ & _ & _ & _ & _ & _ & _ & _ & Hp' & _).
  apply plan_digest_inj; [done..|congruence].
Qed.
End Claims.

(** ** Callbacks *)

Section Callbacks.
Context `{ChronoLaws, SerdeJson, Sha2}.
Implicit Types (self : SessionAggregate) (event : SessionEvent) (task : TaskStep)
  (tasks : list TaskStep) (ack : AcknowledgedChildCallbackIdentityV1).

(** The matching tasks depend only on which tasks match. *)
Lemma matching_indexes_ext ack tasks tasks' :
  Forall2 (λ t t', claim_matches_callback ack t = claim_matches_callback ack t') tasks tasks' →
  matching_indexes ack tasks = matching_indexes ack tasks'.
Proof.
  unfold matching_indexes. intros Hall.
  cut (∀ g : nat → nat,
    omap (λ it, if claim_matches_callback ack it.2 then Some it.1 else None)
      (imap (λ n t, (g n, t)) tasks)
    = omap (λ it, if claim_matches_callback ack it.2 then Some it.1 else None)
      (imap (λ n t, (g n, t)) tasks')); [intros Hg; exact (Hg id)|].
  induction Hall as [|t t' l l' Ht _ IH]; intros g; [done|].
  simpl. rewrite Ht. specialize (IH (g ∘ S)). unfold compose in *.
  destruct (claim_matches_callback ack t'); [f_equal|]; exact IH.
Qed.

Lemma Forall2_insert_self {A} (R : A → A → Prop) l i x y :
  (∀ z, R z z) → l !! i = Some x → R x y → Forall2 R l (<[i := y]> l).
Proof.
  intros Hrefl Hi Hxy. apply Forall2_same_length_lookup_2; [by rewrite length_insert|].
  intros j a b Ha Hb. destruct (base.decide (i = j)) as [<-|Hne].
  - rewrite list_lookup_insert_eq in Hb by (by eapply lookup_lt_Some). congruence.
  - rewrite list_lookup_insert_ne in Hb by done. assert (a = b) as -> by congruence. apply Hrefl.
Qed.

Definition converged task : TaskStep :=
  if bool_decide (ts_status task = Doing) then task.{ts_status := Done} else task.

Lemma converged_matches ack task :
  claim_matches_callback ack task = claim_matches_callback ack (converged task).
Proof. unfold converged. by case_bool_decide. Qed.

Lemma converged_status task :
  (ts_status task = Doing ∨ ts_status task = Done ∨ ts_status task = Archived) →
  ts_status (converged task) = Done ∨ ts_status (converged task) = Archived.
Proof.
  unfold converged. intros [Hs|[Hs|Hs]]; rewrite Hs; simpl; rewrite ?Hs; auto.
Qed.

(** The session after a callback. *)
Definition converged_state self tasks' : SessionState :=
  if bool_decide (sa_state self = Running)
     && negb (bool_decide (is_Some (sa_active_runtime_id self)))
     && forallb task_terminal tasks'
  then Completed else sa_state self.

Lemma converge_Ok self ack r :
  execute self (CmdConvergeAcknowledgedChildCallback ack) = Ok r ↔
  ∃ i task, acknowledged_child_callback_task_index self ack = Ok i ∧
    plan_tasks self !! i = Some task ∧
    (ts_status task = Doing ∨ ts_status task = Done ∨ ts_status task = Archived) ∧
    let plan' := (sa_task_plan self).{tp_detailed_tasks :=
                    <[i := converged task]> (plan_tasks self)} in
    let state' := converged_state self (<[i := converged task]> (plan_tasks self)) in
    r = (self.{sa_task_plan := plan'}.{sa_state := state'},
         EvAcknowledgedChildCallbackConverged ack plan' state').
Proof.
  destruct r as [self' event]. rewrite session_execute_Ok. cbn [decide]. split.
  - intros [(i & t & Hi & Ht & Hs & ->)%decide_converge_Ok ->]. by exists i, t.
  - intros (i & t & Hi & Ht & Hs & [= -> ->]). split; [|done].
    unfold decide_converge_callback, plan_tasks in *. rewrite Hi, Ht. simpl.
    unfold converged_state, converged. by destruct Hs as [->|[->| ->]].
Qed.

Lemma callback_index_intro self ack i task :
  Ack.validate ack = Ok tt → matching_indexes ack (plan_tasks self) = [i] →
  plan_tasks self !! i = Some task →
  (ts_status task = Doing ∨ ts_status task = Done ∨ ts_status task = Archived) →
  acknowledged_child_callback_task_index self ack = Ok i.
Proof.
  intros Hv Hm Ht Hs. unfold acknowledged_child_callback_task_index, plan_tasks in *.
  rewrite Hv, Hm. simpl. rewrite Ht. simpl. by destruct Hs as [->|[->| ->]].
Qed.

(** A child's callback settles exactly its own task.  An acknowledged
    callback is accepted only if it is well formed and exactly one task of the
    plan carries a claim for this child, runtime, lease, transaction and
    mission revision, and that task was being executed or is already settled.
    Then that task becomes done (a settled one stays as it is), no other task
    changes, and the session completes exactly when it was running without an
    active runtime and every task is now settled. *)
Theorem callback_settles_one_task self ack self' event :
  execute self (CmdConvergeAcknowledgedChildCallback ack) = Ok (self', event) →
  ∃ i task,
    Ack.validate ack = Ok tt ∧ matching_indexes ack (plan_tasks self) = [i] ∧
    plan_tasks self !! i = Some task ∧ claim_matches_callback ack task = true ∧
    (ts_status task = Doing ∨ ts_status task = Done ∨ ts_status task = Archived) ∧
    plan_tasks self' = <[i := converged task]> (plan_tasks self) ∧
    task_terminal (converged task) = true ∧
    (sa_state self' ≠ sa_state self ↔
     sa_state self = Running ∧ sa_active_runtime_id self = None ∧
     forallb task_terminal (plan_tasks self') = true ∧ sa_state self' = Completed).
Proof.
  intros (i & t & Hi & Ht & Hs & [= -> _])%converge_Ok.
  destruct (callback_index_Ok _ _ _ Hi) as (t' & Ht' & Hv & Hm & _).
  destruct (matching_index_lookup ack (plan_tasks self) i) as (t2 & Ht2 & Hcm);
    [rewrite Hm; left|].
  assert (t2 = t) as -> by congruence. exists i, t. split_and!; try done.
  - unfold task_terminal. by destruct (converged_status _ Hs) as [->| ->].
  - unfold plan_tasks at 2. simpl. unfold converged_state.
    destruct (_ && _ && _) eqn:Hg; guards.
    + match goal with Hn : ¬ is_Some _ |- _ => apply eq_None_not_Some in Hn end.
      split; [done|]. intros _ Heq. congruence.
    + split; [by intros []|]. intros (Hrun & Hact & Hall & Hcomp). congruence.
Qed.

(** Callback convergence is idempotent: delivering the same acknowledged
    callback again is accepted and changes nothing. *)
Theorem callback_idempotent self ack self' event :
  execute self (CmdConvergeAcknowledgedChildCallback ack) = Ok (self', event) →
  execute self' (CmdConvergeAcknowledgedChildCallback ack)
  = Ok (self', EvAcknowledgedChildCallbackConverged ack (sa_task_plan self') (sa_state self')).
Proof.
  intros (i & t & Hi & Ht & Hs & [= -> _])%converge_Ok.
  destruct (callback_index_Ok _ _ _ Hi) as (t' & Ht' & Hv & Hm & _).
  set (tasks' := <[i := converged t]> (plan_tasks self)).
  assert (Hlk : tasks' !! i = Some (converged t))
    by (apply list_lookup_insert_eq; by eapply lookup_lt_Some).
  assert (Hst : ts_status (converged t) = Done ∨ ts_status (converged t) = Archived).
  { by apply converged_status. }
  assert (Hfix : converged (converged t) = converged t).
  { unfold converged at 1. by destruct Hst as [->| ->]. }
  apply converge_Ok. exists i, (converged t). split_and!.
  - apply (callback_index_intro _ _ _ (converged t)); [done| |done|tauto].
    rewrite <- Hm. symmetry. apply matching_indexes_ext.
    apply (Forall2_insert_self _ _ _ t); [done|done|]. apply converged_matches.
  - done.
  - tauto.
  - cbv zeta. match goal with |- context [plan_tasks ?a] => change (plan_tasks a) with tasks' end.
    rewrite Hfix, (list_insert_id tasks' i) by done.
    assert (Hstate : converged_state
      self.{sa_task_plan := (sa_task_plan self).{tp_detailed_tasks := tasks'}}
          .{sa_state := converged_state self tasks'} tasks' = converged_state self tasks').
    { unfold converged_state. simpl. destruct (sa_state self) eqn:Hrun; try done. simpl.
      destruct (negb _ && forallb task_terminal tasks') eqn:Hg; simpl; [done|].
      by rewrite Hg. }
    rewrite Hstate. done.
Qed.
End Callbacks.
