(* ===== verification/SessionExamples.v ===== *)
(** * A session evaluated end to end

    A plan of a dispatched and a polled task is created, claimed, started,
    patched and converged on concrete instances of the external interfaces;
    the theorems of the session files are instantiated on these runs. *)

From stdpp Require Import base list strings gmap.
From Stdlib Require Import ZArith Lia.
From S2P Require Import Prelude RustStd Externals Instances TaskData TaskSchedule.
From S2P Require Import TaskScheduleFacts TaskIdentity TaskPatch TaskPatchFacts Session.
From S2P Require Import SessionReplay SessionFacts SessionDispatch.
Open Scope Z_scope.

(** Running a list of commands, each of which passes a test. *)
Section Run.
Context `{Chrono, SerdeJson, Sha2} (admissible : SessionAggregate → SessionCommand → bool).

Fixpoint run (self : SessionAggregate) (commands : list SessionCommand)
    : session_result (SessionAggregate * list SessionEvent) :=
  match commands with
  | [] => mret (self, [])
  | command :: rest =>
      _ ← reject_if (negb (admissible self command)) task_patch_error;
      '(self, event) ← execute self command;
      '(self, events) ← run self rest;
      mret (self, event :: events)
  end.

Lemma run_history self commands self' events :
  run self commands = Ok (self', events) →
  history (λ s c, admissible s c = true) self events self'.
Proof.
  revert self events. induction commands as [|c cs IH]; intros self events; cbn [run].
  - intros [= <- <-]. constructor.
  - intros Hr. outcome_inv. guards. repeat match goal with r : (_ * _)%type |- _ => destruct r end.
    outcome_inv. repeat match goal with r : (_ * _)%type |- _ => destruct r end. outcome_inv.
    simplify_eq/=. econstructor; eauto.
Qed.
End Run.

Lemma history_mono `{Chrono, SerdeJson, Sha2} (P Q : SessionAggregate → SessionCommand → Prop)
    self events self' :
  (∀ s c, P s c → Q s c) → history P self events self' → history Q self events self'.
Proof. intros HPQ Hh. induction Hh; econstructor; eauto. Qed.

Definition replayable_b `{Chrono} (self : SessionAggregate) (command : SessionCommand) : bool :=
  stream_command command &&
  match command with
  | CmdStartScheduledTask _ _ _ _ => bool_decide (NoDup (task_ids (plan_tasks self)))
  | _ => true
  end.

Lemma replayable_b_spec `{Chrono} self command :
  replayable_b self command = true → replayable self command.
Proof.
  unfold replayable_b, replayable. intros Hr. guards. split; [done|].
  destruct command; try done. by guards.
Qed.

Module SessionExample.
#[local] Existing Instance chrono_ns.
#[local] Existing Instance json_z.
#[local] Existing Instance json_text.
#[local] Existing Instance sha_len.

Definition at_s (n : Z) : @DateTime chrono_ns := n * 10 ^ 9.
Definition zeros : string :=
  "0000000000000000000000000000000000000000000000000000000000000000".

Definition draft : TaskSchedulingContractV1 :=
  {| sc_schema_version := TASK_SCHEDULING_CONTRACT_SCHEMA_VERSION; sc_mission_id := "m1";
     sc_semantic_dispatch_key := ""; sc_authority_mission_revision_sha256 := zeros;
     sc_delegated_input_sha256 := zeros; sc_task_context_capsule_semantic_sha256 := zeros;
     sc_dependency_task_ids := []; sc_exact_input_sha256s := [];
     sc_jspace_authorization_semantic_sha256 := zeros; sc_read_scopes := ["a"; "b"];
     sc_write_scopes := ["b"]; sc_declared_targets := []; sc_conflict_identities := [];
     sc_maximum_parallel_runtime_workers := 4 |}.
(** The stored key is the computed one. *)
Definition contract : TaskSchedulingContractV1 :=
  draft.{sc_semantic_dispatch_key := semantic_dispatch_sha256 draft "t1"}.

Definition plan : TaskPlan :=
  MkTaskPlan "ship"
    [(TaskStep_default (at_s 0)).{ts_task_id := "t1"}
       .{ts_scheduling_contract := Some contract};
     (TaskStep_default (at_s 10)).{ts_task_id := "t2"}
       .{ts_poll_interval := MkPollInterval 1 0 0 30}.{ts_start_condition := PollingTask}].

Definition claim : TaskDispatchClaimV1 :=
  {| dc_schema_version := TASK_DISPATCH_CLAIM_SCHEMA_VERSION; dc_mission_id := "m1";
     dc_task_id := "t1"; dc_child_session_id := "child"; dc_child_runtime_id := "rt-c";
     dc_child_lease_id := "lease"; dc_child_transaction_id := "tx";
     dc_semantic_dispatch_key := semantic_dispatch_sha256 draft "t1";
     dc_authority_mission_revision_sha256 := zeros; dc_delegated_input_sha256 := zeros;
     dc_task_context_capsule_semantic_sha256 := zeros;
     dc_parent_task_plan_sha256 := task_plan_ready_set_sha256 plan;
     dc_task_scheduling_contract_sha256 := contract_sha256 contract;
     dc_scope_claim_sha256 := scope_claim_sha256 contract |}.
Definition ack : AcknowledgedChildCallbackIdentityV1 :=
  {| ack_schema_version := ACKNOWLEDGED_CHILD_CALLBACK_IDENTITY_SCHEMA_VERSION;
     ack_parent_mission_revision_sha256 := zeros; ack_commander_thread_id := "thread";
     ack_child_session_id := "child"; ack_child_runtime_id := "rt-c";
     ack_child_lease_id := "lease"; ack_child_transaction_id := "tx"; ack_event_id := "e1";
     ack_callback_payload_sha256 := zeros; ack_effect_identity_sha256 := zeros |}.

Definition start : SessionAggregate := apply (new "s1") (EvSessionCreated plan).
Definition commands : list SessionCommand :=
  [CmdClaimScheduledChildTask plan claim (at_s 100);
   CmdStartScheduledTask "t2" "ship" PollingTask (at_s 200);
   CmdQueueUserInputWhileBusy "  more ";
   CmdRuntimeStarted "rt-1";
   CmdRuntimeEnded "rt-1";
   CmdConvergeAcknowledgedChildCallback ack;
   CmdRuntimeStarted "rt-2";
   CmdRuntimeFailed "rt-2";
   CmdRuntimeRetried "rt-3" "rt-2";
   CmdInterruptSession].
Definition result := run replayable_b start commands.
Definition final : SessionAggregate := (ok_value (start, []) result).1.
Definition events : list SessionEvent := (ok_value (start, []) result).2.
#[local] Strategy expand [result final events].

Example result_ok : is_ok result = true.
Proof. vm_compute. reflexivity. Qed.

Example final_fields :
  sa_state final = Interrupted ∧ sa_runtime_ids final = ["rt-1"; "rt-2"; "rt-3"] ∧
  ts_status <$> plan_tasks final = [Done; WaitingUser] ∧
  ts_start_at <$> plan_tasks final = [at_s 0; at_s 280].
Proof. split_and!; vm_compute; reflexivity. Qed.

Lemma result_split : run replayable_b start commands = Ok (final, events).
Proof.
  assert (Hr : is_ok result = true) by (vm_compute; reflexivity).
  exact (is_ok_pair (start, []) result Hr).
Defined.

Lemma example_history : session_history replayable "s1" (EvSessionCreated plan :: events) final.
Proof.
  apply (session_history_intro _ _ (CmdCreateSession plan) start); [reflexivity|reflexivity|].
  eapply history_mono; [exact replayable_b_spec|]. apply (run_history _ _ commands).
  exact result_split.
Defined.

Lemma session_replay_complete_witness :
  replay "s1" (EvSessionCreated plan :: events) = Ok final.
Proof. apply session_replay_complete. exact example_history. Defined.

Lemma session_replay_sound_witness :
  session_history (λ _ c, stream_command c = true) "s1" [EvSessionCreated plan] start.
Proof. apply session_replay_sound. reflexivity. Defined.

Lemma reachable_session_ok_witness : session_ok final.
Proof.
  apply (reachable_session_ok "s1" (EvSessionCreated plan :: events)).
  destruct example_history as [c s1 ev evs s2 Hc He Hh].
  apply (session_history_intro _ _ c s1); [exact Hc|exact He|].
  eapply history_mono; [|exact Hh]. done.
Defined.

(** A failed session takes no further runtime, but a retry. *)
Definition failed : SessionAggregate :=
  (apply (new "s1") (EvRuntimeFailed "rt-1" Failed)).
Lemma ended_session_stays_witness :
  sa_state (apply failed (EvQueuedUserInputsConsumed [])) = Failed ∧
  sa_state (apply failed (EvRuntimeStarted "rt-2" Running)) = Running.
Proof.
  split.
  - apply (ended_session_stays failed CmdConsumeQueuedUserInputs _
             (EvQueuedUserInputsConsumed [])); [left; reflexivity|reflexivity].
  - apply (ended_session_stays failed (CmdRuntimeRetried "rt-2" "rt-1") _
             (EvRuntimeStarted "rt-2" Running)); [left; reflexivity|reflexivity].
Defined.

Definition claimed_run := execute start (CmdClaimScheduledChildTask plan claim (at_s 100)).
Definition claimed : SessionAggregate := (ok_value (start, EvSessionDeleted) claimed_run).1.
Definition claimed_event : SessionEvent := (ok_value (start, EvSessionDeleted) claimed_run).2.
#[local] Strategy expand [claimed_run claimed claimed_event].

Lemma claimed_split :
  execute start (CmdClaimScheduledChildTask plan claim (at_s 100)) = Ok (claimed, claimed_event).
Proof.
  assert (Hr : is_ok claimed_run = true) by (vm_compute; reflexivity).
  exact (is_ok_pair (start, EvSessionDeleted) claimed_run Hr).
Defined.

(** After an interruption the task waits for the user, and is still claimed. *)
Definition interrupt_event : SessionEvent :=
  EvSessionInterrupted Interrupted
    (sa_task_plan claimed).{tp_detailed_tasks := interrupt_task <$> plan_tasks claimed}.

Lemma dispatch_at_most_once_witness :
  is_err (decide (apply claimed interrupt_event)
            (CmdClaimScheduledChildTask plan claim (at_s 300))) = true.
Proof.
  apply (dispatch_at_most_once start plan claim (at_s 100) claimed claimed_event
           [interrupt_event] (apply claimed interrupt_event)); [exact claimed_split| |reflexivity].
  apply (history_cons _ _ CmdInterruptSession (apply claimed interrupt_event));
    [reflexivity|reflexivity|constructor].
Defined.

Lemma dispatch_claim_binds_witness :
  ∃ i task, plan_tasks start !! i = Some task ∧ ts_task_id task = "t1" ∧
            sa_state claimed = Running.
Proof.
  destruct (dispatch_claim_binds start plan claim (at_s 100) claimed claimed_event claimed_split)
    as (i & task & contract & date & Hi & Hid & _ & _ & _ & _ & _ & _ & _ & _ & _ & _ & _ & _
        & _ & _ & Hs & _).
  exists i, task. split; [exact Hi|split; [exact Hid|exact Hs]].
Defined.

Lemma plan_in_range : Forall task_in_range (plan_tasks start).
Proof.
  apply Forall_cons_2; [|apply Forall_cons_2; [|apply Forall_nil_2]].
  - split_and!; try done. intros c Hc. injection Hc as <-. done.
  - split_and!; done.
Defined.

Lemma claim_fits_one_plan_witness :
  sa_task_plan start = sa_task_plan start ∨
  collides (task_plan_ready_set_value (sa_task_plan start))
    (task_plan_ready_set_value (sa_task_plan start)).
Proof.
  exact (claim_fits_one_plan start start plan plan claim (at_s 100) (at_s 100) _ _
           plan_in_range plan_in_range claimed_split claimed_split).
Defined.

Definition converged_run := execute claimed (CmdConvergeAcknowledgedChildCallback ack).
Definition after : SessionAggregate := (ok_value (start, EvSessionDeleted) converged_run).1.
Definition after_event : SessionEvent := (ok_value (start, EvSessionDeleted) converged_run).2.
#[local] Strategy expand [converged_run after after_event].

Lemma converged_split :
  execute claimed (CmdConvergeAcknowledgedChildCallback ack) = Ok (after, after_event).
Proof.
  assert (Hr : is_ok converged_run = true) by (vm_compute; reflexivity).
  exact (is_ok_pair (start, EvSessionDeleted) converged_run Hr).
Defined.

Lemma callback_settles_one_task_witness :
  ∃ i task, matching_indexes ack (plan_tasks claimed) = [i] ∧
            plan_tasks after = <[i := converged task]> (plan_tasks claimed).
Proof.
  destruct (callback_settles_one_task claimed ack after after_event converged_split)
    as (i & task & _ & Hm & _ & _ & _ & Hp & _).
  exists i, task. split; [exact Hm|exact Hp].
Defined.

Lemma callback_idempotent_witness :
  execute after (CmdConvergeAcknowledgedChildCallback ack)
  = Ok (after, EvAcknowledgedChildCallbackConverged ack (sa_task_plan after) (sa_state after)).
Proof. exact (callback_idempotent claimed ack after after_event converged_split). Defined.

(** A start that succeeds, and one whose interval [Duration] cannot hold. *)
Definition slow : SessionAggregate :=
  apply (new "s1") (EvSessionCreated (MkTaskPlan "ship"
    [(TaskStep_default (at_s 10)).{ts_task_id := "t"}
       .{ts_poll_interval := MkPollInterval 0 u64_max 0 0}.{ts_start_condition := PollingTask}])).
Definition slow_start : SessionCommand :=
  CmdStartScheduledTask "t" "ship" PollingTask (at_s 200).

Example slow_start_panics : match decide slow slow_start with Panic => True | _ => False end.
Proof. exact I. Qed.

Lemma decide_total_witness :
  ∃ task now, command_now slow_start = Some now ∧ task ∈ plan_tasks slow ∧
    ts_start_condition task = PollingTask ∧
    advance_polling_start (E:=SessionTransitionError) task now = Panic.
Proof. exact (decide_total slow slow_start). Defined.

(** With two tasks of one identity, a scheduled start is accepted and its event
    is not: replay looks the task up by identity, finds the first one and
    derives a command that does not give the event back. *)
Definition twins : TaskPlan :=
  MkTaskPlan "ship"
    [(TaskStep_default (at_s 0)).{ts_task_id := "t"}.{ts_status := Done}
       .{ts_task_summary := "first"};
     (TaskStep_default (at_s 0)).{ts_task_id := "t"}.{ts_start_condition := SessionIdle}
       .{ts_task_summary := "second"}].
Definition twin_session : SessionAggregate := apply (new "s1") (EvSessionCreated twins).
Definition twin_run :=
  execute twin_session (CmdStartScheduledTask "t" "second" SessionIdle (at_s 1)).
Definition twin_event : SessionEvent := (ok_value (twin_session, EvSessionDeleted) twin_run).2.

Example duplicate_identity_is_not_replayable :
  is_ok twin_run = true ∧ is_err (apply_committed twin_session twin_event) = true.
Proof. split; vm_compute; reflexivity. Qed.
End SessionExample.
