(* ===== verification/SessionManagement.v ===== *)
(** * The session state object of [lifecycle/src/session_management.rs]

    [SessionManagement] wraps the lifecycle aggregate with everything else a
    session keeps: its log with the tool-result index, the retention window
    left by compactions, task types, capabilities, timestamps and settings; and
    the delta by which it is persisted.  Environment variables and the target
    system are parameters ([Environment]). *)

From stdpp Require Import base list strings gmap.
From Stdlib Require Import ZArith Lia Ascii.
From S2P Require Import Prelude RustStd Externals Runtime.
From S2P Require Import TaskData TaskSchedule TaskIdentity TaskPatch Session.
Open Scope Z_scope.

(** ** Environment *)

Inductive TargetOs := Windows | MacOs | OtherOs.

(** [std::env::var(name).ok()] and [cfg!(...)]. *)
Class Environment := {
  env_var : string → option string;
  target_os : TargetOs;
}.

Definition env_bool_flag (value : string) : bool :=
  contains ["1"; "true"; "yes"; "on"; "enabled"] (to_ascii_lowercase (trim value)).

Definition goal_mode_enabled_from_env `{Environment} : bool :=
  match env_var "TURA_GOAL_MODE" with
  | Some value =>
      env_bool_flag value || bool_decide (to_ascii_lowercase (trim value) = "goal")
  | None => false
  end.

Definition no_op_manual_enabled_from_env `{Environment} : bool :=
  match env_var "TURA_NO_OP_MANUAL" with
  | Some value => env_bool_flag value
  | None => false
  end.

Definition active_shell_command_name `{Environment} : string :=
  let value := to_ascii_lowercase ∘ trim <$> env_var "TURA_COMMAND_RUN_SHELL" in
  let fallback :=
    match target_os with
    | Windows => "shell_command" | MacOs => "zsh" | OtherOs => "bash"
    end in
  match value with
  | Some value =>
      if bool_decide (value = "bash") then "bash"
      else if bool_decide (value = "zsh") then "zsh"
      else if contains ["shell"; "shell_command"; "shll"; "shall"] value then "shell_command"
      else fallback
  | None => fallback
  end.

(** ** Capabilities and task types *)

Definition is_legacy_session_kind (value : string) : bool :=
  contains ["coding"; "general"; "programming"; "development"; "testing"] value.

(** [for value in values { ... if seen.insert(..) { out.push(..) } }]: the
    values that pass [normalize], each kept the first time it is seen. *)
Fixpoint collect_new (normalize : string → option string) (seen : list string)
    (values : list string) : list string :=
  match values with
  | [] => []
  | value :: rest =>
      match normalize value with
      | None => collect_new normalize seen rest
      | Some v =>
          if contains seen v then collect_new normalize seen rest
          else v :: collect_new normalize (v :: seen) rest
      end
  end.

Definition normalize_task_type (value : string) : option string :=
  let value := trim value in
  if is_empty value || is_legacy_session_kind value then None else Some value.

Definition normalize_task_type_values (values : list string) : list string :=
  collect_new normalize_task_type [] values.

(** [value.trim().to_ascii_lowercase().replace('-', "_")]. *)
Definition capability_text (value : string) : string :=
  replace_char "-" "_" (to_ascii_lowercase (trim value)).

Definition canonical_capability `{Environment} (value : string) : string :=
  let value := capability_text value in
  if contains ["bash"; "zsh"; "shell"; "shells"; "shell_command"; "shll"; "shall"] value
  then active_shell_command_name
  else if contains ["read_media"; "view_media"; "inspect_media"] value then "read_media"
  else if contains ["web_discover"; "web_search"; "web_fetch"; "discover_web"; "search_web"] value
  then "web_discover"
  else if contains ["generate_media"; "image_gen"; "generate_image"; "text_to_image"; "t2i"] value
  then "generate_media"
  else value.

Definition normalize_session_capability `{Environment} (value : string) : option string :=
  let capability := canonical_capability value in
  if is_empty capability || bool_decide (capability = "command_run") then None
  else Some capability.

Definition normalize_session_capabilities `{Environment} (values : list string) : list string :=
  collect_new normalize_session_capability [] values.

(** ** The session log *)

Section Log.
Context `{SerdeJson}.

Record SessionLogEntry := MkSessionLogEntry { le_raw : string; le_value : Value }.

Definition SessionLogEntry_new (raw : string) : SessionLogEntry :=
  MkSessionLogEntry raw (match from_str raw with Some value => value | None => VString raw end).

Record SessionLog := MkSessionLog {
  sl_entries : list SessionLogEntry;
  sl_tool_result_count : Z;
}.
#[global] Instance SessionLog_eta : Eta SessionLog := MkEta (λ r,
  MkSessionLog (sl_entries r) (sl_tool_result_count r)).
Definition SessionLog_default : SessionLog := MkSessionLog [] 0.

Definition is_tool_result (value : Value) : bool :=
  bool_decide ((value_get value "type" ≫= as_str) = Some "tool_result").

(** [.count() as u64]: [usize] and [u64] have the same width. *)
Definition count_tool_results (entries : list SessionLogEntry) : Z :=
  Z.of_nat (length (filter (λ entry, is_tool_result (le_value entry) = true) entries)).

Definition from_raw (entries : list string) : SessionLog :=
  let entries := SessionLogEntry_new <$> entries in
  MkSessionLog entries (count_tool_results entries).

Definition log_push (self : SessionLog) (raw : string) : SessionLog :=
  let entry := SessionLogEntry_new raw in
  let self :=
    if is_tool_result (le_value entry)
    then self.{sl_tool_result_count := u64_saturating_add (sl_tool_result_count self) 1}
    else self in
  self.{sl_entries := sl_entries self ++ [entry] }.

Definition log_clear (self : SessionLog) : SessionLog :=
  self.{sl_entries := [] }.{sl_tool_result_count := 0}.

(** [drain(0..index)] panics past the end. *)
Definition retain_from {E} (self : SessionLog) (index : nat) : outcome E SessionLog :=
  if (index <=? length (sl_entries self))%nat then
    let entries := drop index (sl_entries self) in
    mret (MkSessionLog entries (count_tool_results entries))
  else Panic.

Definition log_next_tool_result_sequence (self : SessionLog) : Z :=
  u64_saturating_add (sl_tool_result_count self) 1.
End Log.

(** ** Data *)

Section Data.
Context `{Chrono, SerdeJson}.

Record FileInput := MkFileInput {
  fi_file_name : string;
  fi_file_path : string;
  fi_file_size_bytes : Z;
  fi_last_modified_at : DateTime;
  fi_description : option string;
}.
#[global] Instance FileInput_eq_dec : EqDecision FileInput.
Proof. solve_decision. Defined.

Record SessionInput := MkSessionInput {
  si_user_input : string;
  si_file_input : list FileInput;
  si_agent : option string;
  si_runtime_context : option string;
  si_planning_mode_override : option bool;
}.
#[global] Instance SessionInput_eq_dec : EqDecision SessionInput.
Proof. solve_decision. Defined.

Record SessionLogCompactionPoint := MkSessionLogCompactionPoint {
  cp_compact_entry_index : Z;
  cp_retained_before : Z;
  cp_retained_from_index : Z;
  cp_compacted_at : DateTime;
}.
#[global] Instance SessionLogCompactionPoint_eq_dec : EqDecision SessionLogCompactionPoint.
Proof. solve_decision. Defined.

Record SessionLogRetention := MkSessionLogRetention {
  lr_omitted_entries : Z;
  lr_last_compaction : option SessionLogCompactionPoint;
}.
#[global] Instance SessionLogRetention_eta : Eta SessionLogRetention := MkEta (λ r,
  MkSessionLogRetention (lr_omitted_entries r) (lr_last_compaction r)).
#[global] Instance SessionLogRetention_eq_dec : EqDecision SessionLogRetention.
Proof. solve_decision. Defined.
Definition SessionLogRetention_default : SessionLogRetention := MkSessionLogRetention 0 None.

Record SessionManagement := MkSessionManagement {
  sm_lifecycle : SessionAggregate;
  sm_session_name : string;
  sm_auto_session_name : bool;
  sm_session_directory : string;
  sm_session_uses_docker : bool;
  sm_task_type : list string;
  sm_session_capabilities : list string;
  sm_session_current_turn : Z;
  sm_session_log : SessionLog;
  sm_session_log_retention : SessionLogRetention;
  sm_session_created_at : DateTime;
  sm_session_last_update_at : DateTime;
  sm_session_last_user_message_at : DateTime;
  sm_session_started_at : DateTime;
  sm_input : SessionInput;
  sm_user_goal : string;
  sm_current_objective : string;
  sm_use_last_tool_call_response : bool;
  sm_is_child_session : bool;
  sm_disable_permission_restrictions : bool;
  sm_planning_enabled : bool;
  sm_reflection_enabled : bool;
  sm_op_manual_enabled : bool;
  sm_no_op_manual : bool;
  sm_goal_mode : bool;
  sm_last_goal_user_input : string;
  sm_context_tokens : ContextTokenStats;
  sm_runtime_usage : Value;
  sm_jspace_contract : option Value;
}.
#[global] Instance SessionManagement_eta : Eta SessionManagement := MkEta (λ r,
  MkSessionManagement (sm_lifecycle r) (sm_session_name r) (sm_auto_session_name r)
    (sm_session_directory r) (sm_session_uses_docker r) (sm_task_type r)
    (sm_session_capabilities r) (sm_session_current_turn r) (sm_session_log r)
    (sm_session_log_retention r) (sm_session_created_at r) (sm_session_last_update_at r)
    (sm_session_last_user_message_at r) (sm_session_started_at r) (sm_input r)
    (sm_user_goal r) (sm_current_objective r) (sm_use_last_tool_call_response r)
    (sm_is_child_session r) (sm_disable_permission_restrictions r) (sm_planning_enabled r)
    (sm_reflection_enabled r) (sm_op_manual_enabled r) (sm_no_op_manual r) (sm_goal_mode r)
    (sm_last_goal_user_input r) (sm_context_tokens r) (sm_runtime_usage r)
    (sm_jspace_contract r)).

Record SessionManagementDelta := MkSessionManagementDelta {
  sd_session_name : option string;
  sd_auto_session_name : option bool;
  sd_task_type : option (list string);
  sd_session_capabilities : option (list string);
  sd_session_current_turn : option Z;
  sd_session_log_retention : option SessionLogRetention;
  sd_session_last_update_at : option DateTime;
  sd_session_last_user_message_at : option DateTime;
  sd_session_started_at : option DateTime;
  sd_input : option SessionInput;
  sd_user_goal : option string;
  sd_current_objective : option string;
  sd_use_last_tool_call_response : option bool;
  sd_is_child_session : option bool;
  sd_disable_permission_restrictions : option bool;
  sd_planning_enabled : option bool;
  sd_reflection_enabled : option bool;
  sd_op_manual_enabled : option bool;
  sd_no_op_manual : option bool;
  sd_goal_mode : option bool;
  sd_last_goal_user_input : option string;
  sd_context_tokens : option ContextTokenStats;
  sd_runtime_usage : option Value;
  sd_jspace_contract : option Value;
}.

Implicit Types (self : SessionManagement) (now : DateTime).

(** ** Persistence *)

(** The [changed!] macro: the current value unless the previous one is equal. *)
Definition changed {A} (eqb : A → A → bool) (field : SessionManagement → A)
    (previous : option SessionManagement) (current : SessionManagement) : option A :=
  match previous with
  | Some previous =>
      if eqb (field previous) (field current) then None else Some (field current)
  | None => Some (field current)
  end.
Definition eqb {A} `{EqDecision A} (x y : A) : bool := bool_decide (x = y).

(** [==] on [Option<Value>]. *)
Definition option_value_eqb (a b : option Value) : bool :=
  match a, b with
  | Some a, Some b => value_eqb a b
  | None, None => true
  | _, _ => false
  end.

Definition persistence_delta (previous : option SessionManagement)
    (current : SessionManagement) : SessionManagementDelta :=
  {| sd_session_name := changed eqb sm_session_name previous current;
     sd_auto_session_name := changed eqb sm_auto_session_name previous current;
     sd_task_type := changed eqb sm_task_type previous current;
     sd_session_capabilities := changed eqb sm_session_capabilities previous current;
     sd_session_current_turn := changed eqb sm_session_current_turn previous current;
     sd_session_log_retention := changed eqb sm_session_log_retention previous current;
     sd_session_last_update_at := changed eqb sm_session_last_update_at previous current;
     sd_session_last_user_message_at :=
       changed eqb sm_session_last_user_message_at previous current;
     sd_session_started_at := changed eqb sm_session_started_at previous current;
     sd_input := changed eqb sm_input previous current;
     sd_user_goal := changed eqb sm_user_goal previous current;
     sd_current_objective := changed eqb sm_current_objective previous current;
     sd_use_last_tool_call_response :=
       changed eqb sm_use_last_tool_call_response previous current;
     sd_is_child_session := changed eqb sm_is_child_session previous current;
     sd_disable_permission_restrictions :=
       changed eqb sm_disable_permission_restrictions previous current;
     sd_planning_enabled := changed eqb sm_planning_enabled previous current;
     sd_reflection_enabled := changed eqb sm_reflection_enabled previous current;
     sd_op_manual_enabled := changed eqb sm_op_manual_enabled previous current;
     sd_no_op_manual := changed eqb sm_no_op_manual previous current;
     sd_goal_mode := changed eqb sm_goal_mode previous current;
     sd_last_goal_user_input := changed eqb sm_last_goal_user_input previous current;
     sd_context_tokens := changed eqb sm_context_tokens previous current;
     sd_runtime_usage := changed value_eqb sm_runtime_usage previous current;
     sd_jspace_contract :=
       match previous with
       | Some previous =>
           if option_value_eqb (sm_jspace_contract previous) (sm_jspace_contract current)
           then None else sm_jspace_contract current
       | None => sm_jspace_contract current
       end |}.

(** [if let Some(value) = delta.field { self.field = value; }] for each field. *)
Definition apply_persistence_delta self (delta : SessionManagementDelta) : SessionManagement :=
  {| sm_lifecycle := sm_lifecycle self;
     sm_session_name := default (sm_session_name self) (sd_session_name delta);
     sm_auto_session_name := default (sm_auto_session_name self) (sd_auto_session_name delta);
     sm_session_directory := sm_session_directory self;
     sm_session_uses_docker := sm_session_uses_docker self;
     sm_task_type := default (sm_task_type self) (sd_task_type delta);
     sm_session_capabilities :=
       default (sm_session_capabilities self) (sd_session_capabilities delta);
     sm_session_current_turn :=
       default (sm_session_current_turn self) (sd_session_current_turn delta);
     sm_session_log := sm_session_log self;
     sm_session_log_retention :=
       default (sm_session_log_retention self) (sd_session_log_retention delta);
     sm_session_created_at := sm_session_created_at self;
     sm_session_last_update_at :=
       default (sm_session_last_update_at self) (sd_session_last_update_at delta);
     sm_session_last_user_message_at :=
       default (sm_session_last_user_message_at self) (sd_session_last_user_message_at delta);
     sm_session_started_at :=
       default (sm_session_started_at self) (sd_session_started_at delta);
     sm_input := default (sm_input self) (sd_input delta);
     sm_user_goal := default (sm_user_goal self) (sd_user_goal delta);
     sm_current_objective := default (sm_current_objective self) (sd_current_objective delta);
     sm_use_last_tool_call_response :=
       default (sm_use_last_tool_call_response self) (sd_use_last_tool_call_response delta);
     sm_is_child_session := default (sm_is_child_session self) (sd_is_child_session delta);
     sm_disable_permission_restrictions :=
       default (sm_disable_permission_restrictions self)
         (sd_disable_permission_restrictions delta);
     sm_planning_enabled := default (sm_planning_enabled self) (sd_planning_enabled delta);
     sm_reflection_enabled := default (sm_reflection_enabled self) (sd_reflection_enabled delta);
     sm_op_manual_enabled := default (sm_op_manual_enabled self) (sd_op_manual_enabled delta);
     sm_no_op_manual := default (sm_no_op_manual self) (sd_no_op_manual delta);
     sm_goal_mode := default (sm_goal_mode self) (sd_goal_mode delta);
     sm_last_goal_user_input :=
       default (sm_last_goal_user_input self) (sd_last_goal_user_input delta);
     sm_context_tokens := default (sm_context_tokens self) (sd_context_tokens delta);
     sm_runtime_usage := default (sm_runtime_usage self) (sd_runtime_usage delta);
     sm_jspace_contract :=
       match sd_jspace_contract delta with
       | Some value => Some value
       | None => sm_jspace_contract self
       end |}.

(** [Self { session_log: SessionLog::default(), session_log_retention, ..self.clone() }]. *)
Definition persistence_view self (retained_from_sequence : Z) : SessionManagement :=
  self.{sm_session_log := SessionLog_default}
    .{sm_session_log_retention :=
        (sm_session_log_retention self).{lr_omitted_entries := retained_from_sequence} }.
End Data.

(** ** Operations *)

Section Operations.
Context `{Chrono, SerdeJson, Sha2, Environment}.
Implicit Types (self : SessionManagement) (now : DateTime).

Definition SessionManagement_new (session_id session_name session_directory : string)
    (session_uses_docker : bool) (task_type : list string) (input : SessionInput)
    (user_goal : string) now : SessionManagement :=
  let goal_mode := goal_mode_enabled_from_env in
  let no_op_manual := no_op_manual_enabled_from_env in
  let current_objective := trim (si_user_input input) in
  let last_goal_user_input := if goal_mode then current_objective else "" in
  {| sm_lifecycle := new session_id;
     sm_session_name := session_name;
     sm_auto_session_name := true;
     sm_session_directory := session_directory;
     sm_session_uses_docker := session_uses_docker;
     sm_task_type := normalize_task_type_values task_type;
     sm_session_capabilities := [];
     sm_session_current_turn := 0;
     sm_session_log := SessionLog_default;
     sm_session_log_retention := SessionLogRetention_default;
     sm_session_created_at := now;
     sm_session_last_update_at := now;
     sm_session_last_user_message_at := now;
     sm_session_started_at := now;
     sm_input := input;
     sm_user_goal := user_goal;
     sm_current_objective := current_objective;
     sm_use_last_tool_call_response := true;
     sm_is_child_session := false;
     sm_disable_permission_restrictions := false;
     sm_planning_enabled := false;
     sm_reflection_enabled := false;
     sm_op_manual_enabled := true;
     sm_no_op_manual := no_op_manual;
     sm_goal_mode := goal_mode;
     sm_last_goal_user_input := last_goal_user_input;
     sm_context_tokens := ContextTokenStats_default;
     sm_runtime_usage := Null;
     sm_jspace_contract := None |}.

Definition lifecycle_projection self : SessionProjection := query (sm_lifecycle self) Lifecycle.

Definition replace_lifecycle_projection self (projection : SessionProjection)
    : SessionManagement :=
  self.{sm_lifecycle :=
    {| sa_session_id := sp_session_id projection; sa_state := sp_state projection;
       sa_parent_id := sp_parent_id projection; sa_task_plan := sp_task_plan projection;
       sa_pending_user_inputs := sp_pending_user_inputs projection;
       sa_cancelled := sp_cancelled projection; sa_runtime_ids := sp_runtime_ids projection;
       sa_active_runtime_id := sp_active_runtime_id projection |} }.

Definition rebind_session_id self (session_id : string) : SessionManagement :=
  self.{sm_lifecycle := (sm_lifecycle self).{sa_session_id := session_id} }.

(** [self.lifecycle.execute(command).expect(..)]. *)
Definition execute_expect {E} self (command : SessionCommand) : outcome E SessionManagement :=
  match execute (sm_lifecycle self) command with
  | Ok (lifecycle, _) => mret self.{sm_lifecycle := lifecycle}
  | Err _ | Panic => Panic
  | OutOfFuel => OutOfFuel
  end.

Definition interrupt self now : outcome string SessionManagement :=
  self ← execute_expect self CmdInterruptSession;
  mret self.{sm_session_last_update_at := now}.

Definition transition self (next : SessionState) now : outcome string SessionManagement :=
  '(lifecycle, _) ← map_err transition_error_to_string
                      (execute (sm_lifecycle self) (CmdApplyRuntimeState next));
  mret self.{sm_lifecycle := lifecycle}.{sm_session_last_update_at := now}.

Definition replace_task_plan self (task_plan : TaskPlan) now : outcome string SessionManagement :=
  self ← execute_expect self (CmdApplyTaskStatus task_plan);
  mret self.{sm_session_last_update_at := now}.

Definition prepare_for_new_user_turn self (input : SessionInput) now
    : outcome string SessionManagement :=
  let current_objective := trim (si_user_input input) in
  let self := self.{sm_current_objective := current_objective} in
  let self :=
    if goal_mode_enabled_from_env
    then self.{sm_goal_mode := true}.{sm_last_goal_user_input := current_objective}
    else self in
  let self := self.{sm_no_op_manual := no_op_manual_enabled_from_env}.{sm_input := input}
                .{sm_session_last_user_message_at := now} in
  let previous := sa_state (sm_lifecycle self) in
  self ← execute_expect self CmdSubmitUserInput;
  let self :=
    if negb (bool_decide (previous = sa_state (sm_lifecycle self)))
    then self.{sm_session_started_at := now} else self in
  mret self.{sm_session_last_update_at := now}.

Definition replace_task_type self (task_type : list string)
    : SessionManagement * list string :=
  let next := normalize_task_type_values task_type in
  let added := filter (λ t, contains (sm_task_type self) t = false) next in
  (self.{sm_task_type := next}, added).

Definition record_session_capabilities_at self (capabilities : list string) now
    : SessionManagement * list string :=
  let added :=
    collect_new normalize_session_capability (sm_session_capabilities self) capabilities in
  let self := self.{sm_session_capabilities := sm_session_capabilities self ++ added} in
  let self :=
    match added with [] => self | _ => self.{sm_session_last_update_at := now} end in
  (self, added).

Definition reset_session_capabilities_at self (capabilities : list string) now
    : SessionManagement :=
  self.{sm_session_capabilities := normalize_session_capabilities capabilities}
    .{sm_session_last_update_at := now}.

Definition has_session_capability self (capability : string) : bool :=
  match normalize_session_capability capability with
  | Some capability => contains (sm_session_capabilities self) capability
  | None => false
  end.

Definition push_log self (entry : string) now : SessionManagement :=
  self.{sm_session_log := log_push (sm_session_log self) entry}
    .{sm_session_last_update_at := now}.

Definition replace_session_log self (entries : list string) : SessionManagement :=
  self.{sm_session_log := from_raw entries}.

Definition clear_session_log self : SessionManagement :=
  self.{sm_session_log := log_clear (sm_session_log self)}.

Definition next_tool_result_sequence self : Z :=
  log_next_tool_result_sequence (sm_session_log self).

Definition record_context_compaction_point {E} self
    (retained_from_index compact_entry_index : nat) now : outcome E SessionManagement :=
  let len := length (sl_entries (sm_session_log self)) in
  let retained_from_index := Nat.min retained_from_index len in
  let compact_entry_index := Nat.min compact_entry_index (len - 1) in
  let previous_omitted := lr_omitted_entries (sm_session_log_retention self) in
  let retained_from_absolute :=
    u64_saturating_add previous_omitted (Z.of_nat retained_from_index) in
  let compact_entry_absolute :=
    u64_saturating_add previous_omitted (Z.of_nat compact_entry_index) in
  self ← (if (0 <? retained_from_index)%nat then
            log ← retain_from (sm_session_log self) retained_from_index;
            mret self.{sm_session_log := log}.{sm_session_log_retention :=
              (sm_session_log_retention self).{lr_omitted_entries := retained_from_absolute} }
          else mret self);
  let point :=
    {| cp_compact_entry_index := compact_entry_absolute;
       cp_retained_before := lr_omitted_entries (sm_session_log_retention self);
       cp_retained_from_index := retained_from_absolute;
       cp_compacted_at := now |} in
  mret self.{sm_session_log_retention :=
               (sm_session_log_retention self).{lr_last_compaction := Some point} }
         .{sm_session_last_update_at := now}.

Definition absolute_session_log_index self (local_index : nat) : Z :=
  u64_saturating_add (lr_omitted_entries (sm_session_log_retention self))
    (Z.of_nat local_index).

Definition record_user_message_at self now : SessionManagement :=
  self.{sm_session_last_user_message_at := now}.{sm_session_last_update_at := now}.

(** [+= 1] wraps in a release build. *)
Definition increment_turn self now : SessionManagement :=
  self.{sm_session_current_turn := u64_wrapping_add (sm_session_current_turn self) 1}
    .{sm_session_last_update_at := now}.

(** ** The wire form *)

Record Wire := MkWire {
  w_session_id : string;
  w_state : SessionState;
  w_session_name : string;
  w_auto_session_name : bool;
  w_session_directory : string;
  w_session_uses_docker : bool;
  w_task_type : list string;
  w_session_capabilities : list string;
  w_session_current_turn : Z;
  w_session_log : list string;
  w_session_log_retention : SessionLogRetention;
  w_session_created_at : DateTime;
  w_session_last_update_at : DateTime;
  w_session_last_user_message_at : DateTime;
  w_session_started_at : DateTime;
  w_input : SessionInput;
  w_user_goal : string;
  w_current_objective : string;
  w_task_plan : TaskPlan;
  w_use_last_tool_call_response : bool;
  w_is_child_session : bool;
  w_disable_permission_restrictions : bool;
  w_planning_enabled : bool;
  w_reflection_enabled : bool;
  w_op_manual_enabled : bool;
  w_no_op_manual : bool;
  w_goal_mode : bool;
  w_last_goal_user_input : string;
  w_context_tokens : ContextTokenStats;
  w_runtime_usage : Value;
  w_jspace_contract : option Value;
}.

(** [Serialize]: a log entry is written as its raw text. *)
Definition serialize_management self : Wire :=
  {| w_session_id := sa_session_id (sm_lifecycle self);
     w_state := sa_state (sm_lifecycle self);
     w_session_name := sm_session_name self;
     w_auto_session_name := sm_auto_session_name self;
     w_session_directory := sm_session_directory self;
     w_session_uses_docker := sm_session_uses_docker self;
     w_task_type := sm_task_type self;
     w_session_capabilities := sm_session_capabilities self;
     w_session_current_turn := sm_session_current_turn self;
     w_session_log := le_raw <$> sl_entries (sm_session_log self);
     w_session_log_retention := sm_session_log_retention self;
     w_session_created_at := sm_session_created_at self;
     w_session_last_update_at := sm_session_last_update_at self;
     w_session_last_user_message_at := sm_session_last_user_message_at self;
     w_session_started_at := sm_session_started_at self;
     w_input := sm_input self;
     w_user_goal := sm_user_goal self;
     w_current_objective := sm_current_objective self;
     w_task_plan := sa_task_plan (sm_lifecycle self);
     w_use_last_tool_call_response := sm_use_last_tool_call_response self;
     w_is_child_session := sm_is_child_session self;
     w_disable_permission_restrictions := sm_disable_permission_restrictions self;
     w_planning_enabled := sm_planning_enabled self;
     w_reflection_enabled := sm_reflection_enabled self;
     w_op_manual_enabled := sm_op_manual_enabled self;
     w_no_op_manual := sm_no_op_manual self;
     w_goal_mode := sm_goal_mode self;
     w_last_goal_user_input := sm_last_goal_user_input self;
     w_context_tokens := sm_context_tokens self;
     w_runtime_usage := sm_runtime_usage self;
     w_jspace_contract := sm_jspace_contract self |}.

(** [Deserialize]: a fresh aggregate with the wire's identity, state and plan;
    the log is parsed entry by entry and its index recounted; an absent or null
    contract is [None]. *)
Definition deserialize_management (wire : Wire) : SessionManagement :=
  {| sm_lifecycle :=
       {| sa_session_id := w_session_id wire; sa_state := w_state wire; sa_parent_id := None;
          sa_task_plan := w_task_plan wire; sa_pending_user_inputs := [];
          sa_cancelled := false; sa_runtime_ids := []; sa_active_runtime_id := None |};
     sm_session_name := w_session_name wire;
     sm_auto_session_name := w_auto_session_name wire;
     sm_session_directory := w_session_directory wire;
     sm_session_uses_docker := w_session_uses_docker wire;
     sm_task_type := w_task_type wire;
     sm_session_capabilities := w_session_capabilities wire;
     sm_session_current_turn := w_session_current_turn wire;
     sm_session_log := from_raw (w_session_log wire);
     sm_session_log_retention := w_session_log_retention wire;
     sm_session_created_at := w_session_created_at wire;
     sm_session_last_update_at := w_session_last_update_at wire;
     sm_session_last_user_message_at := w_session_last_user_message_at wire;
     sm_session_started_at := w_session_started_at wire;
     sm_input := w_input wire;
     sm_user_goal := w_user_goal wire;
     sm_current_objective := w_current_objective wire;
     sm_use_last_tool_call_response := w_use_last_tool_call_response wire;
     sm_is_child_session := w_is_child_session wire;
     sm_disable_permission_restrictions := w_disable_permission_restrictions wire;
     sm_planning_enabled := w_planning_enabled wire;
     sm_reflection_enabled := w_reflection_enabled wire;
     sm_op_manual_enabled := w_op_manual_enabled wire;
     sm_no_op_manual := w_no_op_manual wire;
     sm_goal_mode := w_goal_mode wire;
     sm_last_goal_user_input := w_last_goal_user_input wire;
     sm_context_tokens := w_context_tokens wire;
     sm_runtime_usage := w_runtime_usage wire;
     sm_jspace_contract :=
       match w_jspace_contract wire with Some Null => None | contract => contract end |}.
End Operations.
