(* ===== verification/SessionManagementFacts.v ===== *)
(** * Correctness of the session state object

    Capabilities and task types as sets, the log with its index and its
    absolute positions across compactions, the persistence delta, the wire form
    and the new-turn preparation. *)

From stdpp Require Import base list strings gmap.
From Stdlib Require Import ZArith Lia Ascii.
From S2P Require Import Prelude RustStd Externals Instances Runtime.
From S2P Require Import TaskData TaskSchedule TaskIdentity TaskPatch Session SessionManagement.
Open Scope Z_scope.

(** ** Collections of normalised values *)

Section Collect.
Context (normalize : string → option string).

Lemma elem_of_collect_new seen values v :
  v ∈ collect_new normalize seen values ↔
  ((v ∉ seen) ∧ ∃ value, value ∈ values ∧ normalize value = Some v).
Proof.
  revert seen. induction values as [|x values IH]; intros seen; simpl.
  { split; [by intros ?%not_elem_of_nil|]. by intros (_ & ? & ?%not_elem_of_nil & _). }
  destruct (normalize x) as [n|] eqn:Hn.
  - unfold contains. case_bool_decide as Hin; [|rewrite elem_of_cons]; rewrite IH.
    + split.
      * intros (Hv & y & Hy & Hny). split; [done|]. exists y. split; [by right|done].
      * intros (Hv & y & [->|Hy]%elem_of_cons & Hny); [congruence|eauto].
    + split.
      * intros [->|(Hv & y & Hy & Hny)].
        { split; [done|]. exists x. split; [left|done]. }
        apply not_elem_of_cons in Hv as [_ Hv]. split; [done|]. exists y. split; [by right|done].
      * intros (Hv & y & [->|Hy]%elem_of_cons & Hny); [left; congruence|].
        destruct (base.decide (v = n)) as [->|Hne]; [by left|right].
        split; [|eauto]. by apply not_elem_of_cons.
  - rewrite IH. split.
    + intros (Hv & y & Hy & Hny). split; [done|]. exists y. split; [by right|done].
    + intros (Hv & y & [->|Hy]%elem_of_cons & Hny); [congruence|eauto].
Qed.

Lemma NoDup_collect_new seen values : NoDup (collect_new normalize seen values).
Proof.
  revert seen. induction values as [|x values IH]; intros seen; simpl; [constructor|].
  destruct (normalize x) as [n|]; [|apply IH]. unfold contains. case_bool_decide; [apply IH|].
  constructor; [|apply IH]. rewrite elem_of_collect_new. intros [Hn _]. apply Hn. left.
Qed.

(** A list of distinct normal forms. *)
Definition normal_set (l : list string) : Prop :=
  NoDup l ∧ ∀ v, v ∈ l → normalize v = Some v.

Lemma normal_set_collect seen values :
  (∀ value v, normalize value = Some v → normalize v = Some v) →
  normal_set seen → normal_set (seen ++ collect_new normalize seen values).
Proof.
  intros Hidem [Hnd Hall]. split.
  - apply NoDup_app. split_and!; [done| |apply NoDup_collect_new].
    intros v Hv Hc. by apply elem_of_collect_new in Hc as [? _].
  - intros v [Hv|Hv]%elem_of_app; [auto|].
    apply elem_of_collect_new in Hv as (_ & value & _ & Hn). eauto.
Qed.
End Collect.

Section Capabilities.
Context `{Environment}.

Definition capability_char (a : ascii) : ascii :=
  let n := nat_of_ascii a in
  let b := if ((65 <=? n) && (n <=? 90))%nat then ascii_of_nat (n + 32) else a in
  if Ascii.eqb b "-" then "_"%char else b.

Lemma capability_text_map s : capability_text s = str_map capability_char (trim s).
Proof.
  unfold capability_text, to_ascii_lowercase, replace_char. rewrite str_map_compose. done.
Qed.

Lemma capability_char_keeps_ws : keeps_ws capability_char.
Proof. intros [[] [] [] [] [] [] [] []]; reflexivity. Qed.

Lemma capability_char_idemp a : capability_char (capability_char a) = capability_char a.
Proof. destruct a as [[] [] [] [] [] [] [] []]; reflexivity. Qed.

Lemma capability_text_idemp s : capability_text (capability_text s) = capability_text s.
Proof.
  rewrite !capability_text_map, trim_map, trim_idemp by apply capability_char_keeps_ws.
  rewrite str_map_compose. apply str_map_ext. intros a. apply capability_char_idemp.
Qed.

Lemma active_shell_canonical :
  canonical_capability active_shell_command_name = active_shell_command_name.
Proof.
  unfold canonical_capability.
  assert (Hin : contains ["bash"; "zsh"; "shell"; "shells"; "shell_command"; "shll"; "shall"]
                  (capability_text active_shell_command_name) = true).
  { unfold active_shell_command_name. repeat case_match; reflexivity. }
  by rewrite Hin.
Qed.

Lemma canonical_capability_idemp s :
  canonical_capability (canonical_capability s) = canonical_capability s.
Proof.
  unfold canonical_capability at 2 3. cbv zeta.
  repeat (case_match; [first [apply active_shell_canonical|reflexivity]|]).
  unfold canonical_capability. rewrite capability_text_idemp. cbv zeta.
  repeat match goal with Hc : contains _ _ = false |- _ => rewrite Hc; clear Hc end. done.
Qed.

Lemma normalize_capability_idemp c n :
  normalize_session_capability c = Some n → normalize_session_capability n = Some n.
Proof.
  unfold normalize_session_capability. cbv zeta. case_match eqn:Hg; [done|].
  intros [= <-]. by rewrite canonical_capability_idemp, Hg.
Qed.

Lemma normalize_task_type_idemp c n :
  normalize_task_type c = Some n → normalize_task_type n = Some n.
Proof.
  unfold normalize_task_type. cbv zeta. case_match eqn:Hg; [done|].
  intros [= <-]. by rewrite trim_idemp, Hg.
Qed.

Context `{Chrono, SerdeJson}.
Implicit Types (self : SessionManagement).

(** Recording capabilities is set union on canonical names.  If the
    recorded capabilities are distinct canonical names, they still are
    afterwards, none is lost, the reported additions are exactly the new ones,
    and a capability is present under any of its aliases exactly when it was
    before or one of the recorded names is an alias of it. *)
Theorem capabilities_recorded self capabilities now self' added :
  normal_set normalize_session_capability (sm_session_capabilities self) →
  record_session_capabilities_at self capabilities now = (self', added) →
  normal_set normalize_session_capability (sm_session_capabilities self') ∧
  sm_session_capabilities self' = sm_session_capabilities self ++ added ∧
  ∀ name, has_session_capability self' name = true ↔
    has_session_capability self name = true ∨
    ∃ request, request ∈ capabilities ∧ is_Some (normalize_session_capability name) ∧
      normalize_session_capability request = normalize_session_capability name.
Proof.
  unfold record_session_capabilities_at. set (add := collect_new _ _ _). intros Hok [= <- <-].
  assert (Hcaps : sm_session_capabilities
    match add with
    | [] => self.{sm_session_capabilities := sm_session_capabilities self ++ add}
    | _ => self.{sm_session_capabilities := sm_session_capabilities self ++ add}
             .{sm_session_last_update_at := now}
    end = sm_session_capabilities self ++ add) by (by destruct add).
  unfold has_session_capability. rewrite Hcaps. split_and!; [|done|].
  - apply normal_set_collect; [exact normalize_capability_idemp|done].
  - intros name. destruct (normalize_session_capability name) as [n|] eqn:Hn.
    + unfold contains. rewrite !bool_decide_eq_true, elem_of_app.
      unfold add. rewrite elem_of_collect_new. split.
      * intros [Hin|(_ & r & Hr & Hnr)]; [by left|right]. exists r. split_and!; [done|eauto|done].
      * intros [Hin|(r & Hr & _ & Hnr)]; [by left|].
        destruct (base.decide (n ∈ sm_session_capabilities self)); [by left|right; eauto].
    + split; [done|]. intros [?|(r & _ & [? ?] & _)]; done.
Qed.

(** Task types after [replace_task_type] are distinct, trimmed, not empty
    and none of the legacy kinds; they are exactly the requested ones that
    qualify; and the reported additions are those that were not active
    before. *)
Theorem task_types_replaced self task_type self' added :
  replace_task_type self task_type = (self', added) →
  normal_set normalize_task_type (sm_task_type self') ∧
  (∀ t, t ∈ sm_task_type self' ↔
        ∃ value, value ∈ task_type ∧ t = trim value ∧ is_empty t = false ∧
                 is_legacy_session_kind t = false) ∧
  (∀ t, t ∈ added ↔ t ∈ sm_task_type self' ∧ t ∉ sm_task_type self).
Proof.
  intros [= <- <-]. simpl. split_and!.
  - apply (normal_set_collect _ []); [exact normalize_task_type_idemp|].
    split; [constructor|]. by intros v ?%not_elem_of_nil.
  - intros t. unfold normalize_task_type_values. rewrite elem_of_collect_new.
    unfold normalize_task_type. split.
    + intros (_ & value & Hin & Hn). cbv zeta in Hn. case_match; [done|]. guards.
      injection Hn as <-. eauto.
    + intros (value & Hin & -> & He & Hl). split; [apply not_elem_of_nil|].
      exists value. by rewrite He, Hl.
  - intros t. rewrite list_elem_of_filter. unfold contains. rewrite bool_decide_eq_false. tauto.
Qed.
End Capabilities.

(** ** The log *)

Section LogFacts.
Context `{SerdeJson}.
Implicit Types (log : SessionLog).

(** Entries are parsed from their text, and the index counts them. *)
Definition log_ok log : Prop :=
  Forall (λ e, e = SessionLogEntry_new (le_raw e)) (sl_entries log) ∧
  sl_tool_result_count log = count_tool_results (sl_entries log).

Lemma count_tool_results_le entries :
  0 ≤ count_tool_results entries ≤ Z.of_nat (length entries).
Proof.
  unfold count_tool_results. pose proof (length_filter (λ e, is_tool_result (le_value e) = true)
    entries). lia.
Qed.

Lemma log_push_ok log raw :
  Z.of_nat (length (sl_entries log)) < u64_max → log_ok log → log_ok (log_push log raw).
Proof.
  intros Hlen [Hall Hc]. split.
  - unfold log_push. destruct (is_tool_result _); simpl; apply Forall_app;
      (split; [done|]); by repeat constructor.
  - unfold log_push, count_tool_results in *.
    pose proof (count_tool_results_le (sl_entries log)) as Hle. unfold count_tool_results in Hle.
    destruct (is_tool_result _) eqn:Ht; simpl; rewrite filter_app, length_app.
    + rewrite filter_cons_True by done. simpl. unfold u64_saturating_add. lia.
    + rewrite filter_cons_False by (rewrite Ht; done). simpl. lia.
Qed.

Lemma from_raw_ok entries : log_ok (from_raw entries).
Proof. split; [|done]. simpl. apply Forall_fmap, Forall_true. done. Qed.

Lemma from_raw_raw log : log_ok log → from_raw (le_raw <$> sl_entries log) = log.
Proof.
  intros [Hall Hc]. destruct log as [entries count]. unfold from_raw. simpl in *.
  assert (He : SessionLogEntry_new <$> (le_raw <$> entries) = entries).
  { clear Hc. induction Hall as [|e es He _ IH]; [done|].
    rewrite !fmap_cons. by rewrite IH, <- He. }
  by rewrite He, Hc.
Qed.

Context `{Chrono, Environment}.
Implicit Types (self : SessionManagement).

Definition entries self : list SessionLogEntry := sl_entries (sm_session_log self).
Definition omitted self : Z := lr_omitted_entries (sm_session_log_retention self).

(** Compaction keeps absolute positions.  Recording a compaction never
    panics, even for indexes past the end.  It drops the entries before the
    (clamped) retained index and nothing else, keeps the tool-result index
    exact, and an entry that is still there has the same absolute index as
    before; the recorded boundary is the absolute index of the first entry
    kept. *)
Theorem compaction_keeps_positions self from compact now :
  log_ok (sm_session_log self) → in_u64 (omitted self) →
  omitted self + Z.of_nat (length (entries self)) ≤ u64_max →
  ∃ self', record_context_compaction_point (E:=string) self from compact now = Ok self' ∧
    let dropped := Nat.min from (length (entries self)) in
    entries self' = drop dropped (entries self) ∧ log_ok (sm_session_log self') ∧
    (∀ i e, entries self' !! i = Some e →
       entries self !! (dropped + i)%nat = Some e ∧
       absolute_session_log_index self' i = absolute_session_log_index self (dropped + i)%nat) ∧
    ∃ point, lr_last_compaction (sm_session_log_retention self') = Some point ∧
      cp_retained_from_index point = absolute_session_log_index self' 0 ∧
      cp_retained_before point = omitted self'.
Proof.
  intros [Hall Hc] Hom Hlen. unfold record_context_compaction_point. cbv zeta.
  fold (entries self). set (d := Nat.min from (length (entries self))).
  assert (Hd : (d ≤ length (entries self))%nat) by lia.
  assert (Hsat : ∀ i, (i ≤ length (entries self))%nat →
    u64_saturating_add (omitted self) (Z.of_nat i) = omitted self + Z.of_nat i).
  { intros i Hi. unfold u64_saturating_add. lia. }
  assert (Hdrop : log_ok (MkSessionLog (drop d (entries self))
                            (count_tool_results (drop d (entries self))))).
  { split; [|done]. simpl. by apply Forall_drop. }
  destruct (0 <? d)%nat eqn:Hpos.
  - unfold retain_from. fold (entries self). rewrite (proj2 (Nat.leb_le _ _)) by lia. simpl.
    eexists. split; [done|]. unfold entries, omitted, absolute_session_log_index in *. simpl.
    split_and!; [done|done| |].
    + intros i e Hi. rewrite lookup_drop in Hi. split; [done|].
      apply lookup_lt_Some in Hi. rewrite !Hsat by lia. unfold u64_saturating_add. lia.
    + eexists. split; [done|]. simpl. split; [|done]. rewrite Hsat by lia.
      unfold u64_saturating_add. lia.
  - apply Nat.ltb_ge in Hpos. assert (d = 0)%nat as -> by lia. rewrite drop_0 in *.
    eexists. split; [done|]. unfold entries, omitted, absolute_session_log_index in *. simpl.
    split_and!; [done|done|done|]. eexists. split; [done|]. done.
Qed.

(** The sequence number of the next tool result is one more than the tool
    results in the log. *)
Lemma next_sequence self :
  log_ok (sm_session_log self) → Z.of_nat (length (entries self)) < u64_max →
  next_tool_result_sequence self = count_tool_results (entries self) + 1.
Proof.
  intros [_ Hc] Hlen. unfold next_tool_result_sequence, log_next_tool_result_sequence.
  rewrite Hc. pose proof (count_tool_results_le (entries self)). unfold entries in *.
  unfold u64_saturating_add. lia.
Qed.
End LogFacts.

(** ** Persistence *)

Section Persistence.
Context `{Chrono, SerdeJson, Sha2, Environment, !JsonNumberLaws H0}.
Implicit Types (self previous current : SessionManagement).

Lemma changed_default {A} `{EqDecision A} (field : SessionManagement → A) previous current :
  default (field previous) (changed eqb field (Some previous) current) = field current.
Proof. unfold changed, eqb. by case_bool_decide. Qed.

Lemma changed_value previous current :
  value_eqb (default (sm_runtime_usage previous)
               (changed value_eqb sm_runtime_usage (Some previous) current))
    (sm_runtime_usage current) = true.
Proof. unfold changed. case_match; simpl; [done|apply value_eqb_refl]. Qed.

(** The part of the state a delta does not carry, and the part it carries
    whose equality is decided field by field. *)
Definition outside_delta self :=
  (sm_lifecycle self, sm_session_directory self, sm_session_uses_docker self,
   sm_session_log self, sm_session_created_at self).
Definition carried self :=
  (sm_session_name self, sm_auto_session_name self, sm_task_type self,
   sm_session_capabilities self, sm_session_current_turn self, sm_session_log_retention self,
   (sm_session_last_update_at self, sm_session_last_user_message_at self,
    sm_session_started_at self, sm_input self, sm_user_goal self, sm_current_objective self),
   (sm_use_last_tool_call_response self, sm_is_child_session self,
    sm_disable_permission_restrictions self, sm_planning_enabled self,
    sm_reflection_enabled self, sm_op_manual_enabled self, sm_no_op_manual self,
    sm_goal_mode self, sm_last_goal_user_input self, sm_context_tokens self)).

(** The persistence delta carries the change.  Applied to the previous
    state, the delta from the previous to the current state restores every
    field of the current state that a delta carries, the reported usage and
    the contract up to JSON equality; what a delta does not carry is left as it
    was.  The one exception: a contract that was dropped stays. *)
Theorem delta_restores previous current :
  let restored := apply_persistence_delta previous (persistence_delta (Some previous) current) in
  outside_delta restored = outside_delta previous ∧
  carried restored = carried current ∧
  value_eqb (sm_runtime_usage restored) (sm_runtime_usage current) = true ∧
  option_value_eqb (sm_jspace_contract restored)
    match sm_jspace_contract current with
    | Some contract => Some contract
    | None => sm_jspace_contract previous
    end = true.
Proof.
  split_and!.
  - done.
  - unfold carried. repeat match goal with |- (_, _) = (_, _) => apply (f_equal2 pair) end;
      match goal with |- ?f _ = ?f current => exact (changed_default f previous current) end.
  - apply changed_value.
  - simpl. destruct (sm_jspace_contract previous) as [p|], (sm_jspace_contract current) as [c|];
      simpl; [destruct (value_eqb p c) eqn:Hv; simpl; [done|apply value_eqb_refl]
             |apply value_eqb_refl|apply value_eqb_refl|done].
Qed.

(** A full delta is a copy: the delta without a previous state, applied to
    any state, gives the current values of every field a delta carries. *)
Lemma full_delta_copies self current :
  let restored := apply_persistence_delta self (persistence_delta None current) in
  outside_delta restored = outside_delta self ∧ carried restored = carried current ∧
  sm_runtime_usage restored = sm_runtime_usage current ∧
  sm_jspace_contract restored = match sm_jspace_contract current with
                                | Some contract => Some contract
                                | None => sm_jspace_contract self
                                end.
Proof. done. Qed.

(** What the wire form does not keep of the lifecycle aggregate. *)
Definition wire_lifecycle (aggregate : SessionAggregate) : SessionAggregate :=
  aggregate.{sa_parent_id := None}.{sa_pending_user_inputs := [] }.{sa_cancelled := false}
    .{sa_runtime_ids := [] }.{sa_active_runtime_id := None}.

(** The wire form round-trips.  Reading back what was written gives the
    same state, log index included, except that the aggregate-only fields
    (parent, queued inputs, cancellation, runtimes) are those of a fresh
    session. *)
Theorem management_wire_roundtrip self :
  log_ok (sm_session_log self) → sm_jspace_contract self ≠ Some Null →
  deserialize_management (serialize_management self)
  = self.{sm_lifecycle := wire_lifecycle (sm_lifecycle self)}.
Proof.
  intros Hlog Hj. unfold deserialize_management, serialize_management. simpl.
  rewrite from_raw_raw by done.
  assert (Hc : match sm_jspace_contract self with Some Null => None | c => c end
               = sm_jspace_contract self).
  { destruct (sm_jspace_contract self) as [[]|]; done. }
  rewrite Hc. by destruct self as [[]].
Qed.

(** A new user turn.  Preparing one never fails.  A session whose last run
    ended (completed, failed, cancelled or interrupted) starts over from
    [Created] with a new start time, a session still busy or new keeps its
    state and start time; the cancellation is lifted; and log, plan, queued
    inputs and runtimes are kept. *)
Theorem new_user_turn self input now :
  ∃ self', prepare_for_new_user_turn self input now = Ok self' ∧
    let ended := is_terminal (sa_state (sm_lifecycle self)) in
    sa_state (sm_lifecycle self') = (if ended then Created else sa_state (sm_lifecycle self)) ∧
    sm_session_started_at self' = (if ended then now else sm_session_started_at self) ∧
    sa_cancelled (sm_lifecycle self') = false ∧
    sm_current_objective self' = trim (si_user_input input) ∧
    sm_session_log self' = sm_session_log self ∧
    sa_task_plan (sm_lifecycle self') = sa_task_plan (sm_lifecycle self) ∧
    sa_pending_user_inputs (sm_lifecycle self') = sa_pending_user_inputs (sm_lifecycle self) ∧
    sa_runtime_ids (sm_lifecycle self') = sa_runtime_ids (sm_lifecycle self).
Proof.
  unfold prepare_for_new_user_turn, execute_expect, execute. cbn [decide].
  unfold decide_submit_user_input. cbn [mbind outcome_bind mret outcome_ret apply].
  eexists. split; [done|].
  destruct goal_mode_enabled_from_env, (sa_state (sm_lifecycle self)) eqn:Hs; simpl;
    rewrite ?Hs; done.
Qed.

(** The remaining lifecycle operations of the state object that are marked
    as always valid are: interrupting and replacing the plan never panic, and
    act on the aggregate as the commands do. *)
Lemma management_expectations_hold self plan now :
  (∃ aggregate event, execute (sm_lifecycle self) CmdInterruptSession = Ok (aggregate, event) ∧
     interrupt self now = Ok self.{sm_lifecycle := aggregate}.{sm_session_last_update_at := now}) ∧
  (∃ aggregate event, execute (sm_lifecycle self) (CmdApplyTaskStatus plan) = Ok (aggregate, event) ∧
     replace_task_plan self plan now
     = Ok self.{sm_lifecycle := aggregate}.{sm_session_last_update_at := now}).
Proof. split; eexists _, _; split; reflexivity. Qed.

(** Projecting the lifecycle and putting the projection back changes nothing. *)
Lemma lifecycle_projection_roundtrip self :
  replace_lifecycle_projection self (lifecycle_projection self) = self.
Proof. by destruct self as [[]]. Qed.
End Persistence.

(** ** Evaluated examples *)

Module ManagementExample.
#[local] Existing Instance chrono_ns.
#[local] Existing Instance json_z.
(** A reader that knows one text. *)
Definition one_text : SerdeJson (H:=json_z) :=
  {| quote s := s;
     from_str s := if bool_decide (s = "tool")
                   then Some (json_object [("type", VString "tool_result")]) else None |}.
#[local] Existing Instance one_text.
#[local] Existing Instance sha_len.
Definition linux : Environment := {| env_var _ := None; target_os := OtherOs |}.
#[local] Existing Instance linux.

Definition at_ns (n : Z) : @DateTime chrono_ns := n.
Definition input : SessionInput := MkSessionInput " do it " [] None None None.
Definition fresh : SessionManagement :=
  SessionManagement_new "s1" "name" "/w" false ["docs"; "coding"; " docs "] input "goal" (at_ns 1).
Definition logged : SessionManagement :=
  push_log (push_log (push_log fresh "a" (at_ns 2)) "tool" (at_ns 3)) "b" (at_ns 4).

Lemma logged_ok : log_ok (sm_session_log logged).
Proof.
  apply log_push_ok; [reflexivity|]. apply log_push_ok; [reflexivity|].
  apply log_push_ok; [reflexivity|]. split; [constructor|reflexivity].
Defined.

Lemma capabilities_recorded_witness :
  has_session_capability
    (record_session_capabilities_at fresh ["Shell"; "web-search"; "zsh"] (at_ns 9)).1
    "web_fetch" = true ∧
  (record_session_capabilities_at fresh ["Shell"; "web-search"; "zsh"] (at_ns 9)).2
  = ["bash"; "web_discover"].
Proof.
  split; [|reflexivity].
  destruct (capabilities_recorded fresh ["Shell"; "web-search"; "zsh"] (at_ns 9) _ _
    ltac:(split; [constructor|intros v Hv; by apply not_elem_of_nil in Hv]) (surjective_pairing _))
    as (_ & _ & Hhas).
  apply Hhas. right. exists "web-search". split_and!; [right; left|vm_compute; eauto|reflexivity].
Defined.

Lemma task_types_replaced_witness :
  normal_set normalize_task_type (sm_task_type (replace_task_type fresh ["docs"; " ui "; "ui"]).1) ∧
  (replace_task_type fresh ["docs"; " ui "; "ui"]).2 = ["ui"].
Proof.
  split; [|reflexivity].
  exact (proj1 (task_types_replaced fresh ["docs"; " ui "; "ui"] _ _ (surjective_pairing _))).
Defined.

Lemma compaction_keeps_positions_witness :
  ∃ self', record_context_compaction_point (E:=string) logged 1 2 (at_ns 9) = Ok self' ∧
           entries self' = drop 1 (entries logged).
Proof.
  destruct (compaction_keeps_positions logged 1 2 (at_ns 9)) as (self' & Hr & He & _).
  - exact logged_ok.
  - split; done.
  - done.
  - exists self'. split; [exact Hr|exact He].
Defined.

Lemma delta_restores_witness :
  carried (apply_persistence_delta fresh (persistence_delta (Some fresh) logged))
  = carried logged.
Proof. exact (proj1 (proj2 (delta_restores fresh logged))). Defined.

Lemma management_wire_roundtrip_witness :
  deserialize_management (serialize_management logged)
  = logged.{sm_lifecycle := wire_lifecycle (sm_lifecycle logged)}.
Proof. apply management_wire_roundtrip; [exact logged_ok|discriminate]. Defined.

(** A delta cannot say that the contract was dropped. *)
Example dropped_contract_stays :
  let held := fresh.{sm_jspace_contract := Some (VString "c")} in
  sm_jspace_contract (apply_persistence_delta held (persistence_delta (Some held) fresh))
  = Some (VString "c").
Proof. reflexivity. Qed.
End ManagementExample.
