(* ===== verification/SessionProjectionJson.v ===== *)
(** * JSON projections of the task plan: [lifecycle/src/session_projection.rs] *)

From stdpp Require Import base list strings gmap.
From Stdlib Require Import ZArith Lia Ascii.
From S2P Require Import Prelude RustStd Externals Instances TaskData TaskIdentity.
Open Scope Z_scope.

Section Projection.
Context `{Chrono, SerdeJson}.
Implicit Types (task : TaskStep) (task_plan : TaskPlan).

(** [value[key] = v] on an object. *)
Definition value_set (value : Value) (key : string) (v : Value) : Value :=
  match value with
  | VObject fields => VObject (map_insert key v fields)
  | other => other
  end.
Definition set_opt (value : Value) (key : string) (v : option Value) : Value :=
  match v with Some v => value_set value key v | None => value end.

Definition task_state_value task : option Value :=
  if negb (bool_decide (ts_status task = Todo))
  then Some (VString (PlanStatus_name (ts_status task))) else None.

Definition task_fields task : list (string * Value) :=
  [("task_id", VString (ts_task_id task));
   ("step", json_u64 (ts_step task));
   ("task_summary", VString (ts_task_summary task));
   ("deliverable", VString (ts_step_deliverable_description task));
   ("sub_session_id", VString (ts_sub_session_id task));
   ("start_condition", VString (StartCondition_name (ts_start_condition task)));
   ("start_at", VString (dt_serialize (ts_start_at task)));
   ("poll_interval", poll_interval_to_value (ts_poll_interval task))].

(** The optional [status] and [scheduling_contract] keys. *)
Definition with_options (value : Value) task : Value :=
  set_opt (set_opt value "status" (task_state_value task))
    "scheduling_contract" (contract_to_value <$> ts_scheduling_contract task).

Definition task_plan_summary_json task_plan : Value :=
  json_object
    [("plan_summary", VString (tp_plan_summary task_plan));
     ("tasks", VArray (imap (λ index task,
        with_options
          (json_object (("index", json_u64 (Z.of_nat index + 1)) :: task_fields task)) task)
        (tp_detailed_tasks task_plan)))].

Definition task_plan_detail_json task_plan : Value :=
  json_object
    [("plan_summary", VString (tp_plan_summary task_plan));
     ("detailed_tasks", VArray (task_to_value <$> tp_detailed_tasks task_plan))].

(** The object of a plan with at most one task. *)
Definition single_task_json task_plan (session_started_at : DateTime) (task : option TaskStep)
    : Value :=
  let task_summary :=
    match task with
    | Some task => if is_blank (ts_task_summary task) then tp_plan_summary task_plan
                   else ts_task_summary task
    | None => tp_plan_summary task_plan
    end in
  let get A (d : A) (f : TaskStep → A) : A := match task with Some t => f t | None => d end in
  let value := json_object
    [("task_id", VString (get _ "" ts_task_id));
     ("step", json_u64 (get _ 0 ts_step));
     ("plan_summary", VString (tp_plan_summary task_plan));
     ("task_summary", VString task_summary);
     ("deliverable", VString (get _ "" ts_step_deliverable_description));
     ("sub_session_id", VString (get _ "" ts_sub_session_id));
     ("start_condition", VString (StartCondition_name (get _ UserAction ts_start_condition)));
     ("start_at", VString (dt_serialize (get _ session_started_at ts_start_at)));
     ("poll_interval", poll_interval_to_value (get _ PollInterval_default ts_poll_interval))] in
  match task with Some task => with_options value task | None => value end.

Definition task_management_json task_plan (session_started_at : DateTime) : Value :=
  match tp_detailed_tasks task_plan with
  | [] => single_task_json task_plan session_started_at None
  | [task] => single_task_json task_plan session_started_at (Some task)
  | tasks =>
      json_object
        [("plan_summary", VString (tp_plan_summary task_plan));
         ("tasks", VArray ((λ task, with_options (json_object (task_fields task)) task)
                             <$> tasks))]
  end.

(** ** Reading a task back from its projection *)

(** The status a reader of the projection sees: absent means [todo]. *)
Definition read_status (value : Value) : option string :=
  match value_get value "status" with
  | Some v => as_str v
  | None => Some (PlanStatus_name Todo)
  end.
Definition read_task (value : Value) : option (string * string * option Value) :=
  id ← value_get value "task_id" ≫= as_str;
  status ← read_status value;
  Some (id, status, value_get value "scheduling_contract").

Lemma map_insert_find (fields : list (string * Value)) k v key :
  find (λ f, bool_decide (f.1 = key)) (map_insert k v fields)
  = if bool_decide (k = key) then Some (k, v)
    else find (λ f, bool_decide (f.1 = key)) fields.
Proof.
  induction fields as [|[k' v'] fields IH]; simpl; [done|].
  destruct (decide (k = k')) as [->|Hne].
  - rewrite (bool_decide_eq_true_2 (k' = k')) by done. simpl. by case_bool_decide.
  - rewrite (bool_decide_eq_false_2 (k = k')) by done.
    destruct (str_lt k k'); simpl; [by case_bool_decide|]. rewrite IH.
    repeat case_bool_decide; congruence.
Qed.

Lemma value_get_set value key v key' :
  (∃ fields, value = VObject fields) →
  value_get (value_set value key v) key'
  = if bool_decide (key = key') then Some v else value_get value key'.
Proof.
  intros [fields ->]. simpl. rewrite map_insert_find. by case_bool_decide.
Qed.

Lemma value_get_set_opt value key o key' :
  (∃ fields, value = VObject fields) →
  value_get (set_opt value key o) key'
  = match o with
    | Some v => if bool_decide (key = key') then Some v else value_get value key'
    | None => value_get value key'
    end.
Proof. destruct o; [apply value_get_set|done]. Qed.

Lemma set_opt_object value key o :
  (∃ fields, value = VObject fields) → ∃ fields, set_opt value key o = VObject fields.
Proof. intros [fields ->]. destruct o; simpl; eauto. Qed.

(** A projected task reads back, whatever the fixed fields are, as long as they
    name the task and leave the optional keys free. *)
Lemma read_with_options fields task :
  value_get (json_object fields) "task_id" = Some (VString (ts_task_id task)) →
  value_get (json_object fields) "status" = None →
  value_get (json_object fields) "scheduling_contract" = None →
  read_task (with_options (json_object fields) task)
  = Some (ts_task_id task, PlanStatus_name (ts_status task),
          contract_to_value <$> ts_scheduling_contract task).
Proof.
  intros Hid Hst Hct. unfold read_task, read_status, with_options.
  assert (Hobj : ∃ fs, json_object fields = VObject fs) by (unfold json_object; eauto).
  pose proof (set_opt_object _ "status" (task_state_value task) Hobj) as Hobj'.
  rewrite !(value_get_set_opt _ "scheduling_contract") by done.
  rewrite !(value_get_set_opt _ "status") by done. rewrite Hid, Hst, Hct.
  unfold task_state_value. destruct (ts_scheduling_contract task) as [c|]; simpl;
    destruct (ts_status task); done.
Qed.

(** The task projection can be read back.  For every plan, the projection
    of its tasks (an object for at most one task, an array otherwise) gives
    each task's identity, status and contract in order; a missing status means
    [todo]. *)
Theorem task_projection_reads_back task_plan started :
  match tp_detailed_tasks task_plan with
  | [] => value_get (task_management_json task_plan started) "tasks" = None
  | [task] =>
      read_task (task_management_json task_plan started)
      = Some (ts_task_id task, PlanStatus_name (ts_status task),
              contract_to_value <$> ts_scheduling_contract task)
  | tasks =>
      ∃ values,
        value_get (task_management_json task_plan started) "tasks" = Some (VArray values) ∧
        read_task <$> values =
        (λ task, Some (ts_task_id task, PlanStatus_name (ts_status task),
                       contract_to_value <$> ts_scheduling_contract task)) <$> tasks
  end.
Proof.
  unfold task_management_json. destruct (tp_detailed_tasks task_plan) as [|t [|t' tasks]].
  - done.
  - apply read_with_options; done.
  - eexists. split; [reflexivity|]. rewrite <- list_fmap_compose. apply list_fmap_ext.
    intros i x _. apply read_with_options; done.
Qed.
End Projection.
