(* ===== verification/FileSystem.v ===== *)
(** * The files of a lifecycle store, and the programs that use them

    The crate [session_lifecycle] keeps its state as JSON files below one root
    directory.  This file models that tree and the functions at the end of
    [lib.rs] that touch it: [durable_write], [remove_durable], [read_json],
    [json_files], [with_lock] and their helpers.

    A program is a function from the state of the machine to a result and the
    next state.  Every call that can fail asks the state whether it fails: the
    list [w_faults] holds one answer per call, in order, and no fault once it
    is used up.  A theorem about all lists therefore covers an I/O error at
    every point of a program, and a crash there as well, because no program of
    the crate undoes its earlier writes when a later call fails.

    Metadata queries ([Path::exists] and the like) and the entries of an opened
    directory are taken to be readable, and power loss is not modelled: the
    [sync_all] calls can fail but have no other effect. *)

From stdpp Require Import base list strings gmap sets sorting pretty.
From Stdlib Require Import ZArith Lia Ascii.
From S2P Require Import Prelude RustStd Externals.
Open Scope Z_scope.

(** ** Blockers: the error type of the crate *)

Record LifecycleBlocker := { blk_code : string; blk_detail : string }.

#[export] Instance LifecycleBlocker_eq_dec : EqDecision LifecycleBlocker.
Proof. solve_decision. Defined.

(** [LifecycleBlocker::new]. *)
Definition blocker (code detail : string) : LifecycleBlocker :=
  {| blk_code := code; blk_detail := detail |}.

(** [Display for LifecycleBlocker]. *)
Definition blocker_display (self : LifecycleBlocker) : string :=
  if is_empty (blk_detail self) then blk_code self
  else blk_code self +:+ ":" +:+ blk_detail self.

Abbreviation LifecycleResult := (outcome LifecycleBlocker).

Definition io_blocker (error : string) : LifecycleBlocker := blocker "LIFECYCLE_IO_FAILED" error.

(** ** State of the machine *)

(** A fault: the text of the error, and how many bytes a failing write leaves
    behind. *)
Record Fault := { fault_message : string; fault_written : nat }.

Inductive RootKind := RootMissing | RootFile | RootDirectory.

(** A file is addressed by its directory below the root and its name.
    [w_locked] is the advisory lock on [lifecycle.lock]; [w_pid] and
    [w_next_temp] name temporary files ([NEXT_TEMP_ID]). *)
Abbreviation path := (string * string)%type.

Record World := {
  w_root : RootKind;
  w_lock_file : bool;
  w_locked : bool;
  w_dirs : gset string;
  w_files : gmap path string;
  w_pid : Z;
  w_next_temp : Z;
  w_faults : list (option Fault);
}.
#[export] Instance World_eta : Eta World := MkEta (λ r,
  {| w_root := w_root r; w_lock_file := w_lock_file r; w_locked := w_locked r;
     w_dirs := w_dirs r; w_files := w_files r; w_pid := w_pid r;
     w_next_temp := w_next_temp r; w_faults := w_faults r |}).

(** ** Programs *)

Definition M (A : Type) : Type := World → LifecycleResult A * World.

#[export] Instance M_ret : MRet M := λ A a w, (Ok a, w).
#[export] Instance M_bind : MBind M := λ A B k m w,
  match m w with
  | (Ok a, w') => k a w'
  | (Err e, w') => (Err e, w')
  | (Panic, w') => (Panic, w')
  | (OutOfFuel, w') => (OutOfFuel, w')
  end.

Definition fail {A} (e : LifecycleBlocker) : M A := λ w, (Err e, w).
(** A computation without effects. *)
Definition lift {A} (m : LifecycleResult A) : M A := λ w, (m, w).
Definition gets {A} (f : World → A) : M A := λ w, (Ok (f w), w).
Definition modify (f : World → World) : M unit := λ w, (Ok tt, f w).
Definition guard_not (condition : bool) (error : LifecycleBlocker) : M unit :=
  lift (reject_if condition error).
(** [m.map_err(f)]. *)
Definition catch_map {A} (f : LifecycleBlocker → LifecycleBlocker) (m : M A) : M A := λ w,
  let '(r, w') := m w in (map_err f r, w').

(** [iter.try_fold], and [for x in l { body }] where the body may return
    early: [inl] continues with a new accumulator, [inr] is [return Ok(_)]. *)
Fixpoint for_each {A S} (l : list A) (acc : S) (body : S → A → M S) : M S :=
  match l with
  | [] => mret acc
  | x :: l' => acc' ← body acc x; for_each l' acc' body
  end.
Fixpoint for_return {A S R} (l : list A) (acc : S) (body : S → A → M (S + R)) : M (S + R) :=
  match l with
  | [] => mret (inl acc)
  | x :: l' =>
      next ← body acc x;
      match next with inl acc' => for_return l' acc' body | inr r => mret (inr r) end
  end.

(** One call of the operating system: it fails when the state says so. *)
Definition io : M unit := λ w,
  match w_faults w with
  | [] => (Ok tt, w)
  | None :: fs => (Ok tt, w.{w_faults := fs})
  | Some f :: fs => (Err (io_blocker (fault_message f)), w.{w_faults := fs})
  end.

Definition io_not_found : string := "No such file or directory (os error 2)".
Definition io_exists : string := "File exists (os error 17)".
Definition io_not_directory : string := "Not a directory (os error 20)".

(** ** Paths *)

(** [rsplit_once('.')]. *)
Fixpoint rsplit_dot (s : string) : option (string * string) :=
  match s with
  | EmptyString => None
  | String c s' =>
      match rsplit_dot s' with
      | Some (before, after) => Some (String c before, after)
      | None => if bool_decide (c = "."%char) then Some (EmptyString, s') else None
      end
  end.

(** [Path::extension] of a file name. *)
Definition extension (name : string) : option string :=
  if bool_decide (name = "..") then None else
  match rsplit_dot name with
  | Some (before, after) => if is_empty before then None else Some after
  | None => None
  end.

Definition is_json (name : string) : bool := bool_decide (extension name = Some "json").

(** [Path::exists] of a file. *)
Definition path_exists (p : path) : M bool :=
  gets (λ w, bool_decide (is_Some (w_files w !! p))).

(** ** Writing *)

(** [fs::create_dir_all]. *)
Definition create_dir_all (dir : string) : M unit :=
  io;;
  root ← gets w_root;
  match root with
  | RootFile => fail (io_blocker io_not_directory)
  | _ => modify (λ w, w.{w_root := RootDirectory}.{w_dirs := {[dir]} ∪ w_dirs w})
  end.

(** The name [durable_write] gives its temporary file. *)
Definition temp_name (name : string) (pid n : Z) : string :=
  "." +:+ name +:+ "." +:+ pretty pid +:+ "." +:+ pretty n +:+ ".tmp".

(** [NEXT_TEMP_ID.fetch_add(1, Relaxed)]. *)
Definition fetch_temp_id : M Z := λ w,
  (Ok (w_next_temp w), w.{w_next_temp := u64_wrapping_add (w_next_temp w) 1}).

(** [OpenOptions::new().write(true).create_new(true).open(path)]. *)
Definition create_new (p : path) : M unit :=
  io;;
  exists_ ← path_exists p;
  if (exists_ : bool) then fail (io_blocker io_exists)
  else modify (λ w, w.{w_files := <[p := EmptyString]> (w_files w)}).

(** [File::write_all]: a failing write leaves a prefix. *)
Definition write_all (p : path) (bytes : string) : M unit := λ w,
  match w_faults w with
  | Some f :: fs =>
      (Err (io_blocker (fault_message f)),
       w.{w_faults := fs}.{w_files := <[p := String.substring 0 (fault_written f) bytes]> (w_files w)})
  | fs => (Ok tt, w.{w_faults := tail fs}.{w_files := <[p := bytes]> (w_files w)})
  end.

(** [fs::rename]. *)
Definition rename (from to : path) : M unit :=
  io;;
  bytes ← gets (λ w, w_files w !! from);
  match bytes with
  | None => fail (io_blocker io_not_found)
  | Some b => modify (λ w, w.{w_files := <[to := b]> (delete from (w_files w))})
  end.

(** [sync_directory]: open the directory, then [sync_all]. *)
Definition sync_directory : M unit := io;; io.

Definition durable_write (p : path) (bytes : string) : M unit :=
  create_dir_all p.1;;
  pid ← gets w_pid;
  n ← fetch_temp_id;
  let temporary := (p.1, temp_name p.2 pid n) in
  create_new temporary;;
  write_all temporary bytes;;
  io (* sync_all *);;
  rename temporary p;;
  sync_directory.

Definition remove_durable (p : path) : M unit :=
  present ← path_exists p;
  if (present : bool) then
    io;; modify (λ w, w.{w_files := delete p (w_files w)});; sync_directory
  else mret tt.

(** ** Reading and listing *)

(** [File::open(path).and_then(|f| f.read_to_end(..))]. *)
Definition read_bytes (p : path) : M string :=
  io;;
  bytes ← gets (λ w, w_files w !! p);
  match bytes with
  | None => fail (io_blocker io_not_found)
  | Some b => io;; mret b
  end.

(** [fs::read_dir]: the names of the entries, in an unspecified order (here
    the one of the map). *)
Definition names_in (dir : string) (files : gmap path string) : list string :=
  (λ f, f.1.2) <$> filter (λ f, f.1.1 = dir) (map_to_list files).
Definition read_dir (dir : string) : M (list string) :=
  io;;
  present ← gets (λ w, bool_decide (dir ∈ w_dirs w));
  if (present : bool) then gets (λ w, names_in dir (w_files w))
  else fail (io_blocker io_not_found).

Definition json_files (dir : string) : M (list path) :=
  names ← read_dir dir;
  mret (pair dir <$> sort_strings (filter (λ n, is_json n = true) names)).

Section Collect.
Context (display : string) (limit : nat).
(** The loop of [json_files_bounded]: it stops at the first name over the
    limit. *)
Fixpoint collect_bounded (names acc : list string) : LifecycleResult (list string) :=
  match names with
  | [] => Ok acc
  | n :: names' =>
      if is_json n then
        let acc' := acc ++ [n] in
        if (limit <? length acc')%nat
        then Err (blocker "CONTROL_DECK_COLLECTION_LIMIT_EXCEEDED"
                    (display +:+ ":" +:+ pretty (Z.of_nat limit)))
        else collect_bounded names' acc'
      else collect_bounded names' acc
  end.
End Collect.

Definition json_files_bounded (display dir : string) (limit : nat) : M (list path) :=
  names ← read_dir dir;
  kept ← lift (collect_bounded display limit names []);
  mret (pair dir <$> sort_strings kept).

(** ** JSON records: [serde_json::to_vec] and [from_slice] of a struct *)
Class Serde (T : Type) := {
  to_vec : T → string;
  from_slice : string → option T;
  (** The text of the error of [from_slice]. *)
  from_slice_error : string → string;
}.
Arguments from_slice_error T {_} _.

Definition newline : string := String (ascii_of_nat 10) EmptyString.

(** Reading back what [durable_write_json] writes.  Numbers that do not
    survive printing and parsing are outside the type [Number]. *)
Class SerdeLaws (T : Type) `{Serde T} : Prop :=
  from_slice_to_vec (x : T) : from_slice (to_vec x +:+ newline) = Some x.

Section Json.
(** [path.display()]. *)
Context (display : path → string).

Definition read_json (T : Type) `{Serde T} (p : path) : M T :=
  bytes ← read_bytes p;
  match from_slice bytes with
  | Some x => mret x
  | None => fail (blocker "LIFECYCLE_RECORD_CORRUPT"
                    (display p +:+ ":" +:+ from_slice_error T bytes))
  end.

Definition durable_write_json `{Serde T} (p : path) (value : T) : M unit :=
  durable_write p (to_vec value +:+ newline).
End Json.

(** ** Locks *)

(** [OpenOptions::new().create(true)...open(lifecycle.lock)]. *)
Definition open_lock_file (create : bool) : M unit :=
  io;;
  root ← gets w_root;
  present ← gets w_lock_file;
  match root with
  | RootDirectory =>
      if (present : bool) then mret tt
      else if create then modify (λ w, w.{w_lock_file := true})
      else fail (io_blocker io_not_found)
  | RootFile => fail (io_blocker io_not_directory)
  | RootMissing => fail (io_blocker io_not_found)
  end.

(** [lock_exclusive] or [lock_shared] on a fresh descriptor: it waits for ever
    when this process already holds the lock, here [OutOfFuel]. *)
Definition acquire : M unit := λ w,
  if w_locked w then (OutOfFuel, w)
  else (io;; modify (λ w, w.{w_locked := true})) w.

(** Run the operation, then [unlock].  The descriptor is closed on every path,
    which releases the lock; an error of [unlock] replaces the result. *)
Definition then_unlock {A} (operation : M A) : M A := λ w,
  let '(result, w1) := operation w in
  let '(unlocked, w2) := io w1 in
  let w3 := w2.{w_locked := false} in
  match result, unlocked with
  | Ok _, Err e | Err _, Err e => (Err e, w3)
  | _, _ => (result, w3)
  end.

Definition with_lock {A} (operation : M A) : M A :=
  open_lock_file true;; acquire;; then_unlock operation.
Definition with_shared_lock {A} (operation : M A) : M A :=
  open_lock_file false;; acquire;; then_unlock operation.
