(* ===== verification/StoreData.v ===== *)
(** * Records of the lifecycle store: data of [session_lifecycle/src/lib.rs]

    The receipts, callbacks, continuations, admissions and blockers that the
    store keeps as files, with the constructors the crate gives them, the
    comparisons it derives and the outcomes its operations return.  The
    convergence proof is the one record the crate takes from
    [runtime_contract/src/lib.rs].  A struct that holds a [serde_json::Value]
    is compared by a boolean function, because equality of JSON numbers is the
    one of the library; the others have decidable equality. *)

From stdpp Require Import base list strings gmap sorting.
From Stdlib Require Import ZArith Lia Ascii.
From S2P Require Import Prelude RustStd Externals TaskData TaskIdentity FileSystem.
Open Scope Z_scope.

Definition RECEIPT_SCHEMA : string := "tura_terminal_receipt_v1".
Definition STORED_RECEIPT_SCHEMA : string := "tura_stored_terminal_receipt_v1".
Definition ACK_SCHEMA : string := "tura_terminal_receipt_ack_v1".
Definition CALLBACK_SCHEMA : string := "tura_durable_terminal_callback_v1".
Definition CALLBACK_ACK_SCHEMA : string := "tura_durable_terminal_callback_ack_v1".
Definition CONTINUATION_SCHEMA : string := "tura_callback_continuation_dispatch_v1".
Definition CHILD_ADMISSION_SCHEMA : string := "tura_child_session_admission_v1".
Definition CHILD_READY_SET_IDENTITY_SCHEMA : string := "tura_child_ready_set_identity_v1".
Definition RELEASE_SCHEMA : string := "tura_terminal_slot_release_v1".
Definition BLOCKER_SCHEMA : string := "tura_session_lifecycle_blocker_v1".
Definition RECONCILE_SCHEMA : string := "tura_session_lifecycle_reconcile_v1".
Definition CHECKPOINT_EVIDENCE_SCHEMA : string := "tura_native_checkpoint_evidence_v1".
Definition CONTROL_DECK_MAX_RECORDS_PER_COLLECTION : nat := 4096.
Definition DEFAULT_WATCHDOG_INTERVAL_SECS : Z := 1800.
Definition MINIMUM_WATCHDOG_INTERVAL_SECS : Z := 301.
Definition COMMANDER_CONVERGENCE_PROOF_SCHEMA_VERSION : string :=
  "tura_commander_convergence_proof_v1".

(** ** Enumerations *)

Inductive TerminalState := TsCompleted | TsFailed | TsCancelled | TsInterrupted.
Inductive CallbackDeliveryRoute := TrustedTuraDirectThreadWriter.
Inductive CallbackEffectIdentity :=
| Exact (effect_id : string)
| ProvenZeroEffect (classification evidence_sha256 : string)
| UnsettledEffect (classification evidence_sha256 : string).
Inductive ContinuationDispatchState :=
| Prepared | DeliveryUnsettled | Dispatched | Completed | Acknowledged.
Inductive DirectDeliveryResultKind := Accepted | Reconciled.
Inductive IdentityFailureKind :=
| CompactionFailed | TransportUncertain | CallbackPending | ReplayPending | RestartPending.
Inductive CheckpointEventKind := CloseWrite | Modify | WatchdogReconcile.
Inductive LifecycleRecordStage := StPending | StApplied | StIntaken | StAcknowledged.

#[export] Instance TerminalState_eq_dec : EqDecision TerminalState.
Proof. solve_decision. Defined.
#[export] Instance CallbackDeliveryRoute_eq_dec : EqDecision CallbackDeliveryRoute.
Proof. solve_decision. Defined.
#[export] Instance CallbackEffectIdentity_eq_dec : EqDecision CallbackEffectIdentity.
Proof. solve_decision. Defined.
#[export] Instance ContinuationDispatchState_eq_dec : EqDecision ContinuationDispatchState.
Proof. solve_decision. Defined.
#[export] Instance DirectDeliveryResultKind_eq_dec : EqDecision DirectDeliveryResultKind.
Proof. solve_decision. Defined.
#[export] Instance IdentityFailureKind_eq_dec : EqDecision IdentityFailureKind.
Proof. solve_decision. Defined.
#[export] Instance CheckpointEventKind_eq_dec : EqDecision CheckpointEventKind.
Proof. solve_decision. Defined.
#[export] Instance LifecycleRecordStage_eq_dec : EqDecision LifecycleRecordStage.
Proof. solve_decision. Defined.

(** ** Records without JSON values *)

Record ReceiptAcknowledgement := {
  ra_schema_version : string;
  ra_transaction_id : string;
  ra_event_id : string;
  ra_event_seq : Z;
  ra_commander_session_id : string;
  ra_delivery_id : string;
}.
#[export] Instance ReceiptAcknowledgement_eq_dec : EqDecision ReceiptAcknowledgement.
Proof. solve_decision. Defined.

Record ChildReadySetIdentity := {
  rs_schema_version : string;
  rs_mission_id : string;
  rs_task_id : string;
  rs_semantic_dispatch_key : string;
  rs_parent_task_plan_sha256 : string;
  rs_task_scheduling_contract_sha256 : string;
  rs_scope_claim_sha256 : string;
  rs_task_context_capsule_semantic_sha256 : string;
  rs_read_scopes : list string;
  rs_write_scopes : list string;
  rs_conflict_identities : list string;
}.
#[export] Instance ChildReadySetIdentity_eq_dec : EqDecision ChildReadySetIdentity.
Proof. solve_decision. Defined.

(** [ChildReadySetIdentity::new]. *)
Definition ChildReadySetIdentity_new (mission_id task_id semantic_dispatch_key
    parent_task_plan_sha256 task_scheduling_contract_sha256 scope_claim_sha256
    task_context_capsule_semantic_sha256 : string)
    (read_scopes write_scopes conflict_identities : list string) : ChildReadySetIdentity := {|
  rs_schema_version := CHILD_READY_SET_IDENTITY_SCHEMA;
  rs_mission_id := mission_id;
  rs_task_id := task_id;
  rs_semantic_dispatch_key := semantic_dispatch_key;
  rs_parent_task_plan_sha256 := parent_task_plan_sha256;
  rs_task_scheduling_contract_sha256 := task_scheduling_contract_sha256;
  rs_scope_claim_sha256 := scope_claim_sha256;
  rs_task_context_capsule_semantic_sha256 := task_context_capsule_semantic_sha256;
  rs_read_scopes := read_scopes;
  rs_write_scopes := write_scopes;
  rs_conflict_identities := conflict_identities;
|}.

Record ChildAdmissionRecord := {
  ca_schema_version : string;
  ca_parent_session_id : string;
  ca_parent_mission_revision_sha256 : string;
  ca_commander_thread_id : option string;
  ca_callback_delivery_route : option CallbackDeliveryRoute;
  ca_child_session_id : string;
  ca_child_runtime_id : string;
  ca_child_transaction_id : string;
  ca_child_lease_id : string;
  ca_callback_request_id : string;
  ca_effect_id : string;
  ca_delegated_input_sha256 : string;
  ca_execution_payload_sha256 : string;
  ca_ready_set_identity : option ChildReadySetIdentity;
  ca_session_directory : string;
  ca_session_name : string;
  ca_created_at_ms : Z;
}.
#[export] Instance ChildAdmissionRecord_eq_dec : EqDecision ChildAdmissionRecord.
Proof. solve_decision. Defined.
#[export] Instance ChildAdmissionRecord_eta : Eta ChildAdmissionRecord := MkEta (λ r, {|
  ca_schema_version := ca_schema_version r;
  ca_parent_session_id := ca_parent_session_id r;
  ca_parent_mission_revision_sha256 := ca_parent_mission_revision_sha256 r;
  ca_commander_thread_id := ca_commander_thread_id r;
  ca_callback_delivery_route := ca_callback_delivery_route r;
  ca_child_session_id := ca_child_session_id r;
  ca_child_runtime_id := ca_child_runtime_id r;
  ca_child_transaction_id := ca_child_transaction_id r;
  ca_child_lease_id := ca_child_lease_id r;
  ca_callback_request_id := ca_callback_request_id r;
  ca_effect_id := ca_effect_id r;
  ca_delegated_input_sha256 := ca_delegated_input_sha256 r;
  ca_execution_payload_sha256 := ca_execution_payload_sha256 r;
  ca_ready_set_identity := ca_ready_set_identity r;
  ca_session_directory := ca_session_directory r;
  ca_session_name := ca_session_name r;
  ca_created_at_ms := ca_created_at_ms r;
|}).

(** [ChildAdmissionRecord::new] and its two builders. *)
Definition ChildAdmissionRecord_new (parent_session_id parent_mission_revision_sha256 : string)
    (commander_thread_id : option string)
    (child_session_id child_runtime_id child_transaction_id child_lease_id
     callback_request_id effect_id delegated_input_sha256 execution_payload_sha256
     session_directory session_name : string) (created_at_ms : Z) : ChildAdmissionRecord := {|
  ca_schema_version := CHILD_ADMISSION_SCHEMA;
  ca_parent_session_id := parent_session_id;
  ca_parent_mission_revision_sha256 := parent_mission_revision_sha256;
  ca_commander_thread_id := commander_thread_id;
  ca_callback_delivery_route := None;
  ca_child_session_id := child_session_id;
  ca_child_runtime_id := child_runtime_id;
  ca_child_transaction_id := child_transaction_id;
  ca_child_lease_id := child_lease_id;
  ca_callback_request_id := callback_request_id;
  ca_effect_id := effect_id;
  ca_delegated_input_sha256 := delegated_input_sha256;
  ca_execution_payload_sha256 := execution_payload_sha256;
  ca_ready_set_identity := None;
  ca_session_directory := session_directory;
  ca_session_name := session_name;
  ca_created_at_ms := created_at_ms;
|}.
Definition with_ready_set_identity (self : ChildAdmissionRecord)
    (identity : ChildReadySetIdentity) : ChildAdmissionRecord :=
  self.{ca_ready_set_identity := Some identity}.
Definition with_callback_delivery_route (self : ChildAdmissionRecord)
    (route : CallbackDeliveryRoute) : ChildAdmissionRecord :=
  self.{ca_callback_delivery_route := Some route}.

Record DirectDeliveryResultEvidence := {
  dd_kind : DirectDeliveryResultKind;
  dd_evidence_sha256 : string;
}.
#[export] Instance DirectDeliveryResultEvidence_eq_dec : EqDecision DirectDeliveryResultEvidence.
Proof. solve_decision. Defined.

Record CommanderConvergenceProof := {
  pr_schema_version : string;
  pr_request_id : string;
  pr_callback_payload_sha256 : string;
  pr_effect_identity_sha256 : string;
  pr_child_session_id : string;
  pr_child_transaction_id : string;
  pr_child_runtime_id : string;
  pr_requested_action : string;
  pr_target_thread_id : string;
  pr_pre_revision_sha256 : string;
  pr_post_revision_sha256 : string;
  pr_target_turn_id : string;
  pr_final_assistant_sha256 : string;
}.
#[export] Instance CommanderConvergenceProof_eq_dec : EqDecision CommanderConvergenceProof.
Proof. solve_decision. Defined.

Record CommanderContinuationBinding := {
  bd_target_thread_id : string;
  bd_requested_action : string;
  bd_continuation_request_id : string;
  bd_child_session_id : string;
  bd_child_transaction_id : string;
  bd_child_runtime_id : string;
  bd_callback_payload_sha256 : string;
  bd_effect_identity_sha256 : string;
  bd_pre_revision_sha256 : string;
}.

Record PendingIdentityFailure := {
  pf_commander_session_id : string;
  pf_transaction_id : string;
  pf_event_id : string;
  pf_kind : IdentityFailureKind;
  pf_blocker : string;
}.
#[export] Instance PendingIdentityFailure_eq_dec : EqDecision PendingIdentityFailure.
Proof. solve_decision. Defined.

Record CheckpointIdentity := {
  ci_commander_session_id : string;
  ci_checkpoint_id : string;
  ci_source_path : string;
  ci_inode : Z;
  ci_size : Z;
  ci_modified_ns : Z;
  ci_sha256 : string;
  ci_complete_write : bool;
  ci_event_kind : CheckpointEventKind;
}.

Record CheckpointEvidence := {
  ce_schema_version : string;
  ce_commander_session_id : string;
  ce_child_session_id : string;
  ce_checkpoint_id : string;
  ce_stage : string;
  ce_next_sequence : Z;
  ce_next_management_sequence : Z;
  ce_persisted_delta_sha256 : string;
}.
#[export] Instance CheckpointEvidence_eq_dec : EqDecision CheckpointEvidence.
Proof. solve_decision. Defined.

Record LifecycleConfig := {
  lc_watchdog_interval_secs : Z;
  lc_event_channel_capacity : Z;
}.
Definition LifecycleConfig_default : LifecycleConfig := {|
  lc_watchdog_interval_secs := DEFAULT_WATCHDOG_INTERVAL_SECS;
  lc_event_channel_capacity := 64;
|}.

Record LiveEffectEvidence := {
  le_runtime_worker_alive : bool;
  le_active_tool_calls : Z;
  le_active_command_runs : Z;
  le_live_effect_processes : Z;
  le_pending_init : bool;
}.

Record SlotReleaseReceipt := {
  rel_schema_version : string;
  rel_transaction_id : string;
  rel_event_id : string;
  rel_commander_session_id : string;
  rel_child_session_id : string;
  rel_runtime_id : string;
  rel_lease_id : string;
  rel_history_readable : bool;
  rel_follow_up_capable : bool;
}.
#[export] Instance SlotReleaseReceipt_eq_dec : EqDecision SlotReleaseReceipt.
Proof. solve_decision. Defined.

Record BlockerRecord := {
  br_schema_version : string;
  br_sequence : Z;
  br_code : string;
  br_detail : string;
  br_commander_session_id : string;
  br_transaction_id : option string;
  br_event_id : option string;
}.
#[export] Instance BlockerRecord_eq_dec : EqDecision BlockerRecord.
Proof. solve_decision. Defined.

Record ReconcileRecord := {
  rr_schema_version : string;
  rr_source : CheckpointEventKind;
  rr_commander_session_id : string;
  rr_checkpoint_id : string;
  rr_blocker : option string;
}.
#[export] Instance ReconcileRecord_eq_dec : EqDecision ReconcileRecord.
Proof. solve_decision. Defined.

(** ** Outcomes *)

Inductive ReceiptWriteOutcome := ReceiptWritten (p : path) | ReceiptAlreadyDurable (p : path).
Inductive IntakeOutcome :=
| Applied (event_seq : Z) | Duplicate (event_seq : Z) | Pending (b : LifecycleBlocker).
Inductive AckOutcome := AckAcknowledged | AlreadyAcknowledged.
Inductive ChildAdmissionOutcome := NewlyAdmitted | AlreadyAdmitted.
Inductive CallbackWriteOutcome := CallbackWritten (p : path) | CallbackAlreadyDurable (p : path).
Inductive CallbackIntakeOutcome := Intaken | AlreadyIntaken.
Inductive ContinuationWriteOutcome :=
| CwPrepared | CwAcknowledged | CwAlreadyPrepared | CwAlreadyDispatched
| CwAlreadyCompleted | CwAlreadyAcknowledged.
Inductive ReclaimOutcome := Released | AlreadyReleased | Retained (b : LifecycleBlocker).

(** ** Records with JSON values *)

Section JsonRecords.
Context `{JsonNumber}.

(** The seven identifiers a receipt is created from. *)
Record TerminalReceiptIdentity := {
  ti_transaction_id : string;
  ti_event_id : string;
  ti_event_seq : Z;
  ti_commander_session_id : string;
  ti_child_session_id : string;
  ti_runtime_id : string;
  ti_lease_id : string;
}.

(** [audit_metadata] is a [BTreeMap]: its entries in key order. *)
Record TerminalReceipt := {
  tr_schema_version : string;
  tr_transaction_id : string;
  tr_event_id : string;
  tr_event_seq : Z;
  tr_commander_session_id : string;
  tr_child_session_id : string;
  tr_runtime_id : string;
  tr_lease_id : string;
  tr_terminal_state : TerminalState;
  tr_finished_at_ms : Z;
  tr_task_id : option string;
  tr_goal_id : option string;
  tr_operator_override : bool;
  tr_history_readable : bool;
  tr_follow_up_capable : bool;
  tr_audit_metadata : list (string * Value);
}.

Definition TerminalReceipt_new (identity : TerminalReceiptIdentity)
    (terminal_state : TerminalState) (finished_at_ms : Z) : TerminalReceipt := {|
  tr_schema_version := RECEIPT_SCHEMA;
  tr_transaction_id := ti_transaction_id identity;
  tr_event_id := ti_event_id identity;
  tr_event_seq := ti_event_seq identity;
  tr_commander_session_id := ti_commander_session_id identity;
  tr_child_session_id := ti_child_session_id identity;
  tr_runtime_id := ti_runtime_id identity;
  tr_lease_id := ti_lease_id identity;
  tr_terminal_state := terminal_state;
  tr_finished_at_ms := finished_at_ms;
  tr_task_id := None;
  tr_goal_id := None;
  tr_operator_override := false;
  tr_history_readable := true;
  tr_follow_up_capable := true;
  tr_audit_metadata := [];
|}.

(** The fields of a receipt other than its metadata. *)
Definition tr_plain (r : TerminalReceipt) :=
  (tr_schema_version r, tr_transaction_id r, tr_event_id r, tr_event_seq r,
   tr_commander_session_id r, tr_child_session_id r, tr_runtime_id r, tr_lease_id r,
   tr_terminal_state r, tr_finished_at_ms r, tr_task_id r, tr_goal_id r,
   tr_operator_override r, tr_history_readable r, tr_follow_up_capable r).
(** [PartialEq for TerminalReceipt]. *)
Definition TerminalReceipt_eqb (a b : TerminalReceipt) : bool :=
  bool_decide (tr_plain a = tr_plain b)
  && value_eqb (VObject (tr_audit_metadata a)) (VObject (tr_audit_metadata b)).

Record StoredReceipt := {
  sr_schema_version : string;
  sr_payload_sha256 : string;
  sr_receipt : TerminalReceipt;
}.
Definition StoredReceipt_eqb (a b : StoredReceipt) : bool :=
  bool_decide (sr_schema_version a = sr_schema_version b)
  && bool_decide (sr_payload_sha256 a = sr_payload_sha256 b)
  && TerminalReceipt_eqb (sr_receipt a) (sr_receipt b).

Record DurableCallbackRecord := {
  cb_schema_version : string;
  cb_transaction_id : string;
  cb_event_id : string;
  cb_commander_session_id : string;
  cb_child_session_id : string;
  cb_runtime_id : string;
  cb_lease_id : string;
  cb_terminal_receipt_sha256 : string;
  cb_terminal_state : TerminalState;
  cb_callback_payload : Value;
  cb_callback_payload_sha256 : string;
  cb_transport_payload : Value;
  cb_transport_payload_sha256 : string;
  cb_parent_mission_revision_sha256 : string;
  cb_commander_thread_id : option string;
  cb_callback_delivery_route : option CallbackDeliveryRoute;
  cb_delegated_input_sha256 : string;
  cb_effect_identity : CallbackEffectIdentity;
}.

Definition cb_plain (r : DurableCallbackRecord) :=
  (cb_schema_version r, cb_transaction_id r, cb_event_id r, cb_commander_session_id r,
   cb_child_session_id r, cb_runtime_id r, cb_lease_id r, cb_terminal_receipt_sha256 r,
   cb_terminal_state r, cb_callback_payload_sha256 r, cb_transport_payload_sha256 r,
   cb_parent_mission_revision_sha256 r, cb_commander_thread_id r,
   cb_callback_delivery_route r, cb_delegated_input_sha256 r, cb_effect_identity r).
(** [PartialEq for DurableCallbackRecord]. *)
Definition DurableCallbackRecord_eqb (a b : DurableCallbackRecord) : bool :=
  bool_decide (cb_plain a = cb_plain b)
  && value_eqb (cb_callback_payload a) (cb_callback_payload b)
  && value_eqb (cb_transport_payload a) (cb_transport_payload b).

Record CallbackAcknowledgement := {
  cba_schema_version : string;
  cba_record : DurableCallbackRecord;
}.
Definition CallbackAcknowledgement_eqb (a b : CallbackAcknowledgement) : bool :=
  bool_decide (cba_schema_version a = cba_schema_version b)
  && DurableCallbackRecord_eqb (cba_record a) (cba_record b).

Record ContinuationDispatchRecord := {
  cd_schema_version : string;
  cd_request_id : string;
  cd_runtime_id : string;
  cd_lease_id : string;
  cd_commander_session_id : string;
  cd_child_session_id : string;
  cd_child_transaction_id : string;
  cd_child_event_id : string;
  cd_child_runtime_id : string;
  cd_callback_payload_sha256 : string;
  cd_parent_mission_revision_sha256 : string;
  cd_commander_thread_id : option string;
  cd_callback_delivery_route : option CallbackDeliveryRoute;
  cd_delegated_input_sha256 : string;
  cd_effect_identity : CallbackEffectIdentity;
  cd_parent_input : Value;
  cd_requested_action : string;
  cd_convergence_proof : option CommanderConvergenceProof;
  cd_direct_delivery_call_id : option string;
  cd_delivered_message_sha256 : option string;
  cd_direct_delivery_result : option DirectDeliveryResultEvidence;
  cd_state : ContinuationDispatchState;
}.

(** The fields that identify a continuation; the last five record its
    progress. *)
Definition cd_bound (r : ContinuationDispatchRecord) :=
  (cd_schema_version r, cd_request_id r, cd_runtime_id r, cd_lease_id r,
   cd_commander_session_id r, cd_child_session_id r, cd_child_transaction_id r,
   cd_child_event_id r, cd_child_runtime_id r, cd_callback_payload_sha256 r,
   cd_parent_mission_revision_sha256 r, cd_commander_thread_id r,
   cd_callback_delivery_route r, cd_delegated_input_sha256 r, cd_effect_identity r,
   cd_requested_action r).
Definition cd_progress (r : ContinuationDispatchRecord) :=
  (cd_convergence_proof r, cd_direct_delivery_call_id r, cd_delivered_message_sha256 r,
   cd_direct_delivery_result r, cd_state r).
(** [PartialEq for ContinuationDispatchRecord]. *)
Definition ContinuationDispatchRecord_eqb (a b : ContinuationDispatchRecord) : bool :=
  bool_decide (cd_bound a = cd_bound b) && bool_decide (cd_progress a = cd_progress b)
  && value_eqb (cd_parent_input a) (cd_parent_input b).

(** A record with its five progress fields replaced. *)
Definition with_progress (r : ContinuationDispatchRecord)
    (proof : option CommanderConvergenceProof) (call_id message_sha256 : option string)
    (result : option DirectDeliveryResultEvidence) (state : ContinuationDispatchState)
    : ContinuationDispatchRecord := {|
  cd_schema_version := cd_schema_version r;
  cd_request_id := cd_request_id r;
  cd_runtime_id := cd_runtime_id r;
  cd_lease_id := cd_lease_id r;
  cd_commander_session_id := cd_commander_session_id r;
  cd_child_session_id := cd_child_session_id r;
  cd_child_transaction_id := cd_child_transaction_id r;
  cd_child_event_id := cd_child_event_id r;
  cd_child_runtime_id := cd_child_runtime_id r;
  cd_callback_payload_sha256 := cd_callback_payload_sha256 r;
  cd_parent_mission_revision_sha256 := cd_parent_mission_revision_sha256 r;
  cd_commander_thread_id := cd_commander_thread_id r;
  cd_callback_delivery_route := cd_callback_delivery_route r;
  cd_delegated_input_sha256 := cd_delegated_input_sha256 r;
  cd_effect_identity := cd_effect_identity r;
  cd_parent_input := cd_parent_input r;
  cd_requested_action := cd_requested_action r;
  cd_convergence_proof := proof;
  cd_direct_delivery_call_id := call_id;
  cd_delivered_message_sha256 := message_sha256;
  cd_direct_delivery_result := result;
  cd_state := state;
|}.
Definition set_state (r : ContinuationDispatchRecord) (state : ContinuationDispatchState) :=
  with_progress r (cd_convergence_proof r) (cd_direct_delivery_call_id r)
    (cd_delivered_message_sha256 r) (cd_direct_delivery_result r) state.
Definition set_convergence_proof (r : ContinuationDispatchRecord)
    (proof : option CommanderConvergenceProof) :=
  with_progress r proof (cd_direct_delivery_call_id r)
    (cd_delivered_message_sha256 r) (cd_direct_delivery_result r) (cd_state r).
Definition set_direct_delivery (r : ContinuationDispatchRecord)
    (call_id message_sha256 : option string) :=
  with_progress r (cd_convergence_proof r) call_id message_sha256
    (cd_direct_delivery_result r) (cd_state r).
Definition set_direct_delivery_result (r : ContinuationDispatchRecord)
    (result : option DirectDeliveryResultEvidence) :=
  with_progress r (cd_convergence_proof r) (cd_direct_delivery_call_id r)
    (cd_delivered_message_sha256 r) result (cd_state r).

(** [continuation_bound_fields_match]: both copies lose their progress, then
    [==]. *)
Definition continuation_bound_fields_match (existing expected : ContinuationDispatchRecord)
    : bool :=
  ContinuationDispatchRecord_eqb (with_progress existing None None None None Prepared)
    (with_progress expected None None None None Prepared).

Definition continuation_existing_outcome (state : ContinuationDispatchState)
    : ContinuationWriteOutcome :=
  match state with
  | Prepared => CwAlreadyPrepared
  | DeliveryUnsettled => CwAlreadyPrepared
  | Dispatched => CwAlreadyDispatched
  | Completed => CwAlreadyCompleted
  | Acknowledged => CwAlreadyAcknowledged
  end.

Lemma bound_fields_match a b :
  continuation_bound_fields_match a b = true →
  cd_bound a = cd_bound b ∧ value_eqb (cd_parent_input a) (cd_parent_input b) = true.
Proof.
  unfold continuation_bound_fields_match, ContinuationDispatchRecord_eqb.
  intros Heq. guards. done.
Qed.

Section Refl.
Context `{!JsonNumberLaws _}.
Lemma TerminalReceipt_eqb_refl r : TerminalReceipt_eqb r r = true.
Proof.
  unfold TerminalReceipt_eqb. by rewrite bool_decide_eq_true_2, value_eqb_refl.
Qed.
Lemma StoredReceipt_eqb_refl r : StoredReceipt_eqb r r = true.
Proof.
  unfold StoredReceipt_eqb.
  by rewrite !bool_decide_eq_true_2, TerminalReceipt_eqb_refl.
Qed.
Lemma DurableCallbackRecord_eqb_refl r : DurableCallbackRecord_eqb r r = true.
Proof.
  unfold DurableCallbackRecord_eqb. by rewrite bool_decide_eq_true_2, !value_eqb_refl.
Qed.
Lemma CallbackAcknowledgement_eqb_refl r : CallbackAcknowledgement_eqb r r = true.
Proof.
  unfold CallbackAcknowledgement_eqb.
  by rewrite bool_decide_eq_true_2, DurableCallbackRecord_eqb_refl.
Qed.
Lemma bound_fields_match_progress r p c m d s :
  continuation_bound_fields_match (with_progress r p c m d s) r = true.
Proof.
  unfold continuation_bound_fields_match, ContinuationDispatchRecord_eqb.
  rewrite !bool_decide_eq_true_2 by reflexivity. apply value_eqb_refl.
Qed.
End Refl.
End JsonRecords.
#[export] Hint Resolve TerminalReceipt_eqb_refl StoredReceipt_eqb_refl
  DurableCallbackRecord_eqb_refl CallbackAcknowledgement_eqb_refl : lifecycle.
