(* ===== verification/StoreChecks.v ===== *)
(** * Validators and derived identities of the lifecycle store

    The functions of [session_lifecycle/src/lib.rs] that do not touch a file:
    file keys and digests, the checks a record must pass, the continuation
    derived from a callback, and the blockers of a slot that is still in use.
    [CommanderConvergenceProof::validate_shape] is the one of
    [runtime_contract/src/lib.rs]. *)

From stdpp Require Import base list strings gmap sorting pretty.
From Stdlib Require Import ZArith Lia Ascii.
From S2P Require Import Prelude RustStd Externals TaskData TaskIdentity FileSystem StoreData.
Open Scope Z_scope.

(** ** Identifiers and digests *)

Definition require_identifier (name value : string) : LifecycleResult unit :=
  reject_if (is_blank value) (blocker "LIFECYCLE_IDENTITY_MISSING" name).

Definition require_sha256 (name value : string) : LifecycleResult unit :=
  reject_if (negb ((len value =? 64) && bytes_all is_lower_hex value))
    (blocker "LIFECYCLE_SHA256_INVALID" name).

(** [for (name, value) in [...] { check(name, value)?; }]. *)
Fixpoint require_all (check : string → string → LifecycleResult unit)
    (fields : list (string * string)) : LifecycleResult unit :=
  match fields with
  | [] => Ok tt
  | (name, value) :: rest => check name value;; require_all check rest
  end.

Definition require_direct_writer_binding (commander_thread_id : option string)
    (callback_delivery_route : option CallbackDeliveryRoute) (code detail : string)
    : LifecycleResult unit :=
  reject_if
    (match commander_thread_id with None => true | Some value => is_blank value end
     || negb (bool_decide (callback_delivery_route = Some TrustedTuraDirectThreadWriter)))
    (blocker code detail).

(** [hasher.update(value.as_bytes()); hasher.update([0]);]. *)
Definition nul : string := String (ascii_of_nat 0) EmptyString.
Fixpoint nul_terminated (values : list string) : string :=
  match values with
  | [] => EmptyString
  | v :: rest => v +:+ nul +:+ nul_terminated rest
  end.

Section Keys.
Context `{Sha2}.

Definition receipt_key (transaction_id event_id : string) : string :=
  sha256_hex (transaction_id +:+ nul +:+ event_id) +:+ ".json".

Definition child_admission_key (child_session_id : string) : string :=
  sha256_hex child_session_id +:+ ".json".

Definition checkpoint_evidence_id (commander_session_id child_session_id stage : string)
    (next_sequence next_management_sequence : Z) (persisted_delta_sha256 : string) : string :=
  sha256_hex (nul_terminated
    [commander_session_id; child_session_id; stage; pretty next_sequence;
     pretty next_management_sequence; persisted_delta_sha256]).

(** [commander_store_path]. *)
Definition commander_store_path (base commander_session_id : string) : LifecycleResult string :=
  require_identifier "commander_session_id" commander_session_id;;
  Ok (base +:+ "/" +:+ sha256_hex commander_session_id).
End Keys.

(** ** Configuration *)

(** [LifecycleConfig::validate]. *)
Definition LifecycleConfig_validate (self : LifecycleConfig) : LifecycleResult LifecycleConfig :=
  reject_if (lc_watchdog_interval_secs self <? MINIMUM_WATCHDOG_INTERVAL_SECS)
    (blocker "WATCHDOG_INTERVAL_NOT_DEMOTED" (pretty (lc_watchdog_interval_secs self)));;
  reject_if (lc_event_channel_capacity self =? 0)
    (blocker "NATIVE_EVENT_CHANNEL_UNBOUNDED_OR_EMPTY" "capacity must be positive");;
  Ok self.

(** ** Admissions *)

(** The test [ChildReadySetIdentity::validate] repeats for each list. *)
Definition scope_values_invalid (values : list string) : bool :=
  (128 <? Z.of_nat (length values))
  || existsb (λ value, is_blank value || negb (bool_decide (trim value = value))
                       || (1024 <? len value)) values
  || negb (windows2_all str_lt values).

Fixpoint require_scopes (fields : list (string * list string)) : LifecycleResult unit :=
  match fields with
  | [] => Ok tt
  | (field, values) :: rest =>
      reject_if (scope_values_invalid values)
        (blocker "CHILD_READY_SET_SCOPE_IDENTITY_INVALID" field);;
      require_scopes rest
  end.

Definition ChildReadySetIdentity_validate (self : ChildReadySetIdentity) : LifecycleResult unit :=
  reject_if (negb (bool_decide (rs_schema_version self = CHILD_READY_SET_IDENTITY_SCHEMA)))
    (blocker "CHILD_READY_SET_SCHEMA_UNSUPPORTED" (rs_schema_version self));;
  require_identifier "mission_id" (rs_mission_id self);;
  require_identifier "task_id" (rs_task_id self);;
  require_all require_sha256
    [("semantic_dispatch_key", rs_semantic_dispatch_key self);
     ("parent_task_plan_sha256", rs_parent_task_plan_sha256 self);
     ("task_scheduling_contract_sha256", rs_task_scheduling_contract_sha256 self);
     ("scope_claim_sha256", rs_scope_claim_sha256 self);
     ("task_context_capsule_semantic_sha256", rs_task_context_capsule_semantic_sha256 self)];;
  require_scopes
    [("read_scopes", rs_read_scopes self); ("write_scopes", rs_write_scopes self);
     ("conflict_identities", rs_conflict_identities self)].

(** ** Convergence proofs ([runtime_contract]): errors are texts *)

Fixpoint require_texts (invalid : string → bool) (prefix : string)
    (fields : list (string * string)) : outcome string unit :=
  match fields with
  | [] => Ok tt
  | (name, value) :: rest =>
      reject_if (invalid value) (prefix +:+ name);; require_texts invalid prefix rest
  end.

Definition is_continuation_action (action : string) : bool :=
  bool_decide (action = "MISSION_VERIFICATION") || bool_decide (action = "ROUTE_SELECTION").

(** [CommanderContinuationBinding::validate]. *)
Definition CommanderContinuationBinding_validate (self : CommanderContinuationBinding)
    : outcome string unit :=
  require_texts is_blank "COMMANDER_CONTINUATION_IDENTITY_MISSING:"
    [("target_thread_id", bd_target_thread_id self);
     ("requested_action", bd_requested_action self);
     ("continuation_request_id", bd_continuation_request_id self);
     ("child_session_id", bd_child_session_id self);
     ("child_transaction_id", bd_child_transaction_id self);
     ("child_runtime_id", bd_child_runtime_id self)];;
  reject_if (negb (is_continuation_action (bd_requested_action self)))
    "COMMANDER_CONTINUATION_ACTION_INVALID";;
  require_texts (λ v, negb (is_lower_sha256 v)) "COMMANDER_CONTINUATION_IDENTITY_INVALID:"
    [("callback_payload_sha256", bd_callback_payload_sha256 self);
     ("effect_identity_sha256", bd_effect_identity_sha256 self);
     ("pre_revision_sha256", bd_pre_revision_sha256 self)].

(** [CommanderConvergenceProof::validate_shape]. *)
Definition validate_shape (self : CommanderConvergenceProof) : outcome string unit :=
  reject_if (negb (bool_decide
               (pr_schema_version self = COMMANDER_CONVERGENCE_PROOF_SCHEMA_VERSION)))
    "COMMANDER_CONVERGENCE_PROOF_SCHEMA_UNSUPPORTED";;
  CommanderContinuationBinding_validate {|
    bd_target_thread_id := pr_target_thread_id self;
    bd_requested_action := pr_requested_action self;
    bd_continuation_request_id := pr_request_id self;
    bd_child_session_id := pr_child_session_id self;
    bd_child_transaction_id := pr_child_transaction_id self;
    bd_child_runtime_id := pr_child_runtime_id self;
    bd_callback_payload_sha256 := pr_callback_payload_sha256 self;
    bd_effect_identity_sha256 := pr_effect_identity_sha256 self;
    bd_pre_revision_sha256 := pr_pre_revision_sha256 self |};;
  reject_if (is_blank (pr_target_turn_id self))
    "COMMANDER_CONVERGENCE_PROOF_IDENTITY_MISSING:target_turn_id";;
  require_texts (λ v, negb (is_lower_sha256 v)) "COMMANDER_CONVERGENCE_PROOF_IDENTITY_INVALID:"
    [("post_revision_sha256", pr_post_revision_sha256 self);
     ("final_assistant_sha256", pr_final_assistant_sha256 self)];;
  reject_if (bool_decide (pr_post_revision_sha256 self = pr_pre_revision_sha256 self))
    "COMMANDER_CONVERGENCE_PROOF_REVISION_DID_NOT_ADVANCE".

(** ** Slots still in use *)

Definition reclaim_blocker (evidence : LiveEffectEvidence) : option LifecycleBlocker :=
  if le_runtime_worker_alive evidence then
    Some (blocker "LIVE_RUNTIME_WORKER_REMAINS" "runtime_worker_alive=true")
  else if 0 <? le_active_tool_calls evidence then
    Some (blocker "LIVE_TOOL_CALL_REMAINS" (pretty (le_active_tool_calls evidence)))
  else if 0 <? le_active_command_runs evidence then
    Some (blocker "LIVE_COMMAND_RUN_REMAINS" (pretty (le_active_command_runs evidence)))
  else if 0 <? le_live_effect_processes evidence then
    Some (blocker "LIVE_EFFECT_PROCESS_REMAINS" (pretty (le_live_effect_processes evidence)))
  else if le_pending_init evidence then
    Some (blocker "PENDING_INIT_REMAINS" "pending_init=true")
  else None.

(** ** The store, and the checks that need only its identity *)

Record SessionLifecycleStore := {
  sl_root : string;
  sl_commander_session_id : string;
  sl_config : LifecycleConfig;
}.

Definition CheckpointEventKind_debug (kind : CheckpointEventKind) : string :=
  match kind with
  | CloseWrite => "CloseWrite"
  | Modify => "Modify"
  | WatchdogReconcile => "WatchdogReconcile"
  end.

Definition validate_child_admission (self : SessionLifecycleStore) (record : ChildAdmissionRecord)
    : LifecycleResult unit :=
  reject_if (negb (bool_decide (ca_schema_version record = CHILD_ADMISSION_SCHEMA)))
    (blocker "CHILD_ADMISSION_SCHEMA_UNSUPPORTED" (ca_schema_version record));;
  require_all require_identifier
    [("parent_session_id", ca_parent_session_id record);
     ("child_session_id", ca_child_session_id record);
     ("child_runtime_id", ca_child_runtime_id record);
     ("child_transaction_id", ca_child_transaction_id record);
     ("child_lease_id", ca_child_lease_id record);
     ("callback_request_id", ca_callback_request_id record);
     ("effect_id", ca_effect_id record);
     ("session_directory", ca_session_directory record);
     ("session_name", ca_session_name record)];;
  require_all require_sha256
    [("parent_mission_revision_sha256", ca_parent_mission_revision_sha256 record);
     ("delegated_input_sha256", ca_delegated_input_sha256 record);
     ("execution_payload_sha256", ca_execution_payload_sha256 record)];;
  match ca_ready_set_identity record with
  | Some identity => ChildReadySetIdentity_validate identity
  | None => Ok tt
  end;;
  reject_if (negb (bool_decide (ca_parent_session_id record = sl_commander_session_id self)))
    (blocker "CHILD_ADMISSION_PARENT_IDENTITY_MISMATCH" (ca_parent_session_id record));;
  reject_if (bool_decide (ca_parent_session_id record = ca_child_session_id record))
    (blocker "CHILD_ADMISSION_IDENTITY_CONFLICT" "parent_equals_child");;
  reject_if (negb (bool_decide
               (ca_callback_request_id record = ca_child_transaction_id record)))
    (blocker "CHILD_ADMISSION_CALLBACK_IDENTITY_CONFLICT" (ca_callback_request_id record));;
  let canonical_effect_id := ca_child_runtime_id record +:+ ".message" in
  reject_if (negb (bool_decide (ca_effect_id record = canonical_effect_id)))
    (blocker "CHILD_ADMISSION_EFFECT_IDENTITY_CONFLICT"
       ("expected=" +:+ canonical_effect_id +:+ ",actual=" +:+ ca_effect_id record));;
  reject_if (ca_created_at_ms record <=? 0)
    (blocker "CHILD_ADMISSION_IDENTITY_INVALID" "created_at_ms").

Definition validate_checkpoint_pair (self : SessionLifecycleStore)
    (first stable : CheckpointIdentity) (watchdog : bool) : LifecycleResult CheckpointIdentity :=
  reject_if (negb (bool_decide (ci_commander_session_id first = sl_commander_session_id self))
             || negb (bool_decide (ci_commander_session_id stable = sl_commander_session_id self)))
    (blocker "CHECKPOINT_SESSION_IDENTITY_MISMATCH" (ci_commander_session_id stable));;
  reject_if (is_blank (ci_checkpoint_id first) || is_blank (ci_checkpoint_id stable))
    (blocker "CHECKPOINT_IDENTITY_MISSING" "checkpoint_id");;
  reject_if (negb watchdog
             && negb (match ci_event_kind first with CloseWrite | Modify => true | _ => false end))
    (blocker "CHECKPOINT_NATIVE_EVENT_REQUIRED" (CheckpointEventKind_debug (ci_event_kind first)));;
  reject_if (negb (ci_complete_write first) || negb (ci_complete_write stable))
    (blocker "CHECKPOINT_WRITE_INCOMPLETE" (ci_checkpoint_id stable));;
  reject_if (negb (bool_decide (ci_checkpoint_id first = ci_checkpoint_id stable))
             || negb (bool_decide (ci_source_path first = ci_source_path stable))
             || negb (ci_inode first =? ci_inode stable)
             || negb (ci_size first =? ci_size stable)
             || negb (ci_modified_ns first =? ci_modified_ns stable)
             || negb (bool_decide (ci_sha256 first = ci_sha256 stable)))
    (blocker "CHECKPOINT_SOURCE_NOT_STABLE" (ci_checkpoint_id stable));;
  reject_if (negb (len (ci_sha256 stable) =? 64))
    (blocker "CHECKPOINT_SHA256_INVALID" (ci_sha256 stable));;
  Ok stable.

(** ** Serialised enumerations *)

Definition TerminalState_name (s : TerminalState) : string :=
  match s with
  | TsCompleted => "completed" | TsFailed => "failed"
  | TsCancelled => "cancelled" | TsInterrupted => "interrupted"
  end.
Definition CallbackDeliveryRoute_name (r : CallbackDeliveryRoute) : string :=
  match r with TrustedTuraDirectThreadWriter => "trusted_tura_direct_thread_writer" end.
Definition ContinuationDispatchState_debug (s : ContinuationDispatchState) : string :=
  match s with
  | Prepared => "Prepared" | DeliveryUnsettled => "DeliveryUnsettled"
  | Dispatched => "Dispatched" | Completed => "Completed" | Acknowledged => "Acknowledged"
  end.

(** [matches!(effect, CallbackEffectIdentity::UnsettledEffect { .. })]. *)
Definition is_unsettled (effect : CallbackEffectIdentity) : bool :=
  match effect with UnsettledEffect _ _ => true | _ => false end.

Section StoreJson.
Context `{SerdeJson, Sha2}.

(** [serde_json::to_value] of an effect identity (tag [kind]) and of a
    route. *)
Definition effect_to_value (effect : CallbackEffectIdentity) : Value :=
  match effect with
  | Exact effect_id =>
      json_object [("kind", VString "exact"); ("effect_id", VString effect_id)]
  | ProvenZeroEffect classification evidence_sha256 =>
      json_object [("kind", VString "proven_zero_effect");
                   ("classification", VString classification);
                   ("evidence_sha256", VString evidence_sha256)]
  | UnsettledEffect classification evidence_sha256 =>
      json_object [("kind", VString "unsettled_effect");
                   ("classification", VString classification);
                   ("evidence_sha256", VString evidence_sha256)]
  end.
Definition route_to_value (route : CallbackDeliveryRoute) : Value :=
  VString (CallbackDeliveryRoute_name route).

(** [value.pointer("/a/b")] for keys that need no escape. *)
Fixpoint value_pointer (v : Value) (keys : list string) : option Value :=
  match keys with
  | [] => Some v
  | k :: rest => value_get v k ≫= λ x, value_pointer x rest
  end.

(** [payload_sha256]. *)
Definition payload_sha256 `{!Serde TerminalReceipt} (receipt : TerminalReceipt) : string :=
  sha256_hex (to_vec receipt).

(** [DurableCallbackRecord::new]. *)
Definition DurableCallbackRecord_new `{!Serde TerminalReceipt} (receipt : TerminalReceipt)
    (callback_payload transport_payload : Value)
    (parent_mission_revision_sha256 delegated_input_sha256 : string)
    (effect_identity : CallbackEffectIdentity) : DurableCallbackRecord := {|
  cb_schema_version := CALLBACK_SCHEMA;
  cb_transaction_id := tr_transaction_id receipt;
  cb_event_id := tr_event_id receipt;
  cb_commander_session_id := tr_commander_session_id receipt;
  cb_child_session_id := tr_child_session_id receipt;
  cb_runtime_id := tr_runtime_id receipt;
  cb_lease_id := tr_lease_id receipt;
  cb_terminal_receipt_sha256 := payload_sha256 receipt;
  cb_terminal_state := tr_terminal_state receipt;
  cb_callback_payload := callback_payload;
  cb_callback_payload_sha256 := canonical_value_sha256 callback_payload;
  cb_transport_payload := transport_payload;
  cb_transport_payload_sha256 := canonical_value_sha256 transport_payload;
  cb_parent_mission_revision_sha256 := parent_mission_revision_sha256;
  cb_commander_thread_id := None;
  cb_callback_delivery_route := None;
  cb_delegated_input_sha256 := delegated_input_sha256;
  cb_effect_identity := effect_identity;
|}.

(** ** Identity of a continuation *)

Definition continuation_identity_sha256_from_fields (commander_session_id commander_thread_id : string)
    (callback_delivery_route : CallbackDeliveryRoute)
    (child_session_id transaction_id event_id child_runtime_id callback_payload_sha256
     parent_mission_revision_sha256 delegated_input_sha256 : string)
    (effect_identity : CallbackEffectIdentity) : string :=
  let effect_sha256 := canonical_value_sha256 (effect_to_value effect_identity) in
  let route_sha256 := canonical_value_sha256 (route_to_value callback_delivery_route) in
  sha256_hex (nul_terminated
    [commander_session_id; commander_thread_id; route_sha256; child_session_id;
     transaction_id; event_id; child_runtime_id; callback_payload_sha256;
     parent_mission_revision_sha256; delegated_input_sha256; effect_sha256]).

(** The error of [ok_or_else] on a missing thread or route. *)
Definition require_thread (o : option string) (detail : string) : LifecycleResult string :=
  ok_or o (blocker "CONTINUATION_COMMANDER_THREAD_ID_MISSING" detail).
Definition require_route (o : option CallbackDeliveryRoute) (detail : string)
    : LifecycleResult CallbackDeliveryRoute :=
  ok_or o (blocker "CONTINUATION_DIRECT_WRITER_ROUTE_MISSING" detail).

Definition continuation_identity_sha256 (callback : DurableCallbackRecord)
    : LifecycleResult string :=
  thread ← require_thread (cb_commander_thread_id callback) (cb_event_id callback);
  route ← require_route (cb_callback_delivery_route callback) (cb_event_id callback);
  Ok (continuation_identity_sha256_from_fields (cb_commander_session_id callback) thread route
        (cb_child_session_id callback) (cb_transaction_id callback) (cb_event_id callback)
        (cb_runtime_id callback) (cb_callback_payload_sha256 callback)
        (cb_parent_mission_revision_sha256 callback) (cb_delegated_input_sha256 callback)
        (cb_effect_identity callback)).

Definition continuation_bound_identity_sha256 (record : ContinuationDispatchRecord)
    : LifecycleResult string :=
  thread ← require_thread (cd_commander_thread_id record) (cd_request_id record);
  route ← require_route (cd_callback_delivery_route record) (cd_request_id record);
  Ok (continuation_identity_sha256_from_fields (cd_commander_session_id record) thread route
        (cd_child_session_id record) (cd_child_transaction_id record) (cd_child_event_id record)
        (cd_child_runtime_id record) (cd_callback_payload_sha256 record)
        (cd_parent_mission_revision_sha256 record) (cd_delegated_input_sha256 record)
        (cd_effect_identity record)).

(** The JSON document of [ContinuationDispatchRecord::from_callback]. *)
Definition continuation_parent_input (callback : DurableCallbackRecord)
    (route : CallbackDeliveryRoute) (thread requested_action : string) : Value :=
  json_object
    [("schema_version", VString "tura_internal_callback_continuation_v1");
     ("authority", VString "none");
     ("requested_action", VString requested_action);
     ("delivery", json_object
        [("route", route_to_value route); ("target_thread_id", VString thread)]);
     ("callback", json_object
        [("child_session_id", VString (cb_child_session_id callback));
         ("transaction_id", VString (cb_transaction_id callback));
         ("event_id", VString (cb_event_id callback));
         ("runtime_id", VString (cb_runtime_id callback));
         ("terminal_state", VString (TerminalState_name (cb_terminal_state callback)));
         ("result", cb_callback_payload callback);
         ("callback_payload_sha256", VString (cb_callback_payload_sha256 callback));
         ("parent_mission_revision_sha256", VString (cb_parent_mission_revision_sha256 callback));
         ("delegated_input_sha256", VString (cb_delegated_input_sha256 callback));
         ("effect_identity", effect_to_value (cb_effect_identity callback))]);
     ("acknowledgement", json_object
        [("schema_version", VString "tura_commander_callback_ack_v1");
         ("required_after", VString requested_action);
         ("method", VString "POST");
         ("path", VString ("/session/" +:+ cb_commander_session_id callback +:+ "/children/"
                           +:+ cb_child_session_id callback +:+ "/callback/ack"));
         ("request", json_object
            [("parent_session_id", VString (cb_commander_session_id callback));
             ("parent_mission_revision_sha256",
              VString (cb_parent_mission_revision_sha256 callback));
             ("commander_thread_id", VString thread);
             ("child_session_id", VString (cb_child_session_id callback));
             ("child_runtime_id", VString (cb_runtime_id callback));
             ("child_lease_id", VString (cb_lease_id callback));
             ("transaction_id", VString (cb_transaction_id callback));
             ("event_id", VString (cb_event_id callback));
             ("callback_payload_sha256", VString (cb_callback_payload_sha256 callback));
             ("effect_identity", effect_to_value (cb_effect_identity callback))])])].

(** [ContinuationDispatchRecord::from_callback]. *)
Definition from_callback (callback : DurableCallbackRecord)
    : LifecycleResult ContinuationDispatchRecord :=
  reject_if (is_unsettled (cb_effect_identity callback))
    (blocker "CONTINUATION_UNSETTLED_EFFECT_BLOCKED" (cb_event_id callback));;
  callback_delivery_route ←
    require_route (cb_callback_delivery_route callback) (cb_event_id callback);
  commander_thread_id ← require_thread (cb_commander_thread_id callback) (cb_event_id callback);
  digest ← continuation_identity_sha256 callback;
  let requested_action :=
    if bool_decide (cb_terminal_state callback = TsCompleted)
    then "MISSION_VERIFICATION" else "ROUTE_SELECTION" in
  Ok {|
    cd_schema_version := CONTINUATION_SCHEMA;
    cd_request_id := "callback-continuation-request-" +:+ digest;
    cd_runtime_id := "callback-continuation-runtime-" +:+ digest;
    cd_lease_id := "callback-continuation-lease-" +:+ digest;
    cd_commander_session_id := cb_commander_session_id callback;
    cd_child_session_id := cb_child_session_id callback;
    cd_child_transaction_id := cb_transaction_id callback;
    cd_child_event_id := cb_event_id callback;
    cd_child_runtime_id := cb_runtime_id callback;
    cd_callback_payload_sha256 := cb_callback_payload_sha256 callback;
    cd_parent_mission_revision_sha256 := cb_parent_mission_revision_sha256 callback;
    cd_commander_thread_id := Some commander_thread_id;
    cd_callback_delivery_route := Some callback_delivery_route;
    cd_delegated_input_sha256 := cb_delegated_input_sha256 callback;
    cd_effect_identity := cb_effect_identity callback;
    cd_parent_input := continuation_parent_input callback callback_delivery_route
                         commander_thread_id requested_action;
    cd_requested_action := requested_action;
    cd_convergence_proof := None;
    cd_direct_delivery_call_id := None;
    cd_delivered_message_sha256 := None;
    cd_direct_delivery_result := None;
    cd_state := Prepared;
  |}.

(** ** Checks of receipts, callbacks and continuations *)

Definition validate_receipt (self : SessionLifecycleStore) (receipt : TerminalReceipt)
    : LifecycleResult unit :=
  reject_if (negb (bool_decide (tr_schema_version receipt = RECEIPT_SCHEMA)))
    (blocker "RECEIPT_SCHEMA_UNSUPPORTED" (tr_schema_version receipt));;
  require_all require_identifier
    [("transaction_id", tr_transaction_id receipt);
     ("event_id", tr_event_id receipt);
     ("commander_session_id", tr_commander_session_id receipt);
     ("child_session_id", tr_child_session_id receipt);
     ("runtime_id", tr_runtime_id receipt);
     ("lease_id", tr_lease_id receipt)];;
  reject_if (negb (bool_decide (tr_commander_session_id receipt = sl_commander_session_id self)))
    (blocker "COMMANDER_IDENTITY_MISMATCH" (tr_commander_session_id receipt));;
  reject_if (negb (tr_history_readable receipt) || negb (tr_follow_up_capable receipt))
    (blocker "HISTORY_OR_FOLLOW_UP_NOT_PRESERVED" (tr_event_id receipt)).

(** [validate_callback_with_lock_state] up to the lookup of the receipt. *)
Definition validate_callback_fields (self : SessionLifecycleStore) (record : DurableCallbackRecord)
    : LifecycleResult unit :=
  reject_if (negb (bool_decide (cb_schema_version record = CALLBACK_SCHEMA)))
    (blocker "CALLBACK_SCHEMA_UNSUPPORTED" (cb_schema_version record));;
  require_all require_identifier
    [("transaction_id", cb_transaction_id record);
     ("event_id", cb_event_id record);
     ("commander_session_id", cb_commander_session_id record);
     ("child_session_id", cb_child_session_id record);
     ("runtime_id", cb_runtime_id record);
     ("lease_id", cb_lease_id record)];;
  require_all require_sha256
    [("terminal_receipt_sha256", cb_terminal_receipt_sha256 record);
     ("callback_payload_sha256", cb_callback_payload_sha256 record);
     ("transport_payload_sha256", cb_transport_payload_sha256 record);
     ("parent_mission_revision_sha256", cb_parent_mission_revision_sha256 record);
     ("delegated_input_sha256", cb_delegated_input_sha256 record)];;
  reject_if (negb (bool_decide (cb_commander_session_id record = sl_commander_session_id self)))
    (blocker "COMMANDER_IDENTITY_MISMATCH" (cb_commander_session_id record));;
  reject_if
    (negb (bool_decide (canonical_value_sha256 (cb_callback_payload record)
                        = cb_callback_payload_sha256 record))
     || negb (bool_decide (canonical_value_sha256 (cb_transport_payload record)
                           = cb_transport_payload_sha256 record)))
    (blocker "CALLBACK_PAYLOAD_DIGEST_MISMATCH" (cb_event_id record));;
  reject_if (bool_decide (cb_callback_payload_sha256 record = cb_delegated_input_sha256 record))
    (blocker "PROMPT_ECHO_REJECTED" (cb_event_id record));;
  match cb_effect_identity record with
  | Exact effect_id => require_identifier "effect_id" effect_id
  | ProvenZeroEffect classification evidence_sha256
  | UnsettledEffect classification evidence_sha256 =>
      require_identifier "effect_classification" classification;;
      require_sha256 "effect_evidence_sha256" evidence_sha256
  end.

(** The comparison of a callback with its receipt. *)
Definition callback_matches_receipt `{!Serde TerminalReceipt} (record : DurableCallbackRecord)
    (receipt : TerminalReceipt) : bool :=
  bool_decide (tr_commander_session_id receipt = cb_commander_session_id record)
  && bool_decide (tr_child_session_id receipt = cb_child_session_id record)
  && bool_decide (tr_runtime_id receipt = cb_runtime_id record)
  && bool_decide (tr_lease_id receipt = cb_lease_id record)
  && bool_decide (tr_terminal_state receipt = cb_terminal_state record)
  && bool_decide (payload_sha256 receipt = cb_terminal_receipt_sha256 record).

Definition validate_direct_delivery_state (record : ContinuationDispatchRecord)
    : LifecycleResult unit :=
  let call_id_matches := bool_decide (cd_direct_delivery_call_id record
                                      = Some (cd_request_id record)) in
  match cd_delivered_message_sha256 record with
  | Some digest => require_sha256 "delivered_message_sha256" digest
  | None => Ok tt
  end;;
  match cd_direct_delivery_result record with
  | Some result =>
      require_sha256 "direct_delivery_result.evidence_sha256" (dd_evidence_sha256 result)
  | None => Ok tt
  end;;
  let valid :=
    match cd_state record with
    | Prepared =>
        bool_decide (cd_direct_delivery_call_id record = None)
        && bool_decide (cd_delivered_message_sha256 record = None)
        && bool_decide (cd_direct_delivery_result record = None)
    | DeliveryUnsettled =>
        call_id_matches && bool_decide (is_Some (cd_delivered_message_sha256 record))
        && bool_decide (cd_direct_delivery_result record = None)
    | _ =>
        call_id_matches && bool_decide (is_Some (cd_delivered_message_sha256 record))
        && bool_decide (is_Some (cd_direct_delivery_result record))
    end in
  reject_if (negb valid)
    (blocker "CONTINUATION_DIRECT_DELIVERY_STATE_EVIDENCE_INVALID"
       (cd_request_id record +:+ ":" +:+ ContinuationDispatchState_debug (cd_state record))).

Definition validate_convergence_proof (record : ContinuationDispatchRecord)
    (proof : CommanderConvergenceProof) : LifecycleResult unit :=
  map_err (blocker "COMMANDER_CONVERGENCE_PROOF_INVALID") (validate_shape proof);;
  commander_thread_id ← ok_or (cd_commander_thread_id record)
    (blocker "COMMANDER_CONVERGENCE_PROOF_WITHOUT_TARGET" (cd_request_id record));
  let effect_identity_sha256 :=
    canonical_value_sha256 (effect_to_value (cd_effect_identity record)) in
  reject_if
    (negb (bool_decide (pr_request_id proof = cd_request_id record))
     || negb (bool_decide (pr_callback_payload_sha256 proof = cd_callback_payload_sha256 record))
     || negb (bool_decide (pr_effect_identity_sha256 proof = effect_identity_sha256))
     || negb (bool_decide (pr_child_session_id proof = cd_child_session_id record))
     || negb (bool_decide (pr_child_transaction_id proof = cd_child_transaction_id record))
     || negb (bool_decide (pr_child_runtime_id proof = cd_child_runtime_id record))
     || negb (bool_decide (pr_requested_action proof = cd_requested_action record))
     || negb (bool_decide (pr_target_thread_id proof = commander_thread_id))
     || negb (bool_decide
                (pr_pre_revision_sha256 proof = cd_parent_mission_revision_sha256 record)))
    (blocker "COMMANDER_CONVERGENCE_PROOF_BINDING_MISMATCH" (cd_request_id record)).

(** [validate_continuation_with_lock_state] up to the lookup of the
    callback. *)
Definition validate_continuation_fields (self : SessionLifecycleStore)
    (record : ContinuationDispatchRecord) : LifecycleResult unit :=
  reject_if (negb (bool_decide (cd_schema_version record = CONTINUATION_SCHEMA)))
    (blocker "CONTINUATION_SCHEMA_UNSUPPORTED" (cd_schema_version record));;
  require_all require_identifier
    [("request_id", cd_request_id record);
     ("runtime_id", cd_runtime_id record);
     ("lease_id", cd_lease_id record);
     ("commander_session_id", cd_commander_session_id record);
     ("child_session_id", cd_child_session_id record);
     ("child_transaction_id", cd_child_transaction_id record);
     ("child_event_id", cd_child_event_id record);
     ("child_runtime_id", cd_child_runtime_id record)];;
  require_all require_sha256
    [("callback_payload_sha256", cd_callback_payload_sha256 record);
     ("parent_mission_revision_sha256", cd_parent_mission_revision_sha256 record);
     ("delegated_input_sha256", cd_delegated_input_sha256 record)];;
  reject_if (negb (bool_decide (cd_commander_session_id record = sl_commander_session_id self)))
    (blocker "COMMANDER_IDENTITY_MISMATCH" (cd_commander_session_id record));;
  reject_if
    (negb (bool_decide (cd_requested_action record
             = default "" (value_get (cd_parent_input record) "requested_action" ≫= as_str)))
     || negb (is_continuation_action (cd_requested_action record)))
    (blocker "CONTINUATION_REQUESTED_ACTION_INVALID" (cd_request_id record));;
  reject_if (match cd_commander_thread_id record with Some v => is_blank v | None => false end)
    (blocker "COMMANDER_THREAD_IDENTITY_INVALID" (cd_request_id record));;
  commander_thread_id ← require_thread (cd_commander_thread_id record) (cd_request_id record);
  callback_delivery_route ←
    require_route (cd_callback_delivery_route record) (cd_request_id record);
  let expected_route := route_to_value callback_delivery_route in
  reject_if
    (negb match value_pointer (cd_parent_input record) ["delivery"; "route"] with
          | Some route => value_eqb route expected_route
          | None => false
          end
     || negb (bool_decide
          ((value_pointer (cd_parent_input record) ["delivery"; "target_thread_id"] ≫= as_str)
           = Some commander_thread_id)))
    (blocker "CONTINUATION_DIRECT_WRITER_BINDING_CONFLICT" (cd_request_id record));;
  validate_direct_delivery_state record;;
  match cd_convergence_proof record with
  | Some proof => validate_convergence_proof record proof
  | None => Ok tt
  end;;
  reject_if (is_unsettled (cd_effect_identity record))
    (blocker "CONTINUATION_UNSETTLED_EFFECT_BLOCKED" (cd_child_event_id record));;
  callback_result ← ok_or (value_pointer (cd_parent_input record) ["callback"; "result"])
    (blocker "CONTINUATION_CALLBACK_RESULT_MISSING" (cd_child_event_id record));
  reject_if (negb (bool_decide (canonical_value_sha256 callback_result
                                = cd_callback_payload_sha256 record)))
    (blocker "CONTINUATION_CALLBACK_RESULT_HASH_MISMATCH" (cd_child_event_id record)).

Fixpoint require_derived (fields : list (string * string * string)) : LifecycleResult unit :=
  match fields with
  | [] => Ok tt
  | (name, actual, expected) :: rest =>
      reject_if (negb (bool_decide (actual = expected)))
        (blocker "CONTINUATION_DERIVED_IDENTITY_MISMATCH" name);;
      require_derived rest
  end.

(** The end of [validate_continuation_with_lock_state]: the record against its
    callback and against its own digest. *)
Definition validate_continuation_binding (record : ContinuationDispatchRecord)
    (callback : DurableCallbackRecord) : LifecycleResult unit :=
  expected ← from_callback callback;
  reject_if (negb (continuation_bound_fields_match expected record))
    (blocker "CONTINUATION_CALLBACK_BINDING_CONFLICT" (cd_child_event_id record));;
  digest ← continuation_bound_identity_sha256 record;
  require_derived
    [("request_id", cd_request_id record, "callback-continuation-request-" +:+ digest);
     ("runtime_id", cd_runtime_id record, "callback-continuation-runtime-" +:+ digest);
     ("lease_id", cd_lease_id record, "callback-continuation-lease-" +:+ digest)].
End StoreJson.
