(* ===== verification/Store.v ===== *)
(** * Operations of [SessionLifecycleStore]

    One definition per method of [session_lifecycle/src/lib.rs].  A method that
    checks its arguments and then works under the lock is two definitions: the
    method, and the body of its closure, whose name ends in [_locked]; the
    closure is what runs alone, other processes may run between the check and
    the closure.  File names, directories, codes and the order of the checks
    are those of the source. *)

From stdpp Require Import base list strings gmap sets sorting pretty.
From Stdlib Require Import ZArith Lia Ascii.
From S2P Require Import Prelude RustStd Externals TaskIdentity FileSystem StoreData StoreChecks.
Open Scope Z_scope.

(** The derived [Serialize] and [Deserialize] of the records the store keeps
    as files. *)
Class StoreSerde `{JsonNumber} := {
  #[global] serde_terminal_receipt :: Serde TerminalReceipt;
  #[global] serde_stored_receipt :: Serde StoredReceipt;
  #[global] serde_receipt_acknowledgement :: Serde ReceiptAcknowledgement;
  #[global] serde_child_admission :: Serde ChildAdmissionRecord;
  #[global] serde_callback :: Serde DurableCallbackRecord;
  #[global] serde_callback_acknowledgement :: Serde CallbackAcknowledgement;
  #[global] serde_continuation :: Serde ContinuationDispatchRecord;
  #[global] serde_identity_failure :: Serde PendingIdentityFailure;
  #[global] serde_checkpoint_evidence :: Serde CheckpointEvidence;
  #[global] serde_slot_release :: Serde SlotReleaseReceipt;
  #[global] serde_blocker_record :: Serde BlockerRecord;
  #[global] serde_reconcile_record :: Serde ReconcileRecord;
  #[global] serde_value :: Serde Value;
  (** [serde_json::from_value::<BlockerRecord>] and its error text. *)
  blocker_from_value : Value → option BlockerRecord;
  blocker_from_value_error : Value → string;
}.

(** Decimal digits of a [u64], padded with zeros to the width: [{:020}]. *)
Definition digit (n : Z) : ascii := ascii_of_nat (48 + Z.to_nat (n mod 10)).
Fixpoint padded_digits (width : nat) (n : Z) (acc : string) : string :=
  match width with
  | O => acc
  | S width => padded_digits width (n / 10) (String (digit n) acc)
  end.

(** The key order of a [BTreeMap<(String, String), _>]. *)
Definition identity_le {A} (a b : (string * string) * A) : Prop :=
  (a.1.1 ≠ b.1.1 ∧ String.le a.1.1 b.1.1) ∨ (a.1.1 = b.1.1 ∧ String.le a.1.2 b.1.2).
#[export] Instance identity_le_dec {A} : RelDecision (identity_le (A:=A)).
Proof. intros a b. unfold identity_le. apply _. Defined.
(** [into_values] of such a map. *)
Definition into_values {A} (m : gmap (string * string) A) : list A :=
  snd <$> merge_sort identity_le (map_to_list m).

Section Store.
Context `{SerdeJson, Sha2, !StoreSerde}.
Context (self : SessionLifecycleStore).

Definition display (p : path) : string := sl_root self +:+ "/" +:+ p.1 +:+ "/" +:+ p.2.
Definition display_dir (dir : string) : string := sl_root self +:+ "/" +:+ dir.
Definition read_record (T : Type) `{Serde T} (p : path) : M T := read_json display T p.
Definition write_record `{Serde T} (p : path) (value : T) : M unit := durable_write_json p value.

Definition last_blocker_path : path := ("readback", "last_blocker.json").
Definition last_reconcile_path : path := ("readback", "last_reconcile.json").

(** [read_stored_receipt]. *)
Definition read_stored_receipt (p : path) : M StoredReceipt :=
  stored ← read_record StoredReceipt p;
  guard_not (negb (bool_decide (sr_schema_version stored = STORED_RECEIPT_SCHEMA)))
    (blocker "STORED_RECEIPT_SCHEMA_UNSUPPORTED" (sr_schema_version stored));;
  guard_not (negb (bool_decide (payload_sha256 (sr_receipt stored) = sr_payload_sha256 stored)))
    (blocker "RECEIPT_CORRUPT" (display p));;
  mret stored.

(** ** Opening *)

Definition layout : list string :=
  ["admissions/children"; "receipts/pending"; "receipts/applied"; "receipts/acknowledged";
   "callbacks/pending"; "callbacks/intaken"; "callbacks/acknowledged"; "continuations";
   "identity_pending"; "checkpoints"; "slots/released"; "blockers"; "readback"].

Definition ensure_layout : M unit := for_each layout tt (λ _ relative, create_dir_all relative).
Definition ensure_lock_file : M unit := open_lock_file true.

(** ** Receipts *)

Definition write_terminal_receipt_locked (receipt : TerminalReceipt) : M ReceiptWriteOutcome :=
  let key := receipt_key (tr_transaction_id receipt) (tr_event_id receipt) in
  found ← for_return ["receipts/applied"; "receipts/pending"] tt (λ _ directory,
    let p := (directory, key) in
    present ← path_exists p;
    if (present : bool) then
      existing ← read_stored_receipt p;
      if TerminalReceipt_eqb (sr_receipt existing) receipt
      then mret (inr (ReceiptAlreadyDurable p))
      else fail (blocker "RECEIPT_IDENTITY_CONFLICT" key)
    else mret (inl tt));
  match found with
  | inr outcome => mret outcome
  | inl _ =>
      let stored := {| sr_schema_version := STORED_RECEIPT_SCHEMA;
                       sr_payload_sha256 := payload_sha256 receipt;
                       sr_receipt := receipt |} in
      let p := ("receipts/pending", key) in
      write_record p stored;;
      mret (ReceiptWritten p)
  end.
Definition write_terminal_receipt (receipt : TerminalReceipt) : M ReceiptWriteOutcome :=
  lift (validate_receipt self receipt);;
  with_lock (write_terminal_receipt_locked receipt).

Definition terminal_receipt_unlocked (transaction_id event_id : string) : M TerminalReceipt :=
  let key := receipt_key transaction_id event_id in
  found ← for_return ["receipts/applied"; "receipts/pending"] tt (λ _ directory,
    let p := (directory, key) in
    present ← path_exists p;
    if (present : bool) then
      stored ← read_stored_receipt p;
      lift (validate_receipt self (sr_receipt stored));;
      mret (inr (sr_receipt stored))
    else mret (inl tt));
  match found with
  | inr receipt => mret receipt
  | inl _ => fail (blocker "TERMINAL_RECEIPT_NOT_FOUND" key)
  end.
Definition terminal_receipt (transaction_id event_id : string) : M TerminalReceipt :=
  lift (require_identifier "transaction_id" transaction_id);;
  lift (require_identifier "event_id" event_id);;
  with_lock (terminal_receipt_unlocked transaction_id event_id).

(** The loop over the applied sequence numbers in ascending order.  [expected]
    counts files, so its [u64] sum cannot overflow. *)
Fixpoint check_gapless (sequences : list Z) (expected : Z) : LifecycleResult Z :=
  match sequences with
  | [] => Ok expected
  | sequence :: rest =>
      reject_if (negb (sequence =? expected))
        (blocker "APPLIED_EVENT_SEQUENCE_GAP"
           ("expected=" +:+ pretty expected +:+ ",received=" +:+ pretty sequence));;
      check_gapless rest (expected + 1)
  end.
Definition next_receipt_event_sequence_unlocked (transaction_id : string) : M Z :=
  paths ← json_files "receipts/applied";
  sequences ← for_each paths (∅ : gset Z) (λ sequences p,
    stored ← read_stored_receipt p;
    let sequence := tr_event_seq (sr_receipt stored) in
    if bool_decide (tr_transaction_id (sr_receipt stored) = transaction_id) then
      guard_not (bool_decide (sequence ∈ sequences))
        (blocker "APPLIED_EVENT_SEQUENCE_DUPLICATE" (pretty sequence));;
      mret ({[sequence]} ∪ sequences)
    else mret sequences);
  lift (check_gapless (merge_sort Z.le (elements sequences)) 0).
Definition next_receipt_event_sequence (transaction_id : string) : M Z :=
  lift (require_identifier "transaction_id" transaction_id);;
  with_lock (next_receipt_event_sequence_unlocked transaction_id).

(** ** The blocker journal *)

Definition blocker_file (sequence : Z) : string := padded_digits 20 sequence "" +:+ ".json".

(** The blocker recorded last, checked against its own file. *)
Definition last_blocker_record : M (option BlockerRecord) :=
  present ← path_exists last_blocker_path;
  if (present : bool) then
    last ← read_record BlockerRecord last_blocker_path;
    let durable_path := ("blockers", blocker_file (br_sequence last)) in
    durable ← catch_map
      (λ error, blocker "BLOCKER_HIGH_WATER_MISMATCH"
                  (display durable_path +:+ ":" +:+ blocker_display error))
      (read_record BlockerRecord durable_path);
    guard_not (negb (bool_decide (durable = last)))
      (blocker "BLOCKER_HIGH_WATER_MISMATCH" (display durable_path));;
    mret (Some last)
  else
    entries ← read_dir "blockers";
    guard_not (negb (bool_decide (entries = [])))
      (blocker "BLOCKER_HIGH_WATER_MISSING" (display_dir "blockers"));;
    mret None.

(** The observation a record repeats. *)
Definition same_observation (record : BlockerRecord) (b : LifecycleBlocker)
    (transaction_id event_id : option string) : bool :=
  bool_decide (br_code record = blk_code b) && bool_decide (br_detail record = blk_detail b)
  && bool_decide (br_commander_session_id record = sl_commander_session_id self)
  && bool_decide (br_transaction_id record = transaction_id)
  && bool_decide (br_event_id record = event_id).

Definition next_blocker_sequence (last : option BlockerRecord) : LifecycleResult Z :=
  match last with
  | Some record =>
      ok_or (if br_sequence record + 1 <=? u64_max then Some (br_sequence record + 1) else None)
        (blocker "BLOCKER_SEQUENCE_EXHAUSTED" "u64")
  | None => Ok 0
  end.

Definition blocker_record (sequence : Z) (b : LifecycleBlocker)
    (transaction_id event_id : option string) : BlockerRecord := {|
  br_schema_version := BLOCKER_SCHEMA;
  br_sequence := sequence;
  br_code := blk_code b;
  br_detail := blk_detail b;
  br_commander_session_id := sl_commander_session_id self;
  br_transaction_id := transaction_id;
  br_event_id := event_id;
|}.

Definition write_blocker_unlocked (b : LifecycleBlocker)
    (transaction_id event_id : option string) : M unit :=
  last ← last_blocker_record;
  if match last with
     | Some record => same_observation record b transaction_id event_id
     | None => false
     end
  then mret tt
  else
    sequence ← lift (next_blocker_sequence last);
    let record := blocker_record sequence b transaction_id event_id in
    let record_path := ("blockers", blocker_file sequence) in
    present ← path_exists record_path;
    (if (present : bool) then
       existing ← read_record BlockerRecord record_path;
       guard_not (negb (bool_decide (existing = record)))
         (blocker "BLOCKER_SEQUENCE_CONFLICT" (display record_path))
     else write_record record_path record);;
    write_record last_blocker_path record.

(** ** Intake and acknowledgement *)

Definition intake_locked (transaction_id event_id : string) : M IntakeOutcome :=
  let key := receipt_key transaction_id event_id in
  let applied_path := ("receipts/applied", key) in
  let pending_path := ("receipts/pending", key) in
  applied ← path_exists applied_path;
  if (applied : bool) then
    stored ← read_stored_receipt applied_path;
    present ← path_exists pending_path;
    (if (present : bool) then
       pending ← read_stored_receipt pending_path;
       guard_not (negb (StoredReceipt_eqb pending stored))
         (blocker "RECEIPT_REPLAY_CONFLICT" key);;
       remove_durable pending_path
     else mret tt);;
    mret (Duplicate (tr_event_seq (sr_receipt stored)))
  else
    present ← path_exists pending_path;
    guard_not (negb present) (blocker "PENDING_RECEIPT_NOT_FOUND" key);;
    stored ← read_stored_receipt pending_path;
    lift (validate_receipt self (sr_receipt stored));;
    expected ← next_receipt_event_sequence_unlocked transaction_id;
    let received := tr_event_seq (sr_receipt stored) in
    if negb (received =? expected) then
      let code := if expected <? received then "RECEIPT_EVENT_OUT_OF_ORDER"
                  else "RECEIPT_EVENT_SEQUENCE_CONFLICT" in
      let b := blocker code
        ("expected=" +:+ pretty expected +:+ ",received=" +:+ pretty received) in
      write_blocker_unlocked b (Some transaction_id) (Some event_id);;
      mret (Pending b)
    else
      write_record applied_path stored;;
      remove_durable pending_path;;
      mret (Applied received).
Definition intake (transaction_id event_id : string) : M IntakeOutcome :=
  lift (require_identifier "transaction_id" transaction_id);;
  lift (require_identifier "event_id" event_id);;
  with_lock (intake_locked transaction_id event_id).

(** The pending identities in the order [replay_pending] feeds them to
    [intake]; the listing runs without the lock. *)
Definition pending_identities : M (list (string * string * Z)) :=
  paths ← json_files "receipts/pending";
  identities ← mapM (λ p,
    stored ← read_stored_receipt p;
    mret (tr_transaction_id (sr_receipt stored), tr_event_id (sr_receipt stored),
          tr_event_seq (sr_receipt stored))) paths;
  mret (sort_by_key (λ i : string * string * Z, i.2) identities).
Definition replay_pending : M (list (string * string * IntakeOutcome)) :=
  identities ← pending_identities;
  mapM (λ i : string * string * Z,
    outcome ← intake i.1.1 i.1.2;
    mret (i.1.1, i.1.2, outcome)) identities.

Definition acknowledge_locked (transaction_id event_id delivery_id : string) : M AckOutcome :=
  let key := receipt_key transaction_id event_id in
  applied ← read_stored_receipt ("receipts/applied", key);
  let acknowledgement := {|
    ra_schema_version := ACK_SCHEMA;
    ra_transaction_id := transaction_id;
    ra_event_id := event_id;
    ra_event_seq := tr_event_seq (sr_receipt applied);
    ra_commander_session_id := sl_commander_session_id self;
    ra_delivery_id := delivery_id |} in
  let p := ("receipts/acknowledged", key) in
  present ← path_exists p;
  if (present : bool) then
    existing ← read_record ReceiptAcknowledgement p;
    if bool_decide (existing = acknowledgement) then mret AlreadyAcknowledged
    else fail (blocker "RECEIPT_ACK_CONFLICT" (display p))
  else
    write_record p acknowledgement;;
    mret AckAcknowledged.
Definition acknowledge (transaction_id event_id delivery_id : string) : M AckOutcome :=
  lift (require_identifier "delivery_id" delivery_id);;
  with_lock (acknowledge_locked transaction_id event_id delivery_id).

(** ** Admissions *)

Definition admit_child_locked (record : ChildAdmissionRecord) : M ChildAdmissionOutcome :=
  let p := ("admissions/children", child_admission_key (ca_child_session_id record)) in
  present ← path_exists p;
  if (present : bool) then
    existing ← read_record ChildAdmissionRecord p;
    lift (validate_child_admission self existing);;
    if bool_decide (existing = record) then mret AlreadyAdmitted
    else fail (blocker "CHILD_ADMISSION_IDENTITY_CONFLICT" (ca_child_session_id record))
  else
    write_record p record;;
    mret NewlyAdmitted.
Definition admit_child (record : ChildAdmissionRecord) : M ChildAdmissionOutcome :=
  lift (validate_child_admission self record);;
  lift (require_direct_writer_binding (ca_commander_thread_id record)
          (ca_callback_delivery_route record)
          "CHILD_ADMISSION_DIRECT_WRITER_BINDING_REQUIRED" (ca_child_session_id record));;
  with_lock (admit_child_locked record).

Definition child_admission (child_session_id : string) : M (option ChildAdmissionRecord) :=
  lift (require_identifier "child_session_id" child_session_id);;
  with_lock (
    let p := ("admissions/children", child_admission_key child_session_id) in
    present ← path_exists p;
    if (present : bool) then
      record ← read_record ChildAdmissionRecord p;
      lift (validate_child_admission self record);;
      mret (Some record)
    else mret None).

(** ** Callbacks *)

(** The check of a callback ends with the lookup of its receipt, which takes
    the lock unless the caller holds it. *)
Definition validate_callback_with_lock_state (record : DurableCallbackRecord)
    (store_locked : bool) : M unit :=
  lift (validate_callback_fields self record);;
  receipt ←
    (if store_locked
     then terminal_receipt_unlocked (cb_transaction_id record) (cb_event_id record)
     else terminal_receipt (cb_transaction_id record) (cb_event_id record));
  guard_not (negb (callback_matches_receipt record receipt))
    (blocker "CALLBACK_TERMINAL_RECEIPT_IDENTITY_CONFLICT" (cb_event_id record)).
Definition validate_callback (record : DurableCallbackRecord) : M unit :=
  validate_callback_with_lock_state record false.
Definition validate_callback_unlocked (record : DurableCallbackRecord) : M unit :=
  validate_callback_with_lock_state record true.

(** [require_direct_writer_binding] on a callback. *)
Definition callback_writer_binding (record : DurableCallbackRecord) : LifecycleResult unit :=
  require_direct_writer_binding (cb_commander_thread_id record)
    (cb_callback_delivery_route record) "CALLBACK_DIRECT_WRITER_BINDING_REQUIRED"
    (cb_event_id record).

(** The three stages of a callback, the latest first. *)
Definition callback_stages : list string :=
  ["callbacks/acknowledged"; "callbacks/intaken"; "callbacks/pending"].

Definition publish_callback_locked (record : DurableCallbackRecord) : M CallbackWriteOutcome :=
  let key := receipt_key (cb_transaction_id record) (cb_event_id record) in
  found ← for_return callback_stages tt (λ _ directory,
    let p := (directory, key) in
    present ← path_exists p;
    if (present : bool) then
      same ← (if bool_decide (directory = "callbacks/acknowledged") then
                acknowledgement ← read_record CallbackAcknowledgement p;
                mret (DurableCallbackRecord_eqb (cba_record acknowledgement) record)
              else
                existing ← read_record DurableCallbackRecord p;
                mret (DurableCallbackRecord_eqb existing record));
      if (same : bool) then mret (inr (CallbackAlreadyDurable p))
      else fail (blocker "CALLBACK_IDENTITY_CONFLICT" key)
    else mret (inl tt));
  match found with
  | inr outcome => mret outcome
  | inl _ =>
      let p := ("callbacks/pending", key) in
      write_record p record;;
      mret (CallbackWritten p)
  end.
Definition publish_callback (record : DurableCallbackRecord) : M CallbackWriteOutcome :=
  validate_callback record;;
  lift (callback_writer_binding record);;
  with_lock (publish_callback_locked record).

Definition collect_callback (callbacks : gmap (string * string) DurableCallbackRecord) (p : path)
    : M (gmap (string * string) DurableCallbackRecord) :=
  callback ← read_record DurableCallbackRecord p;
  let key := receipt_key (cb_transaction_id callback) (cb_event_id callback) in
  acknowledged ← path_exists ("callbacks/acknowledged", key);
  if (acknowledged : bool) then mret callbacks else
  validate_callback callback;;
  lift (callback_writer_binding callback);;
  let identity := (cb_transaction_id callback, cb_event_id callback) in
  match callbacks !! identity with
  | Some existing =>
      if DurableCallbackRecord_eqb existing callback then mret callbacks
      else fail (blocker "CALLBACK_IDENTITY_CONFLICT" (display p))
  | None => mret (<[identity := callback]> callbacks)
  end.
Definition callbacks_for_replay : M (list DurableCallbackRecord) :=
  callbacks ← for_each ["callbacks/pending"; "callbacks/intaken"] ∅ (λ callbacks directory,
    paths ← json_files directory;
    for_each paths callbacks collect_callback);
  mret (into_values callbacks).

Definition intaken_callback (transaction_id event_id : string)
    : M (option DurableCallbackRecord) :=
  lift (require_identifier "transaction_id" transaction_id);;
  lift (require_identifier "event_id" event_id);;
  let p := ("callbacks/intaken", receipt_key transaction_id event_id) in
  present ← path_exists p;
  if (present : bool) then
    record ← read_record DurableCallbackRecord p;
    validate_callback record;;
    mret (Some record)
  else mret None.

Definition mark_callback_intaken_locked (transaction_id event_id callback_payload_sha256 : string)
    : M CallbackIntakeOutcome :=
  let key := receipt_key transaction_id event_id in
  let intaken := ("callbacks/intaken", key) in
  present ← path_exists intaken;
  if (present : bool) then
    record ← read_record DurableCallbackRecord intaken;
    lift (callback_writer_binding record);;
    if bool_decide (cb_callback_payload_sha256 record = callback_payload_sha256)
    then mret AlreadyIntaken
    else fail (blocker "CALLBACK_INTAKE_CONFLICT" key)
  else
    let pending := ("callbacks/pending", key) in
    record ← read_record DurableCallbackRecord pending;
    lift (callback_writer_binding record);;
    guard_not (negb (bool_decide (cb_callback_payload_sha256 record = callback_payload_sha256)))
      (blocker "CALLBACK_INTAKE_CONFLICT" key);;
    write_record intaken record;;
    remove_durable pending;;
    mret Intaken.
Definition mark_callback_intaken (transaction_id event_id callback_payload_sha256 : string)
    : M CallbackIntakeOutcome :=
  lift (require_sha256 "callback_payload_sha256" callback_payload_sha256);;
  with_lock (mark_callback_intaken_locked transaction_id event_id callback_payload_sha256).

Definition acknowledge_callback_locked (transaction_id event_id callback_payload_sha256 : string)
    (effect_identity : CallbackEffectIdentity) : M AckOutcome :=
  let key := receipt_key transaction_id event_id in
  record ← read_record DurableCallbackRecord ("callbacks/intaken", key);
  lift (callback_writer_binding record);;
  guard_not (negb (bool_decide (cb_callback_payload_sha256 record = callback_payload_sha256))
             || negb (bool_decide (cb_effect_identity record = effect_identity)))
    (blocker "CALLBACK_ACK_CONFLICT" key);;
  let acknowledgement :=
    {| cba_schema_version := CALLBACK_ACK_SCHEMA; cba_record := record |} in
  let acknowledged := ("callbacks/acknowledged", key) in
  present ← path_exists acknowledged;
  if (present : bool) then
    existing ← read_record CallbackAcknowledgement acknowledged;
    if CallbackAcknowledgement_eqb existing acknowledgement then mret AlreadyAcknowledged
    else fail (blocker "CALLBACK_ACK_CONFLICT" key)
  else
    write_record acknowledged acknowledgement;;
    mret AckAcknowledged.
Definition acknowledge_callback (transaction_id event_id callback_payload_sha256 : string)
    (effect_identity : CallbackEffectIdentity) : M AckOutcome :=
  lift (require_sha256 "callback_payload_sha256" callback_payload_sha256);;
  guard_not (is_unsettled effect_identity)
    (blocker "CALLBACK_UNSETTLED_EFFECT_ACK_BLOCKED" event_id);;
  with_lock (acknowledge_callback_locked transaction_id event_id callback_payload_sha256
               effect_identity).

(** ** Continuations *)

Definition continuation_path (transaction_id event_id : string) : path :=
  ("continuations", receipt_key transaction_id event_id).
Definition record_path (record : ContinuationDispatchRecord) : path :=
  continuation_path (cd_child_transaction_id record) (cd_child_event_id record).

Definition validate_continuation_with_lock_state (record : ContinuationDispatchRecord)
    (store_locked : bool) : M unit :=
  lift (validate_continuation_fields self record);;
  let intaken_path :=
    ("callbacks/intaken", receipt_key (cd_child_transaction_id record) (cd_child_event_id record)) in
  present ← path_exists intaken_path;
  guard_not (negb present)
    (blocker "CONTINUATION_INTAKEN_CALLBACK_NOT_FOUND" (cd_child_event_id record));;
  callback ← read_record DurableCallbackRecord intaken_path;
  (if store_locked then validate_callback_unlocked callback else validate_callback callback);;
  lift (validate_continuation_binding record callback).
Definition validate_continuation (record : ContinuationDispatchRecord) : M unit :=
  validate_continuation_with_lock_state record false.
Definition validate_continuation_unlocked (record : ContinuationDispatchRecord) : M unit :=
  validate_continuation_with_lock_state record true.

Definition continuation_writer_binding (record : ContinuationDispatchRecord)
    : LifecycleResult unit :=
  require_direct_writer_binding (cd_commander_thread_id record)
    (cd_callback_delivery_route record) "CONTINUATION_DIRECT_WRITER_BINDING_REQUIRED"
    (cd_request_id record).

(** The opening of every closure on a continuation: read the file, validate it
    and compare its identity with the caller's record. *)
Definition load_continuation (expected : ContinuationDispatchRecord)
    : M ContinuationDispatchRecord :=
  let p := record_path expected in
  existing ← read_record ContinuationDispatchRecord p;
  validate_continuation_unlocked existing;;
  guard_not (negb (continuation_bound_fields_match existing expected))
    (blocker "CONTINUATION_IDENTITY_CONFLICT" (display p));;
  mret existing.

Definition prepare_callback_continuation_locked (record : ContinuationDispatchRecord)
    : M ContinuationWriteOutcome :=
  let p := record_path record in
  present ← path_exists p;
  if (present : bool) then
    existing ← load_continuation record;
    guard_not (bool_decide (cd_state existing = DeliveryUnsettled))
      (blocker "CONTINUATION_DELIVERY_UNSETTLED_NO_BLIND_RETRY" (cd_request_id existing));;
    mret (continuation_existing_outcome (cd_state existing))
  else
    write_record p record;;
    mret CwPrepared.
Definition prepare_callback_continuation (record : ContinuationDispatchRecord)
    : M ContinuationWriteOutcome :=
  validate_continuation record;;
  lift (continuation_writer_binding record);;
  with_lock (prepare_callback_continuation_locked record).

Definition begin_direct_delivery_locked (expected : ContinuationDispatchRecord)
    (delivered_message_sha256 : string) : M ContinuationWriteOutcome :=
  let p := record_path expected in
  existing ← load_continuation expected;
  let attempt_matches :=
    bool_decide (cd_direct_delivery_call_id existing = Some (cd_request_id existing))
    && bool_decide (cd_delivered_message_sha256 existing = Some delivered_message_sha256) in
  match cd_state existing with
  | Prepared =>
      let delivered := set_direct_delivery existing (Some (cd_request_id existing))
                         (Some delivered_message_sha256) in
      write_record p (set_state delivered DeliveryUnsettled);;
      mret CwPrepared
  | DeliveryUnsettled =>
      fail (blocker "CONTINUATION_DELIVERY_UNSETTLED_NO_BLIND_RETRY" (cd_request_id existing))
  | state =>
      if attempt_matches then mret (continuation_existing_outcome state)
      else fail (blocker "CONTINUATION_DIRECT_DELIVERY_ATTEMPT_CONFLICT" (cd_request_id existing))
  end.
Definition begin_callback_continuation_direct_delivery (expected : ContinuationDispatchRecord)
    (delivered_message : string) : M ContinuationWriteOutcome :=
  validate_continuation expected;;
  with_lock (begin_direct_delivery_locked expected (sha256_hex delivered_message)).

(** [existing.direct_delivery_result.as_ref().is_some_and(|r| r.kind == kind)]. *)
Definition result_kind_is (record : ContinuationDispatchRecord) (kind : DirectDeliveryResultKind)
    : bool :=
  match cd_direct_delivery_result record with
  | Some result => bool_decide (dd_kind result = kind)
  | None => false
  end.
(** [matches!(state, Dispatched | Completed | Acknowledged)]. *)
Definition is_delivered (state : ContinuationDispatchState) : bool :=
  match state with Dispatched | Completed | Acknowledged => true | _ => false end.

Definition settle_direct_delivery_locked (expected : ContinuationDispatchRecord)
    (kind : DirectDeliveryResultKind) (result_evidence : DirectDeliveryResultEvidence)
    : M ContinuationWriteOutcome :=
  let p := record_path expected in
  existing ← load_continuation expected;
  let settled := set_direct_delivery_result existing (Some result_evidence) in
  if bool_decide (cd_state existing = DeliveryUnsettled) then
    write_record p (set_state settled Dispatched);;
    mret CwAlreadyDispatched
  else if bool_decide (cd_state existing = Dispatched) && result_kind_is existing Accepted
          && bool_decide (kind = Reconciled) then
    write_record p settled;;
    mret CwAlreadyDispatched
  else if is_delivered (cd_state existing) && result_kind_is existing Reconciled
          && bool_decide (kind = Reconciled) then
    mret (continuation_existing_outcome (cd_state existing))
  else if is_delivered (cd_state existing)
          && bool_decide (cd_direct_delivery_result existing = Some result_evidence) then
    mret (continuation_existing_outcome (cd_state existing))
  else
    fail (blocker "CONTINUATION_DIRECT_DELIVERY_RESULT_CONFLICT"
            (cd_request_id existing +:+ ":" +:+ ContinuationDispatchState_debug (cd_state existing))).
Definition settle_callback_continuation_direct_delivery (expected : ContinuationDispatchRecord)
    (kind : DirectDeliveryResultKind) (result : Value) : M ContinuationWriteOutcome :=
  validate_continuation expected;;
  let result_evidence :=
    {| dd_kind := kind; dd_evidence_sha256 := canonical_value_sha256 result |} in
  with_lock (settle_direct_delivery_locked expected kind result_evidence).
Definition mark_callback_continuation_delivery_accepted (expected : ContinuationDispatchRecord)
    (accepted_result : Value) : M ContinuationWriteOutcome :=
  settle_callback_continuation_direct_delivery expected Accepted accepted_result.
Definition mark_callback_continuation_delivery_reconciled (expected : ContinuationDispatchRecord)
    (reconciled_result : Value) : M ContinuationWriteOutcome :=
  settle_callback_continuation_direct_delivery expected Reconciled reconciled_result.

Definition bind_convergence_proof_locked (expected : ContinuationDispatchRecord)
    (proof : CommanderConvergenceProof) : M ContinuationWriteOutcome :=
  let p := record_path expected in
  existing ← load_continuation expected;
  match cd_convergence_proof existing with
  | Some bound =>
      if bool_decide (bound = proof) then mret (continuation_existing_outcome (cd_state existing))
      else fail (blocker "COMMANDER_CONVERGENCE_PROOF_CONFLICT" (cd_request_id existing))
  | None =>
      write_record p (set_convergence_proof existing (Some proof));;
      mret (continuation_existing_outcome (cd_state existing))
  end.
Definition bind_callback_continuation_convergence_proof (expected : ContinuationDispatchRecord)
    (proof : CommanderConvergenceProof) : M ContinuationWriteOutcome :=
  validate_continuation expected;;
  lift (validate_convergence_proof expected proof);;
  with_lock (bind_convergence_proof_locked expected proof).

(** What [transition_callback_continuation] asks of a completion that was not
    reconciled: the caller's proof is the durable one. *)
Definition completion_proof_check (existing expected : ContinuationDispatchRecord)
    : LifecycleResult unit :=
  expected_proof ← ok_or (cd_convergence_proof expected)
    (blocker "COMMANDER_CONVERGENCE_PROOF_MISSING" (cd_request_id expected));
  persisted_proof ← ok_or (cd_convergence_proof existing)
    (blocker "COMMANDER_CONVERGENCE_PROOF_NOT_DURABLE" (cd_request_id expected));
  reject_if (negb (bool_decide (persisted_proof = expected_proof)))
    (blocker "COMMANDER_CONVERGENCE_PROOF_CONFLICT" (cd_request_id expected)).

Definition valid_transition (from to : ContinuationDispatchState) : bool :=
  match from, to with
  | Dispatched, Completed | Completed, Acknowledged => true
  | _, _ => false
  end.

Definition transition_locked (expected : ContinuationDispatchRecord)
    (target : ContinuationDispatchState) : M ContinuationWriteOutcome :=
  let p := record_path expected in
  existing ← load_continuation expected;
  let state := cd_state existing in
  (if bool_decide (target = Completed) && bool_decide (is_Some (cd_commander_thread_id existing))
      && negb (result_kind_is existing Reconciled)
   then lift (completion_proof_check existing expected) else mret tt);;
  if bool_decide (state = Acknowledged) then mret CwAlreadyAcknowledged else
  guard_not (bool_decide (target = Acknowledged) && negb (bool_decide (state = Completed)))
    (blocker "CONTINUATION_ACK_BEFORE_COMPLETION_BLOCKED" (cd_request_id existing));;
  guard_not (bool_decide (target = Dispatched) && negb (bool_decide (state = Dispatched)))
    (blocker "CONTINUATION_DIRECT_DELIVERY_RESULT_REQUIRED" (cd_request_id existing));;
  if bool_decide (state = target) then mret (continuation_existing_outcome target) else
  guard_not (negb (valid_transition state target))
    (blocker "CONTINUATION_STATE_TRANSITION_BLOCKED"
       (cd_request_id existing +:+ ":" +:+ ContinuationDispatchState_debug state +:+ ":"
        +:+ ContinuationDispatchState_debug target));;
  write_record p (set_state existing target);;
  if bool_decide (target = Acknowledged) then mret CwAcknowledged
  else mret (continuation_existing_outcome target).
Definition transition_callback_continuation (expected : ContinuationDispatchRecord)
    (target : ContinuationDispatchState) : M ContinuationWriteOutcome :=
  validate_continuation expected;;
  with_lock (transition_locked expected target).
Definition mark_callback_continuation_dispatched (expected : ContinuationDispatchRecord) :=
  transition_callback_continuation expected Dispatched.
Definition mark_callback_continuation_completed (expected : ContinuationDispatchRecord) :=
  transition_callback_continuation expected Completed.
Definition mark_callback_continuation_acknowledged (expected : ContinuationDispatchRecord) :=
  transition_callback_continuation expected Acknowledged.

Definition callback_continuations_for_replay : M (list ContinuationDispatchRecord) :=
  paths ← json_files "continuations";
  for_each paths [] (λ records p,
    record ← read_record ContinuationDispatchRecord p;
    validate_continuation record;;
    lift (continuation_writer_binding record);;
    if bool_decide (cd_state record = Acknowledged) then mret records
    else mret (records ++ [record])).

Definition callback_continuation (transaction_id event_id : string)
    : M (option ContinuationDispatchRecord) :=
  lift (require_identifier "transaction_id" transaction_id);;
  lift (require_identifier "event_id" event_id);;
  let p := continuation_path transaction_id event_id in
  present ← path_exists p;
  if (present : bool) then
    record ← read_record ContinuationDispatchRecord p;
    validate_continuation record;;
    lift (continuation_writer_binding record);;
    mret (Some record)
  else mret None.

(** ** Completion of a continuation *)

(** [persisted] was delivered by the direct writer and the delivery was
    reconciled. *)
Definition direct_delivery_reconciled (persisted : ContinuationDispatchRecord) : bool :=
  is_delivered (cd_state persisted)
  && bool_decide (cd_direct_delivery_call_id persisted = Some (cd_request_id persisted))
  && bool_decide (is_Some (cd_delivered_message_sha256 persisted))
  && result_kind_is persisted Reconciled.

(** [receipt.audit_metadata.get(key) == Some(&Value::String(value))]. *)
Definition audit_string_is (receipt : TerminalReceipt) (key value : string) : bool :=
  match find (λ f, bool_decide (f.1 = key)) (tr_audit_metadata receipt) with
  | Some f => value_eqb f.2 (VString value)
  | None => false
  end.

(** An applied receipt that reports the end of the commander's turn on the
    continuation, in its own runtime or in a runtime that stands in for it. *)
Definition receipt_completes (record : ContinuationDispatchRecord) (receipt : TerminalReceipt)
    : bool :=
  let normal_runtime_identity :=
    bool_decide (tr_runtime_id receipt = cd_runtime_id record)
    && bool_decide (tr_lease_id receipt = cd_lease_id record) in
  let fallback_runtime_identity :=
    match cd_commander_thread_id record with
    | None => false
    | Some target_thread_id =>
        negb (bool_decide (tr_runtime_id receipt = cd_runtime_id record))
        && audit_string_is receipt "commander_continuation_request_id" (cd_request_id record)
        && audit_string_is receipt "commander_continuation_target_thread_id" target_thread_id
        && audit_string_is receipt "commander_continuation_origin_runtime_id"
             (cd_runtime_id record)
        && audit_string_is receipt "commander_continuation_origin_lease_id" (cd_lease_id record)
    end in
  negb (negb (bool_decide (tr_transaction_id receipt = cd_request_id record))
        || negb (bool_decide (tr_commander_session_id receipt = cd_commander_session_id record))
        || negb (bool_decide (tr_child_session_id receipt = cd_commander_session_id record))
        || (negb normal_runtime_identity && negb fallback_runtime_identity)
        || negb (bool_decide (tr_terminal_state receipt = TsCompleted))).

Definition release_matches (release : SlotReleaseReceipt) (receipt : TerminalReceipt) : bool :=
  bool_decide (rel_transaction_id release = tr_transaction_id receipt)
  && bool_decide (rel_event_id release = tr_event_id receipt)
  && bool_decide (rel_commander_session_id release = tr_commander_session_id receipt)
  && bool_decide (rel_child_session_id release = tr_child_session_id receipt)
  && bool_decide (rel_runtime_id release = tr_runtime_id receipt)
  && bool_decide (rel_lease_id release = tr_lease_id receipt).

Definition completion_proven_locked (record : ContinuationDispatchRecord) : M bool :=
  persisted ← load_continuation record;
  if bool_decide (cd_callback_delivery_route persisted = Some TrustedTuraDirectThreadWriter)
     && direct_delivery_reconciled persisted
  then mret true
  else if bool_decide (is_Some (cd_commander_thread_id persisted))
          && bool_decide (cd_convergence_proof persisted = None)
  then mret false
  else
    paths ← json_files "receipts/applied";
    found ← for_return paths tt (λ _ p,
      stored ← read_stored_receipt p;
      let receipt := sr_receipt stored in
      if negb (receipt_completes record receipt) then mret (inl tt) else
      lift (validate_receipt self receipt);;
      let released :=
        ("slots/released", receipt_key (tr_transaction_id receipt) (tr_event_id receipt)) in
      present ← path_exists released;
      if negb present then mret (inr false) else
      release ← read_record SlotReleaseReceipt released;
      mret (inr (release_matches release receipt)));
    match found with
    | inr proven => mret proven
    | inl _ => mret false
    end.
Definition callback_continuation_completion_proven (record : ContinuationDispatchRecord)
    : M bool :=
  validate_continuation record;;
  with_lock (completion_proven_locked record).

(** ** Failures, checkpoints and slots *)

Definition record_identity_failure (failure : PendingIdentityFailure) : M unit :=
  guard_not (negb (bool_decide
                (pf_commander_session_id failure = sl_commander_session_id self)))
    (blocker "COMMANDER_IDENTITY_MISMATCH" (pf_commander_session_id failure));;
  lift (require_identifier "transaction_id" (pf_transaction_id failure));;
  lift (require_identifier "event_id" (pf_event_id failure));;
  let key := receipt_key (pf_transaction_id failure) (pf_event_id failure) in
  with_lock (write_record ("identity_pending", key) failure).

Definition checkpoint_evidence (child_session_id stage : string)
    (next_sequence next_management_sequence : Z) (persisted_delta : string)
    : CheckpointEvidence :=
  let persisted_delta_sha256 := sha256_hex persisted_delta in {|
    ce_schema_version := CHECKPOINT_EVIDENCE_SCHEMA;
    ce_commander_session_id := sl_commander_session_id self;
    ce_child_session_id := child_session_id;
    ce_checkpoint_id :=
      checkpoint_evidence_id (sl_commander_session_id self) child_session_id stage
        next_sequence next_management_sequence persisted_delta_sha256;
    ce_stage := stage;
    ce_next_sequence := next_sequence;
    ce_next_management_sequence := next_management_sequence;
    ce_persisted_delta_sha256 := persisted_delta_sha256;
  |}.

Definition publish_checkpoint_locked (evidence : CheckpointEvidence) : M path :=
  let p := ("checkpoints", ce_checkpoint_id evidence +:+ ".json") in
  present ← path_exists p;
  if (present : bool) then
    existing ← read_record CheckpointEvidence p;
    if bool_decide (existing = evidence) then mret p
    else fail (blocker "CHECKPOINT_EVIDENCE_IDENTITY_CONFLICT" (ce_checkpoint_id evidence))
  else
    write_record p evidence;;
    mret p.
Definition publish_checkpoint_evidence (child_session_id stage : string)
    (next_sequence next_management_sequence : Z) (persisted_delta : string) : M path :=
  lift (require_identifier "child_session_id" child_session_id);;
  lift (require_identifier "checkpoint_stage" stage);;
  with_lock (publish_checkpoint_locked
    (checkpoint_evidence child_session_id stage next_sequence next_management_sequence
       persisted_delta)).

Definition admit_checkpoint (first stable : CheckpointIdentity) : M CheckpointIdentity :=
  lift (validate_checkpoint_pair self first stable false).

(** The watchdog's record is written without the lock and whatever the
    result. *)
Definition reconcile_record (stable : CheckpointIdentity)
    (result : LifecycleResult CheckpointIdentity) : ReconcileRecord := {|
  rr_schema_version := RECONCILE_SCHEMA;
  rr_source := WatchdogReconcile;
  rr_commander_session_id := sl_commander_session_id self;
  rr_checkpoint_id := ci_checkpoint_id stable;
  rr_blocker := match result with Err e => Some (blk_code e) | _ => None end;
|}.
Definition reconcile_checkpoint (first stable : CheckpointIdentity) : M CheckpointIdentity :=
  let result := validate_checkpoint_pair self first stable true in
  write_record last_reconcile_path (reconcile_record stable result);;
  lift result.

Definition slot_release (transaction_id event_id : string) (receipt : TerminalReceipt)
    : SlotReleaseReceipt := {|
  rel_schema_version := RELEASE_SCHEMA;
  rel_transaction_id := transaction_id;
  rel_event_id := event_id;
  rel_commander_session_id := tr_commander_session_id receipt;
  rel_child_session_id := tr_child_session_id receipt;
  rel_runtime_id := tr_runtime_id receipt;
  rel_lease_id := tr_lease_id receipt;
  rel_history_readable := tr_history_readable receipt;
  rel_follow_up_capable := tr_follow_up_capable receipt;
|}.

Definition reclaim_terminal_slot_locked (transaction_id event_id : string)
    (evidence : LiveEffectEvidence) : M ReclaimOutcome :=
  let key := receipt_key transaction_id event_id in
  stored ← read_stored_receipt ("receipts/applied", key);
  match reclaim_blocker evidence with
  | Some b =>
      write_blocker_unlocked b (Some transaction_id) (Some event_id);;
      mret (Retained b)
  | None =>
      let release := slot_release transaction_id event_id (sr_receipt stored) in
      let p := ("slots/released", key) in
      present ← path_exists p;
      if (present : bool) then
        existing ← read_record SlotReleaseReceipt p;
        if bool_decide (existing = release) then mret AlreadyReleased
        else fail (blocker "SLOT_RELEASE_IDENTITY_CONFLICT" (display p))
      else
        write_record p release;;
        mret Released
  end.
Definition reclaim_terminal_slot (transaction_id event_id : string)
    (evidence : LiveEffectEvidence) : M ReclaimOutcome :=
  with_lock (reclaim_terminal_slot_locked transaction_id event_id evidence).

(** ** Readback *)

Record LifecycleReadback := {
  rb_commander_session_id : string;
  rb_primary_trigger : string;
  rb_watchdog_interval_secs : Z;
  rb_pending_receipts : nat;
  rb_applied_receipts : nat;
  rb_acknowledged_receipts : nat;
  rb_pending_callbacks : nat;
  rb_intaken_callbacks : nat;
  rb_acknowledged_callbacks : nat;
  rb_released_slots : nat;
  rb_last_reconcile : option Value;
  rb_last_blocker : option Value;
}.

Definition read_optional_value (p : path) : M (option Value) :=
  present ← path_exists p;
  if (present : bool) then v ← read_record Value p; mret (Some v) else mret None.

Definition count_json (dir : string) : M nat :=
  paths ← json_files dir; mret (length paths).

Definition readback : M LifecycleReadback :=
  pending_receipts ← count_json "receipts/pending";
  applied_receipts ← count_json "receipts/applied";
  acknowledged_receipts ← count_json "receipts/acknowledged";
  pending_callbacks ← count_json "callbacks/pending";
  intaken_callbacks ← count_json "callbacks/intaken";
  acknowledged_callbacks ← count_json "callbacks/acknowledged";
  released_slots ← count_json "slots/released";
  last_reconcile ← read_optional_value last_reconcile_path;
  last_blocker ← read_optional_value last_blocker_path;
  mret {|
    rb_commander_session_id := sl_commander_session_id self;
    rb_primary_trigger := "native_checkpoint_event";
    rb_watchdog_interval_secs := lc_watchdog_interval_secs (sl_config self);
    rb_pending_receipts := pending_receipts;
    rb_applied_receipts := applied_receipts;
    rb_acknowledged_receipts := acknowledged_receipts;
    rb_pending_callbacks := pending_callbacks;
    rb_intaken_callbacks := intaken_callbacks;
    rb_acknowledged_callbacks := acknowledged_callbacks;
    rb_released_slots := released_slots;
    rb_last_reconcile := last_reconcile;
    rb_last_blocker := last_blocker |}.
End Store.

(** ** Opening a store, and evidence read from a file *)

Section Open.
Context `{SerdeJson, Sha2, !StoreSerde}.

Definition open_ (root commander_session_id : string) (config : LifecycleConfig)
    : M SessionLifecycleStore :=
  lift (require_identifier "commander_session_id" commander_session_id);;
  config ← lift (LifecycleConfig_validate config);
  let store := {| sl_root := root; sl_commander_session_id := commander_session_id;
                  sl_config := config |} in
  ensure_layout;;
  ensure_lock_file;;
  mret store.

Definition open_existing (root commander_session_id : string) (config : LifecycleConfig)
    : M (option SessionLifecycleStore) :=
  kind ← gets w_root;
  match kind with
  | RootMissing => mret None
  | RootFile => fail (blocker "LIFECYCLE_STORE_NOT_DIRECTORY" root)
  | RootDirectory =>
      lift (require_identifier "commander_session_id" commander_session_id);;
      config ← lift (LifecycleConfig_validate config);
      lock_present ← gets w_lock_file;
      guard_not (negb lock_present)
        (blocker "LIFECYCLE_READ_LOCK_MISSING" (root +:+ "/lifecycle.lock"));;
      mret (Some {| sl_root := root; sl_commander_session_id := commander_session_id;
                    sl_config := config |})
  end.

(** [checkpoint_identity_from_path].  The inode and the modification time are
    what the operating system reports; [None] is a time before the epoch, with
    the text of that error. *)
Definition checkpoint_identity_from_path (root : string) (p : path)
    (event_kind : CheckpointEventKind) (inode : Z) (modified_ns : option Z)
    (mtime_error : string) : M CheckpointIdentity :=
  let shown := λ q : path, root +:+ "/" +:+ q.1 +:+ "/" +:+ q.2 in
  evidence ← read_json shown CheckpointEvidence p;
  guard_not (negb (bool_decide (ce_schema_version evidence = CHECKPOINT_EVIDENCE_SCHEMA)))
    (blocker "CHECKPOINT_EVIDENCE_SCHEMA_UNSUPPORTED" (ce_schema_version evidence));;
  let expected_id :=
    checkpoint_evidence_id (ce_commander_session_id evidence) (ce_child_session_id evidence)
      (ce_stage evidence) (ce_next_sequence evidence) (ce_next_management_sequence evidence)
      (ce_persisted_delta_sha256 evidence) in
  guard_not (negb (bool_decide (ce_checkpoint_id evidence = expected_id)))
    (blocker "CHECKPOINT_EVIDENCE_DIGEST_MISMATCH" (ce_checkpoint_id evidence));;
  bytes ← read_bytes p;
  io (* fs::metadata *);;
  io (* metadata.modified() *);;
  modified_ns ← lift (ok_or modified_ns (blocker "CHECKPOINT_MTIME_INVALID" mtime_error));
  mret {|
    ci_commander_session_id := ce_commander_session_id evidence;
    ci_checkpoint_id := expected_id;
    ci_source_path := shown p;
    ci_inode := inode;
    ci_size := len bytes;
    ci_modified_ns := modified_ns;
    ci_sha256 := sha256_hex bytes;
    ci_complete_write := true;
    ci_event_kind := event_kind |}.
End Open.
