(* ===== verification/StoreSpec.v ===== *)
(** * Abstract lifecycle stores, and reasoning about programs on them

    The abstract store is a map from paths to typed records.  A machine
    represents it when every JSON file holds the text of the record at its
    path; temporary files, the lock and the faults to come are not part of it.
    [wp] relates a program to abstract stores: whatever faults the machine
    holds, the program ends with [Ok] or [Err], and the machine then represents
    a store that satisfies the postcondition of that arm.  With [calm] set the
    machine has no faults left and the program's I/O succeeds. *)

From stdpp Require Import base list strings gmap sets sorting pretty.
From Stdlib Require Import ZArith Lia Ascii.
From S2P Require Import Prelude RustStd Externals TaskIdentity FileSystem StoreData StoreChecks Store.
Open Scope Z_scope.

(** ** File names *)

Lemma rsplit_dot_app x e :
  rsplit_dot e = None → rsplit_dot (x +:+ "." +:+ e) = Some (x, e).
Proof.
  intros He. induction x as [|c x IH].
  - change (("" +:+ "." +:+ e)) with (String "."%char e). simpl. by rewrite He.
  - change (String c x +:+ "." +:+ e) with (String c (x +:+ "." +:+ e)).
    cbn [rsplit_dot]. by rewrite IH.
Qed.

Lemma extension_app x e :
  x ≠ "" → e ≠ "" → rsplit_dot e = None → extension (x +:+ "." +:+ e) = Some e.
Proof.
  intros Hx He Hdot. unfold extension. rewrite rsplit_dot_app by done.
  rewrite bool_decide_eq_false_2.
  - unfold is_empty. by rewrite bool_decide_eq_false_2.
  - intros Heq. destruct x as [|c [|d [|f x]]]; [done| |discriminate Heq..].
    destruct e; [done|discriminate Heq].
Qed.

Lemma is_json_key x : x ≠ "" → is_json (x +:+ ".json") = true.
Proof.
  intros Hx. apply bool_decide_eq_true_2. exact (extension_app x "json" Hx ltac:(done) eq_refl).
Qed.

Lemma is_json_temp name pid n : is_json (temp_name name pid n) = false.
Proof.
  apply bool_decide_eq_false_2. unfold temp_name. rewrite <- !append_assoc.
  set (x := _ +:+ pretty n).
  pose proof (extension_app x "tmp" ltac:(done) ltac:(done) eq_refl) as Hx.
  intros Heq. assert (Some "tmp" = Some "json") by (etrans; [symmetry; exact Hx|exact Heq]).
  done.
Qed.

(** ** Records as files *)

Class StoreSerdeLaws `{JsonNumber, !StoreSerde} : Prop := {
  #[global] stored_receipt_laws :: SerdeLaws StoredReceipt;
  #[global] receipt_acknowledgement_laws :: SerdeLaws ReceiptAcknowledgement;
  #[global] child_admission_laws :: SerdeLaws ChildAdmissionRecord;
  #[global] callback_laws :: SerdeLaws DurableCallbackRecord;
  #[global] callback_acknowledgement_laws :: SerdeLaws CallbackAcknowledgement;
  #[global] continuation_laws :: SerdeLaws ContinuationDispatchRecord;
  #[global] identity_failure_laws :: SerdeLaws PendingIdentityFailure;
  #[global] checkpoint_evidence_laws :: SerdeLaws CheckpointEvidence;
  #[global] slot_release_laws :: SerdeLaws SlotReleaseReceipt;
  #[global] blocker_record_laws :: SerdeLaws BlockerRecord;
  #[global] reconcile_record_laws :: SerdeLaws ReconcileRecord;
}.

Inductive Kind :=
| KReceipt | KReceiptAck | KAdmission | KCallback | KCallbackAck | KContinuation
| KFailure | KCheckpoint | KRelease | KBlocker | KReconcile.

(** The kind of record a path holds. *)
Definition path_kind (p : path) : option Kind :=
  let d := p.1 in
  if bool_decide (d ∈ ["receipts/pending"; "receipts/applied"]) then Some KReceipt
  else if bool_decide (d = "receipts/acknowledged") then Some KReceiptAck
  else if bool_decide (d = "admissions/children") then Some KAdmission
  else if bool_decide (d ∈ ["callbacks/pending"; "callbacks/intaken"]) then Some KCallback
  else if bool_decide (d = "callbacks/acknowledged") then Some KCallbackAck
  else if bool_decide (d = "continuations") then Some KContinuation
  else if bool_decide (d = "identity_pending") then Some KFailure
  else if bool_decide (d = "checkpoints") then Some KCheckpoint
  else if bool_decide (d = "slots/released") then Some KRelease
  else if bool_decide (d = "blockers") then Some KBlocker
  else if bool_decide (p = last_blocker_path) then Some KBlocker
  else if bool_decide (p = last_reconcile_path) then Some KReconcile
  else None.

Inductive StoreRecord `{JsonNumber} :=
| FReceipt (r : StoredReceipt)
| FReceiptAck (r : ReceiptAcknowledgement)
| FAdmission (r : ChildAdmissionRecord)
| FCallback (r : DurableCallbackRecord)
| FCallbackAck (r : CallbackAcknowledgement)
| FContinuation (r : ContinuationDispatchRecord)
| FFailure (r : PendingIdentityFailure)
| FCheckpoint (r : CheckpointEvidence)
| FRelease (r : SlotReleaseReceipt)
| FBlocker (r : BlockerRecord)
| FReconcile (r : ReconcileRecord).
Abbreviation store := (gmap path StoreRecord).

Section Records.
Context `{JsonNumber, !StoreSerde}.

Definition record_kind (r : StoreRecord) : Kind :=
  match r with
  | FReceipt _ => KReceipt | FReceiptAck _ => KReceiptAck | FAdmission _ => KAdmission
  | FCallback _ => KCallback | FCallbackAck _ => KCallbackAck | FContinuation _ => KContinuation
  | FFailure _ => KFailure | FCheckpoint _ => KCheckpoint | FRelease _ => KRelease
  | FBlocker _ => KBlocker | FReconcile _ => KReconcile
  end.

(** The bytes [durable_write_json] leaves for a record. *)
Definition file_text (r : StoreRecord) : string :=
  match r with
  | FReceipt r => to_vec r | FReceiptAck r => to_vec r | FAdmission r => to_vec r
  | FCallback r => to_vec r | FCallbackAck r => to_vec r | FContinuation r => to_vec r
  | FFailure r => to_vec r | FCheckpoint r => to_vec r | FRelease r => to_vec r
  | FBlocker r => to_vec r | FReconcile r => to_vec r
  end +:+ newline.

(** One Rust struct of the store, as records of one kind. *)
Class Filed (T : Type) `{!Serde T} := {
  file_kind : Kind;
  file_of : T → StoreRecord;
  file_as : StoreRecord → option T;
}.
Arguments file_kind T {_ _}.

Class FiledLaws (T : Type) `{!Serde T, !Filed T} : Prop := {
  file_serde :: SerdeLaws T;
  file_of_text (x : T) : file_text (file_of x) = to_vec x +:+ newline;
  file_of_kind (x : T) : record_kind (file_of x) = file_kind T;
  file_as_of (x : T) : file_as (file_of x) = Some x;
  file_as_kind r : record_kind r = file_kind T → ∃ x : T, r = file_of x;
}.

#[global] Instance filed_receipt : Filed StoredReceipt :=
  {| file_kind := KReceipt; file_of := FReceipt;
     file_as r := match r with FReceipt x => Some x | _ => None end |}.
#[global] Instance filed_receipt_ack : Filed ReceiptAcknowledgement :=
  {| file_kind := KReceiptAck; file_of := FReceiptAck;
     file_as r := match r with FReceiptAck x => Some x | _ => None end |}.
#[global] Instance filed_admission : Filed ChildAdmissionRecord :=
  {| file_kind := KAdmission; file_of := FAdmission;
     file_as r := match r with FAdmission x => Some x | _ => None end |}.
#[global] Instance filed_callback : Filed DurableCallbackRecord :=
  {| file_kind := KCallback; file_of := FCallback;
     file_as r := match r with FCallback x => Some x | _ => None end |}.
#[global] Instance filed_callback_ack : Filed CallbackAcknowledgement :=
  {| file_kind := KCallbackAck; file_of := FCallbackAck;
     file_as r := match r with FCallbackAck x => Some x | _ => None end |}.
#[global] Instance filed_continuation : Filed ContinuationDispatchRecord :=
  {| file_kind := KContinuation; file_of := FContinuation;
     file_as r := match r with FContinuation x => Some x | _ => None end |}.
#[global] Instance filed_failure : Filed PendingIdentityFailure :=
  {| file_kind := KFailure; file_of := FFailure;
     file_as r := match r with FFailure x => Some x | _ => None end |}.
#[global] Instance filed_checkpoint : Filed CheckpointEvidence :=
  {| file_kind := KCheckpoint; file_of := FCheckpoint;
     file_as r := match r with FCheckpoint x => Some x | _ => None end |}.
#[global] Instance filed_release : Filed SlotReleaseReceipt :=
  {| file_kind := KRelease; file_of := FRelease;
     file_as r := match r with FRelease x => Some x | _ => None end |}.
#[global] Instance filed_blocker : Filed BlockerRecord :=
  {| file_kind := KBlocker; file_of := FBlocker;
     file_as r := match r with FBlocker x => Some x | _ => None end |}.
#[global] Instance filed_reconcile : Filed ReconcileRecord :=
  {| file_kind := KReconcile; file_of := FReconcile;
     file_as r := match r with FReconcile x => Some x | _ => None end |}.

Context `{!StoreSerdeLaws}.
Ltac filed :=
  split; [apply _|done|done|done|by intros []; intros Hk; try discriminate Hk; eexists].
#[global] Instance filed_receipt_laws : FiledLaws StoredReceipt.
Proof. filed. Qed.
#[global] Instance filed_receipt_ack_laws : FiledLaws ReceiptAcknowledgement.
Proof. filed. Qed.
#[global] Instance filed_admission_laws : FiledLaws ChildAdmissionRecord.
Proof. filed. Qed.
#[global] Instance filed_callback_laws : FiledLaws DurableCallbackRecord.
Proof. filed. Qed.
#[global] Instance filed_callback_ack_laws : FiledLaws CallbackAcknowledgement.
Proof. filed. Qed.
#[global] Instance filed_continuation_laws : FiledLaws ContinuationDispatchRecord.
Proof. filed. Qed.
#[global] Instance filed_failure_laws : FiledLaws PendingIdentityFailure.
Proof. filed. Qed.
#[global] Instance filed_checkpoint_laws : FiledLaws CheckpointEvidence.
Proof. filed. Qed.
#[global] Instance filed_release_laws : FiledLaws SlotReleaseReceipt.
Proof. filed. Qed.
#[global] Instance filed_blocker_laws : FiledLaws BlockerRecord.
Proof. filed. Qed.
#[global] Instance filed_reconcile_laws : FiledLaws ReconcileRecord.
Proof. filed. Qed.
End Records.
Arguments file_kind {_} T {_ _}.

(** ** Representation *)

Section Rep.
Context `{JsonNumber, !StoreSerde}.

(** Each record is at a JSON path of its kind. *)
Definition well_typed (s : store) : Prop :=
  ∀ p r, s !! p = Some r → path_kind p = Some (record_kind r) ∧ is_json p.2 = true.

Definition represents (w : World) (s : store) : Prop :=
  well_typed s ∧ ∀ p, is_json p.2 = true → w_files w !! p = file_text <$> s !! p.

(** A machine with an open store, and its lock free or held. *)
Record rep (locked : bool) (w : World) (s : store) : Prop := {
  rep_root : w_root w = RootDirectory;
  rep_lock_file : w_lock_file w = true;
  rep_locked : w_locked w = locked;
  rep_dirs : ∀ d, d ∈ layout → d ∈ w_dirs w;
  rep_files : represents w s;
}.

(** No fault will happen, and the names of this process's temporary files are
    free. *)
Definition calm_world (w : World) : Prop :=
  w_faults w = [] ∧ ∀ d name n, w_files w !! (d, temp_name name (w_pid w) n) = None.

Lemma well_typed_insert s p r :
  well_typed s → path_kind p = Some (record_kind r) → is_json p.2 = true →
  well_typed (<[p := r]> s).
Proof.
  intros Hs Hk Hj q r'. rewrite lookup_insert. case_decide; [|apply Hs].
  intros [= <-]. by subst.
Qed.

Lemma well_typed_delete s p : well_typed s → well_typed (delete p s).
Proof. intros Hs q r [_ Hq]%lookup_delete_Some. by apply Hs. Qed.

(** The text of a record determines it among the records of its kind, so a
    machine represents one store. *)
Lemma file_text_inj `{!StoreSerdeLaws} (r r' : StoreRecord) :
  record_kind r = record_kind r' → file_text r = file_text r' → r = r'.
Proof.
  intros Hk Ht. destruct r as [x|x|x|x|x|x|x|x|x|x|x], r'; try discriminate Hk; f_equal;
    pose proof (from_slice_to_vec x) as Hx; unfold file_text in Ht; rewrite Ht in Hx;
    rewrite from_slice_to_vec in Hx; congruence.
Qed.

Lemma rep_unique `{!StoreSerdeLaws} l l' w s s' : rep l w s → rep l' w s' → s = s'.
Proof.
  intros Hs Hs'. destruct (rep_files _ _ _ Hs) as [Hty Hf], (rep_files _ _ _ Hs') as [Hty' Hf'].
  apply map_eq. intros p. destruct (is_json p.2) eqn:Hj.
  - pose proof (Hf p Hj) as Heq. rewrite (Hf' p Hj) in Heq.
    destruct (s !! p) as [r|] eqn:Hr, (s' !! p) as [r'|] eqn:Hr'; simplify_eq/=; [|done].
    f_equal. destruct (Hty _ _ Hr) as [Hk _], (Hty' _ _ Hr') as [Hk' _].
    symmetry. apply file_text_inj; [congruence|done].
  - assert (Hnone : ∀ m : store, well_typed m → m !! p = None).
    { intros m Hm. apply eq_None_not_Some. intros [r Hr]. destruct (Hm _ _ Hr). congruence. }
    by rewrite !Hnone.
Qed.

(** The record behind a file, and no record behind no file. *)
Lemma rep_file `{!StoreSerdeLaws} l w s p r :
  rep l w s → is_json p.2 = true → path_kind p = Some (record_kind r) →
  w_files w !! p = Some (file_text r) → s !! p = Some r.
Proof.
  intros Hrep Hj Hk Hp. destruct (rep_files _ _ _ Hrep) as [Hty Hf].
  rewrite (Hf p Hj) in Hp. destruct (s !! p) as [r'|] eqn:Hr; simplify_eq/=. f_equal.
  destruct (Hty _ _ Hr) as [Hk' _]. apply file_text_inj; [congruence|done].
Qed.

Lemma rep_no_file l w s p : rep l w s → w_files w !! p = None → s !! p = None.
Proof.
  intros Hrep Hp. destruct (rep_files _ _ _ Hrep) as [Hty Hf].
  apply eq_None_not_Some. intros [r Hr]. destruct (Hty _ _ Hr) as [_ Hj].
  rewrite (Hf p Hj), Hr in Hp. done.
Qed.

(** Without faults and temporary files the machine is calm. *)
Lemma calm_json w :
  w_faults w = [] → map_Forall (λ (p : path) _, is_json p.2 = true) (w_files w) → calm_world w.
Proof.
  intros Hf Hj. split; [done|]. intros d name n. apply eq_None_not_Some. intros [b Hb].
  specialize (Hj _ _ Hb). simpl in Hj. by rewrite is_json_temp in Hj.
Qed.
End Rep.
