(* ===== verification/StoreLogic.v ===== *)
(** * Weakest preconditions of store programs

    Rules for the programs of [FileSystem] on abstract stores.  The two
    postconditions of [wp] are about the two ways a program ends; a program
    that satisfies any [wp] neither waits for ever nor panics.  A call that may
    fail adds an obligation for every error text, which [calm] removes. *)

From stdpp Require Import base list strings gmap sets sorting pretty.
From Stdlib Require Import ZArith Lia Ascii.
From S2P Require Import Prelude RustStd Externals FileSystem StoreData StoreChecks Store StoreSpec.
Open Scope Z_scope.

(** ** Effects that abstract stores do not show *)

Record quiet (w w' : World) : Prop := {
  quiet_root : w_root w = RootDirectory → w_root w' = RootDirectory;
  quiet_lock_file : w_lock_file w = true → w_lock_file w' = true;
  quiet_locked : w_locked w' = w_locked w;
  quiet_pid : w_pid w' = w_pid w;
  quiet_dirs : w_dirs w ⊆ w_dirs w';
}.
#[export] Instance quiet_preorder : PreOrder quiet.
Proof.
  split; [by split|].
  intros w1 w2 w3 [r1 l1 k1 p1 d1] [r2 l2 k2 p2 d2].
  split; [auto|auto|congruence|congruence|by etrans].
Qed.

(** The JSON files of the tree [f] are those of [m]. *)
Definition json_view (f m : gmap path string) : Prop :=
  ∀ q : path, is_json q.2 = true → f !! q = m !! q.

(** ** Hoare triples on machines *)

Definition triple {A} (P : World → Prop) (m : M A) (Q : A → World → Prop)
    (E : World → Prop) : Prop :=
  ∀ w, P w → match m w with
             | (Ok a, w') => Q a w'
             | (Err _, w') => E w'
             | _ => False
             end.

Lemma triple_bind {A B} P (m : M A) (k : A → M B) R Q E :
  triple P m R E → (∀ a, triple (R a) (k a) Q E) → triple P (m ≫= k) Q E.
Proof.
  intros Hm Hk w Hw. unfold mbind, M_bind. specialize (Hm w Hw).
  destruct (m w) as [[a| | |] w']; [|done..]. exact (Hk a w' Hm).
Qed.

Lemma triple_io (P E : World → Prop) :
  (∀ w fs, P w → P (w.{w_faults := fs})) → (∀ w, P w → E w) → triple P io (λ _, P) E.
Proof.
  intros HP HE w Hw. unfold io. destruct (w_faults w) as [|[f|] fs]; [done|by auto..].
Qed.

Lemma triple_gets {A} (P : World → Prop) (f : World → A) E :
  triple P (gets f) (λ a w, P w ∧ a = f w) E.
Proof. by intros w Hw. Qed.

Section DurableWrite.
Context (w0 : World) (p : path) (bytes : string).
Hypothesis (Hjson : is_json p.2 = true) (Hroot : w_root w0 = RootDirectory).

Let before (w : World) : Prop := quiet w0 w ∧ json_view (w_files w) (w_files w0).
Let after (w : World) : Prop := quiet w0 w ∧ json_view (w_files w) (<[p := bytes]> (w_files w0)).
Let either (w : World) : Prop := before w ∨ after w.

Lemma json_view_insert_temp f m d name pid n b :
  json_view f m → json_view (<[(d, temp_name name pid n) := b]> f) m.
Proof.
  intros Hv q Hq. rewrite lookup_insert_ne; [by apply Hv|].
  intros <-. simpl in Hq. by rewrite is_json_temp in Hq.
Qed.

Lemma before_quiet w w' :
  before w → quiet w w' → w_files w' = w_files w → before w'.
Proof.
  intros [Hq Hv] Hw Hf. split; [by etrans|]. intros q Hj. rewrite Hf. by apply Hv.
Qed.
Lemma after_faults w fs : after w → after (w.{w_faults := fs}).
Proof. intros [Hq Hv]. split; [by destruct Hq; split|done]. Qed.
Lemma before_faults w fs : before w → before (w.{w_faults := fs}).
Proof. intros Hb. eapply before_quiet; [exact Hb|by split|done]. Qed.

Hint Resolve before_faults after_faults : core.
Lemma before_either w : before w → either w.
Proof. by left. Qed.
Lemma after_either w : after w → either w.
Proof. by right. Qed.
Hint Resolve before_either after_either : core.

Lemma create_dir_all_before : triple before (create_dir_all p.1) (λ _, before) either.
Proof.
  eapply triple_bind; [by apply triple_io; eauto|]. intros ?.
  eapply triple_bind; [apply triple_gets|]. intros root w [Hb Heq]; simpl in Heq; subst root.
  pose proof (quiet_root _ _ (proj1 Hb) Hroot) as ->. simpl.
  eapply before_quiet; [exact Hb|split; simpl; set_solver|done].
Qed.

Lemma write_temp_before pid n :
  let temporary := (p.1, temp_name p.2 pid n) in
  triple before (create_new temporary;; write_all temporary bytes;; io)
    (λ _ w, before w ∧ w_files w !! temporary = Some bytes) either.
Proof.
  intros t. eapply (triple_bind _ _ _ (λ _, before)).
  { eapply triple_bind; [by apply triple_io; eauto|]. intros ?.
    eapply triple_bind; [apply triple_gets|]. intros present w [Hb Heq]; simpl in Heq; subst present.
    case_bool_decide; simpl; [by left|].
    destruct Hb as [Hq Hv]. split; [by destruct Hq; split|by apply json_view_insert_temp]. }
  intros ?. eapply (triple_bind _ _ _ (λ _ w, before w ∧ w_files w !! t = Some bytes)).
  { intros w [Hq Hv]. unfold write_all. destruct (w_faults w) as [|[f|] fs]; simpl.
    - split; [split; [by destruct Hq; split|]|by rewrite lookup_insert_eq].
      by apply json_view_insert_temp.
    - left. split; [by destruct Hq; split|]. by apply json_view_insert_temp.
    - split; [split; [by destruct Hq; split|]|by rewrite lookup_insert_eq].
      by apply json_view_insert_temp. }
  intros ?. apply triple_io; [intros w fs [Hb Hf]; eauto|]. intros w [Hb _]. eauto.
Qed.

(** The target of [durable_write] holds its old text or the new one, whatever
    fails; no other JSON file changes. *)
Lemma durable_write_view : triple before (durable_write p bytes) (λ _, after) either.
Proof.
  eapply triple_bind; [apply create_dir_all_before|]. intros ?.
  eapply triple_bind; [apply triple_gets|]. intros pid.
  eapply (triple_bind _ _ _ (λ _, before)).
  { intros w [Hb _]. simpl. eapply before_quiet; [exact Hb|by split|done]. }
  intros n. set (t := (p.1, temp_name p.2 pid n)).
  assert (Htp : t ≠ p) by (intros Heq; rewrite <- Heq in Hjson; simpl in Hjson;
                           by rewrite is_json_temp in Hjson).
  pose proof (write_temp_before pid n) as Hwrite. cbv zeta in Hwrite. fold t in Hwrite.
  intros w Hw. specialize (Hwrite w Hw).
  unfold mbind, M_bind in *. destruct (create_new t w) as [[[]| | |] w1]; try done.
  destruct (write_all t bytes w1) as [[[]| | |] w2]; try done.
  destruct (io w2) as [[[]| | |] w3]; try done. destruct Hwrite as [Hb3 Ht3].
  change (match (rename t p;; sync_directory) w3 with
          | (Ok _, w') => after w' | (Err _, w') => either w' | _ => False end).
  generalize w3 (conj Hb3 Ht3).
  apply (triple_bind _ _ _ (λ _, after)).
  - eapply (triple_bind _ _ _ (λ _ w, before w ∧ w_files w !! t = Some bytes)).
    { apply triple_io; [intros ? ? []; eauto|intros ? []; eauto]. }
    intros ?. eapply triple_bind; [apply triple_gets|]. intros o u [[[Hq Hv] Ht] Heq]; simpl in Heq; subst o.
    rewrite Ht. simpl. split; [by destruct Hq; split|].
    intros q Hj. simpl. rewrite !lookup_insert. case_decide; [done|].
    rewrite lookup_delete_ne; [by apply Hv|]. intros <-. simpl in Hj.
    by rewrite is_json_temp in Hj.
  - intros ?. eapply triple_bind; [|intros ?]; apply triple_io; eauto.
Qed.
End DurableWrite.

(** Without faults, and with the temporary names free, a write succeeds: the
    triples whose error arm is impossible. *)
Lemma triple_io_calm (P : World → Prop) :
  (∀ w, P w → w_faults w = []) → triple P io (λ _, P) (λ _, False).
Proof. intros HP w Hw. unfold io. by rewrite (HP w Hw). Qed.

Lemma durable_write_calm p bytes :
  is_json p.2 = true →
  triple (λ w, w_root w = RootDirectory ∧ calm_world w) (durable_write p bytes)
    (λ _, calm_world) (λ _, False).
Proof.
  intros Hj.
  set (P := λ w, w_root w = RootDirectory ∧ calm_world w).
  assert (HP : ∀ w, P w → w_faults w = []) by by intros w [_ [? _]].
  change (triple P (durable_write p bytes) (λ _, calm_world) (λ _, False)).
  eapply (triple_bind _ _ _ (λ _, P)).
  { eapply triple_bind; [by apply triple_io_calm|]. intros ?.
    eapply triple_bind; [apply triple_gets|]. intros root w [[Hr Hc] Heq]. simpl in Heq.
    rewrite Hr in Heq. subst root. by split. }
  intros ?. eapply triple_bind; [apply triple_gets|]. intros pid.
  set (Q := λ (n : Z) w, P w ∧ w_pid w = pid).
  eapply (triple_bind _ _ _ Q); [by intros w [[Hr [Hf Ht]] ->]|]. intros n.
  set (t := (p.1, temp_name p.2 pid n)).
  (* the temporary file alone exists *)
  set (R := λ w, w_root w = RootDirectory ∧ w_faults w = [] ∧ is_Some (w_files w !! t) ∧
    ∀ d name m, (d, temp_name name (w_pid w) m) ≠ t →
                w_files w !! (d, temp_name name (w_pid w) m) = None).
  assert (HR : ∀ w, R w → w_faults w = []) by by intros w (_ & ? & _).
  eapply (triple_bind _ _ _ (λ _, R)).
  { eapply triple_bind; [apply triple_io_calm; by intros w [? _]; auto|]. intros ?.
    eapply triple_bind; [apply triple_gets|].
    intros present w [[[Hr [Hf Ht]] Hpid] Heq]. simpl in Heq. subst pid present.
    rewrite bool_decide_eq_false_2 by (unfold t; rewrite Ht; apply is_Some_None).
    split_and!; simpl; [done|done|by rewrite lookup_insert_eq|].
    intros d name m Hne. by rewrite lookup_insert_ne. }
  intros ?. eapply (triple_bind _ _ _ (λ _, R)).
  { intros w (Hr & Hf & Ht & Hn). unfold write_all. rewrite Hf.
    split_and!; simpl; [done|done|by rewrite lookup_insert_eq|].
    intros d name m Hne. rewrite lookup_insert_ne; [by apply Hn|done]. }
  intros ?. eapply triple_bind; [by apply triple_io_calm|].
  assert (HC : ∀ w, calm_world w → w_faults w = []) by by intros w [? _].
  intros ?. eapply (triple_bind _ _ _ (λ _, calm_world)).
  - eapply triple_bind; [by apply triple_io_calm|]. intros ?.
    eapply triple_bind; [apply triple_gets|]. intros o w [(Hr & Hf & [b Ht] & Hn) Heq].
    simpl in Heq. subst o. rewrite Ht. split; [done|]. intros d name m. simpl.
    rewrite lookup_insert_ne, lookup_delete.
    + case_decide; [done|]. by apply Hn.
    + intros Heq. rewrite Heq in Hj. simpl in Hj. by rewrite is_json_temp in Hj.
  - intros ?. eapply triple_bind; [|intros ?]; by apply triple_io_calm.
Qed.

(** ** Weakest preconditions on abstract stores *)

Section Wp.
Context `{SerdeJson, Sha2, !StoreSerde, !StoreSerdeLaws}.
Context (calm : bool).

Definition wp (locked : bool) {A} (m : M A) (s : store)
    (Q : A → store → Prop) (E : LifecycleBlocker → store → Prop) : Prop :=
  ∀ w, rep locked w s → (calm = true → calm_world w) →
  match m w with
  | (Ok a, w') => ∃ s', rep locked w' s' ∧ (calm = true → calm_world w') ∧ Q a s'
  | (Err e, w') => ∃ s', rep locked w' s' ∧ (calm = true → calm_world w') ∧ E e s'
  | _ => False
  end.

(** What a call that may fail owes. *)
Definition may_fail (E : LifecycleBlocker → Prop) : Prop := calm = false → ∀ e, E e.

Section Rules.
Context {l : bool}.
Implicit Types (s : store) (w : World) (p : path) (e : LifecycleBlocker) (E : LifecycleBlocker → store → Prop).

Lemma wp_ret {A} (a : A) s Q E : Q a s → wp l (mret a) s Q E.
Proof. intros HQ w Hw Hc. by exists s. Qed.

Lemma wp_fail {A} e s (Q : A → store → Prop) E : E e s → wp l (fail e) s Q E.
Proof. intros HE w Hw Hc. by exists s. Qed.

Lemma wp_bind {A B} (m : M A) (k : A → M B) s Q E :
  wp l m s (λ a s', wp l (k a) s' Q E) E → wp l (m ≫= k) s Q E.
Proof.
  intros Hm w Hw Hc. specialize (Hm w Hw Hc). unfold mbind, M_bind.
  destruct (m w) as [[a|e| |] w']; [|done..].
  destruct Hm as (s' & Hw' & Hc' & Hk). by apply Hk.
Qed.

Lemma wp_mono {A} (m : M A) s (Q Q' : A → store → Prop) (E E' : LifecycleBlocker → store → Prop) :
  wp l m s Q E → (∀ a s', Q a s' → Q' a s') → (∀ e s', E e s' → E' e s') → wp l m s Q' E'.
Proof.
  intros Hm HQ HE w Hw Hc. specialize (Hm w Hw Hc).
  destruct (m w) as [[a|e| |] w']; [| |done..];
    destruct Hm as (s' & ? & ? & ?); exists s'; auto.
Qed.

Lemma wp_conj {A} (m : M A) s (Q Q' : A → store → Prop) (E E' : LifecycleBlocker → store → Prop) :
  wp l m s Q E → wp l m s Q' E' →
  wp l m s (λ a s', Q a s' ∧ Q' a s') (λ e s', E e s' ∧ E' e s').
Proof.
  intros Hm Hm' w Hw Hc. specialize (Hm w Hw Hc). specialize (Hm' w Hw Hc).
  destruct (m w) as [[a|e| |] w']; [| |done..];
    destruct Hm as (s1 & Hs1 & Hc1 & ?), Hm' as (s2 & Hs2 & _ & ?);
    pose proof (rep_unique _ _ _ _ _ Hs1 Hs2) as <-; by exists s1.
Qed.

(** The run a [wp] speaks of. *)
Lemma wp_run {A} (m : M A) s Q E w :
  wp l m s Q E → rep l w s → (calm = true → calm_world w) →
  ∃ result w' s', m w = (result, w') ∧ rep l w' s'
    ∧ match result with Ok a => Q a s' | Err e => E e s' | _ => False end.
Proof.
  intros Hm Hw Hc. specialize (Hm w Hw Hc). destruct (m w) as [[a|e| |] w']; [| |done..];
    destruct Hm as (s' & ? & _ & ?); by eexists _, w', s'.
Qed.

Lemma wp_lift {A} (m : LifecycleResult A) s Q E :
  match m with Ok a => Q a s | Err e => E e s | _ => False end → wp l (lift m) s Q E.
Proof. intros Hm w Hw Hc. unfold lift. destruct m; [by exists s..|done|done]. Qed.

Lemma wp_guard_not b e s Q E :
  (b = true → E e s) → (b = false → Q tt s) → wp l (guard_not b e) s Q E.
Proof. intros Ht Hf. apply wp_lift. destruct b; simpl; auto. Qed.

Lemma wp_catch_map {A} f (m : M A) s Q E :
  wp l m s Q (λ e, E (f e)) → wp l (catch_map f m) s Q E.
Proof.
  intros Hm w Hw Hc. specialize (Hm w Hw Hc). unfold catch_map.
  by destruct (m w) as [[a|e| |] w'].
Qed.

Lemma rep_faults w s fs : rep l w s → rep l (w.{w_faults := fs}) s.
Proof. by intros []; split. Qed.

Lemma wp_io s Q E : Q tt s → may_fail (λ e, E e s) → wp l io s Q E.
Proof.
  intros HQ HE w Hw Hc. unfold io. destruct calm eqn:Hcalm.
  - destruct (Hc eq_refl) as [Hf ?]. rewrite Hf. by exists s.
  - destruct (w_faults w) as [|[f|] fs]; exists s; split_and!;
      first [done|by apply rep_faults|by apply (HE Hcalm)].
Qed.

Lemma wp_path_exists p s Q E :
  is_json p.2 = true → Q (bool_decide (is_Some (s !! p))) s → wp l (path_exists p) s Q E.
Proof.
  intros Hj HQ w Hw Hc. exists s. split_and!; [done..|]. simpl.
  destruct (rep_files _ _ _ Hw) as [_ ->]; [|done].
  erewrite bool_decide_ext; [exact HQ|]. by rewrite fmap_is_Some.
Qed.

(** A record is read back at its type, which is the one of its path. *)
Lemma wp_read_record (self : SessionLifecycleStore) (T : Type) `{!Serde T, !Filed T, !FiledLaws T} p s
    (Q : T → store → Prop) E :
  is_json p.2 = true → path_kind p = Some (file_kind T) →
  (∀ x, s !! p = Some (file_of x) → Q x s) →
  (s !! p = None → E (io_blocker io_not_found) s) →
  may_fail (λ e, E e s) →
  wp l (read_record self T p) s Q E.
Proof.
  intros Hj Hk HQ Hn HE. unfold read_record, read_json, read_bytes.
  apply wp_bind, wp_bind, wp_io; [|done].
  intros w Hw Hc. destruct (rep_files _ _ _ Hw) as [Hty Hf]. unfold mbind, M_bind, gets.
  rewrite (Hf p Hj). destruct (s !! p) as [r|] eqn:Hp; simpl.
  - destruct (Hty p r Hp) as [Hkind _]. rewrite Hk in Hkind. injection Hkind as Hkind.
    destruct (file_as_kind r (eq_sym Hkind)) as [x ->].
    rewrite file_of_text.
    pose proof (wp_io s (λ _ s', s' = s ∧ Q x s') E) as Hio.
    specialize (Hio (conj eq_refl (HQ x eq_refl)) HE w Hw Hc).
    destruct (io w) as [[[]|e| |] w']; [|done..].
    destruct Hio as (s' & ? & ? & -> & ?).
    pose proof (file_serde (T:=T)) as Hlaw. simpl.
    exists s. split_and!; [done..|]. rewrite (Hlaw x). by apply wp_ret.
  - by exists s; auto.
Qed.

Lemma represents_insert w p r s bytes f :
  represents w s → path_kind p = Some (record_kind r) → is_json p.2 = true →
  bytes = file_text r → json_view f (<[p := bytes]> (w_files w)) →
  well_typed (<[p := r]> s) ∧ ∀ q, is_json q.2 = true → f !! q = file_text <$> <[p := r]> s !! q.
Proof.
  intros [Hty Hf] Hk Hj -> Hv. split; [by apply well_typed_insert|].
  intros q Hq. rewrite (Hv q Hq), !lookup_insert. case_decide; [done|by apply Hf].
Qed.

Lemma wp_write_record (T : Type) `{!Serde T, !Filed T, !FiledLaws T} p (x : T) s Q E :
  is_json p.2 = true → path_kind p = Some (file_kind T) →
  Q tt (<[p := file_of x]> s) →
  may_fail (λ e, E e s) → may_fail (λ e, E e (<[p := file_of x]> s)) →
  wp l (write_record p x) s Q E.
Proof.
  intros Hj Hk HQ HE HE' w Hw Hc. unfold write_record, durable_write_json.
  set (bytes := to_vec x +:+ newline).
  pose proof (durable_write_view w p bytes Hj (rep_root _ _ _ Hw) w
                (conj (reflexivity w) (λ q _, eq_refl))) as Hview.
  assert (Hrep : ∀ w' s', quiet w w' → represents w' s' → rep l w' s').
  { intros w' s' [r1 l1 k1 p1 d1] Hs'. split; [by apply r1, Hw|by apply l1, Hw| | |done].
    - rewrite k1. apply Hw.
    - intros d Hd. apply d1. by apply Hw. }
  assert (Hnew : ∀ w', quiet w w' ∧ json_view (w_files w') (<[p := bytes]> (w_files w)) →
                       rep l w' (<[p := file_of x]> s)).
  { intros w' [Hq Hv]. apply Hrep; [done|]. eapply represents_insert; [apply Hw|..]; eauto.
    - by rewrite file_of_kind.
    - by rewrite file_of_text. }
  destruct calm eqn:Hcalm.
  - pose proof (durable_write_calm p bytes Hj w (conj (rep_root _ _ _ Hw) (Hc eq_refl))) as Hok.
    destruct (durable_write p bytes w) as [[[]|e| |] w']; [|done..].
    exists (<[p := file_of x]> s). split_and!; auto.
  - destruct (durable_write p bytes w) as [[[]|e| |] w']; [| |done..].
    + exists (<[p := file_of x]> s). split_and!; auto. done.
    + destruct Hview as [[Hq Hv]|Hview].
      * exists s. split_and!; [|done|by apply HE]. apply Hrep; [done|].
        split; [apply Hw|]. intros q Hj'. rewrite (Hv q Hj'). by apply Hw.
      * exists (<[p := file_of x]> s). split_and!; [auto|done|by apply HE'].
Qed.

Lemma wp_remove_durable p s Q E :
  is_json p.2 = true → Q tt (delete p s) →
  may_fail (λ e, E e s) → may_fail (λ e, E e (delete p s)) →
  wp l (remove_durable p) s Q E.
Proof.
  intros Hj HQ HE HE'. unfold remove_durable. apply wp_bind, wp_path_exists; [done|].
  case_bool_decide as Hp.
  - apply wp_bind, wp_io; [|done]. apply wp_bind.
    intros w Hw Hc. exists (delete p s). split_and!.
    + destruct Hw as [? ? ? ? [Hty Hf]]. split; try done. split; [by apply well_typed_delete|].
      intros q Hq. simpl. rewrite !lookup_delete. case_decide; [done|by apply Hf].
    + intros Ht. destruct (Hc Ht) as [Hfs Hn]. split; [done|]. intros d name n. simpl.
      rewrite lookup_delete. case_decide; [done|apply Hn].
    + unfold sync_directory. apply wp_bind, wp_io; [|done]. by apply wp_io.
  - apply wp_ret. apply eq_None_not_Some in Hp. by rewrite delete_id in HQ.
Qed.

Lemma elem_of_names_in (f : gmap path string) (d n : string) :
  n ∈ names_in d f ↔ is_Some (f !! (d, n)).
Proof.
  unfold names_in. rewrite list_elem_of_fmap. split.
  - intros ([[d' n'] b] & -> & [Hd Hin]%list_elem_of_filter). simpl in *. subst d'.
    apply elem_of_map_to_list in Hin. eauto.
  - intros [b Hb]. exists ((d, n), b). split; [done|]. apply list_elem_of_filter.
    split; [done|]. by apply elem_of_map_to_list.
Qed.

Lemma names_in_NoDup (f : gmap path string) (d : string) : NoDup (names_in d f).
Proof.
  unfold names_in.
  assert (Hnd : NoDup (fst <$> filter (λ x : path * string, x.1.1 = d) (map_to_list f))).
  { apply (sublist_NoDup _ (map_to_list f).*1); [apply NoDup_fst_map_to_list|].
    apply fmap_sublist, sublist_filter. }
  assert (Hd : Forall (λ x : path * string, x.1.1 = d)
                 (filter (λ x : path * string, x.1.1 = d) (map_to_list f))).
  { apply Forall_forall. by intros x [? _]%list_elem_of_filter. }
  revert Hnd Hd. generalize (filter (λ x : path * string, x.1.1 = d) (map_to_list f)).
  intros xs. induction xs as [|[[d' n'] b] xs IH]; simpl; [constructor|].
  intros [Hni Hnd]%NoDup_cons [Hd Hds]%Forall_cons. constructor; [|by apply IH].
  intros ([[d2 n2] b2] & Heq & Hin)%list_elem_of_fmap. simpl in *. subst n2 d'.
  rewrite Forall_forall in Hds. specialize (Hds _ Hin). simpl in Hds. subst d2.
  apply Hni. apply list_elem_of_fmap. by exists (d, n', b2).
Qed.

Lemma wp_read_dir (d : string) s (Q : list string → store → Prop) E :
  d ∈ layout →
  (∀ names, NoDup names →
    (∀ n, is_json n = true → n ∈ names ↔ is_Some (s !! (d, n))) → Q names s) →
  may_fail (λ e, E e s) →
  wp l (read_dir d) s Q E.
Proof.
  intros Hd HQ HE. apply wp_bind, wp_io; [|done].
  intros w Hw Hc. unfold mbind, M_bind, gets.
  rewrite bool_decide_eq_true_2 by by apply Hw.
  exists s. split_and!; [done..|]. apply HQ; [apply names_in_NoDup|].
  intros n Hn. rewrite elem_of_names_in. destruct (rep_files _ _ _ Hw) as [_ Hf].
  by rewrite (Hf (d, n) Hn), fmap_is_Some.
Qed.

(** The listing of a directory: its records once each, in the order of their
    names. *)
Definition lists_dir (s : store) (d : string) (paths : list path) : Prop :=
  (∀ p, p ∈ paths ↔ p.1 = d ∧ is_json p.2 = true ∧ is_Some (s !! p))
  ∧ NoDup paths ∧ StronglySorted String.le paths.*2.

Lemma wp_json_files (d : string) s (Q : list path → store → Prop) E :
  d ∈ layout → (∀ paths, lists_dir s d paths → Q paths s) → may_fail (λ e, E e s) →
  wp l (json_files d) s Q E.
Proof.
  intros Hd HQ HE. apply wp_bind, wp_read_dir; [done| |done].
  intros names Hnd Hin. apply wp_ret, HQ. set (kept := filter _ names).
  assert (Hperm : sort_strings kept ≡ₚ kept) by apply merge_sort_Permutation.
  split_and!.
  - intros [d' n]. rewrite list_elem_of_fmap. simpl. split.
    + intros (n' & [= -> ->] & Hn'). rewrite Hperm in Hn'.
      apply list_elem_of_filter in Hn' as [Hj Hn']. by rewrite <- Hin.
    + intros (-> & Hj & Hs). exists n. split; [done|]. rewrite Hperm.
      apply list_elem_of_filter. split; [done|]. by apply Hin.
  - apply NoDup_fmap_2; [by intros ?? [= ->]|]. rewrite Hperm. by apply NoDup_filter.
  - rewrite <- list_fmap_compose. unfold compose. simpl. rewrite list_fmap_id.
    apply StronglySorted_merge_sort; apply _.
Qed.

(** A loop whose body leaves the store alone, with an invariant on the part of
    the list already seen. *)
Lemma wp_for_each_read {A S} (I : list A → S → Prop) (xs : list A) (acc : S)
    (body : S → A → M S) s
    (Q : S → store → Prop) E :
  I [] acc →
  (∀ seen x rest acc, xs = seen ++ x :: rest → I seen acc →
     wp l (body acc x) s (λ acc' s', s' = s ∧ I (seen ++ [x]) acc') E) →
  (∀ acc, I xs acc → Q acc s) →
  wp l (for_each xs acc body) s Q E.
Proof.
  intros HI Hbody HQ.
  cut (∀ seen rest acc, xs = seen ++ rest → I seen acc →
        wp l (for_each rest acc body) s Q E); [intros Hgo; by apply (Hgo [])|].
  clear acc HI. intros seen rest. revert seen.
  induction rest as [|x rest IH]; intros seen acc Hxs HI; simpl.
  - apply wp_ret, HQ. by rewrite Hxs, app_nil_r.
  - apply wp_bind. eapply wp_mono; [by eapply Hbody| |done].
    intros acc' s' [-> HI']. apply (IH (seen ++ [x])); [|done]. by rewrite <- app_assoc.
Qed.

Lemma wp_for_return_read {A S R} (I : list A → S → Prop) (xs : list A) (acc : S)
    (body : S → A → M (S + R)) s (Q : S + R → store → Prop) E :
  I [] acc →
  (∀ seen x rest acc, xs = seen ++ x :: rest → I seen acc →
     wp l (body acc x) s
       (λ next s', s' = s ∧ match next with inl acc' => I (seen ++ [x]) acc'
                                       | inr r => Q (inr r) s end) E) →
  (∀ acc, I xs acc → Q (inl acc) s) →
  wp l (for_return xs acc body) s Q E.
Proof.
  intros HI Hbody HQ.
  cut (∀ seen rest acc, xs = seen ++ rest → I seen acc →
        wp l (for_return rest acc body) s Q E); [intros Hgo; by apply (Hgo [])|].
  clear acc HI. intros seen rest. revert seen.
  induction rest as [|x rest IH]; intros seen acc Hxs HI; simpl.
  - apply wp_ret, HQ. by rewrite Hxs, app_nil_r.
  - apply wp_bind. eapply wp_mono; [by eapply Hbody| |done].
    intros [acc'|r] s' [-> HI']; [|by apply wp_ret].
    apply (IH (seen ++ [x])); [|done]. by rewrite <- app_assoc.
Qed.

(** [mapM] with an invariant on the store and on the results so far. *)
Lemma wp_mapM {A B} (I : list A → list B → store → Prop) (xs : list A) (f : A → M B) s
    (Q : list B → store → Prop) E :
  I [] [] s →
  (∀ seen x rest ys s, xs = seen ++ x :: rest → I seen ys s →
     wp l (f x) s (λ y s', I (seen ++ [x]) (ys ++ [y]) s') E) →
  (∀ ys s, I xs ys s → Q ys s) →
  wp l (mapM f xs) s Q E.
Proof.
  intros HI Hf HQ.
  cut (∀ seen rest ys s, xs = seen ++ rest → I seen ys s →
        wp l (mapM f rest) s (λ zs s', Q (ys ++ zs) s') E).
  { intros Hgo. by apply (Hgo [] xs [] s). }
  clear s HI. intros seen rest. revert seen.
  induction rest as [|x rest IH]; intros seen ys s Hxs HI; simpl.
  - apply wp_ret. rewrite app_nil_r in Hxs. rewrite app_nil_r. apply HQ. by rewrite Hxs.
  - apply wp_bind. eapply wp_mono; [by eapply Hf| |done].
    intros y s' HI'. apply wp_bind.
    eapply wp_mono; [apply (IH (seen ++ [x]) (ys ++ [y])); [by rewrite <- app_assoc|done]| |done].
    intros zs s'' Hzs. apply wp_ret. cbv beta in Hzs. by rewrite <- app_assoc in Hzs.
Qed.
End Rules.

Implicit Types (s : store) (E : LifecycleBlocker → store → Prop).

Lemma rep_unlock w s fs :
  rep true w s → rep false (w.{w_faults := fs}.{w_locked := false}) s.
Proof. by intros []; split. Qed.

(** The body runs with the lock held; taking the lock and giving it back may
    fail. *)
Lemma wp_with_lock {A} (m : M A) s Q E :
  wp true m s Q E →
  may_fail (λ e, E e s) →
  may_fail (λ e, ∀ a s', Q a s' → E e s') →
  may_fail (λ e, ∀ e' s', E e' s' → E e s') →
  wp false (with_lock m) s Q E.
Proof.
  intros Hm HE HQE HEE w Hw Hc. unfold with_lock, open_lock_file.
  cut (∀ w, rep false w s → (calm = true → calm_world w) →
       match (acquire;; then_unlock m) w with
       | (Ok a, w') => ∃ s', rep false w' s' ∧ (calm = true → calm_world w') ∧ Q a s'
       | (Err e, w') => ∃ s', rep false w' s' ∧ (calm = true → calm_world w') ∧ E e s'
       | _ => False
       end).
  { intros Hgo. revert w Hw Hc. apply (wp_bind (l:=false)), wp_bind, wp_io; [|done].
    apply wp_bind. intros w Hw Hc. exists s. split_and!; [done..|].
    rewrite (rep_root _ _ _ Hw). clear w Hw Hc.
    apply wp_bind. intros w Hw Hc. exists s. split_and!; [done..|].
    rewrite (rep_lock_file _ _ _ Hw). by apply wp_ret. }
  clear w Hw Hc. intros w Hw Hc. unfold acquire. unfold mbind at 1, M_bind at 1.
  rewrite (rep_locked _ _ _ Hw).
  pose proof (wp_io (l:=false) s (λ _ s', s' = s) E eq_refl HE w Hw Hc) as Hio.
  unfold mbind at 1, M_bind at 1. destruct (io w) as [[[]|e| |] w1]; [|done..].
  destruct Hio as (s1 & Hw1 & Hc1 & ->). simpl.
  assert (Hw1' : rep true (w1.{w_locked := true}) s) by by destruct Hw1; split.
  specialize (Hm _ Hw1' Hc1). unfold then_unlock.
  destruct (m (w1.{w_locked := true})) as [[a|e| |] w2]; [| |done..];
    destruct Hm as (s2 & Hw2 & Hc2 & Hpost); unfold io;
    destruct (w_faults w2) as [|[f|] fs] eqn:Hfs; simpl;
    try (destruct calm eqn:Hcalm;
         [destruct (Hc2 eq_refl) as [Hbad _]; by rewrite Hfs in Hbad|]);
    exists s2; (split; [by destruct Hw2; split|split]);
    first [done|by eapply (HQE Hcalm)|by eapply (HEE Hcalm)|idtac].
Qed.
End Wp.
