(* ===== verification/StoreReads.v ===== *)
(** * The lifecycle store as an abstract transition system

    [change] lists every way the store may move: a record appears where there
    was none, a continuation advances, a journal grows, and the only records
    that disappear are pending copies of records held at a later stage.  Each
    constructor carries the facts the code has established by then.  The
    predicates on stores ([receipt_at], [callback_backed],
    [continuation_backed], [next_sequence]) say what the checks of the code mean
    for an abstract store. *)

From stdpp Require Import base list strings gmap sets sorting pretty relations.
From Stdlib Require Import ZArith Lia Ascii.
From S2P Require Import Prelude RustStd Externals TaskIdentity FileSystem StoreData StoreChecks Store.
From S2P Require Import StoreSpec StoreLogic.
Open Scope Z_scope.

(** ** Paths *)

Abbreviation pending_receipt k := ("receipts/pending", k).
Abbreviation applied_receipt k := ("receipts/applied", k).
Abbreviation acknowledged_receipt k := ("receipts/acknowledged", k).
Abbreviation pending_callback k := ("callbacks/pending", k).
Abbreviation intaken_callback_path k := ("callbacks/intaken", k).
Abbreviation acknowledged_callback k := ("callbacks/acknowledged", k).
Abbreviation continuation_file k := ("continuations", k).
Abbreviation released_slot k := ("slots/released", k).
Abbreviation blocker_path n := ("blockers", blocker_file n).

Section Steps.
Context `{SerdeJson, Sha2, !StoreSerde}.
(** [used] are the identities the requests name; a theorem that must tell them
    apart by their keys assumes it of these alone. *)
Context (self : SessionLifecycleStore) (used : string → string → Prop).
Implicit Types (s : store) (k : string).

(** ** What the checks establish *)

(** [read_stored_receipt] accepts the record. *)
Definition stored_ok (st : StoredReceipt) : Prop :=
  sr_schema_version st = STORED_RECEIPT_SCHEMA
  ∧ payload_sha256 (sr_receipt st) = sr_payload_sha256 st.

(** The receipt of a key: the applied copy before the pending one. *)
Definition receipt_at s k (st : StoredReceipt) : Prop :=
  s !! applied_receipt k = Some (FReceipt st)
  ∨ (s !! applied_receipt k = None ∧ s !! pending_receipt k = Some (FReceipt st)).

(** [validate_callback] succeeds. *)
Definition callback_backed s (record : DurableCallbackRecord) : Prop :=
  validate_callback_fields self record = Ok tt
  ∧ ∃ st, receipt_at s (receipt_key (cb_transaction_id record) (cb_event_id record)) st
      ∧ stored_ok st ∧ validate_receipt self (sr_receipt st) = Ok tt
      ∧ callback_matches_receipt record (sr_receipt st) = true.

Definition record_key (record : ContinuationDispatchRecord) : string :=
  receipt_key (cd_child_transaction_id record) (cd_child_event_id record).

(** [validate_continuation] succeeds. *)
Definition continuation_backed s (record : ContinuationDispatchRecord) : Prop :=
  validate_continuation_fields self record = Ok tt
  ∧ ∃ callback, s !! intaken_callback_path (record_key record) = Some (FCallback callback)
      ∧ callback_backed s callback
      ∧ validate_continuation_binding record callback = Ok tt.

(** [i] is the sequence number of an applied receipt of the transaction. *)
Definition applied_sequence s (transaction_id : string) (k : string) (i : Z) : Prop :=
  ∃ st, s !! applied_receipt k = Some (FReceipt st)
    ∧ tr_transaction_id (sr_receipt st) = transaction_id
    ∧ tr_event_seq (sr_receipt st) = i.

(** The applied sequence numbers of the transaction are [0 .. n-1], each
    once. *)
Definition next_sequence s (transaction_id : string) (n : Z) : Prop :=
  0 ≤ n ∧ (∀ i, (∃ k, applied_sequence s transaction_id k i) ↔ 0 ≤ i < n)
  ∧ ∀ k1 k2 i, applied_sequence s transaction_id k1 i →
               applied_sequence s transaction_id k2 i → k1 = k2.

Definition stored_receipt (receipt : TerminalReceipt) : StoredReceipt :=
  {| sr_schema_version := STORED_RECEIPT_SCHEMA;
     sr_payload_sha256 := payload_sha256 receipt;
     sr_receipt := receipt |}.

(** ** The journal of blockers *)

Definition last_blocker s (o : option BlockerRecord) : Prop :=
  match o with
  | Some r => s !! last_blocker_path = Some (FBlocker r)
              ∧ s !! blocker_path (br_sequence r) = Some (FBlocker r)
  | None => s !! last_blocker_path = None
            ∧ ∀ n, is_json n = true → s !! ("blockers", n) = None
  end.

(** ** Progress of a continuation *)

(** The evidence a completion needs: a reconciled delivery, or a convergence
    proof (a record without a target thread needs neither). *)
Definition completion_evidence (r : ContinuationDispatchRecord) : Prop :=
  cd_commander_thread_id r = None ∨ result_kind_is r Reconciled = true
  ∨ is_Some (cd_convergence_proof r).

Inductive advance : ContinuationDispatchRecord → ContinuationDispatchRecord → Prop :=
| adv_begin r sha :
    cd_state r = Prepared →
    advance r (set_state (set_direct_delivery r (Some (cd_request_id r)) (Some sha))
                 DeliveryUnsettled)
| adv_settle r evidence :
    cd_state r = DeliveryUnsettled →
    advance r (set_state (set_direct_delivery_result r (Some evidence)) Dispatched)
| adv_reconcile r evidence :
    cd_state r = Dispatched → result_kind_is r Accepted = true →
    dd_kind evidence = Reconciled →
    advance r (set_direct_delivery_result r (Some evidence))
| adv_bind r proof :
    cd_convergence_proof r = None → validate_convergence_proof r proof = Ok tt →
    advance r (set_convergence_proof r (Some proof))
| adv_complete r :
    cd_state r = Dispatched → completion_evidence r → advance r (set_state r Completed)
| adv_acknowledge r :
    cd_state r = Completed → advance r (set_state r Acknowledged).

(** ** Moves of the store *)

Inductive change : store → store → Prop :=
| ch_receipt s receipt :
    let k := receipt_key (tr_transaction_id receipt) (tr_event_id receipt) in
    used (tr_transaction_id receipt) (tr_event_id receipt) →
    validate_receipt self receipt = Ok tt →
    s !! applied_receipt k = None → s !! pending_receipt k = None →
    change s (<[pending_receipt k := FReceipt (stored_receipt receipt)]> s)
| ch_apply s transaction_id event_id st :
    let k := receipt_key transaction_id event_id in
    used transaction_id event_id →
    s !! applied_receipt k = None → s !! pending_receipt k = Some (FReceipt st) →
    stored_ok st → validate_receipt self (sr_receipt st) = Ok tt →
    next_sequence s transaction_id (tr_event_seq (sr_receipt st)) →
    change s (<[applied_receipt k := FReceipt st]> s)
| ch_clean s k st st' :
    s !! applied_receipt k = Some (FReceipt st) →
    s !! pending_receipt k = Some (FReceipt st') → StoredReceipt_eqb st' st = true →
    change s (delete (pending_receipt k) s)
| ch_acknowledge s transaction_id event_id delivery_id st :
    let k := receipt_key transaction_id event_id in
    s !! applied_receipt k = Some (FReceipt st) → s !! acknowledged_receipt k = None →
    change s (<[acknowledged_receipt k := FReceiptAck {|
      ra_schema_version := ACK_SCHEMA; ra_transaction_id := transaction_id;
      ra_event_id := event_id; ra_event_seq := tr_event_seq (sr_receipt st);
      ra_commander_session_id := sl_commander_session_id self;
      ra_delivery_id := delivery_id |}]> s)
| ch_admit s record :
    let p := ("admissions/children", child_admission_key (ca_child_session_id record)) in
    validate_child_admission self record = Ok tt → s !! p = None →
    change s (<[p := FAdmission record]> s)
| ch_publish s record :
    let k := receipt_key (cb_transaction_id record) (cb_event_id record) in
    callback_backed s record → callback_writer_binding record = Ok tt →
    s !! pending_callback k = None → s !! intaken_callback_path k = None →
    s !! acknowledged_callback k = None →
    change s (<[pending_callback k := FCallback record]> s)
| ch_intake_callback s k record :
    s !! pending_callback k = Some (FCallback record) → s !! intaken_callback_path k = None →
    change s (<[intaken_callback_path k := FCallback record]> s)
| ch_clean_callback s k record :
    s !! intaken_callback_path k = Some (FCallback record) →
    s !! pending_callback k = Some (FCallback record) →
    change s (delete (pending_callback k) s)
| ch_acknowledge_callback s k record :
    s !! intaken_callback_path k = Some (FCallback record) →
    is_unsettled (cb_effect_identity record) = false →
    s !! acknowledged_callback k = None →
    change s (<[acknowledged_callback k := FCallbackAck
      {| cba_schema_version := CALLBACK_ACK_SCHEMA; cba_record := record |}]> s)
| ch_prepare s record :
    continuation_backed s record → s !! continuation_file (record_key record) = None →
    change s (<[continuation_file (record_key record) := FContinuation record]> s)
| ch_advance s k existing next :
    s !! continuation_file k = Some (FContinuation existing) →
    k = record_key existing → continuation_backed s existing → advance existing next →
    change s (<[continuation_file k := FContinuation next]> s)
| ch_failure s failure :
    change s (<[("identity_pending",
                 receipt_key (pf_transaction_id failure) (pf_event_id failure))
                := FFailure failure]> s)
| ch_checkpoint s evidence :
    let p := ("checkpoints", ce_checkpoint_id evidence +:+ ".json") in
    s !! p = None → change s (<[p := FCheckpoint evidence]> s)
| ch_release s transaction_id event_id st :
    let k := receipt_key transaction_id event_id in
    s !! applied_receipt k = Some (FReceipt st) → s !! released_slot k = None →
    change s (<[released_slot k
                := FRelease (slot_release transaction_id event_id (sr_receipt st))]> s)
| ch_blocker s last n b transaction_id event_id :
    last_blocker s last → next_blocker_sequence last = Ok n →
    s !! blocker_path n = None →
    change s (<[blocker_path n := FBlocker (blocker_record self n b transaction_id event_id)]> s)
| ch_last_blocker s last n b transaction_id event_id :
    next_blocker_sequence last = Ok n →
    s !! last_blocker_path = FBlocker <$> last →
    s !! blocker_path n = Some (FBlocker (blocker_record self n b transaction_id event_id)) →
    change s (<[last_blocker_path
                := FBlocker (blocker_record self n b transaction_id event_id)]> s)
| ch_reconcile s record :
    change s (<[last_reconcile_path := FReconcile record]> s).

End Steps.

(** Any number of moves. *)
Abbreviation evolves self used := (rtc (change self used)).

(** ** What the reads and checks of the store compute

    Rules for the parts of an operation that write nothing.  Each has a
    condition on the abstract store under which it succeeds; without faults it
    fails only when the condition is false. *)

(** The rules for files, at the type of the program. *)
Ltac wp_read :=
  lazymatch goal with
  | |- wp ?c _ (read_record ?self ?T _) _ _ _ => apply (wp_read_record c self T)
  end.
Ltac wp_write :=
  lazymatch goal with
  | |- wp ?c _ (write_record (T:=?T) _ _) _ _ _ => apply (wp_write_record c T)
  end.

Section Keys.
Context `{Sha2, !Sha2Laws _}.

Lemma sha256_nonempty x : sha256_hex x ≠ "".
Proof. intros Heq. pose proof (sha256_hex_length x) as Hl. by rewrite Heq in Hl. Qed.

Lemma receipt_key_json a b : is_json (receipt_key a b) = true.
Proof. apply is_json_key, sha256_nonempty. Qed.
Lemma child_admission_key_json a : is_json (child_admission_key a) = true.
Proof. apply is_json_key, sha256_nonempty. Qed.
Lemma checkpoint_file_json a b c d e f :
  is_json (checkpoint_evidence_id a b c d e f +:+ ".json") = true.
Proof. apply is_json_key, sha256_nonempty. Qed.

(** [require_sha256] accepts every digest. *)
Lemma require_sha256_digest name x : require_sha256 name (sha256_hex x) = Ok tt.
Proof.
  unfold require_sha256. rewrite sha256_hex_length, sha256_hex_lower. done.
Qed.
End Keys.

Lemma padded_digits_nonempty w n acc : acc ≠ "" → padded_digits w n acc ≠ "".
Proof. revert n acc. induction w as [|w IH]; intros n acc Hacc; simpl; [done|by apply IH]. Qed.
Lemma blocker_file_json n : is_json (blocker_file n) = true.
Proof. apply is_json_key. by apply (padded_digits_nonempty 19). Qed.

Lemma digit_inj m n : digit m = digit n → m mod 10 = n mod 10.
Proof.
  unfold digit. intros Heq. apply (f_equal nat_of_ascii) in Heq.
  pose proof (Z.mod_pos_bound m 10). pose proof (Z.mod_pos_bound n 10).
  rewrite !nat_ascii_embedding in Heq by lia. lia.
Qed.

(** The padded digits determine a number that fits. *)
Lemma padded_digits_inj w m n acc acc' :
  0 ≤ m < 10 ^ Z.of_nat w → 0 ≤ n < 10 ^ Z.of_nat w →
  padded_digits w m acc = padded_digits w n acc' → m = n ∧ acc = acc'.
Proof.
  revert m n acc acc'. induction w as [|w IH]; intros m n acc acc' Hm Hn; simpl.
  - change (10 ^ Z.of_nat 0) with 1 in *. split; [lia|done].
  - rewrite Nat2Z.inj_succ, Z.pow_succ_r in Hm, Hn by lia. intros Heq.
    apply IH in Heq as [Hq Hs]; [|split; [apply Z.div_pos; lia|apply Z.div_lt_upper_bound; lia]..].
    assert (Hd : m mod 10 = n mod 10) by (apply digit_inj; congruence).
    split; [|congruence].
    rewrite (Z.div_mod m 10), (Z.div_mod n 10) by done. congruence.
Qed.

Lemma string_length_app x y : String.length (x +:+ y) = (String.length x + String.length y)%nat.
Proof. induction x as [|c x IH]; simpl; [done|by rewrite <- IH]. Qed.

Lemma append_inj_l x y z : x +:+ z = y +:+ z → x = y.
Proof.
  intros Heq. assert (Hlen : String.length x = String.length y).
  { apply (f_equal String.length) in Heq. rewrite !string_length_app in Heq. lia. }
  clear -Heq Hlen. revert y Heq Hlen. induction x as [|c x IH]; intros [|d y] Heq Hlen;
    simplify_eq/=; [done|]. f_equal. by apply IH.
Qed.

Lemma blocker_file_inj m n :
  0 ≤ m ≤ u64_max → 0 ≤ n ≤ u64_max → blocker_file m = blocker_file n → m = n.
Proof.
  intros Hm Hn Heq. apply append_inj_l in Heq.
  assert (Hmax : u64_max < 10 ^ Z.of_nat 20) by done.
  apply padded_digits_inj in Heq as [? _]; [done|lia..].
Qed.

Create HintDb store_json.
#[export] Hint Resolve receipt_key_json child_admission_key_json checkpoint_file_json
  blocker_file_json : store_json.
#[export] Hint Extern 1 (is_json _ = true) => reflexivity : store_json.

(** Discharges the side conditions of the rules on files. *)
Ltac json := solve [simpl; auto with store_json].
Ltac kind := reflexivity.

(** ** The checks end *)

Lemma settles_require_identifier name v : settles (require_identifier name v).
Proof. apply settles_reject_if. Qed.
Lemma settles_require_sha256 name v : settles (require_sha256 name v).
Proof. apply settles_reject_if. Qed.
Lemma settles_require_all check fields :
  (∀ n v, settles (check n v)) → settles (require_all check fields).
Proof.
  intros Hc. induction fields as [|[n v] fields IH]; simpl; [apply settles_Ok|].
  by apply settles_bind.
Qed.
Lemma settles_require_scopes fields : settles (require_scopes fields).
Proof.
  induction fields as [|[n v] fields IH]; simpl; [apply settles_Ok|].
  apply settles_bind; [apply settles_reject_if|done].
Qed.
Lemma settles_require_texts invalid prefix fields : settles (require_texts invalid prefix fields).
Proof.
  induction fields as [|[n v] fields IH]; simpl; [apply settles_Ok|].
  apply settles_bind; [apply settles_reject_if|done].
Qed.
Lemma settles_require_derived fields : settles (require_derived fields).
Proof.
  induction fields as [|[[n v] e] fields IH]; simpl; [apply settles_Ok|].
  apply settles_bind; [apply settles_reject_if|done].
Qed.

Ltac settle :=
  repeat first
    [ apply settles_bind; [|intros ?] | apply settles_reject_if | apply settles_Ok
    | apply settles_ok_or | apply settles_map_err
    | apply settles_require_identifier | apply settles_require_sha256
    | apply settles_require_all; intros ? ? | apply settles_require_scopes
    | apply settles_require_texts | apply settles_require_derived
    | match goal with |- settles (match ?x with _ => _ end) => destruct x end ].

Section Settle.
Context `{SerdeJson, Sha2, !StoreSerde}.
Context (self : SessionLifecycleStore).
Lemma settles_validate_receipt r : settles (validate_receipt self r).
Proof. unfold validate_receipt. settle. Qed.
Lemma settles_validate_child_admission r : settles (validate_child_admission self r).
Proof. unfold validate_child_admission, ChildReadySetIdentity_validate. cbn zeta. settle. Qed.
Lemma settles_validate_callback_fields r : settles (validate_callback_fields self r).
Proof. unfold validate_callback_fields. settle. Qed.
Lemma settles_validate_convergence_proof r p : settles (validate_convergence_proof r p).
Proof.
  unfold validate_convergence_proof, validate_shape, CommanderContinuationBinding_validate.
  cbn zeta. settle.
Qed.
Lemma settles_validate_continuation_fields r : settles (validate_continuation_fields self r).
Proof.
  unfold validate_continuation_fields, validate_direct_delivery_state, require_thread,
    require_route. cbn zeta. settle; try apply settles_validate_convergence_proof.
Qed.
Lemma settles_from_callback c : settles (from_callback c).
Proof.
  unfold from_callback, continuation_identity_sha256, require_thread, require_route.
  cbn zeta. settle.
Qed.
Lemma settles_validate_continuation_binding r c : settles (validate_continuation_binding r c).
Proof.
  unfold validate_continuation_binding, continuation_bound_identity_sha256, require_thread,
    require_route. settle.
Qed.
Lemma settles_require_direct_writer_binding a b c d :
  settles (require_direct_writer_binding a b c d).
Proof. apply settles_reject_if. Qed.
Lemma settles_callback_writer_binding r : settles (callback_writer_binding r).
Proof. apply settles_reject_if. Qed.
Lemma settles_continuation_writer_binding r : settles (continuation_writer_binding r).
Proof. apply settles_reject_if. Qed.
Lemma settles_validate_checkpoint_pair a b c : settles (validate_checkpoint_pair self a b c).
Proof. unfold validate_checkpoint_pair. settle. Qed.
Lemma settles_completion_proof_check a b : settles (completion_proof_check a b).
Proof. unfold completion_proof_check. settle. Qed.
Lemma settles_next_blocker_sequence o : settles (next_blocker_sequence o).
Proof. unfold next_blocker_sequence. settle. Qed.
Lemma settles_check_gapless xs n : settles (check_gapless xs n).
Proof.
  revert n. induction xs as [|x xs IH]; intros n; simpl; [apply settles_Ok|].
  apply settles_bind; [apply settles_reject_if|intros ?; apply IH].
Qed.
End Settle.
Create HintDb store_settles.
#[export] Hint Resolve settles_require_identifier settles_require_sha256
  settles_validate_receipt settles_validate_child_admission settles_validate_callback_fields
  settles_validate_convergence_proof settles_validate_continuation_fields
  settles_from_callback settles_validate_continuation_binding
  settles_require_direct_writer_binding settles_callback_writer_binding
  settles_continuation_writer_binding settles_validate_checkpoint_pair
  settles_completion_proof_check settles_next_blocker_sequence settles_check_gapless
  : store_settles.

Section Reads.
Context `{SerdeJson, Sha2, !StoreSerde, !StoreSerdeLaws, !Sha2Laws _}.
Context (self : SessionLifecycleStore) (calm : bool) {l : bool}.
Implicit Types (s : store) (p : path) (k : string) (E : LifecycleBlocker → store → Prop).

(** A computation that fails on a machine without faults only when [P] is
    false. *)
Definition fails_unless (P : Prop) E s : Prop := ∀ e, (calm = true → ¬ P) → E e s.

Lemma fails_may_fail P E s : fails_unless P E s → may_fail calm (λ e, E e s).
Proof. intros Hf Hc e. apply Hf. by rewrite Hc. Qed.

Lemma fails_now P E s e : fails_unless P E s → ¬ P → E e s.
Proof. intros Hf Hp. by apply Hf. Qed.

Lemma wp_read_stored_receipt p s (Q : StoredReceipt → store → Prop) E :
  is_json p.2 = true → path_kind p = Some KReceipt →
  (∀ st, s !! p = Some (FReceipt st) → stored_ok st → Q st s) →
  fails_unless (∃ st, s !! p = Some (FReceipt st) ∧ stored_ok st) E s →
  wp calm l (read_stored_receipt self p) s Q E.
Proof.
  intros Hj Hk HQ HE. unfold read_stored_receipt.
  apply wp_bind. wp_read; [done|done| | |by eapply fails_may_fail].
  2:{ intros Hn. eapply fails_now; [done|]. intros (st & Hst & _). congruence. }
  intros st Hst. apply wp_bind, wp_guard_not; intros Hg; guards.
  { eapply fails_now; [done|]. intros (st' & Hst' & [? _]). simpl in Hst. congruence. }
  apply wp_bind, wp_guard_not; intros Hg'; guards.
  { eapply fails_now; [done|]. intros (st' & Hst' & [_ ?]). simpl in Hst. congruence. }
  apply wp_ret. by apply HQ.
Qed.

Lemma wp_check (m : LifecycleResult unit) s (Q : unit → store → Prop) E :
  settles m → (m = Ok tt → Q tt s) → (∀ e, m = Err e → E e s) → wp calm l (lift m) s Q E.
Proof. intros [[[] ->]|[e ->]] HQ HE; apply wp_lift; auto. Qed.

Lemma receipt_at_fun s k st st' : receipt_at s k st → receipt_at s k st' → st = st'.
Proof. unfold receipt_at. intros [?|[? ?]] [?|[? ?]]; congruence. Qed.

Definition receipt_ok (st : StoredReceipt) : Prop :=
  stored_ok st ∧ validate_receipt self (sr_receipt st) = Ok tt.

(** One directory of the lookup of a receipt. *)
Lemma wp_receipt_in p s k (Q : unit + TerminalReceipt → store → Prop) E :
  is_json p.2 = true → path_kind p = Some KReceipt →
  (∀ st, s !! p = Some (FReceipt st) → receipt_at s k st) →
  (∀ st, is_Some (s !! p) → receipt_at s k st → s !! p = Some (FReceipt st)) →
  (s !! p = None → Q (inl tt) s) →
  (∀ st, receipt_at s k st → receipt_ok st → Q (inr (sr_receipt st)) s) →
  fails_unless (∃ st, receipt_at s k st ∧ receipt_ok st) E s →
  wp calm l (present ← path_exists p;
    if (present : bool) then
      stored ← read_stored_receipt self p;
      lift (validate_receipt self (sr_receipt stored));;
      mret (inr (sr_receipt stored))
    else mret (inl tt)) s Q E.
Proof.
  intros Hj Hk Hat Hback Hnone Hsome HE. apply wp_bind, wp_path_exists; [done|].
  case_bool_decide as Hp; [|apply wp_ret, Hnone; by apply eq_None_not_Some].
  apply wp_bind, wp_read_stored_receipt; [done|done| |].
  - intros st Hst Hok. apply wp_bind, wp_check; [auto with store_settles| |].
    + intros Hv. apply wp_ret. apply Hsome; [by apply Hat|done].
    + intros e Hv. eapply fails_now; [done|]. intros (st' & Hat' & _ & Hv').
      rewrite (receipt_at_fun _ _ _ _ Hat' (Hat _ Hst)) in Hv'. congruence.
  - intros e He. apply HE. intros Hc (st & Hst & Hok & _). apply He; [done|].
    eauto.
Qed.

(** The applied copy of a receipt comes first. *)
Lemma wp_terminal_receipt_unlocked (transaction_id event_id : string) s
    (Q : TerminalReceipt → store → Prop) E :
  let k := receipt_key transaction_id event_id in
  (∀ st, receipt_at s k st → receipt_ok st → Q (sr_receipt st) s) →
  fails_unless (∃ st, receipt_at s k st ∧ receipt_ok st) E s →
  wp calm l (terminal_receipt_unlocked self transaction_id event_id) s Q E.
Proof.
  intros k HQ HE. unfold terminal_receipt_unlocked. cbn zeta. fold k.
  assert (Hkj : is_json k = true) by apply receipt_key_json. clearbody k.
  apply wp_bind. cbn [for_return].
  assert (Hr : ∀ st, receipt_at s k st → receipt_ok st → wp calm l (mret (sr_receipt st)) s Q E)
    by (intros st Hat Hok; apply wp_ret; auto).
  apply wp_bind, (wp_receipt_in _ s k); [json|kind| | | |by intros st ? ?; apply wp_ret, Hr|done].
  - by left.
  - intros st [r Hp] [Hst|[Hn _]]; [done|]. congruence.
  - intros Hn. apply wp_bind, (wp_receipt_in _ s k);
      [json|kind| | | |by intros st ? ?; apply wp_ret, Hr|done].
    + intros st Hst. by right.
    + intros st _ [Hst|[_ Hst]]; [|done]. congruence.
    + intros Hn'. apply wp_ret, wp_fail. eapply fails_now; [done|].
      intros (st & [Hst|[_ Hst]] & _); [by rewrite Hst in Hn|].
      congruence.
Qed.

(** ** Checks of callbacks and continuations under the lock *)

Lemma wp_validate_callback_unlocked (record : DurableCallbackRecord) s (Q : unit → store → Prop) E :
  (callback_backed self s record → Q tt s) → fails_unless (callback_backed self s record) E s →
  wp calm l (validate_callback_unlocked self record) s Q E.
Proof.
  intros HQ HE. apply wp_bind, wp_check; [auto with store_settles| |].
  2:{ intros e He. eapply fails_now; [done|]. intros [Hf _]. congruence. }
  intros Hf. apply wp_bind, wp_terminal_receipt_unlocked.
  - intros st Hat [Hok Hv]. apply wp_guard_not; intros Hg; guards.
    + eapply fails_now; [done|]. intros (_ & st' & Hat' & _ & _ & Hm).
      rewrite (receipt_at_fun _ _ _ _ Hat' Hat) in Hm. congruence.
    + apply HQ. split; [done|]. exists st. done.
  - intros e He. apply HE. intros Hc (_ & st & Hat & Hok & Hv & _). apply He; [done|].
    exists st. by split.
Qed.

Lemma wp_validate_continuation_unlocked (record : ContinuationDispatchRecord) s (Q : unit → store → Prop) E :
  (continuation_backed self s record → Q tt s) →
  fails_unless (continuation_backed self s record) E s →
  wp calm l (validate_continuation_unlocked self record) s Q E.
Proof.
  intros HQ HE. apply wp_bind, wp_check; [auto with store_settles| |].
  2:{ intros e He. eapply fails_now; [done|]. intros [Hf _]. congruence. }
  intros Hf. apply wp_bind, wp_path_exists; [json|].
  apply wp_bind, wp_guard_not; intros Hg; guards.
  { eapply fails_now; [done|]. intros (_ & callback & Hcb & _). apply Hg. by eexists. }
  apply wp_bind. wp_read; [json|kind| | |by eapply fails_may_fail].
  2:{ intros Hn. rewrite Hn in Hg. by destruct Hg. }
  intros callback Hcb. simpl in Hcb.
  assert (Hsame : ∀ c, s !! intaken_callback_path (record_key record) = Some (FCallback c) →
                       c = callback).
  { intros c Hc. unfold record_key in Hc. congruence. }
  apply wp_bind, wp_validate_callback_unlocked.
  - intros Hback. apply wp_check; [auto with store_settles| |].
    + intros Hb. apply HQ. split; [done|]. by exists callback.
    + intros e Hb. eapply fails_now; [done|]. intros (_ & c & Hc & _ & Hb').
      apply Hsame in Hc as ->. congruence.
  - intros e He. apply HE. intros Hcalm (_ & c & Hc & Hback & _). apply He; [done|].
    by apply Hsame in Hc as ->.
Qed.

(** The opening of the closures on a continuation. *)
Definition loads s (expected existing : ContinuationDispatchRecord) : Prop :=
  s !! continuation_file (record_key expected) = Some (FContinuation existing)
  ∧ continuation_backed self s existing
  ∧ continuation_bound_fields_match existing expected = true.

Lemma wp_load_continuation (expected : ContinuationDispatchRecord) s (Q : ContinuationDispatchRecord → store → Prop) E :
  (∀ existing, loads s expected existing → Q existing s) →
  fails_unless (∃ existing, loads s expected existing) E s →
  wp calm l (load_continuation self expected) s Q E.
Proof.
  intros HQ HE. apply wp_bind. wp_read; [json|kind| | |by eapply fails_may_fail].
  2:{ intros Hn. eapply fails_now; [done|]. intros (r & Hr & _).
      unfold record_key in Hr.
      unfold record_path, continuation_path in Hn. congruence. }
  intros existing Hex. simpl in Hex.
  assert (Hsame : ∀ r, loads s expected r → r = existing).
  { intros r [Hr _]. unfold record_key in Hr.
    unfold record_path, continuation_path in Hex. congruence. }
  apply wp_bind, wp_validate_continuation_unlocked.
  - intros Hback. apply wp_bind, wp_guard_not; intros Hg; guards.
    + eapply fails_now; [done|]. intros (r & Hr). pose proof (Hsame r Hr) as ->.
      destruct Hr as (_ & _ & Hm). congruence.
    + apply wp_ret. apply HQ. by split_and!.
  - intros e He. apply HE. intros Hc (r & Hr). apply He; [done|].
    pose proof (Hsame r Hr) as ->. apply Hr.
Qed.

(** ** The next sequence number of a transaction *)

Lemma check_gapless_spec xs n m :
  check_gapless xs n = Ok m ↔ xs = seqZ n (m - n) ∧ n ≤ m.
Proof.
  revert n. induction xs as [|x xs IH]; intros n; simpl.
  - split.
    + intros [= ->]. rewrite Z.sub_diag. split; [done|lia].
    + intros [Hx Hle]. f_equal. destruct (decide (0 < m - n)) as [Hpos|]; [|lia].
      rewrite seqZ_cons in Hx by lia. done.
  - destruct (Z.eqb_spec x n) as [->|Hne]; simpl.
    + rewrite IH. split.
      * intros [-> Hle]. rewrite (seqZ_cons n) by lia. split; [|lia].
        do 2 f_equal; lia.
      * intros [Hx Hle]. destruct (decide (0 < m - n)) as [Hpos|].
        -- rewrite seqZ_cons in Hx by lia. injection Hx as ->. split; [|lia]. f_equal; lia.
        -- rewrite seqZ_nil in Hx by lia. done.
    + split; [done|]. intros [Hx Hle]. destruct (decide (0 < m - n)) as [Hpos|].
      * rewrite seqZ_cons in Hx by lia. injection Hx as <- _. done.
      * rewrite seqZ_nil in Hx by lia. done.
Qed.

Lemma wp_typed {A} (m : M A) s (Q : A → store → Prop) E :
  (well_typed s → wp calm l m s Q E) → wp calm l m s Q E.
Proof. intros Hm w Hw. apply (Hm (proj1 (rep_files _ _ _ Hw)) w Hw). Qed.

Lemma sorted_elements (X : gset Z) n :
  0 ≤ n → (∀ i, i ∈ X ↔ 0 ≤ i < n) → merge_sort Z.le (elements X) = seqZ 0 n.
Proof.
  intros Hn HX. apply (StronglySorted_unique Z.le).
  - apply StronglySorted_merge_sort; apply _.
  - generalize 0 at 1. intros z. unfold seqZ. generalize (Z.to_nat n) as j. clear.
    intros j. generalize 0%nat. induction j as [|j IH]; intros i; simpl; [constructor|].
    constructor; [apply IH|]. apply Forall_fmap, Forall_seq. intros k Hk. simpl. lia.
  - rewrite merge_sort_Permutation. apply NoDup_Permutation;
      [apply NoDup_elements|apply NoDup_seqZ|].
    intros i. rewrite elem_of_elements, elem_of_seqZ, HX. lia.
Qed.

Lemma elem_mid {A} (x : A) seen rest : x ∈ seen ++ x :: rest.
Proof. apply elem_of_app. right. apply list_elem_of_here. Qed.
Lemma elem_seen {A} (x y : A) seen rest : x ∈ seen → x ∈ seen ++ y :: rest.
Proof. intros Hx. apply elem_of_app. by left. Qed.

(** Every applied receipt can be read back. *)
Definition applied_readable s : Prop :=
  ∀ k r, s !! applied_receipt k = Some r → ∃ st, r = FReceipt st ∧ stored_ok st.

(** What the loop over the applied receipts has collected. *)
Definition collected s (transaction_id : string) (seen : list path) (X : gset Z) : Prop :=
  (∀ i, i ∈ X ↔ ∃ p, p ∈ seen ∧ applied_sequence s transaction_id p.2 i)
  ∧ ∀ p1 p2 i, p1 ∈ seen → p2 ∈ seen → applied_sequence s transaction_id p1.2 i →
               applied_sequence s transaction_id p2.2 i → p1 = p2.

Lemma collected_next s transaction_id paths X n :
  well_typed s → lists_dir s "receipts/applied" paths → collected s transaction_id paths X →
  check_gapless (merge_sort Z.le (elements X)) 0 = Ok n ↔ next_sequence s transaction_id n.
Proof.
  intros Hty [Hin _] [HX Huniq].
  assert (Hpath : ∀ k i, applied_sequence s transaction_id k i → applied_receipt k ∈ paths).
  { intros k i (st & Hst & _). apply Hin. split_and!; [done| |by eexists].
    by destruct (Hty _ _ Hst). }
  assert (Hseq : ∀ i, i ∈ X ↔ ∃ k, applied_sequence s transaction_id k i).
  { intros i. rewrite HX. split; [intros (p & _ & ?); by exists p.2|].
    intros [k Hk]. exists (applied_receipt k). split; [by eapply Hpath|done]. }
  rewrite check_gapless_spec, Z.sub_0_r. split.
  - intros [Heq Hn]. split_and!; [done| |].
    + intros i. rewrite <- Hseq, <- elem_of_elements,
        <- (merge_sort_Permutation Z.le (elements X)), Heq, elem_of_seqZ. lia.
    + intros k1 k2 i Ha Hb.
      assert (Heq' : applied_receipt k1 = applied_receipt k2) by (eapply Huniq; eauto).
      by injection Heq'.
  - intros (Hn & Hi & _). split; [|done]. apply sorted_elements; [done|].
    intros i. by rewrite Hseq.
Qed.

Lemma applied_sequence_of s transaction_id k st i :
  s !! applied_receipt k = Some (FReceipt st) →
  applied_sequence s transaction_id k i ↔
  tr_transaction_id (sr_receipt st) = transaction_id ∧ tr_event_seq (sr_receipt st) = i.
Proof.
  intros Hst. unfold applied_sequence. rewrite Hst. split.
  - by intros (st' & [= <-] & ?).
  - intros ?. by exists st.
Qed.

Lemma collected_nil s transaction_id : collected s transaction_id [] ∅.
Proof.
  split.
  - intros i. split; [by intros ?%not_elem_of_empty|by intros (p & ?%not_elem_of_nil & _)].
  - by intros p1 p2 i ?%not_elem_of_nil.
Qed.

Lemma collected_add s transaction_id seen X k st :
  s !! applied_receipt k = Some (FReceipt st) →
  tr_transaction_id (sr_receipt st) = transaction_id → tr_event_seq (sr_receipt st) ∉ X →
  collected s transaction_id seen X →
  collected s transaction_id (seen ++ [applied_receipt k]) ({[tr_event_seq (sr_receipt st)]} ∪ X).
Proof.
  intros Hst Htx Hni [HX Huniq].
  pose proof (λ i, applied_sequence_of s transaction_id k st i Hst) as Hseq. split.
  - intros i. rewrite elem_of_union, elem_of_singleton, HX. split.
    + intros [->|(p & ? & ?)].
      * exists (applied_receipt k). split; [apply elem_mid|by apply Hseq].
      * exists p. split; [by apply elem_seen|done].
    + intros (p & [?| ->%list_elem_of_singleton]%elem_of_app & Hs); [right; by exists p|].
      left. by apply Hseq in Hs as [_ <-].
  - intros p1 p2 i [Ha| ->%list_elem_of_singleton]%elem_of_app
      [Hb| ->%list_elem_of_singleton]%elem_of_app Hs1 Hs2;
      [by eapply Huniq| | |done]; exfalso; apply Hni, HX; simpl in *.
    + apply Hseq in Hs2 as [_ ->]. by exists p1.
    + apply Hseq in Hs1 as [_ ->]. by exists p2.
Qed.

Lemma collected_skip s transaction_id seen X k st :
  s !! applied_receipt k = Some (FReceipt st) →
  tr_transaction_id (sr_receipt st) ≠ transaction_id →
  collected s transaction_id seen X →
  collected s transaction_id (seen ++ [applied_receipt k]) X.
Proof.
  intros Hst Htx [HX Huniq].
  assert (Hno : ∀ i, ¬ applied_sequence s transaction_id k i)
    by (intros i Hs; by apply (applied_sequence_of _ _ _ _ _ Hst) in Hs as [? _]).
  split.
  - intros i. rewrite HX. split.
    + intros (p & ? & ?). exists p. split; [by apply elem_seen|done].
    + intros (p & [?| ->%list_elem_of_singleton]%elem_of_app & Hs); [by exists p|].
      by apply Hno in Hs.
  - intros p1 p2 i [Ha| ->%list_elem_of_singleton]%elem_of_app
      [Hb| ->%list_elem_of_singleton]%elem_of_app Hs1 Hs2;
      [by eapply Huniq|by apply Hno in Hs2|by apply Hno in Hs1|done].
Qed.

Lemma wp_next_receipt_event_sequence (transaction_id : string) s (Q : Z → store → Prop) E :
  (∀ n, next_sequence s transaction_id n → Q n s) →
  fails_unless (applied_readable s ∧ ∃ n, next_sequence s transaction_id n) E s →
  wp calm l (next_receipt_event_sequence_unlocked self transaction_id) s Q E.
Proof.
  intros HQ HE. apply wp_typed. intros Hty.
  apply wp_bind, wp_json_files; [by apply (bool_decide_unpack _)| |by eapply fails_may_fail].
  intros paths Hpaths. pose proof Hpaths as [Hin [Hnd _]].
  apply wp_bind, (wp_for_each_read calm (collected s transaction_id)); [apply collected_nil| |].
  - intros seen [d k] rest X Hsplit HX.
    assert (Hp : d = "receipts/applied" ∧ is_json k = true ∧ is_Some (s !! (d, k)))
      by (apply (Hin (d, k)); rewrite Hsplit; apply elem_mid).
    destruct Hp as (-> & Hj & Hsome).
    apply wp_bind, wp_read_stored_receipt; [json|kind| |].
    + intros st Hst Hok. case_bool_decide as Htx.
      * apply wp_bind, wp_guard_not; intros Hg; guards.
        -- eapply fails_now; [done|]. intros [_ (n & _ & _ & Hu)].
           apply (proj1 HX) in Hg as ([d' k'] & Hp' & Hs').
           assert (k' = k) as ->
             by (eapply Hu; [exact Hs'|by apply (applied_sequence_of _ _ _ st)]).
           assert (d' = "receipts/applied") as ->
             by (apply (Hin (d', k)); rewrite Hsplit; by apply elem_seen).
           rewrite Hsplit in Hnd. apply NoDup_app in Hnd as (_ & Hd & _).
           by apply (Hd _ Hp'), list_elem_of_here.
        -- apply wp_ret. split; [done|]. by apply collected_add.
      * apply wp_ret. split; [done|]. by apply (collected_skip _ _ _ _ _ st).
    + intros e He. apply HE. intros Hc [Hread _]. apply He; [done|].
      destruct Hsome as [r Hr]. destruct (Hread _ _ Hr) as (st & -> & ?). by exists st.
  - intros X HX. pose proof (collected_next s transaction_id paths X) as Hnext.
    apply wp_lift. destruct (settles_check_gapless (merge_sort Z.le (elements X)) 0)
      as [[n Hn]|[e He]].
    + rewrite Hn. apply HQ. apply Hnext; done.
    + rewrite He. eapply fails_now; [done|]. intros [_ [n Hn]].
      apply Hnext in Hn; [congruence|done..].
Qed.

(** ** The journal *)

Lemma wp_last_blocker_record s (Q : option BlockerRecord → store → Prop) E :
  (∀ o, last_blocker s o → Q o s) → (∀ e, E e s) →
  wp calm l (last_blocker_record self) s Q E.
Proof.
  intros HQ HE. apply wp_bind, wp_path_exists; [json|]. case_bool_decide as Hp.
  - apply wp_bind. wp_read; [json|kind| |done|by intros _ e].
    intros last Hlast. apply wp_bind, wp_catch_map. wp_read; [json|kind| |done|by intros _ e].
    intros durable Hdur. apply wp_bind, wp_guard_not; intros Hg; guards; [done|]. subst durable.
    apply wp_ret, HQ. by split.
  - apply wp_bind, wp_read_dir; [by apply (bool_decide_unpack _)| |by intros _ e].
    intros names _ Hin. apply wp_bind, wp_guard_not; intros Hg; guards; [done|]. subst names.
    apply wp_ret, HQ. split; [by apply eq_None_not_Some|]. intros n Hn.
    apply eq_None_not_Some. intros Hs. by apply Hin, not_elem_of_nil in Hs.
Qed.
End Reads.

(** ** The methods that only read

    A reader leaves every file, the lock and the counters of the machine as
    they were, whatever fails, and it ends: it never waits for a lock its own
    process holds.  [reads] is the class of such programs, closed under the
    combinators of [FileSystem]. *)

(** A machine with an open store whose lock is held by this process or not. *)
Record open_world (locked : bool) (w : World) : Prop := {
  open_root : w_root w = RootDirectory;
  open_lock_file_present : w_lock_file w = true;
  open_locked : w_locked w = locked;
}.

Definition reads (locked : bool) {A} (m : M A) : Prop :=
  ∀ w, open_world locked w →
    ∃ result fs, m w = (result, w.{w_faults := fs}) ∧ settles result.

Lemma same_faults w : w.{w_faults := w_faults w} = w.
Proof. by destruct w. Qed.
Lemma open_faults l w fs : open_world l w → open_world l (w.{w_faults := fs}).
Proof. by intros []; split. Qed.

Section Rules.
Context {l : bool}.

Lemma reads_here {A} (m : M A) (f : World → LifecycleResult A) :
  (∀ w, m w = (f w, w)) → (∀ w, settles (f w)) → reads l m.
Proof. intros Hm Hf w _. exists (f w), (w_faults w). by rewrite same_faults, Hm. Qed.

Lemma reads_ret {A} (a : A) : reads l (mret a).
Proof. apply (reads_here _ (λ _, Ok a)); [done|]. intros _. apply settles_Ok. Qed.
Lemma reads_fail {A} e : reads l (fail (A:=A) e).
Proof. apply (reads_here _ (λ _, Err e)); [done|]. intros _. right. by eexists. Qed.
Lemma reads_lift {A} (m : LifecycleResult A) : settles m → reads l (lift m).
Proof. intros Hm. by apply (reads_here _ (λ _, m)). Qed.
Lemma reads_gets {A} (f : World → A) : reads l (gets f).
Proof. apply (reads_here _ (λ w, Ok (f w))); [done|]. intros w. apply settles_Ok. Qed.
Lemma reads_guard_not b e : reads l (guard_not b e).
Proof. apply reads_lift, settles_reject_if. Qed.
Lemma reads_path_exists p : reads l (path_exists p).
Proof. apply reads_gets. Qed.

Lemma reads_bind {A B} (m : M A) (k : A → M B) :
  reads l m → (∀ a, reads l (k a)) → reads l (m ≫= k).
Proof.
  intros Hm Hk w Hw. destruct (Hm w Hw) as (r & fs & Hrun & Hr).
  unfold mbind, M_bind. rewrite Hrun.
  destruct Hr as [[a ->]|[e ->]]; [|exists (Err e), fs; split; [done|right; by eexists]].
  destruct (Hk a _ (open_faults _ _ fs Hw)) as (r & fs' & Hrun' & Hr). by exists r, fs'.
Qed.

Lemma reads_io : reads l io.
Proof.
  intros w _. unfold io. destruct (w_faults w) as [|[f|] fs] eqn:Hf.
  - exists (Ok tt), []. split; [by rewrite <- Hf, same_faults|apply settles_Ok].
  - eexists _, fs. split; [done|]. right. by eexists.
  - exists (Ok tt), fs. split; [done|apply settles_Ok].
Qed.

Lemma reads_catch_map {A} f (m : M A) : reads l m → reads l (catch_map f m).
Proof.
  intros Hm w Hw. destruct (Hm w Hw) as (r & fs & Hrun & Hr). unfold catch_map. rewrite Hrun.
  exists (map_err f r), fs. split; [done|by apply settles_map_err].
Qed.

Lemma reads_for_each {A S} (xs : list A) (acc : S) body :
  (∀ acc x, reads l (body acc x)) → reads l (for_each xs acc body).
Proof.
  intros Hb. revert acc. induction xs as [|x xs IH]; intros acc; simpl; [apply reads_ret|].
  by apply reads_bind.
Qed.
Lemma reads_for_return {A S R} (xs : list A) (acc : S) (body : S → A → M (S + R)) :
  (∀ acc x, reads l (body acc x)) → reads l (for_return xs acc body).
Proof.
  intros Hb. revert acc. induction xs as [|x xs IH]; intros acc; simpl; [apply reads_ret|].
  apply reads_bind; [done|]. intros [acc'|r]; [apply IH|apply reads_ret].
Qed.

Lemma reads_bytes p : reads l (read_bytes p).
Proof.
  apply reads_bind; [apply reads_io|]. intros ?. apply reads_bind; [apply reads_gets|].
  intros [b|]; [|apply reads_fail]. apply reads_bind; [apply reads_io|]. intros ?. apply reads_ret.
Qed.
Lemma reads_json display (T : Type) `{Serde T} p : reads l (read_json display T p).
Proof.
  apply reads_bind; [apply reads_bytes|]. intros bytes.
  destruct (from_slice bytes); [apply reads_ret|apply reads_fail].
Qed.
Lemma reads_dir dir : reads l (read_dir dir).
Proof.
  apply reads_bind; [apply reads_io|]. intros ?. apply reads_bind; [apply reads_gets|].
  intros [|]; [apply reads_gets|apply reads_fail].
Qed.
Lemma reads_json_files dir : reads l (json_files dir).
Proof. apply reads_bind; [apply reads_dir|]. intros names. apply reads_ret. Qed.
End Rules.

(** The lock is taken and given back. *)
Lemma reads_then_unlock {A} (m : M A) w fs :
  reads true m → open_world false w →
  ∃ result fs', (acquire;; then_unlock m) (w.{w_faults := fs}) = (result, w.{w_faults := fs'})
    ∧ settles result.
Proof.
  intros Hm [Hr Hlf Hl]. destruct w as [root lk locked d f pid n fs0]. simpl in *. subst.
  unfold acquire, mbind at 1, M_bind at 1. simpl.
  assert (Hlocked : ∀ fs, open_world true {| w_root := RootDirectory; w_lock_file := true;
    w_locked := true; w_dirs := d; w_files := f; w_pid := pid; w_next_temp := n; w_faults := fs |})
    by by split.
  assert (Hbody : ∀ fs, ∃ result fs', then_unlock m {| w_root := RootDirectory;
      w_lock_file := true; w_locked := true; w_dirs := d; w_files := f; w_pid := pid;
      w_next_temp := n; w_faults := fs |}
    = (result, {| w_root := RootDirectory; w_lock_file := true; w_locked := false; w_dirs := d;
         w_files := f; w_pid := pid; w_next_temp := n; w_faults := fs' |}) ∧ settles result).
  { intros fs1. destruct (Hm _ (Hlocked fs1)) as (r & fs2 & Hrun & Hr).
    unfold then_unlock. rewrite Hrun. unfold io. simpl.
    destruct fs2 as [|[ft|] fs2]; simpl; destruct Hr as [[a ->]|[e ->]];
      (eexists _, _; split; [done|]); unfold settles; eauto. }
  unfold mbind, M_bind, modify, io. simpl. destruct fs as [|[ft|] fs]; simpl.
  - apply (Hbody []).
  - eexists _, fs. split; [done|]. right. by eexists.
  - apply (Hbody fs).
Qed.

Lemma reads_open_lock_file {l} create : reads l (open_lock_file create).
Proof.
  intros w Hw. destruct (reads_io w Hw) as (r & fs & Hrun & Hr).
  unfold open_lock_file, mbind, M_bind. rewrite Hrun.
  destruct Hr as [[[] ->]|[e ->]]; [|exists (Err e), fs; split; [done|right; by eexists]].
  unfold gets. simpl. rewrite (open_root _ _ Hw), (open_lock_file_present _ _ Hw).
  exists (Ok tt), fs. split; [done|apply settles_Ok].
Qed.

Lemma reads_with_lock {A} (m : M A) : reads true m → reads false (with_lock m).
Proof.
  intros Hm w Hw. destruct (reads_open_lock_file true w Hw) as (r & fs & Hrun & Hr).
  unfold with_lock. unfold mbind at 1, M_bind at 1. rewrite Hrun.
  destruct Hr as [[[] ->]|[e ->]]; [|exists (Err e), fs; split; [done|right; by eexists]].
  by apply reads_then_unlock.
Qed.

(** ** The readers *)

Create HintDb store_reads.
#[export] Hint Resolve reads_ret reads_fail reads_gets reads_guard_not reads_path_exists reads_io
  reads_bytes reads_json reads_dir reads_json_files : store_reads.

(** Walks through a program. *)
Ltac reader :=
  repeat first
    [ progress intros
    | solve [auto with store_reads]
    | apply reads_with_lock
    | apply reads_bind
    | apply reads_lift; solve [auto with store_settles | apply settles_reject_if | apply settles_ok_or]
    | apply reads_for_each | apply reads_for_return | apply reads_catch_map
    | match goal with |- reads _ (match ?x with _ => _ end) => destruct x end
    | match goal with |- reads _ (let _ := _ in _) => cbn zeta end ].

Section Readers.
Context `{SerdeJson, Sha2, !StoreSerde}.
Context (self : SessionLifecycleStore).

Lemma reads_stored_receipt {l} p : reads l (read_stored_receipt self p).
Proof. unfold read_stored_receipt, read_record. reader. Qed.
Hint Resolve reads_stored_receipt : store_reads.

Lemma reads_terminal_receipt_unlocked {l} a b : reads l (terminal_receipt_unlocked self a b).
Proof. unfold terminal_receipt_unlocked. reader. Qed.
Hint Resolve reads_terminal_receipt_unlocked : store_reads.
Lemma reads_terminal_receipt a b : reads false (terminal_receipt self a b).
Proof. unfold terminal_receipt. reader. Qed.
Hint Resolve reads_terminal_receipt : store_reads.

Lemma reads_next_sequence {l} a : reads l (next_receipt_event_sequence_unlocked self a).
Proof. unfold next_receipt_event_sequence_unlocked. reader. Qed.
Hint Resolve reads_next_sequence : store_reads.

Lemma reads_validate_callback c : reads false (validate_callback self c).
Proof. unfold validate_callback, validate_callback_with_lock_state. reader. Qed.
Lemma reads_validate_callback_unlocked {l} c : reads l (validate_callback_unlocked self c).
Proof. unfold validate_callback_unlocked, validate_callback_with_lock_state. reader. Qed.
Hint Resolve reads_validate_callback reads_validate_callback_unlocked : store_reads.

Lemma reads_validate_continuation r : reads false (validate_continuation self r).
Proof.
  unfold validate_continuation, validate_continuation_with_lock_state, read_record. reader.
Qed.
Lemma reads_validate_continuation_unlocked {l} r : reads l (validate_continuation_unlocked self r).
Proof.
  unfold validate_continuation_unlocked, validate_continuation_with_lock_state, read_record. reader.
Qed.
Hint Resolve reads_validate_continuation reads_validate_continuation_unlocked : store_reads.

Lemma reads_load_continuation {l} r : reads l (load_continuation self r).
Proof. unfold load_continuation, read_record. reader. Qed.
Hint Resolve reads_load_continuation : store_reads.

Lemma reads_collect_callback m p : reads false (collect_callback self m p).
Proof. unfold collect_callback, read_record. reader. Qed.
Hint Resolve reads_collect_callback : store_reads.

Lemma reads_optional_value {l} p : reads l (read_optional_value self p).
Proof. unfold read_optional_value, read_record. reader. Qed.
Lemma reads_count {l} d : reads l (count_json d).
Proof. unfold count_json. reader. Qed.
Hint Resolve reads_optional_value reads_count : store_reads.

(** The methods that only report leave every file and the lock as they
    were, on any machine with an open store and whatever I/O errors they meet,
    and they end with [Ok] or [Err]. *)
Theorem readers_only_read :
  (∀ a b, reads false (terminal_receipt self a b))
  ∧ (∀ a, reads false (next_receipt_event_sequence self a))
  ∧ (∀ a, reads false (child_admission self a))
  ∧ reads false (callbacks_for_replay self)
  ∧ (∀ a b, reads false (intaken_callback self a b))
  ∧ reads false (callback_continuations_for_replay self)
  ∧ (∀ a b, reads false (callback_continuation self a b))
  ∧ (∀ r, reads false (callback_continuation_completion_proven self r))
  ∧ (∀ a b, reads false (admit_checkpoint self a b))
  ∧ reads false (readback self).
Proof.
  unfold next_receipt_event_sequence, child_admission, callbacks_for_replay, intaken_callback,
    callback_continuations_for_replay, callback_continuation,
    callback_continuation_completion_proven, completion_proven_locked, admit_checkpoint, readback,
    read_record.
  split_and!; reader.
Qed.
End Readers.
