(* ===== verification/StoreRefine.v ===== *)
(** * The closures of the store refine its transition system

    Each closure, run with the lock held from a machine that represents [s],
    ends in a machine that represents a store reachable from [s] by [change],
    whichever of its calls fail.  What a method checked before it took the lock
    appears as a hypothesis about [s]. *)

From stdpp Require Import base list strings gmap sets sorting pretty relations.
From Stdlib Require Import ZArith Lia Ascii.
From S2P Require Import Prelude RustStd Externals FileSystem StoreData StoreChecks Store StoreSpec StoreLogic StoreReads.
Open Scope Z_scope.

Section Refine.
Context `{SerdeJson, Sha2, !StoreSerde, !StoreSerdeLaws, !Sha2Laws _}.
Context (self : SessionLifecycleStore) (used : string → string → Prop) (calm : bool) {l : bool}.
Implicit Types (s : store) (p : path) (k : string).

(** The program moves the store from [s] by changes only. *)
Definition refines {A} (m : M A) s : Prop :=
  wp calm l m s (λ _, evolves self used s) (λ _, evolves self used s).

(** The same for the rest of a program that began in [s0]. *)
Definition continues {A} (m : M A) s0 s : Prop :=
  wp calm l m s (λ _, evolves self used s0) (λ _, evolves self used s0).

Lemma continues_ret {A} (a : A) s0 s : evolves self used s0 s → continues (mret a) s0 s.
Proof. intros Hev. by apply wp_ret. Qed.
Lemma continues_fail {A} e s0 s : evolves self used s0 s → continues (A:=A) (fail e) s0 s.
Proof. intros Hev. by apply wp_fail. Qed.

Lemma continues_write (T : Type) `{!Serde T, !Filed T, !FiledLaws T} p (x : T) {A} (m : M A) s0 s :
  is_json p.2 = true → path_kind p = Some (file_kind T) →
  evolves self used s0 s → change self used s (<[p := file_of x]> s) →
  (evolves self used s0 (<[p := file_of x]> s) → continues m s0 (<[p := file_of x]> s)) →
  continues (write_record p x;; m) s0 s.
Proof.
  intros Hj Hk Hev Hch Hm.
  assert (evolves self used s0 (<[p := file_of x]> s)) by (etrans; [done|by apply rtc_once]).
  apply wp_bind, (wp_write_record calm T); [done|done|by apply Hm|by intros ? ?..].
Qed.

Lemma continues_write_last (T : Type) `{!Serde T, !Filed T, !FiledLaws T} p (x : T) s0 s :
  is_json p.2 = true → path_kind p = Some (file_kind T) →
  evolves self used s0 s → change self used s (<[p := file_of x]> s) →
  continues (write_record p x) s0 s.
Proof.
  intros Hj Hk Hev Hch.
  assert (evolves self used s0 (<[p := file_of x]> s)) by (etrans; [done|by apply rtc_once]).
  apply (wp_write_record calm T); [done|done|done|by intros ? ?..].
Qed.

Lemma continues_remove p {A} (m : M A) s0 s :
  is_json p.2 = true → evolves self used s0 s → change self used s (delete p s) →
  (evolves self used s0 (delete p s) → continues m s0 (delete p s)) →
  continues (remove_durable p;; m) s0 s.
Proof.
  intros Hj Hev Hch Hm.
  assert (evolves self used s0 (delete p s)) by (etrans; [done|by apply rtc_once]).
  apply wp_bind, wp_remove_durable; [done|by apply Hm|by intros ? ?..].
Qed.

Lemma continues_exists p {A} (m : bool → M A) s0 s :
  is_json p.2 = true →
  (is_Some (s !! p) → continues (m true) s0 s) → (s !! p = None → continues (m false) s0 s) →
  continues (present ← path_exists p; m present) s0 s.
Proof.
  intros Hj Ht Hf. apply wp_bind, wp_path_exists; [done|].
  case_bool_decide as Hp; [by apply Ht|by apply Hf, eq_None_not_Some].
Qed.

Lemma continues_read (T : Type) `{!Serde T, !Filed T, !FiledLaws T} p {A} (m : T → M A) s0 s :
  is_json p.2 = true → path_kind p = Some (file_kind T) → evolves self used s0 s →
  (∀ x, s !! p = Some (file_of x) → continues (m x) s0 s) →
  continues (x ← read_record self T p; m x) s0 s.
Proof.
  intros Hj Hk Hev Hm.
  apply wp_bind, (wp_read_record calm self T); [done|done|done|by intros ?|by intros ? ?].
Qed.

Lemma continues_read_stored p {A} (m : StoredReceipt → M A) s0 s :
  is_json p.2 = true → path_kind p = Some KReceipt → evolves self used s0 s →
  (∀ x, s !! p = Some (FReceipt x) → stored_ok x → continues (m x) s0 s) →
  continues (x ← read_stored_receipt self p; m x) s0 s.
Proof.
  intros Hj Hk Hev Hm. apply wp_bind, wp_read_stored_receipt; [done|done|done|by intros ? ?].
Qed.

Lemma continues_guard b e {A} (m : M A) s0 s :
  evolves self used s0 s → (b = false → continues m s0 s) → continues (guard_not b e;; m) s0 s.
Proof. intros Hev Hm. apply wp_bind, wp_guard_not; [done|done]. Qed.

Lemma continues_check {B} (c : LifecycleResult B) {A} (m : B → M A) s0 s :
  settles c → evolves self used s0 s → (∀ x, c = Ok x → continues (m x) s0 s) →
  continues (x ← lift c; m x) s0 s.
Proof.
  intros [[x ->]|[e ->]] Hev Hm; apply wp_bind, wp_lift; [by apply Hm|done].
Qed.

Lemma continues_next_sequence tx {A} (m : Z → M A) s0 s :
  evolves self used s0 s → (∀ n, next_sequence s tx n → continues (m n) s0 s) →
  continues (n ← next_receipt_event_sequence_unlocked self tx; m n) s0 s.
Proof. intros Hev Hm. by apply wp_bind, wp_next_receipt_event_sequence; [|intros ? ?]. Qed.

Lemma continues_last_blocker {A} (m : option BlockerRecord → M A) s0 s :
  evolves self used s0 s → (∀ o, last_blocker s o → continues (m o) s0 s) →
  continues (o ← last_blocker_record self; m o) s0 s.
Proof. intros Hev Hm. by apply wp_bind, wp_last_blocker_record. Qed.

Lemma continues_load expected {A} (m : ContinuationDispatchRecord → M A) s0 s :
  evolves self used s0 s → (∀ r, loads self s expected r → continues (m r) s0 s) →
  continues (r ← load_continuation self expected; m r) s0 s.
Proof. intros Hev Hm. by apply wp_bind, wp_load_continuation; [|intros ? ?]. Qed.

(** Programs that agree on every machine. *)
Lemma continues_ext {A} (m m' : M A) s0 s :
  (∀ w, m w = m' w) → continues m' s0 s → continues m s0 s.
Proof. intros Heq Hm w Hw Hc. rewrite Heq. by apply Hm. Qed.

Lemma continues_assoc {A B C} (m : M A) (f : A → M B) (g : B → M C) s0 s :
  continues (m ≫= λ a, f a ≫= g) s0 s → continues ((m ≫= f) ≫= g) s0 s.
Proof.
  apply continues_ext. intros w. unfold mbind, M_bind. by destruct (m w) as [[]].
Qed.

Lemma continues_ret_bind {A B} (a : A) (k : A → M B) s0 s :
  continues (k a) s0 s → continues (mret a ≫= k) s0 s.
Proof. by apply continues_ext. Qed.

Lemma continues_fail_bind {A B} e (k : A → M B) s0 s :
  evolves self used s0 s → continues (fail e ≫= k) s0 s.
Proof. intros Hev. by apply wp_bind, wp_fail. Qed.
End Refine.

(** Side conditions: JSON names, kinds, what has happened so far. *)
Ltac side := first [done | json | kind | auto with store_settles | by apply rtc_refl ].

(** One step of a closure; it leaves the facts the step established as
    hypotheses to introduce. *)
Ltac refine_step :=
  cbn beta zeta;
  lazymatch goal with
  | |- continues _ _ _ (mret _) _ _ => apply continues_ret; side
  | |- continues _ _ _ (fail _) _ _ => apply continues_fail; side
  | |- continues _ _ _ ((_ ≫= _) ≫= _) _ _ => apply continues_assoc
  | |- continues _ _ _ (mret _ ≫= _) _ _ => apply continues_ret_bind
  | |- continues _ _ _ (fail _ ≫= _) _ _ => apply continues_fail_bind; side
  | |- continues _ _ _ ((if ?b then _ else _) ≫= _) _ _ => destruct b eqn:?; guards
  | |- continues _ _ _ (for_return (_ :: _) _ _ ≫= _) _ _ => cbn [for_return]
  | |- continues _ _ _ (for_return [] _ _ ≫= _) _ _ => cbn [for_return]
  | |- continues _ _ _ (path_exists _ ≫= _) _ _ => apply continues_exists; [side|intros ?..]
  | |- continues ?self ?used ?c (read_record _ ?T _ ≫= _) _ _ =>
      apply (continues_read self used c T); [side|side|side|intros ? ?]
  | |- continues _ _ _ (read_stored_receipt _ _ ≫= _) _ _ =>
      apply continues_read_stored; [side|side|side|intros ? ? ?]
  | |- continues _ _ _ (guard_not _ _ ≫= _) _ _ => apply continues_guard; [side|intros ?; guards]
  | |- continues _ _ _ (lift _ ≫= _) _ _ => apply continues_check; [side|side|intros ? ?];
      repeat match goal with u : unit |- _ => destruct u end
  | |- continues _ _ _ (next_receipt_event_sequence_unlocked _ _ ≫= _) _ _ =>
      apply continues_next_sequence; [side|intros ? ?]
  | |- continues _ _ _ (last_blocker_record _ ≫= _) _ _ =>
      apply continues_last_blocker; [side|intros ? ?]
  | |- continues _ _ _ (load_continuation _ _ ≫= _) _ _ =>
      apply continues_load; [side|intros ? ?]
  | |- continues ?self ?used ?c (write_record (T:=?T) _ _ ≫= _) _ _ =>
      apply (continues_write self used c T); [side|side|side| |intros ?]
  | |- continues _ _ _ (remove_durable _ ≫= _) _ _ =>
      apply continues_remove; [side|side| |intros ?]
  | |- continues _ _ _ (if ?b then _ else _) _ _ => destruct b eqn:?; guards
  end.

Section Closures.
Context `{SerdeJson, Sha2, !StoreSerde, !StoreSerdeLaws, !Sha2Laws _, !JsonNumberLaws _}.
Context (self : SessionLifecycleStore) (used : string → string → Prop) (calm : bool) {l : bool}.
Implicit Types (s : store) (p : path) (k : string).
Abbreviation refines m s := (continues self used calm (l:=l) m s s).

(** ** Receipts *)

Lemma write_terminal_receipt_refines (receipt : TerminalReceipt) s :
  used (tr_transaction_id receipt) (tr_event_id receipt) →
  validate_receipt self receipt = Ok tt →
  refines (write_terminal_receipt_locked self receipt) s.
Proof.
  intros Hu Hv. unfold write_terminal_receipt_locked. repeat refine_step.
  by apply (ch_receipt self used s receipt).
Qed.

Lemma write_blocker_refines b transaction_id event_id {A} (m : M A) s0 s :
  evolves self used s0 s →
  (∀ s', evolves self used s0 s' → continues self used calm (l:=l) m s0 s') →
  continues self used calm (l:=l) (write_blocker_unlocked self b transaction_id event_id;; m) s0 s.
Proof.
  intros Hev Hm. unfold write_blocker_unlocked. repeat refine_step.
  all: try (apply Hm; assumption).
  all: assert (Hl : s !! last_blocker_path = FBlocker <$> o)
    by by destruct o; match goal with Ho : last_blocker _ _ |- _ => destruct Ho end.
  - subst. by eapply (ch_last_blocker self used s o).
  - by eapply (ch_blocker self used s o).
  - eapply (ch_last_blocker self used _ o); [done| |by rewrite lookup_insert_eq].
    by rewrite lookup_insert_ne.
Qed.

Lemma intake_refines (transaction_id event_id : string) s :
  used transaction_id event_id → refines (intake_locked self transaction_id event_id) s.
Proof.
  intros Hu. unfold intake_locked. repeat refine_step.
  all: try (apply write_blocker_refines; [side|intros; by refine_step]).
  1: by eapply ch_clean.
  all: repeat match goal with Hz : (_ =? _) = true |- _ => apply Z.eqb_eq in Hz; subst end.
  all: first [by eapply (ch_apply self used s)
             |eapply ch_clean; [by rewrite lookup_insert_eq|by rewrite lookup_insert_ne|
                                apply StoredReceipt_eqb_refl]].
Qed.

Lemma acknowledge_refines (transaction_id event_id delivery_id : string) s :
  refines (acknowledge_locked self transaction_id event_id delivery_id) s.
Proof.
  unfold acknowledge_locked. repeat refine_step. by eapply (ch_acknowledge self used s).
Qed.

Lemma admit_child_refines record s :
  validate_child_admission self record = Ok tt →
  refines (admit_child_locked self record) s.
Proof.
  intros Hv. unfold admit_child_locked. repeat refine_step. by apply ch_admit.
Qed.

(** ** Callbacks *)

Lemma publish_callback_refines record s :
  callback_backed self s record → callback_writer_binding record = Ok tt →
  refines (publish_callback_locked self record) s.
Proof.
  intros Hb Hw. unfold publish_callback_locked, callback_stages. repeat refine_step.
  by apply ch_publish.
Qed.

Lemma mark_callback_intaken_refines (transaction_id event_id sha : string) s :
  refines (mark_callback_intaken_locked self transaction_id event_id sha) s.
Proof.
  unfold mark_callback_intaken_locked. repeat refine_step.
  - by apply ch_intake_callback.
  - eapply ch_clean_callback; [by rewrite lookup_insert_eq|by rewrite lookup_insert_ne].
Qed.

Lemma acknowledge_callback_refines (transaction_id event_id sha : string) effect s :
  is_unsettled effect = false →
  refines (acknowledge_callback_locked self transaction_id event_id sha effect) s.
Proof.
  intros Hu. unfold acknowledge_callback_locked. repeat refine_step; subst.
  by apply ch_acknowledge_callback.
Qed.

(** ** Continuations *)

Lemma match_record_key a b :
  continuation_bound_fields_match a b = true → record_key a = record_key b.
Proof.
  intros [Hb _]%bound_fields_match. unfold record_key. unfold cd_bound in Hb. congruence.
Qed.

(** The write of a closure that loaded [existing] for [expected]. *)
Lemma loads_advance s expected existing next :
  loads self s expected existing → advance existing next →
  change self used s (<[record_path expected := file_of next]> s).
Proof.
  intros (Hs & Hb & Hm) Hadv. pose proof (match_record_key _ _ Hm) as Hk.
  apply (ch_advance self used s (record_key expected) existing); done.
Qed.

Lemma prepare_refines record s :
  continuation_backed self s record →
  refines (prepare_callback_continuation_locked self record) s.
Proof.
  intros Hb. unfold prepare_callback_continuation_locked. repeat refine_step.
  by apply ch_prepare.
Qed.

Lemma begin_direct_delivery_refines expected sha s :
  refines (begin_direct_delivery_locked self expected sha) s.
Proof.
  unfold begin_direct_delivery_locked. refine_step. cbn zeta.
  destruct (cd_state _) eqn:Hstate; repeat refine_step.
  eapply loads_advance; [done|]. by apply adv_begin.
Qed.

Lemma settle_refines expected kind evidence s :
  dd_kind evidence = kind → refines (settle_direct_delivery_locked self expected kind evidence) s.
Proof.
  intros Hkind. unfold settle_direct_delivery_locked. repeat refine_step; subst.
  - eapply loads_advance; [done|]. by apply adv_settle.
  - eapply loads_advance; [done|]. by apply adv_reconcile.
Qed.

Lemma convergence_proof_bound a b proof :
  continuation_bound_fields_match a b = true →
  validate_convergence_proof b proof = validate_convergence_proof a proof.
Proof.
  intros [Hb _]%bound_fields_match. unfold cd_bound in Hb. unfold validate_convergence_proof.
  injection Hb as ????????????????. by repeat match goal with Hf : _ a = _ b |- _ => rewrite Hf end.
Qed.

Lemma bind_refines expected proof s :
  validate_convergence_proof expected proof = Ok tt →
  refines (bind_convergence_proof_locked self expected proof) s.
Proof.
  intros Hv. unfold bind_convergence_proof_locked. refine_step. cbn zeta.
  destruct (cd_convergence_proof _) eqn:Hp; repeat refine_step.
  eapply loads_advance; [done|]. apply adv_bind; [done|].
  match goal with Hl : loads _ _ _ _ |- _ => destruct Hl as (_ & _ & Hm) end.
  by rewrite <- (convergence_proof_bound _ _ _ Hm).
Qed.

(** The guard of a completion leaves it with its evidence. *)
Lemma valid_transition_advance r target :
  valid_transition (cd_state r) target = true →
  (target = Completed → completion_evidence r) →
  advance r (set_state r target).
Proof.
  intros Hv Hev. destruct (cd_state r) eqn:Hs, target; try discriminate Hv.
  - by apply adv_complete; [|apply Hev].
  - by apply adv_acknowledge.
Qed.

Lemma completion_proof_check_evidence r expected :
  completion_proof_check r expected = Ok tt → completion_evidence r.
Proof. intros Hc. unfold completion_proof_check in Hc. outcome_inv. right; right. by eexists. Qed.

Lemma completion_guard_evidence r target :
  bool_decide (target = Completed) && bool_decide (is_Some (cd_commander_thread_id r))
    && negb (result_kind_is r Reconciled) = false →
  target = Completed → completion_evidence r.
Proof.
  intros Hg ->. unfold completion_evidence. destruct (result_kind_is r Reconciled); [by auto|].
  destruct (cd_commander_thread_id r); [done|by auto].
Qed.

Lemma transition_refines expected target s :
  refines (transition_locked self expected target) s.
Proof.
  unfold transition_locked. repeat refine_step.
  all: eapply loads_advance; [done|]; apply valid_transition_advance; [done|].
  - intros _. by eapply completion_proof_check_evidence.
  - by apply completion_guard_evidence.
Qed.

(** ** Failures, checkpoints and slots *)

Lemma record_failure_refines (failure : PendingIdentityFailure) s :
  refines (write_record ("identity_pending",
             receipt_key (pf_transaction_id failure) (pf_event_id failure)) failure) s.
Proof.
  apply (continues_write_last self used calm PendingIdentityFailure); [side..|]. apply ch_failure.
Qed.

Lemma publish_checkpoint_refines child stage n m delta s :
  refines (publish_checkpoint_locked self (checkpoint_evidence self child stage n m delta)) s.
Proof.
  unfold publish_checkpoint_locked. repeat refine_step. by apply ch_checkpoint.
Qed.

Lemma reconcile_refines (record : ReconcileRecord) s : refines (write_record last_reconcile_path record) s.
Proof.
  apply (continues_write_last self used calm ReconcileRecord); [side..|]. apply ch_reconcile.
Qed.

Lemma reclaim_refines (transaction_id event_id : string) evidence s :
  refines (reclaim_terminal_slot_locked self transaction_id event_id evidence) s.
Proof.
  unfold reclaim_terminal_slot_locked. refine_step. cbn zeta.
  destruct (reclaim_blocker evidence).
  - apply write_blocker_refines; [side|intros; by refine_step].
  - repeat refine_step. by eapply (ch_release self used s).
Qed.
End Closures.
