(* ===== verification/StoreSystem.v ===== *)
(** * Concurrent processes on one store

    A method runs in two parts: its check, and its closure under the lock.
    Processes interleave at this grain, because the lock serialises closures
    and a check writes nothing.  The system below keeps the requests whose
    check succeeded until their closure runs; faults and restarts are anywhere.
    What a check established stays true while other closures run. *)

From stdpp Require Import base list strings gmap sets sorting pretty relations.
From Stdlib Require Import ZArith Lia Ascii.
From S2P Require Import Prelude RustStd Externals TaskIdentity FileSystem StoreData StoreChecks Store StoreSpec StoreLogic StoreReads StoreRefine.
Open Scope Z_scope.

(** ** Records that never change *)

(** The directories whose files are written once. *)
Definition write_once_dirs : list string :=
  ["admissions/children"; "receipts/applied"; "receipts/acknowledged"; "callbacks/intaken";
   "callbacks/acknowledged"; "checkpoints"; "slots/released"; "blockers"].

Section Stability.
Context `{SerdeJson, Sha2, !StoreSerde}.
Context (self : SessionLifecycleStore) (used : string → string → Prop).
Implicit Types (s : store) (p : path) (k : string) (r : StoreRecord).

Lemma lookup_insert_absent s p q x r :
  s !! p = None → s !! q = Some r → <[p := x]> s !! q = Some r.
Proof. intros Hp Hq. rewrite lookup_insert_ne; [done|]. intros <-. congruence. Qed.

Lemma lookup_insert_dir s p q x r :
  p.1 ≠ q.1 → s !! q = Some r → <[p := x]> s !! q = Some r.
Proof. intros Hp Hq. rewrite lookup_insert_ne; [done|]. by intros <-. Qed.

Lemma lookup_delete_dir s p q r :
  p.1 ≠ q.1 → s !! q = Some r → delete p s !! q = Some r.
Proof. intros Hp Hq. rewrite lookup_delete_ne; [done|]. by intros <-. Qed.

Ltac other_dir :=
  match goal with Hd : _ ∈ write_once_dirs |- ?d ≠ _ =>
    intros Heq; rewrite <- Heq in Hd;
    exact (bool_decide_unpack (¬ (d ∈ write_once_dirs)) I Hd)
  end.

Lemma change_write_once s s' p r :
  change self used s s' → p.1 ∈ write_once_dirs → s !! p = Some r → s' !! p = Some r.
Proof.
  intros Hch Hd Hp. destruct Hch;
    first [by apply lookup_insert_absent | apply lookup_insert_dir; [other_dir|done]
          | apply lookup_delete_dir; [other_dir|done]].
Qed.

Lemma evolves_write_once s s' p r :
  evolves self used s s' → p.1 ∈ write_once_dirs → s !! p = Some r → s' !! p = Some r.
Proof.
  intros Hev Hd. induction Hev as [|s s1 s2 Hch _ IH]; [done|].
  intros Hp. apply IH. by eapply change_write_once.
Qed.

(** A receipt stays what it is while it moves from pending to applied. *)
Lemma change_receipt_at s s' k st :
  change self used s s' → receipt_at s k st → receipt_at s' k st.
Proof.
  intros Hch [Ha|[Hn Hp]].
  { left. eapply change_write_once; [done| |done]. by apply (bool_decide_unpack _). }
  destruct Hch; try (right; split; by rewrite lookup_insert_ne).
  - right. split; [by rewrite lookup_insert_ne|]. by apply lookup_insert_absent.
  - destruct (decide (k = k0)) as [->|Hne]; [left|right].
    + subst k0. rewrite lookup_insert_eq. congruence.
    + split; rewrite lookup_insert_ne; congruence.
  - right. destruct (decide (k = k0)) as [->|Hne]; [congruence|].
    split; rewrite lookup_delete_ne; congruence.
  - right. split; by rewrite lookup_delete_ne.
Qed.

Lemma change_callback_backed s s' record :
  change self used s s' → callback_backed self s record → callback_backed self s' record.
Proof.
  intros Hch (Hf & st & Hat & Hrest). split; [done|]. exists st.
  split; [by eapply change_receipt_at|done].
Qed.

Lemma change_continuation_backed s s' record :
  change self used s s' → continuation_backed self s record → continuation_backed self s' record.
Proof.
  intros Hch (Hf & callback & Hc & Hb & Hbind). split; [done|]. exists callback.
  split_and!; [|by eapply change_callback_backed|done].
  eapply change_write_once; [done| |done]. by apply (bool_decide_unpack _).
Qed.

Lemma evolves_preserves (P : store → Prop) s s' :
  (∀ s s', change self used s s' → P s → P s') → evolves self used s s' → P s → P s'.
Proof. intros HP. induction 1; eauto. Qed.
End Stability.

(** ** Requests: the methods that write *)

Section System.
Context `{SerdeJson, Sha2, !StoreSerde}.

Inductive request :=
| ReqWriteReceipt (receipt : TerminalReceipt)
| ReqIntake (transaction_id event_id : string)
| ReqAcknowledge (transaction_id event_id delivery_id : string)
| ReqAdmit (record : ChildAdmissionRecord)
| ReqPublish (record : DurableCallbackRecord)
| ReqMarkIntaken (transaction_id event_id payload_sha256 : string)
| ReqAcknowledgeCallback (transaction_id event_id payload_sha256 : string)
    (effect : CallbackEffectIdentity)
| ReqPrepare (record : ContinuationDispatchRecord)
| ReqBegin (expected : ContinuationDispatchRecord) (message : string)
| ReqSettle (expected : ContinuationDispatchRecord) (kind : DirectDeliveryResultKind)
    (result : Value)
| ReqBind (expected : ContinuationDispatchRecord) (proof : CommanderConvergenceProof)
| ReqTransition (expected : ContinuationDispatchRecord) (target : ContinuationDispatchState)
| ReqFailure (failure : PendingIdentityFailure)
| ReqCheckpoint (child stage : string) (next_sequence next_management_sequence : Z)
    (persisted_delta : string)
| ReqReclaim (transaction_id event_id : string) (evidence : LiveEffectEvidence)
| ReqReconcile (first stable : CheckpointIdentity).

Context (self : SessionLifecycleStore).

Definition void {A} (m : M A) : M unit := m;; mret tt.

(** The method a request stands for. *)
Definition operation (r : request) : M unit :=
  match r with
  | ReqWriteReceipt receipt => void (write_terminal_receipt self receipt)
  | ReqIntake tx ev => void (intake self tx ev)
  | ReqAcknowledge tx ev delivery => void (acknowledge self tx ev delivery)
  | ReqAdmit record => void (admit_child self record)
  | ReqPublish record => void (publish_callback self record)
  | ReqMarkIntaken tx ev sha => void (mark_callback_intaken self tx ev sha)
  | ReqAcknowledgeCallback tx ev sha effect => void (acknowledge_callback self tx ev sha effect)
  | ReqPrepare record => void (prepare_callback_continuation self record)
  | ReqBegin expected message =>
      void (begin_callback_continuation_direct_delivery self expected message)
  | ReqSettle expected kind result =>
      void (settle_callback_continuation_direct_delivery self expected kind result)
  | ReqBind expected proof => void (bind_callback_continuation_convergence_proof self expected proof)
  | ReqTransition expected target => void (transition_callback_continuation self expected target)
  | ReqFailure failure => void (record_identity_failure self failure)
  | ReqCheckpoint child stage n m delta =>
      void (publish_checkpoint_evidence self child stage n m delta)
  | ReqReclaim tx ev evidence => void (reclaim_terminal_slot self tx ev evidence)
  | ReqReconcile first stable => void (reconcile_checkpoint self first stable)
  end.

(** What the method does before it takes the lock. *)
Definition check (r : request) : M unit :=
  match r with
  | ReqWriteReceipt receipt => lift (validate_receipt self receipt)
  | ReqIntake tx ev =>
      lift (require_identifier "transaction_id" tx);; lift (require_identifier "event_id" ev)
  | ReqAcknowledge tx ev delivery => lift (require_identifier "delivery_id" delivery)
  | ReqAdmit record =>
      lift (validate_child_admission self record);;
      lift (require_direct_writer_binding (ca_commander_thread_id record)
              (ca_callback_delivery_route record)
              "CHILD_ADMISSION_DIRECT_WRITER_BINDING_REQUIRED" (ca_child_session_id record))
  | ReqPublish record =>
      validate_callback self record;; lift (callback_writer_binding record)
  | ReqMarkIntaken tx ev sha => lift (require_sha256 "callback_payload_sha256" sha)
  | ReqAcknowledgeCallback tx ev sha effect =>
      lift (require_sha256 "callback_payload_sha256" sha);;
      guard_not (is_unsettled effect) (blocker "CALLBACK_UNSETTLED_EFFECT_ACK_BLOCKED" ev)
  | ReqPrepare record =>
      validate_continuation self record;; lift (continuation_writer_binding record)
  | ReqBegin expected _ | ReqSettle expected _ _ | ReqTransition expected _ =>
      validate_continuation self expected
  | ReqBind expected proof =>
      validate_continuation self expected;; lift (validate_convergence_proof expected proof)
  | ReqFailure failure =>
      guard_not (negb (bool_decide
                   (pf_commander_session_id failure = sl_commander_session_id self)))
        (blocker "COMMANDER_IDENTITY_MISMATCH" (pf_commander_session_id failure));;
      lift (require_identifier "transaction_id" (pf_transaction_id failure));;
      lift (require_identifier "event_id" (pf_event_id failure))
  | ReqCheckpoint child stage _ _ _ =>
      lift (require_identifier "child_session_id" child);;
      lift (require_identifier "checkpoint_stage" stage)
  | ReqReclaim _ _ _ | ReqReconcile _ _ => mret tt
  end.

(** What it does then; [reconcile_checkpoint] writes without the lock. *)
Definition closure (r : request) : M unit :=
  match r with
  | ReqWriteReceipt receipt => void (with_lock (write_terminal_receipt_locked self receipt))
  | ReqIntake tx ev => void (with_lock (intake_locked self tx ev))
  | ReqAcknowledge tx ev delivery => void (with_lock (acknowledge_locked self tx ev delivery))
  | ReqAdmit record => void (with_lock (admit_child_locked self record))
  | ReqPublish record => void (with_lock (publish_callback_locked self record))
  | ReqMarkIntaken tx ev sha => void (with_lock (mark_callback_intaken_locked self tx ev sha))
  | ReqAcknowledgeCallback tx ev sha effect =>
      void (with_lock (acknowledge_callback_locked self tx ev sha effect))
  | ReqPrepare record => void (with_lock (prepare_callback_continuation_locked self record))
  | ReqBegin expected message =>
      void (with_lock (begin_direct_delivery_locked self expected (sha256_hex message)))
  | ReqSettle expected kind result =>
      void (with_lock (settle_direct_delivery_locked self expected kind
        {| dd_kind := kind; dd_evidence_sha256 := canonical_value_sha256 result |}))
  | ReqBind expected proof => void (with_lock (bind_convergence_proof_locked self expected proof))
  | ReqTransition expected target => void (with_lock (transition_locked self expected target))
  | ReqFailure failure =>
      void (with_lock (write_record ("identity_pending",
        receipt_key (pf_transaction_id failure) (pf_event_id failure)) failure))
  | ReqCheckpoint child stage n m delta =>
      void (with_lock (publish_checkpoint_locked self
                         (checkpoint_evidence self child stage n m delta)))
  | ReqReclaim tx ev evidence => void (with_lock (reclaim_terminal_slot_locked self tx ev evidence))
  | ReqReconcile first stable =>
      let result := validate_checkpoint_pair self first stable true in
      void (write_record last_reconcile_path (reconcile_record self stable result);; lift result)
  end.

(** Each method is its check followed by its closure. *)
Lemma operation_split r w : operation r w = (check r;; closure r) w.
Proof.
  destruct r; unfold operation, check, closure, void, write_terminal_receipt, intake,
    acknowledge, admit_child, publish_callback, mark_callback_intaken, acknowledge_callback,
    prepare_callback_continuation, begin_callback_continuation_direct_delivery,
    settle_callback_continuation_direct_delivery, bind_callback_continuation_convergence_proof,
    transition_callback_continuation, record_identity_failure, publish_checkpoint_evidence,
    reclaim_terminal_slot, reconcile_checkpoint;
    unfold mbind, M_bind, mret, M_ret; try done;
    repeat (first [done | split_match; simplify_eq/=]).
Qed.

(** What a successful check means. *)
Definition admissible (s : store) (r : request) : Prop :=
  match r with
  | ReqWriteReceipt receipt => validate_receipt self receipt = Ok tt
  | ReqAdmit record => validate_child_admission self record = Ok tt
  | ReqPublish record => callback_backed self s record ∧ callback_writer_binding record = Ok tt
  | ReqAcknowledgeCallback _ _ _ effect => is_unsettled effect = false
  | ReqPrepare record | ReqBegin record _ | ReqSettle record _ _ | ReqTransition record _ =>
      continuation_backed self s record
  | ReqBind record proof =>
      continuation_backed self s record ∧ validate_convergence_proof record proof = Ok tt
  | _ => True
  end.

(** The identities a request names. *)
Definition uses (used : string → string → Prop) (r : request) : Prop :=
  match r with
  | ReqWriteReceipt receipt => used (tr_transaction_id receipt) (tr_event_id receipt)
  | ReqIntake tx ev => used tx ev
  | _ => True
  end.

Lemma change_admissible used s s' r : change self used s s' → admissible s r → admissible s' r.
Proof.
  intros Hch. destruct r; simpl; try done;
    try (intros [? ?]; split; [|done]); eauto using change_callback_backed, change_continuation_backed.
Qed.
End System.

(** ** Checks and closures on abstract stores *)

Section Runs.
Context `{SerdeJson, Sha2, !StoreSerde, !StoreSerdeLaws, !Sha2Laws _, !JsonNumberLaws _}.
Context (self : SessionLifecycleStore) (used : string → string → Prop) (calm : bool).
Implicit Types (s : store) (E : LifecycleBlocker → store → Prop).

(** A closure that only reads. *)
Lemma wp_with_lock_read {A} (m : M A) s (Q : A → store → Prop) E :
  wp calm true m s (λ a s', s' = s ∧ Q a s) (λ e s', s' = s ∧ E e s) →
  may_fail calm (λ e, E e s) →
  wp calm false (with_lock m) s Q E.
Proof.
  intros Hm HE.
  eapply wp_mono; [apply (wp_with_lock calm m s (λ a s', s' = s ∧ Q a s) (λ e s', s' = s ∧ E e s))|..].
  - done.
  - intros Hc e. split; [done|by apply HE].
  - intros Hc e a s' [-> _]. split; [done|by apply HE].
  - intros Hc e e' s' [-> _]. split; [done|by apply HE].
  - by intros a s' [-> ?].
  - by intros e s' [-> ?].
Qed.

Lemma callback_fields_identifiers record :
  validate_callback_fields self record = Ok tt →
  require_identifier "transaction_id" (cb_transaction_id record) = Ok tt
  ∧ require_identifier "event_id" (cb_event_id record) = Ok tt.
Proof.
  intros Hf. unfold validate_callback_fields in Hf. cbn [require_all] in Hf. outcome_inv.
  by repeat match goal with u : unit |- _ => destruct u end.
Qed.

Lemma wp_validate_callback (record : DurableCallbackRecord) s (Q : unit → store → Prop) E :
  (callback_backed self s record → Q tt s) →
  fails_unless calm (callback_backed self s record) E s →
  wp calm false (validate_callback self record) s Q E.
Proof.
  intros HQ HE. apply wp_bind, wp_check; [auto with store_settles| |].
  2:{ intros e He. eapply fails_now; [done|]. intros [Hf _]. congruence. }
  intros Hf. destruct (callback_fields_identifiers _ Hf) as [Htx Hev].
  apply wp_bind. unfold terminal_receipt. rewrite Htx, Hev.
  apply wp_bind, wp_lift, wp_bind, wp_lift, wp_with_lock_read; [|by eapply fails_may_fail].
  apply wp_terminal_receipt_unlocked.
  - intros st Hat [Hok Hv]. split; [done|]. apply wp_guard_not; intros Hg; guards.
    + eapply fails_now; [done|]. intros (_ & st' & Hat' & _ & _ & Hm).
      rewrite (receipt_at_fun _ _ _ _ Hat' Hat) in Hm. congruence.
    + apply HQ. split; [done|]. by exists st.
  - intros e He. split; [done|]. apply HE. intros Hc (_ & st & Hat & Hok & Hv & _).
    apply He; [done|]. exists st. by split.
Qed.

Lemma wp_validate_continuation (record : ContinuationDispatchRecord) s (Q : unit → store → Prop) E :
  (continuation_backed self s record → Q tt s) →
  fails_unless calm (continuation_backed self s record) E s →
  wp calm false (validate_continuation self record) s Q E.
Proof.
  intros HQ HE. apply wp_bind, wp_check; [auto with store_settles| |].
  2:{ intros e He. eapply fails_now; [done|]. intros [Hf _]. congruence. }
  intros Hf. apply wp_bind, wp_path_exists; [json|].
  apply wp_bind, wp_guard_not; intros Hg; guards.
  { eapply fails_now; [done|]. intros (_ & callback & Hcb & _). apply Hg. by eexists. }
  apply wp_bind. wp_read; [json|kind| | |by eapply fails_may_fail].
  2:{ intros Hn. rewrite Hn in Hg. by destruct Hg. }
  intros callback Hcb. simpl in Hcb.
  assert (Hsame : ∀ c, s !! intaken_callback_path (record_key record) = Some (FCallback c) →
                       c = callback).
  { intros c Hc. unfold record_key in Hc. congruence. }
  apply wp_bind, wp_validate_callback.
  - intros Hback. apply wp_check; [auto with store_settles| |].
    + intros Hb. apply HQ. split; [done|]. by exists callback.
    + intros e Hb. eapply fails_now; [done|]. intros (_ & c & Hc & _ & Hb').
      apply Hsame in Hc as ->. congruence.
  - intros e He. apply HE. intros Hcalm (_ & c & Hc & Hback & _). apply He; [done|].
    by apply Hsame in Hc as ->.
Qed.

(** A check leaves the store alone, and its success means [admissible]. *)
Lemma check_spec (r : request) s :
  wp calm false (check self r) s (λ _ s', s' = s ∧ admissible self s r) (λ _ s', s' = s).
Proof.
  assert (Hlift : ∀ (c : LifecycleResult unit) (P : Prop), settles c → (c = Ok tt → P) →
            wp calm false (lift c) s (λ _ s', s' = s ∧ P) (λ _ s', s' = s)).
  { intros c P Hc HP. apply wp_check; auto. }
  assert (Hthen : ∀ (c : LifecycleResult unit) (m : M unit) Q, settles c →
            (c = Ok tt → wp calm false m s Q (λ _ s', s' = s)) →
            wp calm false (lift c;; m) s Q (λ _ s', s' = s)).
  { intros c m Q Hc HP. apply wp_bind, wp_check; auto. }
  destruct r; cbn [check admissible];
    repeat lazymatch goal with
    | |- wp _ _ (lift _ ≫= _) _ _ _ =>
        apply Hthen; [solve [auto with store_settles|apply settles_reject_if]|intros ?]
    | |- wp _ _ (guard_not _ _ ≫= _) _ _ _ => apply wp_bind, wp_guard_not; intros ?; [done|]
    | |- wp _ _ (lift _) _ _ _ =>
        apply Hlift; [solve [auto with store_settles|apply settles_reject_if]|done]
    | |- wp _ _ (guard_not _ _) _ _ _ => by apply wp_guard_not
    | |- wp _ _ (mret _) _ _ _ => by apply wp_ret
    end.
  - apply wp_bind, wp_validate_callback; [|by intros ? ?].
    intros Hb. apply Hlift; [auto with store_settles|done].
  - apply wp_bind, wp_validate_continuation; [|by intros ? ?].
    intros Hb. apply Hlift; [auto with store_settles|done].
  - apply wp_validate_continuation; [done|by intros ? ?].
  - apply wp_validate_continuation; [done|by intros ? ?].
  - apply wp_bind, wp_validate_continuation; [|by intros ? ?].
    intros Hb. apply Hlift; [auto with store_settles|done].
  - apply wp_validate_continuation; [done|by intros ? ?].
Qed.

Lemma wp_void {A} (m : M A) s Q E {l} :
  wp calm l m s (λ _, Q) E → wp calm l (void m) s (λ _, Q) E.
Proof.
  intros Hm. apply wp_bind. eapply wp_mono; [exact Hm| |done]. intros a s' HQ. by apply wp_ret.
Qed.

(** A closure moves the store by changes. *)
Lemma closure_spec (r : request) s :
  uses used r → admissible self s r →
  wp calm false (closure self r) s (λ _, evolves self used s) (λ _, evolves self used s).
Proof.
  assert (Hlock : ∀ A (m : M A), continues self used calm (l:=true) m s s →
            wp calm false (void (with_lock m)) s (λ _, evolves self used s) (λ _, evolves self used s)).
  { intros A m Hm. apply wp_void, wp_with_lock; [done|..]; by intros ? ?. }
  intros Hu Ha. destruct r; cbn [closure admissible uses] in *; try (apply Hlock).
  - by apply write_terminal_receipt_refines.
  - by apply intake_refines.
  - apply acknowledge_refines.
  - by apply admit_child_refines.
  - destruct Ha. by apply publish_callback_refines.
  - apply mark_callback_intaken_refines.
  - by apply acknowledge_callback_refines.
  - by apply prepare_refines.
  - apply begin_direct_delivery_refines.
  - by apply settle_refines.
  - destruct Ha. by apply bind_refines.
  - apply transition_refines.
  - apply record_failure_refines.
  - apply publish_checkpoint_refines.
  - apply reclaim_refines.
  - apply wp_void, wp_bind. eapply wp_mono; [apply (reconcile_refines self used)| |done].
    intros ? s' Hev. apply wp_lift.
    by destruct (settles_validate_checkpoint_pair self first stable true) as [[? ->]|[? ->]].
Qed.

(** A whole method, run by one process alone. *)
Lemma operation_spec (r : request) s :
  uses used r →
  wp calm false (operation self r) s (λ _, evolves self used s) (λ _, evolves self used s).
Proof.
  intros Hu w Hw Hc. rewrite operation_split. revert w Hw Hc.
  apply wp_bind. eapply wp_mono; [apply check_spec| |by intros _ s' ->].
  intros _ s' [-> Ha]. by apply closure_spec.
Qed.
End Runs.

(** ** Interleavings *)

Section Interleaving.
Context `{SerdeJson, Sha2, !StoreSerde}.
Context (self : SessionLifecycleStore) (used : string → string → Prop).

(** The machine, and the requests whose check succeeded and whose closure has
    not run. *)
Record System := { sys_world : World; sys_waiting : list request }.

(** A process runs a check or a closure against any faults; a process may also
    start, with its own number and counter of temporary files. *)
Inductive sys_step : System → System → Prop :=
| step_checked w waiting r fs w' :
    uses used r → check self r (w.{w_faults := fs}) = (Ok tt, w') →
    sys_step {| sys_world := w; sys_waiting := waiting |}
             {| sys_world := w'; sys_waiting := r :: waiting |}
| step_rejected w waiting r fs e w' :
    check self r (w.{w_faults := fs}) = (Err e, w') →
    sys_step {| sys_world := w; sys_waiting := waiting |}
             {| sys_world := w'; sys_waiting := waiting |}
| step_closure w before r after fs result w' :
    closure self r (w.{w_faults := fs}) = (result, w') →
    sys_step {| sys_world := w; sys_waiting := before ++ r :: after |}
             {| sys_world := w'; sys_waiting := before ++ after |}
| step_lost w before r after :
    sys_step {| sys_world := w; sys_waiting := before ++ r :: after |}
             {| sys_world := w; sys_waiting := before ++ after |}
| step_start w waiting pid n :
    sys_step {| sys_world := w; sys_waiting := waiting |}
             {| sys_world := w.{w_pid := pid}.{w_next_temp := n}; sys_waiting := waiting |}.

Definition reachable (w0 : World) (sys : System) : Prop :=
  rtc sys_step {| sys_world := w0; sys_waiting := [] |} sys.

(** The machine represents a store the abstract system can reach, and every
    waiting request is still admissible there. *)
Definition simulated (s0 : store) (sys : System) : Prop :=
  ∃ s, rep false (sys_world sys) s ∧ evolves self used s0 s
       ∧ Forall (λ r, uses used r ∧ admissible self s r) (sys_waiting sys).
End Interleaving.

Section Simulation.
Context `{SerdeJson, Sha2, !StoreSerde, !StoreSerdeLaws, !Sha2Laws _, !JsonNumberLaws _}.
Context (self : SessionLifecycleStore) (used : string → string → Prop).

Lemma rep_process w s pid n : rep false w s → rep false (w.{w_pid := pid}.{w_next_temp := n}) s.
Proof. by intros []; split. Qed.

Lemma evolves_admissible s s' rs :
  evolves self used s s' →
  Forall (λ r, uses used r ∧ admissible self s r) rs →
  Forall (λ r, uses used r ∧ admissible self s' r) rs.
Proof.
  intros Hev.
  apply (evolves_preserves self used (λ s, Forall (λ r, uses used r ∧ admissible self s r) rs));
    [|done].
  intros s1 s2 Hch Hrs. eapply Forall_impl; [exact Hrs|]. intros r [Hu Ha].
  split; [done|by eapply change_admissible].
Qed.

Lemma sys_step_simulated s0 sys sys' :
  sys_step self used sys sys' → simulated self used s0 sys → simulated self used s0 sys'.
Proof.
  intros Hstep (s & Hrep & Hev & Hwait).
  assert (Hcalm : ∀ w, false = true → calm_world w) by done.
  destruct Hstep as [w waiting r fs w' Hu Hrun|w waiting r fs e w' Hrun
                    |w before r after fs result w' Hrun|w before r after|w waiting pid n];
    simpl in *.
  - pose proof (check_spec self false r s _ (rep_faults _ _ fs Hrep) (Hcalm _)) as Hspec.
    rewrite Hrun in Hspec. destruct Hspec as (s' & Hw' & _ & -> & Ha).
    exists s. split_and!; [done..|by constructor].
  - pose proof (check_spec self false r s _ (rep_faults _ _ fs Hrep) (Hcalm _)) as Hspec.
    rewrite Hrun in Hspec. destruct Hspec as (s' & Hw' & _ & ->). by exists s.
  - apply Forall_app in Hwait as [Hb [[Hu Hr] Ha]%Forall_cons].
    pose proof (closure_spec self used false r s Hu Hr _ (rep_faults _ _ fs Hrep) (Hcalm _)) as Hspec.
    rewrite Hrun in Hspec.
    assert (Hs' : ∃ s', rep false w' s' ∧ evolves self used s s')
      by (destruct result; [..|done|done]; destruct Hspec as (s' & ? & _ & ?); by exists s').
    destruct Hs' as (s' & Hw' & Hev'). exists s'. split_and!; [done|by etrans|].
    apply Forall_app. split; by eapply evolves_admissible.
  - exists s. split_and!; [done..|]. apply Forall_app in Hwait as [Hb [_ Ha]%Forall_cons].
    apply Forall_app. by split.
  - exists s. split_and!; [by apply rep_process|done..].
Qed.

Lemma reachable_simulated w0 s0 sys :
  rep false w0 s0 → reachable self used w0 sys → simulated self used s0 sys.
Proof.
  intros Hrep Hreach.
  assert (Hstart : simulated self used s0 {| sys_world := w0; sys_waiting := [] |})
    by (exists s0; split_and!; [done..|constructor]).
  revert Hstart. induction Hreach as [|x y z Hstep _ IH]; [done|].
  intros Hsim. apply IH. by eapply sys_step_simulated.
Qed.
End Simulation.
