(* ===== verification/StoreInvariants.v ===== *)
(** * Invariants of the abstract lifecycle store

    What holds of every store that [change] reaches from the empty one.  The
    files of a key agree across stages, a callback is backed by its receipt and
    a continuation by its callback, a continuation has advanced from the record
    it was prepared with, and the blockers form a journal. *)

From stdpp Require Import base list strings gmap sets sorting pretty relations.
From Stdlib Require Import ZArith Lia Ascii.
From S2P Require Import Prelude RustStd Externals FileSystem StoreData StoreChecks Store StoreSpec StoreLogic StoreReads StoreRefine StoreSystem.
Open Scope Z_scope.

(** Case analysis on the lookups of an updated store. *)
Ltac lookups :=
  repeat match goal with
  | Hl : <[_ := _]> _ !! _ = Some _ |- _ => apply lookup_insert_Some in Hl as [[??]|[??]]
  | Hl : delete _ _ !! _ = Some _ |- _ => apply lookup_delete_Some in Hl as [??]
  | Hl : <[_ := _]> _ !! _ = None |- _ => apply lookup_insert_None in Hl as [??]
  end; simplify_eq/=.

Section Invariants.
Context `{SerdeJson, Sha2, !StoreSerde, !JsonNumberLaws _}.
Context (self : SessionLifecycleStore) (used : string → string → Prop).
Implicit Types (s : store) (k : string).

(** ** Receipts *)

(** A receipt is filed under its own key, is readable and belongs to this
    commander; a pending copy of an applied receipt is equal to it. *)
Definition receipts_inv s : Prop :=
  (∀ k st, s !! pending_receipt k = Some (FReceipt st) ∨ s !! applied_receipt k = Some (FReceipt st) →
     k = receipt_key (tr_transaction_id (sr_receipt st)) (tr_event_id (sr_receipt st))
     ∧ stored_ok st ∧ validate_receipt self (sr_receipt st) = Ok tt)
  ∧ ∀ k st st', s !! pending_receipt k = Some (FReceipt st) →
                s !! applied_receipt k = Some (FReceipt st') → st = st'.

Lemma change_receipts_inv s s' : change self used s s' → receipts_inv s → receipts_inv s'.
Proof.
  intros Hch [Hkey Hsame]. split.
  - intros k st Hst. destruct Hch; destruct Hst as [Hst|Hst]; lookups; eauto.
    split_and!; done.
  - intros k st st' Hp Ha. destruct Hch; lookups; eauto.
Qed.

(** ** Sequence numbers *)

(** Only intake touches the applied receipts. *)
Lemma change_applied s s' :
  change self used s s' →
  (∀ k, s' !! applied_receipt k = s !! applied_receipt k)
  ∨ ∃ transaction_id event_id st, let k := receipt_key transaction_id event_id in
      s' = <[applied_receipt k := FReceipt st]> s ∧ used transaction_id event_id
      ∧ s !! applied_receipt k = None ∧ s !! pending_receipt k = Some (FReceipt st)
      ∧ next_sequence s transaction_id (tr_event_seq (sr_receipt st)).
Proof.
  intros Hch. destruct Hch;
    first [by (left; intros ?; first [by rewrite lookup_insert_ne|by rewrite lookup_delete_ne])
          |right; eexists _, _, _; split_and!; done].
Qed.

Lemma next_sequence_ext s s' transaction_id n :
  (∀ k, s' !! applied_receipt k = s !! applied_receipt k) →
  next_sequence s transaction_id n → next_sequence s' transaction_id n.
Proof.
  intros Heq. unfold next_sequence, applied_sequence.
  assert (Hiff : ∀ k i, (∃ st, s' !! applied_receipt k = Some (FReceipt st)
      ∧ tr_transaction_id (sr_receipt st) = transaction_id ∧ tr_event_seq (sr_receipt st) = i)
    ↔ (∃ st, s !! applied_receipt k = Some (FReceipt st)
      ∧ tr_transaction_id (sr_receipt st) = transaction_id ∧ tr_event_seq (sr_receipt st) = i))
    by (intros k i; by setoid_rewrite Heq).
  intros (Hn & Hi & Hu). split_and!; [done| |].
  - intros i. setoid_rewrite Hiff. apply Hi.
  - intros k1 k2 i. setoid_rewrite Hiff. apply Hu.
Qed.

Lemma applied_sequence_insert s k st transaction_id k' i :
  s !! applied_receipt k = None →
  applied_sequence (<[applied_receipt k := FReceipt st]> s) transaction_id k' i ↔
  (k' = k ∧ tr_transaction_id (sr_receipt st) = transaction_id ∧ tr_event_seq (sr_receipt st) = i)
  ∨ applied_sequence s transaction_id k' i.
Proof.
  intros Hn. unfold applied_sequence. split.
  - intros (st' & Hl & Htx & Hi). lookups; [by left|right; by exists st'].
  - intros [(-> & Htx & Hi)|(st' & Hl & Htx & Hi)].
    + exists st. by rewrite lookup_insert_eq.
    + exists st'. rewrite lookup_insert_ne; [done|]. intros [= ->]. congruence.
Qed.

(** Applying the next receipt of a transaction keeps its numbers without
    gaps, and those of the others as they were. *)
Lemma next_sequence_apply s k st :
  let transaction_id := tr_transaction_id (sr_receipt st) in
  let n := tr_event_seq (sr_receipt st) in
  s !! applied_receipt k = None → next_sequence s transaction_id n →
  next_sequence (<[applied_receipt k := FReceipt st]> s) transaction_id (n + 1).
Proof.
  intros tx n Hn (Hnn & Hi & Hu). split_and!; [lia| |].
  - intros i. setoid_rewrite applied_sequence_insert; [|done]. split.
    + intros [k' [(-> & _ & <-)|Hs]]; [unfold n in *; lia|].
      assert (0 ≤ i < n) by (apply Hi; by exists k'). lia.
    + intros Hrange. destruct (decide (i = n)) as [->|]; [exists k; by left|].
      destruct (proj2 (Hi i)) as [k' Hk']; [lia|]. exists k'. by right.
  - intros k1 k2 i. rewrite !applied_sequence_insert by done.
    assert (Hfresh : ∀ k', ¬ applied_sequence s tx k' n)
      by (intros k' Hk'; assert (0 ≤ n < n) by (apply Hi; by exists k'); lia).
    intros [(-> & _ & <-)|Ha] [(-> & _ & Hb)|Hb]; [done| | |by eapply Hu].
    + by apply Hfresh in Hb.
    + subst i. by apply Hfresh in Ha.
Qed.

Lemma next_sequence_other s k st transaction_id n :
  s !! applied_receipt k = None → tr_transaction_id (sr_receipt st) ≠ transaction_id →
  next_sequence s transaction_id n →
  next_sequence (<[applied_receipt k := FReceipt st]> s) transaction_id n.
Proof.
  intros Hn Hne (Hnn & Hi & Hu).
  assert (Hiff : ∀ k' i, applied_sequence (<[applied_receipt k := FReceipt st]> s) transaction_id k' i
                         ↔ applied_sequence s transaction_id k' i)
    by (intros k' i; rewrite applied_sequence_insert by done; split; [by intros [(_ & ? & _)|?]|by right]).
  split_and!; [done| |].
  - intros i. setoid_rewrite Hiff. apply Hi.
  - intros k1 k2 i. rewrite !Hiff. apply Hu.
Qed.

(** The identities in use have different keys. *)
Definition keys_distinct : Prop :=
  ∀ a b c d, used a b → used c d → receipt_key a b = receipt_key c d → a = c ∧ b = d.

(** The pending receipts carry identities in use. *)
Definition pending_used s : Prop :=
  ∀ k st, s !! pending_receipt k = Some (FReceipt st) →
          used (tr_transaction_id (sr_receipt st)) (tr_event_id (sr_receipt st)).

Lemma change_pending_used s s' : change self used s s' → pending_used s → pending_used s'.
Proof. intros Hch HP k st Hst. destruct Hch; lookups; eauto. Qed.

Definition gapless s : Prop := ∀ transaction_id, ∃ n, next_sequence s transaction_id n.

Lemma change_gapless s s' :
  keys_distinct → change self used s s' → receipts_inv s → pending_used s → gapless s → gapless s'.
Proof.
  intros Hkeys Hch [Hinv _] Hpu Hg tx. destruct (Hg tx) as [n Hn].
  destruct (change_applied s s' Hch) as [Heq|(tx' & ev & st & -> & Hu & Hna & Hp & Hseq)].
  { exists n. by apply (next_sequence_ext s). }
  destruct (Hinv _ st (or_introl Hp)) as [Hk _].
  destruct (Hkeys _ _ _ _ Hu (Hpu _ _ Hp) Hk) as [-> _].
  destruct (decide (tr_transaction_id (sr_receipt st) = tx)) as [<-|Hne].
  - exists (tr_event_seq (sr_receipt st) + 1). by apply next_sequence_apply.
  - exists n. by apply next_sequence_other.
Qed.

(** ** Callbacks *)

(** A callback is filed under the key of its receipt, backed by it and bound
    to the direct writer; the copies of a key agree, and an acknowledged one was
    taken in and is settled. *)
Definition callbacks_inv s : Prop :=
  (∀ k c, s !! pending_callback k = Some (FCallback c) ∨ s !! intaken_callback_path k = Some (FCallback c) →
     k = receipt_key (cb_transaction_id c) (cb_event_id c)
     ∧ callback_backed self s c ∧ callback_writer_binding c = Ok tt)
  ∧ (∀ k c c', s !! pending_callback k = Some (FCallback c) →
               s !! intaken_callback_path k = Some (FCallback c') → c = c')
  ∧ ∀ k a, s !! acknowledged_callback k = Some (FCallbackAck a) →
      s !! intaken_callback_path k = Some (FCallback (cba_record a))
      ∧ is_unsettled (cb_effect_identity (cba_record a)) = false.

Lemma change_callbacks_inv s s' :
  change self used s s' → callbacks_inv s → callbacks_inv s'.
Proof.
  intros Hch (Hkey & Hsame & Hack). split_and!.
  - intros k c Hc.
    cut (k = receipt_key (cb_transaction_id c) (cb_event_id c)
         ∧ callback_backed self s c ∧ callback_writer_binding c = Ok tt).
    { intros (? & Hb & ?). split_and!; [done| |done]. by eapply change_callback_backed. }
    destruct Hch; destruct Hc as [Hc|Hc]; lookups; eauto.
  - intros k c c' Hp Hi. destruct Hch; lookups; eauto.
  - intros k a Ha.
    assert (Hold : s !! acknowledged_callback k = Some (FCallbackAck a) →
      s' !! intaken_callback_path k = Some (FCallback (cba_record a))
      ∧ is_unsettled (cb_effect_identity (cba_record a)) = false).
    { intros Hs. destruct (Hack _ _ Hs) as [Hi Hu]. split; [|done].
      eapply change_write_once; [done| |done]. by apply (bool_decide_unpack _). }
    destruct Hch; lookups; try (by apply Hold).
    by rewrite lookup_insert_ne.
Qed.

(** ** Continuations *)

(** The identity of a continuation and what its progress never undoes: the
    order of states, the message delivered, the proof bound and a reconciled
    result. *)
Definition state_rank (st : ContinuationDispatchState) : nat :=
  match st with
  | Prepared => 0 | DeliveryUnsettled => 1 | Dispatched => 2 | Completed => 3 | Acknowledged => 4
  end.
Definition progressed (r r' : ContinuationDispatchRecord) : Prop :=
  cd_bound r' = cd_bound r ∧ cd_parent_input r' = cd_parent_input r
  ∧ (state_rank (cd_state r) ≤ state_rank (cd_state r'))%nat
  ∧ (cd_state r ≠ Prepared → cd_delivered_message_sha256 r' = cd_delivered_message_sha256 r)
  ∧ (is_Some (cd_convergence_proof r) → cd_convergence_proof r' = cd_convergence_proof r)
  ∧ (cd_state r ≠ Prepared → result_kind_is r Reconciled = true →
     cd_direct_delivery_result r' = cd_direct_delivery_result r).

#[export] Instance progressed_preorder : PreOrder progressed.
Proof.
  split; [by intros r; split_and!|].
  intros r1 r2 r3 (b1 & i1 & s1 & m1 & p1 & d1) (b2 & i2 & s2 & m2 & p2 & d2).
  assert (Hnp : cd_state r1 ≠ Prepared → cd_state r2 ≠ Prepared)
    by (intros Hn Heq; rewrite Heq in s1; destruct (cd_state r1); simpl in s1; [done|lia..]).
  split_and!; [congruence|congruence|lia| | |].
  - intros Hn. rewrite m2, m1; auto.
  - intros Hs. rewrite p2, p1; rewrite ?p1; auto.
  - intros Hn Hr. rewrite d2, d1; auto. unfold result_kind_is in *. by rewrite d1.
Qed.

Lemma unsettled_no_result r :
  validate_direct_delivery_state r = Ok tt → cd_state r = DeliveryUnsettled →
  cd_direct_delivery_result r = None.
Proof.
  intros Hv Hs. unfold validate_direct_delivery_state in Hv. cbn zeta in Hv.
  rewrite Hs in Hv. outcome_inv. by guards.
Qed.

Lemma advance_progressed r r' :
  validate_direct_delivery_state r = Ok tt → advance r r' → progressed r r'.
Proof.
  intros Hv Hadv. destruct Hadv as [r sha Hs|r e Hs|r e Hs Hk He|r p Hp _|r Hs _|r Hs];
    (split_and!; [done|done|simpl; rewrite ?Hs; simpl; lia|simpl; try done..]).
  - intros _ Hk. unfold result_kind_is in Hk. by rewrite (unsettled_no_result r Hv Hs) in Hk.
  - intros _ Hr. unfold result_kind_is in Hk, Hr. destruct (cd_direct_delivery_result r); [|done].
    guards. congruence.
  - rewrite Hp. by intros [? ?].
Qed.

(** A backed continuation has passed the check of its delivery state. *)
Lemma fields_delivery_state r :
  validate_continuation_fields self r = Ok tt → validate_direct_delivery_state r = Ok tt.
Proof.
  intros Hf. unfold validate_continuation_fields in Hf. cbn zeta in Hf. outcome_inv.
  by repeat match goal with u : unit |- _ => destruct u end.
Qed.

Lemma backed_delivery_state s r :
  continuation_backed self s r → validate_direct_delivery_state r = Ok tt.
Proof. intros [Hf _]. by apply fields_delivery_state. Qed.

(** A change advances a filed continuation by at most one step. *)
Lemma change_advance s s' k r :
  change self used s s' → s !! continuation_file k = Some (FContinuation r) →
  ∃ r', s' !! continuation_file k = Some (FContinuation r')
    ∧ (r' = r ∨ continuation_backed self s r ∧ advance r r').
Proof.
  intros Hch Hr.
  destruct Hch; try (exists r; split; [|by left];
    first [by apply lookup_insert_absent|by apply lookup_insert_dir|by apply lookup_delete_dir]).
  destruct (decide (k = k0)) as [->|Hne].
  - rewrite lookup_insert_eq. eexists. split; [done|]. simplify_eq. by right.
  - exists r. rewrite lookup_insert_ne by congruence. auto.
Qed.
Lemma change_progressed s s' k r :
  change self used s s' → s !! continuation_file k = Some (FContinuation r) →
  ∃ r', s' !! continuation_file k = Some (FContinuation r') ∧ progressed r r'.
Proof.
  intros Hch Hr. destruct (change_advance s s' k r Hch Hr) as (r' & Hr' & Hstep). exists r'. split; [done|].
  destruct Hstep as [->|[Hb Ha]]; [done|].
  apply advance_progressed; [by eapply backed_delivery_state|done].
Qed.

(** Where a continuation comes from. *)
Definition continuations_inv s : Prop :=
  ∀ k r, s !! continuation_file k = Some (FContinuation r) →
    k = record_key r
    ∧ ∃ r0 callback, rtc advance r0 r
        ∧ validate_continuation_fields self r0 = Ok tt
        ∧ s !! intaken_callback_path k = Some (FCallback callback)
        ∧ validate_continuation_binding r0 callback = Ok tt.

Lemma advance_bound r r' : advance r r' → cd_bound r' = cd_bound r.
Proof. by destruct 1. Qed.

Lemma record_key_bound r r' : cd_bound r' = cd_bound r → record_key r' = record_key r.
Proof. unfold cd_bound, record_key. congruence. Qed.

Lemma change_continuations_inv s s' :
  change self used s s' → continuations_inv s → continuations_inv s'.
Proof.
  intros Hch Hinv k r Hr.
  assert (Hold : s !! continuation_file k = Some (FContinuation r) →
    k = record_key r ∧ ∃ r0 callback, rtc advance r0 r
      ∧ validate_continuation_fields self r0 = Ok tt
      ∧ s' !! intaken_callback_path k = Some (FCallback callback)
      ∧ validate_continuation_binding r0 callback = Ok tt).
  { intros Hs. destruct (Hinv _ _ Hs) as (Hk & r0 & c & Hadv & Hf & Hc & Hb).
    split; [done|]. exists r0, c. split_and!; [done..| |done].
    eapply change_write_once; [done| |done]. by apply (bool_decide_unpack _). }
  destruct Hch; lookups; try (by apply Hold).
  - split; [done|]. match goal with Hb : continuation_backed _ _ _ |- _ =>
      destruct Hb as (Hf & c & Hc & _ & Hbind) end.
    exists r, c. rewrite lookup_insert_ne by done. by split_and!.
  - match goal with Hs : s !! _ = Some (FContinuation existing), Ha : advance existing r |- _ =>
      destruct (Hinv _ _ Hs) as (_ & r0 & c & Hadv & Hf & Hc & Hb);
      rewrite (record_key_bound existing r (advance_bound _ _ Ha)) end.
    split; [done|]. exists r0, c. rewrite lookup_insert_ne by done.
    split_and!; [by eapply rtc_r|done..].
Qed.

Lemma advances_bound r r' : rtc advance r r' → cd_bound r' = cd_bound r.
Proof. induction 1 as [|r1 r2 r3 Ha _ IH]; [done|]. rewrite IH. by apply advance_bound. Qed.

(** A filed continuation names the thread it is for. *)
Lemma fields_thread r : validate_continuation_fields self r = Ok tt → is_Some (cd_commander_thread_id r).
Proof.
  intros Hf. unfold validate_continuation_fields in Hf. cbn zeta in Hf. outcome_inv.
  unfold require_thread in *. destruct (cd_commander_thread_id r); [by eexists|done].
Qed.

(** A proof that is kept was validated for the record. *)
Definition proof_valid (r : ContinuationDispatchRecord) : Prop :=
  ∀ proof, cd_convergence_proof r = Some proof → validate_convergence_proof r proof = Ok tt.
Lemma fields_proof r : validate_continuation_fields self r = Ok tt → proof_valid r.
Proof.
  intros Hf proof Hp. unfold validate_continuation_fields in Hf. cbn zeta in Hf. outcome_inv.
  rewrite Hp in *. by repeat match goal with u : unit |- _ => destruct u end.
Qed.
Lemma validate_proof_bound r r' proof :
  cd_bound r' = cd_bound r → validate_convergence_proof r' proof = validate_convergence_proof r proof.
Proof.
  intros Hb. unfold cd_bound in Hb. injection Hb as ? ? ? ? ? ? ? ? ? ? ? ? ? ? ? ?.
  unfold validate_convergence_proof. repeat match goal with Heq : _ r' = _ r |- _ => rewrite Heq; clear Heq end. done.
Qed.
Lemma advances_proof_valid r r' : rtc advance r r' → proof_valid r → proof_valid r'.
Proof.
  induction 1 as [|r1 r2 r3 Ha _ IH]; [done|]. intros Hv. apply IH. intros proof Hp.
  rewrite (validate_proof_bound r1) by (by apply advance_bound).
  destruct Ha; simpl in *; try (by apply Hv). by simplify_eq.
Qed.

(** A completed continuation has its evidence, and keeps it. *)
Definition evidenced (r : ContinuationDispatchRecord) : Prop :=
  cd_state r = Completed ∨ cd_state r = Acknowledged → completion_evidence r.

Lemma advance_evidenced r r' : advance r r' → evidenced r → evidenced r'.
Proof.
  intros Hadv He. destruct Hadv as [r sha Hs|r e Hs|r e Hs Hk He'|r p Hp _|r Hs Hev|r Hs];
    unfold evidenced; simpl.
  - by intros [|].
  - by intros [|].
  - rewrite Hs. by intros [|].
  - intros _. right; right. by eexists.
  - intros _. exact Hev.
  - intros _. apply (He (or_introl Hs)).
Qed.

Lemma advances_evidenced r r' : rtc advance r r' → evidenced r → evidenced r'.
Proof. induction 1; eauto using advance_evidenced. Qed.

(** ** The journal of blockers *)

(** The files of the blockers hold [older ++ newer], numbered from 0; the copy
    of the last one may be one behind. *)
Definition journal s (older newer : list BlockerRecord) : Prop :=
  (∀ name r, s !! ("blockers", name) = Some (FBlocker r) ↔
     ∃ i, (older ++ newer) !! i = Some r ∧ name = blocker_file (Z.of_nat i))
  ∧ (∀ i r, (older ++ newer) !! i = Some r → br_sequence r = Z.of_nat i)
  ∧ (length newer ≤ 1)%nat
  ∧ s !! last_blocker_path = FBlocker <$> last older.

Lemma journal_ext s s' older newer :
  (∀ name, s' !! ("blockers", name) = s !! ("blockers", name)) →
  s' !! last_blocker_path = s !! last_blocker_path →
  journal s older newer → journal s' older newer.
Proof.
  intros Hb Hl (Hf & Hrest). split; [|by rewrite Hl].
  intros name r. by rewrite Hb.
Qed.

Lemma journal_next s older newer o n :
  journal s older newer → s !! last_blocker_path = FBlocker <$> o →
  next_blocker_sequence o = Ok n → n = Z.of_nat (length older).
Proof.
  intros (_ & Hseq & _ & Hl) Ho Hn. rewrite Hl in Ho.
  assert (o = last older) as -> by by destruct o, (last older); simplify_eq/=.
  destruct older as [|r0 older _] using rev_ind; [by simplify_eq/=|].
  rewrite last_snoc in Hn. simpl in Hn. case_match eqn:Hle; simplify_eq/=.
  rewrite (Hseq (length older) r0), length_app by (rewrite <- app_assoc; by apply list_lookup_middle).
  simpl. lia.
Qed.

Lemma journal_grow s older newer r :
  journal s older newer → br_sequence r = Z.of_nat (length older) →
  s !! blocker_path (br_sequence r) = None →
  journal (<[blocker_path (br_sequence r) := FBlocker r]> s) older [r].
Proof.
  intros (Hf & Hseq & Hlen & Hl) Hr Hn.
  assert (newer = []) as ->.
  { destruct newer as [|x newer]; [done|].
    assert (Hx : s !! blocker_path (br_sequence r) = Some (FBlocker x)).
    { apply Hf. exists (length older). by rewrite list_lookup_middle, Hr. }
    congruence. }
  rewrite app_nil_r in Hf, Hseq. split_and!; [| |simpl; lia|by rewrite lookup_insert_ne].
  - intros name x. rewrite lookup_insert_Some, Hf, Hr. setoid_rewrite lookup_snoc_Some. split.
    + intros [[[= <-] [= ->]]|[Hne (i & Hi & ->)]]; [exists (length older); auto|].
      exists i. split; [left; split; [by eapply lookup_lt_Some|done]|done].
    + intros (i & [[_ Hi]|[-> <-]] & ->); [right|by left].
      split; [|by exists i]. intros Heq. rewrite Hr, Heq in Hn.
      assert (Hx : s !! blocker_path (Z.of_nat i) = Some (FBlocker x)) by (apply Hf; by exists i).
      congruence.
  - intros i x [[_ Hi]|[-> <-]]%lookup_snoc_Some; [by apply Hseq|done].
Qed.

Lemma journal_settle s older newer r :
  journal s older newer → br_sequence r = Z.of_nat (length older) →
  s !! blocker_path (br_sequence r) = Some (FBlocker r) →
  journal (<[last_blocker_path := FBlocker r]> s) (older ++ newer) [].
Proof.
  intros (Hf & Hseq & Hlen & Hl) Hr Hfile.
  apply Hf in Hfile as (i & Hi & _).
  assert (i = length older) as -> by (apply Hseq in Hi; lia).
  rewrite lookup_app_r, Nat.sub_diag in Hi by lia.
  destruct newer as [|x [|]]; simplify_eq/=; [|lia].
  split_and!; [|by rewrite app_nil_r|simpl; lia|by rewrite lookup_insert_eq, last_snoc].
  intros name x. rewrite lookup_insert_ne, app_nil_r by done. apply Hf.
Qed.

Lemma change_journal s s' :
  change self used s s' → (∃ older newer, journal s older newer) →
  ∃ older newer, journal s' older newer.
Proof.
  intros Hch (older & newer & Hj).
  destruct Hch as [| | | | | | | | | | | | | |s last n b tx ev Hlast Hn Hnone|s last n b tx ev Hn Hlast Hfile|];
    try (exists older, newer; eapply journal_ext; [..|exact Hj];
         intros; first [by rewrite lookup_insert_ne|by rewrite lookup_delete_ne]).
  - assert (Hl : s !! last_blocker_path = FBlocker <$> last)
      by (destruct last; [apply Hlast|by destruct Hlast]).
    pose proof (journal_next _ _ _ _ _ Hj Hl Hn) as Hlen.
    eexists older, _. by apply (journal_grow s older newer (blocker_record self n b tx ev)).
  - pose proof (journal_next _ _ _ _ _ Hj Hlast Hn) as Hlen.
    eexists _, _. by apply (journal_settle s older newer (blocker_record self n b tx ev)).
Qed.

(** ** The empty store *)

Lemma empty_receipts_inv : receipts_inv ∅.
Proof. by split; [intros k st [Hs|Hs]|intros k st st' Hs]. Qed.
Lemma empty_gapless : gapless ∅.
Proof.
  intros tx. exists 0. split_and!; [done| |].
  - intros i. split; [by intros (k & st & Hs & _)|lia].
  - by intros k1 k2 i (st & Hs & _).
Qed.
Lemma empty_callbacks_inv : callbacks_inv ∅.
Proof. by split_and!; [intros k c [Hs|Hs]|intros k c c' Hs|intros k a Hs]. Qed.
Lemma empty_continuations_inv : continuations_inv ∅.
Proof. by intros k r Hs. Qed.
Lemma empty_journal : journal ∅ [] [].
Proof.
  split_and!; [|done|simpl; lia|done]. intros name r. by split; [|intros (i & Hi & _)].
Qed.

(** What holds of every store reached from the empty one. *)
Record store_inv s : Prop := {
  inv_receipts : receipts_inv s;
  inv_callbacks : callbacks_inv s;
  inv_continuations : continuations_inv s;
  inv_journal : ∃ older newer, journal s older newer;
}.

Lemma evolves_store_inv s s' : evolves self used s s' → store_inv s → store_inv s'.
Proof.
  apply evolves_preserves. intros s1 s2 Hch [Hr Hc Hk Hj].
  split; eauto using change_receipts_inv, change_callbacks_inv, change_continuations_inv,
    change_journal.
Qed.

Lemma empty_store_inv : store_inv ∅.
Proof.
  split; [apply empty_receipts_inv|apply empty_callbacks_inv|apply empty_continuations_inv|].
  exists [], []. apply empty_journal.
Qed.

Lemma evolves_gapless s :
  keys_distinct → evolves self used ∅ s → receipts_inv s ∧ pending_used s ∧ gapless s.
Proof.
  intros Hk Hev.
  apply (evolves_preserves self used (λ s, receipts_inv s ∧ pending_used s ∧ gapless s) ∅ s);
    [|done|].
  - intros s1 s2 Hch (Hr & Hp & Hg).
    split_and!; eauto using change_receipts_inv, change_pending_used, change_gapless.
  - split_and!; [apply empty_receipts_inv|by intros k st Hs|apply empty_gapless].
Qed.

Lemma evolves_progressed s s' k r :
  evolves self used s s' → s !! continuation_file k = Some (FContinuation r) →
  ∃ r', s' !! continuation_file k = Some (FContinuation r') ∧ progressed r r'.
Proof.
  intros Hev. revert r. induction Hev as [s|s s1 s2 Hch _ IH]; intros r Hr; [by exists r|].
  destruct (change_progressed s s1 k r Hch Hr) as (r1 & Hr1 & Hp1).
  destruct (IH r1 Hr1) as (r2 & Hr2 & Hp2). exists r2. split; [done|by etrans].
Qed.
Lemma evolves_advances s s' k r :
  evolves self used s s' → s !! continuation_file k = Some (FContinuation r) →
  ∃ r', s' !! continuation_file k = Some (FContinuation r') ∧ rtc advance r r'.
Proof.
  intros Hev. revert r. induction Hev as [s|s s1 s2 Hch _ IH]; intros r Hr; [by exists r|].
  destruct (change_advance s s1 k r Hch Hr) as (r1 & Hr1 & Hstep).
  destruct (IH r1 Hr1) as (r2 & Hr2 & Hp2). exists r2. split; [done|].
  destruct Hstep as [->|[_ Ha]]; [done|by eapply rtc_l].
Qed.

(** What a completion rests on: the delivery was reconciled, or a convergence
    proof was filed with it that names its request, its callback and its target. *)
Definition completion_rests (r : ContinuationDispatchRecord) : Prop :=
  (∃ result, cd_direct_delivery_result r = Some result ∧ dd_kind result = Reconciled)
  ∨ ∃ proof, cd_convergence_proof r = Some proof ∧ validate_convergence_proof r proof = Ok tt.

(** A continuation that was filed before it was complete, and then completed. *)
Lemma completed_rests s k r r' :
  continuations_inv s → s !! continuation_file k = Some (FContinuation r') → rtc advance r r' →
  cd_state r ≠ Completed → cd_state r ≠ Acknowledged →
  cd_state r' = Completed ∨ cd_state r' = Acknowledged → completion_rests r'.
Proof.
  intros Hinv Hr Hadv Hc Ha Hdone. destruct (Hinv _ _ Hr) as (_ & r0 & callback & Hadv0 & Hf & _).
  pose proof (advances_bound _ _ Hadv0) as Hbound.
  assert (is_Some (cd_commander_thread_id r')) as [thread Hthread].
  { assert (cd_commander_thread_id r' = cd_commander_thread_id r0) as -> by (unfold cd_bound in Hbound; congruence).
    by apply fields_thread. }
  assert (completion_evidence r') as [Hn|[Hrec|[proof Hp]]].
  { apply (advances_evidenced _ _ Hadv); [|done]. by intros [|]. }
  - by rewrite Hthread in Hn.
  - left. unfold result_kind_is in Hrec. destruct (cd_direct_delivery_result r') as [result|]; [|done].
    exists result. split; [done|]. by apply bool_decide_eq_true in Hrec.
  - right. exists proof. split; [done|]. by apply (advances_proof_valid _ _ Hadv0); [apply fields_proof|].
Qed.
End Invariants.
