(* ===== verification/StoreFacts.v ===== *)
(** * What holds of every reachable lifecycle store

    The theorems about the processes of [StoreSystem], from the moment a store
    is opened on an empty directory: the machine always represents an abstract
    store that the moves of [StoreReads] reach, and the invariants of that
    store are facts about the files. *)

From stdpp Require Import base list strings gmap sets sorting pretty relations.
From Stdlib Require Import ZArith Lia Ascii.
From S2P Require Import Prelude RustStd Externals TaskIdentity FileSystem StoreData StoreChecks Store StoreSpec StoreLogic StoreReads StoreRefine StoreSystem StoreInvariants.
Open Scope Z_scope.

(** ** Opening *)

Section Opening.
Context `{SerdeJson, Sha2, !StoreSerde}.

(** A machine on which nobody holds the lock and no record exists. *)
Definition blank (w : World) : Prop :=
  w_locked w = false ∧ ∀ p, is_json p.2 = true → w_files w !! p = None.

(** [self] was opened on such a machine, which is now [w1]. *)
Definition opened (self : SessionLifecycleStore) (w1 : World) : Prop :=
  ∃ w0, blank w0
    ∧ open_ (sl_root self) (sl_commander_session_id self) (sl_config self) w0 = (Ok self, w1).

Lemma io_ok w u w' : io w = (Ok u, w') → ∃ fs, w' = w.{w_faults := fs}.
Proof.
  destruct w as [root lk l d f pid n fs]. unfold io. simpl.
  destruct fs as [|[?|] fs]; intros Heq; simplify_eq/=; by eexists.
Qed.

Lemma create_dir_all_ok d w u w' :
  create_dir_all d w = (Ok u, w') →
  w_root w' = RootDirectory ∧ w_locked w' = w_locked w ∧ w_files w' = w_files w
  ∧ w_lock_file w' = w_lock_file w ∧ w_dirs w' = {[d]} ∪ w_dirs w.
Proof.
  unfold create_dir_all, mbind, M_bind. destruct (io w) as [[[]| | |] w1] eqn:Hio; try done.
  apply io_ok in Hio as [fs ->]. unfold gets, modify. simpl. destruct (w_root w); by intros [= <- <-].
Qed.

Lemma ensure_layout_ok ds w u w' :
  for_each ds tt (λ _ d, create_dir_all d) w = (Ok u, w') →
  (ds ≠ [] → w_root w' = RootDirectory) ∧ w_locked w' = w_locked w ∧ w_files w' = w_files w
  ∧ ∀ d, d ∈ ds ∨ d ∈ w_dirs w → d ∈ w_dirs w'.
Proof.
  revert w. induction ds as [|d ds IH]; intros w; simpl.
  { intros [= <- <-]. split_and!; [done..|]. intros d [Hd|]; [by apply not_elem_of_nil in Hd|done]. }
  unfold mbind at 1, M_bind at 1.
  destruct (create_dir_all d w) as [[[]| | |] w1] eqn:Hc; try done.
  apply create_dir_all_ok in Hc as (Hr & Hl & Hf & _ & Hd). intros Hrest.
  destruct (IH _ Hrest) as (Hr' & Hl' & Hf' & Hd'). split_and!; [|congruence|congruence|].
  - intros _. destruct ds as [|d' ds]; [|by apply Hr'].
    simpl in Hrest. by injection Hrest as _ <-.
  - intros d' [[->|Hin]%elem_of_cons|Hin]; apply Hd'; rewrite Hd; set_solver.
Qed.

(** An opened store is empty. *)
Lemma opened_rep self w1 : opened self w1 → rep false w1 ∅.
Proof.
  intros (w0 & [Hl Hn] & Hopen). unfold open_ in Hopen.
  destruct (settles_require_identifier "commander_session_id" (sl_commander_session_id self))
    as [[u Hid]|[e Hid]]; [|by rewrite Hid in Hopen].
  rewrite Hid in Hopen. unfold mbind at 1, M_bind at 1 in Hopen. cbn [lift] in Hopen.
  unfold mbind at 1, M_bind at 1 in Hopen. unfold lift at 1 in Hopen.
  destruct (LifecycleConfig_validate (sl_config self)) as [c| | |]; try done.
  unfold mbind at 1, M_bind at 1 in Hopen.
  destruct (ensure_layout w0) as [[[]| | |] w2] eqn:Hlay; try done.
  apply ensure_layout_ok in Hlay as (Hroot & Hlock & Hfiles & Hdirs).
  specialize (Hroot ltac:(done)).
  unfold mbind at 1, M_bind at 1, ensure_lock_file, open_lock_file in Hopen.
  unfold mbind at 1, M_bind at 1 in Hopen.
  destruct (io w2) as [[[]| | |] w3] eqn:Hio; try done. apply io_ok in Hio as [fs ->].
  unfold mbind, M_bind, gets, modify, mret, M_ret in Hopen. simpl in Hopen. rewrite Hroot in Hopen.
  assert (Hrep : ∀ w, w_root w = w_root w2 → w_locked w = w_locked w2 → w_files w = w_files w2 →
                      w_dirs w = w_dirs w2 → w_lock_file w = true → rep false w ∅).
  { intros w Hr Hk Hf Hd Hlf. split; [congruence|done|congruence| |].
    - intros d Hin. rewrite Hd. apply Hdirs. by left.
    - split; [done|]. intros p Hp. rewrite lookup_empty, Hf, Hfiles. by apply Hn. }
  destruct (w_lock_file w2) eqn:Hlf; injection Hopen as _ <-; by apply Hrep.
Qed.
End Opening.

(** ** Runs of the system *)

Section Reached.
Context `{SerdeJson, Sha2, !StoreSerde, !StoreSerdeLaws, !Sha2Laws _, !JsonNumberLaws _}.
Context (self : SessionLifecycleStore) (used : string → string → Prop).
Implicit Types (s : store) (w : World) (sys : System).

(** A state of the processes on a store that was opened empty. *)
Definition reached sys : Prop := ∃ w1, opened self w1 ∧ reachable self used w1 sys.

Lemma reached_simulated sys : reached sys → simulated self used ∅ sys.
Proof.
  intros (w1 & Ho & Hr). eapply reachable_simulated; [|exact Hr].
  by eapply opened_rep.
Qed.

Lemma steps_simulated s0 sys sys' :
  rtc (sys_step self used) sys sys' → simulated self used s0 sys → simulated self used s0 sys'.
Proof. induction 1; eauto using sys_step_simulated. Qed.

(** Two states of one run, and the stores they represent. *)
Lemma reached_steps sys sys' :
  reached sys → rtc (sys_step self used) sys sys' →
  ∃ s s', rep false (sys_world sys) s ∧ rep false (sys_world sys') s'
          ∧ evolves self used ∅ s ∧ evolves self used s s'.
Proof.
  intros Hr Hsteps. destruct (reached_simulated _ Hr) as (s & Hrep & Hev & Hw).
  destruct (steps_simulated s _ _ Hsteps) as (s' & Hrep' & Hev' & _); [by exists s|].
  by exists s, s'.
Qed.

Lemma evolves_empty_inv s : evolves self used ∅ s → store_inv self s.
Proof. intros Hev. by eapply evolves_store_inv, empty_store_inv. Qed.

(** A method that returned [Ok] in a reached state, and what other processes
    find later. *)
Lemma reached_run {A} (m : M A) (Q : store → A → store → Prop) sys fs (a : A) w1 :
  (∀ s, wp false false m s (λ a s', Q s a s' ∧ evolves self used s s') (λ _ _, True)) →
  reached sys → m (sys_world sys).{w_faults := fs} = (Ok a, w1) →
  ∃ s s1, rep false (sys_world sys) s ∧ evolves self used ∅ s ∧ Q s a s1
    ∧ ∀ sys2, rtc (sys_step self used) {| sys_world := w1; sys_waiting := sys_waiting sys |} sys2 →
        ∃ s2, rep false (sys_world sys2) s2 ∧ evolves self used s1 s2 ∧ evolves self used ∅ s2.
Proof.
  intros Hm Hreach Hrun. destruct (reached_simulated _ Hreach) as (s & Hrep & Hev & Hwait).
  destruct (wp_run _ _ _ _ _ _ (Hm s) (rep_faults _ _ fs Hrep) ltac:(done))
    as (r & w' & s1 & Hrun' & Hrep1 & Hpost).
  rewrite Hrun in Hrun'. injection Hrun' as <- <-. destruct Hpost as [HQ Hev1].
  exists s, s1. split_and!; [done..|]. intros sys2 Hsteps.
  destruct (steps_simulated s1 _ _ Hsteps) as (s2 & Hrep2 & Hev2 & _).
  - exists s1. split_and!; [done..|]. by eapply evolves_admissible.
  - exists s2. split_and!; [done..|]. by do 2 (etrans; [done|]).
Qed.

(** C1: Refinement.  Processes run the sixteen writing methods of a store that
    was opened on an empty directory: any number of them, each method's check
    and closure at any time, against any I/O errors and crashes.  The files
    then represent a store that the abstract moves [change] reach from the
    empty one, and every method whose check has passed may still run there. *)
Theorem store_system_refines sys :
  reached sys →
  ∃ s, rep false (sys_world sys) s ∧ evolves self used ∅ s
       ∧ Forall (λ r, uses used r ∧ admissible self s r) (sys_waiting sys).
Proof. apply reached_simulated. Qed.

(** C40: Every JSON file of a reached store is the whole text of one record, of
    the type its directory is for. *)
Theorem files_well_typed sys p bytes :
  reached sys → is_json p.2 = true → w_files (sys_world sys) !! p = Some bytes →
  ∃ r, path_kind p = Some (record_kind r) ∧ bytes = file_text r.
Proof.
  intros (s & Hrep & _)%reached_simulated Hj Hp.
  destruct (rep_files _ _ _ Hrep) as [Hty Hf]. rewrite (Hf p Hj) in Hp.
  destruct (s !! p) as [r|] eqn:Hs; simplify_eq/=. exists r. by destruct (Hty p r Hs).
Qed.

(** An admission, an applied or acknowledged receipt, an intaken or
    acknowledged callback, a checkpoint, a released slot or a blocker keeps its
    file, byte for byte, whatever happens later. *)
Theorem records_written_once sys sys' p bytes :
  reached sys → rtc (sys_step self used) sys sys' →
  p.1 ∈ write_once_dirs → is_json p.2 = true →
  w_files (sys_world sys) !! p = Some bytes → w_files (sys_world sys') !! p = Some bytes.
Proof.
  intros Hr Hsteps Hd Hj Hp.
  destruct (reached_steps _ _ Hr Hsteps) as (s & s' & Hrep & Hrep' & _ & Hev).
  destruct (rep_files _ _ _ Hrep) as [_ Hf], (rep_files _ _ _ Hrep') as [_ Hf'].
  rewrite (Hf p Hj) in Hp. rewrite (Hf' p Hj).
  destruct (s !! p) as [r|] eqn:Hs; simplify_eq/=.
  by erewrite evolves_write_once.
Qed.

(** C19: If the file names of the identities in use differ, the applied receipts
    of each transaction carry the numbers 0, 1, ..., n-1, each once, in every
    reached store. *)
Theorem applied_sequences_gapless sys :
  keys_distinct used → reached sys →
  ∃ s, rep false (sys_world sys) s ∧ ∀ transaction_id, ∃ n, next_sequence s transaction_id n.
Proof.
  intros Hk (s & Hrep & Hev & _)%reached_simulated. exists s. split; [done|].
  by apply (evolves_gapless self used).
Qed.

(** In every reached store, a callback is filed under the key of its
    receipt, that receipt is filed and matches it, it names the direct writer,
    its pending and intaken copies are equal, and an acknowledged callback was
    taken in with that content and has a settled effect. *)
Theorem callbacks_stay_backed sys :
  reached sys →
  ∃ s, rep false (sys_world sys) s ∧ receipts_inv self s ∧ callbacks_inv self s.
Proof.
  intros (s & Hrep & Hev & _)%reached_simulated. exists s. split; [done|].
  split; by apply evolves_empty_inv.
Qed.

(** A continuation only advances: it keeps its identity and its input, its
    state never goes back, the message and the proof it was bound to stay, and
    so does a reconciled result. *)
Theorem continuation_only_advances sys sys' :
  reached sys → rtc (sys_step self used) sys sys' →
  ∃ s s', rep false (sys_world sys) s ∧ rep false (sys_world sys') s'
    ∧ ∀ k r, s !! continuation_file k = Some (FContinuation r) →
        ∃ r', s' !! continuation_file k = Some (FContinuation r') ∧ progressed r r'.
Proof.
  intros Hr Hsteps. destruct (reached_steps _ _ Hr Hsteps) as (s & s' & Hrep & Hrep' & _ & Hev).
  exists s, s'. split_and!; [done..|]. intros k r. by eapply evolves_progressed.
Qed.

(** C31: A continuation that is filed in a reached store, and is not complete yet,
    stays filed whatever processes, errors and crashes do, and only comes by
    single advances to what is filed later; when that one is completed or
    acknowledged, its delivery was reconciled, or it carries a convergence
    proof that was validated for its request, its callback and its target. *)
Theorem completion_has_evidence sys sys' :
  reached sys → rtc (sys_step self used) sys sys' →
  ∃ s s', rep false (sys_world sys) s ∧ rep false (sys_world sys') s'
    ∧ ∀ k r, s !! continuation_file k = Some (FContinuation r) →
        cd_state r ≠ Completed → cd_state r ≠ Acknowledged →
        ∃ r', s' !! continuation_file k = Some (FContinuation r') ∧ rtc advance r r'
          ∧ (cd_state r' = Completed ∨ cd_state r' = Acknowledged → completion_rests r').
Proof.
  intros Hr Hsteps. destruct (reached_steps _ _ Hr Hsteps) as (s & s' & Hrep & Hrep' & Hev & Hev').
  exists s, s'. split_and!; [done..|]. intros k r Hfile Hc Ha.
  destruct (evolves_advances _ _ _ _ _ _ Hev' Hfile) as (r' & Hfile' & Hadv). exists r'. split_and!; [done..|].
  apply (completed_rests self s' k r); try done. apply inv_continuations, evolves_empty_inv. by etrans.
Qed.

(** The blockers of a reached store are numbered 0, 1, 2, ... without a gap
    and in their own files; the copy of the last one is that one or the one
    before it. *)
Theorem blocker_journal_contiguous sys :
  reached sys →
  ∃ s, rep false (sys_world sys) s ∧ ∃ older newer, journal s older newer.
Proof.
  intros (s & Hrep & Hev & _)%reached_simulated. exists s. split; [done|].
  by apply (inv_journal self), evolves_empty_inv.
Qed.

(** C39: Every writing method ends, with [Ok] or [Err], on any machine that
    represents a store and whatever I/O errors it meets; it gives the lock
    back, never waits for a lock it holds itself, and leaves a machine that
    represents a store. *)
Theorem operations_settle (r : request) w s :
  rep false w s → uses used r →
  ∃ result w', operation self r w = (result, w')
    ∧ (result = Ok tt ∨ ∃ e, result = Err e)
    ∧ w_locked w' = false ∧ ∃ s', rep false w' s' ∧ evolves self used s s'.
Proof.
  intros Hrep Hu. pose proof (operation_spec self used false r s Hu w Hrep ltac:(done)) as Hspec.
  destruct (operation self r w) as [result w']. exists result, w'. split; [done|].
  destruct result as [[]|e| |]; [| |done..]; destruct Hspec as (s' & Hrep' & _ & Hev);
    (split; [eauto|split; [by apply Hrep'|by exists s']]).
Qed.
End Reached.
