(* ===== verification/StoreIntake.v ===== *)
(** * Intake of receipts, and the journal of blockers

    What [intake] answers and leaves behind on every branch, what it leaves
    when it is interrupted, and how a blocker is recorded. *)

From stdpp Require Import base list strings gmap sets sorting pretty relations.
From Stdlib Require Import ZArith Lia Ascii.
From S2P Require Import Prelude RustStd Externals TaskIdentity FileSystem StoreData StoreChecks Store StoreSpec StoreLogic StoreReads StoreRefine StoreSystem StoreInvariants.
Open Scope Z_scope.

Section Intake.
Context `{SerdeJson, Sha2, !StoreSerde, !StoreSerdeLaws, !Sha2Laws _, !JsonNumberLaws _}.
Context (self : SessionLifecycleStore).
Implicit Types (s : store) (w : World) (k : string) (older newer : list BlockerRecord)
  (b : LifecycleBlocker) (transaction_id event_id : option string) (E : LifecycleBlocker → store → Prop).

(** ** Recording a blocker *)

(** The record an observation adds to a journal, if any: none when it repeats
    the last one, an error when another record has its number. *)
Definition journal_entry (older newer : list BlockerRecord) (b : LifecycleBlocker)
    (transaction_id event_id : option string) : LifecycleResult (option BlockerRecord) :=
  if match last older with
     | Some r => same_observation self r b transaction_id event_id
     | None => false
     end
  then Ok None else
  sequence ← next_blocker_sequence (last older);
  let record := blocker_record self sequence b transaction_id event_id in
  match newer with
  | existing :: _ =>
      if bool_decide (existing = record) then Ok (Some record)
      else Err (blocker "BLOCKER_SEQUENCE_CONFLICT"
                  (display self ("blockers", blocker_file sequence)))
  | [] => Ok (Some record)
  end.

Definition journal_store s (entry : option BlockerRecord) : store :=
  match entry with
  | Some r => <[last_blocker_path := FBlocker r]> (<[blocker_path (br_sequence r) := FBlocker r]> s)
  | None => s
  end.

Lemma journal_file s older newer i r :
  journal s older newer → (older ++ newer) !! i = Some r →
  s !! blocker_path (Z.of_nat i) = Some (FBlocker r).
Proof. intros (Hf & _) Hi. apply Hf. by exists i. Qed.

(** There is no blocker file beyond the journal. *)
Lemma journal_end s older newer i :
  well_typed s → journal s older newer → (length (older ++ newer) ≤ i)%nat →
  Z.of_nat i ≤ u64_max → s !! blocker_path (Z.of_nat i) = None.
Proof.
  intros Hty (Hf & _) Hi Hmax. destruct (s !! blocker_path (Z.of_nat i)) as [r|] eqn:Hs; [|done].
  destruct (Hty _ _ Hs) as [Hk _]. destruct r; try discriminate Hk.
  apply Hf in Hs as (j & Hj & Heq). apply lookup_lt_Some in Hj.
  apply blocker_file_inj in Heq; lia.
Qed.

(** The number after a journal with records. *)
Lemma journal_sequence s older newer (o : option BlockerRecord) (n : Z) :
  journal s older newer → o = last older → next_blocker_sequence o = Ok n →
  n = Z.of_nat (length older) ∧ (older ≠ [] → n ≤ u64_max).
Proof.
  intros Hj -> Hn. split.
  - eapply journal_next; [done| |done]. apply Hj.
  - intros _. unfold next_blocker_sequence in Hn. destruct (last older) as [r|].
    + case_match eqn:Hle; simplify_eq/=. lia.
    + by simplify_eq/=.
Qed.

Lemma wp_last_blocker_calm {l : bool} s older newer (r : BlockerRecord) (Q : option BlockerRecord → store → Prop) E :
  journal s older newer → last older = Some r → Q (Some r) s →
  wp true l (last_blocker_record self) s Q E.
Proof.
  intros Hj Hr HQ. pose proof Hj as (Hf & Hseq & _ & Hl). rewrite Hr in Hl. simpl in Hl.
  apply last_Some in Hr as [before ->].
  assert (Hi : ((before ++ [r]) ++ newer) !! length before = Some r)
    by (rewrite <- app_assoc; by apply list_lookup_middle).
  pose proof (journal_file _ _ _ _ _ Hj Hi) as Hfile.
  pose proof (Hseq _ _ Hi) as Hnum.
  apply wp_bind, wp_path_exists; [json|]. rewrite Hl, bool_decide_eq_true_2 by by eexists.
  apply wp_bind. wp_read; [json|kind| |by rewrite Hl|by intros ?].
  intros x Hx. rewrite Hl in Hx. injection Hx as <-.
  apply wp_bind, wp_catch_map. wp_read; [json|kind| |by rewrite Hnum, Hfile|by intros ?].
  intros x Hx. rewrite Hnum, Hfile in Hx. injection Hx as <-.
  apply wp_bind, wp_guard_not; intros Hg; guards; [done|]. by apply wp_ret.
Qed.

(** Recording a blocker after others computes [journal_entry]. *)
Lemma wp_write_blocker_calm {l : bool} b transaction_id event_id s older newer
    (Q : unit → store → Prop) E :
  journal s older newer → older ≠ [] →
  match journal_entry older newer b transaction_id event_id with
  | Ok entry => Q tt (journal_store s entry)
  | Err e => E e s
  | _ => False
  end →
  wp true l (write_blocker_unlocked self b transaction_id event_id) s Q E.
Proof.
  intros Hj Hne Hpost. unfold journal_entry in Hpost.
  destruct (last older) as [r0|] eqn:Hlast; [|by apply last_None in Hlast].
  apply wp_bind. eapply wp_last_blocker_calm; [done..|].
  destruct (same_observation self r0 b transaction_id event_id); [by apply wp_ret|].
  apply wp_bind. destruct (settles_next_blocker_sequence (Some r0)) as [[n Hn]|[e Hn]];
    rewrite Hn in Hpost; apply wp_lift; rewrite Hn; [|done].
  destruct (journal_sequence _ _ _ _ _ Hj (eq_sym Hlast) Hn) as [-> Hmax].
  specialize (Hmax Hne). unfold mbind, outcome_bind in Hpost. simpl in Hpost.
  apply wp_typed. intros Hty. apply wp_bind, wp_path_exists; [json|].
  set (n := Z.of_nat (length older)) in *.
  assert (Hwrite : ∀ s', Q tt (<[last_blocker_path
        := FBlocker (blocker_record self n b transaction_id event_id)]> s') →
      wp true l (write_record last_blocker_path (blocker_record self n b transaction_id event_id))
        s' Q E).
  { intros s' HQ. wp_write; [json|kind|done|by intros ?..]. }
  destruct newer as [|x newer].
  - assert (Hnone : s !! blocker_path n = None)
      by (apply (journal_end s older []); rewrite ?app_nil_r; done).
    rewrite Hnone, bool_decide_eq_false_2 by apply is_Some_None. apply wp_bind. wp_write; [json|kind| |by intros ?..]. by apply Hwrite.
  - assert (Hx : s !! blocker_path n = Some (FBlocker x))
      by (eapply journal_file; [done|by apply list_lookup_middle]).
    rewrite Hx, bool_decide_eq_true_2 by by eexists.
    apply wp_bind. apply wp_bind. wp_read; [json|kind| |by rewrite Hx|by intros ?].
    intros y Hy. rewrite Hx in Hy. injection Hy as <-.
    apply wp_guard_not; intros Hg; guards.
    + by rewrite bool_decide_eq_false_2 in Hpost.
    + subst x. rewrite bool_decide_eq_true_2 in Hpost by done. apply Hwrite.
      simpl in Hpost. by rewrite (insert_id s) in Hpost.
Qed.

(** Whatever happens, recording a blocker touches the journal only. *)
Definition same_records s s' : Prop :=
  ∀ p, p.1 ≠ "blockers" → p ≠ last_blocker_path → s' !! p = s !! p.

Lemma wp_write_blocker {calm l : bool} b transaction_id event_id s (Q : unit → store → Prop) E :
  (∀ s', same_records s s' → Q tt s') → (∀ e s', same_records s s' → E e s') →
  wp calm l (write_blocker_unlocked self b transaction_id event_id) s Q E.
Proof.
  intros HQ HE.
  assert (Hsame : same_records s s) by by intros p.
  apply wp_bind, wp_last_blocker_record; [|auto]. intros o _. case_match; [by apply wp_ret; auto|].
  apply wp_bind, wp_lift. destruct (settles_next_blocker_sequence o) as [[n ->]|[e ->]]; [|auto].
  assert (Hfile : same_records s
    (<[blocker_path n := FBlocker (blocker_record self n b transaction_id event_id)]> s))
    by (intros [d k] Hd _; rewrite lookup_insert_ne; [done|by intros [= <- _]]).
  assert (Hlast : ∀ s' x, same_records s s' → same_records s (<[last_blocker_path := x]> s'))
    by (intros s' x Hs' p Hd Hp; rewrite lookup_insert_ne; [by apply Hs'|done]).
  assert (Hwrite : ∀ s', same_records s s' →
      wp calm l (write_record last_blocker_path (blocker_record self n b transaction_id event_id))
        s' Q E).
  { intros s' Hs'. wp_write; [json|kind|auto|by intros ? ?; auto..]. }
  apply wp_bind, wp_path_exists; [json|]. case_bool_decide as Hp.
  - apply wp_bind, wp_bind. wp_read; [json|kind| |by auto|by intros ? ?; auto].
    intros x _. apply wp_guard_not; intros Hg; auto.
  - apply wp_bind. wp_write; [json|kind|auto|by intros ? ?; auto..].
Qed.

(** ** The branches of [intake_locked] *)

Lemma next_sequence_fun s (tx : string) m n :
  next_sequence s tx m → next_sequence s tx n → m = n.
Proof.
  intros (Hm & Him & _) (Hn & Hin & _).
  assert (∀ i, 0 ≤ i < m ↔ 0 ≤ i < n) as Hi by (intros i; by rewrite <- Him, Hin).
  pose proof (Hi m). pose proof (Hi n). lia.
Qed.

Section Branches.
Context {calm l : bool} (tx ev : string) (s : store).
Let k : string := receipt_key tx ev.
Context (Q : IntakeOutcome → store → Prop) (E : LifecycleBlocker → store → Prop).

(** The receipt was applied before; its pending copy goes. *)
Lemma wp_intake_applied (st : StoredReceipt) :
  s !! applied_receipt k = Some (FReceipt st) → stored_ok st →
  (∀ st', s !! pending_receipt k = Some (FReceipt st') → st' = st) →
  (∀ r, s !! pending_receipt k = Some r → ∃ st', r = FReceipt st') →
  Q (Duplicate (tr_event_seq (sr_receipt st))) (delete (pending_receipt k) s) →
  may_fail calm (λ e, E e s) → may_fail calm (λ e, E e (delete (pending_receipt k) s)) →
  wp calm l (intake_locked self tx ev) s Q E.
Proof.
  intros Ha Hok Hsame Hkind HQ HE HE'. unfold intake_locked. cbn zeta. fold k.
  assert (Hj : is_json k = true) by apply receipt_key_json. clearbody k.
  apply wp_bind, wp_path_exists; [json|]. rewrite Ha, bool_decide_eq_true_2 by by eexists.
  apply wp_bind, wp_read_stored_receipt; [json|kind| |].
  2:{ intros e He. destruct calm; [|by apply HE]. destruct (He eq_refl). by exists st. }
  intros st0 Hst0 _. rewrite Ha in Hst0. injection Hst0 as <-.
  apply wp_bind, wp_path_exists; [json|]. case_bool_decide as Hp.
  - destruct Hp as [r Hp]. destruct (Hkind _ Hp) as [st' ->]. pose proof (Hsame _ Hp) as ->.
    apply wp_bind, wp_bind, wp_read_stored_receipt; [json|kind| |].
    2:{ intros e He. destruct calm; [|by apply HE]. destruct (He eq_refl). by exists st. }
    intros st0 Hst0 _. rewrite Hp in Hst0. injection Hst0 as <-.
    apply wp_bind, wp_guard_not; intros Hg; guards.
    { by rewrite StoredReceipt_eqb_refl in Hg. }
    apply wp_remove_durable; [json| |done|done]. by apply wp_ret.
  - apply wp_bind, wp_ret, wp_ret. apply eq_None_not_Some in Hp. by rewrite delete_id in HQ.
Qed.

Lemma wp_intake_missing :
  s !! applied_receipt k = None → s !! pending_receipt k = None →
  E (blocker "PENDING_RECEIPT_NOT_FOUND" k) s →
  wp calm l (intake_locked self tx ev) s Q E.
Proof.
  intros Ha Hp HE. unfold intake_locked. cbn zeta. fold k.
  assert (Hj : is_json k = true) by apply receipt_key_json. clearbody k.
  apply wp_bind, wp_path_exists; [json|]. rewrite Ha, bool_decide_eq_false_2 by apply is_Some_None.
  apply wp_bind, wp_path_exists; [json|]. rewrite Hp, bool_decide_eq_false_2 by apply is_Some_None.
  by apply wp_bind, wp_guard_not.
Qed.

(** The receipt is pending: its number decides. *)
Context (st : StoredReceipt) (n : Z).
Hypothesis (Ha : s !! applied_receipt k = None)
  (Hp : s !! pending_receipt k = Some (FReceipt st)) (Hok : receipt_ok self st)
  (Hread : applied_readable s) (Hseq : next_sequence s tx n).

Lemma wp_intake_pending :
  (tr_event_seq (sr_receipt st) = n →
   wp calm l (write_record (applied_receipt k) st;; remove_durable (pending_receipt k);;
              mret (Applied n)) s Q E) →
  (tr_event_seq (sr_receipt st) ≠ n → ∀ b,
   blk_code b = (if n <? tr_event_seq (sr_receipt st) then "RECEIPT_EVENT_OUT_OF_ORDER"
                 else "RECEIPT_EVENT_SEQUENCE_CONFLICT") →
   wp calm l (write_blocker_unlocked self b (Some tx) (Some ev);; mret (Pending b)) s Q E) →
  may_fail calm (λ e, E e s) →
  wp calm l (intake_locked self tx ev) s Q E.
Proof.
  intros Heq Hne HE. unfold intake_locked. cbn zeta. fold k.
  assert (Hj : is_json k = true) by apply receipt_key_json. clearbody k.
  assert (Hcalm : ∀ e (P : Prop), P → (calm = true → ¬ P) → E e s).
  { intros e P HP Hn. destruct calm; [by destruct (Hn eq_refl)|by apply HE]. }
  apply wp_bind, wp_path_exists; [json|]. rewrite Ha, bool_decide_eq_false_2 by apply is_Some_None.
  apply wp_bind, wp_path_exists; [json|]. rewrite Hp, bool_decide_eq_true_2 by by eexists.
  apply wp_bind, wp_guard_not; [done|]. intros _.
  apply wp_bind, wp_read_stored_receipt; [json|kind| |].
  2:{ intros e He. eapply Hcalm; [|exact He]. exists st. by destruct Hok. }
  intros st0 Hst0 _. rewrite Hp in Hst0. injection Hst0 as <-.
  apply wp_bind, wp_lift. rewrite (proj2 Hok).
  apply wp_bind, wp_next_receipt_event_sequence.
  2:{ intros e He. eapply Hcalm; [|exact He]. eauto. }
  intros m Hm. rewrite (next_sequence_fun _ _ _ _ Hm Hseq).
  destruct (Z.eqb_spec (tr_event_seq (sr_receipt st)) n) as [Hn|Hn]; cbn [negb].
  - rewrite Hn. by apply Heq.
  - by apply Hne.
Qed.
End Branches.
End Intake.
