(* ===== verification/StoreReceiptFacts.v ===== *)
(** * Theorems on receipts and blockers

    The answers of [intake] on every branch, its recovery after an
    interruption, the durability of a written receipt, and the journal of
    blockers, with the interruption that stops it for good. *)

From stdpp Require Import base list strings gmap sets sorting pretty relations.
From Stdlib Require Import ZArith Lia Ascii.
From S2P Require Import Prelude RustStd Externals TaskIdentity FileSystem StoreData StoreChecks Store StoreSpec StoreLogic StoreReads StoreRefine StoreSystem StoreInvariants StoreFacts StoreIntake.
Open Scope Z_scope.

Section ReceiptFacts.
Context `{SerdeJson, Sha2, !StoreSerde, !StoreSerdeLaws, !Sha2Laws _, !JsonNumberLaws _}.
Context (self : SessionLifecycleStore) (used : string → string → Prop).
Implicit Types (s : store) (w : World) (sys : System) (transaction_id event_id : string).

(** ** Intake *)

(** The receipts of a store with the invariant, by kind. *)
Lemma receipt_lookup s (d k : string) (r : StoreRecord) :
  well_typed s → d = "receipts/pending" ∨ d = "receipts/applied" → s !! (d, k) = Some r →
  ∃ st, r = FReceipt st.
Proof.
  intros Hty Hd Hr. destruct (Hty _ _ Hr) as [Hk _].
  destruct Hd as [-> | ->], r; try discriminate Hk; by eexists.
Qed.

Lemma receipts_readable s : well_typed s → receipts_inv self s → applied_readable s.
Proof.
  intros Hty [Hinv _] k r Hr.
  destruct (receipt_lookup s _ k r Hty (or_intror eq_refl) Hr) as [st ->].
  exists st. split; [done|]. by destruct (Hinv k st (or_intror Hr)) as (_ & ? & _).
Qed.

(** What [intake] answers and leaves, in a store whose next number for the
    transaction is [n]. *)
Definition intake_answer s (k : string) (n : Z) (o : IntakeOutcome) s' : Prop :=
  match o with
  | Duplicate m => ∃ st, s !! applied_receipt k = Some (FReceipt st)
      ∧ m = tr_event_seq (sr_receipt st) ∧ s' = delete (pending_receipt k) s
  | Applied m => ∃ st, s !! applied_receipt k = None
      ∧ s !! pending_receipt k = Some (FReceipt st) ∧ tr_event_seq (sr_receipt st) = n ∧ m = n
      ∧ s' = delete (pending_receipt k) (<[applied_receipt k := FReceipt st]> s)
  | Pending b => ∃ st, s !! applied_receipt k = None
      ∧ s !! pending_receipt k = Some (FReceipt st) ∧ tr_event_seq (sr_receipt st) ≠ n
      ∧ blk_code b = (if n <? tr_event_seq (sr_receipt st) then "RECEIPT_EVENT_OUT_OF_ORDER"
                      else "RECEIPT_EVENT_SEQUENCE_CONFLICT")
      ∧ same_records s s'
  end.
Definition intake_refusal s (k : string) (n : Z) (e : LifecycleBlocker) s' : Prop :=
  s !! applied_receipt k = None ∧
  match s !! pending_receipt k with
  | None => e = blocker "PENDING_RECEIPT_NOT_FOUND" k ∧ s' = s
  | Some (FReceipt st) => tr_event_seq (sr_receipt st) ≠ n ∧ same_records s s'
  | _ => False
  end.

Lemma wp_intake_answers transaction_id event_id s (n : Z) :
  let k := receipt_key transaction_id event_id in
  receipts_inv self s → next_sequence s transaction_id n →
  wp true true (intake_locked self transaction_id event_id) s (intake_answer s k n)
    (intake_refusal s k n).
Proof.
  intros k Hinv Hseq. apply wp_typed. intros Hty.
  pose proof (receipts_readable s Hty Hinv) as Hread. destruct Hinv as [Hkey Hsame].
  destruct (s !! applied_receipt k) as [r|] eqn:Ha.
  - destruct (receipt_lookup s _ k r Hty (or_intror eq_refl) Ha) as [st ->].
    destruct (Hkey k st (or_intror Ha)) as (_ & Hok & _).
    apply (wp_intake_applied self transaction_id event_id s _ _ st); [done|done| | | |done|done].
    + intros st' Hp. by eapply Hsame.
    + intros r Hp. apply (receipt_lookup s _ k r Hty (or_introl eq_refl) Hp).
    + by exists st.
  - destruct (s !! pending_receipt k) as [r|] eqn:Hp.
    + destruct (receipt_lookup s _ k r Hty (or_introl eq_refl) Hp) as [st ->].
      destruct (Hkey k st (or_introl Hp)) as (_ & Hok & Hv).
      apply (wp_intake_pending self transaction_id event_id s _ _ st n); [done..| | |done].
      * intros Hn.
        assert (Hans : intake_answer s k n (Applied n)
          (delete (pending_receipt k) (<[applied_receipt k := FReceipt st]> s)))
          by by exists st.
        apply wp_bind. wp_write; [apply receipt_key_json|kind| |by intros ?..].
        apply wp_bind, wp_remove_durable; [apply receipt_key_json| |by intros ?..].
        by apply wp_ret.
      * intros Hn b Hb. apply wp_bind, wp_write_blocker.
        -- intros s' Hs'. apply wp_ret. by exists st.
        -- intros e s' Hs'. split; [done|]. by rewrite Hp.
    + apply wp_intake_missing; [done..|]. split; [done|]. by rewrite Hp.
Qed.

(** C28: Intake of a receipt without I/O errors.  An applied receipt is reported
    as a duplicate and loses its pending copy; a pending one is applied exactly
    when it carries the next number of its transaction, and moves from pending
    to applied; otherwise no receipt changes and the blocker says whether it
    came early or late; an unknown one is refused. *)
Theorem intake_answers transaction_id event_id s (n : Z) w :
  let k := receipt_key transaction_id event_id in
  require_identifier "transaction_id" transaction_id = Ok tt →
  require_identifier "event_id" event_id = Ok tt →
  rep false w s → calm_world w → receipts_inv self s → next_sequence s transaction_id n →
  ∃ result w' s', intake self transaction_id event_id w = (result, w') ∧ rep false w' s'
    ∧ match result with
      | Ok o => intake_answer s k n o s'
      | Err e => intake_refusal s k n e s'
      | _ => False
      end.
Proof.
  intros k Htx Hev Hrep Hcalm Hinv Hseq.
  apply (wp_run true (l:=false) _ s); [|done|done].
  unfold intake. rewrite Htx, Hev. apply wp_bind, wp_lift, wp_bind, wp_lift, wp_with_lock;
    [|by intros ?..]. by apply wp_intake_answers.
Qed.

(** A process without faults to come, and with fresh temporary names. *)
Definition restarted w w' : Prop :=
  calm_world w' ∧ ∃ pid n, w' = w.{w_faults := nil}.{w_pid := pid}.{w_next_temp := n}.

Lemma restarted_rep w w' s : restarted w w' → rep false w s → rep false w' s.
Proof. intros (_ & pid & n & ->) Hrep. by apply rep_process, rep_faults. Qed.

(** C22: However an intake of the next receipt of a transaction is interrupted,
    the same intake by a later process applies it or finds it applied, and
    leaves it applied and no longer pending. *)
Theorem intake_recovers transaction_id event_id s (st : StoredReceipt) w
    (result : LifecycleResult IntakeOutcome) w1 w2 :
  let k := receipt_key transaction_id event_id in
  require_identifier "transaction_id" transaction_id = Ok tt →
  require_identifier "event_id" event_id = Ok tt →
  receipts_inv self s → rep false w s →
  s !! applied_receipt k = None → s !! pending_receipt k = Some (FReceipt st) →
  next_sequence s transaction_id (tr_event_seq (sr_receipt st)) →
  intake self transaction_id event_id w = (result, w1) → restarted w1 w2 →
  ∃ o w3 s3, intake self transaction_id event_id w2 = (Ok o, w3) ∧ rep false w3 s3
    ∧ (o = Applied (tr_event_seq (sr_receipt st)) ∨ o = Duplicate (tr_event_seq (sr_receipt st)))
    ∧ s3 !! applied_receipt k = Some (FReceipt st) ∧ s3 !! pending_receipt k = None.
Proof.
  intros k Htx Hev Hinv Hrep Ha Hp Hseq Hrun Hstart.
  pose proof (receipts_readable s (proj1 (rep_files _ _ _ Hrep)) Hinv) as Hread.
  destruct (proj1 Hinv k st (or_introl Hp)) as (_ & Hok & Hv).
  set (s1 := <[applied_receipt k := FReceipt st]> s).
  set (s2 := delete (pending_receipt k) s1).
  set (n := tr_event_seq (sr_receipt st)) in *.
  (* the interrupted run *)
  assert (Hfirst : wp false false (intake self transaction_id event_id) s
                     (λ _ s', s' = s2) (λ _ s', s' = s ∨ s' = s1 ∨ s' = s2)).
  { unfold intake. rewrite Htx, Hev. apply wp_bind, wp_lift, wp_bind, wp_lift.
    apply wp_with_lock; [|by intros _ ?; auto|by intros _ e a s' ->; auto|by intros _ e e' s' ?].
    apply (wp_intake_pending self transaction_id event_id s _ _ st n); [done..| | |by intros _ ?; auto].
    - intros _. apply wp_bind. wp_write; [apply receipt_key_json|kind| |by intros _ ?; auto..].
      apply wp_bind, wp_remove_durable; [apply receipt_key_json| |by intros _ ?; auto..]. by apply wp_ret.
    - intros Hne. by destruct Hne. }
  (* the later one, from each store the first can leave *)
  set (P := λ (o : IntakeOutcome) (s3 : store), (o = Applied n ∨ o = Duplicate n)
    ∧ s3 !! applied_receipt k = Some (FReceipt st) ∧ s3 !! pending_receipt k = None).
  assert (Hdone : ∀ o, o = Applied n ∨ o = Duplicate n → P o s2).
  { intros o Ho. unfold P, s2, s1. split_and!; [done| |by rewrite lookup_delete_eq].
    by rewrite lookup_delete_ne, lookup_insert_eq. }
  assert (Hlater : ∀ s', s' = s ∨ s' = s1 ∨ s' = s2 →
            wp true false (intake self transaction_id event_id) s' P (λ _ _, False)).
  { intros s' Hs'. unfold intake. rewrite Htx, Hev. apply wp_bind, wp_lift, wp_bind, wp_lift.
    apply wp_with_lock; [|by intros ?..]. destruct Hs' as [->|Hs'].
    - apply (wp_intake_pending self transaction_id event_id s _ _ st n); [done..| | |done].
      + intros _. apply wp_bind. wp_write; [apply receipt_key_json|kind| |by intros ?..].
        apply wp_bind, wp_remove_durable; [apply receipt_key_json| |by intros ?..].
        apply wp_ret. apply Hdone. by left.
      + intros Hne. by destruct Hne.
    - assert (Hap : s' !! applied_receipt k = Some (FReceipt st))
        by (destruct Hs' as [-> | ->]; unfold s2, s1;
            rewrite ?lookup_delete_ne, ?lookup_insert_eq by done; done).
      assert (Hpe : ∀ r, s' !! pending_receipt k = Some r → r = FReceipt st).
      { intros r Hr. destruct Hs' as [-> | ->]; unfold s2, s1 in Hr; lookups. congruence. }
      apply (wp_intake_applied self transaction_id event_id s' _ _ st); [done|done| | | |done|done].
      + intros st' Hst'. apply Hpe in Hst'. congruence.
      + intros r Hr. exists st. by apply Hpe.
      + fold k. replace (delete (pending_receipt k) s') with s2;
          [apply Hdone; by right|].
        destruct Hs' as [-> | ->]; unfold s2; [done|by rewrite delete_delete_eq]. }
  destruct (wp_run _ _ _ _ _ w Hfirst Hrep ltac:(done)) as (r & w' & s' & Hrun' & Hrep' & Hpost).
  rewrite Hrun in Hrun'. injection Hrun' as <- <-.
  assert (Hs' : s' = s ∨ s' = s1 ∨ s' = s2) by (destruct result; auto; done).
  destruct (wp_run _ _ _ _ _ w2 (Hlater s' Hs') (restarted_rep _ _ _ Hstart Hrep')
              (λ _, proj1 Hstart)) as (r3 & w3 & s3 & Hrun3 & Hrep3 & Hpost3).
  destruct r3; [|done..]. by exists a, w3, s3.
Qed.

(** ** Durability *)

Lemma wp_write_terminal_receipt (receipt : TerminalReceipt) s :
  let k := receipt_key (tr_transaction_id receipt) (tr_event_id receipt) in
  wp false true (write_terminal_receipt_locked self receipt) s
    (λ _ s', ∃ st, receipt_at s' k st ∧ TerminalReceipt_eqb (sr_receipt st) receipt = true)
    (λ _ _, True).
Proof.
  intros k. unfold write_terminal_receipt_locked. cbn zeta. fold k.
  assert (Hj : is_json k = true) by apply receipt_key_json. clearbody k.
  apply wp_bind. cbn [for_return].
  assert (Hfound : ∀ d (m : unit → M (unit + ReceiptWriteOutcome)) Q, path_kind (d, k) = Some KReceipt →
    (∀ st, s !! (d, k) = Some (FReceipt st) →
           TerminalReceipt_eqb (sr_receipt st) receipt = true → Q (inr (ReceiptAlreadyDurable (d, k))) s) →
    (s !! (d, k) = None → wp false true (m tt) s Q (λ _ _, True)) →
    wp false true (next ← (present ← path_exists (d, k);
      if (present : bool) then
        existing ← read_stored_receipt self (d, k);
        if TerminalReceipt_eqb (sr_receipt existing) receipt
        then mret (inr (ReceiptAlreadyDurable (d, k)))
        else fail (blocker "RECEIPT_IDENTITY_CONFLICT" k)
      else mret (inl tt));
      match next with inl u => m u | inr r => mret (inr r) end) s Q (λ _ _, True)).
  { intros d m Q Hk Hsome Hnone. apply wp_bind, wp_bind, wp_path_exists; [done|].
    case_bool_decide as Hp; [|by apply wp_ret, Hnone, eq_None_not_Some].
    apply wp_bind, wp_read_stored_receipt; [done|done| |by intros ?].
    intros st Hst _. destruct (TerminalReceipt_eqb (sr_receipt st) receipt) eqn:He;
      [|by apply wp_fail]. apply wp_ret, wp_ret. by eapply Hsome. }
  apply (Hfound "receipts/applied"); [done| |].
  { intros st Hst He. apply wp_ret. exists st. split; [by left|done]. }
  intros Ha. apply (Hfound "receipts/pending"); [done| |].
  { intros st Hst He. apply wp_ret. exists st. split; [by right|done]. }
  intros Hp. apply wp_ret, wp_bind. wp_write; [done|kind| |by intros ? ?..].
  apply wp_ret. exists (stored_receipt receipt). split; [|apply TerminalReceipt_eqb_refl].
  right. by rewrite lookup_insert_eq, lookup_insert_ne.
Qed.

Lemma evolves_receipt_at s s' k st :
  evolves self used s s' → receipt_at s k st → receipt_at s' k st.
Proof.
  apply (evolves_preserves self used (λ s, receipt_at s k st)).
  intros s1 s2. apply change_receipt_at.
Qed.

(** Once [write_terminal_receipt] has returned [Ok], the receipt is read
    back, equal to the one given, by any later process without I/O errors,
    whatever ran, failed or crashed in between. *)
Theorem written_receipt_is_durable (receipt : TerminalReceipt) sys fs o w1 sys2 w2 :
  reached self used sys → used (tr_transaction_id receipt) (tr_event_id receipt) →
  write_terminal_receipt self receipt (sys_world sys).{w_faults := fs} = (Ok o, w1) →
  rtc (sys_step self used) {| sys_world := w1; sys_waiting := sys_waiting sys |} sys2 →
  restarted (sys_world sys2) w2 →
  ∃ receipt' w3,
    terminal_receipt self (tr_transaction_id receipt) (tr_event_id receipt) w2
    = (Ok receipt', w3) ∧ TerminalReceipt_eqb receipt' receipt = true.
Proof.
  intros Hreach Hu Hrun Hsteps Hstart.
  set (k := receipt_key (tr_transaction_id receipt) (tr_event_id receipt)).
  assert (Hv : validate_receipt self receipt = Ok tt).
  { unfold write_terminal_receipt, mbind, M_bind, lift in Hrun.
    by destruct (validate_receipt self receipt) as [[]| | |]. }
  assert (Hwrite : ∀ s, wp false false (write_terminal_receipt self receipt) s
    (λ _ s', (∃ st, receipt_at s' k st ∧ TerminalReceipt_eqb (sr_receipt st) receipt = true)
             ∧ evolves self used s s') (λ _ _, True)).
  { intros s. unfold write_terminal_receipt. rewrite Hv. apply wp_bind, wp_lift.
    apply wp_with_lock; [|by intros ? ?..].
    eapply wp_mono; [apply wp_conj|intros a s' HQ; exact HQ|done].
    - apply wp_write_terminal_receipt.
    - by apply write_terminal_receipt_refines. }
  destruct (reached_run self used _ (λ _ _ s', ∃ st, receipt_at s' k st
              ∧ TerminalReceipt_eqb (sr_receipt st) receipt = true) _ _ _ _ Hwrite Hreach Hrun)
    as (s & s1 & _ & _ & (st & Hat & Heqb) & Hlater).
  destruct (Hlater sys2 Hsteps) as (s2 & Hrep2 & Hev12 & Hev2).
  pose proof (evolves_receipt_at _ _ _ _ Hev12 Hat) as Hat2.
  pose proof (evolves_empty_inv self used s2 Hev2) as Hinv.
  destruct (proj1 (inv_receipts _ _ Hinv) k st) as (_ & Hok & Hvst);
    [destruct Hat2 as [?|[_ ?]]; auto|].
  assert (Hids : require_identifier "transaction_id" (tr_transaction_id receipt) = Ok tt
                 ∧ require_identifier "event_id" (tr_event_id receipt) = Ok tt).
  { unfold validate_receipt in Hv. cbn [require_all] in Hv. outcome_inv.
    by repeat match goal with u : unit |- _ => destruct u end. }
  destruct Hids as [Htx Hid].
  assert (Hread : wp true false
    (terminal_receipt self (tr_transaction_id receipt) (tr_event_id receipt)) s2
    (λ receipt' _, receipt' = sr_receipt st) (λ _ _, False)).
  { unfold terminal_receipt. rewrite Htx, Hid. apply wp_bind, wp_lift, wp_bind, wp_lift.
    apply wp_with_lock; [|by intros ?..]. apply wp_terminal_receipt_unlocked.
    - intros st' Hat' _. by rewrite (receipt_at_fun _ _ _ _ Hat' Hat2).
    - intros e He. apply (He eq_refl). by exists st. }
  destruct (wp_run _ _ _ _ _ w2 Hread (restarted_rep _ _ _ Hstart Hrep2) (λ _, proj1 Hstart))
    as (r3 & w3 & s3 & Hrun3 & _ & Hpost3).
  destruct r3 as [receipt'| | |]; [|done..]. exists receipt', w3. by subst receipt'.
Qed.

(** Without I/O errors, [next_receipt_event_sequence] computes the number
    the applied receipts of the transaction leave free: it returns [n] exactly
    when they carry 0, ..., n-1 once each, and an error when they do not. *)
Theorem next_sequence_computed transaction_id s w :
  require_identifier "transaction_id" transaction_id = Ok tt →
  rep false w s → calm_world w → receipts_inv self s →
  ∃ result w', next_receipt_event_sequence self transaction_id w = (result, w')
    ∧ rep false w' s ∧ (∀ n, result = Ok n ↔ next_sequence s transaction_id n)
    ∧ ((¬ ∃ n, next_sequence s transaction_id n) → ∃ e, result = Err e).
Proof.
  intros Htx Hrep Hcalm Hinv.
  pose proof (receipts_readable s (proj1 (rep_files _ _ _ Hrep)) Hinv) as Hread.
  assert (Hwp : wp true false (next_receipt_event_sequence self transaction_id) s
    (λ n s', s' = s ∧ next_sequence s transaction_id n)
    (λ _ s', s' = s ∧ ¬ ∃ n, next_sequence s transaction_id n)).
  { unfold next_receipt_event_sequence. rewrite Htx. apply wp_bind, wp_lift.
    apply wp_with_lock_read; [|by intros ?].
    apply wp_next_receipt_event_sequence; [done|].
    intros e He. split_and!; [done..|]. intros Hn. by destruct (He eq_refl). }
  destruct (wp_run _ _ _ _ _ w Hwp Hrep (λ _, Hcalm)) as (result & w' & s' & Hrun & Hrep' & Hpost).
  exists result, w'. split; [done|].
  destruct result as [n|e| |]; [| |done..]; destruct Hpost as [-> Hpost]; (split; [done|split]).
  - intros m. split; [by intros [= <-]|]. intros Hm. f_equal. by eapply next_sequence_fun.
  - intros Hn. destruct Hn. by exists n.
  - intros m. split; [done|]. intros Hm. destruct Hpost. by exists m.
  - intros _. by exists e.
Qed.
End ReceiptFacts.
