(* ===== verification/StoreContinuationFacts.v ===== *)
(** * Theorems on blockers, file names and single writes

    How a blocker joins the journal, the interruption after which none can, the
    framing of file names, and the atomicity of [durable_write]. *)

From stdpp Require Import base list strings gmap sets sorting pretty relations.
From Stdlib Require Import ZArith Lia Ascii.
From S2P Require Import Prelude RustStd Externals TaskIdentity FileSystem StoreData StoreChecks Store.
From S2P Require Import StoreSpec StoreLogic StoreReads StoreRefine StoreSystem StoreInvariants.
From S2P Require Import StoreFacts StoreIntake.
Open Scope Z_scope.

(** ** Blockers *)

Section BlockerFacts.
Context `{SerdeJson, Sha2, !StoreSerde, !StoreSerdeLaws, !Sha2Laws _, !JsonNumberLaws _}.
Context (self : SessionLifecycleStore).
Implicit Types (s : store) (w : World) (b : LifecycleBlocker) (transaction_id event_id : option string).

(** Recording a blocker after others, without I/O errors: a repetition of
    the last one changes nothing; another one gets the next number, in its own
    file and as the last one, unless the number is exhausted or held by a
    different record. *)
Theorem blocker_joins_journal b transaction_id event_id older newer s w :
  journal s older newer → older ≠ [] → rep true w s → calm_world w →
  ∃ result w' s', write_blocker_unlocked self b transaction_id event_id w = (result, w')
    ∧ rep true w' s'
    ∧ match journal_entry self older newer b transaction_id event_id with
      | Ok entry => result = Ok tt ∧ s' = journal_store s entry
      | Err e => result = Err e ∧ s' = s
      | _ => False
      end.
Proof.
  intros Hj Hne Hrep Hcalm.
  pose (Q := λ (_ : unit) s', ∃ entry,
    journal_entry self older newer b transaction_id event_id = Ok entry ∧ s' = journal_store s entry).
  pose (E := λ e s', journal_entry self older newer b transaction_id event_id = Err e ∧ s' = s).
  assert (Hwp : wp true true (write_blocker_unlocked self b transaction_id event_id) s Q E).
  { eapply wp_write_blocker_calm; [done..|].
    assert (Hs : settles (journal_entry self older newer b transaction_id event_id)).
    { unfold journal_entry. case_match; [apply settles_Ok|].
      apply settles_bind; [apply settles_next_blocker_sequence|]. intros n. cbn zeta.
      destruct newer; [apply settles_Ok|]. case_bool_decide; [apply settles_Ok|].
      right. by eexists. }
    destruct Hs as [[entry He]|[e He]]; rewrite He; [by exists entry|done]. }
  destruct (wp_run _ _ _ _ _ w Hwp Hrep (λ _, Hcalm)) as (result & w' & s' & Hrun & Hrep' & Hpost).
  exists result, w', s'. split_and!; [done..|].
  destruct result as [[]|e| |]; [|by destruct Hpost as [-> ->]|done..].
  by destruct Hpost as (entry & -> & ->).
Qed.

(** When the copy of the last blocker is missing and the directory of the
    blockers holds any file, no blocker can be recorded, the interrupted one
    included: every attempt fails and writes nothing, so the store stays so. *)
Theorem interrupted_first_blocker_sticks b transaction_id event_id w :
  w_files w !! last_blocker_path = None → names_in "blockers" (w_files w) ≠ [] →
  ∃ e w', write_blocker_unlocked self b transaction_id event_id w = (Err e, w')
    ∧ w_files w' = w_files w
    ∧ (w_faults w = [] → "blockers" ∈ w_dirs w →
       e = blocker "BLOCKER_HIGH_WATER_MISSING" (display_dir self "blockers")).
Proof.
  intros Hlast Hne. unfold write_blocker_unlocked, last_blocker_record, read_dir, path_exists.
  destruct w as [root lk l d f pid n fs]. unfold mbind, M_bind, gets, io. simpl in *.
  rewrite Hlast, bool_decide_eq_false_2 by apply is_Some_None. simpl.
  destruct fs as [|[ft|] fs]; simpl.
  2:{ eexists _, _. split_and!; [done|done|done]. }
  all: case_bool_decide as Hd; simpl; [|by eexists _, _].
  all: rewrite bool_decide_eq_false_2 by done; simpl; by eexists _, _.
Qed.
End BlockerFacts.

(** ** File names *)

Section Names.
Context `{Sha2}.

(** [value] holds no NUL character. *)
Fixpoint nul_free (value : string) : bool :=
  match value with
  | EmptyString => true
  | String c rest => negb (bool_decide (c = ascii_of_nat 0)) && nul_free rest
  end.

Lemma nul_framing a b c d :
  nul_free a = true → nul_free c = true → a +:+ nul +:+ b = c +:+ nul +:+ d → a = c ∧ b = d.
Proof.
  revert c. induction a as [|x a IH]; intros [|y c] Ha Hc Heq.
  - split; [done|]. by injection Heq.
  - change ("" +:+ nul +:+ b) with (String (ascii_of_nat 0) b) in Heq.
    change (String y c +:+ nul +:+ d) with (String y (c +:+ nul +:+ d)) in Heq.
    injection Heq as Hy _. simpl in Hc. guards. congruence.
  - change ("" +:+ nul +:+ d) with (String (ascii_of_nat 0) d) in Heq.
    change (String x a +:+ nul +:+ b) with (String x (a +:+ nul +:+ b)) in Heq.
    injection Heq as Hx _. simpl in Ha. guards. congruence.
  - change (String x a +:+ nul +:+ b) with (String x (a +:+ nul +:+ b)) in Heq.
    change (String y c +:+ nul +:+ d) with (String y (c +:+ nul +:+ d)) in Heq.
    injection Heq as -> Heq. simpl in Ha, Hc. guards.
    destruct (IH c) as [-> ->]; [done..|]. done.
Qed.

(** Two identities whose transaction ids hold no NUL share a file name only
    if SHA-256 collides on them; with a NUL in the identifier, which
    [require_identifier] accepts, distinct identities can share it. *)
Theorem receipt_key_framing :
  (∀ a b c d, nul_free a = true → nul_free c = true → receipt_key a b = receipt_key c d →
     (a = c ∧ b = d)
     ∨ (a +:+ nul +:+ b ≠ c +:+ nul +:+ d
        ∧ sha256_hex (a +:+ nul +:+ b) = sha256_hex (c +:+ nul +:+ d)))
  ∧ ∃ a b c d, (a, b) ≠ (c, d) ∧ receipt_key a b = receipt_key c d
     ∧ require_identifier "transaction_id" a = Ok tt ∧ require_identifier "event_id" b = Ok tt
     ∧ require_identifier "transaction_id" c = Ok tt ∧ require_identifier "event_id" d = Ok tt.
Proof.
  split.
  - intros a b c d Ha Hc Heq. apply append_inj_l in Heq.
    destruct (decide (a +:+ nul +:+ b = c +:+ nul +:+ d)) as [He|He]; [left|by right].
    by apply nul_framing.
  - exists ("a" +:+ nul +:+ "b"), "c", "a", ("b" +:+ nul +:+ "c"). split_and!; try done.
Qed.
End Names.

(** ** One write *)

(** [durable_write] is atomic for readers of JSON files: whatever fails,
    the file holds its old text or the whole new one, the new one if it
    returned [Ok], and no other JSON file, no lock and no directory is lost. *)
Theorem durable_write_atomic (p : path) (bytes : string) (w : World) :
  is_json p.2 = true → w_root w = RootDirectory →
  ∃ result w', durable_write p bytes w = (result, w') ∧ settles result
    ∧ (∀ q, is_json q.2 = true → q ≠ p → w_files w' !! q = w_files w !! q)
    ∧ (w_files w' !! p = Some bytes ∨ (result ≠ Ok tt ∧ w_files w' !! p = w_files w !! p))
    ∧ w_root w' = RootDirectory ∧ w_locked w' = w_locked w ∧ w_dirs w ⊆ w_dirs w'.
Proof.
  intros Hj Hroot.
  pose proof (durable_write_view w p bytes Hj Hroot w (conj (reflexivity w) (λ q _, eq_refl)))
    as Hview.
  destruct (durable_write p bytes w) as [result w']. exists result, w'. split; [done|].
  assert (Hnew : quiet w w' → json_view (w_files w') (<[p := bytes]> (w_files w)) →
    (∀ q, is_json q.2 = true → q ≠ p → w_files w' !! q = w_files w !! q)
    ∧ w_files w' !! p = Some bytes ∧ w_root w' = RootDirectory ∧ w_locked w' = w_locked w
    ∧ w_dirs w ⊆ w_dirs w').
  { intros [Hr _ Hl _ Hd] Hv. split_and!; auto.
    - intros q Hq Hne. by rewrite (Hv q Hq), lookup_insert_ne.
    - by rewrite (Hv p Hj), lookup_insert_eq. }
  destruct result as [[]|e| |]; [|destruct Hview as [Hview|Hview]|done..].
  - destruct Hview as [Hq Hv]. destruct (Hnew Hq Hv) as (? & ? & ? & ? & ?).
    split_and!; auto. left. by eexists.
  - destruct Hview as [[Hr _ Hl _ Hd] Hv]. split_and!; auto.
    right. by eexists.
  - destruct Hview as [Hq Hv]. destruct (Hnew Hq Hv) as (? & ? & ? & ? & ?).
    split_and!; auto. right. by eexists.
Qed.

(** ** Theorems on continuations and slots

    The continuation made from a callback is accepted; a message is handed to
    the transport at most once; a completion that is reported as proven has its
    evidence; a slot is released only when nothing is left in it. *)

Section ContinuationFacts.
Context `{SerdeJson, Sha2, !StoreSerde, !StoreSerdeLaws, !Sha2Laws _, !JsonNumberLaws _}.
Context (self : SessionLifecycleStore) (used : string → string → Prop).
Implicit Types (s : store) (w : World) (sys : System)
  (record expected : ContinuationDispatchRecord) (callback : DurableCallbackRecord).

(** ** One delivery per continuation *)

Lemma wp_begin (expected : ContinuationDispatchRecord) (sha : string) s :
  wp false true (begin_direct_delivery_locked self expected sha) s
    (λ o s', o = CwPrepared →
       (∃ r, s !! continuation_file (record_key expected) = Some (FContinuation r)
             ∧ cd_state r = Prepared)
       ∧ ∃ r, s' !! continuation_file (record_key expected) = Some (FContinuation r)
              ∧ cd_state r = DeliveryUnsettled)
    (λ _ _, True).
Proof.
  apply wp_bind, wp_load_continuation; [|by intros ? ?].
  intros r (Hr & Hback & _). cbn zeta. destruct (cd_state r) eqn:Hs;
    [|by apply wp_fail|destruct (_ && _); [by apply wp_ret; intros ?|by apply wp_fail]..].
  apply wp_bind. wp_write; [json|kind| |by intros ? ?..]. apply wp_ret. intros _. split; [by exists r|].
  eexists. split; [by rewrite lookup_insert_eq|done].
Qed.

Lemma wp_begin_method (expected : ContinuationDispatchRecord) (message : string) s :
  wp false false (begin_callback_continuation_direct_delivery self expected message) s
    (λ o s', (o = CwPrepared →
       (∃ r, s !! continuation_file (record_key expected) = Some (FContinuation r)
             ∧ cd_state r = Prepared)
       ∧ ∃ r, s' !! continuation_file (record_key expected) = Some (FContinuation r)
              ∧ cd_state r = DeliveryUnsettled)
       ∧ evolves self used s s')
    (λ _ _, True).
Proof.
  apply wp_bind, wp_validate_continuation; [|by intros ? ?]. intros _.
  apply wp_with_lock; [|by intros ? ?..].
  eapply wp_mono; [apply wp_conj|intros o s' HQ; exact HQ|done].
  - apply wp_begin.
  - apply begin_direct_delivery_refines.
Qed.

(** C20: No blind retry: once [begin_callback_continuation_direct_delivery] has
    handed out the delivery of a continuation ([Prepared] returned), no later
    call does so again, by any process, after any errors and crashes. *)
Theorem delivery_begins_once sys fs e1 m1 w1 sys2 fs2 e2 m2 o w3 :
  reached self used sys →
  begin_callback_continuation_direct_delivery self e1 m1 (sys_world sys).{w_faults := fs}
    = (Ok CwPrepared, w1) →
  rtc (sys_step self used) {| sys_world := w1; sys_waiting := sys_waiting sys |} sys2 →
  begin_callback_continuation_direct_delivery self e2 m2 (sys_world sys2).{w_faults := fs2}
    = (Ok o, w3) →
  record_path e1 = record_path e2 → o ≠ CwPrepared.
Proof.
  intros Hreach Hrun1 Hsteps Hrun2 Hpath Ho.
  assert (Hkey : record_key e1 = record_key e2) by by apply (f_equal snd) in Hpath.
  destruct (reached_run self used _ _ _ _ _ _ (wp_begin_method e1 m1) Hreach Hrun1)
    as (s & s1 & _ & _ & Hbegun & Hlater).
  destruct (Hbegun eq_refl) as (_ & r1 & Hr1 & Hs1).
  destruct (Hlater sys2 Hsteps) as (s2 & Hrep2 & Hev & _).
  destruct (evolves_progressed self used _ _ _ _ Hev Hr1) as (r2 & Hr2 & _ & _ & Hrank & _).
  destruct (wp_run _ _ _ _ _ _ (wp_begin_method e2 m2 s2) (rep_faults _ _ fs2 Hrep2)
              ltac:(done)) as (r & w' & s3 & Hrun & _ & Hpost).
  rewrite Hrun2 in Hrun. injection Hrun as <- <-.
  destruct Hpost as [Hpost _]. destruct (Hpost Ho) as ((r2' & Hr2' & Hs2') & _).
  rewrite <- Hkey, Hr2 in Hr2'. injection Hr2' as <-.
  rewrite Hs1, Hs2' in Hrank. simpl in Hrank. lia.
Qed.

(** ** Completion *)

(** The evidence behind a proven completion: the durable record was delivered
    by the direct writer and reconciled, or a durable terminal receipt reports
    the commander's turn on the request, its slot was released for exactly that
    receipt, and a record with a target thread has its proof. *)
Definition completion_witnessed s record : Prop :=
  ∃ persisted,
    s !! continuation_file (record_key record) = Some (FContinuation persisted)
    ∧ continuation_bound_fields_match persisted record = true
    ∧ ((cd_callback_delivery_route persisted = Some TrustedTuraDirectThreadWriter
        ∧ direct_delivery_reconciled persisted = true)
       ∨ ((cd_commander_thread_id persisted = None ∨ is_Some (cd_convergence_proof persisted))
          ∧ ∃ k st release,
              s !! applied_receipt k = Some (FReceipt st)
              ∧ receipt_completes record (sr_receipt st) = true
              ∧ validate_receipt self (sr_receipt st) = Ok tt
              ∧ s !! released_slot (receipt_key (tr_transaction_id (sr_receipt st))
                                      (tr_event_id (sr_receipt st))) = Some (FRelease release)
              ∧ release_matches release (sr_receipt st) = true)).

Lemma wp_completion_proven record s :
  wp false false (callback_continuation_completion_proven self record) s
    (λ proven s', s' = s ∧ (proven = true → completion_witnessed s record)) (λ _ s', s' = s).
Proof.
  apply wp_bind, wp_validate_continuation; [|by intros ? ?]. intros _.
  apply wp_with_lock_read; [|by intros ? ?].
  apply wp_bind, wp_load_continuation; [|by intros ? ?].
  intros persisted (Hp & _ & Hm).
  destruct (bool_decide _ && _) eqn:Hroute; guards.
  { apply wp_ret. split_and!; [done..|]. intros _. exists persisted. split_and!; [done..|].
    by left. }
  destruct (bool_decide (is_Some _) && _) eqn:Hthread; [by apply wp_ret|].
  apply wp_bind, wp_json_files; [by apply (bool_decide_unpack _)| |by intros ? ?].
  intros paths [Hin _]. apply wp_bind, (wp_for_return_read false (λ _ _, True)); [done| |].
  2:{ intros _ _. by apply wp_ret. }
  intros seen [d k] rest _ Hsplit _.
  assert (Hpath : d = "receipts/applied" ∧ is_json k = true ∧ is_Some (s !! (d, k)))
    by (apply (Hin (d, k)); rewrite Hsplit; apply elem_mid).
  destruct Hpath as (-> & Hj & _).
  apply wp_bind, wp_read_stored_receipt; [json|kind| |by intros ? ?].
  intros st Hst _. cbn zeta.
  destruct (receipt_completes record (sr_receipt st)) eqn:Hc; [|by apply wp_ret].
  apply wp_bind, wp_check; [auto with store_settles| |done]. intros Hv.
  apply wp_bind, wp_path_exists; [json|]. match goal with |- context [negb ?b] => destruct b end; cbn [negb];
    [|apply wp_ret; split; [done|by apply wp_ret]].
  apply wp_bind. wp_read; [json|kind| |done|by intros ? ?].
  intros release Hrelease. apply wp_ret. split; [done|]. apply wp_ret. split_and!; [done..|].
  intros Hproven. exists persisted. split_and!; [done..|]. right. split.
  - apply andb_false_iff in Hthread as [Ht|Ht]; guards.
    + left. by apply eq_None_not_Some.
    + right. by apply not_eq_None_Some.
  - by exists k, st, release.
Qed.

(** [callback_continuation_completion_proven] returns true only on the
    evidence of [completion_witnessed]; it changes nothing. *)
Theorem completion_proven_sound record w s result w' :
  rep false w s → callback_continuation_completion_proven self record w = (result, w') →
  rep false w' s ∧ (result = Ok true → completion_witnessed s record).
Proof.
  intros Hrep Hrun.
  destruct (wp_run _ _ _ _ _ w (wp_completion_proven record s) Hrep ltac:(done))
    as (r & w1 & s1 & Hrun1 & Hrep1 & Hpost).
  rewrite Hrun in Hrun1. injection Hrun1 as <- <-.
  destruct result as [proven|e| |]; [|by subst s1|done..].
  destruct Hpost as [-> Hproven]. split; [done|]. intros [= ->]. auto.
Qed.

(** ** Release of a slot *)

(** What [reclaim_terminal_slot] leaves in the directory of released slots. *)
Lemma wp_reclaim (transaction_id event_id : string) evidence s :
  let k := receipt_key transaction_id event_id in
  wp false false (reclaim_terminal_slot self transaction_id event_id evidence) s
    (λ o s', (∃ st, s !! applied_receipt k = Some (FReceipt st)
        ∧ match o with
          | Retained b => reclaim_blocker evidence = Some b
          | Released | AlreadyReleased => reclaim_blocker evidence = None
              ∧ s' !! released_slot k = Some (FRelease (slot_release transaction_id event_id
                                                         (sr_receipt st)))
          end)
      ∧ ∀ k', s' !! released_slot k' ≠ s !! released_slot k' → reclaim_blocker evidence = None)
    (λ _ s', ∀ k', s' !! released_slot k' ≠ s !! released_slot k' → reclaim_blocker evidence = None).
Proof.
  intros k.
  set (E := λ s', ∀ k', s' !! released_slot k' ≠ s !! released_slot k' →
                        reclaim_blocker evidence = None).
  assert (Hself : E s) by (by intros k' Hne; destruct Hne).
  apply wp_with_lock; [|by intros ? ?|by intros ? e o s' [_ ?]|by intros ? e e' s' ?].
  unfold reclaim_terminal_slot_locked. cbn zeta. fold k.
  assert (Hj : is_json k = true) by apply receipt_key_json. clearbody k.
  apply wp_bind, wp_read_stored_receipt; [json|kind| |by intros ? ?].
  intros st Hst _. destruct (reclaim_blocker evidence) as [b|] eqn:Hb.
  - assert (HE : ∀ s', same_records s s' → E s').
    { intros s' Hs' k' Hne. destruct Hne. by apply Hs'. }
    apply wp_bind, wp_write_blocker; [|by intros e s' ?; apply HE].
    intros s' Hs'. apply wp_ret. split; [by exists st|by apply HE].
  - assert (HE : ∀ s', E s') by by intros.
    apply wp_bind, wp_path_exists; [json|]. case_bool_decide as Hp.
    + apply wp_bind. wp_read; [json|kind| |done|by intros ? ?].
      intros existing Hex. case_bool_decide as Heq; [|by apply wp_fail].
      apply wp_ret. split; [|by apply HE]. exists st. by subst.
    + apply wp_bind. wp_write; [json|kind| |by intros ? ?..].
      apply wp_ret. split; [|by apply HE]. exists st. split_and!; [done..|].
      by rewrite lookup_insert_eq.
Qed.

(** A slot is released, or found released, only for an applied receipt and
    when no worker, tool call, command run, process or initialisation is left;
    the release names that receipt.  Otherwise the slot is retained with the
    first reason that applies, and no slot is released on any path. *)
Theorem slot_release_needs_idle (transaction_id event_id : string) evidence w s result w' :
  let k := receipt_key transaction_id event_id in
  rep false w s → reclaim_terminal_slot self transaction_id event_id evidence w = (result, w') →
  ∃ s', rep false w' s'
    ∧ (∀ o, result = Ok o → ∃ st, s !! applied_receipt k = Some (FReceipt st)
        ∧ match o with
          | Retained b => reclaim_blocker evidence = Some b
          | _ => reclaim_blocker evidence = None
              ∧ s' !! released_slot k
                = Some (FRelease (slot_release transaction_id event_id (sr_receipt st)))
          end)
    ∧ ((∃ k', s' !! released_slot k' ≠ s !! released_slot k') →
       le_runtime_worker_alive evidence = false ∧ le_active_tool_calls evidence ≤ 0
       ∧ le_active_command_runs evidence ≤ 0 ∧ le_live_effect_processes evidence ≤ 0
       ∧ le_pending_init evidence = false).
Proof.
  intros k Hrep Hrun.
  destruct (wp_run _ _ _ _ _ w (wp_reclaim transaction_id event_id evidence s) Hrep ltac:(done))
    as (r & w1 & s1 & Hrun1 & Hrep1 & Hpost).
  rewrite Hrun in Hrun1. injection Hrun1 as <- <-. exists s1. split; [done|].
  assert (Hidle : reclaim_blocker evidence = None →
    le_runtime_worker_alive evidence = false ∧ le_active_tool_calls evidence ≤ 0
    ∧ le_active_command_runs evidence ≤ 0 ∧ le_live_effect_processes evidence ≤ 0
    ∧ le_pending_init evidence = false).
  { unfold reclaim_blocker. repeat case_match; intros ?; simplify_eq; split_and!; first [done|lia]. }
  destruct result as [o|e| |]; [|by split; [intros ?|intros [k' ?]; eauto]|done..].
  destruct Hpost as [(st & Hst & Ho) Hrel]. split; [|intros [k' ?]; eauto].
  intros o' [= <-]. exists st. split; [done|]. by destruct o.
Qed.

(** ** The continuation of a callback *)

Definition sha256_ok (value : string) : bool := (len value =? 64) && bytes_all is_lower_hex value.

Lemma require_identifier_ok name value :
  require_identifier name value = Ok tt ↔ is_blank value = false.
Proof. unfold require_identifier. by destruct (is_blank value). Qed.
Lemma require_sha256_ok name value : require_sha256 name value = Ok tt ↔ sha256_ok value = true.
Proof. unfold require_sha256. fold (sha256_ok value). by destruct (sha256_ok value). Qed.

Lemma derived_not_blank x : is_blank (String "c"%char x) = false.
Proof.
  apply (visible_not_blank "c"%char). split; apply Nat.leb_le; reflexivity.
Qed.

(** What a continuation inherits from its callback. *)
Lemma callback_fields_facts callback :
  validate_callback_fields self callback = Ok tt →
  Forall (λ v, is_blank v = false)
    [cb_commander_session_id callback; cb_child_session_id callback;
     cb_transaction_id callback; cb_event_id callback; cb_runtime_id callback]
  ∧ Forall (λ v, sha256_ok v = true)
    [cb_callback_payload_sha256 callback; cb_parent_mission_revision_sha256 callback;
     cb_delegated_input_sha256 callback]
  ∧ cb_commander_session_id callback = sl_commander_session_id self
  ∧ canonical_value_sha256 (cb_callback_payload callback) = cb_callback_payload_sha256 callback.
Proof.
  intros Hf. unfold validate_callback_fields in Hf. cbn [require_all] in Hf. outcome_inv. guards.
  repeat match goal with u : unit |- _ => destruct u end.
  repeat match goal with
  | Hi : require_identifier _ _ = Ok tt |- _ => apply require_identifier_ok in Hi
  | Hs : require_sha256 _ _ = Ok tt |- _ => apply require_sha256_ok in Hs
  end.
  split_and!; by repeat constructor.
Qed.

(** The checks of a prepared continuation with a direct writer. *)
Lemma continuation_fields_ok record thread result :
  cd_schema_version record = CONTINUATION_SCHEMA →
  Forall (λ v, is_blank v = false)
    [cd_request_id record; cd_runtime_id record; cd_lease_id record;
     cd_commander_session_id record; cd_child_session_id record;
     cd_child_transaction_id record; cd_child_event_id record; cd_child_runtime_id record;
     thread] →
  Forall (λ v, sha256_ok v = true)
    [cd_callback_payload_sha256 record; cd_parent_mission_revision_sha256 record;
     cd_delegated_input_sha256 record] →
  cd_commander_session_id record = sl_commander_session_id self →
  default "" (value_get (cd_parent_input record) "requested_action" ≫= as_str)
    = cd_requested_action record →
  is_continuation_action (cd_requested_action record) = true →
  cd_commander_thread_id record = Some thread →
  cd_callback_delivery_route record = Some TrustedTuraDirectThreadWriter →
  value_pointer (cd_parent_input record) ["delivery"; "route"]
    = Some (route_to_value TrustedTuraDirectThreadWriter) →
  value_pointer (cd_parent_input record) ["delivery"; "target_thread_id"] = Some (VString thread) →
  cd_progress record = (None, None, None, None, Prepared) →
  is_unsettled (cd_effect_identity record) = false →
  value_pointer (cd_parent_input record) ["callback"; "result"] = Some result →
  canonical_value_sha256 result = cd_callback_payload_sha256 record →
  validate_continuation_fields self record = Ok tt.
Proof.
  intros Hs Hids Hshas Hc Ha Hact Ht Hr Hpr Hpt Hprog Hu Hres Hcan.
  repeat match goal with
  | Hf : Forall _ (_ :: _) |- _ => apply Forall_cons in Hf as [? Hf]
  | Hf : Forall _ [] |- _ => clear Hf
  end.
  unfold cd_progress in Hprog. injection Hprog as Hproof Hcall Hmsg Hdd Hst.
  assert (Hid : ∀ n v, is_blank v = false → require_identifier n v = Ok tt)
    by (intros n v; apply require_identifier_ok).
  assert (Hsha : ∀ n v, sha256_ok v = true → require_sha256 n v = Ok tt)
    by (intros n v; apply require_sha256_ok).
  unfold validate_continuation_fields, validate_direct_delivery_state, require_thread,
    require_route. cbn [require_all].
  rewrite Hs, Hc, Ha, Hact, Ht, Hr, Hpr, Hpt, Hproof, Hcall, Hmsg, Hdd, Hst, Hu, Hres.
  cbn [ok_or]. unfold mbind, outcome_bind. rewrite Hcan, <- Hc, !Hid, !Hsha by done. cbv beta iota.
  rewrite !bool_decide_eq_true_2 by done. simpl.
  match goal with Hb : is_blank thread = false |- _ => rewrite Hb end. done.
Qed.

(** A valid callback with its direct writer has a continuation that passes every
    check of [prepare_callback_continuation]. *)
Lemma from_callback_valid callback :
  validate_callback_fields self callback = Ok tt → callback_writer_binding callback = Ok tt →
  is_unsettled (cb_effect_identity callback) = false →
  ∃ r, from_callback callback = Ok r ∧ cd_state r = Prepared
    ∧ record_key r = receipt_key (cb_transaction_id callback) (cb_event_id callback)
    ∧ validate_continuation_fields self r = Ok tt
    ∧ validate_continuation_binding r callback = Ok tt
    ∧ continuation_writer_binding r = Ok tt.
Proof.
  intros Hf Hw Hu. destruct (callback_fields_facts _ Hf) as (Hids & Hshas & Hc & Hcan).
  unfold callback_writer_binding, require_direct_writer_binding in Hw.
  destruct (cb_commander_thread_id callback) as [thread|] eqn:Hthread; [|done].
  destruct (is_blank thread) eqn:Hblank; [done|]. simpl in Hw.
  assert (Hroute : cb_callback_delivery_route callback = Some TrustedTuraDirectThreadWriter)
    by (by destruct (cb_callback_delivery_route callback) as [[]|]).
  assert (Hrun : ∃ r, from_callback callback = Ok r).
  { unfold from_callback, require_thread, require_route, continuation_identity_sha256,
      require_thread, require_route. rewrite Hu, Hthread, Hroute. by eexists. }
  destruct Hrun as [r Hr]. exists r. split; [done|].
  pose proof Hr as Hrec. unfold from_callback, require_thread, require_route,
    continuation_identity_sha256, require_thread, require_route in Hrec.
  rewrite Hu, Hthread, Hroute in Hrec. injection Hrec as Hrec.
  set (action := if bool_decide (cb_terminal_state callback = TsCompleted) then _ else _) in Hrec.
  assert (Hact : is_continuation_action action = true)
    by (unfold action; by destruct (bool_decide (cb_terminal_state callback = TsCompleted))).
  clearbody action. split_and!; [by rewrite <- Hrec|by rewrite <- Hrec| | |].
  - apply (continuation_fields_ok r thread (cb_callback_payload callback));
      rewrite <- Hrec; try reflexivity; try done.
    + repeat match goal with Hx : Forall _ (_ :: _) |- _ => apply Forall_cons in Hx as [? Hx] end.
      repeat (apply Forall_cons; split); first [done|apply derived_not_blank|constructor].
  - assert (Hself : continuation_bound_fields_match r r = true).
    { unfold continuation_bound_fields_match, ContinuationDispatchRecord_eqb.
      rewrite !bool_decide_eq_true_2 by reflexivity. apply value_eqb_refl. }
    unfold validate_continuation_binding. rewrite Hr. unfold mbind, outcome_bind.
    rewrite Hself. rewrite <- Hrec. cbn [negb reject_if].
    unfold continuation_bound_identity_sha256, require_thread, require_route, mbind, outcome_bind.
    cbn [ok_or cd_commander_thread_id cd_callback_delivery_route require_derived].
    rewrite !bool_decide_eq_true_2 by reflexivity. done.
  - unfold continuation_writer_binding, require_direct_writer_binding. rewrite <- Hrec.
    cbn [cd_commander_thread_id cd_callback_delivery_route]. by rewrite Hblank.
Qed.

(** The path from a callback to its continuation: a callback that was taken
    in, is backed by its receipt, has its direct writer and a settled effect has
    a continuation, and without I/O errors [prepare_callback_continuation]
    accepts it, files it and changes nothing else. *)
Theorem continuation_of_callback_prepared callback s w :
  let k := receipt_key (cb_transaction_id callback) (cb_event_id callback) in
  rep false w s → calm_world w →
  s !! intaken_callback_path k = Some (FCallback callback) →
  callback_backed self s callback → callback_writer_binding callback = Ok tt →
  is_unsettled (cb_effect_identity callback) = false → s !! continuation_file k = None →
  ∃ r w', from_callback callback = Ok r
    ∧ prepare_callback_continuation self r w = (Ok CwPrepared, w')
    ∧ rep false w' (<[continuation_file k := FContinuation r]> s).
Proof.
  intros k Hrep Hcalm Hin Hback Hw Hu Hnone.
  destruct (from_callback_valid callback (proj1 Hback) Hw Hu)
    as (r & Hr & Hst & Hkey & Hfields & Hbind & Hbinding).
  exists r.
  assert (Hbacked : continuation_backed self s r).
  { split; [done|]. exists callback. by rewrite Hkey. }
  assert (Hwp : wp true false (prepare_callback_continuation self r) s
    (λ o s', o = CwPrepared ∧ s' = <[continuation_file k := FContinuation r]> s) (λ _ _, False)).
  { apply wp_bind, wp_validate_continuation; [|by intros e He; destruct (He eq_refl)].
    intros _. apply wp_bind, wp_lift. rewrite Hbinding.
    apply wp_with_lock; [|by intros ?..].
    apply wp_bind, wp_path_exists; [json|].
    change (record_path r) with (continuation_file (record_key r)). rewrite Hkey.
    fold k. rewrite Hnone, bool_decide_eq_false_2 by apply is_Some_None.
    apply wp_bind. wp_write; [apply receipt_key_json|kind| |by intros ?..].
    by apply wp_ret. }
  destruct (wp_run _ _ _ _ _ w Hwp Hrep (λ _, Hcalm)) as (result & w' & s' & Hrun & Hrep' & Hpost).
  destruct result as [o| | |]; [|done..]. destruct Hpost as [-> ->]. by exists w'.
Qed.
End ContinuationFacts.
