(* ===== verification/StoreReplayFacts.v ===== *)
(** * Draining the pending receipts

    [replay_pending] lists the pending receipts without the lock, sorts them by
    number and takes them in one by one.  When the pending receipts of every
    transaction continue its applied ones without a gap, the order of the sort
    applies them all. *)

From stdpp Require Import base list strings gmap sets sorting pretty relations.
From Stdlib Require Import ZArith Lia Ascii.
From S2P Require Import Prelude RustStd Externals TaskIdentity FileSystem StoreData StoreChecks Store StoreSpec StoreLogic StoreReads StoreRefine StoreSystem StoreInvariants StoreFacts StoreIntake StoreReceiptFacts.
Open Scope Z_scope.

Section Replay.
Context `{SerdeJson, Sha2, !StoreSerde, !StoreSerdeLaws, !Sha2Laws _, !JsonNumberLaws _}.
Context (self : SessionLifecycleStore).
Implicit Types (s : store) (w : World) (k : string) (K : list string).

(** A pending receipt of the transaction that was not applied. *)
Definition waits s (transaction_id : string) k (i : Z) : Prop :=
  ∃ st, s !! applied_receipt k = None ∧ s !! pending_receipt k = Some (FReceipt st)
    ∧ tr_transaction_id (sr_receipt st) = transaction_id ∧ tr_event_seq (sr_receipt st) = i.

(** The waiting receipts of every transaction carry the numbers after its
    applied ones, each once. *)
Definition drainable s : Prop :=
  ∀ transaction_id, ∃ n m, next_sequence s transaction_id n ∧ n ≤ m
    ∧ (∀ i, (∃ k, waits s transaction_id k i) ↔ n ≤ i < m)
    ∧ ∀ k1 k2 i, waits s transaction_id k1 i → waits s transaction_id k2 i → k1 = k2.

(** The pending receipts of the keys [K] have become applied. *)
Definition drained s K s' : Prop :=
  ∀ k, s' !! pending_receipt k = (if decide (k ∈ K) then None else s !! pending_receipt k)
    ∧ s' !! applied_receipt k
      = match s !! applied_receipt k with
        | Some r => Some r
        | None => if decide (k ∈ K) then s !! pending_receipt k else None
        end.

Lemma drained_nil s : drained s [] s.
Proof. intros k. split; [done|]. by destruct (s !! applied_receipt k). Qed.

Lemma drained_inv s K s' : drained s K s' → receipts_inv self s → receipts_inv self s'.
Proof.
  intros Hd [Hkey Hsame]. split.
  - intros k st Hst. apply (Hkey k). destruct (Hd k) as [Hp Ha]. rewrite Hp, Ha in Hst.
    case_decide; destruct (s !! applied_receipt k); destruct Hst; auto; done.
  - intros k st st'. destruct (Hd k) as [-> ->]. case_decide; [done|]. intros Hp Ha.
    destruct (s !! applied_receipt k) as [r|] eqn:Hr; [|done]. injection Ha as ->. by eapply Hsame.
Qed.

Lemma drained_applied s K s' tx k i :
  drained s K s' →
  applied_sequence s' tx k i ↔ applied_sequence s tx k i ∨ (k ∈ K ∧ waits s tx k i).
Proof.
  intros Hd. destruct (Hd k) as [_ Ha]. unfold applied_sequence, waits. rewrite Ha.
  destruct (s !! applied_receipt k) as [r|].
  - split; [intros ?; by left|]. by intros [?|(_ & st & ? & _)].
  - case_decide as Hk.
    + split.
      * intros (st & Hp & Htx & Hi). right. split; [done|]. by exists st.
      * intros [(st & ? & _)|(_ & st & _ & Hp & Htx & Hi)]; [done|]. by exists st.
    + split; [by intros (st & ? & _)|]. by intros [(st & ? & _)|[? _]].
Qed.

(** After the waiting receipts below [j], the next number is [j]. *)
Lemma drained_next s K s' tx k j :
  drainable s → drained s K s' → waits s tx k j →
  (∀ k i, waits s tx k i → k ∈ K ↔ i < j) → next_sequence s' tx j.
Proof.
  intros Hdr Hd Hj HK. destruct (Hdr tx) as (n & m & (Hn & Hi & Hu) & Hnm & Hw & Huw).
  assert (n ≤ j < m) by (apply Hw; eauto).
  split_and!; [lia| |].
  - intros i. setoid_rewrite (drained_applied _ _ _ _ _ _ Hd). split.
    + intros (k' & [Ha|[Hk' Hwk]]).
      * assert (0 ≤ i < n) by (apply Hi; eauto). lia.
      * assert (n ≤ i < m) by (apply Hw; eauto). apply (HK k' i Hwk) in Hk'. lia.
    + intros Hr. destruct (decide (i < n)).
      * destruct (proj2 (Hi i)) as [k' Hk']; [lia|]. exists k'. by left.
      * destruct (proj2 (Hw i)) as [k' Hk']; [lia|]. exists k'. right.
        split; [|done]. apply (HK k' i Hk'). lia.
  - intros k1 k2 i. rewrite !(drained_applied _ _ _ _ _ _ Hd).
    assert (Hboth : ∀ k1 k2, applied_sequence s tx k1 i → waits s tx k2 i → False).
    { intros k3 k4 Ha Hb. assert (0 ≤ i < n) by (apply Hi; eauto).
      assert (n ≤ i < m) by (apply Hw; eauto). lia. }
    intros [Ha|[_ Ha]] [Hb|[_ Hb]]; [by eapply Hu|by destruct (Hboth k1 k2)
      |by destruct (Hboth k2 k1)|by eapply Huw].
Qed.

(** Intake of a receipt adds its key. *)
Lemma drained_add s K s' k n o s'' :
  drained s K s' → is_Some (s !! pending_receipt k) → k ∉ K →
  intake_answer s' k n o s'' → (∀ b, o ≠ Pending b) → drained s (K ++ [k]) s''.
Proof.
  intros Hd [r Hr] Hk Hans Ho.
  assert (Hs'' : ∀ k', s'' !! pending_receipt k' = (if decide (k' = k) then None else s' !! pending_receipt k')
    ∧ s'' !! applied_receipt k' = match s' !! applied_receipt k' with
        | Some r => Some r
        | None => if decide (k' = k) then s' !! pending_receipt k else None end).
  { intros k'. destruct o as [m|m|b]; simpl in Hans; [| |by destruct (Ho b)].
    - destruct Hans as (st & Ha & Hp & _ & _ & ->). case_decide as Hkk.
      + subst k'. rewrite lookup_delete_eq, lookup_delete_ne, lookup_insert_eq, Ha by done. done.
      + rewrite !lookup_delete_ne, !lookup_insert_ne by congruence.
        split; [done|]. by destruct (s' !! applied_receipt k').
    - destruct Hans as (st & Ha & _ & ->). case_decide as Hkk.
      + subst k'. rewrite lookup_delete_eq, lookup_delete_ne, Ha by done. done.
      + rewrite !lookup_delete_ne by congruence. split; [done|].
        by destruct (s' !! applied_receipt k'). }
  intros k'. destruct (Hs'' k') as [-> ->], (Hd k') as [-> ->], (Hd k) as [-> _].
  assert (Hin : k' ∈ K ++ [k] ↔ k' = k ∨ k' ∈ K)
    by (rewrite elem_of_app, list_elem_of_singleton; tauto).
  destruct (decide (k' = k)) as [->|Hne]; repeat (case_decide; try tauto);
    (split; [done|]); destruct (s !! applied_receipt _); try done;
    first [by destruct (s !! pending_receipt k)|by destruct (s !! pending_receipt k')].
Qed.

(** ** The list of [pending_identities] *)

Definition identity_of (st : StoredReceipt) : string * string * Z :=
  (tr_transaction_id (sr_receipt st), tr_event_id (sr_receipt st), tr_event_seq (sr_receipt st)).
Definition identity_key (i : string * string * Z) : string := receipt_key i.1.1 i.1.2.

Definition lists_pending s (ids : list (string * string * Z)) : Prop :=
  (∀ i, i ∈ ids ↔ ∃ k st, s !! pending_receipt k = Some (FReceipt st) ∧ i = identity_of st)
  ∧ NoDup (identity_key <$> ids) ∧ StronglySorted (λ a b, a.2 ≤ b.2) ids.

Lemma pending_listed s paths ids :
  well_typed s → receipts_inv self s → lists_dir s "receipts/pending" paths →
  Forall2 (λ p i, ∃ st, s !! p = Some (FReceipt st) ∧ i = identity_of st) paths ids →
  lists_pending s (sort_by_key (λ i : string * string * Z, i.2) ids).
Proof.
  intros Hty [Hinv _] [Hin [Hnd _]] Hall.
  assert (Hkeys : pair "receipts/pending" <$> (identity_key <$> ids) = paths).
  { assert (Hd : ∀ p, p ∈ paths → p.1 = "receipts/pending") by (intros p; apply Hin).
    clear Hin Hnd. induction Hall as [|[d k] i paths ids (st & Hst & ->) Hall IH]; [done|].
    assert (d = "receipts/pending") as -> by apply (Hd (d, k) (list_elem_of_here _ _)).
    simpl. f_equal; [|apply IH; intros p Hp; by apply Hd, list_elem_of_further].
    by destruct (Hinv k st (or_introl Hst)) as (-> & _). }
  split_and!.
  - intros i. rewrite (sort_by_key_perm (λ i : string * string * Z, i.2) ids). split.
    + intros Hi. destruct (list_elem_of_lookup_1 _ _ Hi) as [n Hn].
      destruct (Forall2_lookup_r _ _ _ _ _ Hall Hn) as ([d k] & Hp & st & Hst & ->).
      assert (d = "receipts/pending") as -> by apply (Hin (d, k)), (list_elem_of_lookup_2 _ _ _ Hp).
      by exists k, st.
    + intros (k & st & Hst & ->).
      assert (Hp : pending_receipt k ∈ paths).
      { apply Hin. split_and!; [done| |by eexists]. by destruct (Hty _ _ Hst). }
      destruct (list_elem_of_lookup_1 _ _ Hp) as [n Hn].
      destruct (Forall2_lookup_l _ _ _ _ _ Hall Hn) as (i & Hi & st' & Hst' & ->).
      rewrite Hst in Hst'. injection Hst' as <-. by eapply list_elem_of_lookup_2.
  - rewrite (sort_by_key_perm (λ i : string * string * Z, i.2) ids).
    rewrite <- Hkeys in Hnd. by apply NoDup_fmap_1 in Hnd.
  - apply sort_by_key_sorted.
Qed.

Lemma wp_pending_identities s :
  receipts_inv self s →
  wp true false (pending_identities self) s (λ ids s', s' = s ∧ lists_pending s ids) (λ _ _, False).
Proof.
  intros Hinv. apply wp_typed. intros Hty.
  apply wp_bind, wp_json_files; [by apply (bool_decide_unpack _)| |by intros ?].
  intros paths Hpaths. apply wp_bind.
  apply (wp_mapM true (λ seen ids s', s' = s
    ∧ Forall2 (λ p i, ∃ st, s !! p = Some (FReceipt st) ∧ i = identity_of st) seen ids)).
  - split; [done|constructor].
  - intros seen [d k] rest ids s' Hsplit [-> Hall].
    assert (Hp : d = "receipts/pending" ∧ is_json k = true ∧ is_Some (s !! (d, k)))
      by (apply (proj1 Hpaths (d, k)); rewrite Hsplit; apply elem_mid).
    destruct Hp as (-> & Hj & [r Hr]).
    destruct (receipt_lookup s _ k r Hty (or_introl eq_refl) Hr) as [st ->].
    apply wp_bind, wp_read_stored_receipt; [json|kind| |].
    + intros st' Hst' _. apply wp_ret. split; [done|]. apply Forall2_app; [done|].
      constructor; [|constructor]. by exists st'.
    + intros e He. apply (He eq_refl). exists st.
      by destruct (proj1 Hinv k st (or_introl Hr)) as (_ & ? & _).
  - intros ids s' [-> Hall]. apply wp_ret. split; [done|]. by eapply pending_listed.
Qed.

(** ** The loop *)

Lemma receipt_identifiers receipt :
  validate_receipt self receipt = Ok tt →
  require_identifier "transaction_id" (tr_transaction_id receipt) = Ok tt
  ∧ require_identifier "event_id" (tr_event_id receipt) = Ok tt.
Proof.
  intros Hv. unfold validate_receipt in Hv. cbn [require_all] in Hv. outcome_inv.
  by repeat match goal with u : unit |- _ => destruct u end.
Qed.

(** The waiting receipts of a smaller number are the ones before. *)
Lemma listed_before s seen rest tx st k i :
  receipts_inv self s → lists_pending s (seen ++ identity_of st :: rest) → waits s tx k i →
  (i = tr_event_seq (sr_receipt st) → k = identity_key (identity_of st)) →
  k ∈ identity_key <$> seen ↔ i < tr_event_seq (sr_receipt st).
Proof.
  intros [Hkey _] (Hin & Hnd & Hsort) (st' & _ & Hp & _ & Hi) Huniq.
  destruct (Hkey k st' (or_introl Hp)) as (Hk & _).
  apply StronglySorted_app in Hsort as (Hcross & _ & Hrest).
  rewrite fmap_app in Hnd. apply NoDup_app in Hnd as (_ & Hnotin & _).
  assert (Hseq : (identity_of st').2 = i) by done. split.
  - intros (y & Hky & Hy)%list_elem_of_fmap.
    destruct (proj1 (Hin y) (elem_seen _ _ _ _ Hy)) as (k2 & st2 & Hst2 & ->).
    destruct (Hkey k2 st2 (or_introl Hst2)) as (Hk2 & _).
    assert (k2 = k) as -> by (rewrite Hk2, Hky; done). rewrite Hp in Hst2. injection Hst2 as <-.
    pose proof (Hcross _ (identity_of st) Hy (list_elem_of_here _ _)) as Hle.
    simpl in Hle. destruct (decide (i = tr_event_seq (sr_receipt st))) as [Heq|]; [|lia].
    destruct (Hnotin k); [by apply list_elem_of_fmap; eexists|].
    rewrite (Huniq Heq). apply list_elem_of_here.
  - intros Hlt.
    assert (Hy : identity_of st' ∈ seen ++ identity_of st :: rest) by (apply Hin; eauto).
    apply elem_of_app in Hy as [Hy|[Heq|Hy]%elem_of_cons].
    + apply list_elem_of_fmap. by exists (identity_of st').
    + assert (i = tr_event_seq (sr_receipt st)) by (rewrite <- Hseq, Heq; done). lia.
    + apply StronglySorted_inv in Hrest as [_ Hall]. rewrite Forall_forall in Hall.
      specialize (Hall _ Hy). simpl in Hall. lia.
Qed.

(** Taking in the next identity of the sorted list. *)
Lemma wp_intake_listed s ids seen x rest s' :
  receipts_inv self s → drainable s → lists_pending s ids → ids = seen ++ x :: rest →
  drained s (identity_key <$> seen) s' →
  wp true false (intake self x.1.1 x.1.2) s'
    (λ o s'', (∀ b, o ≠ Pending b) ∧ drained s (identity_key <$> (seen ++ [x])) s'') (λ _ _, False).
Proof.
  intros Hinv Hdr Hlist -> Hd. pose proof Hlist as (Hin & Hnd & _).
  pose proof (drained_inv _ _ _ Hd Hinv) as Hinv'.
  destruct (proj1 (Hin x) (elem_mid x seen rest)) as (k & st & Hst & ->). clear Hin.
  destruct (proj1 Hinv k st (or_introl Hst)) as (Hk & Hok & Hv).
  destruct (receipt_identifiers _ Hv) as [Htx Hev]. cbn [identity_of fst snd].
  rewrite fmap_app in Hnd. apply NoDup_app in Hnd as (_ & Hnotin & _).
  assert (Hfresh : k ∉ identity_key <$> seen).
  { intros Hk'. apply (Hnotin _ Hk'). rewrite Hk. apply list_elem_of_here. }
  destruct (Hd k) as [Hp Ha]. rewrite decide_False in Hp, Ha by done.
  rewrite Hst in Hp. rewrite fmap_app. cbn [fmap list_fmap].
  change (identity_key (identity_of st))
    with (receipt_key (tr_transaction_id (sr_receipt st)) (tr_event_id (sr_receipt st))).
  unfold intake. rewrite Htx, Hev. apply wp_bind, wp_lift, wp_bind, wp_lift.
  apply wp_with_lock; [|by intros ?..]. rewrite <- Hk in *.
  assert (Hadd : ∀ n o s'', intake_answer s' k n o s'' → (∀ b, o ≠ Pending b) →
            drained s ((identity_key <$> seen) ++ [k]) s'').
  { intros n o s''. apply drained_add; [done|by eexists|done]. }
  destruct (s !! applied_receipt k) as [r|] eqn:Happ.
  - apply wp_typed. intros Hty.
    destruct (receipt_lookup s' _ k r Hty (or_intror eq_refl) Ha) as [st' ->].
    pose proof (proj2 Hinv' _ _ _ Hp Ha) as <-.
    apply (wp_intake_applied self _ _ s' _ _ st); rewrite <- ?Hk; [done|done| | | |done|done].
    + intros st' Hst'. congruence.
    + intros r Hr. exists st. congruence.
    + split; [done|]. apply (Hadd 0 (Duplicate (tr_event_seq (sr_receipt st)))); [|done].
      by exists st.
  - assert (Hwaits : waits s (tr_transaction_id (sr_receipt st)) k (tr_event_seq (sr_receipt st)))
      by by exists st.
    destruct (Hdr (tr_transaction_id (sr_receipt st))) as (n & m & _ & _ & _ & Huniq).
    assert (Hseq : next_sequence s' (tr_transaction_id (sr_receipt st))
                     (tr_event_seq (sr_receipt st))).
    { eapply drained_next; [done..|]. intros k' i Hw.
      apply (listed_before _ _ _ _ st k' i Hinv Hlist Hw).
      intros ->. rewrite (Huniq _ _ _ Hw Hwaits). exact Hk. }
    pose proof (wp_intake_answers self _ (tr_event_id (sr_receipt st)) s' _ Hinv' Hseq) as Hwp.
    cbv zeta in Hwp. rewrite <- Hk in Hwp. eapply wp_mono; [exact Hwp| |].
    + intros o s'' Hans.
      assert (Ho : ∀ b, o ≠ Pending b).
      { intros b ->. destruct Hans as (st' & _ & Hp' & Hne & _). apply Hne. congruence. }
      split; [done|]. by eapply Hadd.
    + intros e s'' [_ Href]. rewrite Hp in Href. by destruct Href as [Hne _].
Qed.

(** Without I/O errors, when the pending receipts of every transaction
    continue its applied ones without a gap, [replay_pending] takes in every
    one: no outcome is a blocker, nothing stays pending, and each receipt that
    was pending is applied. *)
Theorem replay_pending_drains s w :
  rep false w s → calm_world w → receipts_inv self s → drainable s →
  ∃ outcomes w' s', replay_pending self w = (Ok outcomes, w') ∧ rep false w' s'
    ∧ Forall (λ r, ∀ b, r.2 ≠ Pending b) outcomes
    ∧ (∀ k, s' !! pending_receipt k = None)
    ∧ ∀ k st, s !! pending_receipt k = Some (FReceipt st) →
              s' !! applied_receipt k = Some (FReceipt st).
Proof.
  intros Hrep Hcalm Hinv Hdr.
  assert (Hwp : wp true false (replay_pending self) s
    (λ outcomes s', Forall (λ r, ∀ b, r.2 ≠ Pending b) outcomes
       ∧ ∃ ids, lists_pending s ids ∧ drained s (identity_key <$> ids) s') (λ _ _, False)).
  { apply wp_bind. eapply wp_mono; [by apply wp_pending_identities| |done].
    intros ids s1 [-> Hlist].
    apply (wp_mapM true (λ seen outcomes s', Forall (λ r, ∀ b, r.2 ≠ Pending b) outcomes
             ∧ drained s (identity_key <$> seen) s')).
    - split; [constructor|apply drained_nil].
    - intros seen x rest outcomes s' Hsplit [Hout Hd]. apply wp_bind.
      eapply wp_mono; [by eapply wp_intake_listed| |done].
      intros o s'' [Ho Hd']. apply wp_ret. split; [|done].
      apply Forall_app. split; [done|]. by constructor.
    - intros outcomes s' [Hout Hd]. split; [done|]. by exists ids. }
  destruct (wp_run _ _ _ _ _ w Hwp Hrep (λ _, Hcalm)) as (r & w' & s' & Hrun & Hrep' & Hpost).
  destruct r as [outcomes| | |]; [|done..].
  destruct Hpost as (Hout & ids & (Hin & _) & Hd). exists outcomes, w', s'.
  assert (Hkeys : ∀ k r, s !! pending_receipt k = Some r → k ∈ identity_key <$> ids).
  { intros k r Hr.
    destruct (receipt_lookup s _ k r (proj1 (rep_files _ _ _ Hrep)) (or_introl eq_refl) Hr)
      as [st ->].
    apply list_elem_of_fmap. exists (identity_of st). split; [|apply Hin; eauto].
    by destruct (proj1 Hinv k st (or_introl Hr)) as (-> & _). }
  split_and!; [done..| |].
  - intros k. destruct (Hd k) as [-> _]. case_decide as Hk; [done|].
    destruct (s !! pending_receipt k) as [r|] eqn:Hr; [|done]. destruct Hk. by eapply Hkeys.
  - intros k st Hp. destruct (Hd k) as [_ ->]. rewrite decide_True by by eapply Hkeys.
    destruct (s !! applied_receipt k) as [r|] eqn:Hr; [|done].
    destruct (receipt_lookup s _ k r (proj1 (rep_files _ _ _ Hrep)) (or_intror eq_refl) Hr)
      as [st' ->]. do 2 f_equal. symmetry. by eapply (proj2 Hinv).
Qed.
End Replay.
