(* ===== verification/StoreInstances.v ===== *)
(** * A concrete encoding of the records of the store

    A small model of [serde_json] for the evaluated examples of the store: a
    record is a tree of its fields, a tree is a positive number, and the text is
    its binary digits.  It satisfies the law the theorems assume.  The digest of
    [Instances] only looks at lengths; here is one that tells file names
    apart. *)

From stdpp Require Import base list strings gmap countable pretty.
From Stdlib Require Import ZArith Lia Ascii.
From S2P Require Import Prelude RustStd Externals Instances FileSystem StoreData StoreChecks Store StoreSpec.
Open Scope Z_scope.

(** ** Trees *)

Abbreviation tree := (gen_tree (string + Z)).

Class Tree (T : Type) := {
  to_tree : T → tree;
  of_tree : tree → option T;
  of_to_tree x : of_tree (to_tree x) = Some x;
}.

#[global] Instance tree_string : Tree string.
Proof.
  refine {| to_tree (s : string) := GenLeaf (inl s);
            of_tree (t : tree) := match t with GenLeaf (inl s) => Some s | _ => None end |}.
  done.
Defined.
#[global] Instance tree_Z : Tree Z.
Proof.
  refine {| to_tree (z : Z) := GenLeaf (inr z);
            of_tree (t : tree) := match t with GenLeaf (inr z) => Some z | _ => None end |}.
  done.
Defined.
#[global] Instance tree_bool : Tree bool.
Proof.
  refine {| to_tree (b : bool) := GenNode (if b then 1 else 0)%nat [];
            of_tree (t : tree) := match t with GenNode n [] => Some (bool_decide (n = 1%nat)) | _ => None end |}.
  by intros [].
Defined.
#[global] Instance tree_prod `{Tree A, Tree B} : Tree (A * B).
Proof.
  refine {| to_tree (p : A * B) := GenNode 0 [to_tree p.1; to_tree p.2];
            of_tree (t : tree) := match t with
                         | GenNode _ [a; b] => x ← of_tree a; y ← of_tree b; Some (x, y)
                         | _ => None
                         end |}.
  intros [a b]. simpl. by rewrite !of_to_tree.
Defined.
#[global] Instance tree_option `{Tree A} : Tree (option A).
Proof.
  refine {| to_tree (o : option A) := match o with Some a => GenNode 1 [to_tree a] | None => GenNode 0 [] end;
            of_tree (t : tree) := match t with
                         | GenNode _ [a] => Some <$> of_tree a
                         | GenNode _ _ => Some None
                         | _ => None
                         end |}.
  intros [a|]; simpl; [by rewrite of_to_tree|done].
Defined.
#[global] Instance tree_list `{Tree A} : Tree (list A).
Proof.
  refine {| to_tree (l : list A) := GenNode 0 (to_tree <$> l);
            of_tree (t : tree) := match t with GenNode _ ts => mapM of_tree ts | _ => None end |}.
  intros l. by apply mapM_fmap_Some, of_to_tree.
Defined.

(** A type with the fields of another. *)
Definition tree_iso `{Tree B} {A} (f : A → B) (g : B → A) (Hfg : ∀ x, g (f x) = x) : Tree A.
Proof.
  refine {| to_tree x := to_tree (f x); of_tree t := g <$> of_tree t |}.
  intros x. by rewrite of_to_tree; simpl; rewrite Hfg.
Defined.
Ltac iso f g := refine (tree_iso f g _); by intros [].

(** ** JSON values *)

Fixpoint value_tree (v : Value (H:=json_z)) : tree :=
  match v with
  | Null => GenNode 0 []
  | VBool b => GenNode 1 [to_tree b]
  | VNumber n => GenNode 2 [GenLeaf (inr n)]
  | VString s => GenNode 3 [GenLeaf (inl s)]
  | VArray vs => GenNode 4 (value_tree <$> vs)
  | VObject fs => GenNode 5 ((λ f, GenNode 6 [GenLeaf (inl f.1); value_tree f.2]) <$> fs)
  end.
Fixpoint tree_value (t : tree) : option (Value (H:=json_z)) :=
  match t with
  | GenNode 0 [] => Some Null
  | GenNode 1 [b] => VBool <$> of_tree b
  | GenNode 2 [GenLeaf (inr n)] => Some (VNumber (H:=json_z) n)
  | GenNode 3 [GenLeaf (inl s)] => Some (VString s)
  | GenNode 4 ts => VArray <$> mapM tree_value ts
  | GenNode 5 ts => VObject <$> mapM (λ t, match t with
      | GenNode _ [GenLeaf (inl k); v] => pair k <$> tree_value v
      | _ => None
      end) ts
  | _ => None
  end.

Lemma tree_value_tree v : tree_value (value_tree v) = Some v.
Proof.
  induction v as [|[]| | |vs IH|fs IH] using (Value_nested_ind (H:=json_z)); try done; simpl.
  - change (VArray <$> mapM tree_value (value_tree <$> vs) = Some (VArray vs)).
    by rewrite mapM_fmap_Forall_Some.
  - match goal with |- _ <$> mapM ?g ?ts = _ =>
      assert (mapM g ts = Some fs) as ->; [apply mapM_fmap_Forall_Some|done]
    end.
    eapply Forall_impl; [exact IH|]. intros [k v] Hv. simpl in *. by rewrite Hv.
Qed.
#[global] Instance tree_Value : Tree (Value (H:=json_z)) :=
  {| to_tree := value_tree; of_tree := tree_value; of_to_tree := tree_value_tree |}.

(** ** Text *)

Definition zero_char : ascii := ascii_of_nat 48.
Definition one_char : ascii := ascii_of_nat 49.
Fixpoint bits (p : positive) : string :=
  match p with
  | xH => EmptyString
  | xO p => String zero_char (bits p)
  | xI p => String one_char (bits p)
  end.
Fixpoint of_bits (s : string) : positive :=
  match s with
  | EmptyString => xH
  | String c s =>
      if bool_decide (c = zero_char) then xO (of_bits s)
      else if bool_decide (c = one_char) then xI (of_bits s) else xH
  end.
Lemma of_bits_bits p : of_bits (bits p +:+ newline) = p.
Proof.
  induction p as [p IH|p IH|]; [..|done].
  - change (of_bits (String one_char (bits p +:+ newline)) = p~1)%positive. simpl. by rewrite IH.
  - change (of_bits (String zero_char (bits p +:+ newline)) = p~0)%positive. simpl. by rewrite IH.
Qed.

#[global] Instance serde_tree `{Tree T} : Serde T := {|
  to_vec x := bits (encode (to_tree x));
  from_slice s := decode (of_bits s) ≫= of_tree;
  from_slice_error _ := "corrupt";
|}.
#[global] Instance serde_tree_laws `{Tree T} : SerdeLaws T.
Proof.
  intros x. unfold to_vec, from_slice, serde_tree. rewrite of_bits_bits, decode_encode. simpl.
  apply of_to_tree.
Qed.

(** ** The records *)

#[global] Instance tree_TerminalState : Tree TerminalState.
Proof.
  refine (tree_iso (λ x : TerminalState, match x with TsCompleted => 0 | TsFailed => 1 | TsCancelled => 2 | TsInterrupted => 3 end : Z)
    (λ n, if n =? 0 then TsCompleted else if n =? 1 then TsFailed else if n =? 2 then TsCancelled else TsInterrupted) _).
  by intros [].
Defined.
#[global] Instance tree_CallbackDeliveryRoute : Tree CallbackDeliveryRoute.
Proof.
  refine (tree_iso (λ x : CallbackDeliveryRoute, match x with TrustedTuraDirectThreadWriter => 0 end : Z)
    (λ n, TrustedTuraDirectThreadWriter) _).
  by intros [].
Defined.
#[global] Instance tree_ContinuationDispatchState : Tree ContinuationDispatchState.
Proof.
  refine (tree_iso (λ x : ContinuationDispatchState, match x with Prepared => 0 | DeliveryUnsettled => 1 | Dispatched => 2 | Completed => 3 | Acknowledged => 4 end : Z)
    (λ n, if n =? 0 then Prepared else if n =? 1 then DeliveryUnsettled else if n =? 2 then Dispatched else if n =? 3 then Completed else Acknowledged) _).
  by intros [].
Defined.
#[global] Instance tree_DirectDeliveryResultKind : Tree DirectDeliveryResultKind.
Proof.
  refine (tree_iso (λ x : DirectDeliveryResultKind, match x with Accepted => 0 | Reconciled => 1 end : Z)
    (λ n, if n =? 0 then Accepted else Reconciled) _).
  by intros [].
Defined.
#[global] Instance tree_IdentityFailureKind : Tree IdentityFailureKind.
Proof.
  refine (tree_iso (λ x : IdentityFailureKind, match x with CompactionFailed => 0 | TransportUncertain => 1 | CallbackPending => 2 | ReplayPending => 3 | RestartPending => 4 end : Z)
    (λ n, if n =? 0 then CompactionFailed else if n =? 1 then TransportUncertain else if n =? 2 then CallbackPending else if n =? 3 then ReplayPending else RestartPending) _).
  by intros [].
Defined.
#[global] Instance tree_CheckpointEventKind : Tree CheckpointEventKind.
Proof.
  refine (tree_iso (λ x : CheckpointEventKind, match x with CloseWrite => 0 | Modify => 1 | WatchdogReconcile => 2 end : Z)
    (λ n, if n =? 0 then CloseWrite else if n =? 1 then Modify else WatchdogReconcile) _).
  by intros [].
Defined.
#[global] Instance tree_CallbackEffectIdentity : Tree CallbackEffectIdentity.
Proof.
  refine (tree_iso (λ x, match x with
      | Exact a => (0, (a, ""))
      | ProvenZeroEffect a b => (1, (a, b))
      | UnsettledEffect a b => (2, (a, b))
      end : Z * (string * string))
    (λ x, if x.1 =? 0 then Exact x.2.1
          else if x.1 =? 1 then ProvenZeroEffect x.2.1 x.2.2
          else UnsettledEffect x.2.1 x.2.2) _).
  by intros [].
Defined.
#[global] Instance tree_ReceiptAcknowledgement : Tree ReceiptAcknowledgement.
Proof.
  iso (λ r : ReceiptAcknowledgement, (ra_schema_version r, ra_transaction_id r, ra_event_id r,
      ra_event_seq r, ra_commander_session_id r, ra_delivery_id r))
    (λ '(x0, x1, x2, x3, x4, x5),
      Build_ReceiptAcknowledgement x0 x1 x2 x3 x4 x5).
Defined.
#[global] Instance tree_ChildReadySetIdentity : Tree ChildReadySetIdentity.
Proof.
  iso (λ r : ChildReadySetIdentity, (rs_schema_version r, rs_mission_id r, rs_task_id r,
      rs_semantic_dispatch_key r, rs_parent_task_plan_sha256 r,
      rs_task_scheduling_contract_sha256 r, rs_scope_claim_sha256 r,
      rs_task_context_capsule_semantic_sha256 r, rs_read_scopes r, rs_write_scopes r,
      rs_conflict_identities r))
    (λ '(x0, x1, x2, x3, x4, x5, x6, x7, x8, x9, x10),
      Build_ChildReadySetIdentity x0 x1 x2 x3 x4 x5 x6 x7 x8 x9 x10).
Defined.
#[global] Instance tree_ChildAdmissionRecord : Tree ChildAdmissionRecord.
Proof.
  iso (λ r : ChildAdmissionRecord, (ca_schema_version r, ca_parent_session_id r,
      ca_parent_mission_revision_sha256 r, ca_commander_thread_id r, ca_callback_delivery_route r,
      ca_child_session_id r, ca_child_runtime_id r, ca_child_transaction_id r,
      ca_child_lease_id r, ca_callback_request_id r, ca_effect_id r, ca_delegated_input_sha256 r,
      ca_execution_payload_sha256 r, ca_ready_set_identity r, ca_session_directory r,
      ca_session_name r, ca_created_at_ms r))
    (λ '(x0, x1, x2, x3, x4, x5, x6, x7, x8, x9, x10, x11, x12, x13, x14, x15, x16),
      Build_ChildAdmissionRecord x0 x1 x2 x3 x4 x5 x6 x7 x8 x9 x10 x11 x12 x13 x14 x15 x16).
Defined.
#[global] Instance tree_DirectDeliveryResultEvidence : Tree DirectDeliveryResultEvidence.
Proof.
  iso (λ r : DirectDeliveryResultEvidence, (dd_kind r, dd_evidence_sha256 r))
    (λ '(x0, x1),
      Build_DirectDeliveryResultEvidence x0 x1).
Defined.
#[global] Instance tree_CommanderConvergenceProof : Tree CommanderConvergenceProof.
Proof.
  iso (λ r : CommanderConvergenceProof, (pr_schema_version r, pr_request_id r,
      pr_callback_payload_sha256 r, pr_effect_identity_sha256 r, pr_child_session_id r,
      pr_child_transaction_id r, pr_child_runtime_id r, pr_requested_action r,
      pr_target_thread_id r, pr_pre_revision_sha256 r, pr_post_revision_sha256 r,
      pr_target_turn_id r, pr_final_assistant_sha256 r))
    (λ '(x0, x1, x2, x3, x4, x5, x6, x7, x8, x9, x10, x11, x12),
      Build_CommanderConvergenceProof x0 x1 x2 x3 x4 x5 x6 x7 x8 x9 x10 x11 x12).
Defined.
#[global] Instance tree_PendingIdentityFailure : Tree PendingIdentityFailure.
Proof.
  iso (λ r : PendingIdentityFailure, (pf_commander_session_id r, pf_transaction_id r,
      pf_event_id r, pf_kind r, pf_blocker r))
    (λ '(x0, x1, x2, x3, x4),
      Build_PendingIdentityFailure x0 x1 x2 x3 x4).
Defined.
#[global] Instance tree_CheckpointEvidence : Tree CheckpointEvidence.
Proof.
  iso (λ r : CheckpointEvidence, (ce_schema_version r, ce_commander_session_id r,
      ce_child_session_id r, ce_checkpoint_id r, ce_stage r, ce_next_sequence r,
      ce_next_management_sequence r, ce_persisted_delta_sha256 r))
    (λ '(x0, x1, x2, x3, x4, x5, x6, x7),
      Build_CheckpointEvidence x0 x1 x2 x3 x4 x5 x6 x7).
Defined.
#[global] Instance tree_SlotReleaseReceipt : Tree SlotReleaseReceipt.
Proof.
  iso (λ r : SlotReleaseReceipt, (rel_schema_version r, rel_transaction_id r, rel_event_id r,
      rel_commander_session_id r, rel_child_session_id r, rel_runtime_id r, rel_lease_id r,
      rel_history_readable r, rel_follow_up_capable r))
    (λ '(x0, x1, x2, x3, x4, x5, x6, x7, x8),
      Build_SlotReleaseReceipt x0 x1 x2 x3 x4 x5 x6 x7 x8).
Defined.
#[global] Instance tree_BlockerRecord : Tree BlockerRecord.
Proof.
  iso (λ r : BlockerRecord, (br_schema_version r, br_sequence r, br_code r, br_detail r,
      br_commander_session_id r, br_transaction_id r, br_event_id r))
    (λ '(x0, x1, x2, x3, x4, x5, x6),
      Build_BlockerRecord x0 x1 x2 x3 x4 x5 x6).
Defined.
#[global] Instance tree_ReconcileRecord : Tree ReconcileRecord.
Proof.
  iso (λ r : ReconcileRecord, (rr_schema_version r, rr_source r, rr_commander_session_id r,
      rr_checkpoint_id r, rr_blocker r))
    (λ '(x0, x1, x2, x3, x4),
      Build_ReconcileRecord x0 x1 x2 x3 x4).
Defined.
#[global] Instance tree_TerminalReceipt : Tree (TerminalReceipt (H:=json_z)).
Proof.
  iso (λ r : TerminalReceipt (H:=json_z), (tr_schema_version r, tr_transaction_id r,
      tr_event_id r, tr_event_seq r, tr_commander_session_id r, tr_child_session_id r,
      tr_runtime_id r, tr_lease_id r, tr_terminal_state r, tr_finished_at_ms r, tr_task_id r,
      tr_goal_id r, tr_operator_override r, tr_history_readable r, tr_follow_up_capable r,
      tr_audit_metadata r))
    (λ '(x0, x1, x2, x3, x4, x5, x6, x7, x8, x9, x10, x11, x12, x13, x14, x15),
      Build_TerminalReceipt (H:=json_z) x0 x1 x2 x3 x4 x5 x6 x7 x8 x9 x10 x11 x12 x13 x14 x15).
Defined.
#[global] Instance tree_StoredReceipt : Tree (StoredReceipt (H:=json_z)).
Proof.
  iso (λ r : StoredReceipt (H:=json_z), (sr_schema_version r, sr_payload_sha256 r, sr_receipt r))
    (λ '(x0, x1, x2),
      Build_StoredReceipt (H:=json_z) x0 x1 x2).
Defined.
#[global] Instance tree_DurableCallbackRecord : Tree (DurableCallbackRecord (H:=json_z)).
Proof.
  iso (λ r : DurableCallbackRecord (H:=json_z), (cb_schema_version r, cb_transaction_id r,
      cb_event_id r, cb_commander_session_id r, cb_child_session_id r, cb_runtime_id r,
      cb_lease_id r, cb_terminal_receipt_sha256 r, cb_terminal_state r, cb_callback_payload r,
      cb_callback_payload_sha256 r, cb_transport_payload r, cb_transport_payload_sha256 r,
      cb_parent_mission_revision_sha256 r, cb_commander_thread_id r, cb_callback_delivery_route r,
      cb_delegated_input_sha256 r, cb_effect_identity r))
    (λ '(x0, x1, x2, x3, x4, x5, x6, x7, x8, x9, x10, x11, x12, x13, x14, x15, x16, x17),
      Build_DurableCallbackRecord (H:=json_z) x0 x1 x2 x3 x4 x5 x6 x7 x8 x9 x10 x11 x12 x13 x14
        x15 x16 x17).
Defined.
#[global] Instance tree_CallbackAcknowledgement : Tree (CallbackAcknowledgement (H:=json_z)).
Proof.
  iso (λ r : CallbackAcknowledgement (H:=json_z), (cba_schema_version r, cba_record r))
    (λ '(x0, x1),
      Build_CallbackAcknowledgement (H:=json_z) x0 x1).
Defined.
#[global] Instance tree_ContinuationDispatchRecord : Tree (ContinuationDispatchRecord (H:=json_z)).
Proof.
  iso (λ r : ContinuationDispatchRecord (H:=json_z), (cd_schema_version r, cd_request_id r,
      cd_runtime_id r, cd_lease_id r, cd_commander_session_id r, cd_child_session_id r,
      cd_child_transaction_id r, cd_child_event_id r, cd_child_runtime_id r,
      cd_callback_payload_sha256 r, cd_parent_mission_revision_sha256 r, cd_commander_thread_id r,
      cd_callback_delivery_route r, cd_delegated_input_sha256 r, cd_effect_identity r,
      cd_parent_input r, cd_requested_action r, cd_convergence_proof r,
      cd_direct_delivery_call_id r, cd_delivered_message_sha256 r, cd_direct_delivery_result r,
      cd_state r))
    (λ '(x0, x1, x2, x3, x4, x5, x6, x7, x8, x9, x10, x11, x12, x13, x14, x15, x16, x17, x18, x19,
      x20, x21),
      Build_ContinuationDispatchRecord (H:=json_z) x0 x1 x2 x3 x4 x5 x6 x7 x8 x9 x10 x11 x12 x13
        x14 x15 x16 x17 x18 x19 x20 x21).
Defined.

#[global] Instance store_text : StoreSerde (H:=json_z) := {|
  blocker_from_value _ := None;
  blocker_from_value_error _ := "corrupt";
|}.
#[global] Instance store_text_laws : StoreSerdeLaws (H:=json_z).
Proof. split; apply _. Qed.

(** ** A digest of 64 bits, in 64 digits *)

Fixpoint poly_hash (s : string) (h : Z) : Z :=
  match s with
  | EmptyString => h
  | String c s => poly_hash s (Z.land (h * 65599 + Z.of_N (N_of_ascii c) + 1) 18446744073709551615)
  end.
Definition hex_digit (n : Z) : ascii :=
  let d := n mod 16 in
  ascii_of_nat (if d <? 10 then 48 + Z.to_nat d else 87 + Z.to_nat d).
Fixpoint hex (width : nat) (n : Z) : string :=
  match width with
  | O => EmptyString
  | S width => String (hex_digit n) (hex width (n / 16))
  end.
Definition sha_poly : Sha2 := {| sha256_hex s := hex 64 (poly_hash s 0) |}.

Lemma hex_digit_lower n : is_lower_hex (hex_digit n) = true.
Proof.
  unfold hex_digit. pose proof (Z.mod_pos_bound n 16 ltac:(done)) as Hd.
  generalize dependent (n mod 16). intros d Hd.
  assert (Hall : ∀ i : nat, (i < 16)%nat →
    is_lower_hex (ascii_of_nat (if Z.of_nat i <? 10 then 48 + Z.to_nat (Z.of_nat i)
                                else 87 + Z.to_nat (Z.of_nat i))) = true).
  { intros i Hi. do 16 (destruct i as [|i]; [reflexivity|]). lia. }
  specialize (Hall (Z.to_nat d) ltac:(lia)). by rewrite Z2Nat.id in Hall by lia.
Qed.
Lemma hex_length w n : String.length (hex w n) = w.
Proof. revert n. induction w as [|w IH]; intros n; simpl; [done|by rewrite IH]. Qed.
Lemma hex_lower w n : bytes_all is_lower_hex (hex w n) = true.
Proof.
  revert n. induction w as [|w IH]; intros n; [done|].
  change (is_lower_hex (hex_digit n) && bytes_all is_lower_hex (hex w (n / 16)) = true).
  by rewrite hex_digit_lower, IH.
Qed.
#[global] Instance sha_poly_laws : Sha2Laws sha_poly.
Proof.
  split; intros s.
  - unfold len, sha256_hex, sha_poly. by rewrite hex_length.
  - apply hex_lower.
Qed.
