(* ===== verification/StoreExamples.v ===== *)
(** * A lifecycle store evaluated end to end

    Two processes write two receipts, one is taken in early and one is
    interrupted, a callback and its continuation follow, all on concrete
    instances of the external interfaces.  The theorems on the store are
    instantiated on the states of this run. *)

From stdpp Require Import base list strings gmap sets sorting pretty relations.
From Stdlib Require Import ZArith Lia Ascii.
From S2P Require Import Prelude RustStd Externals Instances TaskIdentity FileSystem StoreData.
From S2P Require Import StoreChecks Store StoreSpec StoreLogic StoreReads StoreRefine StoreSystem.
From S2P Require Import StoreInvariants StoreFacts StoreIntake StoreReceiptFacts.
From S2P Require Import StoreContinuationFacts StoreReplayFacts StoreInstances.
Open Scope Z_scope.

(** ** Running a schedule *)

Section Schedule.
Context `{SerdeJson, Sha2, !StoreSerde}.
Context (self : SessionLifecycleStore) (ids : list (string * string)).

Inductive move :=
| MCheck (r : request) (fs : list (option Fault))
| MRun (fs : list (option Fault))
| MStart (pid n : Z).

Definition among (a b : string) : Prop := (a, b) ∈ ids.
Definition uses_b (r : request) : bool :=
  match r with
  | ReqWriteReceipt receipt =>
      bool_decide ((tr_transaction_id receipt, tr_event_id receipt) ∈ ids)
  | ReqIntake tx ev => bool_decide ((tx, ev) ∈ ids)
  | _ => true
  end.

Definition exec_move (sys : System) (m : move) : System :=
  let w := sys_world sys in
  match m with
  | MCheck r fs =>
      if uses_b r then
        match check self r (w.{w_faults := fs}) with
        | (Ok _, w') => {| sys_world := w'; sys_waiting := r :: sys_waiting sys |}
        | (Err _, w') => {| sys_world := w'; sys_waiting := sys_waiting sys |}
        | _ => sys
        end
      else sys
  | MRun fs =>
      match sys_waiting sys with
      | r :: rest => {| sys_world := (closure self r (w.{w_faults := fs})).2; sys_waiting := rest |}
      | [] => sys
      end
  | MStart pid n =>
      {| sys_world := w.{w_pid := pid}.{w_next_temp := n}; sys_waiting := sys_waiting sys |}
  end.
Definition exec : System → list move → System := foldl exec_move.

Lemma uses_b_spec r : uses_b r = true → uses among r.
Proof. destruct r; simpl; try done; intros Hb; by guards. Qed.

Lemma exec_move_step sys m : rtc (sys_step self among) sys (exec_move sys m).
Proof.
  destruct sys as [w waiting], m as [r fs|fs|pid n]; simpl.
  - destruct (uses_b r) eqn:Hu; [|done].
    destruct (check self r (w.{w_faults := fs})) as [[[]|e| |] w'] eqn:Hc; [| |done..];
      apply rtc_once.
    + by apply (step_checked self among w waiting r fs w' (uses_b_spec _ Hu)).
    + by apply (step_rejected self among w waiting r fs e w').
  - destruct waiting as [|r rest]; [done|]. apply rtc_once.
    destruct (closure self r (w.{w_faults := fs})) as [result w'] eqn:Hc.
    by apply (step_closure self among w [] r rest fs result w').
  - apply rtc_once. apply step_start.
Qed.

Lemma exec_steps sys ms : rtc (sys_step self among) sys (exec sys ms).
Proof.
  revert sys. induction ms as [|m ms IH]; intros sys; [done|].
  etrans; [apply exec_move_step|apply IH].
Qed.
End Schedule.

Module StoreExample.
#[local] Existing Instances json_z json_text sha_poly.

Definition store0 : SessionLifecycleStore := {|
  sl_root := "/lifecycle"; sl_commander_session_id := "commander";
  sl_config := LifecycleConfig_default |}.
Definition machine0 : World := {|
  w_root := RootMissing; w_lock_file := false; w_locked := false; w_dirs := ∅; w_files := ∅;
  w_pid := 7; w_next_temp := 0; w_faults := [] |}.
Definition machine1 : World :=
  (open_ (sl_root store0) (sl_commander_session_id store0) (sl_config store0) machine0).2.

Definition receipt (event : string) (seq : Z) : TerminalReceipt :=
  TerminalReceipt_new {| ti_transaction_id := "tx"; ti_event_id := event; ti_event_seq := seq;
    ti_commander_session_id := "commander"; ti_child_session_id := "child";
    ti_runtime_id := "runtime"; ti_lease_id := "lease" |} TsCompleted 1000.
Definition ids : list (string * string) := [("tx", "e0"); ("tx", "e1")].

Definition sys1 : System := {| sys_world := machine1; sys_waiting := [] |}.
Definition exec0 : System → list move → System := exec store0 ids.

(** Both receipts are checked before either is written. *)
Definition sys2 : System := exec0 sys1
  [MCheck (ReqWriteReceipt (receipt "e0" 0)) []; MCheck (ReqWriteReceipt (receipt "e1" 1)) [];
   MRun []; MRun []].

(** The second receipt comes early: its blocker is the first of the store.  A
    run that fails after the file of the blocker leaves the copy missing. *)
Definition error : option Fault := Some {| fault_message := "disk"; fault_written := 3 |}.
Definition after (n : nat) : list (option Fault) := repeat None n ++ [error].
Definition early : request := ReqIntake "tx" "e1".
Definition sys3 : System := exec0 sys2 [MCheck early []; MRun []].
Definition sys3_stuck : System := exec0 sys2 [MCheck early []; MRun (after 13)].

(** The first receipt is applied, but its pending copy stays; a later process
    cleans up and takes in the second one. *)
Definition next : request := ReqIntake "tx" "e0".
Definition sys4 : System := exec0 sys3 [MCheck next []; MRun (after 12)].
Definition sys5 : System := exec0 sys4
  [MStart 8 0; MCheck next []; MRun []; MCheck early []; MRun []].

(** The callback of the first receipt, and its continuation. *)
Definition zeros : string :=
  "0000000000000000000000000000000000000000000000000000000000000000".
Definition with_writer (c : DurableCallbackRecord) : DurableCallbackRecord := {|
  cb_schema_version := cb_schema_version c; cb_transaction_id := cb_transaction_id c;
  cb_event_id := cb_event_id c; cb_commander_session_id := cb_commander_session_id c;
  cb_child_session_id := cb_child_session_id c; cb_runtime_id := cb_runtime_id c;
  cb_lease_id := cb_lease_id c; cb_terminal_receipt_sha256 := cb_terminal_receipt_sha256 c;
  cb_terminal_state := cb_terminal_state c; cb_callback_payload := cb_callback_payload c;
  cb_callback_payload_sha256 := cb_callback_payload_sha256 c;
  cb_transport_payload := cb_transport_payload c;
  cb_transport_payload_sha256 := cb_transport_payload_sha256 c;
  cb_parent_mission_revision_sha256 := cb_parent_mission_revision_sha256 c;
  cb_commander_thread_id := Some "thread";
  cb_callback_delivery_route := Some TrustedTuraDirectThreadWriter;
  cb_delegated_input_sha256 := cb_delegated_input_sha256 c;
  cb_effect_identity := cb_effect_identity c |}.
Definition callback : DurableCallbackRecord :=
  with_writer (DurableCallbackRecord_new (receipt "e0" 0) (VString "done") (VString "sent")
                 zeros zeros (Exact "effect")).
Definition sys6 : System := exec0 sys5
  [MCheck (ReqPublish callback) []; MRun [];
   MCheck (ReqMarkIntaken "tx" "e0" (cb_callback_payload_sha256 callback)) []; MRun []].

Definition ok {A} (m : LifecycleResult A) : option A := match m with Ok a => Some a | _ => None end.
Lemma continuation_exists : is_Some (ok (from_callback callback)).
Proof. vm_compute. by eexists. Qed.
Definition continuation : ContinuationDispatchRecord := is_Some_proj continuation_exists.

Definition sys7 : System := exec0 sys6 [MCheck (ReqPrepare continuation) []; MRun []].
Definition sys8 : System := exec0 sys7
  [MCheck (ReqBegin continuation "hello") []; MRun [];
   MCheck (ReqSettle continuation Accepted (VString "accepted")) []; MRun [];
   MCheck (ReqSettle continuation Reconciled (VString "reconciled")) []; MRun [];
   MCheck (ReqTransition continuation Completed) []; MRun []].

(** What the run leaves. *)
Definition stored_state (sys : System) : option ContinuationDispatchState :=
  bytes ← w_files (sys_world sys) !! record_path continuation;
  r ← from_slice (T:=ContinuationDispatchRecord) bytes;
  Some (cd_state r).
Definition json_names (sys : System) (dir : string) : nat :=
  length (names_in dir (w_files (sys_world sys))).
Example run_states :
  stored_state sys7 = Some Prepared ∧ stored_state sys8 = Some Completed
  ∧ json_names sys2 "receipts/pending" = 2%nat ∧ json_names sys3 "blockers" = 1%nat
  ∧ json_names sys4 "receipts/pending" = 2%nat ∧ json_names sys4 "receipts/applied" = 1%nat
  ∧ json_names sys5 "receipts/pending" = 0%nat ∧ json_names sys5 "receipts/applied" = 2%nat.
Proof. vm_compute. done. Qed.

(** ** The states of the run are reached *)

Abbreviation used0 := (among ids).

Lemma run_snd {A} (m : M A) w a : (m w).1 = a → m w = (a, (m w).2).
Proof. intros <-. by destruct (m w). Qed.

Lemma opened1 : opened store0 machine1.
Proof.
  exists machine0. split; [done|]. apply (run_snd _ _ (Ok store0)). vm_compute. reflexivity.
Qed.
Lemma reached_exec sys ms : reached store0 used0 sys → reached store0 used0 (exec0 sys ms).
Proof.
  intros (w1 & Ho & Hr). exists w1. split; [done|]. unfold reachable in *.
  etrans; [exact Hr|apply exec_steps].
Qed.
Lemma reached1 : reached store0 used0 sys1.
Proof. exists machine1. split; [apply opened1|apply rtc_refl]. Qed.
Lemma reached2 : reached store0 used0 sys2.
Proof. apply reached_exec, reached1. Qed.
Lemma reached3 : reached store0 used0 sys3.
Proof. apply reached_exec, reached2. Qed.
Lemma reached4 : reached store0 used0 sys4.
Proof. apply reached_exec, reached3. Qed.
Lemma reached5 : reached store0 used0 sys5.
Proof. apply reached_exec, reached4. Qed.
Lemma reached6 : reached store0 used0 sys6.
Proof. apply reached_exec, reached5. Qed.
Lemma reached7 : reached store0 used0 sys7.
Proof. apply reached_exec, reached6. Qed.
Lemma reached8 : reached store0 used0 sys8.
Proof. apply reached_exec, reached7. Qed.

Lemma reached_store sys :
  reached store0 used0 sys →
  ∃ s, rep false (sys_world sys) s ∧ store_inv store0 s.
Proof.
  intros (s & Hrep & Hev & _)%reached_simulated. exists s. split; [done|].
  by eapply evolves_empty_inv.
Qed.

Definition restart (w : World) : World := w.{w_faults := nil}.{w_pid := 9}.{w_next_temp := 0}.
Definition all_json (w : World) : bool :=
  bool_decide (map_Forall (λ (p : path) _, is_json p.2 = true) (w_files w)).
Lemma restarted_restart w : all_json w = true → restarted w (restart w).
Proof.
  intros Hj. apply bool_decide_eq_true_1 in Hj. split; [by apply calm_json|]. by exists 9, 0.
Qed.
Lemma restart_rep w s : all_json w = true → rep false w s → rep false (restart w) s.
Proof. intros Hj. by apply restarted_rep, restarted_restart. Qed.

(** A run of [next_receipt_event_sequence] tells the next number. *)
Lemma next_sequence_run w s tx n :
  rep false w s → (next_receipt_event_sequence store0 tx w).1 = Ok n → next_sequence s tx n.
Proof.
  intros Hrep Hrun.
  assert (Hwp : wp false false (next_receipt_event_sequence store0 tx) s
    (λ n s', s' = s ∧ next_sequence s tx n) (λ _ s', s' = s)).
  { unfold next_receipt_event_sequence. apply wp_bind, wp_check; [auto with store_settles| |done].
    intros _. apply wp_with_lock_read; [|by intros ? ?].
    by apply wp_next_receipt_event_sequence; [|intros ? ?]. }
  destruct (wp_run _ _ _ _ _ w Hwp Hrep ltac:(done)) as (r & w' & s' & Hr & _ & Hpost).
  rewrite Hr in Hrun. simpl in Hrun. subst r. apply Hpost.
Qed.
End StoreExample.

(** ** The theorems on the store at the states of the example run

    Each lemma instantiates one theorem of the store files at a state computed
    in [StoreExamples], with its hypotheses discharged by evaluation. *)

Import StoreExample.
#[local] Existing Instances json_z json_text sha_poly.
Open Scope Z_scope.

Definition receipt_path (d event : string) : path := (d, receipt_key "tx" event).
Definition file_of_sys (sys : System) (p : path) : string := default "" (w_files (sys_world sys) !! p).

(** Evaluates an equation between the contents of files. *)
Lemma option_string_eq (a b : option string) : bool_decide (a = b) = true → a = b.
Proof. apply bool_decide_eq_true_1. Qed.
Ltac evaluates := apply option_string_eq; vm_compute; reflexivity.

(** ** Reached states *)

Lemma store_system_refines_witness :
  ∃ s, rep false (sys_world sys6) s ∧ evolves store0 used0 ∅ s
       ∧ Forall (λ r, uses used0 r ∧ admissible store0 s r) (sys_waiting sys6).
Proof. apply (store_system_refines store0 used0 sys6). exact reached6. Defined.

Lemma files_well_typed_witness :
  ∃ r, path_kind (record_path continuation) = Some (record_kind r)
       ∧ file_of_sys sys8 (record_path continuation) = file_text r.
Proof.
  apply (files_well_typed store0 used0 sys8); [exact reached8|vm_compute; reflexivity|evaluates].
Defined.

Lemma records_written_once_witness :
  w_files (sys_world sys8) !! receipt_path "receipts/applied" "e0"
  = Some (file_of_sys sys5 (receipt_path "receipts/applied" "e0")).
Proof.
  apply (records_written_once store0 used0 sys5 sys8); [exact reached5| |by apply (bool_decide_unpack _)|vm_compute; reflexivity|evaluates].
  etrans; [|apply exec_steps]. etrans; [|apply exec_steps]. apply exec_steps.
Defined.

Lemma keys_distinct_used0 : keys_distinct used0.
Proof.
  assert (Hids : ∀ a b, used0 a b → a = "tx" ∧ (b = "e0" ∨ b = "e1")).
  { intros a b [Heq|[Heq|[]%elem_of_nil]%elem_of_cons]%elem_of_cons;
      injection Heq as -> ->; auto. }
  intros a b c d [-> Hb]%Hids [-> Hd]%Hids.
  destruct Hb as [-> | ->], Hd as [-> | ->];
    first [intros _; split; reflexivity
          |intros Hk; exfalso; vm_compute in Hk; discriminate Hk].
Qed.
Lemma applied_sequences_gapless_witness :
  ∃ s, rep false (sys_world sys5) s ∧ ∀ transaction_id, ∃ n, next_sequence s transaction_id n.
Proof.
  apply (applied_sequences_gapless store0 used0 sys5); [exact keys_distinct_used0|exact reached5].
Defined.

Lemma callbacks_stay_backed_witness :
  ∃ s, rep false (sys_world sys6) s ∧ receipts_inv store0 s ∧ callbacks_inv store0 s.
Proof. apply (callbacks_stay_backed store0 used0 sys6). exact reached6. Defined.

Lemma continuation_only_advances_witness :
  ∃ s s', rep false (sys_world sys7) s ∧ rep false (sys_world sys8) s'
    ∧ ∀ k r, s !! continuation_file k = Some (FContinuation r) →
        ∃ r', s' !! continuation_file k = Some (FContinuation r') ∧ progressed r r'.
Proof.
  apply (continuation_only_advances store0 used0 sys7 sys8); [exact reached7|apply exec_steps].
Defined.

Lemma completion_has_evidence_witness :
  ∃ s s', rep false (sys_world sys7) s ∧ rep false (sys_world sys8) s'
    ∧ ∀ k r, s !! continuation_file k = Some (FContinuation r) →
        cd_state r ≠ Completed → cd_state r ≠ Acknowledged →
        ∃ r', s' !! continuation_file k = Some (FContinuation r') ∧ rtc advance r r'
          ∧ (cd_state r' = Completed ∨ cd_state r' = Acknowledged → completion_rests r').
Proof.
  apply (completion_has_evidence store0 used0 sys7 sys8); [exact reached7|apply exec_steps].
Defined.

Lemma blocker_journal_contiguous_witness :
  ∃ s, rep false (sys_world sys3) s ∧ ∃ older newer, journal s older newer.
Proof. apply (blocker_journal_contiguous store0 used0 sys3). exact reached3. Defined.

Lemma operations_settle_witness :
  ∃ s, rep false (sys_world sys2) s
    ∧ ∃ result w', operation store0 early (sys_world sys2).{w_faults := after 13} = (result, w')
      ∧ (result = Ok tt ∨ ∃ e, result = Err e)
      ∧ w_locked w' = false ∧ ∃ s', rep false w' s' ∧ evolves store0 used0 s s'.
Proof.
  destruct (reached_store sys2 reached2) as (s & Hrep & _). exists s. split; [exact Hrep|].
  apply (operations_settle store0 used0 early); [by apply rep_faults|].
  apply uses_b_spec. vm_compute. reflexivity.
Defined.

(** ** Receipts *)

Lemma intake_answers_witness :
  ∃ s result w' s', rep false (restart (sys_world sys4)) s
    ∧ intake store0 "tx" "e1" (restart (sys_world sys4)) = (result, w') ∧ rep false w' s'
    ∧ match result with
      | Ok o => intake_answer s (receipt_key "tx" "e1") 1 o s'
      | Err e => intake_refusal s (receipt_key "tx" "e1") 1 e s'
      | _ => False
      end.
Proof.
  destruct (reached_store sys4 reached4) as (s & Hrep & Hinv).
  assert (Hrep' : rep false (restart (sys_world sys4)) s)
    by (apply restart_rep; [vm_compute; reflexivity|exact Hrep]).
  destruct (intake_answers store0 "tx" "e1" s 1 (restart (sys_world sys4))) as (r & w' & s' & H');
    [vm_compute; reflexivity..|exact Hrep'| |apply Hinv| |].
  - apply restarted_restart with (w := sys_world sys4). vm_compute. reflexivity.
  - apply (next_sequence_run _ _ _ _ Hrep'). vm_compute. reflexivity.
  - exists s, r, w', s'. split; [exact Hrep'|exact H'].
Defined.

(** The interrupted intake of the run, and its repetition. *)
Definition interrupted : World := (intake store0 "tx" "e0" (sys_world sys3).{w_faults := after 10}).2.
Definition stored_e0 : StoredReceipt := stored_receipt (receipt "e0" 0).
Lemma intake_recovers_witness :
  ∃ o w3 s3, intake store0 "tx" "e0" (restart interrupted) = (Ok o, w3) ∧ rep false w3 s3
    ∧ (o = Applied 0 ∨ o = Duplicate 0)
    ∧ s3 !! receipt_path "receipts/applied" "e0" = Some (FReceipt stored_e0)
    ∧ s3 !! receipt_path "receipts/pending" "e0" = None.
Proof.
  destruct (reached_store sys3 reached3) as (s & Hrep & Hinv).
  apply (intake_recovers store0 "tx" "e0" s stored_e0 (sys_world sys3).{w_faults := after 10}
           (intake store0 "tx" "e0" (sys_world sys3).{w_faults := after 10}).1 interrupted).
  - vm_compute. reflexivity.
  - vm_compute. reflexivity.
  - apply Hinv.
  - by apply rep_faults.
  - apply (rep_no_file _ _ _ _ Hrep). vm_compute. reflexivity.
  - apply (rep_file _ _ _ _ _ Hrep); [vm_compute; reflexivity..|evaluates].
  - apply (next_sequence_run _ _ _ _ Hrep). vm_compute. reflexivity.
  - unfold interrupted. by destruct (intake _ _ _ _).
  - apply restarted_restart. vm_compute. reflexivity.
Defined.

Definition written : World := (write_terminal_receipt store0 (receipt "e0" 0)
    (sys_world sys1).{w_faults := nil}).2.
Definition sys_written : System :=
  exec0 {| sys_world := written; sys_waiting := sys_waiting sys1 |} [MCheck next []; MRun (after 12)].
Lemma written_receipt_is_durable_witness :
  ∃ receipt' w3,
    terminal_receipt store0 "tx" "e0" (restart (sys_world sys_written)) = (Ok receipt', w3)
    ∧ TerminalReceipt_eqb receipt' (receipt "e0" 0) = true.
Proof.
  apply (written_receipt_is_durable store0 used0 (receipt "e0" 0) sys1 []
           (ReceiptWritten (receipt_path "receipts/pending" "e0")) written sys_written).
  - exact reached1.
  - apply list_elem_of_here.
  - unfold written. apply run_snd. vm_compute. reflexivity.
  - apply exec_steps.
  - apply restarted_restart. vm_compute. reflexivity.
Defined.

Lemma next_sequence_computed_witness :
  ∃ s result w', next_receipt_event_sequence store0 "tx" (restart (sys_world sys5)) = (result, w')
    ∧ rep false w' s ∧ (∀ n, result = Ok n ↔ next_sequence s "tx" n)
    ∧ ((¬ ∃ n, next_sequence s "tx" n) → ∃ e, result = Err e).
Proof.
  destruct (reached_store sys5 reached5) as (s & Hrep & Hinv). exists s.
  assert (Hj : all_json (sys_world sys5) = true) by (vm_compute; reflexivity).
  apply (next_sequence_computed store0 "tx" s).
  - vm_compute. reflexivity.
  - by apply restart_rep.
  - by apply (restarted_restart (sys_world sys5)).
  - apply Hinv.
Defined.

(** ** Blockers, names and writes *)

Lemma rep_lock w s : rep false w s → rep true (w.{w_locked := true}) s.
Proof. by intros []; split. Qed.

Lemma calm_lock w : calm_world w → calm_world (w.{w_locked := true}).
Proof. done. Qed.

Lemma blocker_joins_journal_witness :
  ∃ older newer s result w' s',
    journal s older newer
    ∧ write_blocker_unlocked store0 (blocker "LIVE_TOOL_CALL_REMAINS" "1") None None
        (restart (sys_world sys3)).{w_locked := true} = (result, w')
    ∧ rep true w' s'
    ∧ match journal_entry store0 older newer (blocker "LIVE_TOOL_CALL_REMAINS" "1") None None with
      | Ok entry => result = Ok tt ∧ s' = journal_store s entry
      | Err e => result = Err e ∧ s' = s
      | _ => False
      end.
Proof.
  destruct (reached_store sys3 reached3) as (s & Hrep & Hinv).
  destruct (inv_journal _ _ Hinv) as (older & newer & Hj). exists older, newer, s.
  assert (Hall : all_json (sys_world sys3) = true) by (vm_compute; reflexivity).
  destruct (blocker_joins_journal store0 (blocker "LIVE_TOOL_CALL_REMAINS" "1") None None
              older newer s (restart (sys_world sys3)).{w_locked := true})
    as (result & w' & s' & Hpost).
  - exact Hj.
  - intros ->. destruct Hj as (_ & _ & _ & Hlast). simpl in Hlast.
    destruct (rep_files _ _ _ Hrep) as [_ Hf].
    specialize (Hf last_blocker_path eq_refl). rewrite Hlast in Hf.
    assert (Hsome : is_Some (w_files (sys_world sys3) !! last_blocker_path))
      by (apply (bool_decide_unpack _); vm_compute; exact I).
    rewrite Hf in Hsome. by destruct Hsome.
  - by apply rep_lock, restart_rep.
  - by apply calm_lock, (restarted_restart (sys_world sys3)).
  - exists result, w', s'. split; [exact Hj|exact Hpost].
Defined.

(** The interrupted first blocker of the run cannot be recorded again. *)
Definition stuck : World := restart (sys_world sys3_stuck).
Definition early_blocker : LifecycleBlocker :=
  blocker "RECEIPT_EVENT_OUT_OF_ORDER" "expected=0,received=1".
Lemma interrupted_first_blocker_sticks_witness :
  ∃ e w', write_blocker_unlocked store0 early_blocker (Some "tx") (Some "e1") stuck = (Err e, w')
    ∧ w_files w' = w_files stuck
    ∧ (w_faults stuck = [] → "blockers" ∈ w_dirs stuck →
       e = blocker "BLOCKER_HIGH_WATER_MISSING" (display_dir store0 "blockers")).
Proof.
  apply (interrupted_first_blocker_sticks store0 early_blocker (Some "tx") (Some "e1") stuck).
  - vm_compute. reflexivity.
  - intros Hn. apply (f_equal length) in Hn. vm_compute in Hn. discriminate Hn.
Defined.

Definition failing : World := machine1.{w_faults := after 5}.
Lemma durable_write_atomic_witness :
  ∃ result w', durable_write ("readback", "x.json") "text" failing = (result, w')
    ∧ settles result
    ∧ (∀ q : path, is_json q.2 = true → q ≠ ("readback", "x.json") →
         w_files w' !! q = w_files failing !! q)
    ∧ (w_files w' !! ("readback", "x.json") = Some "text"
       ∨ (result ≠ Ok tt
          ∧ w_files w' !! ("readback", "x.json") = w_files failing !! ("readback", "x.json")))
    ∧ w_root w' = RootDirectory ∧ w_locked w' = w_locked failing ∧ w_dirs failing ⊆ w_dirs w'.
Proof.
  apply (durable_write_atomic ("readback", "x.json") "text" failing);
    vm_compute; reflexivity.
Defined.

(** ** Continuations *)

Definition begun : World :=
  (begin_callback_continuation_direct_delivery store0 continuation "hello"
    (sys_world sys7).{w_faults := nil}).2.
Definition sys_settled : System :=
  exec0 {| sys_world := begun; sys_waiting := sys_waiting sys7 |}
    [MCheck (ReqSettle continuation Accepted (VString "accepted")) []; MRun []].
Definition begun_again : World :=
  (begin_callback_continuation_direct_delivery store0 continuation "hello"
    (sys_world sys_settled).{w_faults := nil}).2.
Lemma delivery_begins_once_witness :
  begin_callback_continuation_direct_delivery store0 continuation "hello"
    (sys_world sys_settled).{w_faults := nil} = (Ok CwAlreadyDispatched, begun_again)
  ∧ CwAlreadyDispatched ≠ CwPrepared.
Proof.
  assert (Hagain : begin_callback_continuation_direct_delivery store0 continuation "hello"
    (sys_world sys_settled).{w_faults := nil} = (Ok CwAlreadyDispatched, begun_again))
    by (unfold begun_again; apply run_snd; vm_compute; reflexivity).
  split; [exact Hagain|].
  eapply (delivery_begins_once store0 used0 sys7 [] continuation "hello" begun sys_settled [])
    ; [exact reached7| | |exact Hagain|reflexivity].
  - unfold begun. apply run_snd. vm_compute. reflexivity.
  - apply exec_steps.
Defined.

Lemma completion_proven_sound_witness :
  ∃ s, completion_witnessed store0 s continuation.
Proof.
  destruct (reached_store sys8 reached8) as (s & Hrep & _). exists s.
  destruct (completion_proven_sound store0 continuation (sys_world sys8) s
    (callback_continuation_completion_proven store0 continuation (sys_world sys8)).1
    (callback_continuation_completion_proven store0 continuation (sys_world sys8)).2)
    as [_ Hproven]; [exact Hrep|by destruct (callback_continuation_completion_proven _ _ _)|].
  apply Hproven. vm_compute. reflexivity.
Defined.

Definition idle : LiveEffectEvidence := {|
  le_runtime_worker_alive := false; le_active_tool_calls := 0; le_active_command_runs := 0;
  le_live_effect_processes := 0; le_pending_init := false |}.
Lemma slot_release_needs_idle_witness :
  ∃ s s', rep false (sys_world sys5) s
    ∧ rep false (reclaim_terminal_slot store0 "tx" "e0" idle (sys_world sys5)).2 s'
    ∧ ∃ st, s !! receipt_path "receipts/applied" "e0" = Some (FReceipt st)
      ∧ reclaim_blocker idle = None
      ∧ s' !! receipt_path "slots/released" "e0"
        = Some (FRelease (slot_release "tx" "e0" (sr_receipt st))).
Proof.
  destruct (reached_store sys5 reached5) as (s & Hrep & _). exists s.
  destruct (slot_release_needs_idle store0 "tx" "e0" idle (sys_world sys5) s
    (reclaim_terminal_slot store0 "tx" "e0" idle (sys_world sys5)).1
    (reclaim_terminal_slot store0 "tx" "e0" idle (sys_world sys5)).2) as (s' & Hrep' & Ho & _);
    [exact Hrep|by destruct (reclaim_terminal_slot _ _ _ _ _)|].
  exists s'. split_and!; [exact Hrep|exact Hrep'|].
  apply (Ho Released). vm_compute. reflexivity.
Defined.

Lemma continuation_of_callback_prepared_witness :
  ∃ s r w', from_callback callback = Ok r
    ∧ prepare_callback_continuation store0 r (restart (sys_world sys6)) = (Ok CwPrepared, w')
    ∧ rep false w' (<[continuation_file (receipt_key "tx" "e0") := FContinuation r]> s).
Proof.
  destruct (reached_store sys6 reached6) as (s & Hrep & Hinv). exists s.
  assert (Hall : all_json (sys_world sys6) = true) by (vm_compute; reflexivity).
  assert (Hin : s !! receipt_path "callbacks/intaken" "e0" = Some (FCallback callback))
    by (apply (rep_file _ _ _ _ _ Hrep); [vm_compute; reflexivity..|evaluates]).
  destruct (proj1 (inv_callbacks _ _ Hinv) _ _ (or_intror Hin)) as (_ & Hback & Hw).
  apply (continuation_of_callback_prepared store0 callback s (restart (sys_world sys6))).
  - by apply restart_rep.
  - by apply (restarted_restart (sys_world sys6)).
  - exact Hin.
  - exact Hback.
  - exact Hw.
  - vm_compute. reflexivity.
  - apply (rep_no_file _ _ _ _ Hrep). vm_compute. reflexivity.
Defined.

(** ** Draining *)

(** The receipts of the run before any intake. *)
Definition key (event : string) : string := receipt_key "tx" event.
Lemma sys2_files (p : path) b :
  w_files (sys_world sys2) !! p = Some b →
  p = ("receipts/pending", key "e0") ∨ p = ("receipts/pending", key "e1").
Proof.
  assert (Hall : map_Forall (λ p (_ : string),
    p = ("receipts/pending", key "e0") ∨ p = ("receipts/pending", key "e1"))
    (w_files (sys_world sys2))) by (apply (bool_decide_unpack _); vm_compute; exact I).
  intros Hb. exact (Hall p b Hb).
Qed.

Lemma sys2_drainable s : rep false (sys_world sys2) s → well_typed s → drainable s.
Proof.
  intros Hrep Hty.
  assert (Hpath : ∀ p r, s !! p = Some r →
    p = ("receipts/pending", key "e0") ∨ p = ("receipts/pending", key "e1")).
  { intros p r Hp. destruct (rep_files _ _ _ Hrep) as [_ Hf]. destruct (Hty _ _ Hp) as [_ Hj].
    specialize (Hf p Hj). rewrite Hp in Hf. by apply sys2_files in Hf. }
  assert (Hnone : ∀ k, s !! applied_receipt k = None).
  { intros k. destruct (s !! applied_receipt k) eqn:Hk; [|done]. by destruct (Hpath _ _ Hk). }
  assert (He0 : s !! pending_receipt (key "e0") = Some (FReceipt (stored_receipt (receipt "e0" 0))))
    by (apply (rep_file _ _ _ _ _ Hrep); [vm_compute; reflexivity..|evaluates]).
  assert (He1 : s !! pending_receipt (key "e1") = Some (FReceipt (stored_receipt (receipt "e1" 1))))
    by (apply (rep_file _ _ _ _ _ Hrep); [vm_compute; reflexivity..|evaluates]).
  assert (Hne : key "e0" ≠ key "e1") by (intros Hk; vm_compute in Hk; discriminate Hk).
  assert (Hw : ∀ tx k i, waits s tx k i ↔
    tx = "tx" ∧ ((k = key "e0" ∧ i = 0) ∨ (k = key "e1" ∧ i = 1))).
  { intros tx k i. split.
    - intros (st & _ & Hst & <- & <-).
      destruct (Hpath _ _ Hst) as [Hk|Hk]; apply (f_equal snd) in Hk; cbn [snd] in Hk;
        subst k; [rewrite He0 in Hst|rewrite He1 in Hst]; injection Hst as <-;
        (split; [reflexivity|]); [left|right]; split; reflexivity.
    - intros [-> [[-> ->]|[-> ->]]]; eexists; (split; [apply Hnone|]);
        [split; [exact He0|]|split; [exact He1|]]; split; reflexivity. }
  assert (Hzero : ∀ tx, next_sequence s tx 0).
  { intros tx. split_and!; [done| |].
    - intros i. split; [|lia]. intros (k & st & Hst & _). by rewrite Hnone in Hst.
    - intros k1 k2 i (st & Hst & _). by rewrite Hnone in Hst. }
  intros tx. destruct (decide (tx = "tx")) as [->|Htx].
  - exists 0, 2. split_and!; [apply Hzero|lia| |].
    + intros i. setoid_rewrite Hw. split.
      * intros (k & _ & [[_ ->]|[_ ->]]); lia.
      * intros Hi. destruct (decide (i = 0)) as [->|]; [exists (key "e0"); auto|].
        assert (i = 1) as -> by lia. exists (key "e1"). auto.
    + intros k1 k2 i. rewrite !Hw. intros (_ & [[-> ->]|[-> ->]]) (_ & [[-> ?]|[-> ?]]);
        first [reflexivity|lia].
  - exists 0, 0. split_and!; [apply Hzero|lia| |].
    + intros i. setoid_rewrite Hw. split; [by intros (k & ? & _)|lia].
    + intros k1 k2 i. rewrite !Hw. by intros [? _].
Qed.

Lemma replay_pending_drains_witness :
  ∃ (s : store) outcomes w' (s' : store), replay_pending store0 (restart (sys_world sys2)) = (Ok outcomes, w')
    ∧ rep false w' s' ∧ Forall (λ r, ∀ b, r.2 ≠ Pending b) outcomes
    ∧ (∀ k, s' !! pending_receipt k = None)
    ∧ ∀ k st, s !! pending_receipt k = Some (FReceipt st) →
              s' !! applied_receipt k = Some (FReceipt st).
Proof.
  destruct (reached_store sys2 reached2) as (s & Hrep & Hinv). exists s.
  assert (Hall : all_json (sys_world sys2) = true) by (vm_compute; reflexivity).
  apply (replay_pending_drains store0 s (restart (sys_world sys2))).
  - by apply restart_rep.
  - by apply (restarted_restart (sys_world sys2)).
  - apply Hinv.
  - apply sys2_drainable; [exact Hrep|apply (rep_files _ _ _ Hrep)].
Defined.
