(* ===== verification/RustText.v ===== *)
(** * Text and characters: the rest of [str] and [char] the payload uses

    [RustStd] treats strings as UTF-8 bytes.  The contract layer also walks
    over characters, splits on separators and strips affixes.  A [char] is the
    string of its encoding: the bytes from one leading byte to the next. *)

From stdpp Require Import base list strings gmap sorting.
From Stdlib Require Import ZArith Lia Ascii.
From S2P Require Import Prelude RustStd.
Open Scope Z_scope.

(** ** Splitting and affixes *)

(** [str::split(c)] on an ASCII separator. *)
Fixpoint split_char (c : ascii) (s : string) : list string :=
  match s with
  | EmptyString => [EmptyString]
  | String a s' =>
      if Ascii.eqb a c then EmptyString :: split_char c s'
      else match split_char c s' with
           | part :: rest => String a part :: rest
           | [] => [String a EmptyString]
           end
  end.
(** [slice.join(separator)]. *)
Definition join (separator : string) (parts : list string) : string :=
  String.concat separator parts.

(** [str::contains(c)] for an ASCII character. *)
Fixpoint has_char (c : ascii) (s : string) : bool :=
  match s with
  | EmptyString => false
  | String a s' => Ascii.eqb a c || has_char c s'
  end.
(** [str::contains(['a', 'b', ...])]. *)
Definition has_any (chars : list ascii) (s : string) : bool :=
  existsb (λ c, has_char c s) chars.

(** [str::strip_prefix], [str::strip_suffix]. *)
Fixpoint strip_prefix (prefix s : string) : option string :=
  match prefix, s with
  | EmptyString, _ => Some s
  | String a p, String b s' => if Ascii.eqb a b then strip_prefix p s' else None
  | String _ _, EmptyString => None
  end.
Fixpoint strip_suffix (suffix s : string) : option string :=
  if bool_decide (s = suffix) then Some EmptyString else
  match s with
  | EmptyString => None
  | String a s' => String a <$> strip_suffix suffix s'
  end.
Definition starts_with (prefix s : string) : bool :=
  match strip_prefix prefix s with Some _ => true | None => false end.
Definition ends_with (suffix s : string) : bool :=
  match strip_suffix suffix s with Some _ => true | None => false end.
(** [str::trim_start_matches(c)]. *)
Fixpoint trim_start_char (c : ascii) (s : string) : string :=
  match s with
  | EmptyString => EmptyString
  | String a s' => if Ascii.eqb a c then trim_start_char c s' else s
  end.

Lemma strip_prefix_Some prefix s r : strip_prefix prefix s = Some r ↔ s = prefix +:+ r.
Proof.
  revert s. induction prefix as [|a p IH]; intros s; simpl.
  - split; [by intros [= ->]|by intros ->].
  - destruct s as [|b s]; [done|]. destruct (Ascii.eqb_spec a b) as [->|Hne].
    + rewrite IH. split; [by intros ->|by intros [= ->]].
    + split; [done|]. by intros [= <- _].
Qed.

Lemma strip_suffix_Some suffix s r : strip_suffix suffix s = Some r → s = r +:+ suffix.
Proof.
  revert r. induction s as [|a s IH]; intros r; simpl; case_bool_decide as Heq.
  - by intros [= <-].
  - done.
  - by intros [= <-].
  - destruct (strip_suffix suffix s) as [r'|]; [|done]. simpl. intros [= <-].
    by rewrite (IH r' eq_refl).
Qed.

Lemma length_append (s t : string) :
  String.length (s +:+ t) = (String.length s + String.length t)%nat.
Proof. induction s as [|a s IH]; simpl; [done|]. by rewrite <- IH. Qed.

Lemma strip_suffix_append suffix r : strip_suffix suffix (r +:+ suffix) = Some r.
Proof.
  induction r as [|a r IH].
  - change ("" +:+ suffix) with suffix.
    destruct suffix; cbn [strip_suffix]; by rewrite bool_decide_eq_true_2.
  - change (String a r +:+ suffix) with (String a (r +:+ suffix)). simpl.
    rewrite bool_decide_eq_false_2; [by rewrite IH|].
    intros Heq. apply (f_equal String.length) in Heq. simpl in Heq.
    rewrite length_append in Heq. lia.
Qed.

Lemma ends_with_spec suffix s : ends_with suffix s = true ↔ ∃ r, s = r +:+ suffix.
Proof.
  unfold ends_with. split.
  - destruct (strip_suffix suffix s) as [r|] eqn:Hs; [|done]. intros _.
    exists r. by apply strip_suffix_Some.
  - intros [r ->]. by rewrite strip_suffix_append.
Qed.

Lemma starts_with_spec prefix s : starts_with prefix s = true ↔ ∃ r, s = prefix +:+ r.
Proof.
  unfold starts_with. split.
  - destruct (strip_prefix prefix s) as [r|] eqn:Hs; [|done]. intros _.
    exists r. by apply strip_prefix_Some.
  - intros [r Hr]. by apply strip_prefix_Some in Hr as ->.
Qed.

Lemma replace_char_none c d s : has_char c s = false → replace_char c d s = s.
Proof.
  unfold replace_char. induction s as [|a s IH]; simpl; [done|].
  intros [Ha Hs]%orb_false_iff. by rewrite Ha, IH.
Qed.
Lemma has_char_replaced c d s : Ascii.eqb d c = false → has_char c (replace_char c d s) = false.
Proof.
  intros Hd. unfold replace_char. induction s as [|a s IH]; simpl; [done|]. rewrite IH.
  destruct (Ascii.eqb a c) eqn:Ha; by rewrite ?Hd, ?Ha.
Qed.
Lemma split_char_nonempty c s : split_char c s ≠ [].
Proof. destruct s as [|a s]; simpl; [done|]. case_match; [done|]. by case_match. Qed.

Lemma has_char_append c s t : has_char c (s +:+ t) = has_char c s || has_char c t.
Proof. induction s as [|a s IH]; simpl; [done|]. by rewrite <- orb_assoc, <- IH. Qed.

Lemma split_char_parts c s : Forall (λ part, has_char c part = false) (split_char c s).
Proof.
  induction s as [|a s IH]; simpl; [by repeat constructor|].
  destruct (Ascii.eqb a c) eqn:Ha; [by constructor|].
  destruct (split_char c s) as [|part rest]; [constructor; [|done]|].
  - simpl. by rewrite Ha.
  - inversion IH; subst. constructor; [|done]. simpl. by rewrite Ha.
Qed.

Lemma split_char_none c s : has_char c s = false → split_char c s = [s].
Proof.
  induction s as [|a s IH]; simpl; [done|]. intros [Ha Hs]%orb_false_iff.
  rewrite Ha, (IH Hs). done.
Qed.

Lemma split_char_append c s t :
  has_char c s = false → split_char c (s +:+ String c t) = s :: split_char c t.
Proof.
  induction s as [|a s IH]; simpl.
  - intros _. by rewrite Ascii.eqb_refl.
  - intros [Ha Hs]%orb_false_iff. rewrite Ha, (IH Hs). done.
Qed.

Lemma split_char_join c parts :
  parts ≠ [] → Forall (λ part, has_char c part = false) parts →
  split_char c (join (String c EmptyString) parts) = parts.
Proof.
  intros Hne Hall. induction Hall as [|part rest Hpart Hrest IH]; [done|].
  destruct rest as [|part' rest].
  - by apply split_char_none.
  - change (join (String c "") (part :: part' :: rest))
      with (part +:+ String c (join (String c "") (part' :: rest))).
    rewrite split_char_append by done. by rewrite IH.
Qed.

(** ** Characters *)

(** The length of an encoding, from its leading byte. *)
Definition char_len (a : ascii) : nat :=
  let n := nat_of_ascii a in
  if (194 <=? n)%nat && (n <? 224)%nat then 2%nat
  else if (224 <=? n)%nat && (n <? 240)%nat then 3%nat
  else if (240 <=? n)%nat && (n <? 245)%nat then 4%nat
  else 1%nat.

(** [need] more bytes complete the character that started with [cur]. *)
Fixpoint chars_from (need : nat) (cur s : string) : list string :=
  match s with
  | EmptyString => match need with O => [] | S _ => [cur] end
  | String a s' =>
      match need with
      | S O => (cur +:+ String a EmptyString) :: chars_from 0 EmptyString s'
      | S k => chars_from k (cur +:+ String a EmptyString) s'
      | O =>
          match char_len a with
          | S (S k) => chars_from (S k) (String a EmptyString) s'
          | _ => String a EmptyString :: chars_from 0 EmptyString s'
          end
      end
  end.
(** [str::chars]. *)
Definition chars (s : string) : list string := chars_from 0 EmptyString s.

(** A text that does not end inside a character; every Rust [str] is one. *)
Fixpoint complete_from (need : nat) (s : string) : bool :=
  match s with
  | EmptyString => (need =? 0)%nat
  | String a s' =>
      complete_from (match need with S k => k | O => pred (char_len a) end) s'
  end.
Definition complete (s : string) : bool := complete_from 0 s.

(** [char::is_whitespace], [char::is_control]. *)
Definition is_whitespace (c : string) : bool := negb (is_empty c) && is_blank c.
Definition is_control (c : string) : bool :=
  match c with
  | String a EmptyString => let n := nat_of_ascii a in ((n <? 32) || (n =? 127))%nat
  | String a (String b EmptyString) =>
      let n := nat_of_ascii b in ((nat_of_ascii a =? 194) && (128 <=? n) && (n <? 160))%nat
  | _ => false
  end.
(** The code point of a character. *)
Definition code_point (c : string) : Z :=
  let byte (a : ascii) := Z.of_nat (nat_of_ascii a) in
  match c with
  | String a EmptyString => byte a
  | String a (String b EmptyString) => (byte a - 192) * 64 + (byte b - 128)
  | String a (String b (String d EmptyString)) =>
      (byte a - 224) * 4096 + (byte b - 128) * 64 + (byte d - 128)
  | String a (String b (String d (String e EmptyString))) =>
      (byte a - 240) * 262144 + (byte b - 128) * 4096 + (byte d - 128) * 64 + (byte e - 128)
  | _ => 0
  end.

Lemma chars_from_concat need cur s :
  (need = 0%nat → cur = EmptyString) →
  String.concat "" (chars_from need cur s) = cur +:+ s.
Proof.
  assert (Hcons : ∀ x l, String.concat "" (x :: l) = x +:+ String.concat "" l).
  { intros x [|y l]; [symmetry; apply append_empty|done]. }
  revert need cur. induction s as [|a s IH]; intros need cur Hcur.
  - destruct need; simpl; [|by rewrite append_empty]. by rewrite Hcur.
  - destruct need as [|[|k]].
    + rewrite Hcur by done. cbn [chars_from].
      destruct (char_len a) as [|[|k]]; [rewrite Hcons, IH by done; done..|].
      rewrite IH by done. done.
    + cbn [chars_from]. rewrite Hcons, IH by done.
      rewrite append_assoc. done.
    + cbn [chars_from]. rewrite IH by done. rewrite append_assoc. done.
Qed.
Lemma chars_concat s : String.concat "" (chars s) = s.
Proof. unfold chars. by rewrite chars_from_concat. Qed.

Lemma chars_from_append need cur s t :
  complete_from need s = true →
  chars_from need cur (s +:+ t) = chars_from need cur s ++ chars t.
Proof.
  revert need cur. induction s as [|a s IH]; intros need cur Hs.
  - simpl in Hs. apply Nat.eqb_eq in Hs as ->. simpl.
    unfold chars. destruct t; reflexivity.
  - change (String a s +:+ t) with (String a (s +:+ t)).
    destruct need as [|[|k]]; cbn [chars_from complete_from] in *.
    + destruct (char_len a) as [|[|k]]; simpl in Hs; rewrite IH by done; done.
    + rewrite IH by done. done.
    + by rewrite IH.
Qed.
Lemma chars_append s t : complete s = true → chars (s +:+ t) = chars s ++ chars t.
Proof. apply chars_from_append. Qed.

Lemma complete_append s t :
  complete s = true → complete t = true → complete (s +:+ t) = true.
Proof.
  unfold complete. generalize 0%nat at 1 3. intros n. revert n.
  induction s as [|a s IH]; intros n; simpl.
  - intros ->%Nat.eqb_eq. done.
  - apply IH.
Qed.

(** An ASCII character stands for itself. *)
Definition ascii_char (a : ascii) : string := String a EmptyString.
Lemma chars_ascii a s :
  (nat_of_ascii a < 194)%nat → chars (String a s) = ascii_char a :: chars s.
Proof.
  intros Ha. unfold chars. simpl.
  replace (char_len a) with 1%nat; [done|]. unfold char_len.
  replace (194 <=? nat_of_ascii a)%nat with false by (symmetry; apply Nat.leb_gt; lia).
  replace (224 <=? nat_of_ascii a)%nat with false by (symmetry; apply Nat.leb_gt; lia).
  replace (240 <=? nat_of_ascii a)%nat with false by (symmetry; apply Nat.leb_gt; lia).
  done.
Qed.
Lemma complete_ascii a : (nat_of_ascii a < 194)%nat → complete (ascii_char a) = true.
Proof.
  intros Ha. unfold complete, ascii_char. simpl. unfold char_len.
  replace (194 <=? nat_of_ascii a)%nat with false by (symmetry; apply Nat.leb_gt; lia).
  replace (224 <=? nat_of_ascii a)%nat with false by (symmetry; apply Nat.leb_gt; lia).
  replace (240 <=? nat_of_ascii a)%nat with false by (symmetry; apply Nat.leb_gt; lia).
  done.
Qed.

Example chars_example :
  chars (String.string_of_list_ascii (ascii_of_nat <$> [97; 226; 130; 172; 98]%nat))
  = ["a"; String.string_of_list_ascii (ascii_of_nat <$> [226; 130; 172]%nat); "b"]%string.
Proof. vm_compute. done. Qed.

(** ** Searching, trimming and comparing texts: more of [str]

    Substring search by byte offset, trimming of chosen characters, splitting
    at a character, comparison up to ASCII case, and the reading of single
    bytes as characters ([u8 as char]).  [plain_text] says of a text that all
    its bytes are ASCII; then every byte is a character. *)

Local Open Scope nat_scope.

(** ** Searching *)

(** [str::find(pattern)]: the byte offset of the first occurrence. *)
Fixpoint find_text (pattern s : string) : option nat :=
  if starts_with pattern s then Some 0 else
  match s with
  | EmptyString => None
  | String _ s' => S <$> find_text pattern s'
  end.
(** [str::contains(pattern)]. *)
Definition contains_text (pattern s : string) : bool :=
  match find_text pattern s with Some _ => true | None => false end.

(** [&s[..n]] and [&s[n..]] at a character boundary. *)
Fixpoint text_take (n : nat) (s : string) : string :=
  match n, s with
  | S n, String a s' => String a (text_take n s')
  | _, _ => EmptyString
  end.
Fixpoint text_drop (n : nat) (s : string) : string :=
  match n, s with
  | O, _ => s
  | S n, String _ s' => text_drop n s'
  | S _, EmptyString => EmptyString
  end.
(** [str::find(c)], [str::split_once(c)] for an ASCII character. *)
Fixpoint find_char (c : ascii) (s : string) : option nat :=
  match s with
  | EmptyString => None
  | String a s' => if Ascii.eqb a c then Some 0 else S <$> find_char c s'
  end.
Definition split_once (c : ascii) (s : string) : option (string * string) :=
  i ← find_char c s;
  Some (text_take i s, text_drop (S i) s).
(** [bytes.get(n)]. *)
Fixpoint byte_at (n : nat) (s : string) : option ascii :=
  match s with
  | EmptyString => None
  | String a s' => match n with O => Some a | S n => byte_at n s' end
  end.

(** ** Trimming *)

Definition one_of (set : list ascii) (a : ascii) : bool := existsb (Ascii.eqb a) set.

(** [trim_start_matches], [trim_end_matches], [trim_matches] of ASCII
    characters. *)
Fixpoint trim_start_set (set : list ascii) (s : string) : string :=
  match s with
  | EmptyString => EmptyString
  | String a s' => if one_of set a then trim_start_set set s' else s
  end.
Fixpoint trim_end_set (set : list ascii) (s : string) : string :=
  match s with
  | EmptyString => EmptyString
  | String a s' =>
      match trim_end_set set s' with
      | EmptyString => if one_of set a then EmptyString else String a EmptyString
      | kept => String a kept
      end
  end.
Definition trim_set (set : list ascii) (s : string) : string :=
  trim_end_set set (trim_start_set set s).

(** ** Case and character classes *)

(** [str::eq_ignore_ascii_case]. *)
Definition eq_ignore_case (s t : string) : bool :=
  bool_decide (to_ascii_lowercase s = to_ascii_lowercase t).

Definition char_code (c : string) : Z := if is_empty c then (-1)%Z else code_point c.
Definition in_range (lo hi : Z) (c : string) : bool :=
  (Z.leb lo (char_code c) && Z.leb (char_code c) hi)%bool.
(** [char::is_ascii_digit], [is_ascii_alphabetic], [is_ascii_alphanumeric]. *)
Definition is_ascii_digit : string → bool := in_range 48 57.
Definition is_ascii_alphabetic (c : string) : bool := in_range 65 90 c || in_range 97 122 c.
Definition is_ascii_alphanumeric (c : string) : bool :=
  is_ascii_digit c || is_ascii_alphabetic c.

(** [byte as char], pushed to a [String]: a byte above 127 is the character of
    that code point, two bytes long. *)
Definition byte_as_char (a : ascii) : string :=
  let n := nat_of_ascii a in
  if (n <? 128)%nat then String a EmptyString
  else String (ascii_of_nat (192 + n / 64)) (String (ascii_of_nat (128 + n mod 64)) EmptyString).

Example search_examples :
  find_text "bc" "abcbc" = Some 1 ∧ find_text "x" "abc" = None
  ∧ find_text "" "" = Some 0
  ∧ split_once (ascii_of_nat 61) "a=b=c" = Some ("a", "b=c")
  ∧ trim_set (ascii_of_nat <$> [46; 39]) "'.x'y.'" = "x'y"
  ∧ trim_end_set [ascii_of_nat 47] "///" = ""
  ∧ eq_ignore_case "/Q" "/q" = true
  ∧ text_drop 2 "abc" = "c" ∧ text_take 2 "abc" = "ab" ∧ byte_at 1 "abc" = Some "b"%char
  ∧ byte_as_char (ascii_of_nat 233) = String.string_of_list_ascii (ascii_of_nat <$> [195; 169]).
Proof. vm_compute. by split_and!. Qed.
