(* ===== verification/RustPath.v ===== *)
(** * Paths and file observations: [std::path] and [std::fs] on Unix

    A path is its text; two paths are equal when their components are.  File
    names are taken to be UTF-8, so that [to_str], [to_string_lossy] and
    [display] are the text itself.  What a program observes of the file system
    is a parameter [FileTree]: one snapshot of the answers of the calls the
    contract layer makes, errors included.  The functions of [path/src/lib.rs]
    that every admission uses are at the end. *)

From stdpp Require Import base list strings gmap sorting.
From Stdlib Require Import ZArith Lia Ascii.
From S2P Require Import Prelude RustStd RustText.
Open Scope Z_scope.

(** ** Components *)

Inductive Component := RootDir | CurDir | ParentDir | Normal (name : string).
#[export] Instance Component_eq_dec : EqDecision Component.
Proof. solve_decision. Defined.

Definition slash : ascii := ascii_of_nat 47.
Definition backslash : ascii := ascii_of_nat 92.

Definition is_absolute (p : string) : bool := starts_with "/" p.

(** A part between two separators; empty parts and [.] are skipped. *)
Definition body_component (part : string) : option Component :=
  if is_empty part || bool_decide (part = ".") then None
  else if bool_decide (part = "..") then Some ParentDir
  else Some (Normal part).

(** [Path::components]. *)
Definition components (p : string) : list Component :=
  let parts := split_char slash p in
  (if is_absolute p then [RootDir]
   else if bool_decide (head parts = Some ".") then [CurDir] else [])
  ++ omap body_component parts.
(** [Component::as_os_str]. *)
Definition component_text (c : Component) : string :=
  match c with RootDir => "/" | CurDir => "." | ParentDir => ".." | Normal name => name end.

(** [PartialEq for Path], [Path::starts_with], [Path::ends_with]. *)
Definition path_eqb (p q : string) : bool := bool_decide (components p = components q).
Definition path_starts_with (p base : string) : bool :=
  bool_decide (components base `prefix_of` components p).
Definition path_ends_with (p suffix : string) : bool :=
  bool_decide (components suffix `suffix_of` components p).

(** The parts of a path without the first [n] components, and without the
    empty parts and dots around the rest. *)
Fixpoint drop_components (n : nat) (parts : list string) : list string :=
  match parts with
  | [] => []
  | part :: rest =>
      match body_component part with
      | None => drop_components n rest
      | Some _ => match n with O => parts | S n' => drop_components n' rest end
      end
  end.
Definition trim_parts_end (parts : list string) : list string :=
  rev (drop_components 0 (rev parts)).
Definition parts_text (absolute : bool) (parts : list string) : string :=
  match trim_parts_end parts with
  | [] => if absolute then "/" else ""
  | kept => join "/" kept
  end.

(** [Path::strip_prefix]: the text after the prefix. *)
Definition strip_path_prefix (p base : string) : option string :=
  if path_starts_with p base then
    let body := length (omap body_component (split_char slash base)) in
    Some (match components base with
          | [] => parts_text (is_absolute p) (split_char slash p)
          | _ => parts_text false (drop_components body (split_char slash p))
          end)
  else None.

(** [Path::file_name], [Path::parent]. *)
Definition file_name (p : string) : option string :=
  match last (components p) with Some (Normal name) => Some name | _ => None end.
Definition parent (p : string) : option string :=
  match last (components p) with
  | None | Some RootDir => None
  | Some CurDir => Some ""
  | Some _ =>
      Some (let rest := removelast (trim_parts_end (split_char slash p)) in
            match trim_parts_end rest with
            | [] => if is_absolute p then "/"
                    else if bool_decide (head rest = Some ".") then "." else ""
            | kept => join "/" kept
            end)
  end.
(** [PathBuf::pop], [Path::join]. *)
Definition pop (p : string) : string := default p (parent p).
Definition path_join (p q : string) : string :=
  if is_absolute q then q
  else if is_empty p then q
  else if ends_with "/" p then p +:+ q
  else p +:+ "/" +:+ q.
(** [Path::ancestors]: every parent has fewer components. *)
Fixpoint ancestors_go (fuel : nat) (p : string) : list string :=
  match fuel with
  | O => []
  | S fuel => p :: match parent p with Some q => ancestors_go fuel q | None => [] end
  end.
Definition ancestors (p : string) : list string := ancestors_go (S (length (components p))) p.

Definition is_parent_dir (c : Component) : bool := bool_decide (c = ParentDir).
Definition is_normal (c : Component) : bool := match c with Normal _ => true | _ => false end.

Example components_examples :
  components "/a//b/./c/" = [RootDir; Normal "a"; Normal "b"; Normal "c"]
  ∧ components "./a/../b" = [CurDir; Normal "a"; ParentDir; Normal "b"]
  ∧ strip_path_prefix "/r/x//y/" "/r" = Some "x//y"
  ∧ strip_path_prefix "/rx/y" "/r" = None
  ∧ strip_path_prefix "/r" "/r/" = Some ""
  ∧ parent "/a//b/" = Some "/a" ∧ parent "/a" = Some "/" ∧ parent "/" = None
  ∧ parent "./a" = Some "." ∧ parent "a" = Some "" ∧ parent "a/." = Some ""
  ∧ path_join "/r" "a/b" = "/r/a/b" ∧ path_join "/r/" "a" = "/r/a" ∧ path_join "/r" "/x" = "/x"
  ∧ ancestors "/a/b" = ["/a/b"; "/a"; "/"]
  ∧ file_name "/a/b/" = Some "b" ∧ file_name "a/.." = None.
Proof. vm_compute. by split_and!. Qed.

(** ** Observations of the file system *)

Inductive FileType := FtFile | FtDirectory | FtSymlink | FtOther.
#[export] Instance FileType_eq_dec : EqDecision FileType.
Proof. solve_decision. Defined.
Record Metadata := { md_type : FileType; md_len : Z; md_mode : Z }.
Record IoError := { io_not_found_kind : bool; io_text : string }.

(** [fs::canonicalize], [fs::metadata], [fs::symlink_metadata], [fs::read] and
    [env::var_os]. *)
Record FileTree := {
  ft_canonicalize : string → IoError + string;
  ft_metadata : string → IoError + Metadata;
  ft_symlink_metadata : string → IoError + Metadata;
  ft_read : string → IoError + string;
  ft_env : string → option string;
}.

Section Observations.
Context (fs : FileTree).

Definition path_exists (p : string) : bool :=
  match ft_metadata fs p with inr _ => true | inl _ => false end.
Definition has_type (t : FileType) (p : string) : bool :=
  match ft_metadata fs p with inr m => bool_decide (md_type m = t) | inl _ => false end.
Definition is_dir : string → bool := has_type FtDirectory.
Definition is_file : string → bool := has_type FtFile.
(** [path.canonicalize().ok().as_deref() == Some(path)]. *)
Definition canonical_at (p : string) : bool :=
  match ft_canonicalize fs p with inr q => path_eqb q p | inl _ => false end.

(** ** [path/src/lib.rs] *)

Definition strip_verbatim_prefix (p : string) : string :=
  match strip_prefix "\\?\UNC\" p with
  | Some rest => "\\" +:+ rest
  | None => match strip_prefix "\\?\" p with Some rest => rest | None => p end
  end.
Definition normalize_path (p : string) : string :=
  strip_verbatim_prefix (match ft_canonicalize fs p with inr q => q | inl _ => p end).

(** The loop of [resolve_existing_boundary]: the nearest existing ancestor and
    the names below it, the last one first. *)
Fixpoint existing_boundary (fuel : nat) (path existing : string) (missing : list string)
    : outcome string (string * list string) :=
  if path_exists existing then Ok (existing, missing) else
  match file_name existing with
  | None => Err ("no existing ancestor for " +:+ path)
  | Some name =>
      match fuel with
      | O => OutOfFuel
      | S fuel => existing_boundary fuel path (pop existing) (missing ++ [name])
      end
  end.
Definition resolve_existing_boundary (path : string) : outcome string string :=
  found ← existing_boundary (length (components path)) path path [];
  let '(existing, missing) := (found : string * list string) in
  resolved ← match ft_canonicalize fs existing with
             | inr q => Ok q
             | inl e => Err ("failed to canonicalize " +:+ existing +:+ ": " +:+ io_text e)
             end;
  Ok (normalize_path (foldl path_join resolved (rev missing))).
End Observations.

(** ** Paths: components, parents and resolution

    [parent] drops the last component, so the search for an existing ancestor
    ends; on a file tree whose [canonicalize] answers canonical paths, a
    resolved path is canonical, and stripping a canonical root leaves the names
    below it. *)

(** ** Trimmed parts *)

Definition body (parts : list string) : list Component := omap body_component parts.

Lemma body_app l k : body (l ++ k) = body l ++ body k.
Proof. apply omap_app. Qed.

Lemma drop_blank_parts parts :
  ∃ junk, parts = junk ++ drop_components 0 parts ∧ body junk = []
    ∧ (drop_components 0 parts = []
       ∨ ∃ x rest, drop_components 0 parts = x :: rest ∧ is_Some (body_component x)).
Proof.
  induction parts as [|x parts (junk & Heq & Hj & IH)]; simpl; [by exists []; auto|].
  destruct (body_component x) as [c|] eqn:Hx.
  - exists []. split_and!; [done|done|]. right. exists x, parts. by rewrite Hx.
  - exists (x :: junk). split_and!; [by rewrite Heq at 1|by unfold body in *; simpl; rewrite Hx|done].
Qed.

Lemma trim_parts_spec parts :
  ∃ junk, parts = trim_parts_end parts ++ junk ∧ body junk = []
    ∧ (trim_parts_end parts = []
       ∨ ∃ rest x, trim_parts_end parts = rest ++ [x] ∧ is_Some (body_component x)).
Proof.
  unfold trim_parts_end. destruct (drop_blank_parts (rev parts)) as (junk & Heq & Hj & Hlast).
  exists (rev junk). split_and!.
  - rewrite <- rev_app_distr, <- Heq. by rewrite rev_involutive.
  - clear -Hj. induction junk as [|x junk IH]; [done|]. unfold body in *. simpl in *.
    destruct (body_component x) eqn:Hx; [done|]. rewrite omap_app, IH by done. simpl. by rewrite Hx.
  - destruct Hlast as [->|(x & rest & -> & Hx)]; [by left|]. right. exists (rev rest), x. done.
Qed.

Lemma body_trim parts : body (trim_parts_end parts) = body parts.
Proof.
  destruct (trim_parts_spec parts) as (junk & Heq & Hj & _). rewrite Heq at 2.
  by rewrite body_app, Hj, app_nil_r.
Qed.

(** ** Components of a text made of parts *)

Definition no_slash (parts : list string) : Prop := Forall (λ p, has_char slash p = false) parts.

Lemma no_slash_split p : no_slash (split_char slash p).
Proof. apply split_char_parts. Qed.

Lemma absolute_head p : is_absolute p = bool_decide (head (split_char slash p) = Some ""%string) && negb (is_empty p).
Proof.
  unfold is_absolute, starts_with. destruct p as [|a p]; [done|].
  change (strip_prefix "/" (String a p)) with (if Ascii.eqb slash a then Some p else None).
  assert (is_empty (String a p) = false) as -> by (by apply bool_decide_eq_false_2).
  rewrite andb_true_r, Ascii.eqb_sym. cbn [split_char].
  destruct (Ascii.eqb a slash); [by rewrite bool_decide_eq_true_2|].
  by destruct (split_char slash p); rewrite bool_decide_eq_false_2.
Qed.

Definition first_component (parts : list string) : list Component :=
  if bool_decide (head parts = Some "") then if bool_decide (parts = [""]) then [] else [RootDir]
  else if bool_decide (head parts = Some ".") then [CurDir] else [].

Lemma split_empty p : split_char slash p = [""%string] ↔ p = ""%string.
Proof.
  split; [|by intros ->]. destruct p as [|a p]; [done|]. simpl.
  destruct (Ascii.eqb a slash); [|by destruct (split_char slash p)].
  intros [= Hs]. by destruct (split_char_nonempty slash p).
Qed.

Lemma components_parts p :
  components p = first_component (split_char slash p) ++ body (split_char slash p).
Proof.
  unfold components. rewrite absolute_head. unfold first_component, is_empty.
  case_bool_decide as Hh; simpl.
  - destruct (bool_decide (p = "")) eqn:Hp; guards.
    + subst p. done.
    + rewrite (bool_decide_eq_false_2 (split_char slash p = [""])) by (by rewrite split_empty). done.
  - done.
Qed.

Lemma components_join parts :
  parts ≠ [] → no_slash parts →
  components (join "/" parts) = first_component parts ++ body parts.
Proof. intros Hne Hns. rewrite components_parts. by rewrite (split_char_join slash). Qed.

(** ** The parent *)

Lemma file_name_last p name :
  file_name p = Some name → ∃ above, components p = above ++ [Normal name].
Proof.
  unfold file_name. destruct (last (components p)) as [[]|] eqn:Hl; try done.
  intros [= ->]. apply last_Some in Hl as [l ->]. by exists l.
Qed.

Lemma first_component_not_normal parts name above :
  first_component parts ≠ above ++ [Normal name].
Proof.
  unfold first_component. repeat case_bool_decide;
    destruct above as [|? [|? ?]]; by intros [=].
Qed.

Lemma components_parent p name above :
  components p = above ++ [Normal name] → components (pop p) = above.
Proof.
  intros Hc. unfold pop, parent. rewrite Hc, last_snoc. simpl.
  rewrite components_parts in Hc. set (parts := split_char slash p) in *.
  assert (Hns : no_slash parts) by apply no_slash_split.
  assert (∃ below, body parts = below ++ [Normal name]
                           ∧ above = first_component parts ++ below) as (below & Hb & ->).
  { clear -Hc. revert Hc. generalize (body parts). intros l. induction l as [|c l _] using rev_ind.
    - rewrite app_nil_r. by intros Hc%first_component_not_normal.
    - rewrite app_assoc. intros [<- <-]%app_inj_tail. by exists l. }
  destruct (trim_parts_spec parts) as (junk & Hparts & Hj & Hlast).
  rewrite <- body_trim in Hb. destruct Hlast as [Hnil|(rest & x & Hk & Hx)].
  { rewrite Hnil in Hb. by destruct below. }
  rewrite Hk, removelast_last. rewrite Hk, body_app in Hb.
  assert (body rest = below) as <-.
  { destruct Hx as [c Hx]. assert (body [x] = [c]) as Hx1 by (unfold body; simpl; by rewrite Hx).
    rewrite Hx1 in Hb. by apply app_inj_tail in Hb as [-> _]. }
  rewrite Hk in Hparts.
  assert (Habs : is_absolute p = bool_decide (head parts = Some ""%string) && negb (is_empty p))
    by apply absolute_head.
  assert (Hpne : p ≠ ""%string).
  { intros ->. unfold parts in Hparts. simpl in Hparts. destruct rest as [|y rest]; simpl in Hparts.
    - injection Hparts as <- _. by destruct Hx.
    - by destruct rest. }
  unfold is_empty in Habs. rewrite (bool_decide_eq_false_2 (p = "")), andb_true_r in Habs by done.
  assert (Hrest_ns : no_slash rest).
  { unfold no_slash in *. rewrite Hparts, !Forall_app in Hns. tauto. }
  destruct (trim_parts_spec rest) as (junk' & Hrest & Hj' & _).
  destruct (trim_parts_end rest) as [|k kept] eqn:Hkept.
  - (* nothing is kept: the root, the current directory or the empty path *)
    assert (body rest = []) as -> by (rewrite <- body_trim, Hkept; done). rewrite app_nil_r.
    rewrite Habs. unfold first_component.
    assert (Hhead : head parts = head (rest ++ [x] ++ junk)) by (by rewrite Hparts, <- app_assoc).
    destruct rest as [|y rest]; simpl in *.
    + destruct Hx as [c Hx].
      assert (x ≠ ""%string ∧ x ≠ "."%string) as [Hxe Hxd].
      { unfold body_component, is_empty in Hx. repeat case_bool_decide; try done; naive_solver. }
      rewrite Hhead, !(bool_decide_eq_false_2 (Some x = _)) by congruence. done.
    + rewrite Hhead. destruct (decide (y = ""%string)) as [->|Hy].
      * rewrite (bool_decide_eq_true_2 (Some ""%string = Some ""%string)) by done.
        rewrite (bool_decide_eq_false_2 (parts = [""%string])); [done|].
        intros Hbad. rewrite Hbad in Hparts. by destruct rest.
      * rewrite (bool_decide_eq_false_2 (Some y = Some ""%string)) by congruence.
        destruct (decide (y = "."%string)) as [->|Hd]; [done|].
        by rewrite (bool_decide_eq_false_2 (Some y = Some "."%string)) by congruence.
  - change (components (join "/" (k :: kept)) = first_component parts ++ body rest).
    rewrite <- Hkept. rewrite components_join; [|by rewrite Hkept|].
    2: { unfold no_slash in *. rewrite Hrest, Forall_app in Hrest_ns. rewrite Hkept. tauto. }
    rewrite body_trim. f_equal.
    assert (Hhead : head parts = head (trim_parts_end rest)).
    { rewrite Hparts, Hkept. clear -Hrest. by rewrite Hrest. }
    unfold first_component. rewrite Hhead. rewrite Hkept. simpl.
    destruct (decide (k = ""%string)) as [->|Hke].
    2: { by rewrite !(bool_decide_eq_false_2 (Some k = Some ""%string)) by congruence. }
    rewrite (bool_decide_eq_false_2 (parts = [""%string])).
    2: { intros Hbad. rewrite Hbad in Hparts. apply (f_equal length) in Hparts.
         rewrite !length_app, Hrest in Hparts. simpl in Hparts. lia. }
    rewrite (bool_decide_eq_false_2 (""%string :: kept = [""%string])); [done|]. intros [= ->].
    pose proof (trim_parts_spec rest) as (_ & _ & _ & [Hn|(r & z & Hz & Hs)]).
    + by rewrite Hkept in Hn.
    + rewrite Hkept in Hz. destruct r as [|? []]; [|done|done]. injection Hz as <-. by destruct Hs.
Qed.

(** ** The search for an existing ancestor ends *)

Lemma existing_boundary_settles fs path fuel : ∀ existing missing,
  (length (components existing) ≤ fuel)%nat →
  settles (existing_boundary fs fuel path existing missing).
Proof.
  induction fuel as [|fuel IH]; intros existing missing Hlen; simpl;
    (case_match; [left; eauto|]); destruct (file_name existing) as [name|] eqn:Hf;
    try (by right; eauto); apply file_name_last in Hf as [above Habove].
  - rewrite Habove, length_app in Hlen. simpl in Hlen. lia.
  - apply IH. rewrite (components_parent _ _ _ Habove). rewrite Habove, length_app in Hlen.
    simpl in Hlen. lia.
Qed.

Lemma resolve_settles fs path : settles (resolve_existing_boundary fs path).
Proof.
  unfold resolve_existing_boundary. apply settles_bind; [by apply existing_boundary_settles|].
  intros [existing missing]. apply settles_bind; [|intros ?; left; eauto].
  case_match; [right; eauto|left; eauto].
Qed.
#[export] Hint Resolve resolve_settles : lifecycle.

(** ** Canonical paths *)

Record normal_name (name : string) : Prop := {
  nn_nonempty : is_empty name = false;
  nn_not_dot : name ≠ "."%string;
  nn_not_dots : name ≠ ".."%string;
  nn_slash : has_char slash name = false;
}.
Definition abs_text (names : list string) : string := "/" +:+ join "/" names.
Definition no_backslash (names : list string) : Prop := Forall (λ n, has_char backslash n = false) names.

(** What [realpath] documents: an absolute path without [.], [..] and empty
    components. *)
Record FileTreeLaws (fs : FileTree) : Prop := {
  canonicalize_canonical p q :
    ft_canonicalize fs p = inr q → ∃ names, Forall normal_name names ∧ q = abs_text names;
}.

Lemma body_component_normal part name :
  body_component part = Some (Normal name) → part = name ∧ is_empty name = false
                                             ∧ name ≠ "."%string ∧ name ≠ ".."%string.
Proof.
  unfold body_component. destruct (is_empty part) eqn:He; [done|]. simpl.
  repeat case_bool_decide; try done. by intros [= ->].
Qed.
Lemma normal_body name : normal_name name → body_component name = Some (Normal name).
Proof.
  intros [He Hd Hdd _]. unfold body_component. rewrite He. simpl.
  by rewrite !bool_decide_eq_false_2.
Qed.
Lemma body_normal names : Forall normal_name names → body names = Normal <$> names.
Proof.
  induction 1 as [|n names Hn _ IH]; [done|].
  change (body (n :: names)) with
    (match body_component n with Some c => c :: body names | None => body names end).
  by rewrite normal_body, IH.
Qed.
Lemma normal_no_slash names : Forall normal_name names → no_slash names.
Proof. intros Hall. eapply Forall_impl; [exact Hall|]. by intros ? []. Qed.

Lemma split_abs names :
  Forall normal_name names →
  split_char slash (abs_text names) = ""%string :: match names with [] => [""%string] | _ => names end.
Proof.
  intros Hall. unfold abs_text. change ("/" +:+ join "/" names) with (String slash (join "/" names)).
  cbn [split_char]. rewrite Ascii.eqb_refl. f_equal. destruct names as [|n names]; [done|].
  apply split_char_join; [done|]. by apply normal_no_slash.
Qed.

Lemma components_abs names :
  Forall normal_name names → components (abs_text names) = RootDir :: (Normal <$> names).
Proof.
  intros Hall. rewrite components_parts, split_abs by done. unfold first_component. simpl.
  rewrite bool_decide_eq_false_2 by (by destruct names).
  destruct names as [|n names]; [done|]. f_equal. by apply body_normal.
Qed.

Lemma component_normal p name : Normal name ∈ components p → normal_name name.
Proof.
  rewrite components_parts. intros [Hin|Hin]%elem_of_app.
  - unfold first_component in Hin. repeat case_bool_decide; set_solver.
  - unfold body in Hin. apply list_elem_of_omap in Hin as (part & Hpart & Hb).
    apply body_component_normal in Hb as (-> & He & Hd & Hdd). split; try done.
    pose proof (split_char_parts slash p) as Hns. rewrite Forall_forall in Hns. by apply Hns.
Qed.
Lemma file_name_normal p name : file_name p = Some name → normal_name name.
Proof.
  intros (above & Hc)%file_name_last. apply (component_normal p). rewrite Hc.
  apply elem_of_app. right. by left.
Qed.

Lemma join_snoc names name :
  names ≠ [] → join "/" (names ++ [name]) = join "/" names +:+ "/" +:+ name.
Proof.
  induction names as [|n names IH]; [done|]. intros _. destruct names as [|m names]; [done|].
  change (join "/" ((n :: m :: names) ++ [name]))
    with (n +:+ "/" +:+ join "/" ((m :: names) ++ [name])).
  change (join "/" (n :: m :: names)) with (n +:+ "/" +:+ join "/" (m :: names)).
  rewrite IH by done. by rewrite !append_assoc.
Qed.

Lemma ends_slash_app s name : is_empty name = false → has_char slash name = false →
  ends_with "/" (s +:+ name) = false.
Proof.
  intros He Hs. destruct (ends_with "/" _) eqn:Hend; [|done].
  apply ends_with_spec in Hend as [r Hr]. exfalso. revert r Hr.
  induction s as [|a s IH]; intros r Hr.
  - change ("" +:+ name) with name in Hr. rewrite Hr, has_char_append in Hs. simpl in Hs.
    by rewrite orb_true_r in Hs.
  - destruct r as [|b r].
    + change (String a s +:+ name) with (String a (s +:+ name)) in Hr. injection Hr as _ Hr.
      destruct s; [|done]. destruct name; done.
    + change (String a s +:+ name) with (String a (s +:+ name)) in Hr.
      change (String b r +:+ "/") with (String b (r +:+ "/")) in Hr. injection Hr as _ Hr.
      by eapply IH.
Qed.

Lemma path_join_abs names name :
  Forall normal_name names → normal_name name → path_join (abs_text names) name = abs_text (names ++ [name]).
Proof.
  intros Hall Hn. unfold path_join.
  assert (is_absolute name = false) as ->.
  { unfold is_absolute. destruct (starts_with "/" name) eqn:Hs; [|done].
    apply starts_with_spec in Hs as [r ->]. by pose proof (nn_slash _ Hn). }
  change (is_empty (abs_text names)) with false. cbn [negb].
  destruct names as [|m names] using rev_ind; [done|].
  apply Forall_app in Hall as [Hall Hm]. apply Forall_cons in Hm as [Hm _].
  assert (ends_with "/" (abs_text (names ++ [m])) = false) as ->.
  { unfold abs_text. destruct names as [|n names].
    - by apply (ends_slash_app "/"); [apply Hm|apply Hm].
    - rewrite join_snoc by done. rewrite <- !append_assoc. by apply ends_slash_app; apply Hm. }
  unfold abs_text. rewrite (join_snoc (names ++ [m])) by (by destruct names).
  by rewrite !append_assoc.
Qed.

Lemma strip_verbatim_abs names : strip_verbatim_prefix (abs_text names) = abs_text names.
Proof. reflexivity. Qed.

Section Canonical.
Context (fs : FileTree) (Hlaws : FileTreeLaws fs).

Lemma normalize_abs names :
  Forall normal_name names →
  ∃ names', Forall normal_name names' ∧ normalize_path fs (abs_text names) = abs_text names'.
Proof.
  intros Hall. unfold normalize_path.
  destruct (ft_canonicalize fs (abs_text names)) as [e|q] eqn:Hq; [by exists names|].
  apply (canonicalize_canonical fs Hlaws) in Hq as (names' & Hall' & ->). by exists names'.
Qed.

Lemma existing_boundary_names path fuel : ∀ existing missing found names,
  existing_boundary fs fuel path existing missing = Ok (found, names) →
  Forall normal_name missing → Forall normal_name names.
Proof.
  induction fuel as [|fuel IH]; intros existing missing found names; simpl;
    (destruct (path_exists fs existing); [by intros [= _ <-]|]);
    destruct (file_name existing) as [name|] eqn:Hf; try done.
  intros Hb Hm. eapply IH; [exact Hb|]. apply Forall_app_2; [done|].
  constructor; [by eapply file_name_normal|done].
Qed.

Lemma join_names_abs names missing :
  Forall normal_name names → Forall normal_name missing →
  foldl path_join (abs_text names) missing = abs_text (names ++ missing).
Proof.
  intros Hall Hm. revert names Hall. induction Hm as [|m missing Hm _ IH]; intros names Hall; simpl.
  - by rewrite app_nil_r.
  - rewrite path_join_abs, IH by (try apply Forall_app_2; auto). by rewrite <- app_assoc.
Qed.

Lemma resolve_canonical path resolved :
  resolve_existing_boundary fs path = Ok resolved →
  ∃ names, Forall normal_name names ∧ resolved = abs_text names.
Proof.
  unfold resolve_existing_boundary. intros ([existing missing] & Hb & Hr)%bind_Ok_inv.
  apply existing_boundary_names in Hb; [|done].
  apply bind_Ok_inv in Hr as (q & Hq & Hr).
  destruct (ft_canonicalize fs existing) as [e|q'] eqn:Hc; [done|]. injection Hq as ->.
  apply (canonicalize_canonical fs Hlaws) in Hc as (names & Hall & ->).
  rewrite join_names_abs in Hr by (try apply Forall_rev; done). injection Hr as <-.
  apply normalize_abs. apply Forall_app_2; [done|]. by apply Forall_rev.
Qed.
End Canonical.

(** ** Stripping a canonical root *)

Lemma drop_components_normal n names :
  Forall normal_name names → drop_components n names = drop n names.
Proof.
  intros Hall. revert n. induction Hall as [|x names Hx _ IH]; intros n; simpl; [by destruct n|].
  rewrite normal_body by done. destruct n; [done|]. apply IH.
Qed.
Lemma drop_components_abs n names :
  Forall normal_name names →
  drop_components n (split_char slash (abs_text names)) = drop n names.
Proof.
  intros Hall. rewrite split_abs by done. simpl. destruct names as [|x names].
  - by destruct n.
  - by apply drop_components_normal.
Qed.
Lemma parts_text_normal names :
  Forall normal_name names → parts_text false names = join "/" names.
Proof.
  intros Hall. unfold parts_text, trim_parts_end.
  rewrite (drop_components_normal 0) by (by apply Forall_rev).
  change (drop 0 (rev names)) with (rev names). rewrite rev_involutive.
  by destruct names.
Qed.

Lemma path_starts_with_abs root names :
  Forall normal_name root → Forall normal_name names →
  path_starts_with (abs_text names) (abs_text root) = true ↔ root `prefix_of` names.
Proof.
  intros Hr Hn. unfold path_starts_with. rewrite bool_decide_eq_true, !components_abs by done.
  split.
  - intros Hp%prefix_cons_inv_2. destruct Hp as [k Hk].
    apply fmap_app_inv in Hk as (l1 & l2 & H1 & _ & ->). exists l2.
    apply list_fmap_eq_inj in H1; [by subst|]. by intros ? ? [= ->].
  - intros [k ->]. apply prefix_cons. rewrite fmap_app. by eexists.
Qed.

Lemma strip_path_prefix_abs root names rel :
  Forall normal_name root → Forall normal_name names →
  strip_path_prefix (abs_text names) (abs_text root) = Some rel ↔
  ∃ rest, names = root ++ rest ∧ rel = join "/" rest.
Proof.
  intros Hr Hn. unfold strip_path_prefix. rewrite (components_abs root) by done.
  destruct (path_starts_with (abs_text names) (abs_text root)) eqn:Hs.
  - apply path_starts_with_abs in Hs as [rest ->]; [|done..].
    assert (Hrest : Forall normal_name rest) by (by apply Forall_app in Hn as [_ ?]).
    assert (Hlen : length (omap body_component (split_char slash (abs_text root))) = length root).
    { change (omap body_component ?l) with (body l). rewrite split_abs by done.
      change (body (""%string :: ?l)) with (body l). destruct root as [|x root]; [done|].
      by rewrite body_normal, length_fmap. }
    rewrite Hlen, drop_components_abs by done. rewrite drop_app_length, parts_text_normal by done.
    split; [intros [= <-]; by exists rest|]. by intros (rest' & ->%app_inv_head & ->).
  - split; [done|]. intros (rest & -> & ->). exfalso.
    assert (path_starts_with (abs_text (root ++ rest)) (abs_text root) = true) as Ht; [|congruence].
    apply path_starts_with_abs; [done..|]. by eexists.
Qed.
