(* ===== verification/JSpaceScopes.v ===== *)
(** * Scopes: path patterns of a contract and the tries they compile to

    The first part of [path/src/jspace.rs].  A scope is a relative path, exact
    or with a terminal [/**]; a claim is a scope that may also be absolute.
    [PathTrie] is the arena of nodes an admission compiles scopes into. *)

From stdpp Require Import base list strings gmap sorting.
From Stdlib Require Import ZArith Lia Ascii.
From S2P Require Import Prelude RustStd RustText RustPath.
Open Scope Z_scope.

(** ** Errors and constants *)

Record JSpaceError := { je_code : string; je_operation : string; je_target : string;
                        je_detail : string }.
Definition JSpaceError_new (code operation target detail : string) : JSpaceError :=
  {| je_code := code; je_operation := operation; je_target := target; je_detail := detail |}.
Definition or_none (text : string) : string := if is_empty text then "<none>" else text.
Definition JSpaceError_fmt (self : JSpaceError) : string :=
  je_code self +:+ ": operation=" +:+ or_none (je_operation self)
  +:+ " target=" +:+ or_none (je_target self) +:+ " detail=" +:+ je_detail self.

Definition JSPACE_SCHEMA_VERSION : string := "jspace_contract_v3".
Definition JSPACE_SINGLE_ROOT_SCHEMA_VERSION : string := "jspace_contract_v2".
Definition JSPACE_LEGACY_SCHEMA_VERSION : string := "jspace_contract_v1".
Definition JSPACE_AUTHORIZATION_SCHEMA_VERSION : string := "jspace_authorization_v1".
Definition JSPACE_EFFECT_AUTHORIZATION_SCHEMA_VERSION : string :=
  "jspace_effect_authorization_v1".
Definition JSPACE_EXPANSION_REQUIRED : string := "JSPACE_EXPANSION_REQUIRED".
Definition KNOWN_OPERATIONS : list string :=
  ["read"; "create"; "modify"; "delete"; "command"; "network"; "install"; "system_mutation"].

Notation result := (outcome JSpaceError).

(** An error of the admission of a contract. *)
Definition admission_error (code target detail : string) : JSpaceError :=
  JSpaceError_new code "admission" target detail.
Definition malformed (target detail : string) : JSpaceError :=
  admission_error "JSPACE_CONTRACT_MALFORMED" target detail.

(** ** Parsing a scope *)

Definition unix_separators (s : string) : string := replace_char backslash slash s.

(** [split('/').filter(|part| !part.is_empty() && *part != ".")], and the loop
    that collects the parts up to a [..]. *)
Definition scope_parts (scope : string) : list string :=
  filter (λ part, is_empty part || bool_decide (part = ".") = false) (split_char slash scope).
Fixpoint collect_components (raw_scope : string) (parts : list string) : result (list string) :=
  match parts with
  | [] => Ok []
  | component :: rest =>
      if bool_decide (component = "..")
      then Err (admission_error "JSPACE_PATH_TRAVERSAL" raw_scope
                  "scope contains parent traversal")
      else components ← collect_components raw_scope rest; Ok (component :: components)
  end.

Definition has_drive_colon (scope : string) : bool :=
  match scope with
  | String _ (String b _) => Ascii.eqb b (ascii_of_nat 58)
  | _ => false
  end.

Definition scope_components (raw_scope : string) : result (list string * bool) :=
  let scope := unix_separators (trim raw_scope) in
  _ ← reject_if (is_empty scope)
        (admission_error "JSPACE_SCOPE_INVALID" raw_scope "scope must be non-empty");
  _ ← reject_if (starts_with "/" scope || has_drive_colon scope)
        (admission_error "JSPACE_SCOPE_INVALID" raw_scope "scope must be relative to repo_root");
  let recursive := bool_decide (scope = "**") || ends_with "/**" scope in
  let scope := if recursive then default "" (strip_suffix "/**" scope) else scope in
  let scope := default scope (strip_prefix "./" scope) in
  _ ← reject_if (has_char (ascii_of_nat 42) scope)
        (admission_error "JSPACE_SCOPE_INVALID" raw_scope
           "only a terminal /** wildcard is supported");
  components ← collect_components raw_scope (scope_parts scope);
  Ok (components, recursive).

(** [values.into_iter().map(f).collect::<Result<BTreeSet<_>, _>>()], as a list. *)
Fixpoint map_results {A B} (f : A → result B) (values : list A) : result (list B) :=
  match values with
  | [] => Ok []
  | v :: rest => x ← f v; xs ← map_results f rest; Ok (x :: xs)
  end.
Definition sorted_set (values : list string) : list string := btree_iter (list_to_set values).

Definition claim_scope_components (raw_scope : string) : result (bool * list string * bool) :=
  let scope := unix_separators (trim raw_scope) in
  if starts_with "/" scope then
    parsed ← scope_components (trim_start_char slash scope);
    let '(components, recursive) := (parsed : list string * bool) in
    _ ← reject_if (bool_decide (components = []))
          (admission_error "JSPACE_DOMAIN_ROOT_TOO_BROAD" raw_scope
             "filesystem root cannot be used as a scope claim");
    Ok (true, components, recursive)
  else
    parsed ← scope_components scope;
    let '(components, recursive) := (parsed : list string * bool) in
    Ok (false, components, recursive).

Definition canonical_claim_scope (raw_scope : string) : result string :=
  parsed ← claim_scope_components raw_scope;
  let '(absolute, components, recursive) := (parsed : bool * list string * bool) in
  let exact := join "/" components in
  let exact := if absolute then "/" +:+ exact else if is_empty exact then "." else exact in
  Ok (if recursive : bool then exact +:+ "/**" else exact).

Definition canonical_scope (raw_scope : string) : result string :=
  parsed ← scope_components raw_scope;
  let '(components, recursive) := (parsed : list string * bool) in
  let exact := match components with [] => "." | _ => join "/" components end in
  Ok (if recursive : bool then match components with [] => "**" | _ => exact +:+ "/**" end
      else exact).

Definition canonical_scope_set (values : list string) : result (list string) :=
  scopes ← map_results canonical_scope values; Ok (sorted_set scopes).
Definition canonical_claim_scope_set (values : list string) : result (list string) :=
  scopes ← map_results canonical_claim_scope values; Ok (sorted_set scopes).

Definition rooted_scope (root relative_scope : string) : result string :=
  relative_scope ← canonical_scope relative_scope;
  let rooted :=
    if bool_decide (relative_scope = ".") then root
    else if bool_decide (relative_scope = "**") then root +:+ "/**"
    else match strip_suffix "/**" relative_scope with
         | Some prefix => path_join root prefix +:+ "/**"
         | None => path_join root relative_scope
         end in
  canonical_claim_scope rooted.

(** ** Tries *)

Record PathTrieNode := { tn_children : gmap string nat; tn_exact : bool; tn_recursive : bool }.
#[export] Instance eta_PathTrieNode : Eta PathTrieNode :=
  MkEta (λ n, Build_PathTrieNode (tn_children n) (tn_exact n) (tn_recursive n)).
Definition empty_node : PathTrieNode :=
  {| tn_children := ∅; tn_exact := false; tn_recursive := false |}.

(** [self.nodes]; indexing it out of range panics. *)
Notation PathTrie := (list PathTrieNode).
Definition node_at (self : PathTrie) (index : nat) : result PathTrieNode :=
  or_panic (self !! index).

Definition PathTrie_new : PathTrie := [empty_node].

(** The loop over the components: follow the child, or push a fresh node and
    link it. *)
Fixpoint insert_components (self : PathTrie) (node_index : nat) (components : list string)
    : result (PathTrie * nat) :=
  match components with
  | [] => Ok (self, node_index)
  | component :: rest =>
      node ← node_at self node_index;
      match tn_children node !! component with
      | Some index => insert_components self index rest
      | None =>
          let index := length self in
          let linked := node.{tn_children := <[component := index]> (tn_children node)} in
          insert_components (<[node_index := linked]> (self ++ [empty_node])) index rest
      end
  end.
Definition PathTrie_insert (self : PathTrie) (raw_scope : string) : result PathTrie :=
  parsed ← scope_components raw_scope;
  let '(components, recursive) := (parsed : list string * bool) in
  inserted ← insert_components self 0 components;
  let '(self, node_index) := (inserted : PathTrie * nat) in
  node ← node_at self node_index;
  Ok (<[node_index := if recursive : bool then node.{tn_recursive := true}
                      else node.{tn_exact := true}]> self).
(** [for scope in scopes { trie.insert(scope)?; }]. *)
Fixpoint insert_all (self : PathTrie) (scopes : list string) : result PathTrie :=
  match scopes with
  | [] => Ok self
  | scope :: rest => self ← PathTrie_insert self scope; insert_all self rest
  end.

(** [relative.split('/').filter(|part| !part.is_empty())]. *)
Definition relative_parts (relative : string) : list string :=
  filter (λ part, is_empty part = false) (split_char slash relative).

Fixpoint matches_from (self : PathTrie) (node_index : nat) (parts : list string)
    : result bool :=
  node ← node_at self node_index;
  match parts with
  | [] => Ok (tn_exact node)
  | component :: rest =>
      match tn_children node !! component with
      | None => Ok false
      | Some next_index =>
          next ← node_at self next_index;
          if tn_recursive next then Ok true else matches_from self next_index rest
      end
  end.
Definition PathTrie_matches (self : PathTrie) (relative : string) : result bool :=
  root ← node_at self 0;
  if tn_recursive root then Ok true else matches_from self 0 (relative_parts relative).

Fixpoint matches_exact_from (self : PathTrie) (node_index : nat) (parts : list string)
    : result bool :=
  node ← node_at self node_index;
  match parts with
  | [] => Ok (tn_exact node)
  | component :: rest =>
      match tn_children node !! component with
      | None => Ok false
      | Some next_index => matches_exact_from self next_index rest
      end
  end.
Definition PathTrie_matches_exact (self : PathTrie) (relative : string) : result bool :=
  matches_exact_from self 0 (relative_parts relative).

(** ** Projections and conflicts *)

Record JSpaceScopeProjection := { sp_read_scopes : list string; sp_write_scopes : list string }.
#[export] Instance JSpaceScopeProjection_eq_dec : EqDecision JSpaceScopeProjection.
Proof. solve_decision. Defined.

Definition canonical_scope_projection (read_scopes write_scopes : list string)
    : result JSpaceScopeProjection :=
  read_scopes ← canonical_claim_scope_set read_scopes;
  write_scopes ← canonical_claim_scope_set write_scopes;
  Ok {| sp_read_scopes := read_scopes; sp_write_scopes := write_scopes |}.

Definition has_wildcard (target : string) : bool :=
  has_any (ascii_of_nat <$> [42; 63; 91; 93]%nat) target.
Definition canonical_declared_targets (targets : list string) : result (list string) :=
  match find has_wildcard targets with
  | Some target =>
      Err (admission_error "JSPACE_TARGET_INVALID" target
             "declared targets must be exact paths without wildcards")
  | None => canonical_claim_scope_set targets
  end.

(** [slice.starts_with(prefix)]. *)
Definition slice_starts_with (l prefix : list string) : bool :=
  bool_decide (prefix `prefix_of` l).

Definition scope_claims_overlap (left_scope right_scope : string) : result bool :=
  left ← claim_scope_components left_scope;
  right ← claim_scope_components right_scope;
  let '(left_absolute, left_components, left_recursive) :=
    (left : bool * list string * bool) in
  let '(right_absolute, right_components, right_recursive) :=
    (right : bool * list string * bool) in
  _ ← reject_if (negb (Bool.eqb left_absolute right_absolute))
        (admission_error "JSPACE_SCOPE_REPRESENTATION_MISMATCH" left_scope
           "absolute and repo-relative scope claims cannot be compared losslessly");
  if bool_decide (left_components = right_components) then Ok true else
  Ok (left_recursive && slice_starts_with right_components left_components
      || right_recursive && slice_starts_with left_components right_components).

(** A loop that returns [Ok(true)] at the first hit, and an error as it comes. *)
Fixpoint any_result {A} (f : A → result bool) (l : list A) : result bool :=
  match l with
  | [] => Ok false
  | x :: rest => hit ← f x; if hit : bool then Ok true else any_result f rest
  end.
Definition scope_projections_conflict (left right : JSpaceScopeProjection) : result bool :=
  forward ← any_result (λ left_write,
              any_result (scope_claims_overlap left_write)
                (sp_read_scopes right ++ sp_write_scopes right)) (sp_write_scopes left);
  if forward : bool then Ok true else
  any_result (λ right_write,
    any_result (scope_claims_overlap right_write) (sp_read_scopes left)) (sp_write_scopes right).

Example scopes_examples :
  scope_components " ./src\\a//**" = Ok (["src"; "a"], true)
  ∧ canonical_scope "./" = Ok "." ∧ canonical_scope "./**" = Ok "**"
  ∧ canonical_claim_scope "**" = Ok "./**" ∧ canonical_claim_scope "//r/x/" = Ok "/r/x"
  ∧ rooted_scope "/r" "src/**" = Ok "/r/src/**"
  ∧ is_err (scope_components "a/*/b") = true ∧ is_err (scope_components "a/../b") = true
  ∧ scope_claims_overlap "/r/src/**" "/r/src/lib/a.rs" = Ok true
  ∧ scope_claims_overlap "src/a" "src/b/**" = Ok false
  ∧ (t ← insert_all PathTrie_new ["src/**"; "README.md"];
     a ← PathTrie_matches t "src/a/b"; b ← PathTrie_matches t "README.md/x";
     c ← PathTrie_matches_exact t "README.md"; d ← PathTrie_matches_exact t "src";
     Ok (a, b, c, d)) = Ok (true, false, true, false).
Proof. vm_compute. by split_and!. Qed.
