(* ===== verification/JSpaceScopeFacts.v ===== *)
(** * Scopes: a trie is the set of its scopes, an overlap is a common path

    The meaning of a scope is the set of paths it covers.  The tries, the
    overlap test and the canonical texts are compared with that meaning. *)

From stdpp Require Import base list strings gmap sorting.
From Stdlib Require Import ZArith Lia Ascii.
From S2P Require Import Prelude RustStd RustText RustPath JSpaceScopes.
Open Scope Z_scope.

(** The reference: what a parsed scope covers. *)
Definition covers (components : list string) (recursive : bool) (path : list string) : bool :=
  if recursive then bool_decide (components `prefix_of` path)
  else bool_decide (components = path).
Definition scope_covers (path : list string) (scope : string) : bool :=
  match scope_components scope with
  | Ok (components, recursive) => covers components recursive path
  | _ => false
  end.
Definition claim_covers (absolute : bool) (path : list string) (claim : string) : bool :=
  match claim_scope_components claim with
  | Ok (claim_absolute, components, recursive) =>
      Bool.eqb claim_absolute absolute && covers components recursive path
  | _ => false
  end.

(** ** Walking a trie *)

Definition step (t : PathTrie) (component : string) (i : nat) : option nat :=
  node ← t !! i; tn_children node !! component.
Definition walk (t : PathTrie) (path : list string) : option nat :=
  foldl (λ at_node component, at_node ≫= step t component) (Some 0%nat) path.
Definition node_flags (t : PathTrie) (i : nat) : option (bool * bool) :=
  node ← t !! i; Some (tn_exact node, tn_recursive node).
Definition flags (t : PathTrie) (path : list string) : bool * bool :=
  default (false, false) (walk t path ≫= node_flags t).

Lemma walk_snoc t path c : walk t (path ++ [c]) = walk t path ≫= step t c.
Proof. unfold walk. by rewrite foldl_app. Qed.
Lemma walk_app_None t path rest : walk t path = None → walk t (path ++ rest) = None.
Proof.
  intros Hw. induction rest as [|c rest IH] using rev_ind; [by rewrite app_nil_r|].
  by rewrite app_assoc, walk_snoc, IH.
Qed.
Lemma flags_None t path : walk t path = None → flags t path = (false, false).
Proof. unfold flags. by intros ->. Qed.
Lemma flags_at t path i node :
  walk t path = Some i → t !! i = Some node → flags t path = (tn_exact node, tn_recursive node).
Proof. unfold flags, node_flags. intros -> Hn. simpl. by rewrite Hn. Qed.

(** Every walk ends at a node of the arena, and at a node of its own. *)
Record trie_wf (t : PathTrie) : Prop := {
  wf_bound path i : walk t path = Some i → (i < length t)%nat;
  wf_inj p q i : walk t p = Some i → walk t q = Some i → p = q;
}.

Lemma trie_wf_node t path i : trie_wf t → walk t path = Some i → ∃ node, t !! i = Some node.
Proof. intros Hwf Hw. apply lookup_lt_is_Some. by eapply wf_bound. Qed.

Lemma walk_new path : walk PathTrie_new path = if bool_decide (path = []) then Some 0%nat else None.
Proof.
  induction path as [|c path IH] using rev_ind; [done|].
  rewrite walk_snoc, IH, (bool_decide_eq_false_2 (path ++ [c] = []));
    [|by destruct path].
  case_bool_decide; [|done]. simpl. unfold step, PathTrie_new. simpl.
  apply lookup_empty.
Qed.
Lemma trie_wf_new : trie_wf PathTrie_new.
Proof.
  split.
  - intros path i. rewrite walk_new. case_bool_decide; [|done]. intros [= <-]. simpl. lia.
  - intros p q i. rewrite !walk_new. by repeat case_bool_decide; subst.
Qed.
Lemma flags_new path : flags PathTrie_new path = (false, false).
Proof. unfold flags. rewrite walk_new. by case_bool_decide. Qed.

(** ** Linking a fresh node *)

Definition link (t : PathTrie) (i : nat) (node : PathTrieNode) (c : string) : PathTrie :=
  <[i := node.{tn_children := <[c := length t]> (tn_children node)}]> (t ++ [empty_node]).

Section Link.
Context (t : PathTrie) (path : list string) (i : nat) (node : PathTrieNode) (c : string).
Hypothesis Hwf : trie_wf t.
Hypothesis Hwalk : walk t path = Some i.
Hypothesis Hnode : t !! i = Some node.
Hypothesis Hfresh : tn_children node !! c = None.

Lemma link_here : link t i node c !! i =
  Some (node.{tn_children := <[c := length t]> (tn_children node)}).
Proof.
  apply list_lookup_insert_eq. rewrite length_app. simpl.
  apply lookup_lt_Some in Hnode. lia.
Qed.
Lemma link_old j : j ≠ i → (j < length t)%nat → link t i node c !! j = t !! j.
Proof. intros Hj Hlt. unfold link. rewrite list_lookup_insert_ne by done. by apply lookup_app_l. Qed.
Lemma link_new : link t i node c !! length t = Some empty_node.
Proof.
  pose proof (lookup_lt_Some _ _ _ Hnode). unfold link. rewrite list_lookup_insert_ne by lia.
  by rewrite lookup_app_r, Nat.sub_diag by lia.
Qed.

Lemma walk_fresh : walk t (path ++ [c]) = None.
Proof. rewrite walk_snoc, Hwalk. simpl. unfold step. by rewrite Hnode. Qed.

Lemma walk_link q : walk (link t i node c) q =
  match walk t q with
  | Some j => Some j
  | None => if bool_decide (q = path ++ [c]) then Some (length t) else None
  end.
Proof.
  induction q as [|d q IH] using rev_ind; [done|]. rewrite !walk_snoc, IH.
  destruct (walk t q) as [j|] eqn:Hq; simpl.
  - pose proof (wf_bound _ Hwf _ _ Hq) as Hlt. unfold step.
    destruct (decide (j = i)) as [->|Hji].
    + rewrite link_here, Hnode. simpl.
      assert (q = path) as -> by (by eapply wf_inj).
      destruct (decide (d = c)) as [->|Hdc].
      * rewrite lookup_insert_eq, Hfresh. by rewrite bool_decide_eq_true_2.
      * rewrite lookup_insert_ne by done. case_match; [done|].
        rewrite bool_decide_eq_false_2; [done|]. by intros [_ ?]%app_inj_tail.
    + rewrite link_old by done. case_match; [done|].
      rewrite bool_decide_eq_false_2; [done|]. intros [-> _]%app_inj_tail. congruence.
  - case_bool_decide as Heq; simpl.
    + unfold step. rewrite link_new. simpl. rewrite lookup_empty.
      rewrite bool_decide_eq_false_2; [done|]. subst q.
      intros [Hbad _]%app_inj_tail. apply (f_equal length) in Hbad.
      rewrite length_app in Hbad. simpl in Hbad. lia.
    + rewrite bool_decide_eq_false_2; [done|]. intros [-> _]%app_inj_tail. congruence.
Qed.

Lemma trie_wf_link : trie_wf (link t i node c).
Proof.
  assert (Hlen : length (link t i node c) = S (length t))
    by (unfold link; rewrite length_insert, length_app; simpl; lia).
  split.
  - intros q j. rewrite walk_link, Hlen. destruct (walk t q) eqn:Hq.
    + intros [= <-]. pose proof (wf_bound _ Hwf _ _ Hq). lia.
    + case_bool_decide; [|done]. intros [= <-]. lia.
  - intros p q j. rewrite !walk_link.
    destruct (walk t p) as [jp|] eqn:Hp, (walk t q) as [jq|] eqn:Hq.
    + intros [= ->] [= ->]. by eapply wf_inj.
    + intros [= ->]. case_bool_decide; [|done]. intros [= Hj].
      apply wf_bound in Hp; [lia|done].
    + case_bool_decide; [|done]. intros [= Hj] [= ->].
      apply wf_bound in Hq; [lia|done].
    + by repeat case_bool_decide; subst.
Qed.

Lemma flags_link q : flags (link t i node c) q = flags t q.
Proof.
  unfold flags. rewrite walk_link. destruct (walk t q) as [j|] eqn:Hq; simpl.
  - unfold node_flags. destruct (decide (j = i)) as [->|Hji].
    + by rewrite link_here, Hnode.
    + rewrite link_old; [done..|by eapply wf_bound].
  - case_bool_decide; [|done]. simpl. unfold node_flags. by rewrite link_new.
Qed.

Lemma walk_link_fresh : walk (link t i node c) (path ++ [c]) = Some (length t).
Proof. by rewrite walk_link, walk_fresh, bool_decide_eq_true_2. Qed.
End Link.

Lemma insert_components_spec components t i path :
  trie_wf t → walk t path = Some i →
  ∃ t' j, insert_components t i components = Ok (t', j) ∧ trie_wf t'
          ∧ walk t' (path ++ components) = Some j ∧ ∀ q, flags t' q = flags t q.
Proof.
  revert t i path. induction components as [|c components IH]; intros t i path Hwf Hw.
  { exists t, i. by rewrite app_nil_r. }
  destruct (trie_wf_node _ _ _ Hwf Hw) as [node Hnode].
  simpl. unfold node_at. rewrite Hnode. simpl.
  replace (path ++ c :: components) with ((path ++ [c]) ++ components)
    by (by rewrite <- app_assoc).
  destruct (tn_children node !! c) as [index|] eqn:Hc.
  - apply (IH _ _ (path ++ [c])); [done|]. rewrite walk_snoc, Hw. simpl. unfold step.
    by rewrite Hnode.
  - destruct (IH (link t i node c) (length t) (path ++ [c])) as (t' & j & Heq & Hwf' & Hw' & Hf).
    + by eapply trie_wf_link.
    + by apply walk_link_fresh.
    + exists t', j. split_and!; [exact Heq|done..|]. intros q. rewrite Hf. by eapply flags_link.
Qed.

(** ** Marking a node *)

Definition mark (recursive : bool) (node : PathTrieNode) : PathTrieNode :=
  if recursive then node.{tn_recursive := true} else node.{tn_exact := true}.

Lemma walk_mark t i node recursive path :
  t !! i = Some node → walk (<[i := mark recursive node]> t) path = walk t path.
Proof.
  intros Hn. induction path as [|c path IH] using rev_ind; [done|].
  rewrite !walk_snoc, IH. destruct (walk t path) as [j|]; [|done]. simpl. unfold step.
  destruct (decide (j = i)) as [->|Hj].
  - rewrite list_lookup_insert_eq by (by eapply lookup_lt_Some). rewrite Hn. simpl.
    by destruct recursive.
  - by rewrite list_lookup_insert_ne.
Qed.

Lemma trie_wf_mark t i node recursive :
  t !! i = Some node → trie_wf t → trie_wf (<[i := mark recursive node]> t).
Proof.
  intros Hn [Hb Hi]. split.
  - intros path j. rewrite walk_mark, length_insert by done. apply Hb.
  - intros p q j. rewrite !walk_mark by done. apply Hi.
Qed.

Lemma flags_mark t i node recursive path q :
  trie_wf t → walk t path = Some i → t !! i = Some node →
  flags (<[i := mark recursive node]> t) q =
  if bool_decide (q = path)
  then if recursive then ((flags t q).1, true) else (true, (flags t q).2)
  else flags t q.
Proof.
  intros Hwf Hw Hn. unfold flags. rewrite walk_mark by done. case_bool_decide as Hq.
  - subst q. rewrite Hw. simpl. unfold node_flags.
    rewrite list_lookup_insert_eq by (by eapply lookup_lt_Some). rewrite Hn. simpl.
    by destruct recursive.
  - destruct (walk t q) as [j|] eqn:Hj; [|done]. simpl. unfold node_flags.
    rewrite list_lookup_insert_ne; [done|]. intros ->. apply Hq. by eapply wf_inj.
Qed.

(** ** A trie against the set of scopes it was built from *)

(** What a list of scopes says of a node. *)
Definition scope_parsed (components : list string) (recursive : bool) (scope : string) : bool :=
  match scope_components scope with
  | Ok (cs, r) => bool_decide (cs = components) && Bool.eqb r recursive
  | _ => false
  end.
Definition has_scope (scopes : list string) (components : list string) (recursive : bool) : bool :=
  existsb (scope_parsed components recursive) scopes.

Lemma scope_parsed_true cs r scope :
  scope_parsed cs r scope = true ↔ scope_components scope = Ok (cs, r).
Proof.
  unfold scope_parsed. destruct (scope_components scope) as [[cs' r']| | |]; try done.
  rewrite andb_true_iff, bool_decide_eq_true, Bool.eqb_true_iff. naive_solver.
Qed.

Record trie_of (t : PathTrie) (scopes : list string) : Prop := {
  of_wf : trie_wf t;
  of_flags path : flags t path = (has_scope scopes path false, has_scope scopes path true);
}.

Lemma trie_of_new : trie_of PathTrie_new [].
Proof. split; [apply trie_wf_new|]. intros path. by rewrite flags_new. Qed.

Lemma trie_of_insert t scopes scope :
  trie_of t scopes → is_ok (scope_components scope) = true →
  ∃ t', PathTrie_insert t scope = Ok t' ∧ trie_of t' (scope :: scopes).
Proof.
  intros [Hwf Hf] Hok. unfold PathTrie_insert.
  destruct (scope_components scope) as [[cs r]| | |] eqn:Hs; try done. simpl.
  destruct (insert_components_spec cs t 0 [] Hwf eq_refl) as (t' & j & -> & Hwf' & Hw & Hf').
  simpl. destruct (trie_wf_node _ _ _ Hwf' Hw) as [node Hn]. unfold node_at. rewrite Hn. simpl.
  eexists. split; [done|]. split; [by apply (trie_wf_mark t' j node r)|].
  intros path. etrans; [by eapply (flags_mark t' j node r)|]. rewrite Hf', Hf. simpl.
  unfold has_scope. simpl. unfold scope_parsed. rewrite Hs. case_bool_decide as Hp.
  - subst path. rewrite bool_decide_eq_true_2 by done. by destruct r.
  - rewrite bool_decide_eq_false_2 by congruence. done.
Qed.

Lemma has_scope_mono scopes scopes' cs r :
  (∀ s, s ∈ scopes ↔ s ∈ scopes') → has_scope scopes cs r = has_scope scopes' cs r.
Proof.
  intros Hs. unfold has_scope. apply eq_bool_prop_intro. rewrite !Is_true_true, !existsb_exists.
  split; intros (x & Hx & ?); exists x; (split; [|done]);
    apply list_elem_of_In, Hs, list_elem_of_In; done.
Qed.

Lemma insert_all_of scopes : ∀ t seen,
  trie_of t seen → Forall (λ s, is_ok (scope_components s) = true) scopes →
  ∃ t', insert_all t scopes = Ok t' ∧ trie_of t' (rev scopes ++ seen).
Proof.
  induction scopes as [|scope scopes IH]; intros t seen Ht Hall; [by exists t|].
  apply Forall_cons in Hall as [Hs Hall]. simpl.
  destruct (trie_of_insert _ _ _ Ht Hs) as (t1 & -> & Ht1). simpl.
  rewrite <- app_assoc. by apply IH.
Qed.

Lemma insert_error t scope e :
  scope_components scope = Err e → PathTrie_insert t scope = Err e.
Proof. unfold PathTrie_insert. by intros ->. Qed.

Lemma settles_collect raw parts : settles (collect_components raw parts).
Proof.
  induction parts as [|p parts IH]; simpl; [left; eauto|]. case_match; [right; eauto|].
  apply settles_bind; [done|]. left; eauto.
Qed.
Lemma settles_scope_components scope : settles (scope_components scope).
Proof.
  unfold scope_components. repeat (apply settles_bind; [by auto with lifecycle|]; intros ?).
  apply settles_bind; [apply settles_collect|]. left; eauto.
Qed.

(** Building a trie either fails with the error of its first bad scope or gives
    the trie of exactly these scopes; it never indexes out of range. *)
Lemma insert_all_settles scopes : ∀ t seen, trie_of t seen →
  (∃ t', insert_all t scopes = Ok t' ∧ trie_of t' (rev scopes ++ seen)
         ∧ Forall (λ s, is_ok (scope_components s) = true) scopes)
  ∨ ∃ e, insert_all t scopes = Err e.
Proof.
  induction scopes as [|scope scopes IH]; intros t seen Ht.
  { left. exists t. split_and!; [done..|constructor]. }
  destruct (settles_scope_components scope) as [[x Hx]|[e He]].
  - destruct (trie_of_insert t seen scope) as (t1 & Hi & Ht1); [done|by rewrite Hx|].
    simpl. rewrite Hi. simpl. destruct (IH t1 (scope :: seen) Ht1) as [(t' & -> & Hof & Hall)|Herr].
    + left. exists t'. rewrite <- app_assoc. split_and!; [done..|].
      constructor; [by rewrite Hx|done].
    + by right.
  - right. exists e. simpl. by rewrite (insert_error _ _ _ He).
Qed.

Lemma trie_of_ext t scopes scopes' :
  (∀ s, s ∈ scopes ↔ s ∈ scopes') → trie_of t scopes → trie_of t scopes'.
Proof.
  intros Hs [Hwf Hf]. split; [done|]. intros path. rewrite Hf.
  by rewrite !(has_scope_mono scopes scopes').
Qed.

Lemma insert_all_new scopes t :
  insert_all PathTrie_new scopes = Ok t → trie_of t scopes.
Proof.
  intros Ht. destruct (insert_all_settles scopes _ _ trie_of_new) as [(t' & Ht' & Hof & _)|[e He]].
  - rewrite Ht in Ht'. injection Ht' as <-. eapply trie_of_ext; [|done].
    intros s. rewrite app_nil_r. by rewrite !list_elem_of_In, <- in_rev.
  - congruence.
Qed.

(** ** Matching *)

Section Matching.
Context (t : PathTrie) (scopes : list string) (Hof : trie_of t scopes).

Lemma of_walk_None path q :
  walk t path = None → has_scope scopes (path ++ q) false = false
                       ∧ has_scope scopes (path ++ q) true = false.
Proof.
  intros Hw. pose proof (of_flags _ _ Hof (path ++ q)) as Hf.
  rewrite (flags_None t (path ++ q)) in Hf by (by apply walk_app_None).
  injection Hf as <- <-. done.
Qed.
Lemma of_node path i node :
  walk t path = Some i → t !! i = Some node →
  tn_exact node = has_scope scopes path false ∧ tn_recursive node = has_scope scopes path true.
Proof.
  intros Hw Hn. pose proof (of_flags _ _ Hof path) as Hf.
  rewrite (flags_at t path i node) in Hf by done. by injection Hf.
Qed.

(** An exact scope at the end, or a recursive one properly below [path]. *)
Definition covered (path parts : list string) : Prop :=
  has_scope scopes (path ++ parts) false = true
  ∨ ∃ q, q ≠ [] ∧ q `prefix_of` parts ∧ has_scope scopes (path ++ q) true = true.

Lemma covered_cons path c parts :
  has_scope scopes (path ++ [c]) true = false →
  covered (path ++ [c]) parts ↔ covered path (c :: parts).
Proof.
  intros Hno. unfold covered. rewrite <- app_assoc. simpl. f_equiv. split.
  - intros (q & Hq & Hp & Hs). exists (c :: q). rewrite <- app_assoc in Hs.
    split_and!; [done|by apply prefix_cons|done].
  - intros (q & Hq & Hp & Hs). destruct q as [|c' q]; [done|].
    pose proof (prefix_cons_inv_1 _ _ _ _ Hp) as ->. apply prefix_cons_inv_2 in Hp.
    destruct q as [|d q]; [congruence|]. exists (d :: q). rewrite <- app_assoc. done.
Qed.

Lemma matches_from_spec parts : ∀ path i, walk t path = Some i →
  ∃ b, matches_from t i parts = Ok b ∧ (b = true ↔ covered path parts).
Proof.
  induction parts as [|c parts IH]; intros path i Hw;
    destruct (trie_wf_node _ _ _ (of_wf _ _ Hof) Hw) as [node Hn];
    destruct (of_node _ _ _ Hw Hn) as [He _]; simpl; unfold node_at; rewrite Hn; simpl.
  - eexists; split; [done|]. rewrite He. unfold covered. rewrite app_nil_r.
    split; [by left|]. intros [?|(q & Hq & Hp%prefix_nil_inv & _)]; [done|by subst].
  - assert (Hstep : walk t (path ++ [c]) = tn_children node !! c)
      by (rewrite walk_snoc, Hw; simpl; unfold step; by rewrite Hn).
    destruct (tn_children node !! c) as [k|] eqn:Hc.
    + destruct (trie_wf_node _ _ _ (of_wf _ _ Hof) Hstep) as [next Hk]. rewrite Hk. simpl.
      destruct (of_node _ _ _ Hstep Hk) as [_ Hr].
      destruct (tn_recursive next).
      * eexists; split; [done|]. split; [|done]. intros _. right. exists [c].
        split_and!; [done|apply prefix_cons, prefix_nil|done].
      * destruct (IH _ _ Hstep) as (b & -> & Hb). exists b. split; [done|].
        rewrite Hb. by apply covered_cons.
    + eexists; split; [done|]. split; [done|]. intros [Hs|(q & Hq & Hp & Hs)].
      * destruct (of_walk_None _ parts Hstep) as [Hf _]. rewrite <- app_assoc in Hf.
        simpl in Hf. congruence.
      * destruct q as [|c' q]; [done|]. pose proof (prefix_cons_inv_1 _ _ _ _ Hp) as ->.
        destruct (of_walk_None _ q Hstep) as [_ Hf]. rewrite <- app_assoc in Hf.
        simpl in Hf. congruence.
Qed.

Lemma covered_scope_covers parts :
  has_scope scopes [] true = true ∨ covered [] parts ↔
  existsb (scope_covers parts) scopes = true.
Proof.
  unfold covered, has_scope, scope_covers. simpl. rewrite !existsb_exists.
  setoid_rewrite existsb_exists. setoid_rewrite scope_parsed_true. split.
  - intros [(x & Hx & Hs)|[(x & Hx & Hs)|(q & Hq & Hp & x & Hx & Hs)]];
      exists x; rewrite Hs; (split; [done|]); apply bool_decide_eq_true_2;
      first [done|apply prefix_nil].
  - intros (x & Hx & Hc). destruct (scope_components x) as [[cs r]| | |] eqn:Hsc; try done.
    destruct r; simpl in Hc; guards.
    + destruct cs as [|c cs]; [left; by eauto|]. right. right. exists (c :: cs).
      split_and!; [done..|eauto].
    + right. left. exists x. by subst.
Qed.

Lemma trie_matches_of relative :
  PathTrie_matches t relative = Ok (existsb (scope_covers (relative_parts relative)) scopes).
Proof.
  unfold PathTrie_matches.
  destruct (trie_wf_node t [] 0 (of_wf _ _ Hof) eq_refl) as [root Hn]. unfold node_at.
  rewrite Hn. simpl. destruct (of_node [] 0%nat root eq_refl Hn) as [_ Hr]. rewrite Hr.
  set (parts := relative_parts relative).
  destruct (matches_from_spec parts [] 0 eq_refl) as (b & Hb & Hiff).
  pose proof (covered_scope_covers parts) as Hcov.
  destruct (has_scope scopes [] true).
  - f_equal. symmetry. apply Hcov. by left.
  - rewrite Hb. f_equal. apply eq_bool_prop_intro. rewrite !Is_true_true, Hiff, <- Hcov.
    split; [by right|]. by intros [?|?].
Qed.

Lemma matches_exact_from_spec parts : ∀ path i, walk t path = Some i →
  matches_exact_from t i parts = Ok (has_scope scopes (path ++ parts) false).
Proof.
  induction parts as [|c parts IH]; intros path i Hw;
    destruct (trie_wf_node _ _ _ (of_wf _ _ Hof) Hw) as [node Hn];
    destruct (of_node _ _ _ Hw Hn) as [He _]; simpl; unfold node_at; rewrite Hn; simpl.
  - by rewrite He, app_nil_r.
  - assert (Hstep : walk t (path ++ [c]) = tn_children node !! c)
      by (rewrite walk_snoc, Hw; simpl; unfold step; by rewrite Hn).
    replace (path ++ c :: parts) with ((path ++ [c]) ++ parts) by (by rewrite <- app_assoc).
    destruct (tn_children node !! c) as [k|]; [by apply IH|].
    by destruct (of_walk_None _ parts Hstep) as [-> _].
Qed.
Lemma trie_matches_exact_of relative :
  PathTrie_matches_exact t relative = Ok (has_scope scopes (relative_parts relative) false).
Proof. by apply (matches_exact_from_spec _ []). Qed.
End Matching.

(** Compiling scopes into a trie and matching a relative path is the same as
    testing the path against every scope: the trie built from scopes matches
    exactly the paths that some of them covers, never panics, and fails to
    build only when some scope does not parse. *)
Theorem trie_is_its_scopes scopes :
  (∃ t, insert_all PathTrie_new scopes = Ok t
        ∧ Forall (λ s, is_ok (scope_components s) = true) scopes
        ∧ (∀ relative, PathTrie_matches t relative
                       = Ok (existsb (scope_covers (relative_parts relative)) scopes))
        ∧ (∀ relative, PathTrie_matches_exact t relative
                       = Ok (existsb (scope_parsed (relative_parts relative) false) scopes)))
  ∨ (∃ scope e, scope ∈ scopes ∧ scope_components scope = Err e
                ∧ insert_all PathTrie_new scopes = Err e).
Proof.
  destruct (insert_all_settles scopes _ _ trie_of_new) as [(t & Ht & _ & Hall)|[e He]].
  - left. exists t. pose proof (insert_all_new _ _ Ht) as Hof. split_and!; [done..| |].
    + intros r. by apply trie_matches_of.
    + intros r. by apply trie_matches_exact_of.
  - right. revert He. pose proof trie_of_new as Ht. revert Ht.
    generalize PathTrie_new, (@nil string).
    induction scopes as [|scope scopes IH]; intros t seen Ht He; [done|]. simpl in He.
    destruct (settles_scope_components scope) as [[x Hx]|[e' He']].
    + destruct (trie_of_insert t seen scope) as (t1 & Hi & Ht1); [done|by rewrite Hx|].
      rewrite Hi in He. simpl in He. destruct (IH _ _ Ht1 He) as (s & e0 & ? & ? & ?).
      exists s, e0. simpl. rewrite Hi. split_and!; [by right|done..].
    + exists scope, e'. simpl. rewrite (insert_error _ _ _ He') in *. split_and!; [by left|done..].
Qed.
