(* ===== verification/JSpaceClaimFacts.v ===== *)
(** * Claims: overlaps, conflicts and canonical texts

    Two claims overlap when some path is covered by both; two projections
    conflict when a path one of them may write is one the other may read or
    write.  A canonical text parses back to the scope it stands for, unless
    trimming or the drive-letter test sees its first or last characters. *)

From stdpp Require Import base list strings gmap sorting.
From Stdlib Require Import ZArith Lia Ascii.
From S2P Require Import Prelude RustStd RustText RustPath JSpaceScopes JSpaceScopeFacts.
Open Scope Z_scope.

(** ** Overlap *)

Lemma covers_self cs r : covers cs r cs = true.
Proof. destruct r; simpl; by apply bool_decide_eq_true_2. Qed.

Lemma covers_common cs r ds r' :
  (∃ path, covers cs r path = true ∧ covers ds r' path = true) ↔
  cs = ds ∨ (r = true ∧ cs `prefix_of` ds) ∨ (r' = true ∧ ds `prefix_of` cs).
Proof.
  split.
  - intros (path & Hc & Hd). destruct r, r'; simpl in *; guards; subst; auto.
    destruct (prefix_weak_total _ _ _ Hc Hd); auto.
  - intros [->|[[-> Hp]|[-> Hp]]].
    + exists ds. by rewrite !covers_self.
    + exists ds. rewrite covers_self. split; [|done]. by apply bool_decide_eq_true_2.
    + exists cs. rewrite covers_self. split; [done|]. by apply bool_decide_eq_true_2.
Qed.

Lemma slice_starts_with_spec l prefix : slice_starts_with l prefix = true ↔ prefix `prefix_of` l.
Proof. apply bool_decide_eq_true. Qed.

Lemma claim_covers_parsed claim absolute cs r a path :
  claim_scope_components claim = Ok (a, cs, r) →
  claim_covers absolute path claim = true ↔ a = absolute ∧ covers cs r path = true.
Proof.
  unfold claim_covers. intros ->. rewrite andb_true_iff, Bool.eqb_true_iff. done.
Qed.

(** The overlap test on two claims it can parse: an answer is an answer about
    common paths, and the only other outcome is a mix of absolute and relative
    claims, which have no path in common to speak of. *)
Lemma overlap_parsed left right la ra lc rc lr rr :
  claim_scope_components left = Ok (la, lc, lr) →
  claim_scope_components right = Ok (ra, rc, rr) →
  if Bool.eqb la ra then
    ∃ b, scope_claims_overlap left right = Ok b
         ∧ (b = true ↔ ∃ path, claim_covers la path left = true ∧ claim_covers la path right = true)
  else scope_claims_overlap left right
       = Err (admission_error "JSPACE_SCOPE_REPRESENTATION_MISMATCH" left
                "absolute and repo-relative scope claims cannot be compared losslessly").
Proof.
  intros Hl Hr. unfold scope_claims_overlap. rewrite Hl, Hr. simpl.
  destruct (Bool.eqb la ra) eqn:Ha; [|done]. apply Bool.eqb_true_iff in Ha as ->. simpl.
  setoid_rewrite (claim_covers_parsed left ra lc lr ra _ Hl).
  setoid_rewrite (claim_covers_parsed right ra rc rr ra _ Hr).
  assert (Hgoal : (∃ path, (ra = ra ∧ covers lc lr path = true) ∧ ra = ra ∧ covers rc rr path = true)
                  ↔ lc = rc ∨ (lr = true ∧ lc `prefix_of` rc) ∨ (rr = true ∧ rc `prefix_of` lc)).
  { rewrite <- covers_common. naive_solver. }
  case_bool_decide as Heq.
  - eexists; split; [done|]. rewrite Hgoal. naive_solver.
  - eexists; split; [done|]. rewrite Hgoal.
    rewrite orb_true_iff, !andb_true_iff, !slice_starts_with_spec. naive_solver.
Qed.

Lemma settles_claim_scope claim : settles (claim_scope_components claim).
Proof.
  unfold claim_scope_components. case_match; (apply settles_bind;
    [apply settles_scope_components|intros [cs r]]).
  - apply settles_bind; [apply settles_reject_if|]. intros ?. left; eauto.
  - left; eauto.
Qed.

Lemma overlap_Ok left right b :
  scope_claims_overlap left right = Ok b →
  ∃ a, (b = true ↔ ∃ path, claim_covers a path left = true ∧ claim_covers a path right = true)
       ∧ ∀ path, claim_covers (negb a) path left = false ∧ claim_covers (negb a) path right = false.
Proof.
  intros Ho. pose proof overlap_parsed as Hov.
  assert (∃ a cs r a' cs' r', claim_scope_components left = Ok (a, cs, r)
          ∧ claim_scope_components right = Ok (a', cs', r')) as (a&cs&r&a'&cs'&r'&Hl&Hr).
  { unfold scope_claims_overlap in Ho.
    destruct (claim_scope_components left) as [[[a cs] r]| | |]; try done. simpl in Ho.
    destruct (claim_scope_components right) as [[[a' cs'] r']| | |]; try done.
    by repeat eexists. }
  specialize (Hov _ _ _ _ _ _ _ _ Hl Hr). destruct (Bool.eqb a a') eqn:Ha; [|congruence].
  apply Bool.eqb_prop in Ha. subst a'. destruct Hov as (b' & Hb' & Hiff).
  assert (b' = b) as -> by congruence. exists a. split; [exact Hiff|]. intros path.
  unfold claim_covers. rewrite Hl, Hr. by destruct a.
Qed.

(** A claim on a path, whatever its form. *)
Definition claims_cover (path : bool * list string) (claims : list string) : Prop :=
  ∃ claim, claim ∈ claims ∧ claim_covers path.1 path.2 claim = true.

Lemma any_result_true {A} (f : A → result bool) l :
  any_result f l = Ok true ↔ ∃ l1 x l2, l = l1 ++ x :: l2 ∧ f x = Ok true
                                        ∧ Forall (λ y, f y = Ok false) l1.
Proof.
  induction l as [|x l IH]; simpl.
  - split; [done|]. by intros ([]&?&?&?&_).
  - split.
    + destruct (f x) as [[]| | |] eqn:Hx; simpl; try done.
      * intros _. by exists [], x, l.
      * rewrite IH. intros (l1&y&l2&->&Hy&Hall). exists (x :: l1), y, l2. by repeat constructor.
    + intros ([|z l1]&y&l2&[= -> ->]&Hy&Hall); [by rewrite Hy|].
      apply Forall_cons in Hall as [Hz Hall]. rewrite Hz. simpl. apply IH. naive_solver.
Qed.
Lemma any_result_false {A} (f : A → result bool) l :
  any_result f l = Ok false ↔ Forall (λ y, f y = Ok false) l.
Proof.
  induction l as [|x l IH]; simpl; [done|]. rewrite Forall_cons, <- IH.
  destruct (f x) as [[]| | |]; simpl; naive_solver.
Qed.

Lemma overlaps_cover left rights b :
  any_result (scope_claims_overlap left) rights = Ok b →
  b = true ↔ ∃ path, claim_covers path.1 path.2 left = true ∧ claims_cover path rights.
Proof.
  intros Hany. split.
  - intros ->. apply any_result_true in Hany as (l1&right&l2&->&Ho&_).
    destruct (overlap_Ok _ _ _ Ho) as (a & [Hb _] & _).
    destruct Hb as (path & ? & ?); [done|]. exists (a, path). split; [done|].
    exists right. split; [apply elem_of_app; right; left|done].
  - destruct b; [done|]. intros ([a path] & Hl & right & Hin & Hr).
    apply any_result_false in Hany. rewrite Forall_forall in Hany. specialize (Hany _ Hin).
    destruct (overlap_Ok _ _ _ Hany) as (a' & [_ Hb] & Hno). simpl in *. apply Hb.
    destruct (decide (a = a')) as [<-|Hne]; [eauto|]. exfalso.
    destruct (Hno path) as [Hf _]. replace (negb a') with a in Hf by (by destruct a, a').
    congruence.
Qed.

Lemma any_overlaps_cover lefts rights b :
  any_result (λ left, any_result (scope_claims_overlap left) rights) lefts = Ok b →
  b = true ↔ ∃ path, claims_cover path lefts ∧ claims_cover path rights.
Proof.
  intros Hany. split.
  - intros ->. apply any_result_true in Hany as (l1&left&l2&->&Ho&_).
    apply overlaps_cover in Ho as [Ho _]. destruct Ho as (path & Hl & Hr); [done|].
    exists path. split; [|done]. exists left. split; [apply elem_of_app; right; left|done].
  - destruct b; [done|]. intros (path & (left & Hin & Hl) & Hr).
    apply any_result_false in Hany. rewrite Forall_forall in Hany. specialize (Hany _ Hin).
    apply overlaps_cover in Hany as [_ Hb]. apply Hb. eauto.
Qed.

(** An answer of the conflict test is about a common path. *)
Lemma projections_conflict_spec left right b :
  scope_projections_conflict left right = Ok b →
  b = true ↔
  ∃ path, (claims_cover path (sp_write_scopes left)
           ∧ claims_cover path (sp_read_scopes right ++ sp_write_scopes right))
          ∨ (claims_cover path (sp_write_scopes right)
             ∧ claims_cover path (sp_read_scopes left ++ sp_write_scopes left)).
Proof.
  unfold scope_projections_conflict. intros (forward & Hf & Hc)%bind_Ok_inv.
  apply any_overlaps_cover in Hf.
  destruct forward.
  - injection Hc as <-. split; [|done]. intros _. destruct Hf as [Hf _].
    destruct (Hf eq_refl) as (path & ? & ?). exists path. by left.
  - apply any_overlaps_cover in Hc. rewrite Hc. split.
    + intros (path & Hw & claim & Hin & Hcov). exists path. right. split; [done|].
      exists claim. rewrite elem_of_app. auto.
    + intros (path & [[Hw Hr]|[Hw (claim & [Hin|Hin]%elem_of_app & Hcov)]]).
      * destruct Hf as [_ Hf]. discriminate Hf. eauto.
      * exists path. split; [done|]. by exists claim.
      * destruct Hf as [_ Hf]. discriminate Hf. exists path. split; [by exists claim|].
        destruct Hw as (w & ? & ?). exists w. rewrite elem_of_app. auto.
Qed.

(** C27: the conflict test is exact: when it answers, two projections conflict
    if and only if some path is covered by a write claim of one and by a read
    or write claim of the other.  (It does not answer when a claim does not
    parse, or when absolute and relative claims would have to be compared.) *)
Theorem conflict_is_a_common_path left right b :
  scope_projections_conflict left right = Ok b →
  b = true ↔
  ∃ path, (claims_cover path (sp_write_scopes left)
           ∧ claims_cover path (sp_read_scopes right ++ sp_write_scopes right))
          ∨ (claims_cover path (sp_write_scopes right)
             ∧ claims_cover path (sp_read_scopes left ++ sp_write_scopes left)).
Proof. apply projections_conflict_spec. Qed.

(** ** Canonical texts *)

Definition star : ascii := ascii_of_nat 42.

Record good_component (c : string) : Prop := {
  gc_nonempty : is_empty c = false;
  gc_not_dot : c ≠ ".";
  gc_not_dots : c ≠ "..";
  gc_slash : has_char slash c = false;
  gc_backslash : has_char backslash c = false;
  gc_star : has_char star c = false;
}.

Lemma split_char_has c d s :
  has_char d s = false → Forall (λ part, has_char d part = false) (split_char c s).
Proof.
  induction s as [|a s IH]; simpl; [by repeat constructor|].
  intros [Ha Hs]%orb_false_iff. specialize (IH Hs). destruct (Ascii.eqb a c); [by constructor|].
  destruct (split_char c s) as [|part rest].
  - constructor; [|done]. simpl. by rewrite Ha.
  - apply Forall_cons in IH as [Hp Hrest]. constructor; [|done]. simpl. by rewrite Ha.
Qed.
Lemma join_cons separator x y l :
  join separator (x :: y :: l) = x +:+ separator +:+ join separator (y :: l).
Proof. reflexivity. Qed.
Lemma has_char_join c separator l :
  has_char c separator = false → Forall (λ part, has_char c part = false) l →
  has_char c (join separator l) = false.
Proof.
  intros Hsep Hall. induction Hall as [|x l Hx Hl IH]; [done|]. destruct l as [|y l]; [done|].
  rewrite join_cons, !has_char_append, Hx, Hsep. done.
Qed.

Lemma collect_components_Ok raw parts cs :
  collect_components raw parts = Ok cs ↔ cs = parts ∧ Forall (λ c, c ≠ ".."%string) parts.
Proof.
  revert cs. induction parts as [|p parts IH]; intros cs; simpl.
  - split; [by intros [= <-]|by intros [-> _]].
  - case_bool_decide as Hp.
    + split; [done|]. intros [_ Hall]. by apply Forall_cons in Hall as [? _].
    + destruct (collect_components raw parts) as [ds| | |]; simpl;
        [|by split; [done|]; intros [_ [_ Hall]%Forall_cons]; destruct (IH parts) as [_ Hbad];
          discriminate Hbad..].
      * destruct (IH ds) as [[-> Hall] _]; [done|]. split.
        -- intros [= <-]. by repeat constructor.
        -- by intros [-> _].
Qed.

Lemma scope_parts_good scope :
  has_char backslash scope = false → has_char star scope = false →
  Forall (λ c, c ≠ ".."%string) (scope_parts scope) → Forall good_component (scope_parts scope).
Proof.
  intros Hb Hs Hdots. apply Forall_forall. intros c Hc.
  rewrite Forall_forall in Hdots. specialize (Hdots _ Hc).
  apply list_elem_of_filter in Hc as [Hf Hc]. guards.
  pose proof (split_char_parts slash scope) as H1. rewrite Forall_forall in H1.
  pose proof (split_char_has slash backslash scope Hb) as H2. rewrite Forall_forall in H2.
  pose proof (split_char_has slash star scope Hs) as H3. rewrite Forall_forall in H3.
  split; auto.
Qed.

Lemma has_char_strip c p s r : strip_prefix p s = Some r → has_char c s = false → has_char c r = false.
Proof.
  intros ->%strip_prefix_Some. rewrite has_char_append. by intros [_ ?]%orb_false_iff.
Qed.
Lemma has_char_strip_suffix c p s r :
  strip_suffix p s = Some r → has_char c s = false → has_char c r = false.
Proof.
  intros ->%strip_suffix_Some. rewrite has_char_append. by intros [? _]%orb_false_iff.
Qed.

(** Everything [scope_components] accepts is made of good components. *)
Lemma scope_components_good raw cs r : scope_components raw = Ok (cs, r) → Forall good_component cs.
Proof.
  unfold scope_components. intros Hs. outcome_inv. simplify_eq.
  match goal with H : collect_components _ _ = _ |- _ =>
    apply collect_components_Ok in H as [-> Hd] end.
  apply scope_parts_good; [|done..].
  set (s := unix_separators (trim raw)) in *.
  assert (Hb : has_char backslash s = false) by (by apply has_char_replaced).
  clearbody s. set (s1 := if _ || _ then _ else s).
  assert (Hb1 : has_char backslash s1 = false).
  { unfold s1. case_match; [|done]. destruct (strip_suffix "/**" s) eqn:Hsuf; [|done].
    by eapply has_char_strip_suffix. }
  destruct (strip_prefix "./" s1) eqn:Hp; [|done]. by eapply has_char_strip.
Qed.

(** The canonical text of a parsed scope, relative and absolute. *)
Definition suffix_text (recursive : bool) : string := if recursive then "/**" else "".
Definition scope_text (cs : list string) (recursive : bool) : string :=
  match cs with
  | [] => if recursive then "**" else "."
  | _ => join "/" cs +:+ suffix_text recursive
  end.
Definition claim_text (cs : list string) (recursive : bool) : string :=
  "/" +:+ join "/" cs +:+ suffix_text recursive.

Lemma canonical_scope_text s cs r :
  scope_components s = Ok (cs, r) → canonical_scope s = Ok (scope_text cs r).
Proof.
  unfold canonical_scope, scope_text, suffix_text. intros ->. simpl.
  destruct cs, r; rewrite ?append_empty; done.
Qed.

(** Trimming leaves the text, and its second byte is not a colon. *)
Definition clean_scope (cs : list string) (recursive : bool) : bool :=
  bool_decide (trim (scope_text cs recursive) = scope_text cs recursive)
  && negb (has_drive_colon (scope_text cs recursive)).

Section Reparse.
Context (c : string) (cs : list string) (r : bool).
Hypothesis Hgood : Forall good_component (c :: cs).

Lemma join_good_char d :
  Ascii.eqb slash d = false → Forall (λ c, has_char d c = false) (c :: cs) →
  has_char d (join "/" (c :: cs)) = false.
Proof. intros Hd Hall. apply has_char_join; [|done]. change (Ascii.eqb slash d || false = false). by rewrite Hd. Qed.
Lemma good_backslash : has_char backslash (join "/" (c :: cs)) = false.
Proof.
  apply join_good_char; [done|]. eapply Forall_impl; [exact Hgood|]. by intros ? [].
Qed.
Lemma good_star : has_char star (join "/" (c :: cs)) = false.
Proof.
  apply join_good_char; [done|]. eapply Forall_impl; [exact Hgood|]. by intros ? [].
Qed.
Lemma good_split : split_char slash (join "/" (c :: cs)) = c :: cs.
Proof.
  apply split_char_join; [done|]. eapply Forall_impl; [exact Hgood|]. by intros ? [].
Qed.
Lemma good_parts : scope_parts (join "/" (c :: cs)) = c :: cs.
Proof.
  unfold scope_parts. rewrite good_split. clear - Hgood.
  induction Hgood as [|x l Hx Hl IH]; [done|]. rewrite filter_cons_True; [by rewrite IH|].
  rewrite (gc_nonempty _ Hx), bool_decide_eq_false_2; [done|]. by apply gc_not_dot.
Qed.
Lemma good_head u : ∃ a w, join "/" (c :: cs) +:+ u = String a w ∧ Ascii.eqb slash a = false.
Proof.
  apply Forall_cons in Hgood as [Hc _]. destruct c as [|a c'].
  { by pose proof (gc_nonempty _ Hc). }
  exists a. destruct cs as [|y l].
  - exists (c' +:+ u). split; [done|]. pose proof (gc_slash _ Hc) as Hs. simpl in Hs.
    apply orb_false_iff in Hs as [Hs _]. by rewrite Ascii.eqb_sym.
  - exists ((c' +:+ "/" +:+ join "/" (y :: l)) +:+ u). split; [done|].
    pose proof (gc_slash _ Hc) as Hs. simpl in Hs.
    apply orb_false_iff in Hs as [Hs _]. by rewrite Ascii.eqb_sym.
Qed.
Lemma good_not_dot : strip_prefix "./" (join "/" (c :: cs)) = None.
Proof.
  destruct (strip_prefix "./" _) as [w|] eqn:Hp; [|done]. apply strip_prefix_Some in Hp.
  pose proof good_split as Hs. rewrite Hp in Hs. simpl in Hs. injection Hs as Hc _.
  apply Forall_cons in Hgood as [Hg _]. by destruct (gc_not_dot _ Hg).
Qed.

Lemma good_no_suffix s : has_char star s = false → ends_with "/**" s = false.
Proof.
  intros Hs. destruct (ends_with "/**" s) eqn:He; [|done].
  apply ends_with_spec in He as [w ->]. rewrite has_char_append in Hs. simpl in Hs.
  by rewrite orb_true_r in Hs.
Qed.

Lemma scope_components_text :
  let text := join "/" (c :: cs) +:+ suffix_text r in
  trim text = text → has_drive_colon text = false →
  scope_components text = Ok (c :: cs, r).
Proof.
  intros text Htrim Hcolon.
  assert (Hb : has_char backslash text = false).
  { unfold text. rewrite has_char_append, good_backslash. by destruct r. }
  assert (Hu : unix_separators text = text) by (by apply replace_char_none).
  destruct (good_head (suffix_text r)) as (a & w & Ht & Ha). fold text in Ht.
  assert (Hslash : starts_with "/" text = false).
  { unfold starts_with. rewrite Ht. unfold strip_prefix.
    change "/"%char with slash. by rewrite Ha. }
  assert (Hne : is_empty text = false) by (by rewrite Ht).
  assert (Hrec : (bool_decide (text = "**") || ends_with "/**" text) = r).
  { destruct r.
    - unfold text, suffix_text. rewrite (proj2 (ends_with_spec _ _)) by eauto. apply orb_true_r.
    - unfold text, suffix_text. rewrite append_empty, (good_no_suffix _ good_star), orb_false_r.
      apply bool_decide_eq_false_2. intros Heq. pose proof good_star as Hs.
      rewrite Heq in Hs. discriminate Hs. }
  assert (Hstrip : (if r then default "" (strip_suffix "/**" text) else text)
                   = join "/" (c :: cs)).
  { unfold text, suffix_text. destruct r; [by rewrite strip_suffix_append|apply append_empty]. }
  unfold scope_components. rewrite Htrim, Hu, Hne, Hslash, Hcolon.
  cbn [reject_if mbind outcome_bind orb].
  rewrite Hrec, Hstrip, good_not_dot. change (ascii_of_nat 42) with star.
  cbn [default from_option]. rewrite good_star. cbn [reject_if mbind outcome_bind].
  rewrite good_parts.
  rewrite (proj2 (collect_components_Ok text (c :: cs) (c :: cs))); [done|].
  split; [done|]. eapply Forall_impl; [exact Hgood|]. by intros ? [].
Qed.
End Reparse.

(** A canonical scope parses back to the scope it was made from, and is
    its own canonical form, when trimming leaves its text and it does not look
    like a drive letter. *)
Theorem canonical_scope_roundtrip s cs r :
  scope_components s = Ok (cs, r) → clean_scope cs r = true →
  ∃ text, canonical_scope s = Ok text ∧ scope_components text = Ok (cs, r)
          ∧ canonical_scope text = Ok text.
Proof.
  intros Hs Hclean. exists (scope_text cs r). unfold clean_scope in Hclean. guards.
  assert (Hre : scope_components (scope_text cs r) = Ok (cs, r)).
  { destruct cs as [|c cs]; [by destruct r|].
    apply scope_components_text; [by eapply scope_components_good|done..]. }
  split_and!; [by apply canonical_scope_text|done|by apply canonical_scope_text].
Qed.
Lemma canonical_scope_roundtrip_witness :
  ∃ text, canonical_scope " ./src//a b/**" = Ok text
          ∧ scope_components text = Ok (["src"; "a b"], true) ∧ canonical_scope text = Ok text.
Proof. apply (canonical_scope_roundtrip _ ["src"; "a b"] true); reflexivity. Defined.

(** The side condition is needed: three scopes that parse, whose canonical text
    means another scope or none. *)
Theorem canonical_scope_not_idempotent :
  canonical_scope "x /" = Ok "x " ∧ canonical_scope "x " = Ok "x"
  ∧ canonical_scope "./ x" = Ok " x" ∧ canonical_scope " x" = Ok "x"
  ∧ canonical_scope "./a:b" = Ok "a:b" ∧ is_err (canonical_scope "a:b") = true.
Proof. vm_compute. by split_and!. Qed.

(** An absolute claim parses back under the same condition. *)
Lemma claim_scope_text c cs r :
  Forall good_component (c :: cs) → clean_scope (c :: cs) r = true →
  trim (claim_text (c :: cs) r) = claim_text (c :: cs) r →
  claim_scope_components (claim_text (c :: cs) r) = Ok (true, c :: cs, r).
Proof.
  intros Hgood Hclean Htrim. unfold clean_scope in Hclean. guards.
  unfold claim_scope_components. rewrite Htrim.
  assert (Hb : has_char backslash (claim_text (c :: cs) r) = false).
  { unfold claim_text. rewrite !has_char_append, good_backslash by done. by destruct r. }
  unfold unix_separators. rewrite (replace_char_none _ _ _ Hb).
  destruct (good_head c cs Hgood (suffix_text r)) as (a & w & Ht & Ha).
  assert (Hstart : trim_start_char slash (claim_text (c :: cs) r)
                   = join "/" (c :: cs) +:+ suffix_text r).
  { unfold claim_text. rewrite Ht. change (trim_start_char slash (String slash (String a w)) = String a w).
    simpl. by rewrite (Ascii.eqb_sym a), Ha. }
  rewrite Hstart, (scope_components_text c cs r) by done. done.
Qed.
