(* ===== verification/JSpaceArgv.v ===== *)
(** * Shell lines: the argv an admission reads from a command

    [parse_shell_argv] and the helpers that find the shell line and the type of
    a command ([path/src/jspace.rs]).  A character is the text of its UTF-8
    encoding. *)

From stdpp Require Import base list strings gmap sorting.
From Stdlib Require Import ZArith Lia Ascii.
From S2P Require Import Prelude RustStd Externals RustText RustPath JSpaceScopes.
Open Scope Z_scope.

(** ** Command types *)

Definition normalize_command_type (raw : string) : string :=
  let name := replace_char (ascii_of_nat 45) (ascii_of_nat 95) (to_ascii_lowercase (trim raw)) in
  if contains ["bash"; "zsh"; "shell"; "shells"; "shell_command"; "shll"; "shall"] name
  then "shell_command"
  else if contains ["web_discover"; "web_search"; "web_fetch"] name then "web_discover"
  else if contains ["generate_media"; "image_gen"; "generate_image"] name then "generate_media"
  else if contains ["read_media"; "view_media"; "inspect_media"] name then "read_media"
  else name.

Definition is_known_command_type (command_type : string) : bool :=
  contains ["shell_command"; "bash"; "zsh"; "apply_patch"; "planning"; "task_status";
            "web_discover"; "generate_media"; "read_media"; "source_read"] command_type.

(** ** The line and the workdir *)

Section Parts.
Context `{SerdeJson}.

(** [.and_then(Value::as_str).map(str::trim).filter(|value| !value.is_empty())]. *)
Definition trimmed_field (parsed : option Value) (key other : string) : option string :=
  value ← parsed;
  field ← match value_get value key with
          | Some field => Some field
          | None => value_get value other
          end;
  text ← as_str field;
  if is_empty (trim text) then None else Some (trim text).

Definition shell_command_parts (raw : string) : string * option string :=
  let parsed := from_str raw in
  (default (trim raw) (trimmed_field parsed "command" "cmd"),
   trimmed_field parsed "workdir" "cwd").
Definition shell_line_parts (raw : string) : string * option string := shell_command_parts raw.
End Parts.

(** ** [parse_shell_argv] *)

Inductive Quote := QuoteNone | QuoteSingle | QuoteDouble.
#[export] Instance Quote_eq_dec : EqDecision Quote.
Proof. solve_decision. Defined.

Definition byte_char (n : nat) : string := ascii_char (ascii_of_nat n).
Definition single_quote : string := byte_char 39.
Definition double_quote : string := byte_char 34.
Definition backslash_char : string := byte_char 92.
(** NUL, carriage return, line feed. *)
Definition is_line_control (c : string) : bool := contains (byte_char <$> [0; 13; 10]%nat) c.
(** [$] and the backquote. *)
Definition is_substitution (c : string) : bool := contains (byte_char <$> [36; 96]%nat) c.
(** [; & | < > ( ) $ ` # * ? [ ] { } ~]. *)
Definition is_shell_meta (c : string) : bool :=
  contains (byte_char <$> [59; 38; 124; 60; 62; 40; 41; 36; 96; 35; 42; 63; 91; 93; 123; 125; 126]%nat) c.

Section Argv.
Context (raw : string).

Definition unsafe_error (detail : string) : JSpaceError :=
  JSpaceError_new "JSPACE_COMMAND_SYNTAX_UNSAFE" "command" raw detail.

Fixpoint argv_loop (characters : list string) (quote : Quote) (token : string)
    (token_started : bool) (argv : list string) : result (list string) :=
  match characters with
  | [] =>
      if bool_decide (quote ≠ QuoteNone)
      then Err (unsafe_error "unterminated shell quote is invalid") else
      let argv := if token_started then argv ++ [token] else argv in
      if bool_decide (argv = [])
      then Err (unsafe_error "command must contain an executable") else Ok argv
  | character :: rest =>
      if is_line_control character
      then Err (unsafe_error "control bytes and multiline shell commands are denied") else
      match quote with
      | QuoteSingle =>
          if bool_decide (character = single_quote)
          then argv_loop rest QuoteNone token token_started argv
          else argv_loop rest QuoteSingle (token +:+ character) token_started argv
      | QuoteDouble =>
          if bool_decide (character = double_quote)
          then argv_loop rest QuoteNone token token_started argv
          else if bool_decide (character = backslash_char) then
            match rest with
            | [] => Err (unsafe_error "trailing escape is invalid")
            | escaped :: rest =>
                argv_loop rest QuoteDouble (token +:+ escaped) token_started argv
            end
          else if is_substitution character
          then Err (unsafe_error "shell expansion and command substitution are denied")
          else argv_loop rest QuoteDouble (token +:+ character) token_started argv
      | QuoteNone =>
          if is_whitespace character then
            if token_started then argv_loop rest QuoteNone "" false (argv ++ [token])
            else argv_loop rest QuoteNone token false argv
          else if bool_decide (character = single_quote)
          then argv_loop rest QuoteSingle token true argv
          else if bool_decide (character = double_quote)
          then argv_loop rest QuoteDouble token true argv
          else if bool_decide (character = backslash_char) then
            match rest with
            | [] => Err (unsafe_error "trailing escape is invalid")
            | escaped :: rest =>
                if is_line_control escaped
                then Err (unsafe_error "escaped control bytes are denied")
                else argv_loop rest QuoteNone (token +:+ escaped) true argv
            end
          else if is_shell_meta character
          then Err (unsafe_error
                      "shell control, expansion, redirection, comments, and globbing are denied")
          else argv_loop rest QuoteNone (token +:+ character) true argv
      end
  end.

Definition parse_shell_argv : result (list string) :=
  if is_empty (trim raw) then Err (unsafe_error "command must be non-empty")
  else argv_loop (chars raw) QuoteNone "" false [].
End Argv.

Example argv_examples :
  parse_shell_argv " cargo test 'a b'c \ d" = Ok ["cargo"; "test"; "a bc"; " d"]
  ∧ is_err (parse_shell_argv "ls; rm x") = true
  ∧ is_err (parse_shell_argv "ls 'x") = true
  ∧ parse_shell_argv "''" = Ok [""]
  ∧ is_err (parse_shell_argv "   ") = true
  ∧ normalize_command_type " Web-Fetch " = "web_discover".
Proof. vm_compute. by split_and!. Qed.

(** ** Shell lines against their grammar

    A shell line is a sequence of words; a word is a sequence of segments, each
    a plain character, an escaped character or a quoted text.  The parser
    accepts exactly the lines of this grammar and returns the values of their
    words. *)

#[local] Arguments contains {_ _} _ _ : simpl never.

(** ** The grammar *)

Inductive DoubleChar := DPlain (c : string) | DEscaped (c : string).
Inductive Segment :=
| Bare (c : string)
| Escaped (c : string)
| Single (text : list string)
| Double (text : list DoubleChar).

Definition double_ok (d : DoubleChar) : bool :=
  match d with
  | DPlain c => negb (is_line_control c || is_substitution c
                      || contains [double_quote; backslash_char] c)
  | DEscaped _ => true
  end.
Definition segment_ok (s : Segment) : bool :=
  match s with
  | Bare c => negb (is_line_control c || is_whitespace c || is_shell_meta c
                    || contains [single_quote; double_quote; backslash_char] c)
  | Escaped c => negb (is_line_control c)
  | Single text => forallb (λ c, negb (is_line_control c || bool_decide (c = single_quote))) text
  | Double text => forallb double_ok text
  end.

(** The characters of a segment in the line, and its value. *)
Definition double_spelling (d : DoubleChar) : list string :=
  match d with DPlain c => [c] | DEscaped c => [backslash_char; c] end.
Definition double_value (d : DoubleChar) : string :=
  match d with DPlain c | DEscaped c => c end.
Definition spelling (s : Segment) : list string :=
  match s with
  | Bare c => [c]
  | Escaped c => [backslash_char; c]
  | Single text => [single_quote] ++ text ++ [single_quote]
  | Double text => [double_quote] ++ (text ≫= double_spelling) ++ [double_quote]
  end.
Definition concat_text (l : list string) : string := foldr (λ c s, c +:+ s) "" l.
Definition segment_value (s : Segment) : string :=
  match s with
  | Bare c | Escaped c => c
  | Single text => concat_text text
  | Double text => concat_text (double_value <$> text)
  end.
Definition word_value (word : list Segment) : string := concat_text (segment_value <$> word).

(** White space other than a line control separates words. *)
Definition blank (c : string) : bool := is_whitespace c && negb (is_line_control c).

(** The rest of a line after a word: white space, and words with white space
    before each. *)
Inductive tail : list string → list string → Prop :=
| tail_end : tail [] []
| tail_blank c cs words : blank c = true → tail cs words → tail (c :: cs) words
| tail_word c word cs words :
    blank c = true → word ≠ [] → forallb segment_ok word = true → tail cs words →
    tail (c :: (word ≫= spelling) ++ cs) (word_value word :: words).
(** A line: its first word may stand at the start. *)
Inductive line : list string → list string → Prop :=
| line_tail cs words : tail cs words → line cs words
| line_word word cs words :
    word ≠ [] → forallb segment_ok word = true → tail cs words →
    line ((word ≫= spelling) ++ cs) (word_value word :: words).

Lemma concat_text_app l k : concat_text (l ++ k) = concat_text l +:+ concat_text k.
Proof. induction l as [|c l IH]; simpl; [done|]. by rewrite IH, append_assoc. Qed.
Lemma word_value_cons s word : word_value (s :: word) = segment_value s +:+ word_value word.
Proof. reflexivity. Qed.

(** ** The parser accepts the lines of the grammar *)

Section Loop.
Context (raw : string).

Lemma blank_not_special c :
  blank c = true → is_line_control c = false ∧ is_whitespace c = true.
Proof. unfold blank. intros. by guards. Qed.

Lemma contains_false `{EqDecision A} (l : list A) x : contains l x = false ↔ x ∉ l.
Proof. apply bool_decide_eq_false. Qed.

Lemma loop_single text cs tok argv :
  segment_ok (Single text) = true →
  argv_loop raw (text ++ single_quote :: cs) QuoteSingle tok true argv
  = argv_loop raw cs QuoteNone (tok +:+ concat_text text) true argv.
Proof.
  simpl. revert tok. induction text as [|c text IH]; intros tok Hok.
  { rewrite append_empty. done. }
  simpl in Hok. guards. simpl. rewrite bool_decide_eq_false_2 by done.
  match goal with H : is_line_control c = false |- _ => rewrite H end.
  rewrite IH by done. by rewrite append_assoc.
Qed.
Lemma loop_double text cs tok argv :
  segment_ok (Double text) = true →
  argv_loop raw ((text ≫= double_spelling) ++ double_quote :: cs) QuoteDouble tok true argv
  = argv_loop raw cs QuoteNone (tok +:+ concat_text (double_value <$> text)) true argv.
Proof.
  simpl. revert tok. induction text as [|d text IH]; intros tok Hok.
  { rewrite append_empty. done. }
  simpl in Hok. guards. destruct d as [c|c]; simpl in *; guards.
  - match goal with H : contains _ c = false |- _ =>
      apply contains_false in H; rewrite !not_elem_of_cons in H; destruct H as (? & ? & _) end.
    rewrite !bool_decide_eq_false_2 by done.
    repeat match goal with H : _ = false |- _ => rewrite H; clear H end.
    rewrite IH by done. by rewrite append_assoc.
  - rewrite IH by done. by rewrite append_assoc.
Qed.

Lemma loop_segment s cs tok st argv :
  segment_ok s = true →
  argv_loop raw (spelling s ++ cs) QuoteNone tok st argv
  = argv_loop raw cs QuoteNone (tok +:+ segment_value s) true argv.
Proof.
  intros Hok. destruct s as [c|c|text|text].
  - simpl in *. guards.
    match goal with H : contains _ c = false |- _ =>
      apply contains_false in H; rewrite !not_elem_of_cons in H; destruct H as (?&?&?&_) end.
    rewrite !bool_decide_eq_false_2 by done.
    by repeat match goal with H : _ = false |- _ => rewrite H; clear H end.
  - simpl in *. guards. by match goal with H : _ = false |- _ => rewrite H end.
  - simpl. rewrite <- app_assoc. by apply (loop_single text).
  - simpl. rewrite <- app_assoc. by apply (loop_double text).
Qed.

Lemma loop_word word cs tok st argv :
  word ≠ [] → forallb segment_ok word = true →
  argv_loop raw ((word ≫= spelling) ++ cs) QuoteNone tok st argv
  = argv_loop raw cs QuoteNone (tok +:+ word_value word) true argv.
Proof.
  intros Hne. revert tok st. induction word as [|s word IH]; [done|].
  intros tok st Hok. simpl in Hok. guards. simpl. rewrite <- app_assoc, loop_segment by done.
  rewrite word_value_cons, <- append_assoc. destruct word as [|s' word].
  - simpl. by rewrite append_empty.
  - by apply IH.
Qed.

(** The words a state has collected. *)
Definition pushed (tok : string) (st : bool) (argv : list string) : list string :=
  argv ++ (if st then [tok] else []).

Lemma loop_blank c cs tok st argv :
  blank c = true → (st = false → tok = "") →
  argv_loop raw (c :: cs) QuoteNone tok st argv
  = argv_loop raw cs QuoteNone "" false (pushed tok st argv).
Proof.
  intros [Hc Hw]%blank_not_special Htok. simpl. rewrite Hc, Hw. unfold pushed.
  destruct st; [done|]. rewrite Htok, app_nil_r by done. done.
Qed.

Lemma loop_tail cs words : tail cs words → ∀ tok st argv,
  (st = false → tok = "") → pushed tok st argv ++ words ≠ [] →
  argv_loop raw cs QuoteNone tok st argv = Ok (pushed tok st argv ++ words).
Proof.
  induction 1 as [|c cs words Hc Ht IH|c word cs words Hc Hne Hok Ht IH]; intros tok st argv Hst Hout.
  - rewrite app_nil_r in *. simpl. unfold pushed in *. destruct st; rewrite ?app_nil_r in *.
    + by rewrite bool_decide_eq_false_2.
    + by rewrite bool_decide_eq_false_2.
  - rewrite loop_blank by done. rewrite IH; unfold pushed in *; by rewrite ?app_nil_r.
  - rewrite loop_blank, loop_word by done. rewrite IH; [|done|].
    + unfold pushed. f_equal. rewrite <- app_assoc. done.
    + unfold pushed. rewrite <- app_assoc. simpl. by destruct (argv ++ _).
Qed.

Lemma loop_line cs words : line cs words → words ≠ [] →
  argv_loop raw cs QuoteNone "" false [] = Ok words.
Proof.
  intros [cs' words' Ht|word cs' words' Hne Hok Ht] Hw.
  - by apply (loop_tail _ _ Ht "" false []).
  - rewrite loop_word by done. by apply (loop_tail _ _ Ht (word_value word) true []).
Qed.

(** ** Every accepted line is one of the grammar *)

Definition rest_spec (cs : list string) (tok : string) (st : bool) (argv out : list string) : Prop :=
  ∃ word cs' words, cs = (word ≫= spelling) ++ cs' ∧ forallb segment_ok word = true
    ∧ tail cs' words
    ∧ out = pushed (tok +:+ word_value word) (st || bool_decide (word ≠ [])) argv ++ words.
Definition quote_spec (quote : Quote) (cs : list string) (tok : string) (st : bool)
    (argv out : list string) : Prop :=
  match quote with
  | QuoteNone => rest_spec cs tok st argv out
  | QuoteSingle => ∃ text cs', cs = text ++ single_quote :: cs'
      ∧ segment_ok (Single text) = true ∧ rest_spec cs' (tok +:+ concat_text text) true argv out
  | QuoteDouble => ∃ text cs', cs = (text ≫= double_spelling) ++ double_quote :: cs'
      ∧ segment_ok (Double text) = true
      ∧ rest_spec cs' (tok +:+ concat_text (double_value <$> text)) true argv out
  end.

Lemma rest_spec_segment s cs tok st argv out :
  segment_ok s = true → rest_spec cs (tok +:+ segment_value s) true argv out →
  rest_spec (spelling s ++ cs) tok st argv out.
Proof.
  intros Hs (word & cs' & words & -> & Hok & Ht & ->). exists (s :: word), cs', words.
  split_and!.
  - simpl. by rewrite <- app_assoc.
  - simpl. by rewrite Hs.
  - done.
  - by rewrite word_value_cons, (bool_decide_eq_true_2 (s :: word ≠ [])), orb_true_r, append_assoc
      by done.
Qed.
Lemma rest_spec_blank c cs tok st argv out :
  blank c = true → (st = false → tok = "") →
  rest_spec cs "" false (pushed tok st argv) out → rest_spec (c :: cs) tok st argv out.
Proof.
  intros Hc Htok (word & cs' & words & -> & Hok & Ht & ->).
  destruct (decide (word = [])) as [->|Hne].
  - exists [], (c :: cs'), words. split_and!; [done|done|by apply tail_blank|].
    change (word_value []) with "". rewrite (bool_decide_eq_false_2 (@nil Segment ≠ [])) by auto.
    rewrite !append_empty, !orb_false_r. unfold pushed at 1. by rewrite app_nil_r.
  - exists [], (c :: (word ≫= spelling) ++ cs'), (word_value word :: words).
    split_and!; [done|done|by apply tail_word|].
    change (word_value []) with "". rewrite (bool_decide_eq_false_2 (@nil Segment ≠ [])) by auto.
    rewrite append_empty, orb_false_r.
    rewrite bool_decide_eq_true_2 by done. unfold pushed at 1. by rewrite <- app_assoc.
Qed.

Lemma loop_spec n : ∀ cs quote tok st argv out,
  (length cs ≤ n)%nat → (st = false → tok = "" ∧ quote = QuoteNone) →
  argv_loop raw cs quote tok st argv = Ok out → quote_spec quote cs tok st argv out.
Proof.
  induction n as [n IH] using lt_wf_ind. intros cs quote tok st argv out Hn Hst Hloop.
  destruct cs as [|c cs].
  { simpl in Hloop. destruct quote; try done. simpl in Hloop. exists [], [], [].
    split_and!; [done|done|constructor|]. change (word_value []) with "".
    rewrite append_empty, app_nil_r. unfold pushed. destruct st; simpl.
    - case_match; congruence.
    - rewrite app_nil_r. case_match; congruence. }
  cbn [argv_loop] in Hloop. destruct (is_line_control c) eqn:Hc; [done|]. simpl in Hn.
  assert (Hrec : ∀ cs' quote' tok' st' argv', (length cs' ≤ length cs)%nat →
    (st' = false → tok' = "" ∧ quote' = QuoteNone) →
    argv_loop raw cs' quote' tok' st' argv' = Ok out → quote_spec quote' cs' tok' st' argv' out).
  { intros cs' quote' tok' st' argv' Hlen. apply (IH (length cs')); lia. }
  clear IH. destruct quote.
  - destruct (is_whitespace c) eqn:Hw.
    { assert (Hblank : blank c = true) by (unfold blank; by rewrite Hw, Hc).
      apply rest_spec_blank; [done|by apply Hst|]. unfold pushed.
      destruct st; apply Hrec in Hloop; try done.
      destruct (Hst eq_refl) as [-> _]. by rewrite app_nil_r. }
    case_bool_decide as H1; [subst c|case_bool_decide as H2; [subst c|case_bool_decide as H3; [subst c|]]].
    + apply Hrec in Hloop as (text & cs' & -> & Hok & Hspec); [|done..].
      change (single_quote :: text ++ single_quote :: cs')
        with ([single_quote] ++ text ++ ([single_quote] ++ cs')).
      rewrite !app_assoc, <- (app_assoc [single_quote]).
      by apply (rest_spec_segment (Single text)).
    + apply Hrec in Hloop as (text & cs' & -> & Hok & Hspec); [|done..].
      change (double_quote :: (text ≫= double_spelling) ++ double_quote :: cs')
        with ([double_quote] ++ (text ≫= double_spelling) ++ ([double_quote] ++ cs')).
      rewrite !app_assoc, <- (app_assoc [double_quote]).
      by apply (rest_spec_segment (Double text)).
    + destruct cs as [|escaped cs]; [done|].
      destruct (is_line_control escaped) eqn:He; [done|].
      apply Hrec in Hloop; [|simpl; lia|done].
      apply (rest_spec_segment (Escaped escaped)); [simpl; by rewrite He|done].
    + destruct (is_shell_meta c) eqn:Hm; [done|]. apply Hrec in Hloop; [|done..].
      apply (rest_spec_segment (Bare c)); [|done]. simpl. rewrite Hc, Hw, Hm. simpl.
      apply negb_true_iff, contains_false. rewrite !not_elem_of_cons. auto using not_elem_of_nil.
  - assert (st = true) as -> by (destruct st; [done|by destruct (Hst eq_refl)]).
    case_bool_decide as H1; [subst c|].
    + apply Hrec in Hloop; [|done..]. exists [], cs. by rewrite append_empty.
    + apply Hrec in Hloop as (text & cs' & -> & Hok & Hspec); [|done..].
      exists (c :: text), cs'. simpl. rewrite <- append_assoc. split_and!; [done| |done].
      by rewrite Hc, bool_decide_eq_false_2 by done.
  - assert (st = true) as -> by (destruct st; [done|by destruct (Hst eq_refl)]).
    case_bool_decide as H1; [subst c|case_bool_decide as H2; [subst c|]].
    + apply Hrec in Hloop; [|done..]. exists [], cs. by rewrite append_empty.
    + destruct cs as [|escaped cs]; [done|].
      apply Hrec in Hloop as (text & cs' & -> & Hok & Hspec); [|simpl; lia|done].
      exists (DEscaped escaped :: text), cs'. simpl. by rewrite <- append_assoc.
    + destruct (is_substitution c) eqn:Hm; [done|].
      apply Hrec in Hloop as (text & cs' & -> & Hok & Hspec); [|done..].
      exists (DPlain c :: text), cs'. simpl. rewrite <- append_assoc. split_and!; [done| |done].
      rewrite Hc, Hm. simpl in *. rewrite Hok, andb_true_r.
      apply negb_true_iff, contains_false. rewrite !not_elem_of_cons. auto using not_elem_of_nil.
Qed.

Lemma loop_line_inv cs out :
  argv_loop raw cs QuoteNone "" false [] = Ok out → line cs out.
Proof.
  intros Hloop. apply (loop_spec (length cs)) in Hloop as (word & cs' & words & -> & Hok & Ht & ->);
    [|done..].
  destruct (decide (word = [])) as [->|Hne].
  - by apply line_tail.
  - rewrite (bool_decide_eq_true_2 (word ≠ [])) by done. by apply line_word.
Qed.

Lemma loop_ok_nonempty cs : ∀ quote tok st argv out,
  argv_loop raw cs quote tok st argv = Ok out → out ≠ [].
Proof.
  remember (length cs) as n eqn:Hn. revert cs Hn.
  induction n as [n IH] using lt_wf_ind. intros cs -> quote tok st argv out.
  destruct cs as [|c cs]; cbn [argv_loop]; intros Hloop.
  - repeat case_match; guards; congruence.
  - destruct cs as [|c' cs]; repeat case_match; try congruence;
      (eapply IH; [|reflexivity|exact Hloop]; simpl; lia).
Qed.

End Loop.

(** C26: [parse_shell_argv] accepts exactly the lines of the grammar, with the
    values of their words: no operator, expansion, redirection, comment or
    glob outside quotes, no substitution inside double quotes, every quote
    closed, at least one word. *)
Theorem parse_shell_argv_grammar raw argv :
  parse_shell_argv raw = Ok argv ↔ is_blank raw = false ∧ line (chars raw) argv ∧ argv ≠ [].
Proof.
  unfold is_blank, parse_shell_argv. destruct (is_empty (trim raw)); [naive_solver|]. split.
  - intros Hloop. split_and!; [done|by eapply loop_line_inv|by eapply loop_ok_nonempty].
  - intros (_ & Hl & Hne). by apply loop_line.
Qed.

(** Inside double quotes every escaped character is taken, also those before
    which a POSIX shell keeps the backslash, and also a line feed: the argv
    compared with the templates is not the one such a shell would run. *)
Theorem double_quote_escapes :
  let line_feed := String (ascii_of_nat 10) "" in
  let quote := String (ascii_of_nat 34) "" in
  parse_shell_argv ("rm " +:+ quote +:+ "a\b" +:+ quote) = Ok ["rm"; "ab"]
  ∧ parse_shell_argv ("rm " +:+ quote +:+ "a\" +:+ line_feed +:+ quote)
    = Ok ["rm"; "a" +:+ line_feed].
Proof. vm_compute. by split. Qed.
