(* ===== verification/JSpaceJson.v ===== *)
(** * Fields of a contract and its canonical text

    The readers of required fields, the shape checks of [from_value] and the
    canonical JSON text behind every digest of [path/src/jspace.rs]. *)

From stdpp Require Import base list strings gmap sorting pretty.
From Stdlib Require Import ZArith Lia Ascii.
From S2P Require Import Prelude RustStd RustText RustPath Externals TaskIdentity JSpaceScopes.
Open Scope Z_scope.

(** [Value::as_u64] and the text of a [serde_json::Error] for a struct that does
    not deserialise are the crate's. *)
Class JsonRead `{JsonNumber} := { number_as_u64 : Number → option Z }.

Section Fields.
Context `{JsonNumber, !JsonRead}.

(** [serde_json::Map]. *)
Definition Map : Type := list (string * Value).
Definition get (object : Map) (key : string) : option Value := value_get (VObject object) key.
Definition contains_key (object : Map) (key : string) : bool :=
  match get object key with Some _ => true | None => false end.
Definition get_str (object : Map) (key : string) : option string := get object key ≫= as_str.
(** [object.get(key).cloned().unwrap_or(Value::Null)]. *)
Definition get_or_null (object : Map) (key : string) : Value := default Null (get object key).
(** [Map::remove]. *)
Definition map_remove (key : string) (object : Map) : Map :=
  filter (λ field, field.1 ≠ key) object.

Definition as_object (value : Value) : option Map :=
  match value with VObject object => Some object | _ => None end.
Definition as_array (value : Value) : option (list Value) :=
  match value with VArray values => Some values | _ => None end.
Definition as_bool (value : Value) : option bool :=
  match value with VBool b => Some b | _ => None end.
Definition as_u64 (value : Value) : option Z :=
  match value with VNumber n => number_as_u64 n | _ => None end.
Definition is_object (value : Value) : bool :=
  match value with VObject _ => true | _ => false end.

Definition required_string (object : Map) (key : string) : result string :=
  match get_str object key with
  | Some value =>
      if is_blank value then Err (malformed key "required non-empty string is missing")
      else Ok value
  | None => Err (malformed key "required non-empty string is missing")
  end.

Definition required_usize (object : Map) (key : string) : result Z :=
  ok_or (get object key ≫= as_u64) (malformed key "required non-negative integer is missing").

Definition required_string_array (object : Map) (key : string) : result (list string) :=
  match get object key with
  | Some (VArray values) =>
      map_results (λ value, ok_or (as_str value) (malformed key "array member is not a string"))
        values
  | _ => Err (malformed key "required array of strings is missing")
  end.

Definition is_known_operation (operation : string) : bool := contains KNOWN_OPERATIONS operation.

(** The first unknown value is the error; the set has no order. *)
Fixpoint operation_set (values : list string) (field : string) : result (gset string) :=
  match values with
  | [] => Ok ∅
  | value :: rest =>
      if negb (is_known_operation value)
         && negb (contains ["network"; "install"; "system_mutation"] value)
      then Err (admission_error "JSPACE_UNKNOWN_OPERATION" field ("unknown operation " +:+ value))
      else operations ← operation_set rest field; Ok ({[value]} ∪ operations)
  end.
(** [operation_set(required_string_array(object, key)?, key)]. *)
Definition operations_field (object : Map) (key : string) : result (gset string) :=
  values ← required_string_array object key; operation_set values key.
Definition has_operation (operations : gset string) (operation : string) : bool :=
  bool_decide (operation ∈ operations).

Definition validate_object_field (object : Map) (key : string) : result unit :=
  match get object key with
  | Some value =>
      reject_if (negb (is_object value)) (malformed key "required object is missing")
  | None => Err (malformed key "required object is missing")
  end.
Definition validate_string_array_field (object : Map) (key : string) : result unit :=
  _ ← required_string_array object key; Ok tt.
Definition validate_object_array_field (object : Map) (key : string) : result unit :=
  match get object key with
  | Some (VArray values) =>
      reject_if (negb (forallb is_object values)) (malformed key "array member is not an object")
  | _ => Err (malformed key "required object array is missing")
  end.

Definition validate_expansion_rule (object : Map) : result unit :=
  match get object "expansion" ≫= as_object with
  | None => Err (malformed "expansion" "expansion rule is missing")
  | Some expansion =>
      reject_if
        (bool_decide (get_str expansion "mode" ≠ Some "exact_target_only")
         || bool_decide (get_str expansion "error_code" ≠ Some JSPACE_EXPANSION_REQUIRED)
         || bool_decide ((get expansion "mutation_on_expansion" ≫= as_bool) ≠ Some false))
        (admission_error "JSPACE_EXPANSION_RULE_INVALID" "expansion"
           "exact-target no-mutation rule is invalid")
  end.
End Fields.

(** ** Canonical JSON *)

Definition hex_digit (n : Z) : string :=
  ascii_char (ascii_of_nat (Z.to_nat (if n <? 10 then 48 + n else 87 + n))).
(** [format!("{:04x}", n)] of a 16-bit unit. *)
Definition hex4 (n : Z) : string :=
  hex_digit (n / 4096 mod 16) +:+ hex_digit (n / 256 mod 16) +:+ hex_digit (n / 16 mod 16)
  +:+ hex_digit (n mod 16).
(** [char::encode_utf16]. *)
Definition encode_utf16 (c : string) : list Z :=
  let n := code_point c in
  if n <? 65536 then [n]
  else let m := n - 65536 in [55296 + m / 1024; 56320 + m mod 1024].

Definition json_char (c : string) : string :=
  let one (n : nat) := bool_decide (c = ascii_char (ascii_of_nat n)) in
  if one 34%nat then String backslash (ascii_char (ascii_of_nat 34))
  else if one 92%nat then "\\"
  else if one 8%nat then "\b"
  else if one 12%nat then "\f"
  else if one 10%nat then "\n"
  else if one 13%nat then "\r"
  else if one 9%nat then "\t"
  else if is_control c then "\u" +:+ hex4 (code_point c)
  else if bool_decide (String.length c = 1%nat) then c
  else String.concat "" ((λ unit, "\u" +:+ hex4 unit) <$> encode_utf16 c).
Definition canonical_json_string (value : string) : string :=
  let quote := ascii_char (ascii_of_nat 34) in
  quote +:+ String.concat "" (json_char <$> chars value) +:+ quote.

Section Canonical.
Context `{SerdeJson, Sha2}.

(** The recursion is that of the canonical text of [lifecycle]: members joined
    with commas, keys sorted; only the text of a string differs. *)
Definition jspace_text : SerdeJson :=
  {| quote := canonical_json_string; from_str := from_str |}.
Definition canonical_json (value : Value) : string := canonical (H0:=jspace_text) value.
Definition semantic_sha256 (payload : Value) : string := sha256_hex (canonical_json payload).
End Canonical.

(** [sort_by_key(canonical_json)] and the like: stable. *)
Section SortByText.
Context {A : Type} (key : A → string).
Fixpoint insert_by_text (x : A) (l : list A) : list A :=
  match l with
  | [] => [x]
  | y :: l' => if str_lt (key y) (key x) then y :: insert_by_text x l' else x :: l
  end.
Definition sort_by_text (l : list A) : list A := foldr insert_by_text [] l.
End SortByText.

(** An item of a slice, as [slice.get(index)]; out of range it is absent. *)
Definition get_index {A} (l : list A) (index : Z) : option A :=
  if (0 <=? index) && (index <? Z.of_nat (length l)) then l !! Z.to_nat index else None.

Example canonical_string_example :
  canonical_json_string (String.string_of_list_ascii
    (ascii_of_nat <$> [97; 34; 10; 1; 226; 130; 172; 240; 159; 152; 128]%nat))
  = String.string_of_list_ascii (ascii_of_nat <$> [34; 97; 92; 34]%nat) +:+ "\n\u0001\u20ac\ud83d\ude00"
    +:+ ascii_char (ascii_of_nat 34).
Proof. vm_compute. done. Qed.
