(* ===== verification/JSpaceTemplates.v ===== *)
(** * Effect domains and command templates

    What a contract grants beside its scopes: the effect capabilities of a
    multi-domain contract and the exact argv templates of commands, with their
    parsers and validators ([path/src/jspace.rs]). *)

From stdpp Require Import base list strings gmap sorting pretty.
From Stdlib Require Import ZArith Lia Ascii.
From S2P Require Import Prelude RustStd RustText RustPath Externals TaskIdentity JSpaceScopes JSpaceJson.
Open Scope Z_scope.

Record CommandTarget := { ct_domain_id : option string; ct_operation : string;
                          ct_path : string; ct_argv_index : Z }.
#[export] Instance CommandTarget_eq_dec : EqDecision CommandTarget.
Proof. solve_decision. Defined.
Record CommandTemplate := { tm_argv : list string; tm_effects : list string;
                            tm_targets : list CommandTarget }.

Record EffectCapabilityMatcher := {
  ec_domain_id : string;
  ec_root : string;
  ec_lexical_root : string;
  ec_read_projection : list string;
  ec_write_projection : list string;
  ec_declared_projection : list string;
  ec_read_scopes : PathTrie;
  ec_write_scopes : PathTrie;
  ec_declared_targets : PathTrie;
  ec_allowed_operations : gset string;
}.

(** [matches!(operation, "read" | "create" | "modify" | "delete")]. *)
Definition is_path_operation (operation : string) : bool :=
  contains ["read"; "create"; "modify"; "delete"] operation.
Definition is_mutation (operation : string) : bool :=
  contains ["create"; "modify"; "delete"] operation.

Section Roots.
Context (fs : FileTree).

(** The loop pushes one component at a time and looks at the prefix. *)
Fixpoint symlink_on (path current : string) (rest : list Component) : result bool :=
  match rest with
  | [] => Ok false
  | component :: rest =>
      let current := path_join current (component_text component) in
      match ft_symlink_metadata fs current with
      | inr metadata =>
          if bool_decide (md_type metadata = FtSymlink) then Ok true
          else symlink_on path current rest
      | inl error =>
          Err (admission_error "JSPACE_DOMAIN_ROOT_INVALID" path
                 ("failed to inspect effect domain component: " +:+ io_text error))
      end
  end.
Definition has_symlink_component (path : string) : result bool :=
  symlink_on path "" (components path).

Definition normalized_root (path : string) : result string :=
  if negb (path_exists fs path) || negb (is_dir fs path)
  then Err (admission_error "JSPACE_ROOT_INVALID" path "repo root must be an existing directory")
  else Ok (normalize_path fs path).

(** [resolve_existing_boundary(target).map_err(...)]. *)
Definition resolved_boundary (target operation : string) : result string :=
  map_err (λ error, JSpaceError_new "JSPACE_PATH_RESOLUTION_FAILED" operation target error)
    (resolve_existing_boundary fs target).

Definition has_parent_dir (target : string) : bool := existsb is_parent_dir (components target).
Definition within (target root : string) : bool :=
  match strip_path_prefix target root with Some _ => true | None => false end.

Definition EffectCapabilityMatcher_resolve_target (self : EffectCapabilityMatcher)
    (target operation : string) : result string :=
  _ ← reject_if (has_parent_dir target)
        (JSpaceError_new "JSPACE_PATH_TRAVERSAL" operation target
           "parent traversal is not admitted");
  let lexical_within_root := within target (ec_lexical_root self) || within target (ec_root self) in
  resolved ← resolved_boundary target operation;
  match strip_path_prefix resolved (ec_root self) with
  | None =>
      Err (JSpaceError_new
             (if lexical_within_root then "JSPACE_SYMLINK_ESCAPE"
              else "JSPACE_PATH_OUTSIDE_DOMAIN") operation target
             ("resolved target is outside effect domain " +:+ ec_domain_id self
              +:+ " at " +:+ ec_root self))
  | Some relative => Ok (unix_separators relative)
  end.
End Roots.

(** ** Parsing *)

Section Parsing.
Context `{JsonNumber, !JsonRead} (fs : FileTree).

Definition parse_effect_capability (denied_operations : gset string)
    (domain_ids : list string) (value : Value) : result EffectCapabilityMatcher :=
  capability ← ok_or (as_object value)
    (malformed "effect_capabilities" "capability member is not an object");
  domain_id ← required_string capability "domain_id";
  _ ← reject_if (bool_decide (trim domain_id ≠ domain_id) || contains domain_ids domain_id)
        (admission_error "JSPACE_DOMAIN_ID_INVALID" domain_id
           "effect domain identity must be unique and whitespace-normalized");
  lexical_root ← required_string capability "root";
  _ ← reject_if (negb (is_absolute lexical_root))
        (admission_error "JSPACE_DOMAIN_ROOT_INVALID" lexical_root
           "effect domain root must be absolute");
  symlink ← has_symlink_component fs lexical_root;
  _ ← reject_if symlink
        (admission_error "JSPACE_DOMAIN_ROOT_SYMLINK" lexical_root
           "effect domain roots must not contain symlink aliases");
  root ← normalized_root fs lexical_root;
  _ ← reject_if (bool_decide (parent root = None))
        (admission_error "JSPACE_DOMAIN_ROOT_TOO_BROAD" root
           "filesystem root cannot be admitted as an effect domain");
  read_values ← required_string_array capability "read_scopes";
  read_projection ← canonical_scope_set read_values;
  write_values ← required_string_array capability "write_scopes";
  write_projection ← canonical_scope_set write_values;
  declared_values ← required_string_array capability "declared_targets";
  declared_projection ← canonical_declared_targets declared_values;
  operation_values ← required_string_array capability "allowed_operations";
  allowed_operations ← operation_set operation_values "effect_capabilities.allowed_operations";
  _ ← reject_if
        (bool_decide (allowed_operations = ∅)
         || existsb (λ operation, negb (is_path_operation operation)
                                  || has_operation denied_operations operation)
              (elements allowed_operations))
        (admission_error "JSPACE_CAPABILITY_PERMISSION_INVALID" domain_id
           "effect domain permissions must be non-empty admitted path operations");
  read_scopes ← insert_all PathTrie_new read_projection;
  write_scopes ← insert_all PathTrie_new write_projection;
  declared_targets ← insert_all PathTrie_new declared_projection;
  Ok {| ec_domain_id := domain_id; ec_root := root; ec_lexical_root := lexical_root;
        ec_read_projection := read_projection; ec_write_projection := write_projection;
        ec_declared_projection := declared_projection; ec_read_scopes := read_scopes;
        ec_write_scopes := write_scopes; ec_declared_targets := declared_targets;
        ec_allowed_operations := allowed_operations |}.

Fixpoint parse_capability_members (denied_operations : gset string) (domain_ids : list string)
    (values : list Value) : result (list EffectCapabilityMatcher) :=
  match values with
  | [] => Ok []
  | value :: rest =>
      capability ← parse_effect_capability denied_operations domain_ids value;
      capabilities ← parse_capability_members denied_operations
                       (ec_domain_id capability :: domain_ids) rest;
      Ok (capability :: capabilities)
  end.

(** Each domain against those after it in the sorted order. *)
Definition roots_overlap (first second : string) : bool :=
  path_starts_with first second || path_starts_with second first.
Fixpoint check_domain_roots (capabilities : list EffectCapabilityMatcher) : result unit :=
  match capabilities with
  | [] => Ok tt
  | first :: rest =>
      match find (λ second, roots_overlap (ec_root first) (ec_root second)) rest with
      | Some second =>
          Err (admission_error "JSPACE_DOMAIN_ROOT_OVERLAP" (ec_root first)
                 ("effect domains " +:+ ec_domain_id first +:+ " and " +:+ ec_domain_id second
                  +:+ " overlap or alias"))
      | None => check_domain_roots rest
      end
  end.

Definition parse_effect_capabilities (object : Map) (denied_operations : gset string)
    : result (list EffectCapabilityMatcher) :=
  match get object "effect_capabilities" with
  | Some (VArray values) =>
      _ ← reject_if (bool_decide (length values = 0%nat))
            (admission_error "JSPACE_EFFECT_CAPABILITIES_MISSING" "effect_capabilities"
               "at least one bounded effect domain is required");
      capabilities ← parse_capability_members denied_operations [] values;
      let capabilities := sort_by_text ec_domain_id capabilities in
      _ ← check_domain_roots capabilities;
      Ok capabilities
  | _ => Err (admission_error "JSPACE_EFFECT_CAPABILITIES_MISSING" "effect_capabilities"
                "multi-domain contracts require an explicit capability array")
  end.

(** Read scopes, write scopes and declared targets under each domain's root;
    the first error is the one of the first bad scope in source order. *)
Fixpoint rooted_projection (capabilities : list EffectCapabilityMatcher)
    : result (list string * list string * list string) :=
  match capabilities with
  | [] => Ok ([], [], [])
  | capability :: rest =>
      let root := ec_root capability in
      read_scopes ← map_results (rooted_scope root) (ec_read_projection capability);
      write_scopes ← map_results (rooted_scope root) (ec_write_projection capability);
      declared_targets ← map_results (rooted_scope root) (ec_declared_projection capability);
      below ← rooted_projection rest;
      let '(reads, writes, targets) := (below : list string * list string * list string) in
      Ok (read_scopes ++ reads, write_scopes ++ writes, declared_targets ++ targets)
  end.
Definition effect_capability_projection (capabilities : list EffectCapabilityMatcher)
    : result (list string * list string * list string) :=
  rooted ← rooted_projection capabilities;
  let '(read_scopes, write_scopes, declared_targets) :=
    (rooted : list string * list string * list string) in
  read_scopes ← canonical_claim_scope_set read_scopes;
  write_scopes ← canonical_claim_scope_set write_scopes;
  declared_targets ← canonical_claim_scope_set declared_targets;
  Ok (read_scopes, write_scopes, declared_targets).

Definition parse_command_target (require_domain : bool) (target : Value) : result CommandTarget :=
  target ← ok_or (as_object target) (malformed "command_templates.targets" "target is not an object");
  domain_id ← (if require_domain then
                 domain_id ← required_string target "domain_id"; Ok (Some domain_id)
               else Ok (get_str target "domain_id"));
  operation ← required_string target "operation";
  path ← required_string target "path";
  _ ← reject_if (require_domain && bool_decide (get_str target "binding" ≠ Some "argv"))
        (admission_error "JSPACE_COMMAND_TARGET_BINDING_INVALID" "command_templates.targets"
           "multi-domain targets must bind an exact argv path");
  argv_index ← required_usize target "argv_index";
  Ok {| ct_domain_id := domain_id; ct_operation := operation; ct_path := path;
        ct_argv_index := argv_index |}.

Definition parse_command_template (require_domain : bool) (index : nat) (value : Value)
    : result CommandTemplate :=
  template ← ok_or (as_object value)
    (malformed "command_templates" ("template " +:+ pretty index +:+ " is not an object"));
  argv ← required_string_array template "argv";
  effects ← required_string_array template "effects";
  _ ← reject_if (bool_decide (argv = []) || bool_decide (effects = []) || existsb is_empty argv)
        (admission_error "JSPACE_COMMAND_TEMPLATE_INVALID" "command_templates"
           ("template " +:+ pretty index +:+ " requires non-empty argv and effects"));
  match get template "targets" with
  | Some (VArray target_values) =>
      targets ← map_results (parse_command_target require_domain) target_values;
      Ok {| tm_argv := argv; tm_effects := effects; tm_targets := targets |}
  | _ => Err (malformed "command_templates.targets" "required target array is missing")
  end.

Definition parse_command_templates (object : Map) (require_domain : bool)
    : result (list CommandTemplate) :=
  match get object "command_templates" with
  | Some (VArray values) =>
      map_results (λ entry, parse_command_template require_domain entry.1 entry.2)
        (imap pair values)
  | _ => Err (malformed "command_templates" "required command template array is missing")
  end.
End Parsing.

(** ** Validation *)

Section Validation.
Context (fs : FileTree) (allowed denied : gset string) (declared_targets : PathTrie)
        (effect_capabilities : list EffectCapabilityMatcher) (require_domain : bool).

Definition argv_text (argv : list string) : string := join " " argv.

(** The loop over the effects; [mutation_effects] is what it collects. *)
Fixpoint validate_effects (argv effects : list string) : result (gset string) :=
  match effects with
  | [] => Ok ∅
  | effect :: rest =>
      _ ← reject_if (negb (is_known_operation effect) || bool_decide (effect = "command"))
            (admission_error "JSPACE_COMMAND_EFFECT_INVALID" effect
               "command template contains an unknown effect");
      _ ← reject_if (has_operation denied effect
                     || negb require_domain && is_path_operation effect
                        && negb (has_operation allowed effect)
                     || require_domain && negb (is_path_operation effect))
            (JSpaceError_new "JSPACE_COMMAND_EFFECT_DENIED" effect (argv_text argv)
               "command effect is not admitted");
      mutations ← validate_effects argv rest;
      Ok (if is_mutation effect then {[effect]} ∪ mutations else mutations)
  end.

(** The checks of one target against its effect domain. *)
Definition validate_domain_target (target : CommandTarget) : result unit :=
  let error code detail := JSpaceError_new code (ct_operation target) (ct_path target) detail in
  domain_id ← ok_or (ct_domain_id target)
    (error "JSPACE_COMMAND_TARGET_DOMAIN_MISSING"
       "multi-domain targets require an exact domain identity");
  capability ← ok_or (find (λ capability, bool_decide (ec_domain_id capability = domain_id))
                        effect_capabilities)
    (error "JSPACE_COMMAND_TARGET_DOMAIN_UNKNOWN" ("unknown effect domain " +:+ domain_id));
  relative ← EffectCapabilityMatcher_resolve_target fs capability (ct_path target)
               (ct_operation target);
  _ ← reject_if (negb (has_operation (ec_allowed_operations capability) (ct_operation target)))
        (error "JSPACE_COMMAND_EFFECT_DENIED" ("effect is not admitted in domain " +:+ domain_id));
  let is_read := bool_decide (ct_operation target = "read") in
  scope_allowed ← PathTrie_matches
    (if is_read then ec_read_scopes capability else ec_write_scopes capability) relative;
  outside ← (if negb scope_allowed then Ok true
             else if is_read then Ok false
             else declared ← PathTrie_matches (ec_declared_targets capability) relative;
                  Ok (negb declared));
  reject_if outside
    (error JSPACE_EXPANSION_REQUIRED ("target is outside exact domain capability " +:+ domain_id)).

Definition validate_target (template : CommandTemplate) (seen : list CommandTarget)
    (target : CommandTarget) : result unit :=
  let error code detail := JSpaceError_new code (ct_operation target) (ct_path target) detail in
  _ ← reject_if (negb (is_path_operation (ct_operation target))
                 || negb (contains (tm_effects template) (ct_operation target)))
        (error "JSPACE_COMMAND_TARGET_EFFECT_MISMATCH"
           "command target operation is absent from effects");
  _ ← (if require_domain then
         reject_if (negb (is_absolute (ct_path target)) || has_parent_dir (ct_path target))
           (error "JSPACE_COMMAND_TARGET_INVALID"
              "multi-domain command targets must be exact absolute paths")
       else _ ← scope_components (ct_path target); Ok tt);
  _ ← reject_if (bool_decide (get_index (tm_argv template) (ct_argv_index target)
                              ≠ Some (ct_path target)))
        (error "JSPACE_COMMAND_TARGET_ARGV_MISMATCH"
           ("target path must equal argv[" +:+ pretty (ct_argv_index target) +:+ "]"));
  _ ← reject_if (contains seen target)
        (error "JSPACE_COMMAND_TARGET_DUPLICATE" "command target identity is duplicated");
  if require_domain then validate_domain_target target
  else if bool_decide (ct_operation target = "read") then Ok tt
  else declared ← PathTrie_matches declared_targets (ct_path target);
       reject_if (negb declared)
         (error "JSPACE_COMMAND_TARGET_UNDECLARED" "command mutation target is not declared").

Fixpoint validate_targets (template : CommandTemplate) (seen targets : list CommandTarget)
    : result unit :=
  match targets with
  | [] => Ok tt
  | target :: rest =>
      _ ← validate_target template seen target;
      validate_targets template (target :: seen) rest
  end.

(** The operations of the targets, and those of them that are no read. *)
Definition targeted_effects (template : CommandTemplate) : gset string :=
  list_to_set (ct_operation <$> tm_targets template).
Definition targeted_mutations (template : CommandTemplate) : gset string :=
  list_to_set (filter (λ operation, operation ≠ "read"%string)
                 (ct_operation <$> tm_targets template)).

(** An absolute argument after the first, without a target of its own. *)
Definition undeclared_argument (template : CommandTemplate) (entry : nat * string) : bool :=
  let '(argv_index, argument) := entry in
  is_absolute argument
  && negb (existsb (λ target, (ct_argv_index target =? Z.of_nat argv_index)
                              && bool_decide (ct_path target = argument)) (tm_targets template)).

Definition validate_multi_domain_command_semantics (template : CommandTemplate) : result unit :=
  let argv := tm_argv template in
  let arg (i : nat) := default "" (argv !! i) in
  _ ← reject_if
        (bool_decide (length argv ≠ 6%nat) || bool_decide (arg 0%nat ≠ "git")
         || bool_decide (arg 1%nat ≠ "--git-dir") || negb (is_absolute (arg 2%nat))
         || bool_decide (arg 3%nat ≠ "worktree") || bool_decide (arg 4%nat ≠ "remove")
         || negb (is_absolute (arg 5%nat)))
        (JSpaceError_new "JSPACE_MULTI_DOMAIN_COMMAND_UNSUPPORTED" "command" (argv_text argv)
           "multi-domain commands require an exact closed semantic parser");
  let semantics := (λ target, (ct_argv_index target, ct_operation target)) <$> tm_targets template in
  let required := [(2, "read"%string); (2, "delete"%string); (5, "delete"%string)] in
  reject_if
    (bool_decide ((list_to_set (tm_effects template) : gset string) ≠ {["read"; "delete"]})
     || bool_decide ((list_to_set semantics : gset (Z * string)) ≠ list_to_set required)
     || bool_decide (length (tm_targets template) ≠ length required))
    (JSpaceError_new "JSPACE_COMMAND_SEMANTICS_MISMATCH" "command" (argv_text argv)
       "git worktree remove requires exact read/delete effects on argv[2] and delete on argv[5]").

Definition validate_command_template (seen : list (list string)) (template : CommandTemplate)
    : result unit :=
  let argv := tm_argv template in
  _ ← reject_if (contains seen argv)
        (admission_error "JSPACE_COMMAND_TEMPLATE_DUPLICATE" (argv_text argv)
           "exact argv template is duplicated");
  mutation_effects ← validate_effects argv (tm_effects template);
  _ ← validate_targets template [] (tm_targets template);
  _ ← reject_if (bool_decide ((mutation_effects : gset string) ≠ targeted_mutations template))
        (JSpaceError_new "JSPACE_COMMAND_MUTATION_TARGET_MISSING" "command" (argv_text argv)
           "every mutation effect requires an exact target");
  if require_domain then
    _ ← reject_if (bool_decide ((list_to_set (tm_effects template) : gset string)
                                ≠ targeted_effects template))
          (JSpaceError_new "JSPACE_COMMAND_EFFECT_TARGET_MISMATCH" "command" (argv_text argv)
             "every effect requires at least one exact domain target");
    _ ← match find (undeclared_argument template) (drop 1 (imap pair argv)) with
        | Some (argv_index, argument) =>
            Err (JSpaceError_new "JSPACE_COMMAND_MUTATION_TARGET_MISSING" "command" argument
                   ("absolute argv[" +:+ pretty argv_index +:+ "] has no exact target identity"))
        | None => Ok tt
        end;
    validate_multi_domain_command_semantics template
  else Ok tt.

Fixpoint validate_templates_from (seen : list (list string)) (templates : list CommandTemplate)
    : result unit :=
  match templates with
  | [] => Ok tt
  | template :: rest =>
      _ ← validate_command_template seen template;
      validate_templates_from (tm_argv template :: seen) rest
  end.
Definition validate_command_templates (templates : list CommandTemplate) : result unit :=
  validate_templates_from [] templates.
End Validation.
