(* ===== verification/JSpaceVerifier.v ===== *)
(** * Verifier grants: pinned commands and the files they may run

    The verifier part of [path/src/jspace.rs]: the typed commands of a contract
    and the checks of their argv, paths, files and directories that need no
    matcher.  A file read gives the bytes of the snapshot; a failing [open],
    [rewind] or [read] is one failing [ft_read], for the code answers each of
    them the same way. *)

From stdpp Require Import base list strings gmap sorting pretty.
From Stdlib Require Import ZArith Lia Ascii.
From S2P Require Import Prelude RustStd RustText RustPath Externals TaskData TaskIdentity JSpaceScopes JSpaceJson.
Open Scope Z_scope.

Inductive VerifierPinScope := VerifierOnly.
#[export] Instance VerifierPinScope_eq_dec : EqDecision VerifierPinScope.
Proof. solve_decision. Defined.
Record VerifierPinnedFile := { pf_path : string; pf_sha256 : string;
                               pf_scope : option VerifierPinScope }.
Record VerifierCommand := {
  vc_argv : list string;
  vc_executable_sha256 : string;
  vc_pinned_files : list VerifierPinnedFile;
  vc_timeout_seconds : Z;
  vc_scratch_root : string;
  vc_network : bool;
  vc_python_import_roots : option (list string);
  vc_cwd : option string;
}.

Definition verifier_error (code path detail : string) : JSpaceError :=
  admission_error code path detail.

(** ** The argv *)

(** [Path::new(arg).file_name().and_then(|part| part.to_str()).unwrap_or_default()]. *)
Definition file_name_text (path : string) : string := default "" (file_name path).
Definition is_ascii_digit (a : ascii) : bool :=
  let n := nat_of_ascii a in ((48 <=? n) && (n <=? 57))%nat.
Definition is_version (text : string) : bool :=
  bytes_all (λ a, is_ascii_digit a || Ascii.eqb a (ascii_of_nat 46)) text.
Definition cpython_name (name : string) : bool :=
  match strip_prefix "python" name with Some version => is_version version | None => false end.

(** [argv[0]]. *)
Definition first_arg (argv : list string) : result string := or_panic (head argv).

Definition module_test_runner (argv : list string) : result bool :=
  program ← first_arg argv;
  let cpython :=
    match strip_prefix "python" (file_name_text program) with
    | Some version => negb (is_empty version) && is_version version
    | None => false
    end in
  Ok (cpython
      && match position (λ arg, bool_decide (arg = "-m")) (drop 1 argv) with
         | Some offset =>
             forallb (λ flag, bool_decide (flag = "-B")) (take offset (drop 1 argv))
             && match argv !! (offset + 2)%nat with
                | Some module => contains ["unittest"; "pytest"] module
                | None => false
                end
         | None => false
         end).

Definition shell_syntax (ch : string) : bool :=
  contains (ascii_char <$> (ascii_of_nat <$>
    [59; 38; 124; 60; 62; 36; 96; 92; 34; 39; 13; 10; 0]%nat)) ch.
Definition glob_syntax (ch : string) : bool :=
  contains (ascii_char <$> (ascii_of_nat <$> [42; 63; 91; 93; 123; 125; 40; 41]%nat)) ch.

(** What the characters of one cluster of short options say. *)
Inductive Cluster := InlineCode | ModuleEntry | TakesNext | NoEntry.
Fixpoint scan_cluster (flags : list string) : Cluster :=
  match flags with
  | [] => NoEntry
  | flag :: rest =>
      if bool_decide (flag = "c") then InlineCode
      else if bool_decide (flag = "m") then ModuleEntry
      else if contains ["W"; "X"] flag then
        match rest with [] => TakesNext | _ => NoEntry end
      else scan_cluster rest
  end.
Fixpoint inline_code_in (args : list string) : bool :=
  match args with
  | [] => false
  | arg :: rest =>
      let skip_next := match rest with [] => false | _ :: rest => inline_code_in rest end in
      if bool_decide (arg = "--check-hash-based-pycs") then skip_next
      else if bool_decide (arg = "--") || bool_decide (arg = "-") || negb (starts_with "-" arg)
      then false
      else if starts_with "--" arg then inline_code_in rest
      else match scan_cluster (drop 1 (chars arg)) with
           | InlineCode => true
           | ModuleEntry => false
           | TakesNext => skip_next
           | NoEntry => inline_code_in rest
           end
  end.
Definition cpython_inline_code (argv : list string) : bool := inline_code_in (drop 1 argv).

Definition shell_names : list string :=
  ["sh"; "bash"; "dash"; "zsh"; "fish"; "csh"; "tcsh"; "ksh"; "env"; "osascript"].
(** The guard against shells and inline interpreters. *)
Definition runs_inline (argv : list string) : result bool :=
  program ← first_arg argv;
  let name := file_name_text program in
  Ok (contains shell_names name
      || (if cpython_name name then cpython_inline_code argv
          else existsb (λ prefix, starts_with prefix name) ["python"; "node"; "ruby"; "perl"; "php"]
               && existsb (λ arg, contains ["-c"; "-e"; "--eval"; "--execute"] arg) (drop 1 argv))).

(** [Path::extension]. *)
Definition extension (path : string) : option string :=
  name ← file_name path;
  match split_char (ascii_of_nat 46) name with
  | [] | [_] | [""; _] => None
  | parts => last parts
  end.

Definition verifier_node_path_is_sensitive (path : string) : bool :=
  existsb (λ ancestor,
    match file_name ancestor with
    | Some name => contains [".git"; ".ssh"; ".gnupg"; ".aws"; ".docker"; ".netrc"] name
    | None => false
    end
    || existsb (path_ends_with ancestor) [".config/gh"; "Library/Keychains"; ".codex/auth.json"])
    (ancestors path).

Definition direct_node_verifier_program (argv : list string) : option string :=
  executable ← head argv;
  program ← argv !! 1%nat;
  if is_absolute executable
     && bool_decide (file_name executable = Some "node")
     && negb (verifier_node_path_is_sensitive executable)
     && is_absolute program
     && negb (verifier_node_path_is_sensitive program)
     && match extension program with
        | Some ext => contains ["js"; "cjs"; "mjs"] ext
        | None => false
        end
     && bool_decide (length (filter (λ arg, arg = program) argv) = 1%nat)
  then Some program else None.

Definition verifier_interpreter_reads_entries (argv : list string) : bool :=
  let name := default "" (head argv ≫= file_name) in
  bool_decide (name = "node") || cpython_name name.

(** ** Paths *)

Definition has_git_component (path : string) : bool :=
  existsb (λ part, bool_decide (component_text part = ".git")) (components path).
Definition char_count (text : string) : nat := length (chars text).
(** [HashSet<PathBuf>] lookup. *)
Definition seen_path (seen : list string) (path : string) : bool := existsb (path_eqb path) seen.

Section Paths.
Context (fs : FileTree).

Definition work_product_operands_only (argv : list string) (workspace : string)
    (write_scopes : list string) : bool :=
  let written (path : string) :=
    match strip_path_prefix path workspace with
    | Some relative =>
        existsb (λ scope,
          bool_decide (scope = relative)
          || match strip_suffix "/**" scope with
             | Some base => match strip_prefix base relative with
                            | Some rest => starts_with "/" rest
                            | None => false
                            end
             | None => false
             end) write_scopes
    | None => false
    end in
  let operands := filter (λ path, is_absolute path = true) (drop 1 argv) in
  existsb written operands && negb (existsb (λ path, is_file fs path && negb (written path)) operands).

(** The loop over the prefixes; below a missing one nothing is looked at. *)
Fixpoint walk_without_symlink (path : string) (must_exist : bool) (prefix : string)
    (missing : bool) (rest : list Component) : result unit :=
  match rest with
  | [] => Ok tt
  | component :: rest =>
      let prefix := path_join prefix (component_text component) in
      if missing then walk_without_symlink path must_exist prefix missing rest else
      match ft_symlink_metadata fs prefix with
      | inr metadata =>
          if bool_decide (md_type metadata = FtSymlink)
          then Err (verifier_error "JSPACE_VERIFIER_SYMLINK_DENIED" prefix
                      "symlink component is not admitted")
          else if negb (path_eqb prefix path) && negb (bool_decide (md_type metadata = FtDirectory))
          then Err (verifier_error "JSPACE_VERIFIER_PATH_INVALID" prefix
                      "path ancestor must be a directory")
          else walk_without_symlink path must_exist prefix false rest
      | inl error =>
          if io_not_found_kind error && negb must_exist
          then walk_without_symlink path must_exist prefix true rest
          else Err (verifier_error "JSPACE_VERIFIER_PATH_INVALID" prefix "path unavailable")
      end
  end.
Definition verifier_path_without_symlink (path : string) (must_exist : bool) : result unit :=
  _ ← reject_if
        (negb (is_absolute path) || has_char (ascii_of_nat 0) path
         || existsb (λ part, is_empty part || contains ["."; ".."] part)
              (drop 1 (split_char slash path))
         || existsb (λ component, bool_decide (component = CurDir)
                                  || bool_decide (component = ParentDir)) (components path))
        (verifier_error "JSPACE_VERIFIER_PATH_INVALID" path
           "path must be canonical absolute syntax");
  walk_without_symlink path must_exist "" false (components path).

Definition canonical_directory (path : string) : bool := is_dir fs path && canonical_at fs path.

(** [raw.is_empty() || raw.contains(':') || raw.chars().count() > 1024 || ...]. *)
Definition unbounded_directory (path : string) : bool :=
  is_empty path || has_char (ascii_of_nat 58) path || bool_decide (1024 < char_count path)%nat
  || negb (is_absolute path).

Definition import_roots_invalid : string := "JSPACE_VERIFIER_PYTHON_IMPORT_ROOTS_INVALID".
Fixpoint check_import_roots (seen roots : list string) : result unit :=
  match roots with
  | [] => Ok tt
  | root :: rest =>
      _ ← reject_if (unbounded_directory root || seen_path seen root || has_git_component root)
            (verifier_error import_roots_invalid root
               "distinct bounded absolute directories outside Git metadata required");
      _ ← verifier_path_without_symlink root true;
      _ ← reject_if (negb (canonical_directory root))
            (verifier_error import_roots_invalid root "canonical existing directory required");
      check_import_roots (root :: seen) rest
  end.

(** A cluster of short options with [-I] or [-E] before any option that takes
    the rest of the token. *)
Fixpoint cluster_ignores (flags : list string) : bool :=
  match flags with
  | [] => false
  | flag :: rest =>
      if contains ["W"; "X"; "m"; "c"] flag then false
      else contains ["I"; "E"] flag || cluster_ignores rest
  end.
Definition ignores_environment (arg : string) : bool :=
  starts_with "-" arg && negb (starts_with "--" arg) && cluster_ignores (drop 1 (chars arg)).

Definition verifier_python_import_roots (command : VerifierCommand) : result unit :=
  match vc_python_import_roots command with
  | None => Ok tt
  | Some roots =>
      executable ← first_arg (vc_argv command);
      _ ← reject_if
            (negb ((1 <=? length roots) && (length roots <=? 4))%nat
             || negb (cpython_name (file_name_text executable))
             || existsb ignores_environment (drop 1 (vc_argv command)))
            (verifier_error import_roots_invalid executable
               "1..4 import roots require a CPython-named executable without -I/-E");
      check_import_roots [] roots
  end.

Definition verifier_cwd (command : VerifierCommand) : result unit :=
  match vc_cwd command with
  | None => Ok tt
  | Some cwd =>
      _ ← reject_if (unbounded_directory cwd || has_git_component cwd)
            (verifier_error "JSPACE_VERIFIER_CWD_INVALID" cwd
               "bounded absolute directory outside Git metadata required");
      _ ← verifier_path_without_symlink cwd true;
      reject_if (negb (canonical_directory cwd))
        (verifier_error "JSPACE_VERIFIER_CWD_INVALID" cwd "canonical existing directory required")
  end.

(** The loop from the scratch directory up to the artifact root. *)
Fixpoint scratch_parents (root path : string) (must_exist : bool) (above : list string)
    : result unit :=
  match above with
  | [] => Err (verifier_error "JSPACE_VERIFIER_SCRATCH_INVALID" path "invalid scratch parent")
  | current :: above =>
      if path_eqb current root then Ok tt else
      _ ← match ft_symlink_metadata fs current with
          | inr metadata =>
              reject_if (negb (bool_decide (md_type metadata = FtDirectory)))
                (verifier_error "JSPACE_VERIFIER_SCRATCH_INVALID" current
                   "scratch components must be directories")
          | inl error =>
              reject_if (negb (negb must_exist && io_not_found_kind error))
                (verifier_error "JSPACE_VERIFIER_SCRATCH_NOT_READY" current
                   "scratch directory unavailable")
          end;
      scratch_parents root path must_exist above
  end.
Definition verifier_scratch (path root workspace : string) (must_exist : bool) : result unit :=
  _ ← verifier_path_without_symlink path must_exist;
  _ ← reject_if (path_eqb path root || negb (path_starts_with path root)
                 || path_starts_with path workspace)
        (verifier_error "JSPACE_VERIFIER_SCRATCH_INVALID" path
           "scratch must be strictly below artifact root and outside workspace");
  _ ← scratch_parents root path must_exist (ancestors path);
  reject_if (must_exist && negb (canonical_at fs path))
    (verifier_error "JSPACE_VERIFIER_SCRATCH_NOT_READY" path "scratch identity changed").
End Paths.

(** ** Files *)

(** The first [n] bytes, and the bytes below 128. *)
Fixpoint take_bytes (n : nat) (s : string) : string :=
  match n, s with
  | S n, String a s => String a (take_bytes n s)
  | _, _ => EmptyString
  end.
Fixpoint ascii_only (s : string) : string :=
  match s with
  | EmptyString => EmptyString
  | String a s => if (nat_of_ascii a <? 128)%nat then String a (ascii_only s) else ascii_only s
  end.
(** [text.split_whitespace().next().unwrap_or_default()]. *)
Fixpoint drop_blank (s : string) : string :=
  match s with String a s' => if ws1 a then drop_blank s' else s | EmptyString => EmptyString end.
Fixpoint take_word (s : string) : string :=
  match s with
  | String a s' => if ws1 a then EmptyString else String a (take_word s')
  | EmptyString => EmptyString
  end.
(** The program a [#!] line names, without its directories. *)
Definition shebang_program (content : string) : option string :=
  text ← strip_prefix "#!" (take_bytes 256 content);
  let line := default "" (head (split_char (ascii_of_nat 10) text)) in
  let first := take_word (drop_blank (ascii_only line)) in
  Some (default "" (last (split_char slash first))).

Definition mach_o_headers : list string :=
  (λ bytes, String.string_of_list_ascii (ascii_of_nat <$> bytes)) <$>
    [[254; 237; 250; 206]; [206; 250; 237; 254]; [254; 237; 250; 207]; [207; 250; 237; 254];
     [202; 254; 186; 190]; [190; 186; 254; 202]; [202; 254; 186; 191]; [191; 186; 254; 202]]%nat.

Section Files.
Context `{SerdeJson, !JsonRead, Sha2} (fs : FileTree).

Definition verifier_file (path expected : string) (executable stale header_is_data : bool)
    : result unit :=
  let unavailable :=
    verifier_error "JSPACE_VERIFIER_PATH_INVALID" path "verifier file unavailable" in
  let grant_malformed := verifier_error "JSPACE_VERIFIER_GRANT_MALFORMED" path in
  _ ← verifier_path_without_symlink fs path true;
  _ ← reject_if (negb (is_lower_sha256 expected)) (grant_malformed "lowercase SHA-256 required");
  metadata ← match ft_metadata fs path with inr m => Ok m | inl _ => Err unavailable end;
  _ ← reject_if (negb (bool_decide (md_type metadata = FtFile))
                 || executable && (Z.land (md_mode metadata) 73 =? 0))
        (grant_malformed "regular executable file required");
  content ← match ft_read fs path with inr c => Ok c | inl _ => Err unavailable end;
  _ ← reject_if (executable && negb (contains mach_o_headers (take_bytes 4 content)))
        (grant_malformed "pinned Mach-O executable required");
  _ ← reject_if (negb header_is_data
                 && match shebang_program content with
                    | Some program => contains shell_names program
                    | None => false
                    end)
        (grant_malformed "shell and env verifier entries are not admitted");
  reject_if (bool_decide (sha256_hex content ≠ expected))
    (verifier_error (if stale then "NOKIY_LOCAL_CONTEXT_STALE" else "JSPACE_VERIFIER_FILE_MISMATCH")
       path "verifier file SHA-256 changed").

(** ** The grant of a contract *)

(** [serde_json::from_value::<Vec<VerifierCommand>>]: the error's text or the
    commands. *)
Context (verifier_commands_from_value : Value → string + list VerifierCommand).

Fixpoint check_pinned_files (command : VerifierCommand) (pinned : list string)
    (files : list VerifierPinnedFile) : result unit :=
  match files with
  | [] => Ok tt
  | file :: rest =>
      let occurrences := length (filter (λ arg, arg = pf_path file) (vc_argv command)) in
      _ ← reject_if
            (negb (is_lower_sha256 (pf_sha256 file)) || seen_path pinned (pf_path file)
             || bool_decide (occurrences = 0%nat)
             || (match pf_scope file with Some _ => true | None => false end)
                && bool_decide (occurrences ≠ 1%nat))
            (verifier_error "JSPACE_VERIFIER_GRANT_MALFORMED" (pf_path file)
               "pinned file must have a valid digest and occur in exact argv; verifier_only requires exactly once");
      check_pinned_files command (pf_path file :: pinned) rest
  end.

Definition commands_malformed (detail : string) : JSpaceError :=
  admission_error "JSPACE_VERIFIER_GRANT_MALFORMED" "verifier_commands" detail.

Definition check_verifier_grant (workspace root : string) (write_scopes : list string)
    (argv_seen : list (list string)) (scratches : list string) (command : VerifierCommand)
    : result unit :=
  let argv := vc_argv command in
  unpinned ← (if bool_decide (argv = []) then Ok false
              else runner ← module_test_runner argv;
                   Ok (runner || work_product_operands_only fs argv workspace write_scopes));
  let pins := length (vc_pinned_files command) in
  _ ← reject_if
        (negb ((1 <=? length argv) && (length argv <=? 32))%nat
         || negb (((if unpinned : bool then 0 else 1) <=? pins) && (pins <=? 8))%nat
         || negb ((1 <=? vc_timeout_seconds command) && (vc_timeout_seconds command <=? 300))
         || vc_network command || contains argv_seen argv)
        (commands_malformed "invalid bounds, network policy or duplicate argv");
  _ ← reject_if
        (existsb (λ entry : nat * string,
           is_empty entry.2 || bool_decide (1024 < char_count entry.2)%nat
           || existsb (λ ch, shell_syntax ch || bool_decide (entry.1 = 0%nat) && glob_syntax ch)
                (chars entry.2)) (imap pair argv))
        (commands_malformed "argv must be bounded and shell-free");
  inline ← runs_inline argv;
  _ ← reject_if inline (commands_malformed "shell or inline interpreter invocation denied");
  executable ← first_arg argv;
  _ ← verifier_file executable (vc_executable_sha256 command) true false false;
  _ ← verifier_scratch fs (vc_scratch_root command) root workspace false;
  _ ← reject_if (seen_path scratches (vc_scratch_root command))
        (verifier_error "JSPACE_VERIFIER_SCRATCH_INVALID" (vc_scratch_root command)
           "duplicate scratch root");
  check_pinned_files command [] (vc_pinned_files command).

Fixpoint check_verifier_grants (workspace root : string) (write_scopes : list string)
    (argv_seen : list (list string)) (scratches : list string) (commands : list VerifierCommand)
    : result unit :=
  match commands with
  | [] => Ok tt
  | command :: rest =>
      _ ← check_verifier_grant workspace root write_scopes argv_seen scratches command;
      check_verifier_grants workspace root write_scopes (vc_argv command :: argv_seen)
        (vc_scratch_root command :: scratches) rest
  end.

Definition parse_verifier_grant (object : Map) (workspace schema : string)
    : result (option string * list VerifierCommand) :=
  if negb (contains_key object "verifier_commands")
     && negb (contains_key object "verifier_artifact_root") then Ok (None, []) else
  _ ← reject_if (bool_decide (schema ≠ JSPACE_SINGLE_ROOT_SCHEMA_VERSION))
        (admission_error "JSPACE_VERIFIER_GRANT_UNSUPPORTED" "verifier_commands"
           "typed verifier fields require single-root v2");
  raw_commands ← ok_or (get object "verifier_commands") (commands_malformed "paired fields required");
  commands ← match verifier_commands_from_value raw_commands with
             | inr commands => Ok commands
             | inl error => Err (commands_malformed error)
             end;
  _ ← reject_if (negb ((1 <=? length commands) && (length commands <=? 8))%nat)
        (commands_malformed "1..8 commands required");
  root ← ok_or (get_str object "verifier_artifact_root")
    (admission_error "JSPACE_VERIFIER_GRANT_MALFORMED" "verifier_artifact_root"
       "paired absolute root required");
  _ ← verifier_path_without_symlink fs root true;
  _ ← reject_if (negb (canonical_directory fs root) || path_starts_with root workspace)
        (verifier_error "JSPACE_VERIFIER_ARTIFACT_ROOT_INVALID" root
           "canonical artifact directory must be outside workspace");
  let write_scopes := omap as_str (default [] (get object "write_scopes" ≫= as_array)) in
  _ ← check_verifier_grants workspace root write_scopes [] [] commands;
  Ok (Some root, commands).
End Files.

Example verifier_argv_examples :
  module_test_runner ["/usr/bin/python3.11"; "-B"; "-m"; "pytest"; "t"] = Ok true
  ∧ module_test_runner ["/usr/bin/python3"; "t.py"; "-m"; "pytest"] = Ok false
  ∧ cpython_inline_code ["python"; "-Bc"; "x"] = true
  ∧ cpython_inline_code ["python"; "-W"; "-c"; "x.py"] = false
  ∧ cpython_inline_code ["python"; "-m"; "pytest"; "-c"; "x"] = false
  ∧ runs_inline ["/bin/bash"; "x"] = Ok true ∧ runs_inline ["/x/node"; "-e"; "1"] = Ok true
  ∧ direct_node_verifier_program ["/x/node"; "/y/a.mjs"] = Some "/y/a.mjs"
  ∧ direct_node_verifier_program ["/x/node"; "/y/.ssh/a.js"] = None
  ∧ extension "/a/.js" = None ∧ extension "/a/b.c.js" = Some "js"
  ∧ shebang_program ("#! /usr/bin/env node" +:+ String (ascii_of_nat 10) "x") = Some "env".
Proof. vm_compute. by split_and!. Qed.
