(* ===== verification/JSpacePolicies.v ===== *)
(** * Opt-in policies: discovery commands and delegated shells

    [jspace_read.rs], [jspace_inspect.rs] and [jspace_parent_shell.rs]: the
    shape of each policy, the arguments of a discovery command and the binding
    of a shell profile.  The checks that need a matcher are in [JSpaceMatcher]. *)

From stdpp Require Import base list strings gmap sorting pretty.
From Stdlib Require Import ZArith Lia Ascii.
From S2P Require Import Prelude RustStd RustText RustPath Externals TaskData TaskIdentity JSpaceScopes JSpaceJson.
Open Scope Z_scope.

(** ** [jspace_read.rs] *)

Definition read_denied (detail : string) : JSpaceError :=
  JSpaceError_new "JSPACE_READ_COMMAND_DENIED" "read" "" detail.

(** [text.is_char_boundary(index)]. *)
Definition is_char_boundary (text : string) (index : nat) : bool :=
  match String.get index text with
  | Some a => let n := nat_of_ascii a in negb ((128 <=? n) && (n <? 192))%nat
  | None => (index =? String.length text)%nat
  end.
Fixpoint boundary_below (text : string) (index : nat) : nat :=
  if is_char_boundary text index then index
  else match index with S index => boundary_below text index | O => O end.
Fixpoint text_prefix (n : nat) (s : string) : string :=
  match n, s with
  | S n, String a s => String a (text_prefix n s)
  | _, _ => EmptyString
  end.
Definition shown (text : string) : string :=
  if len text <=? 160 then text
  else text_prefix (boundary_below text 160) text +:+ "...".
Definition denied_operand (operand detail : string) : JSpaceError :=
  JSpaceError_new "JSPACE_READ_COMMAND_DENIED" "read" (shown operand) detail.

Definition digit_value (a : ascii) : Z := Z.of_nat (nat_of_ascii a) - 48.
Definition is_digit (a : ascii) : bool :=
  let n := nat_of_ascii a in ((48 <=? n) && (n <=? 57))%nat.
Fixpoint decimal_value (acc : Z) (text : string) : Z :=
  match text with
  | EmptyString => acc
  | String a text => decimal_value (10 * acc + digit_value a) text
  end.
(** At most five digits: [parse::<u32>] does not overflow. *)
Definition bounded_count (value : string) : bool :=
  negb (is_empty value) && (len value <=? 5) && bytes_all is_digit value
  && (decimal_value 0 value <=? 10000).

Definition is_hexdigit (a : ascii) : bool :=
  let n := nat_of_ascii a in
  is_digit a || ((65 <=? n) && (n <=? 70) || (97 <=? n) && (n <=? 102))%nat.

(** A part that is no name, or a hidden one. *)
Definition hidden_or_special (part : Component) : bool :=
  negb (is_normal part) || starts_with "." (component_text part).

Section Read.
Context `{JsonNumber}.

Definition root_invalid (name : string) : bool :=
  is_empty name || has_any (ascii_of_nat <$> [42; 63; 91; 93; 0; 10; 13]%nat) name
  || is_absolute name || existsb hidden_or_special (components name).
Fixpoint validate_roots (names : list string) (roots : list Value) : result (list string) :=
  match roots with
  | [] => Ok names
  | root :: rest =>
      name ← ok_or (as_str root) (read_denied "root must be a string");
      _ ← reject_if (root_invalid name)
            (read_denied "roots must be explicit non-hidden relative directories");
      _ ← reject_if (contains names name) (read_denied "duplicate root");
      validate_roots (names ++ [name]) rest
  end.
Definition validate_executable (object : Map) (tool : string) : result unit :=
  executable ← ok_or (get object tool ≫= as_object) (read_denied "missing executable identity");
  match length executable, get_str executable "path", get_str executable "sha256" with
  | 2%nat, Some path, Some sha =>
      reject_if (negb (is_absolute path) || negb (len sha =? 64) || negb (bytes_all is_hexdigit sha))
        (read_denied "invalid executable identity")
  | _, _, _ => Err (read_denied "executable requires path and sha256")
  end.
Definition read_validate (value : Value) : result (list string) :=
  object ← ok_or (as_object value) (read_denied "read_commands must be an object");
  _ ← reject_if (bool_decide (length object ≠ 3%nat) || negb (contains_key object "roots")
                 || negb (contains_key object "rg") || negb (contains_key object "cat"))
        (read_denied "read_commands requires roots and pinned rg/cat");
  roots ← ok_or (get object "roots" ≫= as_array) (read_denied "roots must be an array");
  _ ← reject_if (bool_decide (roots = []) || bool_decide (8 < length roots)%nat)
        (read_denied "require 1..8 roots");
  names ← validate_roots [] roots;
  _ ← validate_executable object "rg";
  _ ← validate_executable object "cat";
  Ok names.

(** [policy[tool][field].as_str()]. *)
Definition tool_field (policy : Value) (tool field : string) : option string :=
  entry ← value_get policy tool; value_get entry field ≫= as_str.
End Read.

(** The options of [rg] before [--]: what the loop records. *)
Record RgOptions := { rg_no_config : bool; rg_bounded_size : bool; rg_files : bool;
                      rg_pattern_bytes : Z }.
#[export] Instance eta_RgOptions : Eta RgOptions :=
  MkEta (λ o, Build_RgOptions (rg_no_config o) (rg_bounded_size o) (rg_files o) (rg_pattern_bytes o)).

Definition rg_plain_options : list string :=
  ["-n"; "--line-number"; "-N"; "--no-line-number"; "-l"; "--files-with-matches";
   "--files-without-match"; "-c"; "--count"; "--count-matches"; "-o"; "--only-matching";
   "-i"; "--ignore-case"; "-F"; "--fixed-strings"; "-S"; "--smart-case"; "-w";
   "--word-regexp"; "-x"; "--line-regexp"; "-v"; "--invert-match"; "-q"; "--quiet";
   "--json"; "--no-heading"; "-H"; "--with-filename"; "-I"; "--no-filename"; "--column";
   "-b"; "--byte-offset"; "--trim"; "--color=never"].
Definition rg_count_options : list string :=
  ["-A"; "-B"; "-C"; "-m"; "-d"; "--after-context"; "--before-context"; "--context";
   "--max-count"; "--max-depth"].
Definition rg_count_prefixes : list string :=
  ["--after-context="; "--before-context="; "--context="; "--max-count="; "--max-depth="].

(** The loop: [args] is [argv[index..]]; what remains starts at [--]. *)
Fixpoint rg_options (seen : RgOptions) (args : list string) : result (RgOptions * list string) :=
  match args with
  | [] => Ok (seen, [])
  | option :: rest =>
      if bool_decide (option = "--") then Ok (seen, args)
      else if bool_decide (option = "--no-config") then rg_options (seen.{rg_no_config := true}) rest
      else if bool_decide (option = "--max-filesize=1M")
      then rg_options (seen.{rg_bounded_size := true}) rest
      else if bool_decide (option = "--files") then rg_options (seen.{rg_files := true}) rest
      else if contains rg_plain_options option then rg_options seen rest
      else if contains rg_count_options option then
        match rest with
        | value :: rest =>
            if bounded_count value then rg_options seen rest
            else Err (denied_operand option "context, count and depth options take a number 0..10000")
        | [] => Err (denied_operand option "context, count and depth options take a number 0..10000")
        end
      else if existsb (λ prefix, match strip_prefix prefix option with
                                 | Some value => bounded_count value
                                 | None => false
                                 end) rg_count_prefixes
      then rg_options seen rest
      else if contains ["-g"; "--glob"] option then
        match rest with
        | glob :: rest =>
            if 256 <? len glob
            then Err (denied_operand option "-g/--glob takes a glob of at most 256 bytes")
            else rg_options seen rest
        | [] => Err (denied_operand option "-g/--glob takes a glob of at most 256 bytes")
        end
      else if contains ["-e"; "--regexp"] option then
        match rest with
        | pattern :: rest =>
            let pattern_bytes := rg_pattern_bytes seen + len pattern in
            if is_empty pattern || (2048 <? pattern_bytes)
            then Err (denied_operand option "require nonempty patterns totaling at most 2048 bytes")
            else rg_options (seen.{rg_pattern_bytes := pattern_bytes}) rest
        | [] => Err (denied_operand option "pattern option requires a value")
        end
      else Err (denied_operand option
        "unsupported rg option before --; allowed: match and output options, -A/-B/-C/-m/-d N and -g GLOB, then -- <pattern> <paths>, or -e/--regexp <pattern> before -- <paths>")
  end.

(** The paths a discovery command reads. *)
Definition bounded_paths (args : list string) (detail : string) : result (list string) :=
  _ ← reject_if (bool_decide (args = []) || bool_decide (16 < length args)%nat) (read_denied detail);
  Ok args.
Definition cat_paths (argv : list string) : result (list string) :=
  bounded_paths (drop (if bool_decide (argv !! 1%nat = Some "--") then 2 else 1) argv)
    "cat requires 1..16 files".
Definition rg_paths (argv : list string) : result (list string) :=
  parsed ← rg_options {| rg_no_config := false; rg_bounded_size := false; rg_files := false;
                         rg_pattern_bytes := 0 |} (drop 1 argv);
  let '(seen, rest) := (parsed : RgOptions * list string) in
  _ ← reject_if (negb (rg_no_config seen) || negb (rg_bounded_size seen)
                 || bool_decide (head rest ≠ Some "--"))
        (read_denied "rg requires --no-config --max-filesize=1M and --");
  let rest := drop 1 rest in
  _ ← reject_if (rg_files seen && (0 <? rg_pattern_bytes seen))
        (read_denied "--files cannot be combined with pattern options");
  rest ← (if negb (rg_files seen) && (rg_pattern_bytes seen =? 0) then
            match rest with
            | pattern :: rest =>
                if is_empty pattern || (2048 <? len pattern)
                then Err (read_denied "require a bounded pattern") else Ok rest
            | [] => Err (read_denied "require a bounded pattern")
            end
          else Ok rest);
  bounded_paths rest "rg requires explicit search paths".

(** The operand relative to the workspace, without touching the file system. *)
Definition lexical_operand (root path operand : string) : result string :=
  relative ← ok_or (strip_path_prefix path root) (denied_operand operand "path outside workspace");
  _ ← reject_if (existsb hidden_or_special (components relative))
        (denied_operand operand "hidden/traversal operands denied");
  Ok relative.

Section Links.
Context (fs : FileTree).
Fixpoint no_links_from (root operand current : string) (rest : list Component) : result string :=
  match rest with
  | [] => Ok current
  | part :: rest =>
      let current := path_join current (component_text part) in
      match ft_symlink_metadata fs current with
      | inr metadata =>
          if bool_decide (md_type metadata = FtSymlink)
          then Err (denied_operand operand "symlink operand denied")
          else no_links_from root operand current rest
      | inl error =>
          let missing := default current (strip_path_prefix current root) in
          Err (denied_operand operand
                 ("unavailable operand: " +:+ shown missing +:+ " "
                  +:+ (if io_not_found_kind error then "does not exist" else "cannot be inspected")))
      end
  end.
Definition no_links (root relative operand : string) : result string :=
  no_links_from root operand root (components relative).
End Links.

(** ** [jspace_inspect.rs] and [jspace_parent_shell.rs] *)

Definition INSPECT_POLICY_SCHEMA : string := "nokiy_inspect_shell_v1".
Definition PROFILE_ENV : string := "TURA_INSPECT_SANDBOX_PROFILE".
Definition inspect_denied (detail : string) : JSpaceError :=
  JSpaceError_new "JSPACE_INSPECT_DENIED" "command" "inspect_shell" detail.
Definition PARENT_POLICY_SCHEMA : string := "nokiy_parent_shell_v1".
Definition parent_denied (detail : string) : JSpaceError :=
  JSpaceError_new "JSPACE_PARENT_SHELL_DENIED" "command" "parent_shell" detail.

Section Shells.
Context `{SerdeJson, Sha2}.

Definition shell_policy_keys : list string :=
  ["evidence_root"; "network"; "profile_sha256"; "schema_version"].
Definition is_lower_hex_64 (digest : string) : bool := (len digest =? 64) && bytes_all is_lower_hex digest.
Definition str_or_default (object : Map) (key : string) : string := default "" (get_str object key).

Definition inspect_validate (value : Value) : result unit :=
  object ← ok_or (as_object value) (inspect_denied "inspect_shell must be an object");
  _ ← reject_if (bool_decide (sort_strings (fst <$> object) ≠ shell_policy_keys))
        (inspect_denied
           "inspect_shell requires schema_version, profile_sha256, evidence_root and network");
  _ ← reject_if (bool_decide (get_str object "schema_version" ≠ Some INSPECT_POLICY_SCHEMA))
        (inspect_denied "unsupported inspect_shell schema");
  _ ← reject_if (negb (is_lower_hex_64 (str_or_default object "profile_sha256")))
        (inspect_denied "profile_sha256 must be a lowercase SHA-256");
  _ ← reject_if (negb (is_absolute (str_or_default object "evidence_root")))
        (inspect_denied "evidence_root must be an absolute path");
  reject_if (negb match get_str object "network" with
                  | Some network => contains ["loopback"; "none"; "inherit"] network
                  | None => false
                  end)
    (inspect_denied "network must be loopback, none or inherit").

Definition check_profile (fs : FileTree) (value : Value) (profile : option string) : result unit :=
  expected ← ok_or (value_get value "profile_sha256" ≫= as_str)
    (inspect_denied "inspect_shell policy is incomplete");
  path ← ok_or profile (inspect_denied "inspect sandbox profile is not bound to this process");
  bytes ← match ft_read fs path with
          | inr bytes => Ok bytes
          | inl _ => Err (inspect_denied "inspect sandbox profile is unavailable")
          end;
  reject_if (bool_decide (sha256_hex bytes ≠ expected))
    (inspect_denied "inspect sandbox profile digest does not match the contract").
Definition check_binding (fs : FileTree) (value : Value) : result unit :=
  check_profile fs value (ft_env fs PROFILE_ENV).

Definition parent_validate (value : Value) : result unit :=
  object ← ok_or (as_object value) (parent_denied "parent_shell must be an object");
  _ ← reject_if (bool_decide (sort_strings (fst <$> object) ≠ shell_policy_keys))
        (parent_denied
           "parent_shell requires schema_version, profile_sha256, evidence_root and network");
  _ ← reject_if (bool_decide (get_str object "schema_version" ≠ Some PARENT_POLICY_SCHEMA))
        (parent_denied "unsupported parent_shell schema");
  _ ← reject_if (negb (is_lower_hex_64 (str_or_default object "profile_sha256")))
        (parent_denied "profile_sha256 must be a lowercase SHA-256");
  _ ← reject_if (negb (is_absolute (str_or_default object "evidence_root")))
        (parent_denied "evidence_root must be an absolute path");
  reject_if (negb match get_str object "network" with
                  | Some network => contains ["inherit"; "none"] network
                  | None => false
                  end)
    (parent_denied "network must be inherit or none").
End Shells.

Example rg_examples :
  rg_paths ["/x/rg"; "--no-config"; "--max-filesize=1M"; "-A"; "3"; "--"; "pat"; "src"] = Ok ["src"]
  ∧ is_err (rg_paths ["/x/rg"; "--no-config"; "--max-filesize=1M"; "--hidden"; "--"; "p"; "src"]) = true
  ∧ is_err (rg_paths ["/x/rg"; "--max-filesize=1M"; "--"; "p"; "src"]) = true
  ∧ cat_paths ["/x/cat"; "--"; "a"; "b"] = Ok ["a"; "b"]
  ∧ bounded_count "10000" = true ∧ bounded_count "10001" = false ∧ bounded_count "" = false.
Proof. vm_compute. by split_and!. Qed.
