(* ===== verification/JSpaceDigest.v ===== *)
(** * Digests: what a contract claims and what its authorization covers

    [claimed_contract_digests], [verified_contract_digests] and
    [authorization_semantic_sha256] with the grants they read
    ([path/src/jspace.rs]). *)

From stdpp Require Import base list strings gmap sorting pretty.
From Stdlib Require Import ZArith Lia Ascii.
From S2P Require Import Prelude RustStd RustText RustPath Externals TaskData TaskIdentity JSpaceScopes JSpaceJson JSpaceTemplates JSpaceVerifier JSpacePolicies.
Open Scope Z_scope.

(** [mapped_source_read.rs]: the record; its check against the descriptors of
    the file system is a parameter, the text of its error or nothing. *)
Record FileSystemIdentity := { fi_device : Z; fi_inode : Z }.
Record MappedSourceReadBinding := {
  mb_schema_version : string;
  mb_contract_path : string;
  mb_contract_sha256 : string;
  mb_contract_identity : FileSystemIdentity;
  mb_repo_identity : FileSystemIdentity;
  mb_requested_logical_path : string;
  mb_logical_path : string;
  mb_logical_namespace : string;
  mb_alias_path : string;
  mb_alias_link_text : string;
  mb_alias_identity : FileSystemIdentity;
  mb_alias_parent_identity : FileSystemIdentity;
  mb_physical_root : string;
  mb_physical_root_identity : FileSystemIdentity;
  mb_physical_path : string;
}.

(** The derived readers and writers: a value or the text of serde's error. *)
Class JSpaceSerde `{JsonNumber} := {
  verifier_commands_from_value : Value → string + list VerifierCommand;
  bindings_from_value : Value → string + list MappedSourceReadBinding;
  bindings_to_value : list MappedSourceReadBinding → string + Value;
}.

Section Digests.
Context `{SerdeJson, !JsonRead, Sha2, !JSpaceSerde} (fs : FileTree).

Definition contract_object (contract : Value) : result Map :=
  ok_or (as_object contract) (malformed "" "contract must be an object").

Definition claimed_contract_digests (object : Map) (schema_version : string)
    : result (string * string) :=
  digests ←
    (if contains [JSPACE_SCHEMA_VERSION; JSPACE_SINGLE_ROOT_SCHEMA_VERSION] schema_version then
       content ← required_string object "content_sha256";
       authorization ← required_string object "authorization_semantic_sha256";
       Ok (content, authorization)
     else if bool_decide (schema_version = JSPACE_LEGACY_SCHEMA_VERSION) then
       digest ← required_string object "semantic_sha256";
       Ok (digest, digest)
     else Err (admission_error "JSPACE_SCHEMA_VERSION_UNSUPPORTED" "schema_version"
                 ("unsupported schema " +:+ schema_version)));
  let '(content, authorization) := (digests : string * string) in
  _ ← reject_if (negb (is_lower_sha256 content) || negb (is_lower_sha256 authorization))
        (admission_error "JSPACE_DIGEST_INVALID" "" "J-Space digests must be lowercase SHA-256");
  Ok (content, authorization).

(** ** Grants *)

Definition is_single_root (object : Map) : bool :=
  bool_decide (get_str object "schema_version" = Some JSPACE_SINGLE_ROOT_SCHEMA_VERSION).

Definition mapped_invalid (detail : string) : JSpaceError :=
  admission_error "JSPACE_MAPPED_SOURCE_READ_GRANT_INVALID" "mapped_source_reads" detail.

(** The logical path of a binding: canonical, relative, without patterns. *)
Definition logical_path_invalid (binding : MappedSourceReadBinding) : bool :=
  let logical := mb_logical_path binding in
  bool_decide (mb_requested_logical_path binding ≠ logical) || is_empty logical
  || (65536 <? len logical) || has_char backslash logical
  || existsb (λ character, is_control character
                           || contains (ascii_char <$> (ascii_of_nat <$> [42; 63; 91; 93]%nat)) character)
       (chars logical)
  || existsb (λ part, is_empty part || contains ["."; ".."] part) (split_char slash logical).

Definition parse_mapped_source_read_grant (object : Map) : result (list MappedSourceReadBinding) :=
  match get object "mapped_source_reads" with
  | None => Ok []
  | Some value =>
      _ ← reject_if (negb (is_single_root object)
                     || bool_decide ((get object "source_read" ≫= as_bool) ≠ Some true))
            (mapped_invalid "mapped reads require source_read=true on single-root v2");
      bindings ← match bindings_from_value value with
                 | inr bindings => Ok bindings
                 | inl error => Err (mapped_invalid error)
                 end;
      match (bindings : list MappedSourceReadBinding) with
      | [binding] =>
          _ ← reject_if (logical_path_invalid binding)
                (mapped_invalid "the mapped request must be the canonical relative logical path");
          allowed ← operations_field object "allowed_operations";
          denied ← operations_field object "denied_operations";
          let refused := mapped_invalid
            "mapped reads require existing read/command grants and an exact logical read scope" in
          _ ← reject_if (negb (has_operation allowed "read") || negb (has_operation allowed "command")
                         || has_operation denied "read" || has_operation denied "command") refused;
          scopes ← required_string_array object "read_scopes";
          _ ← reject_if (negb (contains scopes (mb_logical_path binding))) refused;
          Ok bindings
      | _ => Err (mapped_invalid "exactly one mapped source read binding is required")
      end
  end.

Definition source_read_grant (object : Map) : result bool :=
  let invalid := admission_error "JSPACE_SOURCE_READ_GRANT_INVALID" "source_read"
                   "source_read must be true on a v2 or v3 contract" in
  match get object "source_read" with
  | None => Ok false
  | Some (VBool true) =>
      match get_str object "schema_version" with
      | Some schema =>
          if contains [JSPACE_SCHEMA_VERSION; JSPACE_SINGLE_ROOT_SCHEMA_VERSION] schema
          then Ok true else Err invalid
      | None => Err invalid
      end
  | Some _ => Err invalid
  end.

Definition dcf_generation (object : Map) : result Map :=
  ok_or (get object "dcf_generation" ≫= as_object)
    (malformed "dcf_generation" "required object is missing").

(** ** The authorization of a multi-domain contract *)

Definition capability_value (capability : EffectCapabilityMatcher) : Value :=
  json_object
    [("domain_id", VString (ec_domain_id capability));
     ("root", VString (ec_root capability));
     ("read_scopes", json_strings (ec_read_projection capability));
     ("write_scopes", json_strings (ec_write_projection capability));
     ("allowed_operations", json_strings (btree_iter (ec_allowed_operations capability)));
     ("declared_targets", json_strings (ec_declared_projection capability))].
Definition target_value (target : CommandTarget) : Value :=
  json_object
    [("domain_id", json_opt_string (ct_domain_id target));
     ("operation", VString (ct_operation target));
     ("path", VString (ok_value (ct_path target) (resolve_existing_boundary fs (ct_path target))));
     ("argv_index", json_u64 (ct_argv_index target));
     ("binding", VString "argv")].
Definition template_value (template : CommandTemplate) : Value :=
  json_object
    [("argv", json_strings (tm_argv template));
     ("effects", json_strings (dedup (sort_strings (tm_effects template))));
     ("targets", VArray (sort_by_text canonical_json (target_value <$> tm_targets template)))].
Definition sorted_values (values : list Value) : Value := VArray (sort_by_text canonical_json values).

Definition normalized_effect_authorization (object : Map) : result Map :=
  source_read ← source_read_grant object;
  generation ← dcf_generation object;
  allowed_operations ← operations_field object "allowed_operations";
  denied_operations ← operations_field object "denied_operations";
  capabilities ← parse_effect_capabilities fs object denied_operations;
  templates ← parse_command_templates object true;
  _ ← validate_command_templates fs allowed_operations denied_operations PathTrie_new capabilities
        true templates;
  matched_surface_ids ← required_string_array object "matched_surface_ids";
  repo_root ← required_string object "repo_root";
  root ← normalized_root fs repo_root;
  let payload := foldl (λ m f, map_insert f.1 f.2 m) []
    [("schema_version", VString JSPACE_EFFECT_AUTHORIZATION_SCHEMA_VERSION);
     ("repo_root", VString root);
     ("required_domain_bindings", get_or_null generation "required_domain_bindings");
     ("matched_surface_ids", json_strings (dedup (sort_strings matched_surface_ids)));
     ("allowed_operations", json_strings (btree_iter allowed_operations));
     ("denied_operations", json_strings (btree_iter denied_operations));
     ("effect_capabilities", sorted_values (capability_value <$> capabilities));
     ("command_templates", sorted_values (template_value <$> templates));
     ("expansion", get_or_null object "expansion")] in
  Ok (if source_read : bool then map_insert "source_read" (VBool true) payload else payload).
Definition normalized_effect_authorization_sha256 (object : Map) : result string :=
  payload ← normalized_effect_authorization object;
  Ok (semantic_sha256 (VObject payload)).

(** ** The authorization of a contract *)

(** [if let Some(policy) = object.get(key) { validate(policy)?; payload[key] = policy }]. *)
Definition bind_policy (object : Map) (key : string) (validate : Value → result unit)
    (payload : Map) : result Map :=
  match get object key with
  | Some policy => _ ← validate policy; Ok (map_insert key policy payload)
  | None => Ok payload
  end.

Definition single_root_authorization (object : Map) (generation : Map) (source_read : bool)
    (mapped_source_reads : list MappedSourceReadBinding) : result Map :=
  let payload := foldl (λ m f, map_insert f.1 f.2 m) []
    ([("schema_version", VString JSPACE_AUTHORIZATION_SCHEMA_VERSION);
      ("repo_root", get_or_null object "repo_root");
      ("required_domain_bindings", get_or_null generation "required_domain_bindings")]
     ++ ((λ key, (key, get_or_null object key)) <$>
           ["matched_surface_ids"; "read_scopes"; "write_scopes"; "allowed_operations";
            "denied_operations"; "command_templates"; "declared_targets"; "expansion"])) in
  payload ← bind_policy object "command_effect_policy"
    (λ policy, reject_if (bool_decide (as_str policy ≠ Some "trusted_argv_effects_v1"))
                 (admission_error "JSPACE_COMMAND_EFFECT_POLICY_UNSUPPORTED" "command_effect_policy"
                    "unsupported command effect policy")) payload;
  payload ← bind_policy object "read_commands" (λ policy, _ ← read_validate policy; Ok tt) payload;
  payload ← bind_policy object "inspect_shell" inspect_validate payload;
  payload ← bind_policy object "parent_shell" parent_validate payload;
  let artifact_root := get_or_null object "verifier_artifact_root" in
  let payload :=
    match get object "verifier_commands" with
    | Some commands =>
        map_insert "verifier_artifact_root" artifact_root
          (map_insert "verifier_commands" commands payload)
    | None => if contains_key object "verifier_artifact_root"
              then map_insert "verifier_artifact_root" artifact_root payload else payload
    end in
  let payload := if source_read then map_insert "source_read" (VBool true) payload else payload in
  match mapped_source_reads with
  | [] => Ok payload
  | _ => match bindings_to_value mapped_source_reads with
         | inr value => Ok (map_insert "mapped_source_reads" value payload)
         | inl error => Err (mapped_invalid error)
         end
  end.

Definition authorization_semantic_sha256 (contract : Value) : result string :=
  object ← contract_object contract;
  mapped_source_reads ← parse_mapped_source_read_grant object;
  _ ← reject_if ((contains_key object "verifier_commands" || contains_key object "verifier_artifact_root")
                 && negb (is_single_root object))
        (admission_error "JSPACE_VERIFIER_GRANT_UNSUPPORTED" "verifier_commands"
           "typed verifier fields require single-root v2");
  if bool_decide (get_str object "schema_version" = Some JSPACE_SCHEMA_VERSION)
  then normalized_effect_authorization_sha256 object
  else
    source_read ← source_read_grant object;
    generation ← dcf_generation object;
    payload ← single_root_authorization object generation source_read mapped_source_reads;
    Ok (semantic_sha256 (VObject payload)).

Definition verified_contract_digests (contract : Value) (object : Map) (schema_version : string)
    : result (string * string) :=
  digests ← claimed_contract_digests object schema_version;
  let '(content, authorization) := (digests : string * string) in
  if contains [JSPACE_SCHEMA_VERSION; JSPACE_SINGLE_ROOT_SCHEMA_VERSION] schema_version then
    expected_authorization ← authorization_semantic_sha256 contract;
    _ ← reject_if (bool_decide (authorization ≠ expected_authorization))
          (admission_error "JSPACE_AUTHORIZATION_DIGEST_MISMATCH" ""
             ("expected " +:+ expected_authorization +:+ ", got " +:+ authorization));
    payload ← contract_object contract;
    let expected_content := semantic_sha256 (VObject (map_remove "content_sha256" payload)) in
    _ ← reject_if (bool_decide (content ≠ expected_content))
          (admission_error "JSPACE_CONTENT_DIGEST_MISMATCH" ""
             ("expected " +:+ expected_content +:+ ", got " +:+ content));
    Ok (content, authorization)
  else
    payload ← contract_object contract;
    let expected := semantic_sha256 (VObject (map_remove "semantic_sha256" payload)) in
    _ ← reject_if (bool_decide (content ≠ expected))
          (admission_error "JSPACE_SEMANTIC_DIGEST_MISMATCH" ""
             ("expected " +:+ expected +:+ ", got " +:+ content));
    Ok (content, authorization).
End Digests.
