(* ===== verification/JSpaceMatcher.v ===== *)
(** * The matcher: what an admitted contract lets a session do

    [JSpaceMatcher] of [path/src/jspace.rs] with its checks of paths, commands,
    source reads and verifiers, and the discovery checks of [jspace_read.rs]. *)

From stdpp Require Import base list strings gmap sorting pretty.
From Stdlib Require Import ZArith Lia Ascii.
From S2P Require Import Prelude RustStd RustText RustPath Externals TaskData TaskIdentity JSpaceScopes JSpaceArgv JSpaceJson JSpaceTemplates JSpaceVerifier JSpacePolicies JSpaceDigest.
Open Scope Z_scope.

Record JSpaceMatcher `{JsonNumber} := {
  jm_schema_version : string;
  jm_repo_root : string;
  jm_lexical_repo_root : string;
  jm_content_digest : string;
  jm_authorization_digest : string;
  jm_scope_projection : JSpaceScopeProjection;
  jm_read_scopes : PathTrie;
  jm_write_scopes : PathTrie;
  jm_declared_targets : PathTrie;
  jm_allowed_operations : gset string;
  jm_denied_operations : gset string;
  jm_command_templates : list CommandTemplate;
  jm_command_template_index : gmap (list string) nat;
  jm_read_commands : option Value;
  jm_inspect_shell : option Value;
  jm_parent_shell : option Value;
  jm_verifier_commands : list VerifierCommand;
  jm_verifier_artifact_root : option string;
  jm_source_read : bool;
  jm_mapped_source_reads : list MappedSourceReadBinding;
  jm_directory_source_read : bool;
  jm_effect_capabilities : list EffectCapabilityMatcher;
  jm_declared_target_projection : list string;
}.

(** What the checks call outside the crate or the standard library's model: the
    descriptor check of a binding, and [Debug] of a list of strings. *)
Class JSpaceHost := {
  binding_validate : MappedSourceReadBinding → string → option string;
  debug_strings : list string → string;
}.

Definition is_some {A} (o : option A) : bool := match o with Some _ => true | None => false end.

Section Matcher.
Context `{SerdeJson, !JsonRead, Sha2, !JSpaceSerde, !JSpaceHost} (fs : FileTree).
Implicit Types (self : JSpaceMatcher).

Definition is_multi_domain self : bool :=
  bool_decide (jm_schema_version self = JSPACE_SCHEMA_VERSION).

(** ** Operations *)

Definition denied_detail self (operation reason : string) : string :=
  let evidence_root := (jm_inspect_shell self ≫= λ policy, value_get policy "evidence_root")
                       ≫= as_str in
  match evidence_root with
  | Some root =>
      if is_mutation operation
      then reason +:+ "; this inspect action writes and edits task-local files with shell lines under "
           +:+ root +:+ " (admitted, not a switched path); repository paths stay read-only"
      else reason
  | None => reason
  end.

Definition check_operation self (operation target : string) : result unit :=
  let error code detail := JSpaceError_new code operation target detail in
  _ ← reject_if (negb (is_known_operation operation))
        (error "JSPACE_UNKNOWN_OPERATION" "operation is not in the shared J-Space schema");
  _ ← reject_if (has_operation (jm_denied_operations self) operation)
        (error "JSPACE_OPERATION_DENIED"
           (denied_detail self operation "operation is explicitly denied"));
  reject_if (negb (has_operation (jm_allowed_operations self) operation))
    (error "JSPACE_OPERATION_DENIED"
       (denied_detail self operation "operation is not explicitly allowed")).

(** ** Paths *)

Definition resolve_target self (target operation : string) : result string :=
  _ ← reject_if (is_empty target)
        (JSpaceError_new "JSPACE_TARGET_INVALID" operation "" "target must be non-empty");
  _ ← reject_if (has_parent_dir target)
        (JSpaceError_new "JSPACE_PATH_TRAVERSAL" operation target
           "parent traversal is not admitted");
  let lexical := if is_absolute target then target else path_join (jm_repo_root self) target in
  let lexical_within_root :=
    within lexical (jm_repo_root self)
    || is_absolute target && within target (jm_lexical_repo_root self) in
  resolved ← map_err (λ error, JSpaceError_new "JSPACE_PATH_RESOLUTION_FAILED" operation target error)
               (resolve_existing_boundary fs lexical);
  match strip_path_prefix resolved (jm_repo_root self) with
  | None =>
      Err (JSpaceError_new
             (if lexical_within_root then "JSPACE_SYMLINK_ESCAPE" else "JSPACE_PATH_OUTSIDE_ROOT")
             operation target ("resolved target is " +:+ resolved))
  | Some relative => Ok (unix_separators relative)
  end.
Definition ensure_in_root self (target operation : string) : result unit :=
  _ ← resolve_target self target operation; Ok tt.

(** The first domain the target resolves into; [domain_id] restricts the search. *)
Fixpoint matching_domain (domain_id : option string) (target operation : string)
    (capabilities : list EffectCapabilityMatcher)
    : result (option (EffectCapabilityMatcher * string)) :=
  match capabilities with
  | [] => Ok None
  | capability :: rest =>
      if match domain_id with
         | Some domain_id => negb (bool_decide (domain_id = ec_domain_id capability))
         | None => false
         end
      then matching_domain domain_id target operation rest else
      match EffectCapabilityMatcher_resolve_target fs capability target operation with
      | Ok relative => Ok (Some (capability, relative))
      | Err error =>
          if bool_decide (je_code error = "JSPACE_PATH_OUTSIDE_DOMAIN")
          then matching_domain domain_id target operation rest else Err error
      | Panic => Panic
      | OutOfFuel => OutOfFuel
      end
  end.

(** The scope, then the declared target, of a resolved relative path. *)
Definition check_relative (read_scopes write_scopes declared_targets : PathTrie)
    (operation target relative outside undeclared : string) : result unit :=
  let is_read := bool_decide (operation = "read") in
  scope_allowed ← PathTrie_matches (if is_read then read_scopes else write_scopes) relative;
  _ ← reject_if (negb scope_allowed)
        (JSpaceError_new JSPACE_EXPANSION_REQUIRED operation target outside);
  if is_read then Ok tt
  else declared ← PathTrie_matches declared_targets relative;
       reject_if (negb declared)
         (JSpaceError_new JSPACE_EXPANSION_REQUIRED operation target undeclared).

Definition check_effect_path self (operation target : string) (domain_id : option string)
    : result unit :=
  let error code detail := JSpaceError_new code operation target detail in
  _ ← reject_if (negb (is_absolute target))
        (error "JSPACE_TARGET_INVALID" "multi-domain targets must be exact absolute paths");
  _ ← reject_if (has_operation (jm_denied_operations self) operation)
        (error "JSPACE_OPERATION_DENIED" "operation is explicitly denied");
  matched ← matching_domain domain_id target operation (jm_effect_capabilities self);
  match (matched : option (EffectCapabilityMatcher * string)) with
  | None =>
      Err (error (if is_some domain_id then "JSPACE_DOMAIN_TARGET_MISMATCH"
                  else "JSPACE_PATH_OUTSIDE_ROOT")
             "target is outside every admitted effect domain")
  | Some (capability, relative) =>
      let domain := ec_domain_id capability in
      _ ← reject_if (negb (has_operation (ec_allowed_operations capability) operation))
            (error "JSPACE_OPERATION_DENIED" ("operation is not admitted in effect domain " +:+ domain));
      check_relative (ec_read_scopes capability) (ec_write_scopes capability)
        (ec_declared_targets capability) operation target relative
        ("target is outside the declared scope for effect domain " +:+ domain)
        ("mutation target is not exact in effect domain " +:+ domain)
  end.

Definition check_path self (operation target : string) : result unit :=
  if is_multi_domain self then check_effect_path self operation target None else
  _ ← check_operation self operation target;
  relative ← resolve_target self target operation;
  _ ← reject_if (bool_decide (operation = "delete")
                 && negb (has_operation (jm_allowed_operations self) "delete"))
        (JSpaceError_new "JSPACE_DELETE_NOT_GRANTED" operation target
           "delete requires an explicit delete operation grant");
  check_relative (jm_read_scopes self) (jm_write_scopes self) (jm_declared_targets self)
    operation target relative
    "exact target is inside the root but outside the declared scope"
    "mutation target is not one of the exact declared targets".

(** ** Discovery: [jspace_read.rs] *)

Definition check_operand self (tool cwd : string) (roots : list string) (operand : string)
    : result unit :=
  _ ← reject_if (starts_with "-" operand) (denied_operand operand "stdin/options are not paths");
  let path := if is_absolute operand then operand else path_join cwd operand in
  relative ← lexical_operand (jm_repo_root self) path operand;
  _ ← reject_if (negb (existsb (path_starts_with relative) roots))
        (denied_operand operand ("operand outside discovery roots " +:+ debug_strings roots));
  path ← no_links fs (jm_repo_root self) relative operand;
  _ ← check_path self "read" path;
  meta ← match ft_metadata fs path with
         | inr meta => Ok meta
         | inl _ => Err (denied_operand operand "unavailable operand")
         end;
  let is_file := bool_decide (md_type meta = FtFile) in
  let is_dir := bool_decide (md_type meta = FtDirectory) in
  _ ← reject_if (negb is_file && negb is_dir)
        (denied_operand operand "only regular files and directories may be read");
  _ ← reject_if (bool_decide (tool = "cat") && is_dir)
        (denied_operand operand "cat reads files; list a directory with rg --files");
  reject_if (bool_decide (tool = "cat") && (1024 * 1024 <? md_len meta))
    (denied_operand operand "cat reads files up to 1 MiB").
Fixpoint check_operands self (tool cwd : string) (roots operands : list string) : result unit :=
  match operands with
  | [] => Ok tt
  | operand :: rest =>
      _ ← check_operand self tool cwd roots operand; check_operands self tool cwd roots rest
  end.

(** The refusal of a program that is not one of the two pinned ones. *)
Definition unpinned_program (policy : Value) (program : string) : JSpaceError :=
  match file_name program with
  | Some name =>
      if contains ["rg"; "cat"] name
      then denied_operand program
             ("use the pinned executable " +:+ default "<missing>" (tool_field policy name "path")
              +:+ ", not PATH or a shell alias")
      else denied_operand program
             "discovery runs only the pinned rg and cat; tests and other programs run only as declared verifier commands"
  | None =>
      denied_operand program
        "discovery runs only the pinned rg and cat; tests and other programs run only as declared verifier commands"
  end.

Definition read_check self (argv : list string) (cwd : string) : result unit :=
  _ ← check_operation self "read" "discovery";
  policy ← ok_or (jm_read_commands self) (read_denied "no discovery grant");
  let program := default "" (head argv) in
  tool ← ok_or (find (λ tool, bool_decide (tool_field policy tool "path" = Some program))
                  ["rg"; "cat"])
           (unpinned_program policy program);
  match tool_field policy tool "path", tool_field policy tool "sha256" with
  | Some executable, Some expected_sha =>
      bytes ← match ft_read fs executable with
              | inr bytes => Ok bytes
              | inl _ => Err (read_denied "executable unavailable")
              end;
      _ ← reject_if (negb (canonical_at fs executable)
                     || bool_decide (sha256_hex bytes ≠ expected_sha))
            (read_denied "executable identity changed");
      paths ← (if bool_decide (tool = "cat") then cat_paths argv else rg_paths argv);
      roots ← read_validate policy;
      check_operands self tool cwd roots paths
  | _, _ => Err (read_denied "missing executable identity")
  end.

Definition read_check_file self (target : string) : result unit :=
  policy ← ok_or (jm_read_commands self) (read_denied "no discovery grant");
  executable ← ok_or (tool_field policy "cat" "path") (read_denied "missing executable identity");
  read_check self [executable; "--"; target] (jm_repo_root self).

(** ** Commands *)

Definition shell_template_matches self (command_line : string) : bool :=
  let '(command, _) := shell_command_parts command_line in
  match parse_shell_argv command with
  | Ok argv => is_some (jm_command_template_index self !! argv)
  | _ => false
  end.

Definition parent_shell_routes self (command_type command_line : string) : bool :=
  is_some (jm_parent_shell self)
  && bool_decide (normalize_command_type command_type = "shell_command")
  && negb (shell_template_matches self command_line).

Definition is_shell_type (kind : string) : bool := contains ["shell_command"; "bash"; "zsh"] kind.

Definition check_read_search_command self (command_type command_line : string) : result unit :=
  let kind := normalize_command_type command_type in
  _ ← check_operation self "command" kind;
  let denied := JSpaceError_new "JSPACE_READ_COMMAND_DENIED" "read" "rg"
                  "not a pinned direct rg discovery command" in
  _ ← reject_if (negb (is_shell_type kind) || is_some (jm_inspect_shell self)
                 || (8192 <? len command_line)) denied;
  argv ← parse_shell_argv command_line;
  policy ← ok_or (jm_read_commands self) denied;
  _ ← reject_if (bool_decide (tool_field policy "rg" "path" ≠ head argv)) denied;
  read_check self argv (jm_repo_root self).

(** [map.any(|target| trie.matches(target))] over the tries of each domain. *)
Definition writable (operations : gset string) : bool :=
  has_operation operations "create" || has_operation operations "modify".
Definition has_declared_patch_target self : result bool :=
  if is_multi_domain self then
    any_result (λ capability,
      if writable (ec_allowed_operations capability)
      then any_result (PathTrie_matches (ec_write_scopes capability))
             (ec_declared_projection capability)
      else Ok false) (jm_effect_capabilities self)
  else if writable (jm_allowed_operations self)
  then any_result (PathTrie_matches (jm_write_scopes self)) (jm_declared_target_projection self)
  else Ok false.

(** [for x in l { f(x)?; }]. *)
Fixpoint each {A} (f : A → result unit) (l : list A) : result unit :=
  match l with
  | [] => Ok tt
  | x :: rest => _ ← f x; each f rest
  end.

Definition check_template self (command : string) (template : CommandTemplate) : result unit :=
  if is_multi_domain self then
    each (λ target, check_effect_path self (ct_operation target) (ct_path target)
                      (ct_domain_id target)) (tm_targets template)
  else
    _ ← each (λ effect, check_operation self effect command) (tm_effects template);
    each (λ target, check_path self (ct_operation target) (ct_path target)) (tm_targets template).

Definition check_shell_command self (command_line : string) : result unit :=
  match jm_inspect_shell self with
  | Some policy => check_binding fs policy
  | None =>
      if is_some (jm_parent_shell self) && negb (shell_template_matches self command_line)
      then Ok tt else
      let '(command, workdir) := shell_command_parts command_line in
      argv ← parse_shell_argv command;
      let template_index := jm_command_template_index self !! argv in
      if is_some (jm_read_commands self) && negb (is_some template_index) then
        cwd ← match workdir with
              | Some directory =>
                  _ ← resolve_target self directory "read";
                  Ok (if is_absolute directory then directory
                      else path_join (jm_repo_root self) directory)
              | None => Ok (jm_repo_root self)
              end;
        read_check self argv cwd
      else
        index ← ok_or template_index
          (JSpaceError_new "JSPACE_COMMAND_DENIED" "command" command
             "command does not match an exact admitted argv template");
        template ← or_panic (jm_command_templates self !! index);
        _ ← match workdir with
            | Some workdir => _ ← resolve_target self workdir "command"; Ok tt
            | None => Ok tt
            end;
        check_template self command template
  end.

Definition check_command self (command_type command_line : string) : result unit :=
  let command_type := normalize_command_type command_type in
  let error code operation detail := JSpaceError_new code operation command_type detail in
  _ ← reject_if (negb (is_known_command_type command_type))
        (error "JSPACE_UNKNOWN_TOOL" "command"
           "command type is not in the local J-Space tool set");
  if contains ["apply_patch"; "planning"; "task_status"] command_type then
    unscoped ← (if jm_source_read self && bool_decide (command_type = "apply_patch")
                then declared ← has_declared_patch_target self; Ok (negb declared)
                else Ok false);
    reject_if unscoped
      (error "JSPACE_COMMAND_DENIED" "command"
         "source_read does not authorize an unscoped apply_patch")
  else
    _ ← check_operation self "command" command_type;
    if is_shell_type command_type then check_shell_command self command_line
    else if bool_decide (command_type = "source_read")
    then Err (JSpaceError_new "JSPACE_SOURCE_READ_INVALID" "read" "source_read"
                "source_read requires an exact target preflight")
    else if bool_decide (command_type = "web_discover")
    then Err (error "JSPACE_NETWORK_DENIED" "network" "network command is not admitted by J-Space")
    else if bool_decide (command_type = "generate_media")
    then Err (error "JSPACE_INSTALL_DENIED" "install"
                "external media command is not admitted by J-Space")
    else if bool_decide (command_type = "read_media")
    then Err (error "JSPACE_COMMAND_DENIED" "command" "external command is not admitted by J-Space")
    else Err (error "JSPACE_UNKNOWN_TOOL" "command" "command type is not supported").
End Matcher.
