(* ===== verification/JSpaceCompile.v ===== *)
(** * Source reads, verifier pins and the compilation of a contract

    The rest of [JSpaceMatcher]: the reads of exact files, the revalidation of
    pins and bindings, and [from_value], in the phases of the source. *)

From stdpp Require Import base list strings gmap sorting pretty.
From Stdlib Require Import ZArith Lia Ascii.
From S2P Require Import Prelude RustStd RustText RustPath Externals TaskData TaskIdentity JSpaceScopes JSpaceArgv JSpaceJson JSpaceTemplates JSpaceVerifier JSpacePolicies JSpaceDigest JSpaceMatcher.
Open Scope Z_scope.

Section Compile.
Context `{SerdeJson, !JsonRead, Sha2, !JSpaceSerde, !JSpaceHost} (fs : FileTree).
Implicit Types (self : JSpaceMatcher).

(** ** Mapped and exact source reads *)

Definition source_read_enabled self : bool := jm_source_read self || jm_directory_source_read self.

Definition mapped_source_read_binding self (target : string) : option MappedSourceReadBinding :=
  find (λ binding, bool_decide (target = mb_requested_logical_path binding))
    (jm_mapped_source_reads self).

Definition validate_bindings (operation root : string) (bindings : list MappedSourceReadBinding)
    : result unit :=
  each (λ binding,
    match binding_validate binding root with
    | None => Ok tt
    | Some error => Err (JSpaceError_new "JSPACE_MAPPED_SOURCE_READ_BINDING_INVALID" operation
                           (mb_requested_logical_path binding) error)
    end) bindings.
Definition revalidate_mapped_source_reads self : result unit :=
  validate_bindings "read" (jm_repo_root self) (jm_mapped_source_reads self).

(** [resolve_target(...).ok().is_some_and(|relative| trie.matches_exact(&relative))]. *)
Definition resolved_exact (resolved : result string) (trie : PathTrie) : result bool :=
  match resolved with
  | Ok relative => PathTrie_matches_exact trie relative
  | Err _ => Ok false
  | Panic => Panic
  | OutOfFuel => OutOfFuel
  end.

Definition check_source_read self (target : string) : result unit :=
  _ ← check_operation self "command" "source_read";
  if negb (jm_source_read self) then
    if jm_directory_source_read self then read_check_file fs self target
    else Err (JSpaceError_new "JSPACE_SOURCE_READ_DENIED" "read" target
                "source_read is not explicitly granted")
  else if is_some (mapped_source_read_binding self target) then
    _ ← check_operation self "read" target; revalidate_mapped_source_reads self
  else
    _ ← check_path fs self "read" target;
    exact ← (if is_multi_domain self then
               any_result (λ capability,
                 if has_operation (ec_allowed_operations capability) "read"
                 then resolved_exact
                        (EffectCapabilityMatcher_resolve_target fs capability target "read")
                        (ec_read_scopes capability)
                 else Ok false) (jm_effect_capabilities self)
             else resolved_exact (resolve_target fs self target "read") (jm_read_scopes self));
    if exact : bool then Ok tt
    else if jm_directory_source_read self then read_check_file fs self target
    else Err (JSpaceError_new JSPACE_EXPANSION_REQUIRED "read" target
                "source_read requires the exact file path in a read scope").

(** The loop over the pins of every verifier. *)
Fixpoint pinned_digest (unavailable : JSpaceError) (target : string) (digest : option string)
    (pins : list VerifierPinnedFile) : result (option string) :=
  match pins with
  | [] => Ok digest
  | pin :: rest =>
      if is_some (pf_scope pin) || negb (path_eqb (pf_path pin) target)
      then pinned_digest unavailable target digest rest else
      let value := to_ascii_lowercase (pf_sha256 pin) in
      if negb (len value =? 64) || negb (bytes_all is_hexdigit value)
         || match digest with
            | Some previous => bool_decide (previous ≠ value)
            | None => false
            end
      then Err unavailable
      else pinned_digest unavailable target (Some value) rest
  end.

Definition admitted_source_read_digest self (relative : string) : result string :=
  let unavailable := JSpaceError_new "JSPACE_SOURCE_DIGEST_REFERENCE_UNAVAILABLE" "read" relative
                       "requires one admitted exact read-only file pin" in
  _ ← reject_if
        (negb (jm_source_read self) || is_absolute relative || has_char backslash relative
         || existsb (λ c, negb (is_normal c)) (components relative)
         || negb (contains (sp_read_scopes (jm_scope_projection self)) relative)
         || existsb (λ scope, ok_value true (scope_claims_overlap relative scope))
              (sp_write_scopes (jm_scope_projection self))
         || is_some (mapped_source_read_binding self relative)) unavailable;
  let target := path_join (jm_repo_root self) relative in
  _ ← check_source_read self target;
  digest ← pinned_digest unavailable target None
             (jm_verifier_commands self ≫= vc_pinned_files);
  ok_or (digest : option string) unavailable.

(** ** Verifiers *)

Definition check_verifier_command self (index : Z) : result VerifierCommand :=
  _ ← check_operation self "command" "focused_verifier";
  ok_or (get_index (jm_verifier_commands self) index)
    (JSpaceError_new "JSPACE_VERIFIER_NOT_GRANTED" "command" (pretty index)
       "verifier index is not in the admitted exact grant").

Definition revalidate_verifier_pin self (command : VerifierCommand) (pin : VerifierPinnedFile)
    (stale : bool) : result unit :=
  let path := pf_path pin in
  _ ← (if is_some (pf_scope pin) then
         _ ← verifier_path_without_symlink fs path true;
         reject_if
           (path_starts_with path (jm_repo_root self) || has_git_component path
            || existsb (λ grant, path_starts_with path (vc_scratch_root grant))
                 (jm_verifier_commands self)
            || negb (canonical_at fs path))
           (verifier_error "JSPACE_VERIFIER_PIN_SCOPE_INVALID" path
              "verifier_only pin must be canonical, outside workspace, Git metadata and every verifier scratch")
       else check_path fs self "read" path);
  program ← first_arg (vc_argv command);
  let executable_in_scratch :=
    existsb (λ grant, path_starts_with program (vc_scratch_root grant))
      (jm_verifier_commands self) in
  _ ← reject_if
        (bool_decide (pf_scope pin = Some VerifierOnly) && bool_decide (file_name program = Some "node")
         && (executable_in_scratch
             || negb match direct_node_verifier_program (vc_argv command) with
                     | Some entry => path_eqb entry path
                     | None => false
                     end))
        (verifier_error "JSPACE_VERIFIER_GRANT_MALFORMED" path
           "verifier_only Node entry requires a direct JavaScript program");
  verifier_file fs path (pf_sha256 pin) false stale
    (verifier_interpreter_reads_entries (vc_argv command) && negb executable_in_scratch).

Definition revalidate_verifier_paths self : result unit :=
  match jm_verifier_artifact_root self with
  | None => Ok tt
  | Some root =>
      _ ← verifier_path_without_symlink fs root true;
      _ ← reject_if (negb (canonical_directory fs root))
            (verifier_error "JSPACE_VERIFIER_ARTIFACT_ROOT_INVALID" root
               "artifact root identity changed");
      each (λ command,
        executable ← first_arg (vc_argv command);
        _ ← verifier_file fs executable (vc_executable_sha256 command) true true false;
        _ ← each (λ pinned, revalidate_verifier_pin self command pinned true)
              (vc_pinned_files command);
        _ ← verifier_python_import_roots fs command;
        _ ← verifier_cwd fs command;
        verifier_scratch fs (vc_scratch_root command) root (jm_repo_root self) true)
        (jm_verifier_commands self)
  end.

(** ** [from_value]: roots *)

Definition known_schema (schema_version : string) : bool :=
  contains [JSPACE_SCHEMA_VERSION; JSPACE_SINGLE_ROOT_SCHEMA_VERSION; JSPACE_LEGACY_SCHEMA_VERSION]
    schema_version.

Definition admitted_root (object : Map) (schema_version session_root : string) : result string :=
  contract_root ← required_string object "repo_root";
  session_root ← normalized_root fs session_root;
  contract_root ← normalized_root fs contract_root;
  _ ← reject_if (negb (path_eqb contract_root session_root))
        (admission_error "JSPACE_ROOT_MISMATCH" contract_root ("session root is " +:+ session_root));
  _ ← (if bool_decide (schema_version ≠ JSPACE_LEGACY_SCHEMA_VERSION) then
         generation_root ← ok_or
           (generation ← get object "dcf_generation" ≫= as_object; get_str generation "repo_root")
           (malformed "dcf_generation.repo_root" "DCF evidence root is missing");
         generation_root ← normalized_root fs generation_root;
         reject_if (negb (path_eqb generation_root contract_root))
           (admission_error "JSPACE_DCF_ROOT_MISMATCH" generation_root
              ("contract root is " +:+ contract_root))
       else Ok tt);
  Ok session_root.

Definition validate_shape (object : Map) : result unit :=
  _ ← validate_expansion_rule object;
  _ ← validate_object_field object "dcf_generation";
  _ ← validate_object_field object "provenance";
  _ ← validate_string_array_field object "matched_surface_ids";
  validate_object_array_field object "focused_verifiers".

(** Both operation fields are read before either becomes a set. *)
Definition admitted_operations (object : Map) : result (gset string * gset string) :=
  allowed_values ← required_string_array object "allowed_operations";
  denied_values ← required_string_array object "denied_operations";
  allowed ← operation_set allowed_values "allowed_operations";
  denied ← operation_set denied_values "denied_operations";
  Ok (allowed, denied).

(** Read and command allowed, neither denied. *)
Definition grants_read_command (allowed denied : gset string) : bool :=
  has_operation allowed "read" && has_operation allowed "command"
  && negb (has_operation denied "read") && negb (has_operation denied "command").

Definition check_operation_sets (allowed denied : gset string) (verifiers : list VerifierCommand)
    : result unit :=
  _ ← reject_if (negb (bool_decide (length verifiers = 0%nat))
                 && (negb (grants_read_command allowed denied)
                     || negb (has_operation denied "network") || has_operation allowed "network"))
        (admission_error "JSPACE_VERIFIER_OPERATION_DENIED" "verifier_commands"
           "v2 verifiers require read and command allowed and network denied");
  reject_if (existsb (has_operation denied) (elements allowed))
    (admission_error "JSPACE_OPERATION_CONFLICT" ""
       "an operation cannot be both allowed and denied").

(** ** [from_value]: scopes *)

Definition admitted_capabilities (object : Map) (schema_version : string) (allowed denied : gset string)
    : result (list EffectCapabilityMatcher) :=
  if bool_decide (schema_version = JSPACE_SCHEMA_VERSION) then
    _ ← match find (contains_key object) ["read_scopes"; "write_scopes"; "declared_targets"] with
        | Some legacy_field =>
            Err (admission_error "JSPACE_CAPABILITY_REPRESENTATION_CONFLICT" legacy_field
                   "multi-domain contracts must not retain single-root capability fields")
        | None => Ok tt
        end;
    _ ← reject_if (existsb is_path_operation (elements allowed))
          (admission_error "JSPACE_CAPABILITY_PERMISSION_INVALID" "allowed_operations"
             "path permissions must be declared inside an exact effect domain");
    parse_effect_capabilities fs object denied
  else Ok [].

Definition admitted_projection (object : Map) (schema_version : string)
    (effect_capabilities : list EffectCapabilityMatcher)
    : result (list string * list string * list string) :=
  if bool_decide (schema_version = JSPACE_SCHEMA_VERSION)
  then effect_capability_projection effect_capabilities
  else
    _ ← validate_string_array_field object "declared_targets";
    read_values ← required_string_array object "read_scopes";
    read_scopes ← canonical_scope_set read_values;
    write_values ← required_string_array object "write_scopes";
    write_scopes ← canonical_scope_set write_values;
    declared_values ← required_string_array object "declared_targets";
    declared_targets ← canonical_declared_targets declared_values;
    Ok (read_scopes, write_scopes, declared_targets).

(** The loop over the declared targets as the contract writes them. *)
Fixpoint insert_targets (trie : PathTrie) (targets : list string) : result PathTrie :=
  match targets with
  | [] => Ok trie
  | target :: rest =>
      _ ← reject_if (has_wildcard target)
            (admission_error "JSPACE_TARGET_INVALID" target
               "declared targets must be exact paths without wildcards");
      trie ← PathTrie_insert trie target;
      insert_targets trie rest
  end.
Definition admitted_tries (object : Map) (schema_version : string) (read_scopes write_scopes : list string)
    : result (PathTrie * PathTrie * PathTrie) :=
  if bool_decide (schema_version = JSPACE_SCHEMA_VERSION)
  then Ok (PathTrie_new, PathTrie_new, PathTrie_new)
  else
    read_trie ← insert_all PathTrie_new read_scopes;
    write_trie ← insert_all PathTrie_new write_scopes;
    targets ← required_string_array object "declared_targets";
    declared_trie ← insert_targets PathTrie_new targets;
    Ok (read_trie, write_trie, declared_trie).

Definition admitted_templates (object : Map) (schema_version : string) : result (list CommandTemplate) :=
  if bool_decide (schema_version ≠ JSPACE_LEGACY_SCHEMA_VERSION)
  then parse_command_templates object (bool_decide (schema_version = JSPACE_SCHEMA_VERSION))
  else
    commands ← required_string_array object "command_prefixes";
    map_results (λ command, argv ← parse_shell_argv command;
                            Ok {| tm_argv := argv; tm_effects := ["read"]; tm_targets := [] |})
      commands.

(** ** [from_value]: policies *)

Definition admit_read_commands (object : Map) (schema_version root : string) (allowed denied : gset string)
    (read_scopes : list string) : result unit :=
  match get object "read_commands" with
  | None => Ok tt
  | Some policy =>
      let error target detail :=
        admission_error "JSPACE_READ_COMMAND_DENIED" target detail in
      _ ← reject_if (bool_decide (schema_version ≠ JSPACE_SINGLE_ROOT_SCHEMA_VERSION)
                     || negb (grants_read_command allowed denied))
            (error "" "read/command v2 grants required");
      names ← read_validate policy;
      each (λ name,
        _ ← reject_if (negb (contains read_scopes (name +:+ "/**")))
              (error name "recursive read scope required");
        reject_if (negb (canonical_directory fs (path_join root name)))
          (error name "canonical directory required")) names
  end.

Definition admit_inspect_shell (object : Map) (schema_version : string) (allowed : gset string)
    (write_scopes : list string) (verifiers : list VerifierCommand) : result unit :=
  match get object "inspect_shell" with
  | None => Ok tt
  | Some policy =>
      _ ← inspect_validate policy;
      reject_if
        (bool_decide (schema_version ≠ JSPACE_SINGLE_ROOT_SCHEMA_VERSION)
         || negb (has_operation allowed "read") || negb (has_operation allowed "command")
         || existsb (λ operation, negb (contains ["read"; "command"] operation)) (elements allowed)
         || negb (bool_decide (write_scopes = [])) || contains_key object "read_commands"
         || negb (bool_decide (length verifiers = 0%nat)))
        (admission_error "JSPACE_INSPECT_DENIED" "inspect_shell"
           "inspect_shell requires a v2 read/command-only contract without write scopes, discovery or verifiers")
  end.

Definition admit_parent_shell (object : Map) (allowed : gset string) : result unit :=
  match get object "parent_shell" with
  | None => Ok tt
  | Some policy =>
      _ ← parent_validate policy;
      reject_if (contains_key object "inspect_shell" || negb (has_operation allowed "read")
                 || negb (has_operation allowed "command"))
        (admission_error "JSPACE_PARENT_SHELL_DENIED" "parent_shell"
           "parent_shell requires read and command operations and excludes inspect_shell")
  end.

Definition has_exact_scope (scopes : list string) : bool :=
  existsb (λ scope, negb (ends_with "/**" scope)) scopes.
Definition admit_source_read (source_read directory_source_read : bool) (schema_version : string)
    (allowed denied : gset string) (read_scopes : list string)
    (effect_capabilities : list EffectCapabilityMatcher) : result unit :=
  if source_read then
    let scoped_read :=
      if bool_decide (schema_version = JSPACE_SCHEMA_VERSION)
      then existsb (λ capability, has_operation (ec_allowed_operations capability) "read"
                                  && has_exact_scope (ec_read_projection capability))
             effect_capabilities
      else has_operation allowed "read" && has_exact_scope read_scopes in
    reject_if (negb (has_operation allowed "command") || has_operation denied "command"
               || has_operation denied "read" || negb scoped_read && negb directory_source_read)
      (JSpaceError_new "JSPACE_SOURCE_READ_DENIED" "read" "source_read"
         "source_read requires command and a scoped read grant")
  else Ok tt.

(** The earliest template of an argv. *)
Definition template_index (templates : list CommandTemplate) : gmap (list string) nat :=
  foldl (λ index entry,
    match index !! tm_argv entry.2 with
    | Some _ => index
    | None => <[tm_argv entry.2 := entry.1]> index
    end) ∅ (imap pair templates).

Definition check_verifiers self : result unit :=
  each (λ command,
    _ ← each (λ pinned, revalidate_verifier_pin self command pinned false) (vc_pinned_files command);
    _ ← verifier_python_import_roots fs command;
    verifier_cwd fs command) (jm_verifier_commands self).

Definition from_value (session_root : string) (contract : Value) : result JSpaceMatcher :=
  object ← ok_or (as_object contract) (malformed "" "contract must be a JSON object");
  schema_version ← required_string object "schema_version";
  _ ← reject_if (negb (known_schema schema_version))
        (admission_error "JSPACE_SCHEMA_VERSION_UNSUPPORTED" ""
           ("expected " +:+ JSPACE_SCHEMA_VERSION +:+ ", " +:+ JSPACE_SINGLE_ROOT_SCHEMA_VERSION
            +:+ ", or " +:+ JSPACE_LEGACY_SCHEMA_VERSION +:+ ", got " +:+ schema_version));
  mapped_source_reads ← parse_mapped_source_read_grant object;
  digests ← verified_contract_digests fs contract object schema_version;
  let '(content_digest, authorization_digest) := (digests : string * string) in
  repo_root ← admitted_root object schema_version session_root;
  _ ← validate_shape object;
  operations ← admitted_operations object;
  let '(allowed, denied) := (operations : gset string * gset string) in
  source_read ← source_read_grant object;
  grant ← parse_verifier_grant fs verifier_commands_from_value object repo_root schema_version;
  let '(artifact_root, verifiers) := (grant : option string * list VerifierCommand) in
  _ ← check_operation_sets allowed denied verifiers;
  effect_capabilities ← admitted_capabilities object schema_version allowed denied;
  projection ← admitted_projection object schema_version effect_capabilities;
  let '(read_scopes, write_scopes, declared_targets) :=
    (projection : list string * list string * list string) in
  tries ← admitted_tries object schema_version read_scopes write_scopes;
  let '(read_trie, write_trie, declared_trie) := (tries : PathTrie * PathTrie * PathTrie) in
  templates ← admitted_templates object schema_version;
  _ ← validate_command_templates fs allowed denied declared_trie effect_capabilities
        (bool_decide (schema_version = JSPACE_SCHEMA_VERSION)) templates;
  _ ← admit_read_commands object schema_version repo_root allowed denied read_scopes;
  _ ← admit_inspect_shell object schema_version allowed write_scopes verifiers;
  _ ← admit_parent_shell object allowed;
  let directory_source_read := bool_decide (schema_version = JSPACE_SINGLE_ROOT_SCHEMA_VERSION)
                               && contains_key object "read_commands" in
  _ ← admit_source_read source_read directory_source_read schema_version allowed denied read_scopes
        effect_capabilities;
  _ ← validate_bindings "admission" repo_root mapped_source_reads;
  _ ← reject_if (has_operation allowed "command" && bool_decide (length templates = 0%nat)
                 && negb (contains_key object "read_commands")
                 && negb (contains_key object "inspect_shell")
                 && negb (contains_key object "parent_shell") && negb source_read
                 && bool_decide (length verifiers = 0%nat))
        (JSpaceError_new "JSPACE_COMMAND_TEMPLATE_MISSING" "command" ""
           "command operation requires at least one exact argv template");
  let matcher := {|
    jm_schema_version := schema_version;
    jm_repo_root := repo_root;
    jm_lexical_repo_root := session_root;
    jm_content_digest := content_digest;
    jm_authorization_digest := authorization_digest;
    jm_scope_projection := {| sp_read_scopes := read_scopes; sp_write_scopes := write_scopes |};
    jm_read_scopes := read_trie;
    jm_write_scopes := write_trie;
    jm_declared_targets := declared_trie;
    jm_allowed_operations := allowed;
    jm_denied_operations := denied;
    jm_command_templates := templates;
    jm_command_template_index := template_index templates;
    jm_read_commands := get object "read_commands";
    jm_inspect_shell := get object "inspect_shell";
    jm_parent_shell := get object "parent_shell";
    jm_verifier_commands := verifiers;
    jm_verifier_artifact_root := artifact_root;
    jm_source_read := source_read;
    jm_mapped_source_reads := mapped_source_reads;
    jm_directory_source_read := directory_source_read;
    jm_effect_capabilities := effect_capabilities;
    jm_declared_target_projection := declared_targets;
  |} in
  _ ← check_verifiers matcher;
  Ok matcher.
End Compile.
