(* ===== verification/JSpaceAdmission.v ===== *)
(** * The admission cache and its interleavings

    [JSpaceAdmissionCache] of [path/src/jspace.rs].  [admit] takes the lock
    twice: to look a session up, and to publish the matcher it compiled in
    between.  [cache_step] interleaves the admissions of any number of threads,
    each step under a file tree of its own. *)

From stdpp Require Import base list strings gmap sorting.
From Stdlib Require Import ZArith Lia Ascii.
From S2P Require Import Prelude RustStd Externals TaskData TaskIdentity RustText RustPath.
From S2P Require Import JSpaceScopes JSpaceJson JSpaceTemplates JSpaceVerifier JSpacePolicies.
From S2P Require Import JSpaceDigest JSpaceMatcher JSpaceCompile.
Open Scope Z_scope.

Section Cache.
Context `{SerdeJson, !JsonRead, Sha2, !JSpaceSerde, !JSpaceHost}.

Record CachedJSpaceAdmission := { ca_matcher : JSpaceMatcher; ca_canonical_contract : string }.
(** The entries under the lock and the counter beside them. *)
Record JSpaceAdmissionCache := {
  ac_entries : gmap string CachedJSpaceAdmission;
  ac_admissions : Z;
}.
Definition empty_cache : JSpaceAdmissionCache := {| ac_entries := ∅; ac_admissions := 0 |}.

(** What a request claims, checked before the cache is looked at. *)
Record Claim := { cl_root : string; cl_content : string; cl_authorization : string;
                  cl_canonical_contract : string }.
Definition admission_claim (fs : FileTree) (session_id session_root : string) (contract : Value)
    : result Claim :=
  _ ← reject_if (is_blank session_id)
        (admission_error "JSPACE_SESSION_ID_MISSING" ""
           "a J-Space contract requires a session identity");
  normalized_session_root ← normalized_root fs session_root;
  object ← ok_or (as_object contract) (malformed "" "contract must be a JSON object");
  schema_version ← required_string object "schema_version";
  claimed ← claimed_contract_digests object schema_version;
  let '(claimed_content, claimed_authorization) := (claimed : string * string) in
  repo_root ← required_string object "repo_root";
  claimed_root ← normalized_root fs repo_root;
  _ ← reject_if (negb (path_eqb claimed_root normalized_session_root))
        (admission_error "JSPACE_ROOT_MISMATCH" claimed_root
           ("session root is " +:+ normalized_session_root));
  Ok {| cl_root := normalized_session_root; cl_content := claimed_content;
        cl_authorization := claimed_authorization;
        cl_canonical_contract := canonical_json contract |}.

(** The cached entry against the claim: an error, a hit, or nothing to reuse. *)
Definition admission_lookup (session_id : string) (cached : option CachedJSpaceAdmission)
    (claim : Claim) : result (option JSpaceMatcher) :=
  match cached with
  | None => Ok None
  | Some existing =>
      let matcher := ca_matcher existing in
      _ ← reject_if (negb (path_eqb (jm_repo_root matcher) (cl_root claim)))
            (admission_error "JSPACE_ROOT_MISMATCH" session_id
               "existing session root cannot be replaced");
      _ ← reject_if (bool_decide (jm_authorization_digest matcher ≠ cl_authorization claim))
            (admission_error "JSPACE_CONTRACT_CHANGED" session_id
               "existing session authorization cannot be replaced");
      if bool_decide (jm_content_digest matcher = cl_content claim) then
        _ ← reject_if (bool_decide (ca_canonical_contract existing ≠ cl_canonical_contract claim))
              (admission_error "JSPACE_CONTENT_DIGEST_MISMATCH" session_id
                 "cached digest strings do not authenticate a changed request body");
        Ok (Some matcher)
      else Ok None
  end.

(** Publication, under the lock again. *)
Definition admission_publish (session_id : string) (matcher : JSpaceMatcher)
    (canonical_contract : string) (cache : JSpaceAdmissionCache)
    : result JSpaceMatcher * JSpaceAdmissionCache :=
  let entry := {| ca_matcher := matcher; ca_canonical_contract := canonical_contract |} in
  match ac_entries cache !! session_id with
  | Some existing =>
      if negb (path_eqb (jm_repo_root (ca_matcher existing)) (jm_repo_root matcher))
      then (Err (admission_error "JSPACE_ROOT_MISMATCH" session_id
                   "concurrent admission bound another root"), cache)
      else if bool_decide (jm_authorization_digest (ca_matcher existing)
                           ≠ jm_authorization_digest matcher)
      then (Err (admission_error "JSPACE_CONTRACT_CHANGED" session_id
                   "concurrent admission bound another authorization"), cache)
      else if bool_decide (ca_canonical_contract existing = canonical_contract)
      then (Ok (ca_matcher existing), cache)
      else (Ok matcher,
            {| ac_entries := <[session_id := entry]> (ac_entries cache);
               ac_admissions := ac_admissions cache |})
  | None =>
      (Ok matcher,
       {| ac_entries := <[session_id := entry]> (ac_entries cache);
          ac_admissions := u64_wrapping_add (ac_admissions cache) 1 |})
  end.

(** A request without a contract. *)
Definition admit_without (session_id : string) (cache : JSpaceAdmissionCache)
    : result (option JSpaceMatcher) :=
  match ac_entries cache !! session_id with
  | Some _ => Err (admission_error "JSPACE_CONTRACT_MISSING_ON_RETRY" session_id
                     "a session with a bound capability contract cannot omit it on retry")
  | None => Ok None
  end.

(** The whole method when nothing runs in between. *)
Definition admission (fs : FileTree) (session_id session_root : string) (contract : option Value)
    (cache : JSpaceAdmissionCache) : result (option JSpaceMatcher) * JSpaceAdmissionCache :=
  match contract with
  | None => (admit_without session_id cache, cache)
  | Some contract =>
      match claim ← admission_claim fs session_id session_root contract;
            found ← admission_lookup session_id (ac_entries cache !! session_id) claim;
            match (found : option JSpaceMatcher) with
            | Some matcher => Ok (inl matcher)
            | None => matcher ← from_value fs (cl_root claim) contract;
                      Ok (inr (matcher, cl_canonical_contract claim))
            end with
      | Ok (inl matcher) => (Ok (Some matcher), cache)
      | Ok (inr (matcher, canonical_contract)) =>
          let '(answer, cache) := admission_publish session_id matcher canonical_contract cache in
          (matcher ← answer; Ok (Some matcher), cache)
      | Err error => (Err error, cache)
      | Panic => (Panic, cache)
      | OutOfFuel => (OutOfFuel, cache)
      end
  end.

(** ** Threads *)

Record Request := { rq_session_id : string; rq_session_root : string; rq_contract : option Value }.
(** A thread has a request, has looked it up and compiles, publishes what it
    compiled, or has its answer. *)
Inductive Thread :=
| Requested (request : Request)
| Compiling (request : Request) (contract : Value) (claim : Claim)
| Publishing (request : Request) (contract : Value) (matcher : JSpaceMatcher)
    (canonical_contract : string)
| Answered (request : Request) (answer : result (option JSpaceMatcher)).

Record CacheSystem := { cs_cache : JSpaceAdmissionCache; cs_threads : gmap nat Thread }.

(** One step of one thread; [fs] is what the thread sees of the file system. *)
Inductive thread_step : FileTree → JSpaceAdmissionCache → Thread → JSpaceAdmissionCache → Thread → Prop :=
| step_without fs cache request :
    rq_contract request = None →
    thread_step fs cache (Requested request) cache
      (Answered request (admit_without (rq_session_id request) cache))
| step_lookup fs cache request contract claim found :
    rq_contract request = Some contract →
    admission_claim fs (rq_session_id request) (rq_session_root request) contract = Ok claim →
    admission_lookup (rq_session_id request) (ac_entries cache !! rq_session_id request) claim = found →
    thread_step fs cache (Requested request) cache
      match found with
      | Ok None => Compiling request contract claim
      | found => Answered request found
      end
| step_claim_error fs cache request contract claim :
    rq_contract request = Some contract →
    admission_claim fs (rq_session_id request) (rq_session_root request) contract = claim →
    is_ok claim = false →
    thread_step fs cache (Requested request) cache
      (Answered request (_ ← claim; Ok None))
| step_compile fs cache request contract claim compiled :
    from_value fs (cl_root claim) contract = compiled →
    thread_step fs cache (Compiling request contract claim) cache
      match compiled with
      | Ok matcher => Publishing request contract matcher (cl_canonical_contract claim)
      | compiled => Answered request (_ ← compiled; Ok None)
      end
| step_publish fs cache request contract matcher canonical_contract answer cache' :
    admission_publish (rq_session_id request) matcher canonical_contract cache = (answer, cache') →
    thread_step fs cache (Publishing request contract matcher canonical_contract) cache'
      (Answered request (matcher ← answer; Ok (Some matcher))).

Inductive cache_step : CacheSystem → CacheSystem → Prop :=
| cache_request sys n request :
    cs_threads sys !! n = None →
    cache_step sys {| cs_cache := cs_cache sys;
                      cs_threads := <[n := Requested request]> (cs_threads sys) |}
| cache_thread sys fs n thread cache' thread' :
    cs_threads sys !! n = Some thread →
    thread_step fs (cs_cache sys) thread cache' thread' →
    cache_step sys {| cs_cache := cache'; cs_threads := <[n := thread']> (cs_threads sys) |}.

Definition initial_system : CacheSystem := {| cs_cache := empty_cache; cs_threads := ∅ |}.
Definition cache_reachable : CacheSystem → Prop := rtc cache_step initial_system.
End Cache.

(** ** Admission under concurrency: sessions stay bound, answers are compiled *)

Section Facts.
Context `{SerdeJson, !JsonRead, Sha2, !JSpaceSerde, !JSpaceHost}.
Implicit Types (cache : JSpaceAdmissionCache) (entry existing : CachedJSpaceAdmission)
  (sys : CacheSystem) (m matcher : JSpaceMatcher).

(** Two matchers bind a session to the same root and authorization. *)
Definition same_binding m m' : Prop :=
  components (jm_repo_root m) = components (jm_repo_root m')
  ∧ jm_authorization_digest m = jm_authorization_digest m'.
#[local] Instance same_binding_equivalence : Equivalence same_binding.
Proof.
  split.
  - intros m. by split.
  - intros m m' [Hr Ha]. by split.
  - intros m m' m'' [Hr Ha] [Hr' Ha']. split; congruence.
Qed.

(** A matcher compiled from a contract with the given canonical text. *)
Definition compiled_from m (canonical_contract : string) : Prop :=
  ∃ fs root contract, from_value fs root contract = Ok m
                      ∧ canonical_json contract = canonical_contract.

Definition entry_ok entry : Prop := compiled_from (ca_matcher entry) (ca_canonical_contract entry).
Definition bound_in cache (session_id : string) m : Prop :=
  ∃ entry, ac_entries cache !! session_id = Some entry ∧ same_binding (ca_matcher entry) m.

Definition thread_ok cache (thread : Thread) : Prop :=
  match thread with
  | Requested _ => True
  | Compiling request contract claim =>
      rq_contract request = Some contract ∧ cl_canonical_contract claim = canonical_json contract
  | Publishing request contract matcher canonical_contract =>
      rq_contract request = Some contract ∧ compiled_from matcher canonical_contract
      ∧ canonical_contract = canonical_json contract
  | Answered request (Ok (Some m)) =>
      ∃ contract, rq_contract request = Some contract ∧ compiled_from m (canonical_json contract)
                  ∧ bound_in cache (rq_session_id request) m
  | Answered _ _ => True
  end.

Record cache_ok cache : Prop := {
  co_entries : map_Forall (λ _, entry_ok) (ac_entries cache);
  co_count : ac_admissions cache = Z.of_nat (size (ac_entries cache)) mod 2 ^ 64;
}.
(** What a step may do to the sessions bound before it. *)
Definition keeps_bindings cache cache' : Prop :=
  ∀ session_id m, bound_in cache session_id m → bound_in cache' session_id m.

Lemma path_eqb_components p q : path_eqb p q = true ↔ components p = components q.
Proof. apply bool_decide_eq_true. Qed.

Lemma publish_spec session_id matcher contract cache answer cache' :
  cache_ok cache → compiled_from matcher contract →
  admission_publish session_id matcher contract cache = (answer, cache') →
  cache_ok cache' ∧ keeps_bindings cache cache'
  ∧ match answer with
    | Ok m => compiled_from m contract ∧ bound_in cache' session_id m
    | _ => True
    end.
Proof.
  intros Hok Hm. pose proof Hok as [Hents Hcount]. unfold admission_publish.
  assert (Hkeep : keeps_bindings cache cache) by (by intros ?).
  destruct (ac_entries cache !! session_id) as [existing|] eqn:He.
  - destruct (path_eqb _ _) eqn:Hroot; simpl; [|intros [= <- <-]; by split_and!].
    apply path_eqb_components in Hroot.
    case_bool_decide as Hauth; [intros [= <- <-]; by split_and!|].
    assert (Hsame : same_binding (ca_matcher existing) matcher).
    { split; [done|]. by destruct (decide (jm_authorization_digest (ca_matcher existing)
        = jm_authorization_digest matcher)). }
    case_bool_decide as Hcanon; intros [= <- <-].
    + split_and!; [done|done| |].
      * rewrite <- Hcanon. apply (Hents session_id existing He).
      * by exists existing.
    + split_and!.
      * split; simpl.
        -- by apply map_Forall_insert_2.
        -- rewrite map_size_insert_Some by done. done.
      * intros s m (entry & Hs & Hb). destruct (decide (s = session_id)) as [->|Hne].
        -- eexists. simpl. rewrite lookup_insert_eq. split; [done|]. simpl.
           assert (entry = existing) as -> by congruence. by rewrite <- Hsame.
        -- exists entry. simpl. by rewrite lookup_insert_ne.
      * done.
      * eexists. simpl. rewrite lookup_insert_eq. by split.
  - intros [= <- <-]. split_and!.
    + split; simpl.
      * by apply map_Forall_insert_2.
      * rewrite map_size_insert_None by done. unfold u64_wrapping_add. rewrite Hcount.
        rewrite Zplus_mod_idemp_l. f_equal. lia.
    + intros s m (entry & Hs & Hb). exists entry. simpl.
      rewrite lookup_insert_ne; [done|]. congruence.
    + done.
    + eexists. simpl. rewrite lookup_insert_eq. by split.
Qed.

Lemma lookup_spec session_id cache claim m :
  cache_ok cache →
  admission_lookup session_id (ac_entries cache !! session_id) claim = Ok (Some m) →
  compiled_from m (cl_canonical_contract claim) ∧ bound_in cache session_id m.
Proof.
  intros [Hents _]. unfold admission_lookup.
  destruct (ac_entries cache !! session_id) as [existing|] eqn:He; [|done]. intros Hl. outcome_inv.
  case_bool_decide; [|done]. outcome_inv. guards. split; [|by exists existing].
  match goal with Hc : ¬ (_ ≠ _) |- _ => apply dec_stable in Hc; rewrite <- Hc end.
  apply (Hents session_id existing He).
Qed.

Lemma claim_canonical fs session_id session_root contract claim :
  admission_claim fs session_id session_root contract = Ok claim →
  cl_canonical_contract claim = canonical_json contract.
Proof.
  unfold admission_claim. intros Hc.
  repeat (apply bind_Ok_inv in Hc as (? & _ & Hc)).
  match type of Hc with context [match ?p with _ => _ end] => destruct p end.
  repeat (apply bind_Ok_inv in Hc as (? & _ & Hc)). by injection Hc as <-.
Qed.

Lemma thread_step_spec fs cache thread cache' thread' :
  cache_ok cache → thread_ok cache thread → thread_step fs cache thread cache' thread' →
  cache_ok cache' ∧ keeps_bindings cache cache' ∧ thread_ok cache' thread'.
Proof.
  intros Hc Ht Hstep. destruct Hstep as
    [fs cache request Hrq|fs cache request contract claim found Hrq Hclaim Hfound
    |fs cache request contract claim Hrq Hclaim Hno|fs cache request contract claim compiled Hcomp
    |fs cache request contract matcher canonical answer cache' Hpub].
  - split_and!; [done|by intros ?|]. simpl. unfold admit_without.
    by destruct (ac_entries cache !! rq_session_id request).
  - split_and!; [done|by intros ?|]. pose proof (claim_canonical _ _ _ _ _ Hclaim) as Hcanon.
    destruct found as [[m|]| | |]; try done. simpl. exists contract.
    apply lookup_spec in Hfound as [Hm Hb]; [|done]. by rewrite <- Hcanon.
  - split_and!; [done|by intros ?|]. by destruct claim.
  - split_and!; [done|by intros ?|]. destruct Ht as [Hrq Hcanon].
    destruct compiled; try done. simpl. split_and!; [done| |done].
    rewrite Hcanon. by exists fs, (cl_root claim), contract.
  - destruct Ht as (Hrq & Hm & Hcanon).
    destruct (publish_spec _ _ _ _ _ _ Hc Hm Hpub) as (Hc' & Hk & Hans). split_and!; [done..|].
    destruct answer as [m| | |]; try done. simpl. exists contract. by rewrite <- Hcanon.
Qed.

Lemma thread_ok_mono cache cache' thread :
  keeps_bindings cache cache' → thread_ok cache thread → thread_ok cache' thread.
Proof.
  intros Hk. destruct thread as [| | |request [[m|]| | |]]; simpl; try done.
  intros (contract & ? & ? & Hb). exists contract. split_and!; [done..|]. by apply Hk.
Qed.

Record system_ok sys : Prop := {
  so_cache : cache_ok (cs_cache sys);
  so_threads : map_Forall (λ _, thread_ok (cs_cache sys)) (cs_threads sys);
}.

Lemma cache_step_spec sys sys' :
  system_ok sys → cache_step sys sys' →
  system_ok sys' ∧ keeps_bindings (cs_cache sys) (cs_cache sys').
Proof.
  intros Hok Hs. destruct Hs as [sys n request Hn|sys fs n thread cache' thread' Hn Hstep];
    destruct Hok as [Hc Ht].
  - split; [|by intros ?]. split; [done|]. simpl. by apply map_Forall_insert_2.
  - destruct (thread_step_spec _ _ _ _ _ Hc (Ht n thread Hn) Hstep) as (Hc' & Hk & Ht').
    split; [|done]. split; [done|]. simpl. apply map_Forall_insert_2; [done|].
    intros k th Hth. eapply thread_ok_mono; [done|]. by apply (Ht k).
Qed.

Lemma steps_spec sys sys' :
  rtc cache_step sys sys' → system_ok sys →
  system_ok sys' ∧ keeps_bindings (cs_cache sys) (cs_cache sys').
Proof.
  induction 1 as [sys|sys sys1 sys' Hstep _ IH]; intros Hok; [split; [done|by intros ?]|].
  destruct (cache_step_spec _ _ Hok Hstep) as [Hok1 Hk1]. destruct (IH Hok1) as [Hok' Hk'].
  split; [done|]. intros s m Hb. auto.
Qed.

Lemma initial_ok : system_ok initial_system.
Proof. split; [split; [apply map_Forall_empty|done]|apply map_Forall_empty]. Qed.

Lemma reachable_ok sys : cache_reachable sys → system_ok sys.
Proof. intros Hr. by apply (steps_spec initial_system sys Hr), initial_ok. Qed.

(** C21: whatever the interleaving of admissions and whatever the file system
    does between their steps, a session keeps the root and the authorization
    it was first bound to, every matcher handed out for it has them, and was
    compiled from a contract with the canonical text of the one sent; the
    counter counts the bound sessions. *)
Theorem admission_binds_sessions sys sys' :
  cache_reachable sys → rtc cache_step sys sys' →
  (∀ session_id entry, ac_entries (cs_cache sys) !! session_id = Some entry →
     ∃ entry', ac_entries (cs_cache sys') !! session_id = Some entry'
               ∧ same_binding (ca_matcher entry) (ca_matcher entry'))
  ∧ (∀ n request m, cs_threads sys' !! n = Some (Answered request (Ok (Some m))) →
       ∃ contract entry', rq_contract request = Some contract
         ∧ compiled_from m (canonical_json contract)
         ∧ ac_entries (cs_cache sys') !! rq_session_id request = Some entry'
         ∧ same_binding (ca_matcher entry') m)
  ∧ ac_admissions (cs_cache sys') = Z.of_nat (size (ac_entries (cs_cache sys'))) mod 2 ^ 64.
Proof.
  intros Hr Hsteps. pose proof (reachable_ok _ Hr) as Hok.
  destruct (steps_spec _ _ Hsteps Hok) as [[Hc' Ht'] Hk]. split_and!.
  - intros s entry Hs. destruct (Hk s (ca_matcher entry)) as (entry' & Hs' & Hb); [by exists entry|].
    exists entry'. split; [done|]. by symmetry.
  - intros n request m Hn. destruct (Ht' n _ Hn) as (contract & Hrq & Hm & entry' & Hs & Hb).
    by exists contract, entry'.
  - apply Hc'.
Qed.

(** Run alone, [admission] makes the steps of its thread. *)
Lemma admission_steps fs session_id session_root contract cache answer cache' n threads :
  admission fs session_id session_root contract cache = (answer, cache') →
  threads !! n = Some (Requested {| rq_session_id := session_id; rq_session_root := session_root;
                                    rq_contract := contract |}) →
  ∃ threads', rtc cache_step {| cs_cache := cache; cs_threads := threads |}
                             {| cs_cache := cache'; cs_threads := threads' |}
    ∧ threads' !! n = Some (Answered {| rq_session_id := session_id;
                              rq_session_root := session_root; rq_contract := contract |} answer).
Proof.
  set (request := {| rq_session_id := session_id; rq_session_root := session_root;
                     rq_contract := contract |}).
  assert (Hone : ∀ th cache1 cache2 thread thread', th !! n = Some thread →
    thread_step fs cache1 thread cache2 thread' →
    cache_step {| cs_cache := cache1; cs_threads := th |}
      {| cs_cache := cache2; cs_threads := <[n := thread']> th |}).
  { intros th cache1 cache2 thread thread' Hn Hs.
    exact (cache_thread {| cs_cache := cache1; cs_threads := th |} fs n thread cache2 thread' Hn Hs). }
  intros Ha Hn. destruct contract as [contract|].
  2: { simpl in Ha. injection Ha as <- <-. eexists. split.
       - apply rtc_once. eapply Hone; [done|]. by apply (step_without fs cache request).
       - apply lookup_insert_eq. }
  unfold admission in Ha.
  destruct (admission_claim fs session_id session_root contract) as [claim|e| |] eqn:Hclaim.
  2-4: simpl in Ha; injection Ha as <- <-; eexists; (split;
      [apply rtc_once; eapply Hone; [done|];
       exact (step_claim_error fs cache request contract _ eq_refl Hclaim eq_refl)
      |rewrite lookup_insert_eq; done]).
  simpl in Ha.
  pose proof (step_lookup fs cache request contract claim _ eq_refl Hclaim eq_refl) as Hlook.
  simpl in Hlook.
  destruct (admission_lookup session_id (ac_entries cache !! session_id) claim)
    as [[found|]|e| |] eqn:Hfound; simpl in Ha.
  1,3-5: injection Ha as <- <-; eexists; (split;
      [apply rtc_once; eapply Hone; [done|exact Hlook]|by rewrite lookup_insert_eq]).
  pose proof (step_compile fs cache request contract claim _ eq_refl) as Hcomp.
  destruct (from_value fs (cl_root claim) contract) as [m|e| |] eqn:Hfrom; simpl in Ha.
  2-4: injection Ha as <- <-; eexists; (split;
      [eapply rtc_l; [eapply Hone; [done|exact Hlook]|apply rtc_once;
        eapply Hone; [apply lookup_insert_eq|exact Hcomp]]
      |by rewrite lookup_insert_eq]).
  destruct (admission_publish session_id m (cl_canonical_contract claim) cache) as [ans cache2] eqn:Hpub.
  injection Ha as <- <-. eexists. split.
  - eapply rtc_l; [eapply Hone; [done|exact Hlook]|].
    eapply rtc_l; [eapply Hone; [apply lookup_insert_eq|exact Hcomp]|].
    apply rtc_once. eapply Hone; [apply lookup_insert_eq|].
    exact (step_publish fs cache request contract m _ _ _ Hpub).
  - apply lookup_insert_eq.
Qed.
End Facts.
