(* ===== verification/JSpaceSettles.v ===== *)
(** * Admission and its checks always answer

    Every index of the code is in range, every loop ends: compiling a contract
    and each check of the matcher it gives answer [Ok] or [Err], whatever the
    contract, the file tree and the arguments. *)

From stdpp Require Import base list strings gmap sorting.
From Stdlib Require Import ZArith Lia Ascii.
From S2P Require Import Prelude RustStd RustText RustPath Externals TaskData TaskIdentity JSpaceScopes JSpaceScopeFacts JSpaceClaimFacts JSpaceArgv JSpaceJson JSpaceTemplates JSpaceVerifier JSpacePolicies JSpaceDigest JSpaceMatcher JSpaceCompile.
Open Scope Z_scope.

Create HintDb settles.

(** ** Generic steps *)

Lemma settles_sum {E A} (f : E → JSpaceError) (s : E + A) :
  settles (match s with inr a => Ok a | inl e => Err (f e) end).
Proof. destruct s; [apply settles_Err|apply settles_Ok]. Qed.

Lemma settles_map_results {A B} (f : A → result B) l :
  (∀ x, x ∈ l → settles (f x)) → settles (map_results f l).
Proof.
  induction l as [|x l IH]; intros Hf; [apply settles_Ok|]. simpl.
  apply settles_bind; [apply Hf; by left|]. intros ?.
  apply settles_bind; [apply IH; intros; apply Hf; by right|]. intros ?. apply settles_Ok.
Qed.
Lemma settles_each {A} (f : A → result unit) l :
  (∀ x, x ∈ l → settles (f x)) → settles (each f l).
Proof.
  induction l as [|x l IH]; intros Hf; [apply settles_Ok|]. simpl.
  apply settles_bind; [apply Hf; by left|]. intros ?. apply IH. intros. apply Hf. by right.
Qed.
Lemma settles_any_result {A} (f : A → result bool) l :
  (∀ x, x ∈ l → settles (f x)) → settles (any_result f l).
Proof.
  induction l as [|x l IH]; intros Hf; [apply settles_Ok|]. simpl.
  apply settles_bind; [apply Hf; by left|]. intros []; [apply settles_Ok|].
  apply IH. intros. apply Hf. by right.
Qed.
#[export] Hint Resolve settles_Ok settles_Err settles_ok_or settles_map_err settles_sum
  settles_reject_if settles_map_results settles_each settles_any_result
  settles_scope_components settles_claim_scope : settles.
#[export] Hint Extern 1 (settles (match ?x with _ => _ end)) => destruct x eqn:? : settles.

(** Steps through a chain of fallible calls, keeping what each established. *)
Ltac settle :=
  repeat match goal with
  | |- settles (mbind _ _) => apply settles_bind_Ok; [|intros ? ?]
  | |- settles (let '_ := ?p in _) => destruct p
  | |- settles (if ?b then _ else _) => destruct b eqn:?
  | |- settles (match ?x with _ => _ end) => destruct x eqn:?
  | |- settles _ => solve [auto with settles]
  end.

(** ** Tries and scopes *)

Definition trie_ok (t : PathTrie) : Prop := ∃ scopes, trie_of t scopes.

Lemma trie_ok_new : trie_ok PathTrie_new.
Proof. eexists. apply trie_of_new. Qed.
Lemma trie_ok_insert_all scopes t : insert_all PathTrie_new scopes = Ok t → trie_ok t.
Proof. intros Ht. eexists. by apply insert_all_new. Qed.
Lemma settles_insert_all scopes t : trie_ok t → settles (insert_all t scopes).
Proof.
  intros [seen Ht]. destruct (insert_all_settles scopes t seen Ht) as [(t' & -> & _)|[e ->]];
    [apply settles_Ok|apply settles_Err].
Qed.
Lemma trie_insert_settles t scope : trie_ok t →
  settles (PathTrie_insert t scope) ∧ ∀ t', PathTrie_insert t scope = Ok t' → trie_ok t'.
Proof.
  intros [seen Ht]. destruct (settles_scope_components scope) as [[x Hx]|[e He]].
  - destruct (trie_of_insert t seen scope Ht) as (t' & Hi & Ht'); [by rewrite Hx|].
    rewrite Hi. split; [apply settles_Ok|]. intros ? [= <-]. by eexists.
  - rewrite (insert_error _ _ _ He). split; [apply settles_Err|done].
Qed.
Lemma settles_matches t relative : trie_ok t → settles (PathTrie_matches t relative).
Proof. intros [scopes Ht]. rewrite (trie_matches_of t scopes Ht). apply settles_Ok. Qed.
Lemma settles_matches_exact t relative : trie_ok t → settles (PathTrie_matches_exact t relative).
Proof. intros [scopes Ht]. rewrite (trie_matches_exact_of t scopes Ht). apply settles_Ok. Qed.
#[export] Hint Extern 1 (trie_ok (if ?b then _ else _)) => destruct b : settles.
#[export] Hint Resolve trie_ok_new settles_insert_all settles_matches settles_matches_exact : settles.

Lemma settles_canonical_scope s : settles (canonical_scope s).
Proof. unfold canonical_scope. settle. Qed.
Lemma settles_canonical_claim s : settles (canonical_claim_scope s).
Proof. unfold canonical_claim_scope. settle. Qed.
#[export] Hint Resolve settles_canonical_scope settles_canonical_claim : settles.
Lemma settles_scope_set l : settles (canonical_scope_set l).
Proof. unfold canonical_scope_set. settle. Qed.
Lemma settles_claim_set l : settles (canonical_claim_scope_set l).
Proof. unfold canonical_claim_scope_set. settle. Qed.
#[export] Hint Resolve settles_scope_set settles_claim_set : settles.
Lemma settles_declared_targets l : settles (canonical_declared_targets l).
Proof. unfold canonical_declared_targets. settle. Qed.
Lemma settles_rooted_scope root s : settles (rooted_scope root s).
Proof. unfold rooted_scope. settle. Qed.
#[export] Hint Resolve settles_declared_targets settles_rooted_scope : settles.

Lemma settles_argv_loop raw cs : ∀ quote tok st argv, settles (argv_loop raw cs quote tok st argv).
Proof.
  remember (length cs) as n eqn:Hn. revert cs Hn.
  induction n as [n IH] using lt_wf_ind. intros cs -> quote tok st argv.
  destruct cs as [|c [|c' cs]]; cbn [argv_loop];
    repeat case_match; auto with settles; eapply IH; try reflexivity; simpl; lia.
Qed.
Lemma settles_parse_argv raw : settles (parse_shell_argv raw).
Proof. unfold parse_shell_argv. case_match; [apply settles_Err|apply settles_argv_loop]. Qed.
#[export] Hint Resolve settles_parse_argv : settles.

(** ** Fields *)

Section Settles.
Context `{SerdeJson, !JsonRead, Sha2, !JSpaceSerde, !JSpaceHost} (fs : FileTree).

Lemma settles_required_string object key : settles (required_string object key).
Proof. unfold required_string. settle. Qed.
Lemma settles_required_usize object key : settles (required_usize object key).
Proof. unfold required_usize. settle. Qed.
Lemma settles_string_array object key : settles (required_string_array object key).
Proof. unfold required_string_array. settle. Qed.
Lemma settles_operation_set values field : settles (operation_set values field).
Proof. induction values as [|v values IH]; simpl; settle. Qed.
#[local] Hint Resolve settles_required_string settles_required_usize settles_string_array
  settles_operation_set : settles.
Lemma settles_operations_field object key : settles (operations_field object key).
Proof. unfold operations_field. settle. Qed.
#[local] Hint Resolve settles_operations_field : settles.

(** ** Effect domains and templates *)

Record capability_ok (c : EffectCapabilityMatcher) : Prop := {
  ck_read : trie_of (ec_read_scopes c) (ec_read_projection c);
  ck_write : trie_of (ec_write_scopes c) (ec_write_projection c);
  ck_declared : trie_of (ec_declared_targets c) (ec_declared_projection c);
  ck_operations : ∀ operation, operation ∈ ec_allowed_operations c → is_path_operation operation = true;
}.

Lemma settles_symlink_on path rest : ∀ current, settles (symlink_on fs path current rest).
Proof. induction rest as [|c rest IH]; intros current; simpl; settle. Qed.
#[local] Hint Resolve settles_symlink_on : settles.
Lemma settles_normalized_root path : settles (normalized_root fs path).
Proof. unfold normalized_root. settle. Qed.
#[local] Hint Resolve settles_normalized_root : settles.

Lemma settles_parse_capability denied ids value :
  settles (parse_effect_capability fs denied ids value).
Proof. unfold parse_effect_capability, has_symlink_component. settle. Qed.
#[local] Hint Resolve settles_parse_capability : settles.

Lemma parse_capability_ok denied ids value c :
  parse_effect_capability fs denied ids value = Ok c → capability_ok c.
Proof.
  unfold parse_effect_capability. intros Hp. outcome_inv.
  split; simpl; [by apply insert_all_new..|].
  intros operation Hop. guards.
  match goal with H : existsb _ (elements ?ops) = false |- _ =>
    rewrite <- not_true_iff_false, existsb_exists in H; apply not_false_iff_true;
    intros Hno; apply H; exists operation end.
  rewrite <- list_elem_of_In, elem_of_elements. split; [done|]. by rewrite Hno.
Qed.

Lemma settles_capability_members denied values : ∀ ids,
  settles (parse_capability_members fs denied ids values).
Proof. induction values as [|v values IH]; intros ids; simpl; settle. Qed.
#[local] Hint Resolve settles_capability_members : settles.
Lemma capability_members_ok denied values : ∀ ids caps,
  parse_capability_members fs denied ids values = Ok caps → Forall capability_ok caps.
Proof.
  induction values as [|v values IH]; intros ids caps; simpl; intros Hp; outcome_inv; [constructor|].
  constructor; [by eapply parse_capability_ok|by eapply IH].
Qed.

Lemma insert_by_text_perm {A} (key : A → string) x l : insert_by_text key x l ≡ₚ x :: l.
Proof.
  induction l as [|y l IH]; simpl; [done|]. case_match; [|done].
  rewrite IH. apply Permutation_swap.
Qed.
Lemma sort_by_text_perm {A} (key : A → string) l : sort_by_text key l ≡ₚ l.
Proof.
  unfold sort_by_text. induction l as [|x l IH]; simpl; [done|].
  by rewrite insert_by_text_perm, IH.
Qed.

Lemma settles_domain_roots caps : settles (check_domain_roots caps).
Proof. induction caps as [|c caps IH]; simpl; settle. Qed.
#[local] Hint Resolve settles_domain_roots : settles.
Lemma settles_parse_capabilities object denied : settles (parse_effect_capabilities fs object denied).
Proof. unfold parse_effect_capabilities. settle. Qed.
Lemma parse_capabilities_ok object denied caps :
  parse_effect_capabilities fs object denied = Ok caps → Forall capability_ok caps.
Proof.
  unfold parse_effect_capabilities. intros Hp. repeat case_match; try done. outcome_inv.
  rewrite sort_by_text_perm. by eapply capability_members_ok.
Qed.

Lemma settles_rooted_projection caps : settles (rooted_projection caps).
Proof. induction caps as [|c caps IH]; simpl; settle. Qed.
#[local] Hint Resolve settles_rooted_projection : settles.
Lemma settles_projection caps : settles (effect_capability_projection caps).
Proof. unfold effect_capability_projection. settle. Qed.

Lemma settles_parse_target require_domain value : settles (parse_command_target require_domain value).
Proof. unfold parse_command_target. settle. Qed.
#[local] Hint Resolve settles_parse_target : settles.
Lemma settles_parse_template require_domain index value :
  settles (parse_command_template require_domain index value).
Proof. unfold parse_command_template. settle. Qed.
#[local] Hint Resolve settles_parse_template : settles.
Lemma settles_parse_templates object require_domain :
  settles (parse_command_templates object require_domain).
Proof. unfold parse_command_templates. settle. Qed.

Lemma settles_boundary target operation : settles (resolved_boundary fs target operation).
Proof. apply settles_map_err, resolve_settles. Qed.
#[local] Hint Resolve settles_boundary : settles.
Lemma settles_cap_resolve c target operation :
  settles (EffectCapabilityMatcher_resolve_target fs c target operation).
Proof. unfold EffectCapabilityMatcher_resolve_target. settle. Qed.
#[local] Hint Resolve settles_cap_resolve : settles.

Lemma capability_tries c : capability_ok c →
  trie_ok (ec_read_scopes c) ∧ trie_ok (ec_write_scopes c) ∧ trie_ok (ec_declared_targets c).
Proof. intros [Hr Hw Hd _]. split_and!; by eexists. Qed.

Section Templates.
Context (allowed denied : gset string) (declared : PathTrie) (caps : list EffectCapabilityMatcher)
        (require_domain : bool).
Hypothesis (Hdeclared : trie_ok declared) (Hcaps : Forall capability_ok caps).

Lemma settles_effects argv effects :
  settles (validate_effects allowed denied require_domain argv effects).
Proof. induction effects as [|e effects IH]; simpl; settle. Qed.
#[local] Hint Resolve settles_effects : settles.

Lemma settles_domain_target target : settles (validate_domain_target fs caps target).
Proof.
  unfold validate_domain_target. apply settles_bind; [auto with settles|]. intros domain.
  apply settles_bind_Ok; [auto with settles|]. intros c Hc.
  apply ok_or_Ok, find_Some in Hc as [Hin _]. rewrite Forall_forall in Hcaps.
  destruct (capability_tries _ (Hcaps _ Hin)) as (?&?&?). settle.
Qed.
#[local] Hint Resolve settles_domain_target : settles.

Lemma settles_validate_target template seen target :
  settles (validate_target fs declared caps require_domain template seen target).
Proof. unfold validate_target. settle. Qed.
#[local] Hint Resolve settles_validate_target : settles.
Lemma settles_validate_targets template targets : ∀ seen,
  settles (validate_targets fs declared caps require_domain template seen targets).
Proof. induction targets as [|t targets IH]; intros seen; simpl; settle. Qed.
#[local] Hint Resolve settles_validate_targets : settles.

Lemma settles_validate_template seen template :
  settles (validate_command_template fs allowed denied declared caps require_domain seen template).
Proof. unfold validate_command_template, validate_multi_domain_command_semantics. settle. Qed.
#[local] Hint Resolve settles_validate_template : settles.
Lemma settles_validate_templates templates :
  settles (validate_command_templates fs allowed denied declared caps require_domain templates).
Proof.
  unfold validate_command_templates. generalize (@nil (list string)).
  induction templates as [|t templates IH]; intros seen; simpl; settle.
Qed.
End Templates.
#[local] Hint Resolve settles_parse_capabilities settles_projection settles_parse_templates
  settles_validate_templates : settles.

(** ** Verifiers *)

Lemma settles_first_arg argv : argv ≠ [] → settles (first_arg argv).
Proof. destruct argv; [done|]. intros _. apply settles_Ok. Qed.
#[local] Hint Resolve settles_first_arg : settles.

Lemma settles_without_symlink path must_exist rest : ∀ prefix missing,
  settles (walk_without_symlink fs path must_exist prefix missing rest).
Proof. induction rest as [|c rest IH]; intros prefix missing; simpl; settle. Qed.
#[local] Hint Resolve settles_without_symlink : settles.
Lemma settles_verifier_path path must_exist : settles (verifier_path_without_symlink fs path must_exist).
Proof. unfold verifier_path_without_symlink. settle. Qed.
#[local] Hint Resolve settles_verifier_path : settles.
Lemma settles_import_roots roots : ∀ seen, settles (check_import_roots fs seen roots).
Proof. induction roots as [|r roots IH]; intros seen; simpl; settle. Qed.
#[local] Hint Resolve settles_import_roots : settles.
Lemma settles_scratch_parents root path must_exist above :
  settles (scratch_parents fs root path must_exist above).
Proof. induction above as [|c above IH]; simpl; settle. Qed.
#[local] Hint Resolve settles_scratch_parents : settles.
Lemma settles_scratch path root workspace must_exist :
  settles (verifier_scratch fs path root workspace must_exist).
Proof. unfold verifier_scratch. settle. Qed.
Lemma settles_cwd command : settles (verifier_cwd fs command).
Proof. unfold verifier_cwd. settle. Qed.
Lemma settles_python_roots command : vc_argv command ≠ [] → settles (verifier_python_import_roots fs command).
Proof. intros Hne. unfold verifier_python_import_roots. settle. Qed.
Lemma settles_verifier_file path expected executable stale header :
  settles (verifier_file fs path expected executable stale header).
Proof. unfold verifier_file. settle. Qed.
#[local] Hint Resolve settles_scratch settles_cwd settles_python_roots settles_verifier_file : settles.
Lemma settles_pinned_files command files : ∀ pinned, settles (check_pinned_files command pinned files).
Proof. induction files as [|f files IH]; intros pinned; simpl; settle. Qed.
#[local] Hint Resolve settles_pinned_files : settles.
Lemma settles_test_runner argv : argv ≠ [] → settles (module_test_runner argv).
Proof. intros Hne. unfold module_test_runner. settle. Qed.
Lemma settles_runs_inline argv : argv ≠ [] → settles (runs_inline argv).
Proof. intros Hne. unfold runs_inline. settle. Qed.

(** The bounds of a grant exclude an empty argv before it is indexed. *)
Lemma grant_bounds workspace root scopes argv_seen scratches command :
  settles (check_verifier_grant fs workspace root scopes argv_seen scratches command)
  ∧ (check_verifier_grant fs workspace root scopes argv_seen scratches command = Ok tt →
     vc_argv command ≠ []).
Proof.
  unfold check_verifier_grant. destruct (decide (vc_argv command = [])) as [Hnil|Hne].
  - rewrite Hnil. simpl. split; [apply settles_Err|done].
  - rewrite bool_decide_eq_false_2 by done. split; [|done].
    pose proof (settles_test_runner _ Hne). pose proof (settles_runs_inline _ Hne). settle.
Qed.
Lemma grants_settle workspace root scopes commands : ∀ argv_seen scratches,
  settles (check_verifier_grants fs workspace root scopes argv_seen scratches commands)
  ∧ (check_verifier_grants fs workspace root scopes argv_seen scratches commands = Ok tt →
     Forall (λ command, vc_argv command ≠ []) commands).
Proof.
  induction commands as [|c commands IH]; intros argv_seen scratches; simpl; [split; auto with settles|].
  destruct (grant_bounds workspace root scopes argv_seen scratches c) as [Hs Hne]. split.
  - apply settles_bind; [done|]. intros ?. apply IH.
  - intros ([] & Hc & Hr)%bind_Ok_inv. constructor; [by apply Hne|]. by eapply IH.
Qed.
Lemma settles_verifier_grant from object workspace schema :
  settles (parse_verifier_grant fs from object workspace schema).
Proof.
  unfold parse_verifier_grant. settle; try (by apply grants_settle).
Qed.
Lemma verifier_grant_argv from object workspace schema root commands :
  parse_verifier_grant fs from object workspace schema = Ok (root, commands) →
  Forall (λ command, vc_argv command ≠ []) commands.
Proof.
  unfold parse_verifier_grant. case_match; [intros [= _ <-]; constructor|]. intros Hp.
  outcome_inv. simplify_eq.
  match goal with Hg : check_verifier_grants _ _ _ _ _ _ _ = Ok ?u |- _ =>
    destruct u; by apply grants_settle in Hg end.
Qed.
#[local] Hint Resolve settles_verifier_grant : settles.

(** ** Policies and digests *)

Lemma settles_validate_roots roots : ∀ names, settles (validate_roots names roots).
Proof. induction roots as [|r roots IH]; intros names; simpl; settle. Qed.
#[local] Hint Resolve settles_validate_roots : settles.
Lemma settles_validate_executable object tool : settles (validate_executable object tool).
Proof. unfold validate_executable. settle. Qed.
#[local] Hint Resolve settles_validate_executable : settles.
Lemma settles_read_validate value : settles (read_validate value).
Proof. unfold read_validate. settle. Qed.
Lemma settles_inspect_validate value : settles (inspect_validate value).
Proof. unfold inspect_validate. settle. Qed.
Lemma settles_parent_validate value : settles (parent_validate value).
Proof. unfold parent_validate. settle. Qed.
#[local] Hint Resolve settles_read_validate settles_inspect_validate settles_parent_validate : settles.
Lemma settles_rg_options args : ∀ seen, settles (rg_options seen args).
Proof.
  remember (length args) as n eqn:Hn. revert args Hn.
  induction n as [n IH] using lt_wf_ind. intros args -> seen.
  destruct args as [|a [|b args]]; cbn [rg_options]; repeat case_match; auto with settles;
    eapply IH; try reflexivity; simpl; lia.
Qed.
#[local] Hint Resolve settles_rg_options : settles.
Lemma settles_rg_paths argv : settles (rg_paths argv).
Proof. unfold rg_paths, bounded_paths. settle. Qed.
Lemma settles_cat_paths argv : settles (cat_paths argv).
Proof. unfold cat_paths, bounded_paths. settle. Qed.
Lemma settles_no_links root operand rest : ∀ current, settles (no_links_from fs root operand current rest).
Proof. induction rest as [|c rest IH]; intros current; simpl; settle. Qed.
Lemma settles_lexical root path operand : settles (lexical_operand root path operand).
Proof. unfold lexical_operand. settle. Qed.
#[local] Hint Resolve settles_rg_paths settles_cat_paths settles_no_links settles_lexical : settles.

Lemma settles_claimed object schema : settles (claimed_contract_digests object schema).
Proof. unfold claimed_contract_digests. settle. Qed.
Lemma settles_mapped object : settles (parse_mapped_source_read_grant object).
Proof. unfold parse_mapped_source_read_grant. settle. Qed.
Lemma settles_source_read object : settles (source_read_grant object).
Proof. unfold source_read_grant. settle. Qed.
#[local] Hint Resolve settles_claimed settles_mapped settles_source_read : settles.
Lemma settles_normalized object : settles (normalized_effect_authorization fs object).
Proof.
  unfold normalized_effect_authorization, dcf_generation.
  apply settles_bind; [auto with settles|]. intros ?.
  apply settles_bind; [auto with settles|]. intros ?.
  apply settles_bind; [auto with settles|]. intros ?.
  apply settles_bind; [auto with settles|]. intros ?.
  apply settles_bind_Ok; [auto with settles|]. intros caps Hcaps%parse_capabilities_ok. settle.
Qed.
#[local] Hint Resolve settles_normalized : settles.
Lemma settles_bind_policy object key validate payload :
  (∀ policy, settles (validate policy)) → settles (bind_policy object key validate payload).
Proof. intros Hv. unfold bind_policy. settle. Qed.
Lemma settles_single_root object generation source_read mapped :
  settles (single_root_authorization object generation source_read mapped).
Proof.
  unfold single_root_authorization.
  repeat (apply settles_bind; [apply settles_bind_policy; intros ?; settle|]; intros ?). settle.
Qed.
#[local] Hint Resolve settles_single_root : settles.
Lemma settles_authorization contract : settles (authorization_semantic_sha256 fs contract).
Proof.
  unfold authorization_semantic_sha256, contract_object, normalized_effect_authorization_sha256,
    dcf_generation. settle.
Qed.
#[local] Hint Resolve settles_authorization : settles.
Lemma settles_verified contract object schema : settles (verified_contract_digests fs contract object schema).
Proof. unfold verified_contract_digests, contract_object. settle. Qed.
#[local] Hint Resolve settles_verified : settles.

(** ** The checks of a matcher *)

Record matcher_ok (m : JSpaceMatcher) : Prop := {
  mo_read : trie_ok (jm_read_scopes m);
  mo_write : trie_ok (jm_write_scopes m);
  mo_declared : trie_ok (jm_declared_targets m);
  mo_capabilities : Forall capability_ok (jm_effect_capabilities m);
  mo_index argv i : jm_command_template_index m !! argv = Some i →
    ∃ template, jm_command_templates m !! i = Some template ∧ tm_argv template = argv;
  mo_verifiers : Forall (λ command, vc_argv command ≠ []) (jm_verifier_commands m);
}.

Section Checks.
Context (m : JSpaceMatcher) (Hm : matcher_ok m).

Lemma capability_member c : c ∈ jm_effect_capabilities m → capability_ok c.
Proof. intros Hc. pose proof (mo_capabilities _ Hm) as Hall. rewrite Forall_forall in Hall. auto. Qed.

Lemma settles_check_operation operation target : settles (check_operation m operation target).
Proof. unfold check_operation. settle. Qed.
Lemma settles_resolve_target target operation : settles (resolve_target fs m target operation).
Proof.
  unfold resolve_target. settle. apply settles_map_err, resolve_settles.
Qed.
#[local] Hint Resolve settles_check_operation settles_resolve_target : settles.

Lemma settles_relative reads writes declared operation target relative outside undeclared :
  trie_ok reads → trie_ok writes → trie_ok declared →
  settles (check_relative reads writes declared operation target relative outside undeclared).
Proof. intros ???. unfold check_relative. settle. Qed.

Lemma matching_domain_spec domain_id target operation caps :
  settles (matching_domain fs domain_id target operation caps)
  ∧ ∀ c relative, matching_domain fs domain_id target operation caps = Ok (Some (c, relative)) →
      c ∈ caps ∧ EffectCapabilityMatcher_resolve_target fs c target operation = Ok relative.
Proof.
  induction caps as [|c caps [IHs IH]]; simpl; [split; [apply settles_Ok|done]|].
  assert (Hrest : ∀ d relative, matching_domain fs domain_id target operation caps = Ok (Some (d, relative)) →
    d ∈ c :: caps ∧ EffectCapabilityMatcher_resolve_target fs d target operation = Ok relative).
  { intros d relative Hd. destruct (IH _ _ Hd). split; [by right|done]. }
  destruct (match domain_id with Some _ => _ | None => _ end); [done|].
  destruct (settles_cap_resolve c target operation) as [[rel Hr]|[e He]].
  - rewrite Hr. split; [apply settles_Ok|]. intros d relative [= <- <-]. split; [by left|done].
  - rewrite He. case_match; [done|]. split; [apply settles_Err|done].
Qed.

Lemma settles_effect_path operation target domain_id :
  settles (check_effect_path fs m operation target domain_id).
Proof.
  unfold check_effect_path. apply settles_bind; [auto with settles|]. intros ?.
  apply settles_bind; [auto with settles|]. intros ?.
  apply settles_bind_Ok; [apply matching_domain_spec|]. intros [[c relative]|] Hd; [|auto with settles].
  apply matching_domain_spec in Hd as [Hc _].
  destruct (capability_tries _ (capability_member _ Hc)) as (?&?&?).
  apply settles_bind; [auto with settles|]. intros ?. by apply settles_relative.
Qed.
#[local] Hint Resolve settles_effect_path : settles.
Lemma settles_check_path operation target : settles (check_path fs m operation target).
Proof.
  unfold check_path. destruct Hm. settle. by apply settles_relative.
Qed.
#[local] Hint Resolve settles_check_path : settles.

Lemma settles_operands tool cwd roots operands : settles (check_operands fs m tool cwd roots operands).
Proof.
  induction operands as [|o operands IH]; simpl; [auto with settles|].
  apply settles_bind; [|done]. unfold check_operand, no_links. settle.
Qed.
#[local] Hint Resolve settles_operands : settles.
Lemma settles_read_check argv cwd : settles (read_check fs m argv cwd).
Proof. unfold read_check. settle. Qed.
#[local] Hint Resolve settles_read_check : settles.
Lemma settles_read_check_file target : settles (read_check_file fs m target).
Proof. unfold read_check_file. settle. Qed.
#[local] Hint Resolve settles_read_check_file : settles.

Lemma settles_patch_target : settles (has_declared_patch_target m).
Proof.
  unfold has_declared_patch_target. pose proof (mo_write _ Hm). settle.
  apply settles_any_result. intros c Hc.
  destruct (capability_tries _ (capability_member _ Hc)) as (?&?&?). settle.
Qed.
#[local] Hint Resolve settles_patch_target : settles.
Lemma settles_check_template command template : settles (check_template fs m command template).
Proof. unfold check_template. settle. Qed.
#[local] Hint Resolve settles_check_template : settles.
Lemma settles_binding policy : settles (check_binding fs policy).
Proof. unfold check_binding, check_profile. settle. Qed.
#[local] Hint Resolve settles_binding : settles.

Lemma settles_shell_command line : settles (check_shell_command fs m line).
Proof.
  unfold check_shell_command. destruct (jm_inspect_shell m); [auto with settles|].
  case_match; [auto with settles|]. destruct (shell_command_parts line) as [command workdir].
  apply settles_bind; [auto with settles|]. intros argv. case_match; [settle|].
  apply settles_bind_Ok; [auto with settles|]. intros i Hi%ok_or_Ok.
  destruct (mo_index _ Hm _ _ Hi) as (template & -> & _). simpl. settle.
Qed.
#[local] Hint Resolve settles_shell_command : settles.
Lemma settles_check_command kind line : settles (check_command fs m kind line).
Proof. unfold check_command. settle. Qed.
Lemma settles_search_command kind line : settles (check_read_search_command fs m kind line).
Proof. unfold check_read_search_command. settle. Qed.

Lemma settles_bindings operation root bindings : settles (validate_bindings operation root bindings).
Proof. unfold validate_bindings. apply settles_each. intros b _. settle. Qed.
#[local] Hint Resolve settles_bindings : settles.
Lemma settles_resolved_exact resolved trie :
  settles resolved → trie_ok trie → settles (resolved_exact resolved trie).
Proof. intros [[r ->]|[e ->]] Ht; simpl; auto with settles. Qed.
Lemma settles_check_source_read target : settles (check_source_read fs m target).
Proof.
  unfold check_source_read, revalidate_mapped_source_reads. pose proof (mo_read _ Hm). settle.
  - apply settles_any_result. intros c Hc.
    destruct (capability_tries _ (capability_member _ Hc)) as (?&?&?).
    case_match; [|apply settles_Ok]. apply settles_resolved_exact; auto with settles.
  - apply settles_resolved_exact; auto with settles.
Qed.
#[local] Hint Resolve settles_check_source_read : settles.
Lemma settles_pinned_digest unavailable target pins : ∀ digest,
  settles (pinned_digest unavailable target digest pins).
Proof. induction pins as [|p pins IH]; intros digest; simpl; settle. Qed.
#[local] Hint Resolve settles_pinned_digest : settles.
Lemma settles_source_digest relative : settles (admitted_source_read_digest fs m relative).
Proof. unfold admitted_source_read_digest. settle. Qed.
Lemma settles_verifier_command index : settles (check_verifier_command m index).
Proof. unfold check_verifier_command. settle. Qed.

Lemma settles_pin command pin stale :
  vc_argv command ≠ [] → settles (revalidate_verifier_pin fs m command pin stale).
Proof. intros Hne. unfold revalidate_verifier_pin. settle. Qed.
Lemma verifier_argv command : command ∈ jm_verifier_commands m → vc_argv command ≠ [].
Proof. intros Hc. pose proof (mo_verifiers _ Hm) as Hall. rewrite Forall_forall in Hall. auto. Qed.
Lemma settles_verifier_paths : settles (revalidate_verifier_paths fs m).
Proof.
  unfold revalidate_verifier_paths. settle. apply settles_each. intros command Hc%verifier_argv.
  settle. apply settles_each. intros pin _. by apply settles_pin.
Qed.
Lemma settles_verifiers : settles (check_verifiers fs m).
Proof.
  unfold check_verifiers. apply settles_each. intros command Hc%verifier_argv.
  settle. apply settles_each. intros pin _. by apply settles_pin.
Qed.
End Checks.
End Settles.
