(* ===== verification/JSpaceMatcherFacts.v ===== *)
(** * What an admitted matcher guarantees

    [matcher_wf] is what [from_value] establishes; from it: admission and every
    check answer, a path check decides exactly its conditions, a resolved path
    stays below the root, a shell command runs only as admitted, and matchers
    whose projections do not conflict never share a path one of them writes. *)

From stdpp Require Import base list strings gmap sorting.
From Stdlib Require Import ZArith Lia Ascii.
From S2P Require Import Prelude RustStd Externals TaskData TaskIdentity RustText RustPath.
From S2P Require Import JSpaceScopes JSpaceScopeFacts JSpaceClaimFacts JSpaceArgv JSpaceJson.
From S2P Require Import JSpaceTemplates JSpaceVerifier JSpacePolicies JSpaceDigest JSpaceMatcher.
From S2P Require Import JSpaceCompile JSpaceSettles.
Open Scope Z_scope.

(** ** The index of the templates *)

Definition has_argv (argv : list string) (template : CommandTemplate) : bool :=
  bool_decide (tm_argv template = argv).

Lemma template_index_from (n : nat) (templates : list CommandTemplate)
    (index : gmap (list string) nat) (argv : list string) :
  foldl (λ index entry, match index !! tm_argv entry.2 with
                        | Some _ => index
                        | None => <[tm_argv entry.2 := entry.1]> index
                        end) index (imap (λ i t, ((n + i)%nat, t)) templates) !! argv
  = match index !! argv with
    | Some i => Some i
    | None => Nat.add n <$> position (has_argv argv) templates
    end.
Proof.
  revert n index. induction templates as [|t templates IH]; intros n index; simpl.
  { by destruct (index !! argv). }
  rewrite (imap_ext _ (λ i t, ((S n + i)%nat, t))) by (intros; simpl; f_equal; lia).
  rewrite IH. rewrite Nat.add_0_r. unfold has_argv at 2.
  destruct (decide (tm_argv t = argv)) as [<-|Hne].
  - rewrite bool_decide_eq_true_2 by done. destruct (index !! tm_argv t) eqn:Hi.
    + by rewrite Hi.
    + rewrite lookup_insert_eq. simpl. by rewrite Nat.add_0_r.
  - rewrite bool_decide_eq_false_2 by done.
    assert (Hsame : (match index !! tm_argv t with
                     | Some _ => index
                     | None => <[tm_argv t := n]> index
                     end) !! argv = index !! argv).
    { case_match; [done|]. by rewrite lookup_insert_ne. }
    rewrite Hsame. destruct (index !! argv); [done|].
    destruct (position (has_argv argv) templates); simpl; [|done]. f_equal. lia.
Qed.

(** The index holds the first template of each argv. *)
Lemma template_index_spec (templates : list CommandTemplate) (argv : list string) :
  template_index templates !! argv = position (has_argv argv) templates.
Proof.
  unfold template_index. pose proof (template_index_from 0 templates ∅ argv) as Hi. simpl in Hi.
  rewrite lookup_empty in Hi. etrans; [exact Hi|]. by destruct (position _ _).
Qed.

(** ** What admission establishes *)

Section Facts.
Context `{SerdeJson, !JsonRead, Sha2, !JSpaceSerde, !JSpaceHost}.
Implicit Types (m : JSpaceMatcher).

Definition pairwise_apart (caps : list EffectCapabilityMatcher) : Prop :=
  ∀ i j c d, caps !! i = Some c → caps !! j = Some d → i ≠ j → roots_overlap (ec_root c) (ec_root d) = false.

(** The scopes of a single-root contract, read and made canonical; its declared
    targets are kept as the contract writes them. *)
Definition scopes_of (contract : Value) (key : string) (scopes : list string) : Prop :=
  ∃ object values, as_object contract = Some object
    ∧ required_string_array object key = Ok values ∧ canonical_scope_set values = Ok scopes.
Definition targets_of (contract : Value) (targets : list string) : Prop :=
  ∃ object, as_object contract = Some object
            ∧ required_string_array object "declared_targets" = Ok targets.
Definition compiles contract m : Prop :=
  is_multi_domain m = false →
  scopes_of contract "read_scopes" (sp_read_scopes (jm_scope_projection m))
  ∧ scopes_of contract "write_scopes" (sp_write_scopes (jm_scope_projection m))
  ∧ ∃ targets, targets_of contract targets ∧ trie_of (jm_declared_targets m) targets.

Record matcher_wf m : Prop := {
  mw_disjoint : jm_allowed_operations m ## jm_denied_operations m;
  mw_known operation : operation ∈ jm_allowed_operations m → is_known_operation operation = true;
  mw_single : is_multi_domain m = false →
    trie_of (jm_read_scopes m) (sp_read_scopes (jm_scope_projection m))
    ∧ trie_of (jm_write_scopes m) (sp_write_scopes (jm_scope_projection m))
    ∧ trie_ok (jm_declared_targets m) ∧ jm_effect_capabilities m = [];
  mw_multi : is_multi_domain m = true →
    jm_read_scopes m = PathTrie_new ∧ jm_write_scopes m = PathTrie_new
    ∧ jm_declared_targets m = PathTrie_new
    ∧ Forall capability_ok (jm_effect_capabilities m) ∧ pairwise_apart (jm_effect_capabilities m)
    ∧ (∀ operation, operation ∈ jm_allowed_operations m → is_path_operation operation = false)
    ∧ effect_capability_projection (jm_effect_capabilities m)
      = Ok (sp_read_scopes (jm_scope_projection m), sp_write_scopes (jm_scope_projection m),
            jm_declared_target_projection m);
  mw_templates : ∃ fs, validate_command_templates fs (jm_allowed_operations m)
    (jm_denied_operations m) (jm_declared_targets m) (jm_effect_capabilities m)
    (is_multi_domain m) (jm_command_templates m) = Ok tt;
  mw_index : jm_command_template_index m = template_index (jm_command_templates m);
  mw_verifiers : Forall (λ command, vc_argv command ≠ []) (jm_verifier_commands m);
}.

Lemma path_starts_with_parts p q : path_starts_with p q = bool_decide (components q `prefix_of` components p).
Proof. reflexivity. Qed.
Lemma roots_overlap_sym p q : roots_overlap p q = roots_overlap q p.
Proof. unfold roots_overlap. apply orb_comm. Qed.

Lemma check_domain_roots_apart caps : check_domain_roots caps = Ok tt → pairwise_apart caps.
Proof.
  induction caps as [|c caps IH]; simpl; intros Hc; [intros i j ? ?; by rewrite lookup_nil|].
  destruct (find _ caps) eqn:Hf; [done|]. rewrite find_None in Hf. specialize (IH Hc).
  intros [|i] [|j] a b Ha Hb Hij; simpl in *; simplify_eq.
  - apply Hf. by eapply list_elem_of_lookup_2.
  - rewrite roots_overlap_sym. apply Hf. by eapply list_elem_of_lookup_2.
  - eapply (IH i j); [done..|]. congruence.
Qed.

Lemma parse_capabilities_apart fs object denied caps :
  parse_effect_capabilities fs object denied = Ok caps → pairwise_apart caps.
Proof.
  unfold parse_effect_capabilities. intros Hp. repeat case_match; try done. outcome_inv.
  match goal with Hc : check_domain_roots _ = Ok ?u |- _ =>
    destruct u; by apply check_domain_roots_apart end.
Qed.

Lemma operation_set_known values field operations operation :
  operation_set values field = Ok operations → operation ∈ operations →
  is_known_operation operation = true.
Proof.
  revert operations. induction values as [|v values IH]; intros operations; simpl.
  { intros [= <-]. set_solver. }
  destruct (is_known_operation v) eqn:Hv; simpl.
  - intros (ops & Hops & Heq)%bind_Ok_inv. injection Heq as <-.
    intros [->%elem_of_singleton|Hin]%elem_of_union; [done|]. by eapply IH.
  - destruct (contains ["network"; "install"; "system_mutation"] v) eqn:Hc; [|done]. simpl.
    exfalso. apply bool_decide_eq_true in Hc. revert Hv. unfold is_known_operation, contains.
    rewrite bool_decide_eq_false. unfold KNOWN_OPERATIONS. set_solver.
Qed.

Lemma insert_targets_all targets : ∀ trie trie',
  insert_targets trie targets = Ok trie' → insert_all trie targets = Ok trie'.
Proof.
  induction targets as [|t targets IH]; intros trie trie'; simpl; [done|].
  destruct (has_wildcard t); simpl; [done|]. destruct (PathTrie_insert trie t); simpl; try done.
  apply IH.
Qed.
Lemma insert_targets_ok targets : ∀ trie, trie_ok trie →
  settles (insert_targets trie targets)
  ∧ ∀ trie', insert_targets trie targets = Ok trie' → trie_ok trie'.
Proof.
  induction targets as [|t targets IH]; intros trie Ht; simpl.
  { split; [apply settles_Ok|]. by intros ? [= <-]. }
  destruct (has_wildcard t); simpl; [split; [apply settles_Err|done]|].
  destruct (trie_insert_settles trie t Ht) as [[[t1 Hs]|[e He]] Hok].
  - rewrite Hs. simpl. by apply IH, Hok.
  - rewrite He. simpl. split; [apply settles_Err|done].
Qed.

Lemma admitted_tries_ok object schema reads writes :
  settles (admitted_tries object schema reads writes)
  ∧ ∀ tries, admitted_tries object schema reads writes = Ok tries →
      trie_ok tries.2
      ∧ if bool_decide (schema = JSPACE_SCHEMA_VERSION)
        then tries = (PathTrie_new, PathTrie_new, PathTrie_new)
        else trie_of tries.1.1 reads ∧ trie_of tries.1.2 writes
             ∧ ∃ targets, required_string_array object "declared_targets" = Ok targets
                          ∧ trie_of tries.2 targets.
Proof.
  unfold admitted_tries. case_bool_decide.
  { split; [apply settles_Ok|]. intros ? [= <-]. split; [apply trie_ok_new|done]. }
  split.
  - apply settles_bind; [auto with settles|]. intros ?.
    apply settles_bind; [auto with settles|]. intros ?.
    apply settles_bind; [apply settles_string_array|]. intros targets.
    apply settles_bind; [by apply insert_targets_ok, trie_ok_new|]. intros ?. apply settles_Ok.
  - intros tries Ht. outcome_inv. simpl. split.
    + match goal with Hi : insert_targets _ _ = Ok _ |- _ =>
        eapply insert_targets_ok; [apply trie_ok_new|exact Hi] end.
    + split_and!; [by apply insert_all_new..|]. eexists. split; [done|].
      by apply insert_all_new, insert_targets_all.
Qed.

Lemma wf_ok m : matcher_wf m → matcher_ok m.
Proof.
  intros [Hdis Hknown Hsingle Hmulti Htpl Hidx Hver].
  assert (Htries : trie_ok (jm_read_scopes m) ∧ trie_ok (jm_write_scopes m)
                   ∧ trie_ok (jm_declared_targets m) ∧ Forall capability_ok (jm_effect_capabilities m)).
  { destruct (is_multi_domain m).
    - destruct (Hmulti eq_refl) as (-> & -> & -> & Hcaps & _). split_and!; try apply trie_ok_new. done.
    - destruct (Hsingle eq_refl) as (Hr & Hw & Hd & ->). split_and!; [by eexists..|done|constructor]. }
  destruct Htries as (Hr & Hw & Hd & Hc). split; try done.
  intros argv i Hi. rewrite Hidx, template_index_spec in Hi.
  apply position_Some in Hi as (template & Ht & Ha & _). exists template. split; [done|].
  by apply bool_decide_eq_true in Ha.
Qed.

(** A computation that answers, with a property of its result. *)
Definition sound {A} (P : A → Prop) (c : result A) : Prop :=
  settles c ∧ ∀ a, c = Ok a → P a.
Lemma sound_bind {A B} (P : B → Prop) (c : result A) (k : A → result B) :
  settles c → (∀ a, c = Ok a → sound P (k a)) → sound P (c ≫= k).
Proof.
  intros Hc Hk. split.
  - apply settles_bind_Ok; [done|]. intros a Ha. by apply Hk.
  - intros b (a & Ha & Hb)%bind_Ok_inv. by apply (Hk a Ha).
Qed.

Lemma operations_disjoint allowed denied :
  existsb (has_operation denied) (elements allowed) = false → allowed ## denied.
Proof.
  intros Hno operation Ha Hd. rewrite <- not_true_iff_false, existsb_exists in Hno. apply Hno.
  exists operation. rewrite <- list_elem_of_In, elem_of_elements. split; [done|].
  by apply bool_decide_eq_true.
Qed.

Section Compile.
Context (fs : FileTree).

Lemma settles_admitted_root object schema root : settles (admitted_root fs object schema root).
Proof. unfold admitted_root. settle; auto using settles_required_string, settles_normalized_root with settles. Qed.
Lemma settles_validate_shape object : settles (validate_shape object).
Proof.
  unfold validate_shape, validate_expansion_rule, validate_object_field, validate_string_array_field,
    validate_object_array_field. settle; apply settles_string_array.
Qed.
Lemma settles_operations object : settles (admitted_operations object).
Proof. unfold admitted_operations. settle; auto using settles_string_array, settles_operation_set. Qed.
Lemma settles_operation_sets allowed denied verifiers :
  settles (check_operation_sets allowed denied verifiers).
Proof. unfold check_operation_sets. settle. Qed.
Lemma settles_capabilities object schema allowed denied :
  settles (admitted_capabilities fs object schema allowed denied).
Proof. unfold admitted_capabilities. settle. apply settles_parse_capabilities. Qed.
Lemma settles_admitted_projection object schema caps :
  settles (admitted_projection object schema caps).
Proof.
  unfold admitted_projection, validate_string_array_field. settle;
    auto using settles_projection, settles_string_array with settles.
Qed.
Lemma settles_admitted_templates object schema : settles (admitted_templates object schema).
Proof.
  unfold admitted_templates. settle; auto using settles_parse_templates, settles_string_array.
  apply settles_map_results. intros ? _. settle.
Qed.
Lemma settles_read_commands object schema root allowed denied scopes :
  settles (admit_read_commands fs object schema root allowed denied scopes).
Proof.
  unfold admit_read_commands. settle; [apply settles_read_validate|].
  apply settles_each. intros ? _. settle.
Qed.
Lemma settles_inspect object schema allowed scopes verifiers :
  settles (admit_inspect_shell object schema allowed scopes verifiers).
Proof. unfold admit_inspect_shell. settle. apply settles_inspect_validate. Qed.
Lemma settles_parent object allowed : settles (admit_parent_shell object allowed).
Proof. unfold admit_parent_shell. settle. apply settles_parent_validate. Qed.
Lemma settles_admit_source_read a b schema allowed denied scopes caps :
  settles (admit_source_read a b schema allowed denied scopes caps).
Proof. unfold admit_source_read. settle. Qed.

Lemma admitted_operations_known object allowed denied :
  admitted_operations object = Ok (allowed, denied) →
  ∀ operation, operation ∈ allowed → is_known_operation operation = true.
Proof.
  unfold admitted_operations. intros Ho operation Hin. outcome_inv. simplify_eq.
  match goal with Hs : operation_set _ _ = Ok allowed |- _ =>
    exact (operation_set_known _ _ _ _ Hs Hin) end.
Qed.

(** What the capabilities of a schema are. *)
Lemma admitted_capabilities_ok object schema allowed denied caps :
  admitted_capabilities fs object schema allowed denied = Ok caps →
  if bool_decide (schema = JSPACE_SCHEMA_VERSION)
  then Forall capability_ok caps ∧ pairwise_apart caps
       ∧ ∀ operation, operation ∈ allowed → is_path_operation operation = false
  else caps = [].
Proof.
  unfold admitted_capabilities. case_bool_decide; [|by intros [= <-]]. intros Hc. outcome_inv.
  split_and!; [by eapply parse_capabilities_ok|by eapply parse_capabilities_apart|].
  intros operation Hin. guards.
  match goal with Hno : existsb is_path_operation _ = false |- _ =>
    rewrite <- not_true_iff_false, existsb_exists in Hno; apply not_true_iff_false; intros Hp;
    apply Hno; exists operation end.
  by rewrite <- list_elem_of_In, elem_of_elements.
Qed.

Lemma from_value_sound session_root contract :
  sound (λ m, matcher_wf m ∧ compiles contract m) (from_value fs session_root contract).
Proof.
  unfold from_value.
  apply sound_bind; [auto with settles|]. intros object Hobject%ok_or_Ok.
  apply sound_bind; [apply settles_required_string|]. intros schema _.
  apply sound_bind; [auto with settles|]. intros _ _.
  apply sound_bind; [apply settles_mapped|]. intros mapped _.
  apply sound_bind; [apply settles_verified|]. intros [content authorization] _.
  apply sound_bind; [apply settles_admitted_root|]. intros root _.
  apply sound_bind; [apply settles_validate_shape|]. intros _ _.
  apply sound_bind; [apply settles_operations|]. intros [allowed denied] Hops.
  apply sound_bind; [apply settles_source_read|]. intros source_read _.
  apply sound_bind; [apply settles_verifier_grant|]. intros [artifact_root verifiers] Hgrant.
  apply sound_bind; [apply settles_operation_sets|]. intros [] Hsets.
  apply sound_bind; [apply settles_capabilities|]. intros caps Hcaps.
  apply sound_bind; [apply settles_admitted_projection|]. intros [[reads writes] targets] Hproj.
  apply sound_bind; [apply admitted_tries_ok|]. intros [[read_trie write_trie] declared_trie] Htries.
  apply sound_bind; [apply settles_admitted_templates|]. intros templates Htemplates.
  apply admitted_tries_ok in Htries as [Hdeclared Htries]. simpl in *.
  pose proof (admitted_capabilities_ok _ _ _ _ _ Hcaps) as Hcaps_ok.
  apply sound_bind.
  { apply settles_validate_templates; [done|]. case_bool_decide; [apply Hcaps_ok|].
    rewrite Hcaps_ok. constructor. }
  intros [] Hvalid.
  apply sound_bind; [apply settles_read_commands|]. intros _ _.
  apply sound_bind; [apply settles_inspect|]. intros _ _.
  apply sound_bind; [apply settles_parent|]. intros _ _.
  apply sound_bind; [apply settles_admit_source_read|]. intros _ _.
  apply sound_bind; [apply settles_bindings|]. intros _ _.
  apply sound_bind; [auto with settles|]. intros _ _.
  match goal with |- sound _ (check_verifiers _ ?matcher ≫= _) => set (m := matcher) end.
  assert (Hwf : matcher_wf m).
  { unfold check_operation_sets in Hsets. outcome_inv.
    split; unfold m, is_multi_domain; simpl.
    - by apply operations_disjoint.
    - by eapply admitted_operations_known.
    - intros Hs. rewrite Hs in Htries, Hcaps_ok. destruct Htries as (? & ? & _). by split_and!.
    - intros Hs. rewrite Hs in Htries, Hcaps_ok. simplify_eq. destruct Hcaps_ok as (? & ? & ?).
      split_and!; try done. unfold admitted_projection in Hproj. by rewrite Hs in Hproj.
    - by exists fs.
    - done.
    - by eapply verifier_grant_argv. }
  assert (Hcompiles : compiles contract m).
  { unfold compiles, m, is_multi_domain. simpl. intros Hs. rewrite Hs in Htries.
    unfold admitted_projection in Hproj. rewrite Hs in Hproj. outcome_inv. simplify_eq.
    destruct Htries as (_ & _ & declared & Hd & Ht).
    split_and!; [by repeat eexists..|]. exists declared. split; [|done]. by exists object. }
  apply sound_bind; [by apply settles_verifiers, wf_ok|]. intros _ _.
  split; [apply settles_Ok|]. by intros ? [= <-].
Qed.
End Compile.
End Facts.

(** ** The theorems about admitted matchers *)

Section Grants.
Context `{SerdeJson, !JsonRead, Sha2, !JSpaceSerde, !JSpaceHost}.
Implicit Types (m : JSpaceMatcher) (fs : FileTree).

(** Admission ends with a matcher or an error for every contract and file
    tree, and so does every check of an admitted matcher, under any later file
    tree: no index is out of range, no loop runs on. *)
Theorem admission_always_answers fs session_root contract :
  settles (from_value fs session_root contract)
  ∧ ∀ m fs', from_value fs session_root contract = Ok m →
      (∀ operation target, settles (check_path fs' m operation target))
      ∧ (∀ kind line, settles (check_command fs' m kind line))
      ∧ (∀ kind line, settles (check_read_search_command fs' m kind line))
      ∧ (∀ target, settles (check_source_read fs' m target))
      ∧ (∀ relative, settles (admitted_source_read_digest fs' m relative))
      ∧ (∀ index, settles (check_verifier_command m index))
      ∧ settles (revalidate_verifier_paths fs' m).
Proof.
  destruct (from_value_sound fs session_root contract) as [Hs Hwf]. split; [done|].
  intros m fs' [Hm%wf_ok _]%Hwf. split_and!; intros.
  - by apply settles_check_path.
  - by apply settles_check_command.
  - by apply settles_search_command.
  - by apply settles_check_source_read.
  - by apply settles_source_digest.
  - apply settles_verifier_command.
  - by apply settles_verifier_paths.
Qed.

(** C35: an admitted matcher is well formed: no operation is both allowed and
    denied, the tries are those of the published projection, effect domains
    have disjoint roots and only path operations, the templates passed
    validation and are indexed by their first occurrence, and no verifier has
    an empty argv. *)
Theorem admitted_matcher_wf fs session_root contract m :
  from_value fs session_root contract = Ok m → matcher_wf m.
Proof. intros Hm. by apply from_value_sound in Hm as [? _]. Qed.

(** ** Paths of a single-root contract *)

Definition in_scopes (scopes : list string) (relative : string) : bool :=
  existsb (scope_covers (relative_parts relative)) scopes.

Lemma matches_in_scopes t scopes relative :
  trie_of t scopes → PathTrie_matches t relative = Ok (in_scopes scopes relative).
Proof. intros Ht. by apply trie_matches_of. Qed.

(** What a check of a resolved path decides. *)
Lemma check_relative_spec reads writes declared read_scopes write_scopes targets operation target
    relative outside undeclared :
  trie_of reads read_scopes → trie_of writes write_scopes → trie_of declared targets →
  check_relative reads writes declared operation target relative outside undeclared = Ok tt ↔
  if bool_decide (operation = "read")
  then in_scopes read_scopes relative = true
  else in_scopes write_scopes relative = true ∧ in_scopes targets relative = true.
Proof.
  intros Hr Hw Hd. unfold check_relative. case_bool_decide.
  - rewrite (matches_in_scopes _ _ _ Hr). simpl. destruct (in_scopes read_scopes relative); done.
  - rewrite (matches_in_scopes _ _ _ Hw). simpl. destruct (in_scopes write_scopes relative); simpl.
    + rewrite (matches_in_scopes _ _ _ Hd). simpl. destruct (in_scopes targets relative); naive_solver.
    + naive_solver.
Qed.

Lemma check_operation_spec m operation target :
  matcher_wf m → check_operation m operation target = Ok tt ↔ operation ∈ jm_allowed_operations m.
Proof.
  intros Hwf. unfold check_operation, has_operation. split.
  - intros Hc. outcome_inv. by guards.
  - intros Hin. rewrite (mw_known _ Hwf) by done. simpl.
    rewrite (bool_decide_eq_false_2 (operation ∈ jm_denied_operations m)); simpl.
    + by rewrite bool_decide_eq_true_2.
    + intros Hd. by apply (mw_disjoint _ Hwf operation).
Qed.

(** C29: a check of a path against a single-root contract passes exactly when
    the operation is allowed, the target resolves below the root, and its
    relative path is covered by a read scope, or for a mutation by a write
    scope and by a declared target. *)
Theorem check_path_exact fs fs' session_root contract m :
  from_value fs' session_root contract = Ok m → is_multi_domain m = false →
  ∃ reads writes targets,
    scopes_of contract "read_scopes" reads ∧ scopes_of contract "write_scopes" writes
    ∧ targets_of contract targets
    ∧ ∀ operation target, check_path fs m operation target = Ok tt ↔
        operation ∈ jm_allowed_operations m
        ∧ ∃ relative, resolve_target fs m target operation = Ok relative
            ∧ if bool_decide (operation = "read"%string) then in_scopes reads relative = true
              else in_scopes writes relative = true ∧ in_scopes targets relative = true.
Proof.
  intros Hm Hsingle. apply from_value_sound in Hm as [Hwf Hcomp].
  destruct (mw_single _ Hwf Hsingle) as (Hr & Hw & _ & _).
  destruct (Hcomp Hsingle) as (Hreads & Hwrites & targets & Htargets & Hd).
  exists (sp_read_scopes (jm_scope_projection m)), (sp_write_scopes (jm_scope_projection m)), targets.
  split_and!; [done..|]. intros operation target. unfold check_path. rewrite Hsingle. split.
  - intros ([] & Hop & Hc)%bind_Ok_inv. apply bind_Ok_inv in Hc as (relative & Hres & Hc).
    apply bind_Ok_inv in Hc as (? & _ & Hc).
    split; [by eapply check_operation_spec|]. exists relative. split; [done|].
    by eapply check_relative_spec.
  - intros (Hop & relative & Hres & Hcov).
    rewrite (proj2 (check_operation_spec m operation target Hwf)) by done.
    simpl. rewrite Hres. simpl. rewrite (proj2 (reject_if_Ok _ _ tt)).
    + simpl. by eapply check_relative_spec.
    + apply andb_false_iff. destruct (decide (operation = "delete"%string)) as [->|Hdel].
      * right. apply negb_false_iff. by apply bool_decide_eq_true.
      * left. by apply bool_decide_eq_false.
Qed.
End Grants.
