(* ===== verification/JSpaceIsolation.v ===== *)
(** * Where a granted path lies, and who else may reach it

    On canonical file trees, a path a matcher grants is a file below one of its
    admitted roots.  Two matchers whose projections do not conflict never grant
    the same file when one of them grants it for a mutation. *)

From stdpp Require Import base list strings gmap sorting.
From Stdlib Require Import ZArith Lia Ascii.
From S2P Require Import Prelude RustStd RustText RustPath Externals TaskData TaskIdentity JSpaceScopes JSpaceScopeFacts JSpaceClaimFacts JSpaceArgv JSpaceJson JSpaceTemplates JSpaceVerifier JSpacePolicies JSpaceDigest JSpaceMatcher JSpaceCompile JSpaceSettles JSpaceMatcherFacts.
Open Scope Z_scope.

(** ** The parts of a relative path *)

Definition unix_parts (names : list string) : list string :=
  relative_parts (unix_separators (join "/" names)).

Lemma relative_parts_slash s t :
  relative_parts (s +:+ String slash t) = relative_parts s ++ relative_parts t.
Proof.
  unfold relative_parts.
  assert (Hsplit : split_char slash (s +:+ String slash t) = split_char slash s ++ split_char slash t).
  { induction s as [|a s IH].
    - change ("" +:+ String slash t) with (String slash t). cbn [split_char].
      by rewrite Ascii.eqb_refl.
    - change (String a s +:+ String slash t) with (String a (s +:+ String slash t)). cbn [split_char].
      rewrite IH. destruct (Ascii.eqb a slash); [done|].
      destruct (split_char slash s) eqn:Hs; [by apply split_char_nonempty in Hs|done]. }
  by rewrite Hsplit, filter_app.
Qed.

Lemma unix_append s t : unix_separators (s +:+ t) = unix_separators s +:+ unix_separators t.
Proof.
  unfold unix_separators, replace_char. induction s as [|a s IH]; [done|].
  change (String a s +:+ t) with (String a (s +:+ t)). simpl. rewrite IH. done.
Qed.

Lemma unix_parts_cons name names :
  unix_parts (name :: names) = relative_parts (unix_separators name) ++ unix_parts names.
Proof.
  unfold unix_parts. destruct names as [|n names].
  - change (join "/" [name]) with name. change (relative_parts (unix_separators (join "/" []))) with (@nil string).
    by rewrite app_nil_r.
  - change (join "/" (name :: n :: names)) with (name +:+ String slash (join "/" (n :: names))).
    rewrite unix_append.
    change (unix_separators (String slash ?x)) with (String slash (unix_separators x)).
    by rewrite relative_parts_slash.
Qed.
Lemma unix_parts_app l k : unix_parts (l ++ k) = unix_parts l ++ unix_parts k.
Proof.
  induction l as [|x l IH]; [done|]. change ((x :: l) ++ k) with (x :: (l ++ k)).
  by rewrite !unix_parts_cons, IH, app_assoc.
Qed.

Lemma unix_parts_clean names :
  Forall normal_name names → no_backslash names → unix_parts names = names.
Proof.
  intros Hall. induction Hall as [|n names Hn _ IH]; [done|]. intros [Hb Hns]%Forall_cons.
  rewrite unix_parts_cons, IH by done. unfold unix_separators.
  rewrite replace_char_none by done. unfold relative_parts.
  rewrite split_char_none by apply Hn. rewrite filter_cons_True by apply Hn. done.
Qed.

(** ** A relative claim is its scope *)

Lemma keeps_ws_unix : keeps_ws (λ a, if Ascii.eqb a backslash then slash else a).
Proof. intros [[] [] [] [] [] [] [] []]; vm_compute; done. Qed.

Lemma relative_claim scope cs r :
  scope_components scope = Ok (cs, r) → claim_scope_components scope = Ok (false, cs, r).
Proof.
  intros Hs. set (s := unix_separators (trim scope)).
  assert (Htrim : trim s = s).
  { unfold s, unix_separators, replace_char. by rewrite (trim_map _ _ keeps_ws_unix), trim_idemp. }
  assert (Hunix : unix_separators s = s) by (by apply replace_char_none, has_char_replaced).
  assert (Hsame : scope_components s = Ok (cs, r)).
  { revert Hs. unfold scope_components. rewrite Htrim, Hunix. fold s.
    destruct (is_empty s); [done|]. simpl. destruct (_ || has_drive_colon s); [done|]. simpl.
    match goal with |- context [reject_if ?b _] => destruct b; [done|] end. cbn [reject_if mbind outcome_bind].
    intros (parts & Hc & Heq)%bind_Ok_inv.
    apply collect_components_Ok in Hc. rewrite (proj2 (collect_components_Ok s _ _) Hc). done. }
  unfold claim_scope_components. fold s.
  assert (starts_with "/" s = false) as ->.
  { revert Hs. unfold scope_components. fold s. destruct (is_empty s); [done|]. simpl.
    by destruct (starts_with "/" s). }
  by rewrite Hsame.
Qed.

(** ** Claims of an effect domain *)

Lemma map_results_elem {A B} (f : A → result B) l k x :
  map_results f l = Ok k → x ∈ l → ∃ y, f x = Ok y ∧ y ∈ k.
Proof.
  revert k. induction l as [|a l IH]; intros k; simpl; [by intros _ ?%elem_of_nil|].
  intros (y & Hy & Hk)%bind_Ok_inv. apply bind_Ok_inv in Hk as (ys & Hys & Hk). injection Hk as <-.
  intros [->|Hx]%elem_of_cons; [exists y; split; [done|by left]|].
  destruct (IH _ Hys Hx) as (z & ? & ?). exists z. split; [done|by right].
Qed.
Lemma elem_of_sorted_set x l : x ∈ sorted_set l ↔ x ∈ l.
Proof. unfold sorted_set. by rewrite elem_of_btree_iter, elem_of_list_to_set. Qed.

Lemma claim_set_elem l k x :
  canonical_claim_scope_set l = Ok k → x ∈ l → ∃ y, canonical_claim_scope x = Ok y ∧ y ∈ k.
Proof.
  unfold canonical_claim_scope_set. intros (scopes & Hs & Hk)%bind_Ok_inv Hx. injection Hk as <-.
  destruct (map_results_elem _ _ _ _ Hs Hx) as (y & ? & ?). exists y.
  by rewrite elem_of_sorted_set.
Qed.

Lemma rooted_projection_elem caps reads writes targets c :
  rooted_projection caps = Ok (reads, writes, targets) → c ∈ caps →
  (∀ s, s ∈ ec_read_projection c → ∃ rooted, rooted_scope (ec_root c) s = Ok rooted ∧ rooted ∈ reads)
  ∧ (∀ s, s ∈ ec_write_projection c → ∃ rooted, rooted_scope (ec_root c) s = Ok rooted ∧ rooted ∈ writes).
Proof.
  revert reads writes targets. induction caps as [|d caps IH]; intros reads writes targets; simpl;
    [by intros _ ?%elem_of_nil|].
  intros (r & Hr & Hp)%bind_Ok_inv. apply bind_Ok_inv in Hp as (w & Hw & Hp).
  apply bind_Ok_inv in Hp as (t & Ht & Hp). apply bind_Ok_inv in Hp as ([[rs ws] ts] & Hrest & Hp).
  injection Hp as <- <- <-. intros [->|Hc]%elem_of_cons.
  - split; intros s Hs.
    + destruct (map_results_elem _ _ _ _ Hr Hs) as (y & ? & ?). exists y. rewrite elem_of_app. auto.
    + destruct (map_results_elem _ _ _ _ Hw Hs) as (y & ? & ?). exists y. rewrite elem_of_app. auto.
  - destruct (IH _ _ _ Hrest Hc) as [H1 H2]. split; intros s Hs.
    + destruct (H1 s Hs) as (y & ? & ?). exists y. rewrite elem_of_app. auto.
    + destruct (H2 s Hs) as (y & ? & ?). exists y. rewrite elem_of_app. auto.
Qed.

(** The claim made of a scope of a domain stands for the scope below the root. *)
Definition faithful_scope (root : list string) (scope : string) : bool :=
  match rooted ← rooted_scope (abs_text root) scope;
        claim ← canonical_claim_scope rooted;
        parsed ← claim_scope_components claim;
        own ← scope_components scope;
        Ok ((parsed : bool * list string * bool), (own : list string * bool)) with
  | Ok (absolute, claimed, claimed_recursive, (cs, recursive)) =>
      absolute && bool_decide (claimed = root ++ cs) && Bool.eqb claimed_recursive recursive
  | _ => false
  end.

Lemma faithful_covers root scope rooted claim parts :
  faithful_scope root scope = true → rooted_scope (abs_text root) scope = Ok rooted →
  canonical_claim_scope rooted = Ok claim → scope_covers parts scope = true →
  claim_covers true (root ++ parts) claim = true.
Proof.
  unfold faithful_scope. intros Hf Hr Hc Hcov. rewrite Hr in Hf. simpl in Hf. rewrite Hc in Hf.
  simpl in Hf. unfold scope_covers in Hcov. unfold claim_covers.
  destruct (claim_scope_components claim) as [[[a cs'] r']| | |]; try done. simpl in Hf.
  destruct (scope_components scope) as [[cs r]| | |]; try done. simpl in Hf. guards. subst cs'.
  match goal with Hb : Bool.eqb r' r = true |- _ => apply Bool.eqb_prop in Hb; subst r' end.
  destruct a; [|done]. simpl. unfold covers in *. destruct r; apply bool_decide_eq_true;
    apply bool_decide_eq_true in Hcov; [by apply prefix_app|by subst].
Qed.

(** ** Granted files *)

Section Isolation.
Context `{SerdeJson, !JsonRead, Sha2, !JSpaceSerde, !JSpaceHost}.
Implicit Types (m : JSpaceMatcher) (fs : FileTree) (c : EffectCapabilityMatcher).

Definition admitted_roots m : list string :=
  if is_multi_domain m then ec_root <$> jm_effect_capabilities m else [jm_repo_root m].
(** The file a target stands for. *)
Definition target_file fs m (target : string) : outcome string string :=
  resolve_existing_boundary fs
    (if is_multi_domain m || is_absolute target then target
     else path_join (jm_repo_root m) target).
(** The claims an operation is checked against. *)
Definition claims_for m (operation : string) : list string :=
  if bool_decide (operation = "read"%string) then sp_read_scopes (jm_scope_projection m)
  else sp_write_scopes (jm_scope_projection m).

(** Canonical roots without backslashes; in effect domains, claims that stand
    for their scopes. *)
Record clean_matcher m : Prop := {
  cm_roots : Forall (λ root, ∃ names, root = abs_text names ∧ Forall normal_name names
                                      ∧ no_backslash names) (admitted_roots m);
  cm_faithful names c scope : is_multi_domain m = true → c ∈ jm_effect_capabilities m →
    ec_root c = abs_text names → scope ∈ ec_read_projection c ++ ec_write_projection c →
    faithful_scope names scope = true;
}.

(** The path of a claim that covers a file: below the root of a single-root
    contract, absolute for an effect domain. *)
Definition claim_path m (root below : list string) : bool * list string :=
  (is_multi_domain m, unix_parts (if is_multi_domain m then root ++ below else below)).

Lemma in_scopes_elem scopes relative :
  in_scopes scopes relative = true → ∃ scope, scope ∈ scopes ∧ scope_covers (relative_parts relative) scope = true.
Proof.
  unfold in_scopes. rewrite existsb_exists. intros (s & Hs & ?). exists s.
  by rewrite list_elem_of_In.
Qed.

Lemma resolve_file fs m target operation relative :
  FileTreeLaws fs → is_multi_domain m = false → clean_matcher m →
  resolve_target fs m target operation = Ok relative →
  ∃ root below, jm_repo_root m = abs_text root ∧ Forall normal_name (root ++ below)
    ∧ target_file fs m target = Ok (abs_text (root ++ below))
    ∧ relative = unix_separators (join "/" below).
Proof.
  intros Hlaws Hm Hclean Hr. pose proof (cm_roots _ Hclean) as Hroots. unfold admitted_roots in Hroots.
  rewrite Hm in Hroots. apply Forall_singleton in Hroots as (root & Hroot & Hnames & _).
  unfold resolve_target in Hr. apply bind_Ok_inv in Hr as (? & _ & Hr).
  apply bind_Ok_inv in Hr as (? & _ & Hr). apply bind_Ok_inv in Hr as (resolved & Hres & Hr).
  assert (Hfile : target_file fs m target = Ok resolved).
  { unfold target_file. rewrite Hm. simpl.
    destruct (resolve_existing_boundary _ _); try done. by injection Hres as ->. }
  unfold target_file in Hfile. rewrite Hm in Hfile. simpl in Hfile.
  destruct (resolve_canonical fs Hlaws _ _ Hfile) as (names & Hn & ->).
  destruct (strip_path_prefix _ _) as [rel|] eqn:Hs; [|done]. injection Hr as <-.
  rewrite Hroot in Hs. apply strip_path_prefix_abs in Hs as (below & -> & ->); [|done..].
  exists root, below. split_and!; [done..| |done]. unfold target_file. rewrite Hm. done.
Qed.

Lemma domain_file fs c target operation relative root :
  FileTreeLaws fs → ec_root c = abs_text root → Forall normal_name root →
  EffectCapabilityMatcher_resolve_target fs c target operation = Ok relative →
  ∃ below, Forall normal_name (root ++ below)
    ∧ resolve_existing_boundary fs target = Ok (abs_text (root ++ below))
    ∧ relative = unix_separators (join "/" below).
Proof.
  intros Hlaws Hroot Hnames Hr. unfold EffectCapabilityMatcher_resolve_target, resolved_boundary in Hr.
  apply bind_Ok_inv in Hr as (? & _ & Hr). apply bind_Ok_inv in Hr as (resolved & Hres & Hr).
  assert (Hfile : resolve_existing_boundary fs target = Ok resolved).
  { destruct (resolve_existing_boundary _ _); try done. by injection Hres as ->. }
  destruct (resolve_canonical fs Hlaws _ _ Hfile) as (names & Hn & ->).
  destruct (strip_path_prefix _ _) as [rel|] eqn:Hs; [|done]. injection Hr as <-.
  rewrite Hroot in Hs. apply strip_path_prefix_abs in Hs as (below & -> & ->); [|done..].
  by exists below.
Qed.

Lemma single_granted fs m operation target :
  FileTreeLaws fs → matcher_wf m → clean_matcher m → is_multi_domain m = false →
  check_path fs m operation target = Ok tt →
  ∃ root below, abs_text root ∈ admitted_roots m ∧ Forall normal_name (root ++ below)
    ∧ target_file fs m target = Ok (abs_text (root ++ below))
    ∧ claims_cover (claim_path m root below) (claims_for m operation).
Proof.
  intros Hlaws Hwf Hclean Hm Hc. destruct (mw_single _ Hwf Hm) as (Hr & Hw & [targets Hd] & _).
  unfold check_path in Hc. rewrite Hm in Hc. apply bind_Ok_inv in Hc as (? & _ & Hc).
  apply bind_Ok_inv in Hc as (relative & Hres & Hc). apply bind_Ok_inv in Hc as (? & _ & Hc).
  apply (check_relative_spec _ _ _ _ _ _ _ _ _ _ _ Hr Hw Hd) in Hc.
  destruct (resolve_file _ _ _ _ _ Hlaws Hm Hclean Hres) as (root & below & Hroot & Hn & Hfile & ->).
  exists root, below. unfold admitted_roots, claim_path, claims_for. rewrite Hm, Hroot.
  split_and!; [by left|done..|].
  assert (Hin : ∀ scopes, in_scopes scopes (unix_separators (join "/" below)) = true →
    claims_cover (false, unix_parts below) scopes).
  { intros scopes (scope & Hs & Hcov)%in_scopes_elem. exists scope. split; [done|]. simpl.
    unfold scope_covers in Hcov. unfold claim_covers.
    destruct (scope_components scope) as [[cs r]| | |] eqn:Hsc; try done.
    by rewrite (relative_claim _ _ _ Hsc). }
  case_bool_decide; [by apply Hin|]. apply Hin, Hc.
Qed.

Lemma multi_granted fs m operation target :
  FileTreeLaws fs → matcher_wf m → clean_matcher m → is_multi_domain m = true →
  check_path fs m operation target = Ok tt →
  ∃ root below, abs_text root ∈ admitted_roots m ∧ Forall normal_name (root ++ below)
    ∧ target_file fs m target = Ok (abs_text (root ++ below))
    ∧ claims_cover (claim_path m root below) (claims_for m operation).
Proof.
  intros Hlaws Hwf Hclean Hm Hc. destruct (mw_multi _ Hwf Hm) as (_ & _ & _ & Hcaps & _ & _ & Hproj).
  unfold check_path in Hc. rewrite Hm in Hc. unfold check_effect_path in Hc.
  apply bind_Ok_inv in Hc as (? & _ & Hc). apply bind_Ok_inv in Hc as (? & _ & Hc).
  apply bind_Ok_inv in Hc as ([[c relative]|] & Hdom & Hc); [|done].
  apply matching_domain_spec in Hdom as [Hin Hres]. apply bind_Ok_inv in Hc as (? & _ & Hc).
  rewrite Forall_forall in Hcaps. destruct (Hcaps _ Hin) as [Hr Hw Hd _].
  apply (check_relative_spec _ _ _ _ _ _ _ _ _ _ _ Hr Hw Hd) in Hc.
  pose proof (cm_roots _ Hclean) as Hroots. unfold admitted_roots in Hroots. rewrite Hm in Hroots.
  rewrite Forall_fmap, Forall_forall in Hroots.
  destruct (Hroots _ Hin) as (root & Hroot & Hnames & Hback).
  destruct (domain_file _ _ _ _ _ _ Hlaws Hroot Hnames Hres) as (below & Hn & Hfile & ->).
  exists root, below. unfold admitted_roots, claim_path, claims_for, target_file. rewrite Hm.
  split_and!; [|done..|].
  { rewrite <- Hroot. by apply list_elem_of_fmap_2. }
  rewrite unix_parts_app, unix_parts_clean; [|by apply Forall_app in Hn as [? _]|done].
  unfold effect_capability_projection in Hproj. apply bind_Ok_inv in Hproj as ([[rs ws] ts] & Hrp & Hproj).
  apply bind_Ok_inv in Hproj as (rs' & Hrs & Hproj). apply bind_Ok_inv in Hproj as (ws' & Hws & Hproj).
  apply bind_Ok_inv in Hproj as (ts' & Hts & Hproj). injection Hproj as <- <- _.
  destruct (rooted_projection_elem _ _ _ _ _ Hrp Hin) as [Hreads Hwrites].
  assert (Hclaims : ∀ scopes rooteds claims,
    (∀ s, s ∈ scopes → s ∈ ec_read_projection c ++ ec_write_projection c) →
    (∀ s, s ∈ scopes → ∃ rooted, rooted_scope (ec_root c) s = Ok rooted ∧ rooted ∈ rooteds) →
    canonical_claim_scope_set rooteds = Ok claims →
    in_scopes scopes (unix_separators (join "/" below)) = true →
    claims_cover (true, root ++ unix_parts below) claims).
  { intros scopes rooteds claims Hsub Hroots' Hset (scope & Hs & Hcov)%in_scopes_elem.
    destruct (Hroots' _ Hs) as (rooted & Hrs' & Hel).
    destruct (claim_set_elem _ _ _ Hset Hel) as (claim & Hcl & Helc). exists claim. split; [done|].
    simpl. rewrite Hroot in Hrs'.
    eapply faithful_covers; [by eapply (cm_faithful _ Hclean); eauto|done..]. }
  case_bool_decide.
  - eapply (Hclaims (ec_read_projection c)); [|exact Hreads|done..]. intros s. rewrite elem_of_app. auto.
  - destruct Hc as [Hc _]. eapply (Hclaims (ec_write_projection c)); [|exact Hwrites|done..].
    intros s. rewrite elem_of_app. auto.
Qed.

Lemma granted fs m operation target :
  FileTreeLaws fs → matcher_wf m → clean_matcher m → check_path fs m operation target = Ok tt →
  ∃ root below, abs_text root ∈ admitted_roots m ∧ Forall normal_name (root ++ below)
    ∧ target_file fs m target = Ok (abs_text (root ++ below))
    ∧ claims_cover (claim_path m root below) (claims_for m operation).
Proof.
  destruct (is_multi_domain m) eqn:Hm; intros; [by eapply multi_granted|by eapply single_granted].
Qed.


(** C2: isolation: for two contracts whose matchers are clean (canonical
    roots without backslashes, scopes of effect domains that read back as
    written), which are both single-domain and over the same repository
    root, or both multi-domain: when their projections do not conflict, no
    file is granted by one of them for a mutation and by the other for
    anything, whatever the file tree each of the two checks sees. Nested
    roots are not covered ([JSpaceWitnesses.nested_roots_do_not_conflict]). *)
Theorem admitted_writers_are_isolated fs fs' fs1 fs2 root1 root2 contract1 contract2 m1 m2
    operation1 operation2 target1 target2 file :
  FileTreeLaws fs → FileTreeLaws fs' →
  from_value fs1 root1 contract1 = Ok m1 → from_value fs2 root2 contract2 = Ok m2 →
  clean_matcher m1 → clean_matcher m2 → is_multi_domain m1 = is_multi_domain m2 →
  (is_multi_domain m1 = false → jm_repo_root m1 = jm_repo_root m2) →
  scope_projections_conflict (jm_scope_projection m1) (jm_scope_projection m2) = Ok false →
  operation1 ≠ "read"%string → check_path fs m1 operation1 target1 = Ok tt →
  check_path fs' m2 operation2 target2 = Ok tt →
  target_file fs m1 target1 = Ok file → target_file fs' m2 target2 ≠ Ok file.
Proof.
  intros Hlaws Hlaws' Hm1 Hm2 Hc1 Hc2 Hkind Hroot Hconf Hop1 Hcheck1 Hcheck2 Hfile1 Hfile2.
  apply from_value_sound in Hm1 as [Hwf1 _]. apply from_value_sound in Hm2 as [Hwf2 _].
  destruct (granted fs m1 operation1 target1) as (r1 & b1 & Hin1 & Hn1 & Hf1 & Hcov1); [done..|].
  destruct (granted fs' m2 operation2 target2) as (r2 & b2 & Hin2 & Hn2 & Hf2 & Hcov2); [done..|].
  assert (Hnames : r1 ++ b1 = r2 ++ b2).
  { assert (abs_text (r1 ++ b1) = abs_text (r2 ++ b2)) as Habs by congruence.
    apply (f_equal components) in Habs. rewrite !components_abs in Habs by done.
    injection Habs as Habs. apply list_fmap_eq_inj in Habs; [done|]. by intros ?? [= ->]. }
  assert (Hpath : claim_path m1 r1 b1 = claim_path m2 r2 b2).
  { unfold claim_path. rewrite <- Hkind. destruct (is_multi_domain m1) eqn:Hm; [by rewrite Hnames|].
    unfold admitted_roots in Hin1, Hin2. rewrite Hm in Hin1. rewrite <- Hkind in Hin2.
    apply list_elem_of_singleton in Hin1, Hin2. rewrite (Hroot eq_refl) in Hin1.
    assert (abs_text r1 = abs_text r2) as Habs by congruence.
    apply (f_equal components) in Habs. apply Forall_app in Hn1 as [Hr1 _], Hn2 as [Hr2 _].
    rewrite !components_abs in Habs by done. injection Habs as Habs.
    apply list_fmap_eq_inj in Habs; [|by intros ?? [= ->]]. subst r2.
    by apply app_inv_head in Hnames as ->. }
  pose proof (projections_conflict_spec _ _ _ Hconf) as [_ Hno]. discriminate Hno.
  exists (claim_path m1 r1 b1). left. unfold claims_for in Hcov1.
  rewrite bool_decide_eq_false_2 in Hcov1 by done. split; [done|].
  rewrite Hpath. destruct Hcov2 as (claim & Hin & Hcov). exists claim. split; [|done].
  unfold claims_for in Hin. rewrite elem_of_app. case_bool_decide; auto.
Qed.
End Isolation.
