(* ===== verification/JSpaceCommands.v ===== *)
(** * What an admitted command is

    A shell line passes only on one of four routes; on the template route every
    mutation effect of the template has a target in the argv that was granted
    at the time of the check.  A discovery command runs a pinned binary on
    visible files below the discovery roots. *)

From stdpp Require Import base list strings gmap sorting.
From Stdlib Require Import ZArith Lia Ascii.
From S2P Require Import Prelude RustStd RustText RustPath Externals TaskData TaskIdentity JSpaceScopes JSpaceScopeFacts JSpaceClaimFacts JSpaceArgv JSpaceJson JSpaceTemplates JSpaceVerifier JSpacePolicies JSpaceDigest JSpaceMatcher JSpaceCompile JSpaceSettles JSpaceMatcherFacts.
Open Scope Z_scope.

Lemma each_Ok {A} (f : A → result unit) l : each f l = Ok tt ↔ ∀ x, x ∈ l → f x = Ok tt.
Proof.
  induction l as [|x l IH]; simpl.
  - split; [|done]. intros _ x Hx. by apply not_elem_of_nil in Hx.
  - split.
    + intros ([] & Hx & Hl)%bind_Ok_inv y [->|Hy]%elem_of_cons; [done|]. by apply IH.
    + intros Hall. rewrite (Hall x) by (by left). simpl. apply IH. intros y Hy. apply Hall. by right.
Qed.

(** ** Validated templates *)

Section Validated.
Context (fs : FileTree) (allowed denied : gset string) (declared : PathTrie)
        (caps : list EffectCapabilityMatcher) (multi : bool).

Lemma validate_effects_spec argv effects : ∀ mutations,
  validate_effects allowed denied multi argv effects = Ok mutations →
  (∀ e, e ∈ mutations ↔ e ∈ effects ∧ is_mutation e = true)
  ∧ ∀ e, e ∈ effects → e ∉ denied ∧ e ≠ "command"%string.
Proof.
  induction effects as [|e effects IH]; intros mutations; simpl.
  { intros [= <-]. split; [set_solver|]. intros e He. by apply not_elem_of_nil in He. }
  intros ([] & H1 & Hv)%bind_Ok_inv. apply bind_Ok_inv in Hv as ([] & H2 & Hv).
  apply bind_Ok_inv in Hv as (rest & Hrest & Hv). injection Hv as <-.
  apply reject_if_Ok in H1, H2. guards. destruct (IH _ Hrest) as [Hm Hd]. split.
  - intros x. clear -Hm. destruct (is_mutation e) eqn:He.
    + rewrite elem_of_union, elem_of_singleton, Hm, elem_of_cons. intuition congruence.
    + rewrite Hm, elem_of_cons. intuition congruence.
  - intros x [->|Hx]%elem_of_cons; [|by apply Hd]. split; [|done].
    match goal with Hno : has_operation denied e = false |- _ =>
      by apply bool_decide_eq_false_1 in Hno end.
Qed.

Lemma validate_targets_spec template targets : ∀ seen,
  validate_targets fs declared caps multi template seen targets = Ok tt →
  ∀ target, target ∈ targets →
    is_path_operation (ct_operation target) = true ∧ ct_operation target ∈ tm_effects template
    ∧ get_index (tm_argv template) (ct_argv_index target) = Some (ct_path target).
Proof.
  induction targets as [|t targets IH]; intros seen; simpl.
  { intros _ target Ht. by apply not_elem_of_nil in Ht. }
  intros ([] & Ht & Hrest)%bind_Ok_inv target [->|Hin]%elem_of_cons; [|by eapply IH].
  unfold validate_target in Ht. apply bind_Ok_inv in Ht as ([] & H1 & Ht).
  apply bind_Ok_inv in Ht as (? & _ & Ht). apply bind_Ok_inv in Ht as ([] & H2 & Ht).
  apply reject_if_Ok in H1, H2. guards. split_and!; [done| |by apply dec_stable].
  match goal with Hin : contains _ _ = true |- _ => by apply bool_decide_eq_true_1 in Hin end.
Qed.

(** Every mutation effect has a target of its operation, and the targets are
    arguments of the template. *)
Definition targets_mutations (template : CommandTemplate) : Prop :=
  (∀ e, e ∈ tm_effects template → e ∉ denied)
  ∧ (∀ e, e ∈ tm_effects template → is_mutation e = true →
       ∃ target, target ∈ tm_targets template ∧ ct_operation target = e)
  ∧ ∀ target, target ∈ tm_targets template →
      get_index (tm_argv template) (ct_argv_index target) = Some (ct_path target).

Lemma validated_template seen template :
  validate_command_template fs allowed denied declared caps multi seen template = Ok tt →
  targets_mutations template
  ∧ (multi = true → ∃ git_dir worktree,
       tm_argv template = ["git"; "--git-dir"; git_dir; "worktree"; "remove"; worktree]%string
       ∧ (∃ target, target ∈ tm_targets template ∧ ct_operation target = "delete"%string
                    ∧ ct_path target = worktree)
       ∧ ∀ target, target ∈ tm_targets template →
           ct_path target = git_dir
           ∨ ct_path target = worktree ∧ ct_operation target = "delete"%string).
Proof.
  unfold validate_command_template. intros Hv. apply bind_Ok_inv in Hv as (? & _ & Hv).
  apply bind_Ok_inv in Hv as (mutations & Heff & Hv). apply bind_Ok_inv in Hv as ([] & Htar & Hv).
  apply bind_Ok_inv in Hv as ([] & Hmut & Hv). apply reject_if_Ok in Hmut. guards.
  apply dec_stable in Hmut. apply validate_effects_spec in Heff as [Hm Hd].
  pose proof (validate_targets_spec _ _ _ Htar) as Hts. split.
  - split_and!.
    + intros e He. by apply Hd.
    + intros e He Hmu. assert (e ∈ targeted_mutations template) as Hin by (rewrite <- Hmut; by apply Hm).
      unfold targeted_mutations in Hin. apply elem_of_list_to_set, list_elem_of_filter in Hin as [_ Hin].
      apply list_elem_of_fmap in Hin as (target & -> & Hin). by exists target.
    + intros target Hin. by apply Hts.
  - intros ->. apply bind_Ok_inv in Hv as (? & _ & Hv). apply bind_Ok_inv in Hv as (? & _ & Hv).
    unfold validate_multi_domain_command_semantics in Hv. apply bind_Ok_inv in Hv as ([] & Hs & Hsem).
    apply reject_if_Ok in Hs. guards.
    repeat match goal with Hx : ¬ (_ ≠ _) |- _ => apply dec_stable in Hx end.
    apply reject_if_Ok in Hsem. apply orb_false_iff in Hsem as [Hsem _].
    apply orb_false_iff in Hsem as [_ Hsem]. apply bool_decide_eq_false_1, dec_stable in Hsem.
    destruct (tm_argv template) as [|a0 [|a1 [|a2 [|a3 [|a4 [|a5 []]]]]]] eqn:Hargv; try done.
    simpl in *. subst. exists a2, a5. split; [done|].
    assert (Hat : ∀ target, target ∈ tm_targets template →
      get_index ["git"; "--git-dir"; a2; "worktree"; "remove"; a5]%string (ct_argv_index target)
      = Some (ct_path target)) by (intros target Hin; by apply Hts).
    split.
    + assert ((5, "delete"%string) ∈ (list_to_set ((λ target, (ct_argv_index target, ct_operation target))
        <$> tm_targets template) : gset (Z * string))) as Hin.
      { rewrite Hsem. clear. set_solver. }
      apply elem_of_list_to_set, list_elem_of_fmap in Hin as (target & [= Hidx Hop] & Hin).
      exists target. split_and!; [done..|]. specialize (Hat _ Hin). rewrite <- Hidx in Hat.
      by injection Hat.
    + intros target Hin. assert ((ct_argv_index target, ct_operation target)
        ∈ (list_to_set ((λ target, (ct_argv_index target, ct_operation target))
                          <$> tm_targets template) : gset (Z * string))) as Hreq.
      { apply elem_of_list_to_set, list_elem_of_fmap. by exists target. }
      rewrite Hsem in Hreq. specialize (Hat _ Hin).
      rewrite !elem_of_union, !elem_of_singleton in Hreq.
      destruct Hreq as [[= He Ho]|[[= He Ho]|[[= He Ho]|Hnil]]];
        [..|by apply not_elem_of_empty in Hnil]; rewrite He in Hat; injection Hat; auto.
Qed.

Lemma validated_templates templates : ∀ seen,
  validate_templates_from fs allowed denied declared caps multi seen templates = Ok tt →
  ∀ template, template ∈ templates →
    ∃ seen', validate_command_template fs allowed denied declared caps multi seen' template = Ok tt.
Proof.
  induction templates as [|t templates IH]; intros seen; simpl.
  { intros _ template Ht. by apply not_elem_of_nil in Ht. }
  intros ([] & Ht & Hrest)%bind_Ok_inv template [->|Hin]%elem_of_cons; [by eexists|]. by eapply IH.
Qed.
End Validated.

(** ** Shell lines *)

Section Commands.
Context `{SerdeJson, !JsonRead, Sha2, !JSpaceSerde, !JSpaceHost}.
Implicit Types (m : JSpaceMatcher) (fs : FileTree).

(** A granted template: its effects are allowed and every target is granted as
    an argument of the argv. *)
Definition template_granted fs m (argv : list string) (workdir : option string) : Prop :=
  ∃ template, template ∈ jm_command_templates m ∧ tm_argv template = argv
    ∧ (∀ directory, workdir = Some directory → is_ok (resolve_target fs m directory "command") = true)
    ∧ (∀ e, e ∈ tm_effects template → e ∉ jm_denied_operations m)
    ∧ (is_multi_domain m = false → ∀ e, e ∈ tm_effects template → e ∈ jm_allowed_operations m)
    ∧ (∀ target, target ∈ tm_targets template →
         get_index argv (ct_argv_index target) = Some (ct_path target)
         ∧ if is_multi_domain m
           then check_effect_path fs m (ct_operation target) (ct_path target) (ct_domain_id target) = Ok tt
           else check_path fs m (ct_operation target) (ct_path target) = Ok tt)
    ∧ (∀ e, e ∈ tm_effects template → is_mutation e = true →
         ∃ target, target ∈ tm_targets template ∧ ct_operation target = e).

Definition shell_cwd m (workdir : option string) : string :=
  match workdir with
  | Some directory => if is_absolute directory then directory else path_join (jm_repo_root m) directory
  | None => jm_repo_root m
  end.

Lemma check_template_granted fs m command template argv workdir :
  matcher_wf m → template ∈ jm_command_templates m → tm_argv template = argv →
  (∀ directory, workdir = Some directory → is_ok (resolve_target fs m directory "command") = true) →
  check_template fs m command template = Ok tt → template_granted fs m argv workdir.
Proof.
  intros Hwf Hin Hargv Hwork Hc. destruct (mw_templates _ Hwf) as [fs0 Hval].
  destruct (validated_templates _ _ _ _ _ _ _ _ Hval _ Hin) as [seen Hv].
  apply validated_template in Hv as [(Hden & Hmut & Hidx) _].
  exists template. unfold check_template in Hc. split_and!; [done..| | |done].
  - intros Hs e He. rewrite Hs in Hc. apply bind_Ok_inv in Hc as ([] & Heff & _).
    rewrite each_Ok in Heff. by eapply check_operation_spec, Heff.
  - intros target Ht. split; [rewrite <- Hargv; by apply Hidx|].
    destruct (is_multi_domain m).
    + rewrite each_Ok in Hc. by apply Hc.
    + apply bind_Ok_inv in Hc as ([] & _ & Hc). rewrite each_Ok in Hc. by apply Hc.
Qed.

(** C6: a shell line is admitted on one of four routes: under the sandbox
    profile the contract binds by digest; through the parent's shell, when
    no template has its argv; as a discovery command, when none has; or as
    the template with exactly its argv. On the last one no effect is denied,
    every target is an argument and is granted now, and every mutation
    effect has such a target. *)
Theorem shell_lines_run_as_admitted fs fs' session_root contract m kind line :
  from_value fs' session_root contract = Ok m →
  is_shell_type (normalize_command_type kind) = true → check_command fs m kind line = Ok tt →
  let '(command, workdir) := shell_command_parts line in
  "command" ∈ jm_allowed_operations m
  ∧ ((∃ policy, jm_inspect_shell m = Some policy ∧ check_binding fs policy = Ok tt)
     ∨ (is_some (jm_parent_shell m) = true ∧ shell_template_matches m line = false)
     ∨ ∃ argv, parse_shell_argv command = Ok argv
         ∧ ((is_some (jm_read_commands m) = true ∧ Forall (λ t, tm_argv t ≠ argv) (jm_command_templates m)
             ∧ read_check fs m argv (shell_cwd m workdir) = Ok tt)
            ∨ template_granted fs m argv workdir)).
Proof.
  intros Hm Hkind Hc. apply from_value_sound in Hm as [Hwf _]. unfold check_command in Hc.
  apply bind_Ok_inv in Hc as (? & _ & Hc).
  assert (Hnot : contains ["apply_patch"; "planning"; "task_status"] (normalize_command_type kind) = false).
  { revert Hkind. generalize (normalize_command_type kind). intros k Hk%bool_decide_eq_true_1.
    repeat (apply elem_of_cons in Hk as [->|Hk]; [reflexivity|]). by apply not_elem_of_nil in Hk. }
  rewrite Hnot, Hkind in Hc. apply bind_Ok_inv in Hc as ([] & Hop & Hc).
  apply check_operation_spec in Hop; [|done]. unfold check_shell_command in Hc.
  destruct (shell_command_parts line) as [command workdir] eqn:Hparts. split; [done|].
  destruct (jm_inspect_shell m) as [policy|]; [left; by exists policy|]. right.
  destruct (is_some (jm_parent_shell m) && negb (shell_template_matches m line)) eqn:Hparent.
  { left. by guards. }
  right. apply bind_Ok_inv in Hc as (argv & Hargv & Hc). exists argv. split; [done|].
  rewrite (mw_index _ Hwf), template_index_spec in Hc.
  destruct (position (has_argv argv) (jm_command_templates m)) as [i|] eqn:Hpos.
  - rewrite andb_false_r in Hc. simpl in Hc.
    apply position_Some in Hpos as (template & Hi & Ha & _). rewrite Hi in Hc. simpl in Hc.
    apply bind_Ok_inv in Hc as ([] & Hwork & Hc). right.
    eapply check_template_granted; [done|by eapply list_elem_of_lookup_2|by apply bool_decide_eq_true in Ha| |done].
    intros directory ->. apply bind_Ok_inv in Hwork as (? & -> & _). done.
  - simpl in Hc. rewrite andb_true_r in Hc. destruct (is_some (jm_read_commands m)); [|done]. left.
    split; [done|]. apply bind_Ok_inv in Hc as (cwd & Hcwd & Hc).
    rewrite position_None in Hpos. split.
    + apply Forall_forall. intros t Ht Heq. specialize (Hpos t Ht).
      by apply bool_decide_eq_false in Hpos.
    + replace (shell_cwd m workdir) with cwd; [done|]. destruct workdir as [d|]; simpl in *.
      * apply bind_Ok_inv in Hcwd as (? & _ & Hcwd). by injection Hcwd.
      * by injection Hcwd.
Qed.

(** In a multi-domain contract the only admitted command line is the
    removal of a git worktree: its argv has that shape, the deletion of the
    worktree was granted in its effect domain, and so was every use of the
    repository. *)
Theorem multi_domain_commands fs fs' session_root contract m template command :
  from_value fs' session_root contract = Ok m → is_multi_domain m = true →
  template ∈ jm_command_templates m → check_template fs m command template = Ok tt →
  ∃ git_dir worktree, tm_argv template = ["git"; "--git-dir"; git_dir; "worktree"; "remove"; worktree]%string
    ∧ (∃ domain, check_effect_path fs m "delete" worktree domain = Ok tt)
    ∧ ∀ target, target ∈ tm_targets template →
        (ct_path target = git_dir ∨ ct_path target = worktree ∧ ct_operation target = "delete"%string)
        ∧ check_effect_path fs m (ct_operation target) (ct_path target) (ct_domain_id target) = Ok tt.
Proof.
  intros Hm Hmulti Hin Hc. apply from_value_sound in Hm as [Hwf _].
  destruct (mw_templates _ Hwf) as [fs0 Hval]. rewrite Hmulti in Hval.
  destruct (validated_templates _ _ _ _ _ _ _ _ Hval _ Hin) as [seen Hv].
  apply validated_template in Hv as [_ Hshape].
  destruct (Hshape eq_refl) as (d & w & Hargv & (target & Ht & Hop & Hpath) & Hall).
  unfold check_template in Hc. rewrite Hmulti, each_Ok in Hc.
  exists d, w. split_and!; [done| |].
  - exists (ct_domain_id target). rewrite <- Hop, <- Hpath. by apply Hc.
  - intros t Hin'. split; [by apply Hall|by apply Hc].
Qed.
End Commands.
