(* ===== verification/JSpaceDiscovery.v ===== *)
(** * What an admitted discovery command reads

    The pinned [rg] and [cat] read named operands only: each is below the
    discovery roots and the workspace, has no hidden part and no symlink on its
    way, and is granted as a read. *)

From stdpp Require Import base list strings gmap sorting.
From Stdlib Require Import ZArith Lia Ascii.
From S2P Require Import Prelude RustStd RustText RustPath Externals TaskData TaskIdentity JSpaceScopes JSpaceScopeFacts JSpaceClaimFacts JSpaceArgv JSpaceJson JSpaceTemplates JSpaceVerifier JSpacePolicies JSpaceDigest JSpaceMatcher JSpaceCompile JSpaceSettles JSpaceMatcherFacts JSpaceIsolation.
Open Scope Z_scope.

(** ** Arguments *)

(** What the option loop saw and where it stopped. *)
Definition options_seen (args : list string) (seen seen' : RgOptions) (rest : list string) : Prop :=
  ∃ options, args = options ++ rest
    ∧ (rg_no_config seen' = true → rg_no_config seen = true ∨ "--no-config" ∈ options)%string
    ∧ (rg_bounded_size seen' = true → rg_bounded_size seen = true ∨ "--max-filesize=1M" ∈ options)%string.

Lemma options_seen_more a args seen1 seen seen' rest :
  options_seen args seen1 seen' rest →
  (rg_no_config seen1 = true → rg_no_config seen = true ∨ a = "--no-config")%string →
  (rg_bounded_size seen1 = true → rg_bounded_size seen = true ∨ a = "--max-filesize=1M")%string →
  options_seen (a :: args) seen seen' rest.
Proof.
  intros (options & -> & Hconf & Hsize) H1 H2. exists (a :: options). split; [done|].
  split; intros Hs; rewrite elem_of_cons.
  - destruct (Hconf Hs) as [Ha|]; [|auto]. destruct (H1 Ha); auto.
  - destruct (Hsize Hs) as [Ha|]; [|auto]. destruct (H2 Ha); auto.
Qed.

Lemma rg_options_spec n : ∀ args seen seen' rest,
  (length args ≤ n)%nat → rg_options seen args = Ok (seen', rest) → options_seen args seen seen' rest.
Proof.
  assert (Hstop : ∀ args seen, options_seen args seen seen args) by (intros; exists []; auto).
  induction n as [|n IH]; intros [|a args] seen seen' rest Hlen; cbn [rg_options length] in *; try lia;
    try by (intros [= <- <-]).
  case_bool_decide; [by intros [= <- <-]|].
  assert (Hrest : ∀ seen1 k, (length k ≤ n)%nat → rg_options seen1 k = Ok (seen', rest) →
                             options_seen k seen1 seen' rest) by auto.
  do 3 (case_bool_decide; [subst; intros Hr; apply Hrest in Hr; [|lia];
                           by eapply options_seen_more; [exact Hr|auto..]|]).
  assert (Hone : rg_options seen args = Ok (seen', rest) → options_seen (a :: args) seen seen' rest).
  { intros Hr; apply Hrest in Hr; [|lia]. by eapply options_seen_more; [exact Hr|auto..]. }
  destruct (contains rg_plain_options a); [exact Hone|].
  assert (Htwo : ∀ v k seen1, args = v :: k →
    rg_no_config seen1 = rg_no_config seen → rg_bounded_size seen1 = rg_bounded_size seen →
    rg_options seen1 k = Ok (seen', rest) → options_seen (a :: args) seen seen' rest).
  { intros v k seen1 -> Hnc Hbs Hr. simpl in Hlen. apply Hrest in Hr; [|lia].
    eapply options_seen_more; [eapply options_seen_more; [exact Hr|..]|..]; eauto;
      rewrite ?Hnc, ?Hbs; auto. }
  clear Hrest IH Hstop.
  destruct (contains rg_count_options a).
  { destruct args as [|v k]; [done|]. destruct (bounded_count v); [by eapply Htwo|done]. }
  case_match; [exact Hone|].
  destruct (contains _ a).
  { destruct args as [|v k]; [done|]. destruct (256 <? len v); [done|by eapply Htwo]. }
  destruct (contains _ a); [|done].
  destruct args as [|v k]; [done|]. destruct (_ || _); [done|]. by eapply Htwo.
Qed.

(** The paths are the last arguments, one to sixteen of them. *)
Lemma bounded_paths_spec args detail paths :
  bounded_paths args detail = Ok paths → paths = args ∧ (1 ≤ length paths ≤ 16)%nat.
Proof.
  unfold bounded_paths. intros ([] & Hb & [= <-])%bind_Ok_inv. apply reject_if_Ok in Hb. guards.
  split; [done|]. destruct args; simpl in *; [done|lia].
Qed.

Lemma cat_paths_spec argv paths :
  cat_paths argv = Ok paths → (∃ before, argv = before ++ paths) ∧ (1 ≤ length paths ≤ 16)%nat.
Proof.
  unfold cat_paths. intros [-> Hlen]%bounded_paths_spec. split; [|done].
  eexists. symmetry. apply take_drop.
Qed.

Definition rg_bounded (argv paths : list string) : Prop :=
  ∃ options pattern, argv = options ++ "--"%string :: pattern ++ paths
    ∧ "--no-config"%string ∈ options ∧ "--max-filesize=1M"%string ∈ options
    ∧ (length pattern ≤ 1)%nat.

Lemma rg_paths_spec argv paths :
  rg_paths argv = Ok paths → rg_bounded argv paths ∧ (1 ≤ length paths ≤ 16)%nat.
Proof.
  unfold rg_paths. intros ([seen rest] & Hopt & Hr)%bind_Ok_inv.
  apply bind_Ok_inv in Hr as ([] & Hguard & Hr). apply reject_if_Ok in Hguard. guards.
  apply bind_Ok_inv in Hr as ([] & _ & Hr). apply bind_Ok_inv in Hr as (rest' & Hpat & Hr).
  apply bounded_paths_spec in Hr as [-> Hlen]. split; [|done].
  apply (rg_options_spec _ _ _ _ _ (le_n _)) in Hopt as (options & Hargs & Hconf & Hsize).
  match goal with Hh : ¬ (head _ ≠ _) |- _ => apply dec_stable in Hh; rename Hh into Hhead end.
  destruct rest as [|dashes rest]; [done|]. injection Hhead as ->.
  simpl in Hpat.
  assert (Hin : ∃ pattern, rest = pattern ++ rest' ∧ (length pattern ≤ 1)%nat).
  { revert Hpat. repeat case_match; try done; intros [= <-]; [|by exists [];simpl; auto with lia].
    subst. eexists [_]. done. }
  destruct Hin as (pattern & -> & Hone). exists (take 1 argv ++ options), pattern.
  assert (Hmem : ∀ x, x ∈ options → x ∈ take 1 argv ++ options) by (intros; apply elem_of_app; auto).
  split_and!; [|apply Hmem; by destruct (Hconf ltac:(done))|apply Hmem; by destruct (Hsize ltac:(done))|done].
  by rewrite <- app_assoc, <- Hargs, take_drop.
Qed.

(** ** Operands *)

Section Discovery.
Context `{SerdeJson, !JsonRead, Sha2, !JSpaceSerde, !JSpaceHost}.
Implicit Types (m : JSpaceMatcher) (fs : FileTree).

Definition below (root : string) (names : list string) : string := foldl path_join root names.

(** An operand a discovery command may read: visible names below the workspace
    and a discovery root, no symlink on the way, a plain file or a directory,
    and for [cat] a file of at most 1 MiB. *)
Definition readable fs (root tool cwd : string) (roots : list string) (operand : string)
    (names : list string) : Prop :=
  (∃ relative, strip_path_prefix (if is_absolute operand then operand else path_join cwd operand) root
               = Some relative
     ∧ components relative = Normal <$> names
     ∧ ∃ allowed, allowed ∈ roots ∧ path_starts_with relative allowed = true)
  ∧ Forall (λ name, starts_with "." name = false) names
  ∧ (∀ k, (0 < k ≤ length names)%nat → ∃ md, ft_symlink_metadata fs (below root (take k names)) = inr md
                                             ∧ md_type md ≠ FtSymlink)
  ∧ ∃ md, ft_metadata fs (below root names) = inr md
      ∧ (md_type md = FtFile ∨ md_type md = FtDirectory)
      ∧ (tool = "cat"%string → md_type md = FtFile ∧ md_len md ≤ 1024 * 1024).

Lemma visible_components cs :
  existsb hidden_or_special cs = false →
  ∃ names, cs = Normal <$> names ∧ Forall (λ name, starts_with "." name = false) names.
Proof.
  induction cs as [|c cs IH]; simpl; [by exists []|]. intros [Hc Hcs]%orb_false_iff.
  destruct (IH Hcs) as (names & -> & Hall). unfold hidden_or_special in Hc. guards.
  destruct c as [| | |name]; try done. exists (name :: names). auto.
Qed.

Lemma no_links_spec fs root operand names : ∀ current path,
  no_links_from fs root operand current (Normal <$> names) = Ok path →
  path = below current names
  ∧ ∀ k, (0 < k ≤ length names)%nat → ∃ md, ft_symlink_metadata fs (below current (take k names)) = inr md
                                            ∧ md_type md ≠ FtSymlink.
Proof.
  induction names as [|name names IH]; intros current path; simpl.
  { intros [= <-]. split; [done|lia]. }
  destruct (ft_symlink_metadata _ _) as [|md] eqn:Hmd; [done|]. case_bool_decide; [done|].
  intros [-> Hk]%IH. split; [done|]. intros [|k] Hlen; [lia|]. destruct (decide (k = 0)%nat) as [->|].
  - exists md. done.
  - apply Hk. lia.
Qed.

Lemma check_operand_spec fs m tool cwd roots operand :
  check_operand fs m tool cwd roots operand = Ok tt →
  ∃ names, readable fs (jm_repo_root m) tool cwd roots operand names
           ∧ check_path fs m "read" (below (jm_repo_root m) names) = Ok tt.
Proof.
  unfold check_operand. intros ([] & _ & Hc)%bind_Ok_inv.
  apply bind_Ok_inv in Hc as (relative & Hlex & Hc). apply bind_Ok_inv in Hc as ([] & Hroot & Hc).
  apply bind_Ok_inv in Hc as (path & Hlinks & Hc). apply bind_Ok_inv in Hc as ([] & Hread & Hc).
  apply bind_Ok_inv in Hc as (md & Hmeta & Hc). apply bind_Ok_inv in Hc as ([] & Htype & Hc).
  apply bind_Ok_inv in Hc as ([] & Hcat & Hlen). unfold lexical_operand in Hlex.
  apply bind_Ok_inv in Hlex as (rel & Hstrip%ok_or_Ok & Hlex).
  apply bind_Ok_inv in Hlex as ([] & Hvis & [= ->]). apply reject_if_Ok in Hvis, Hroot, Htype, Hcat, Hlen.
  apply visible_components in Hvis as (names & Hnames & Hall). unfold no_links in Hlinks.
  rewrite Hnames in Hlinks. apply no_links_spec in Hlinks as [-> Hk]. exists names. split; [|done].
  split; [|split; [done|split; [done|]]].
  - exists relative. split_and!; [done..|]. guards. apply existsb_exists in Hroot as (r & Hr & Hs).
    exists r. split; [by apply list_elem_of_In|done].
  - destruct (ft_metadata _ _) as [|md']; [done|]. injection Hmeta as ->. exists md. split; [done|].
    destruct (md_type md) eqn:Ht; try done; split; auto; intros ->; simpl in *; [|done].
    split; [done|]. by apply Z.ltb_ge in Hlen.
Qed.

Lemma check_operands_spec fs m tool cwd roots operands :
  check_operands fs m tool cwd roots operands = Ok tt →
  ∀ operand, operand ∈ operands → check_operand fs m tool cwd roots operand = Ok tt.
Proof.
  induction operands as [|o operands IH]; simpl.
  { intros _ operand Ho. by apply not_elem_of_nil in Ho. }
  intros ([] & Ho & Hrest)%bind_Ok_inv operand [->|Hin]%elem_of_cons; [done|by apply IH].
Qed.

(** The binary a discovery command runs: at its pinned place, with its pinned
    digest, and bounded arguments. *)
Definition pinned_command fs (policy : Value) (argv : list string) (tool : string)
    (paths : list string) : Prop :=
  ∃ program digest bytes, head argv = Some program
    ∧ tool_field policy tool "path" = Some program ∧ tool_field policy tool "sha256" = Some digest
    ∧ ft_read fs program = inr bytes ∧ sha256_hex bytes = digest ∧ canonical_at fs program = true
    ∧ (1 ≤ length paths ≤ 16)%nat
    ∧ if bool_decide (tool = "cat"%string) then ∃ before, argv = before ++ paths
      else rg_bounded argv paths.

Lemma read_check_spec fs m argv cwd :
  read_check fs m argv cwd = Ok tt →
  "read"%string ∈ jm_allowed_operations m
  ∧ ∃ policy tool roots paths, jm_read_commands m = Some policy ∧ read_validate policy = Ok roots
      ∧ pinned_command fs policy argv tool paths
      ∧ check_operands fs m tool cwd roots paths = Ok tt.
Proof.
  unfold read_check. intros ([] & Hop & Hc)%bind_Ok_inv.
  apply bind_Ok_inv in Hc as (policy & Hpolicy%ok_or_Ok & Hc).
  apply bind_Ok_inv in Hc as (tool & Htool%ok_or_Ok & Hc).
  destruct (tool_field policy tool "path") as [program|] eqn:Hprogram; [|done].
  destruct (tool_field policy tool "sha256") as [digest|] eqn:Hdigest; [|done].
  apply bind_Ok_inv in Hc as (bytes & Hbytes & Hc). apply bind_Ok_inv in Hc as ([] & Hid & Hc).
  apply bind_Ok_inv in Hc as (paths & Hpaths & Hc). apply bind_Ok_inv in Hc as (roots & Hroots & Hc).
  apply reject_if_Ok in Hid. split.
  { unfold check_operation, has_operation in Hop. outcome_inv. by guards. }
  exists policy, tool, roots, paths. split_and!; [done..| |done].
  apply find_Some in Htool as [_ Hprog%bool_decide_eq_true]. rewrite Hprogram in Hprog.
  injection Hprog as Hprog. exists program, digest, bytes. guards.
  destruct (ft_read fs program) as [|b]; [done|]. injection Hbytes as ->.
  assert (Hhead : (1 ≤ length paths)%nat ∧ (length paths ≤ 16)%nat ∧ argv ≠ []
    ∧ if bool_decide (tool = "cat"%string) then ∃ before, argv = before ++ paths else rg_bounded argv paths).
  { case_bool_decide.
    - apply cat_paths_spec in Hpaths as [[before ->] Hlen]. split_and!; [lia..| |by exists before].
      destruct before; [|done]. destruct paths; [simpl in *; lia|done].
    - apply rg_paths_spec in Hpaths as [Hb Hlen]. split_and!; [lia..| |done].
      destruct Hb as (options & pattern & -> & _). by destruct options. }
  destruct Hhead as (Hone & Hmax & Hne & Hargs). split_and!; try done; [|by apply dec_stable].
  destruct argv; [done|]. by rewrite Hprog.
Qed.

(** C30: an admitted discovery command runs the pinned [rg] or [cat], whose
    bytes have the pinned digest, on one to sixteen operands; each operand names
    visible files below the workspace and a discovery root with no symlink on
    the way, and the file it stands for is covered by a published read claim. *)
Theorem discovery_reads_what_is_claimed fs fs' session_root contract m argv cwd :
  FileTreeLaws fs → from_value fs' session_root contract = Ok m → clean_matcher m →
  read_check fs m argv cwd = Ok tt →
  "read"%string ∈ jm_allowed_operations m
  ∧ ∃ policy tool roots paths, jm_read_commands m = Some policy ∧ read_validate policy = Ok roots
      ∧ pinned_command fs policy argv tool paths
      ∧ ∀ operand, operand ∈ paths → ∃ names,
          readable fs (jm_repo_root m) tool cwd roots operand names
          ∧ ∃ root file, target_file fs m (below (jm_repo_root m) names) = Ok (abs_text (root ++ file))
              ∧ abs_text root ∈ admitted_roots m
              ∧ claims_cover (claim_path m root file) (sp_read_scopes (jm_scope_projection m)).
Proof.
  intros Hlaws Hm Hclean Hc. apply from_value_sound in Hm as [Hwf _].
  apply read_check_spec in Hc as (Hop & policy & tool & roots & paths & Hp & Hr & Hpin & Hc).
  split; [done|]. exists policy, tool, roots, paths. split_and!; [done..|]. intros operand Hin.
  pose proof (check_operands_spec _ _ _ _ _ _ Hc _ Hin) as Ho.
  apply check_operand_spec in Ho as (names & Hread & Hcheck). exists names. split; [done|].
  destruct (granted fs m _ _ Hlaws Hwf Hclean Hcheck) as (root & file & Hroot & _ & Hfile & Hcov).
  by exists root, file.
Qed.
End Discovery.
