(* ===== verification/JSpaceInstances.v ===== *)
(** * A concrete file tree and concrete readers

    Finite trees of directories, files and symlinks whose canonical paths obey
    what the theorems assume of [realpath], readers for the derived
    deserialisers that accept no value but an empty list, and a signer that puts
    the digests into a contract. *)

From stdpp Require Import base list strings gmap pretty.
From Stdlib Require Import ZArith Lia Ascii.
From S2P Require Import Prelude RustStd RustText RustPath Externals Instances TaskData TaskIdentity StoreInstances JSpaceScopes JSpaceJson JSpaceTemplates JSpaceVerifier JSpacePolicies JSpaceDigest JSpaceMatcher.
Open Scope Z_scope.

(** ** File trees *)

Inductive Entry := EDir | EFile (bytes : string) | ELink (target : list string).

Section Tree.
Context (entries : list (list string * Entry)).

Definition entry_at (names : list string) : option Entry :=
  match names with
  | [] => Some EDir
  | _ => snd <$> find (λ e : list string * Entry, bool_decide (e.1 = names)) entries
  end.

(** The names of a canonical path; links are followed at most [fuel] times. *)
Fixpoint follow (fuel : nat) : list string → list string → option (list string) :=
  fix walk (above names : list string) : option (list string) :=
    match names with
    | [] => _ ← entry_at above; Some above
    | name :: rest =>
        match entry_at (above ++ [name]) with
        | Some (ELink target) =>
            match fuel with O => None | S fuel => follow fuel [] (target ++ rest) end
        | Some _ => walk (above ++ [name]) rest
        | None => None
        end
    end.

Definition normal_nameb (name : string) : bool :=
  negb (is_empty name) && negb (bool_decide (name = ".")) && negb (bool_decide (name = ".."))
  && negb (has_char slash name).
Definition names_of (p : string) : option (list string) :=
  match components p with
  | RootDir :: rest => mapM (λ c, match c with Normal name => Some name | _ => None end) rest
  | _ => None
  end.

Definition followed (p : string) : option (list string) :=
  names ← names_of p; canonical ← follow 8 [] names;
  if forallb normal_nameb canonical then Some canonical else None.
Definition not_found : IoError :=
  {| io_not_found_kind := true; io_text := "No such file or directory (os error 2)" |}.
Definition entry_metadata (entry : Entry) : Metadata :=
  match entry with
  | EDir => {| md_type := FtDirectory; md_len := 96; md_mode := 493 |}
  | EFile bytes => {| md_type := FtFile; md_len := len bytes; md_mode := 493 |}
  | ELink target => {| md_type := FtSymlink; md_len := 1; md_mode := 511 |}
  end.
Definition observed {A} (o : option A) : IoError + A :=
  match o with Some a => inr a | None => inl not_found end.

Definition tree_fs (env : string → option string) : FileTree := {|
  ft_canonicalize p := observed (fmap (M:=option) abs_text (followed p));
  ft_metadata p := observed (fmap (M:=option) entry_metadata (followed p ≫= entry_at));
  ft_symlink_metadata p := observed (fmap (M:=option) entry_metadata (names_of p ≫= entry_at));
  ft_read p := observed ((followed p ≫= entry_at) ≫= λ entry,
                         match entry with EFile bytes => Some bytes | _ => None end);
  ft_env := env;
|}.

Lemma normal_nameb_spec name : normal_nameb name = true → normal_name name.
Proof. unfold normal_nameb. intros Hn. guards. by split. Qed.

Lemma tree_fs_laws env : FileTreeLaws (tree_fs env).
Proof.
  split. intros p q. change (ft_canonicalize _ p) with (observed (fmap (M:=option) abs_text (followed p))).
  destruct (followed p) as [canonical|] eqn:Hf; [|done]. intros [= <-]. exists canonical.
  split; [|done]. unfold followed in Hf. apply bind_Some in Hf as (names & _ & Hf).
  apply bind_Some in Hf as (found & _ & Hf).
  destruct (forallb normal_nameb found) eqn:Hall; [|done]. injection Hf as <-.
  rewrite forallb_forall in Hall. apply Forall_forall.
  intros name Hin%list_elem_of_In. by apply normal_nameb_spec, Hall.
Qed.
End Tree.

(** ** Readers *)

Definition number_reader : JsonRead (H:=json_z) := 
  Build_JsonRead json_z (λ n : Z, if (0 <=? n) && (n <? 2 ^ 64) then Some n else None).
Definition only_empty : JSpaceSerde (H:=json_z) := {|
  verifier_commands_from_value value :=
    match value with VArray [] => inr [] | _ => inl "invalid type"%string end;
  bindings_from_value value :=
    match value with VArray [] => inr [] | _ => inl "invalid type"%string end;
  bindings_to_value bindings := inr (VArray []);
|}.
Definition plain_host : JSpaceHost := {|
  binding_validate _ _ := None;
  debug_strings l := "[" +:+ join ", " l +:+ "]";
|}.

#[local] Existing Instances json_z json_text sha_poly number_reader only_empty plain_host.

(** ** Signed contracts *)

(** [contract] with the digests it has to claim. *)
Definition sign (fs : FileTree) (object : Map) : Value :=
  match authorization_semantic_sha256 fs (VObject object) with
  | Ok authorization =>
      let object := map_insert "authorization_semantic_sha256" (VString authorization) object in
      VObject (map_insert "content_sha256" (VString (semantic_sha256 (VObject object))) object)
  | _ => VObject object
  end.
Definition sign_legacy (object : Map) : Value :=
  VObject (map_insert "semantic_sha256" (VString (semantic_sha256 (VObject object))) object).

Definition fields (entries : list (string * Value)) : Map :=
  foldl (λ m f, map_insert f.1 f.2 m) [] entries.
(** What every contract has beside its grants. *)
Definition common (schema root : string) : list (string * Value) :=
  [("schema_version", VString schema); ("repo_root", VString root);
   ("dcf_generation", json_object [("repo_root", VString root)]); ("provenance", json_object []);
   ("matched_surface_ids", VArray []); ("focused_verifiers", VArray []);
   ("expansion", json_object [("mode", VString "exact_target_only");
                              ("error_code", VString JSPACE_EXPANSION_REQUIRED);
                              ("mutation_on_expansion", VBool false)])]%string.

Definition unwrap {A} (m : result A) (Hok : is_ok m = true) : A :=
  match m as m return is_ok m = true → A with
  | Ok a => λ _, a
  | _ => λ Hno, False_rect A (Bool.diff_false_true Hno)
  end Hok.
Lemma unwrap_ok {A} (m : result A) Hok : m = Ok (unwrap m Hok).
Proof. by destruct m. Qed.
