(* ===== verification/JSpaceWitnesses.v ===== *)
(** * Contracts that are admitted

    A small workspace with a legacy, a single-root and a multi-domain contract,
    and the theorems about admitted matchers applied to them. *)

From stdpp Require Import base list strings gmap pretty.
From Stdlib Require Import ZArith Lia Ascii.
From S2P Require Import Prelude RustStd RustText RustPath Externals Instances TaskData TaskIdentity StoreInstances JSpaceScopes JSpaceScopeFacts JSpaceClaimFacts JSpaceArgv JSpaceJson JSpaceTemplates JSpaceVerifier JSpacePolicies JSpaceDigest JSpaceMatcher JSpaceCompile JSpaceAdmission JSpaceSettles JSpaceMatcherFacts JSpaceIsolation JSpaceCommands JSpaceDiscovery JSpaceInstances.
Open Scope Z_scope.
Open Scope string_scope.

#[local] Existing Instances json_z json_text sha_poly number_reader only_empty plain_host.

(** ** The workspace *)

Definition workspace : FileTree :=
  tree_fs [(["r"], EDir); (["r"; "src"], EDir); (["r"; "src"; "a.rs"], EFile "fn main() {}");
           (["r"; "docs"], EDir); (["r"; "docs"; "n.md"], EFile "notes");
           (["r"; "out"], ELink ["tmp"]); (["tmp"], EDir); (["tmp"; "x"], EFile "");
           (["g"], EDir); (["g"; "repo.git"], EDir); (["g"; "trees"], EDir);
           (["g"; "trees"; "t1"], EDir); (["bin"], EDir); (["bin"; "rg"], EFile "rg bytes");
           (["bin"; "cat"], EFile "cat bytes")] (λ _, None).
Lemma workspace_laws : FileTreeLaws workspace.
Proof. apply tree_fs_laws. Qed.

Definition strings_field (key : string) (l : list string) : string * Value := (key, json_strings l).

(** ** A legacy contract: edits below [src] *)

Definition editor_contract_at (root write_scope target : string) : Value :=
  sign_legacy (fields (common JSPACE_LEGACY_SCHEMA_VERSION root ++
    [strings_field "allowed_operations" ["read"; "modify"; "command"];
     strings_field "denied_operations" ["network"];
     strings_field "read_scopes" ["docs/**"]; strings_field "write_scopes" [write_scope];
     strings_field "declared_targets" [target]; strings_field "command_prefixes" ["git status"]])).
Definition editor_contract : string → string → Value := editor_contract_at "/r".
Lemma editor_is_admitted : is_ok (from_value workspace "/r" (editor_contract "src/**" "src/a.rs")) = true.
Proof. vm_compute. reflexivity. Qed.
Definition editor : JSpaceMatcher := Eval vm_compute in unwrap _ editor_is_admitted.
Lemma editor_admitted : from_value workspace "/r" (editor_contract "src/**" "src/a.rs") = Ok editor.
Proof. vm_compute. reflexivity. Qed.
Lemma other_editor_is_admitted : is_ok (from_value workspace "/r" (editor_contract "lib/b.rs" "lib/b.rs")) = true.
Proof. vm_compute. reflexivity. Qed.
Definition other_editor : JSpaceMatcher := Eval vm_compute in unwrap _ other_editor_is_admitted.
Lemma other_editor_admitted : from_value workspace "/r" (editor_contract "lib/b.rs" "lib/b.rs") = Ok other_editor.
Proof. vm_compute. reflexivity. Qed.

(** ** A single-root contract: discovery and one exact command *)

Definition pinned (path : string) : Value :=
  json_object [("path", VString path);
               ("sha256", VString (match ft_read workspace path with
                                   | inr bytes => sha256_hex bytes | inl _ => "" end))].
Definition command_target (domain : list (string * Value)) (operation path : string) (index : Z) : Value :=
  json_object (domain ++ [("operation", VString operation); ("path", VString path);
                          ("argv_index", VNumber (index : @Number json_z))]).
Definition reader_contract : Value :=
  sign workspace (fields (common JSPACE_SINGLE_ROOT_SCHEMA_VERSION "/r" ++
    [strings_field "allowed_operations" ["read"; "modify"; "command"];
     strings_field "denied_operations" ["network"];
     strings_field "read_scopes" ["src/**"; "docs/**"]; strings_field "write_scopes" ["src/a.rs"];
     strings_field "declared_targets" ["src/a.rs"];
     ("command_templates", VArray [json_object
        [strings_field "argv" ["rustfmt"; "src/a.rs"]; strings_field "effects" ["read"; "modify"];
         ("targets", VArray [command_target [] "modify" "src/a.rs" 1])]]);
     ("read_commands", json_object [strings_field "roots" ["src"; "docs"];
                                    ("rg", pinned "/bin/rg"); ("cat", pinned "/bin/cat")])])).
Lemma reader_is_admitted : is_ok (from_value workspace "/r" reader_contract) = true.
Proof. vm_compute. reflexivity. Qed.
Definition reader : JSpaceMatcher := Eval vm_compute in unwrap _ reader_is_admitted.
Lemma reader_admitted : from_value workspace "/r" reader_contract = Ok reader.
Proof. vm_compute. reflexivity. Qed.

(** ** A multi-domain contract: the removal of a worktree *)

Definition in_repo : list (string * Value) := [("domain_id", VString "repo"); ("binding", VString "argv")].
Definition remover_contract : Value :=
  sign workspace (fields (common JSPACE_SCHEMA_VERSION "/r" ++
    [strings_field "allowed_operations" ["command"]; strings_field "denied_operations" ["network"];
     ("effect_capabilities", VArray [json_object
        [("domain_id", VString "repo"); ("root", VString "/g");
         strings_field "read_scopes" ["repo.git"];
         strings_field "write_scopes" ["repo.git"; "trees/t1"];
         strings_field "declared_targets" ["repo.git"; "trees/t1"];
         strings_field "allowed_operations" ["read"; "delete"]]]);
     ("command_templates", VArray [json_object
        [strings_field "argv" ["git"; "--git-dir"; "/g/repo.git"; "worktree"; "remove"; "/g/trees/t1"];
         strings_field "effects" ["read"; "delete"];
         ("targets", VArray [command_target in_repo "read" "/g/repo.git" 2;
                             command_target in_repo "delete" "/g/repo.git" 2;
                             command_target in_repo "delete" "/g/trees/t1" 5])]])])).
Lemma remover_is_admitted : is_ok (from_value workspace "/r" remover_contract) = true.
Proof. vm_compute. reflexivity. Qed.
Definition remover : JSpaceMatcher := Eval vm_compute in unwrap _ remover_is_admitted.
Lemma remover_admitted : from_value workspace "/r" remover_contract = Ok remover.
Proof. vm_compute. reflexivity. Qed.

(** ** What the theorems say of them *)

Lemma single_clean m : is_multi_domain m = false → jm_repo_root m = "/r" → clean_matcher m.
Proof.
  intros Hm Hroot. split; [|by rewrite Hm]. unfold admitted_roots. rewrite Hm, Hroot.
  repeat constructor. by exists ["r"]; repeat constructor.
Qed.

Lemma abs_text_g names : abs_text names = "/g" → names = ["g"].
Proof.
  unfold abs_text. intros Heq. injection Heq as Heq. change (join "/" names = "g") in Heq.
  destruct names as [|x [|y names]]; [done|by change (x = "g") in Heq; subst|].
  exfalso. change (x +:+ String slash (join "/" (y :: names)) = "g") in Heq.
  by destruct x as [|a [|b x]].
Qed.
Lemma remover_clean : clean_matcher remover.
Proof.
  split.
  - repeat constructor. by exists ["g"]; repeat constructor.
  - intros names c scope _ Hc Hroot Hs. apply list_elem_of_singleton in Hc as ->.
    symmetry in Hroot. change (abs_text names = "/g") in Hroot. apply abs_text_g in Hroot as ->. revert scope Hs.
    assert (Forall (λ scope, faithful_scope ["g"] scope = true) ["repo.git"; "repo.git"; "trees/t1"]) as Hall
      by (repeat constructor).
    intros scope Hs. rewrite Forall_forall in Hall. by apply Hall.
Qed.

Lemma conflict_is_a_common_path_witness :
  ∃ path, claims_cover path ["src/**"] ∧ claims_cover path (["src/lib.rs"] ++ []).
Proof.
  destruct (conflict_is_a_common_path {| sp_read_scopes := []; sp_write_scopes := ["src/**"] |}
              {| sp_read_scopes := ["src/lib.rs"]; sp_write_scopes := [] |} true) as [Hc _];
    [vm_compute; reflexivity|].
  destruct (Hc eq_refl) as (path & [?|[(claim & Hno & _) _]]); [by exists path|].
  by apply not_elem_of_nil in Hno.
Defined.

Lemma admission_always_answers_witness :
  from_value workspace "/r" reader_contract = Ok reader
  ∧ settles (check_command workspace reader "shell_command" "rustfmt src/a.rs").
Proof.
  split; [exact reader_admitted|].
  destruct (admission_always_answers workspace "/r" reader_contract) as [_ Hall].
  destruct (Hall reader workspace reader_admitted) as (_ & Hc & _). exact (Hc _ _).
Defined.

Lemma admitted_matcher_wf_witness :
  from_value workspace "/r" reader_contract = Ok reader ∧ matcher_wf reader.
Proof.
  split; [exact reader_admitted|].
  exact (admitted_matcher_wf workspace "/r" reader_contract reader reader_admitted).
Defined.

Lemma check_path_exact_witness :
  check_path workspace editor "modify" "src/a.rs" = Ok tt
  ∧ ∃ writes targets, scopes_of (editor_contract "src/**" "src/a.rs") "write_scopes" writes
      ∧ targets_of (editor_contract "src/**" "src/a.rs") targets
      ∧ in_scopes writes "src/a.rs" = true ∧ in_scopes targets "src/a.rs" = true.
Proof.
  assert (Hc : check_path workspace editor "modify" "src/a.rs" = Ok tt) by (vm_compute; reflexivity).
  split; [done|]. destruct (check_path_exact workspace workspace "/r" _ editor editor_admitted eq_refl)
    as (reads & writes & targets & _ & Hw & Ht & Hiff).
  exists writes, targets. 
  destruct (proj1 (Hiff _ _) Hc) as (_ & relative & Hres & Hin). vm_compute in Hres.
  injection Hres as <-. done.
Defined.


Lemma admitted_writers_are_isolated_witness :
  target_file workspace editor "src/a.rs" = Ok "/r/src/a.rs"
  ∧ target_file workspace other_editor "docs/n.md" ≠ Ok "/r/src/a.rs".
Proof.
  assert (Hf : target_file workspace editor "src/a.rs" = Ok "/r/src/a.rs") by (vm_compute; reflexivity).
  split; [done|].
  apply (admitted_writers_are_isolated workspace workspace workspace workspace "/r" "/r"
           (editor_contract "src/**" "src/a.rs") (editor_contract "lib/b.rs" "lib/b.rs")
           editor other_editor "modify" "read" "src/a.rs");
    [apply workspace_laws|apply workspace_laws|exact editor_admitted|exact other_editor_admitted
    |by apply single_clean|by apply single_clean|reflexivity|reflexivity| |done| | |done];
    vm_compute; reflexivity.
Defined.

(** Projections of single-domain contracts are relative to their root: two
    contracts on nested roots that may write one file do not conflict. *)
Lemma nested_is_admitted : is_ok (from_value workspace "/r/src" (editor_contract_at "/r/src" "a.rs" "a.rs")) = true.
Proof. vm_compute. reflexivity. Qed.
Definition nested_editor : JSpaceMatcher := Eval vm_compute in unwrap _ nested_is_admitted.
Example nested_roots_do_not_conflict :
  scope_projections_conflict (jm_scope_projection editor) (jm_scope_projection nested_editor) = Ok false
  ∧ check_path workspace editor "modify" "src/a.rs" = Ok tt
  ∧ check_path workspace nested_editor "modify" "a.rs" = Ok tt
  ∧ target_file workspace editor "src/a.rs" = Ok "/r/src/a.rs"
  ∧ target_file workspace nested_editor "a.rs" = Ok "/r/src/a.rs".
Proof. vm_compute. by split_and!. Qed.

Lemma shell_lines_run_as_admitted_witness :
  check_command workspace reader "shell_command" "rustfmt src/a.rs" = Ok tt
  ∧ template_granted workspace reader ["rustfmt"; "src/a.rs"] None.
Proof.
  assert (Hc : check_command workspace reader "shell_command" "rustfmt src/a.rs" = Ok tt)
    by (vm_compute; reflexivity).
  split; [done|].
  destruct (shell_lines_run_as_admitted workspace workspace "/r" reader_contract reader "shell_command"
              "rustfmt src/a.rs" reader_admitted eq_refl Hc)
    as (_ & [(policy & Hno & _)|[[Hno _]|(argv & Hargv & Hroute)]]); [done..|].
  vm_compute in Hargv. injection Hargv as <-. destruct Hroute as [(_ & Hall & _)|Hroute]; [|done].
  rewrite Forall_forall in Hall. destruct (Hall _ (list_elem_of_here _ _)). reflexivity.
Defined.

Lemma multi_domain_commands_witness :
  ∃ template git_dir worktree, template ∈ jm_command_templates remover
    ∧ tm_argv template = ["git"; "--git-dir"; git_dir; "worktree"; "remove"; worktree]
    ∧ ∃ domain, check_effect_path workspace remover "delete" worktree domain = Ok tt.
Proof.
  destruct (multi_domain_commands workspace workspace "/r" remover_contract remover
              (default (Build_CommandTemplate [] [] []) (head (jm_command_templates remover))) "git")
    as (git_dir & worktree & Hargv & Hdelete & _);
    [exact remover_admitted|reflexivity|by left|vm_compute; reflexivity|].
  eexists _, git_dir, worktree. split; [by left|done].
Defined.

Lemma discovery_reads_what_is_claimed_witness :
  ∃ names root file, target_file workspace reader (below "/r" names) = Ok (abs_text (root ++ file))
    ∧ claims_cover (claim_path reader root file) ["docs/**"; "src/**"].
Proof.
  destruct (discovery_reads_what_is_claimed workspace workspace "/r" reader_contract reader
              ["/bin/rg"; "--no-config"; "--max-filesize=1M"; "--"; "fn"; "src"] "/r")
    as (_ & policy & tool & roots & paths & _ & _ & (program & digest & bytes & H) & Hops);
    [apply workspace_laws|exact reader_admitted|by apply single_clean|vm_compute; reflexivity|].
  destruct paths as [|operand paths]; [destruct H as (_ & _ & _ & _ & _ & _ & [Hlen _] & _); simpl in Hlen; lia|].
  destruct (Hops operand (list_elem_of_here _ _)) as (names & _ & root & file & Hfile & _ & Hcov).
  by exists names, root, file.
Defined.

Definition edit_contract : Value := editor_contract "src/**" "src/a.rs".
Definition edit_request : Request :=
  {| rq_session_id := "s"; rq_session_root := "/r"; rq_contract := Some edit_contract |}.
Definition edit_cache : JSpaceAdmissionCache :=
  {| ac_entries := {["s" := {| ca_matcher := editor;
                               ca_canonical_contract := canonical_json edit_contract |}]};
     ac_admissions := 1 |}.
Lemma edit_admission :
  admission workspace "s" "/r" (Some edit_contract) empty_cache = (Ok (Some editor), edit_cache).
Proof. vm_compute. reflexivity. Qed.

Lemma admission_binds_sessions_witness :
  ∃ sys, cache_reachable sys ∧ cs_threads sys !! O = Some (Answered edit_request (Ok (Some editor)))
    ∧ ∃ contract entry, rq_contract edit_request = Some contract
        ∧ compiled_from editor (canonical_json contract)
        ∧ ac_entries (cs_cache sys) !! "s" = Some entry ∧ same_binding (ca_matcher entry) editor.
Proof.
  destruct (admission_steps workspace "s" "/r" (Some edit_contract) empty_cache
              (Ok (Some editor)) edit_cache O {[O := Requested edit_request]}) as (threads & Hsteps & Hn);
    [exact edit_admission|apply lookup_insert_eq|].
  assert (Hr : cache_reachable {| cs_cache := edit_cache; cs_threads := threads |}).
  { eapply rtc_l; [apply (cache_request initial_system O edit_request); reflexivity|exact Hsteps]. }
  eexists. split; [exact Hr|]. split; [exact Hn|].
  destruct (admission_binds_sessions _ _ Hr (rtc_refl _ _)) as (_ & Hall & _).
  destruct (Hall O edit_request editor Hn) as (contract & entry & H1 & H2 & H3 & H4).
  by exists contract, entry.
Defined.
