(* ===== verification/CommandSafety.v ===== *)
(** * The command interceptor of the shell tools

    [tools/src/commands/command_safety.rs]: before a shell line is spawned,
    [is_dangerous_command_with_workspace] reads its text and answers with a
    reason to refuse it, or lets it run.  The scan splits a line at connectors,
    reads each segment into words, looks through wrappers, nested shells,
    [eval], substitutions, simple variables and library calls, and judges the
    base command.  A verdict is an [outcome] without errors: a reason, none, or
    a panic (only [extract_library_shell_commands] indexes a vector with an
    offset that can be out of range).  [HashMap] is [gmap]: no order is used. *)

From stdpp Require Import base list strings gmap sorting.
From Stdlib Require Import ZArith Lia Ascii.
From S2P Require Import Prelude RustStd RustText.
Local Open Scope nat_scope.

(** ** Constants *)

Definition DISABLE_ENV : string := "TURA_COMMAND_INTERCEPTOR_DISABLED".
Definition WRAPPERS : list string :=
  ["sudo"; "doas"; "env"; "nohup"; "nice"; "ionice"; "time"; "timeout"; "stdbuf"; "setsid";
   "command"; "exec"; "xargs"].
Definition NESTED_SHELLS : list string := ["bash"; "sh"; "zsh"; "dash"; "ksh"; "ash"].
Definition POWERSHELL_SHELLS : list string := ["powershell"; "pwsh"].
Definition SYSTEM_PATHS : list string :=
  ["/"; "/*"; "~"; "~/"; "$HOME"; "${HOME}"; "/etc"; "/usr"; "/bin"; "/sbin"; "/lib"; "/lib64";
   "/var"; "/boot"; "/sys"; "/proc"; "/dev"; "/root"; "/home"; "c:\"; "c:/"; "c:\windows";
   "c:/windows"; "c:\windows\system32"; "c:/windows/system32"; "%systemroot%"; "%windir%"].

(** ASCII characters the scan compares with. *)
Definition ch (n : nat) : ascii := ascii_of_nat n.
Definition squote : ascii := ch 39.
Definition dquote : ascii := ch 34.
Definition bslash : ascii := ch 92.
Definition bquote : ascii := ch 96.
Definition dollar : ascii := ch 36.
Definition open_paren : ascii := ch 40.
Definition close_paren : ascii := ch 41.
Definition fslash : ascii := ch 47.
Definition dash : ascii := ch 45.
Definition colon : ascii := ch 58.
Definition equals_sign : ascii := ch 61.
Definition line_feed : ascii := ch 10.
Definition semicolon : ascii := ch 59.
Definition pipe : ascii := ch 124.
Definition ampersand : ascii := ch 38.

(** A [char] equal to an ASCII character. *)
Definition is_chr (a : ascii) (c : string) : bool := bool_decide (c = ascii_char a).

Record SafetyContext := { cwd : string; workspace_root : string }.
Definition SafetyContext_new (cwd workspace_root : string) : SafetyContext :=
  {| cwd := cwd; workspace_root := workspace_root |}.

(** ** Flags and names *)

Definition base_name (token : string) : string :=
  let normalized := replace_char bslash fslash token in
  let tail := default normalized (last (split_char fslash normalized)) in
  to_ascii_lowercase (default tail (strip_suffix ".exe" tail)).

Definition short_flag (args : list string) (flag : ascii) : bool :=
  existsb (λ arg,
    starts_with "-" arg && negb (starts_with "--" arg)
    && forallb is_ascii_alphabetic (chars (text_drop 1 arg))
    && has_char flag (text_drop 1 arg)) args.
Definition long_flag (args : list string) (flag : string) : bool := contains args flag.

Definition is_powershell_flag (arg name : string) : bool :=
  match strip_prefix "-" arg with
  | Some rest =>
      let rest := trim_end_set [colon] rest in
      negb (is_empty rest) && starts_with (to_ascii_lowercase rest) name
  | None => false
  end.

Definition is_name_char (c : string) : bool := is_ascii_alphanumeric c || bool_decide (c = "_").
Definition is_assignment (token : string) : bool :=
  match find_char equals_sign token with
  | Some eq =>
      let name := text_take eq token in
      negb (is_empty name) && forallb is_name_char (chars name)
  | None => false
  end.
Definition is_duration (token : string) : bool :=
  let trimmed := trim_end_set (ch <$> [115; 109; 104; 100]) token in
  negb (is_empty trimmed)
  && forallb (λ c, is_ascii_digit c || bool_decide (c = ".")) (chars trimmed).

(** ** Removal targets *)

Fixpoint posix_targets_from (after_double_dash : bool) (args : list string) : list string :=
  match args with
  | [] => []
  | arg :: rest =>
      if after_double_dash then arg :: posix_targets_from true rest
      else if bool_decide (arg = "--") then posix_targets_from true rest
      else if starts_with "-" arg then posix_targets_from false rest
      else arg :: posix_targets_from false rest
  end.
Definition posix_removal_targets (args : list string) : list string :=
  posix_targets_from false args.

Definition split_powershell_target_list (value : string) : list string :=
  filter (λ target, is_empty target = false)
    ((λ target, trim_set [dquote; squote] (trim target)) <$> split_char (ch 44) value).

Fixpoint powershell_removal_targets (args : list string) : list string :=
  match args with
  | [] => []
  | arg :: rest =>
      if starts_with "/" arg then powershell_removal_targets rest else
      let lower := to_ascii_lowercase (trim_start_set [dash] arg) in
      if contains ["force"; "recurse"; "confirm"; "whatif"; "verbose"; "erroraction"; "ea"]
           (trim_end_set [colon] lower)
      then
        match rest with
        | _ :: rest' =>
            if contains ["erroraction"; "ea"] lower then powershell_removal_targets rest'
            else powershell_removal_targets rest
        | [] => []
        end
      else
        let other :=
          if starts_with "-" arg then
            (match split_once colon lower with
             | Some (name, value) =>
                 if contains ["path"; "literalpath"] name && negb (is_empty value)
                 then split_powershell_target_list value else []
             | None => []
             end) ++ powershell_removal_targets rest
          else split_powershell_target_list arg ++ powershell_removal_targets rest in
        match rest with
        | value :: rest' =>
            if contains ["path"; "literalpath"] lower
            then split_powershell_target_list value ++ powershell_removal_targets rest'
            else other
        | [] => other
        end
  end.

Definition cmd_removal_targets (args : list string) : list string :=
  mjoin (split_powershell_target_list <$> filter (λ arg, starts_with "/" arg = false) args).

Definition is_batch_removal (targets : list string) : bool :=
  (1 <? length targets)
  || existsb (λ target, has_char (ch 42) target || has_char (ch 63) target) targets.

(** ** Paths *)

Definition is_drive (text : string) : bool := bool_decide (byte_at 1 text = Some colon).

Definition is_absolute_path_text (path : string) : bool :=
  let path := replace_char bslash fslash path in
  starts_with "/" path || starts_with "//" path || is_drive path.

Definition path_inside_normalized (path root : string) : bool :=
  let path := trim_end_set [fslash] path in
  let root := trim_end_set [fslash] root in
  eq_ignore_case path root
  || starts_with (to_ascii_lowercase root +:+ "/") (to_ascii_lowercase path).

(** The loop over [rest.split('/')]. *)
Definition push_part (parts : list string) (part : string) : list string :=
  if is_empty part || bool_decide (part = ".") then parts
  else if bool_decide (part = "..") then removelast parts
  else parts ++ [part].

Definition normalize_compare_path (path : string) : string :=
  let text := replace_char bslash fslash path in
  let text :=
    if is_drive text && bool_decide (byte_at 2 text ≠ Some fslash)
    then text_take 2 text +:+ "/" +:+ text_drop 2 text else text in
  let text := default text (strip_prefix "//?/" text) in
  let prefix :=
    if is_drive text then to_ascii_lowercase (text_take 2 text)
    else if starts_with "/" text then "/" else "" in
  let rest := if is_drive text then text_drop 2 text else text in
  let parts := foldl push_part [] (split_char fslash rest) in
  if bool_decide (prefix = "/") then trim_end_set [fslash] ("/" +:+ join "/" parts)
  else if is_empty prefix then join "/" parts
  else if bool_decide (parts = []) then prefix
  else prefix +:+ "/" +:+ join "/" parts.

Definition target_inside_workspace (target : string) (context : SafetyContext) : bool :=
  let target := trim_set [dquote; squote] (trim target) in
  if is_empty target || starts_with "$" target || starts_with "%" target || starts_with "~" target
  then false else
  let workspace := normalize_compare_path (workspace_root context) in
  let cwd := normalize_compare_path (cwd context) in
  if is_empty workspace then false else
  let resolved :=
    if is_absolute_path_text target then normalize_compare_path target
    else normalize_compare_path (cwd +:+ "/" +:+ target) in
  path_inside_normalized resolved workspace.

Definition deletion_targets_inside_workspace (targets : list string)
    (context : option SafetyContext) : bool :=
  match context with
  | None => false
  | Some context =>
      negb (bool_decide (targets = []))
      && forallb (λ target, target_inside_workspace target context) targets
  end.

Definition normalize_system_operand (arg : string) : string :=
  let normalized :=
    to_ascii_lowercase (trim_end_set [fslash] (replace_char bslash fslash
      (trim_set [dquote; squote] arg))) in
  if is_empty normalized then "/" else normalized.
Definition targets_system_path (args : list string) : bool :=
  existsb (λ arg,
    if starts_with "-" arg then false else
    existsb (λ path, eq_ignore_case (normalize_system_operand arg) (trim_end_set [fslash] path))
      SYSTEM_PATHS) args.

(** ** Base commands *)

Section Base.
Context (base : string) (args : list string).

Definition is_base (names : list string) : bool := contains names base.
(** [format!("{before}{base}{after}")]. *)
Definition with_base (before after : string) : option string :=
  Some (before +:+ base +:+ after).

Definition check_unix_base (context : option SafetyContext) : option string :=
  if is_base ["rm"] then
    let recursive := short_flag args (ch 114) || long_flag args "--recursive" in
    let force := short_flag args (ch 102) || long_flag args "--force" in
    if targets_system_path args then Some "removal targeting a system path"
    else if deletion_targets_inside_workspace (posix_removal_targets args) context then None
    else if recursive || force then Some "recursive/forced file removal (rm)"
    else if is_batch_removal (posix_removal_targets args)
    then Some "batch removal outside workspace (rm)"
    else None
  else if is_base ["rmdir"] && targets_system_path args
  then Some "rmdir targeting a system path"
  else if is_base ["rmdir"]
          && deletion_targets_inside_workspace (posix_removal_targets args) context then None
  else if is_base ["rmdir"] && is_batch_removal (posix_removal_targets args)
  then Some "batch rmdir outside workspace"
  else if is_base ["shutdown"; "reboot"; "halt"; "poweroff"]
  then with_base "system power control (`" "`)"
  else if is_base ["init"; "telinit"] && existsb (λ a, contains ["0"; "6"] a) args
  then Some "runlevel change to halt/reboot"
  else if is_base ["dd"]
          && existsb (λ a, starts_with "of=/dev/" (to_ascii_lowercase a)) args
  then Some "dd writing directly to a device"
  else if is_base ["mkfs"; "wipefs"; "fdisk"; "parted"; "sgdisk"; "shred"]
          && existsb (λ a, starts_with "/dev/" a) args
  then with_base "destructive disk operation (`" "`)"
  else if is_base ["diskutil"]
          && match args with arg :: _ => contains ["eraseDisk"; "partitionDisk"] arg | [] => false end
  then Some "destructive disk operation (`diskutil`)"
  else if starts_with "mkfs." base then Some "filesystem creation (mkfs)"
  else if is_base ["chmod"; "chown"; "chgrp"]
          && (short_flag args (ch 82) || long_flag args "--recursive")
          && targets_system_path args
  then with_base "recursive ownership/permission change on a system path (`" "`)"
  else None.

Definition check_windows_base (segment : string) (context : option SafetyContext) : option string :=
  let lower := to_ascii_lowercase segment in
  if is_base ["remove-item"; "ri"; "rd"; "rmdir"; "del"; "erase"] then
    if targets_system_path args then with_base "removal targeting a system path (`" "`)" else
    let targets := powershell_removal_targets args in
    if deletion_targets_inside_workspace targets context then None
    else if existsb (λ a, is_powershell_flag a "force" || is_powershell_flag a "recurse") args
    then with_base "forced/recursive removal (`" "`)"
    else if is_batch_removal targets
    then with_base "batch removal outside workspace (`" "`)"
    else None
  else if is_base ["invoke-expression"; "iex"] then
    if existsb (λ needle, contains_text needle lower)
         ["downloadstring"; "invoke-webrequest"; "iwr"; "invoke-restmethod"; "http://"; "https://"]
    then Some "remote download piped into Invoke-Expression" else None
  else if is_base ["format-volume"; "clear-disk"; "remove-partition"; "initialize-disk";
                   "remove-volume"; "diskpart"]
  then with_base "destructive disk cmdlet (`" "`)"
  else None.

Definition check_cmd_base (segment : string) (context : option SafetyContext) : option string :=
  let lower := to_ascii_lowercase segment in
  if is_base ["del"; "erase"] && targets_system_path args
  then Some "cmd delete targeting a system path"
  else if is_base ["del"; "erase"]
          && deletion_targets_inside_workspace (cmd_removal_targets args) context then None
  else if is_base ["del"; "erase"] && existsb (λ a, eq_ignore_case a "/f") args
  then Some "forced delete (cmd del /f)"
  else if is_base ["rd"; "rmdir"] && targets_system_path args
  then Some "cmd rmdir targeting a system path"
  else if is_base ["rd"; "rmdir"]
          && deletion_targets_inside_workspace (cmd_removal_targets args) context then None
  else if is_base ["rd"; "rmdir"]
          && existsb (λ a, eq_ignore_case a "/s" || eq_ignore_case a "/q") args
  then Some "recursive directory removal (cmd rd /s)"
  else if is_base ["format"] && has_char colon lower then Some "drive format (cmd format)"
  else None.
End Base.

Example target_examples :
  posix_removal_targets ["-rf"; "a"; "--"; "-b"] = ["a"; "-b"]
  ∧ powershell_removal_targets ["-Path"; "a,'b'"; "-Force"; "-ErrorAction"; "Stop"; "c"]
    = ["a"; "b"; "c"]
  ∧ base_name "C:\Windows\RM.exe" = "rm" ∧ base_name "/bin/sh" = "sh"
  ∧ normalize_compare_path "/a/./b//../c/" = "/a/c"
  ∧ normalize_compare_path "C:\A\..\b" = "c:/b"
  ∧ normalize_compare_path "c:x" = "c:/x" ∧ normalize_compare_path "/" = ""
  ∧ targets_system_path ["-f"; "/ETC//"] = true
  ∧ targets_system_path ["/"] = false.
Proof. vm_compute. by split_and!. Qed.
