(* ===== verification/CommandText.v ===== *)
(** * Reading a command line: words, segments, substitutions, library calls

    The text half of [command_safety.rs].  The readers walk over characters
    ([str::chars]), except the two of library calls, which walk over bytes.
    Loops whose index jumps get as much fuel as there are characters left; each
    round passes at least one ([CommandTextFacts]). *)

From stdpp Require Import base list strings gmap sorting.
From Stdlib Require Import ZArith Lia Ascii.
From S2P Require Import Prelude RustStd RustText CommandSafety.
Local Open Scope nat_scope.

(** ** Patterns of the whole text *)

(** [chars.collect::<String>()]. *)
Definition text_of (characters : list string) : string := String.concat "" characters.

Definition is_fork_bomb (segment : string) : bool :=
  let condensed := text_of (filter (λ c, is_whitespace c = false) (chars segment)) in
  contains_text ":(){:|:&};:" condensed || contains_text ":(){:|:&}" condensed.

(** The text before the first white space. *)
Fixpoint until_whitespace (characters : list string) : list string :=
  match characters with
  | [] => []
  | c :: rest => if is_whitespace c then [] else c :: until_whitespace rest
  end.
Definition DEVICES : list string := ["/dev/sd"; "/dev/nvme"; "/dev/hd"; "/dev/disk"; "/dev/vd"].
Fixpoint redirect_to_block_device (segment : string) : option string :=
  match segment with
  | EmptyString => None
  | String byte after =>
      if Ascii.eqb byte (ch 62) then
        let rest := trim_start_set (ch <$> [62; 38; 32; 9]) after in
        if existsb (λ device, starts_with device rest) DEVICES
        then Some (text_of (until_whitespace (chars rest)))
        else redirect_to_block_device after
      else redirect_to_block_device after
  end.

Definition mentions (needles : list string) (lower : string) : bool :=
  existsb (λ needle, contains_text needle lower) needles.

Definition download_pipe_to_shell (segment : string) : option string :=
  let lower := to_ascii_lowercase segment in
  if negb (has_char pipe lower) then None else
  let fetches := ["curl "; "wget "; "fetch "; "invoke-webrequest"; "iwr "] in
  let shells := ["| sh"; "|sh"; "| bash"; "|bash"; "| zsh"; "|zsh"; "| python"; "|python"] in
  if mentions fetches lower && mentions shells lower
  then Some "remote download piped into a shell" else None.

Definition decoder_pipe_to_shell (segment : string) : option string :=
  let lower := to_ascii_lowercase segment in
  if negb (has_char pipe lower) then None else
  let decoders :=
    ["base64 -d"; "base64 --decode"; "base64 -decode"; "openssl base64 -d";
     "openssl enc -d -base64"; "certutil -decode"] in
  let shells :=
    ["| sh"; "|sh"; "| /bin/sh"; "|/bin/sh"; "| bash"; "|bash"; "| /bin/bash"; "|/bin/bash";
     "| zsh"; "|zsh"; "| dash"; "|dash"; "| ksh"; "|ksh"; "| ash"; "|ash"; "| python"; "|python";
     "| python3"; "|python3"; "| perl"; "|perl"; "| ruby"; "|ruby"; "| node"; "|node";
     "| powershell"; "|powershell"; "| pwsh"; "|pwsh"; "| cmd"; "|cmd"] in
  if mentions decoders lower && mentions shells lower
  then Some "local decoder piped into a shell" else None.

(** ** Words and segments *)

Fixpoint tokenize_loop (characters : list string) (single double escaped started : bool)
    (current : string) (tokens : list string) : option (list string) :=
  match characters with
  | [] =>
      if single || double then None
      else Some (if started then tokens ++ [current] else tokens)
  | c :: rest =>
      if escaped then tokenize_loop rest single double false true (current +:+ c) tokens
      else if is_chr bslash c && negb single
      then tokenize_loop rest single double true true current tokens
      else if is_chr squote c && negb double
      then tokenize_loop rest (negb single) double false true current tokens
      else if is_chr dquote c && negb single
      then tokenize_loop rest single (negb double) false true current tokens
      else if is_whitespace c && negb single && negb double then
        if started then tokenize_loop rest single double false false "" (tokens ++ [current])
        else tokenize_loop rest single double false started current tokens
      else tokenize_loop rest single double false true (current +:+ c) tokens
  end.
Definition tokenize (segment : string) : option (list string) :=
  tokenize_loop (chars segment) false false false false "" [].

(** The loop of [split_segments]; [current] is pushed as the last segment. *)
Fixpoint split_loop (characters : list string) (single double escaped backtick : bool)
    (paren_depth : nat) (current : string) (segments : list string) : list string :=
  match characters with
  | [] => segments ++ [current]
  | c :: rest =>
      let push := current +:+ c in
      if escaped then split_loop rest single double false backtick paren_depth push segments
      else if is_chr bslash c && negb single
      then split_loop rest single double true backtick paren_depth push segments
      else if is_chr squote c && negb double && negb backtick
      then split_loop rest (negb single) double false backtick paren_depth push segments
      else if is_chr dquote c && negb single && negb backtick
      then split_loop rest single (negb double) false backtick paren_depth push segments
      else if is_chr bquote c && negb single && negb double
      then split_loop rest single double false (negb backtick) paren_depth push segments
      else if is_chr open_paren c && negb single && negb double && negb backtick
      then split_loop rest single double false backtick (S paren_depth) push segments
      else if is_chr close_paren c && negb single && negb double && negb backtick
      then split_loop rest single double false backtick (pred paren_depth) push segments
      else if single || double || backtick || (0 <? paren_depth)
      then split_loop rest single double false backtick paren_depth push segments
      else if is_chr line_feed c || is_chr semicolon c
      then split_loop rest single double false backtick paren_depth "" (segments ++ [current])
      else if is_chr pipe c || is_chr ampersand c then
        match rest with
        | next :: rest' =>
            if bool_decide (next = c)
            then split_loop rest' single double false backtick paren_depth "" (segments ++ [current])
            else split_loop rest single double false backtick paren_depth "" (segments ++ [current])
        | [] => split_loop rest single double false backtick paren_depth "" (segments ++ [current])
        end
      else split_loop rest single double false backtick paren_depth push segments
  end.
Definition split_segments (command : string) : list string :=
  split_loop (chars command) false false false false 0 "" [].

(** ** Command substitutions *)

(** The loop over a [$(...)] body: the body and what follows it. *)
Fixpoint paren_body (characters : list string) (depth : nat) (body : string)
    : string * list string :=
  match characters with
  | [] => (body, [])
  | c :: rest =>
      if is_chr open_paren c then paren_body rest (S depth) (body +:+ c)
      else if is_chr close_paren c then
        match depth with
        | S (S d) => paren_body rest (S d) (body +:+ c)
        | _ => (body, rest)
        end
      else paren_body rest depth (body +:+ c)
  end.
(** The same for a backquoted body. *)
Fixpoint backtick_body (characters : list string) (body : string) : string * list string :=
  match characters with
  | [] => (body, [])
  | c :: rest =>
      if is_chr bquote c then (body, rest) else backtick_body rest (body +:+ c)
  end.

Fixpoint substitutions_from (fuel : nat) (characters : list string) : list string :=
  match fuel, characters with
  | S fuel, c :: rest =>
      let next_is_open := match rest with next :: _ => is_chr open_paren next | [] => false end in
      if is_chr dollar c && next_is_open then
        let '(body, after) := paren_body (tail rest) 1 "" in
        body :: substitutions_from fuel after
      else if is_chr bquote c then
        let '(body, after) := backtick_body rest "" in
        body :: substitutions_from fuel after
      else substitutions_from fuel rest
  | _, _ => []
  end.
Definition extract_substitutions (command : string) : list string :=
  substitutions_from (length (chars command)) (chars command).

(** ** Library calls *)

Definition EXEC_MARKERS : list string :=
  ["os.system("; "os.popen("; "subprocess.call("; "subprocess.run("; "subprocess.popen(";
   "subprocess.check_call("; "subprocess.check_output("; "commands.getoutput(";
   "commands.getstatusoutput("; ".exec("; ".execsync("; ".spawn("; ".spawnsync("; ".execfile(";
   ".execfilesync("; "system("; "shell_exec("; "passthru("; "proc_open("; "popen("].

(** [stripped] and [map]: the characters that are not white space, in lower
    case, with the byte offset of each. *)
Fixpoint strip_with_map (characters : list string) (index : nat) : string * list nat :=
  match characters with
  | [] => ("", [])
  | c :: rest =>
      let '(stripped, map) := strip_with_map rest (index + String.length c) in
      if is_whitespace c then (stripped, map)
      else (to_ascii_lowercase c +:+ stripped, index :: map)
  end.

(** The byte offset of the parenthesis that closes the one at the start. *)
Fixpoint closing_paren (bytes : string) (index depth : nat) (single double escaped : bool)
    : option nat :=
  match bytes with
  | EmptyString => None
  | String byte rest =>
      if escaped then closing_paren rest (S index) depth single double false
      else if Ascii.eqb byte bslash && (single || double)
      then closing_paren rest (S index) depth single double true
      else if Ascii.eqb byte squote && negb double
      then closing_paren rest (S index) depth (negb single) double false
      else if Ascii.eqb byte dquote && negb single
      then closing_paren rest (S index) depth single (negb double) false
      else if Ascii.eqb byte open_paren && negb single && negb double
      then closing_paren rest (S index) (S depth) single double false
      else if Ascii.eqb byte close_paren && negb single && negb double
      then match depth with
           | S (S d) => closing_paren rest (S index) (S d) single double false
           | _ => Some index
           end
      else closing_paren rest (S index) depth single double false
  end.
Definition extract_paren_arg (command : string) (open : nat) : option string :=
  if bool_decide (byte_at open command = Some open_paren) then
    index ← closing_paren (text_drop open command) open 0 false false false;
    Some (text_take (index - S open) (text_drop (S open) command))
  else None.

(** The loop over one literal: its value and the bytes after its quote. *)
Fixpoint literal_body (bytes : string) (quote : ascii) (escaped : bool) (value : string)
    : string * string :=
  match bytes with
  | EmptyString => (value, EmptyString)
  | String inner rest =>
      if escaped then literal_body rest quote false (value +:+ byte_as_char inner)
      else if Ascii.eqb inner bslash then literal_body rest quote true value
      else if Ascii.eqb inner quote then (value, rest)
      else literal_body rest quote false (value +:+ byte_as_char inner)
  end.
Fixpoint literals_from (fuel : nat) (bytes : string) : list string :=
  match fuel, bytes with
  | S fuel, String byte rest =>
      if Ascii.eqb byte squote || Ascii.eqb byte dquote then
        let '(value, after) := literal_body rest byte false "" in
        value :: literals_from fuel after
      else literals_from fuel rest
  | _, _ => []
  end.
Definition collect_string_literals (arg : string) : list string :=
  literals_from (String.length arg) arg.

(** The candidates one marker gives, from byte [from] of [stripped] on. *)
Fixpoint marker_candidates (fuel : nat) (command stripped : string) (map : list nat)
    (marker : string) (from : nat) : outcome Empty_set (list string) :=
  match fuel with
  | O => OutOfFuel
  | S fuel =>
      match find_text marker (text_drop from stripped) with
      | None => Ok []
      | Some found =>
          let marker_end := from + found + String.length marker in
          paren_index ← or_panic (map !! (marker_end - 1));
          let literals :=
            default [] (collect_string_literals <$> extract_paren_arg command paren_index) in
          more ← marker_candidates fuel command stripped map marker (from + found + 1);
          Ok (if bool_decide (literals = []) then more
              else join " " literals :: String.concat "" literals :: more)
      end
  end.
Fixpoint candidates_of (command stripped : string) (map : list nat) (markers : list string)
    : outcome Empty_set (list string) :=
  match markers with
  | [] => Ok []
  | marker :: rest =>
      here ← marker_candidates (S (String.length stripped)) command stripped map marker 0;
      more ← candidates_of command stripped map rest;
      Ok (here ++ more)
  end.
Definition extract_library_shell_commands (command : string) : outcome Empty_set (list string) :=
  let '(stripped, map) := strip_with_map (chars command) 0 in
  candidates_of command stripped map EXEC_MARKERS.

(** ** Wrappers and nested shells *)

Fixpoint drop_sudo_options (tokens : list string) : list string :=
  match tokens with
  | [] => []
  | option :: rest =>
      if negb (starts_with "-" option) then tokens else
      if contains ["-u"; "-g"; "-C"; "-p"; "-h"; "-r"; "-t"; "--user"; "--group"] option
      then match rest with
           | value :: rest' =>
               if negb (starts_with "-" value) then drop_sudo_options rest'
               else drop_sudo_options rest
           | [] => []
           end
      else drop_sudo_options rest
  end.
Fixpoint drop_xargs_options (tokens : list string) : list string :=
  match tokens with
  | [] => []
  | option :: rest =>
      if negb (starts_with "-" option) then tokens else
      if contains ["-I"; "-n"; "-P"; "-d"; "-E"] option
      then match rest with _ :: rest' => drop_xargs_options rest' | [] => [] end
      else drop_xargs_options rest
  end.
Fixpoint drop_wrapper_words (tokens : list string) : list string :=
  match tokens with
  | [] => []
  | token :: rest =>
      if starts_with "-" token || is_assignment token || is_duration token
      then drop_wrapper_words rest else tokens
  end.
Fixpoint strip_loop (fuel : nat) (tokens : list string) : list string :=
  match fuel, tokens with
  | S fuel, first :: rest =>
      let base := base_name first in
      if negb (contains WRAPPERS base) then tokens
      else strip_loop fuel
        (if contains ["sudo"; "doas"] base then drop_sudo_options rest
         else if bool_decide (base = "xargs") then drop_xargs_options rest
         else drop_wrapper_words rest)
  | _, _ => tokens
  end.
Definition strip_wrappers (tokens : list string) : list string :=
  strip_loop (length tokens) tokens.

Fixpoint nested_shell_script (args : list string) : option string :=
  match args with
  | [] => None
  | arg :: rest =>
      if contains ["-c"; "-lc"; "-lic"; "-ic"] arg then head rest
      else if starts_with "-" arg && has_char (ch 99) arg && (String.length arg <=? 5)
      then head rest
      else nested_shell_script rest
  end.
Definition script_of (words : list string) : option string :=
  let script := join " " words in
  if is_blank script then None else Some script.
Definition nested_cmd_script (args : list string) : option string :=
  index ← position (λ arg, eq_ignore_case arg "/c" || eq_ignore_case arg "/k") args;
  script_of (drop (S index) args).
Fixpoint nested_powershell_script (args : list string) : option string :=
  match args with
  | [] => None
  | arg :: rest =>
      let lower := to_ascii_lowercase (trim_start_set [dash; fslash] arg) in
      if contains ["command"; "c"] lower then script_of rest
      else nested_powershell_script rest
  end.
Definition has_encoded_powershell_command (args : list string) : bool :=
  existsb (λ arg,
    contains ["encodedcommand"; "enc"; "e"]
      (to_ascii_lowercase (trim_start_set [dash; fslash] arg))) args.

Example text_examples :
  split_segments "a && b; 'c;d' | e" = ["a "; " b"; " 'c;d' "; " e"]
  ∧ tokenize "rm -rf 'a b' c\ d" = Some ["rm"; "-rf"; "a b"; "c d"]
  ∧ tokenize "echo 'x" = None
  ∧ extract_substitutions "echo $(a (b)) `c`" = ["a (b)"; "c"]
  ∧ extract_library_shell_commands "os . system('rm' + ' -rf x')"
    = Ok ["rm  -rf x"; "rm -rf x"; "rm  -rf x"; "rm -rf x"]
  ∧ strip_wrappers ["sudo"; "-u"; "root"; "timeout"; "5"; "rm"; "x"] = ["rm"; "x"].
Proof. vm_compute. by split_and!. Qed.

(** ** The scan: variables, segments and nesting

    The recursive half of [command_safety.rs].  [scan] calls itself, one level
    deeper, on every text a shell would run; a call deeper than 8 answers
    nothing.  The functions between two levels take the deeper [scan] as an
    argument, and [scan] itself has fuel: ten rounds cover the levels 0 to 9
    ([CommandTextFacts.scan_answers]). *)

(** ** Verdicts *)

(** [Ok (Some reason)]: refused; [Ok None]: nothing found. *)
Definition verdict : Type := outcome Empty_set (option string).
Definition unremarkable : verdict := Ok None.

(** [if let Some(reason) = m { return Some(reason) } rest], and
    [m.or_else(|| rest)]. *)
Definition first_reason (m : verdict) (rest : unit → verdict) : verdict :=
  mbind (M := outcome Empty_set) (λ found,
  match found with Some reason => Ok (Some reason) | None => rest tt end) m.
Declare Scope safety_scope.
Notation "m 'or_reason' k" := (first_reason m (λ _ : unit, k))
  (at level 85, right associativity) : safety_scope.
Open Scope safety_scope.

(** [m.map(f)]. *)
Definition verdict_map (f : string → string) (m : verdict) : verdict :=
  mbind (M := outcome Empty_set) (λ found, Ok (f <$> found)) m.

(** ** Shell variables *)

Definition shell_variable_name (value : string) : bool :=
  negb (is_empty value) && forallb is_name_char (chars value).
Definition shell_variable_reference (token : string) : option string :=
  rest ← strip_prefix "$" token;
  match strip_prefix "{" rest with
  | Some rest => name ← strip_suffix "}" rest; if shell_variable_name name then Some name else None
  | None => if shell_variable_name rest then Some rest else None
  end.

Definition assign_token (variables : gmap string string) (token : string) : gmap string string :=
  match split_once equals_sign token with
  | Some (name, value) =>
      if negb (is_empty name) && forallb is_name_char (chars name) && negb (is_blank value)
      then <[name := trim value]> variables else variables
  | None => variables
  end.
Definition assign_segment (variables : gmap string string) (segment : string)
    : gmap string string :=
  match tokenize (trim segment) with
  | None | Some [] => variables
  | Some ((first :: rest) as tokens) =>
      let assignment_tokens :=
        if contains ["export"; "readonly"; "typeset"; "local"; "declare"] (base_name first)
        then rest else tokens in
      if bool_decide (assignment_tokens = []) || negb (forallb is_assignment assignment_tokens)
      then variables else foldl assign_token variables assignment_tokens
  end.
Definition collect_shell_variable_assignments (segments : list string) : gmap string string :=
  foldl assign_segment ∅ segments.

Definition variable_value (variables : gmap string string) (token : string) : option string :=
  variable ← shell_variable_reference token; variables !! variable.
Definition expand_shell_variable_arguments (tokens : list string)
    (variables : gmap string string) : option (list string) :=
  let changed := existsb (λ token, bool_decide (is_Some (variable_value variables token))) tokens in
  let expanded := (λ token, default token (variable_value variables token)) <$> tokens in
  if changed then Some expanded else None.

Section Checks.
Context (scan : string → nat → verdict) (context : option SafetyContext).

Definition check_variable_indirection (segment : string) (variables : gmap string string)
    (depth : nat) : verdict :=
  if bool_decide (variables = ∅) then unremarkable else
  match strip_wrappers <$> tokenize segment with
  | Some (first :: rest) =>
      match shell_variable_reference first with
      | Some variable =>
          match variables !! variable with
          | Some value =>
              let expanded_tokens := value :: rest in
              let expanded :=
                default expanded_tokens
                  (expand_shell_variable_arguments expanded_tokens variables) in
              verdict_map (λ reason,
                  reason +:+ " via shell variable `$" +:+ variable +:+ "` indirection")
                (scan (join " " expanded) (depth + 1))
          | None => unremarkable
          end
      | None => unremarkable
      end
  | _ => unremarkable
  end.

Definition check_argument_variable_expansion (segment : string)
    (variables : gmap string string) (depth : nat) : verdict :=
  if bool_decide (variables = ∅) then unremarkable else
  match tokenize segment with
  | None => unremarkable
  | Some tokens =>
      match expand_shell_variable_arguments (strip_wrappers tokens) variables with
      | None => unremarkable
      | Some expanded =>
          verdict_map (λ reason, reason +:+ " via shell variable argument")
            (scan (join " " expanded) (depth + 1))
      end
  end.

Definition check_nested_variable_indirection (segment : string)
    (variables : gmap string string) (depth : nat) : verdict :=
  if bool_decide (variables = ∅) then unremarkable else
  match strip_wrappers <$> tokenize segment with
  | Some (first :: rest) =>
      let base := base_name first in
      let check_text inner :=
        check_variable_indirection inner variables (depth + 1)
        or_reason check_argument_variable_expansion inner variables (depth + 1) in
      if bool_decide (base = "eval") then check_text (join " " rest)
      else if contains NESTED_SHELLS base then
        match nested_shell_script rest with
        | Some script => check_text script
        | None => unremarkable
        end
      else unremarkable
  | _ => unremarkable
  end.

(** ** Segments *)

Definition check_base (base : string) (args : list string) (segment : string) : verdict :=
  Ok (check_unix_base base args context)
  or_reason Ok (check_cmd_base base args segment context)
  or_reason Ok (check_windows_base base args segment context).

Definition check_segment (segment : string) (depth : nat) : verdict :=
  match redirect_to_block_device segment with
  | Some device => Ok (Some ("redirect overwrites block device `" +:+ device +:+ "`"))
  | None =>
  match tokenize segment with
  | None | Some [] => unremarkable
  | Some ((first :: rest) as tokens) =>
      if bool_decide (base_name first = "eval") then scan (join " " rest) (depth + 1) else
      match strip_wrappers tokens with
      | [] => unremarkable
      | base_raw :: args =>
          let base := base_name base_raw in
          let script :=
            if contains NESTED_SHELLS base then nested_shell_script args else None in
          let cmd_script := if bool_decide (base = "cmd") then nested_cmd_script args else None in
          match script, cmd_script with
          | Some script, _ => scan script (depth + 1)
          | None, Some script => scan script (depth + 1)
          | None, None =>
              if contains POWERSHELL_SHELLS base then
                if has_encoded_powershell_command args
                then Ok (Some "encoded PowerShell command") else
                match nested_powershell_script args with
                | Some script => scan script (depth + 1)
                | None => check_base base args segment
                end
              else check_base base args segment
          end
      end
  end end.

Fixpoint check_segments (segments : list string) (variables : gmap string string) (depth : nat)
    : verdict :=
  match segments with
  | [] => unremarkable
  | segment :: rest =>
      let segment := trim segment in
      if is_empty segment then check_segments rest variables depth else
      check_variable_indirection segment variables depth
      or_reason check_nested_variable_indirection segment variables depth
      or_reason check_argument_variable_expansion segment variables depth
      or_reason check_segment segment depth
      or_reason check_segments rest variables depth
  end.

Fixpoint scan_each (describe : string → string) (bodies : list string) (depth : nat) : verdict :=
  match bodies with
  | [] => unremarkable
  | body :: rest =>
      verdict_map describe (scan body (depth + 1)) or_reason scan_each describe rest depth
  end.

(** One call of [scan] that is not too deep. *)
Definition scan_body (command : string) (depth : nat) : verdict :=
  if is_fork_bomb command then Ok (Some "fork bomb pattern") else
  Ok (download_pipe_to_shell command)
  or_reason Ok (decoder_pipe_to_shell command)
  or_reason
    (let segments := split_segments command in
     check_segments segments (collect_shell_variable_assignments segments) depth)
  or_reason scan_each id (extract_substitutions command) depth
  or_reason
    (candidates ← extract_library_shell_commands command;
     scan_each (λ reason, reason +:+ " smuggled through a library exec call") candidates depth).
End Checks.

Fixpoint scan (fuel : nat) (context : option SafetyContext) (command : string) (depth : nat)
    : verdict :=
  match fuel with
  | O => OutOfFuel
  | S fuel =>
      if 8 <? depth then unremarkable
      else scan_body (scan fuel context) context command depth
  end.
Definition scan_fuel : nat := 10.

(** ** Entry points *)

Section Entry.
(** [std::env::var(name).ok()]. *)
Context (env_var : string → option string).

Definition interceptor_disabled : bool :=
  match env_var DISABLE_ENV with
  | Some value => contains ["1"; "true"; "yes"; "on"] (to_ascii_lowercase (trim value))
  | None => false
  end.
Definition inspect (context : option SafetyContext) (command : string) : verdict :=
  if interceptor_disabled then unremarkable else
  let command := trim command in
  if is_empty command then unremarkable else scan scan_fuel context command 0.

Definition is_dangerous_command (command : string) : verdict := inspect None command.
Definition is_dangerous_command_with_workspace (command cwd workspace_root : string) : verdict :=
  inspect (Some (SafetyContext_new cwd workspace_root)) command.
End Entry.
