(* ===== verification/CommandTextFacts.v ===== *)
(** * What the readers of a command line keep

    Every text the scan looks into is made of characters of the command: if all
    bytes of a command are ASCII, so are those of its words, segments, bodies
    and literals.  The search for library calls ends, and on ASCII text its
    index is in range. *)

From stdpp Require Import base list strings gmap sorting.
From Stdlib Require Import ZArith Lia Ascii.
From S2P Require Import Prelude RustStd RustText CommandSafety CommandText.
Local Open Scope nat_scope.

Create HintDb safety.

(** ** ASCII texts *)

Definition ascii_byte (a : ascii) : bool := nat_of_ascii a <? 128.
(** [str::is_ascii]. *)
Definition plain (s : string) : Prop := bytes_all ascii_byte s = true.

Lemma plain_empty : plain "".
Proof. done. Qed.
Lemma plain_cons a s : plain (String a s) ↔ ascii_byte a = true ∧ plain s.
Proof. unfold plain. simpl. apply andb_true_iff. Qed.
Lemma plain_app s t : plain (s +:+ t) ↔ plain s ∧ plain t.
Proof.
  induction s as [|a s IH]; [by split; [|intros [_ ?]]|].
  change (String a s +:+ t) with (String a (s +:+ t)). rewrite !plain_cons, IH. tauto.
Qed.
Lemma plain_list l : plain (String.string_of_list_ascii l) ↔ Forall (λ a, ascii_byte a = true) l.
Proof.
  induction l as [|a l IH]; simpl; [by split|]. by rewrite plain_cons, Forall_cons, IH.
Qed.
Lemma plain_bytes s : plain s ↔ Forall (λ a, ascii_byte a = true) (String.list_ascii_of_string s).
Proof. rewrite <- plain_list. by rewrite String.string_of_list_ascii_of_string. Qed.

Lemma plain_concat l : Forall plain l → plain (String.concat "" l).
Proof.
  induction 1 as [|s l Hs Hl IH]; [done|]. destruct l as [|t l]; [done|].
  by apply plain_app.
Qed.
Lemma plain_join sep l : plain sep → Forall plain l → plain (join sep l).
Proof.
  intros Hsep. induction 1 as [|s l Hs Hl IH]; [done|]. destruct l as [|t l]; [done|].
  apply plain_app. split; [done|]. by apply plain_app.
Qed.

Lemma trim_infix s : ∃ u v, s = u +:+ trim s +:+ v.
Proof.
  unfold trim, trim_bytes. set (l := String.list_ascii_of_string s).
  destruct (RustStd.strip_suffix ws1 ws2 ws3 l) as [u Hu].
  destruct (trim_end_bytes_prefix (trim_start_bytes l)) as [v Hv].
  exists (String.string_of_list_ascii u), (String.string_of_list_ascii v).
  assert (Happ : ∀ x y, String.string_of_list_ascii (x ++ y)
    = String.string_of_list_ascii x +:+ String.string_of_list_ascii y).
  { intros x y. induction x as [|a x IH]; simpl; [done|]. by rewrite IH. }
  rewrite <- !Happ. transitivity (String.string_of_list_ascii l).
  - symmetry. apply String.string_of_list_ascii_of_string.
  - f_equal. rewrite Hu at 1. f_equal. exact Hv.
Qed.
Lemma plain_trim s : plain s → plain (trim s).
Proof.
  destruct (trim_infix s) as (u & v & Hs). rewrite Hs at 1. rewrite !plain_app. tauto.
Qed.
Lemma plain_take n s : plain s → plain (text_take n s).
Proof.
  revert s. induction n as [|n IH]; intros [|a s]; simpl; try done.
  rewrite !plain_cons. intros [??]. by auto.
Qed.
Lemma plain_drop n s : plain s → plain (text_drop n s).
Proof.
  revert s. induction n as [|n IH]; intros [|a s]; simpl; try done.
  rewrite !plain_cons. intros [??]. by auto.
Qed.
#[export] Hint Resolve plain_empty plain_trim plain_take plain_drop plain_join plain_concat : safety.

(** ** Characters *)

Lemma plain_chars s : plain s → chars s = ascii_char <$> String.list_ascii_of_string s.
Proof.
  induction s as [|a s IH]; [done|]. intros [Ha Hs]%plain_cons.
  rewrite chars_ascii, IH by (done || unfold ascii_byte in Ha; apply Nat.ltb_lt in Ha; lia).
  done.
Qed.
Lemma Forall_chars_plain s : plain s → Forall plain (chars s).
Proof.
  intros Hs. rewrite plain_chars by done.
  rewrite plain_bytes in Hs. apply Forall_fmap. eapply Forall_impl; [exact Hs|].
  intros a Ha. by apply plain_cons.
Qed.

(** ** Words, segments and bodies *)

Lemma plain_push current c : plain current → plain c → plain (current +:+ c).
Proof. intros. by apply plain_app. Qed.
Lemma Forall_snoc {A} (P : A → Prop) l x : Forall P l → P x → Forall P (l ++ [x]).
Proof. intros. apply Forall_app. by repeat constructor. Qed.
#[export] Hint Resolve plain_push Forall_snoc : safety.

Lemma plain_tokenize_loop cs single double escaped started current tokens out :
  Forall plain cs → plain current → Forall plain tokens →
  tokenize_loop cs single double escaped started current tokens = Some out → Forall plain out.
Proof.
  intros Hcs. revert single double escaped started current tokens.
  induction Hcs as [|c cs Hc Hcs IH]; intros single double escaped started current tokens Hcur Htok.
  - simpl. destruct (_ || _); [done|]. intros [= <-]. destruct started; auto with safety.
  - simpl. repeat match goal with
    | |- context [if ?b then _ else _] => destruct b
    end; apply IH; auto with safety.
Qed.
Lemma plain_tokenize s out : plain s → tokenize s = Some out → Forall plain out.
Proof. intros Hs. apply plain_tokenize_loop; auto using Forall_chars_plain. done. Qed.

Lemma plain_split_loop cs single double escaped backtick depth current segments :
  Forall plain cs → plain current → Forall plain segments →
  Forall plain (split_loop cs single double escaped backtick depth current segments).
Proof.
  remember (length cs) as n eqn:Hn. revert cs Hn single double escaped backtick depth current segments.
  induction (lt_wf n) as [n _ IH]. intros [|c cs] -> single double escaped backtick depth current segments
    Hcs Hcur Hseg; simpl; [auto with safety|].
  apply Forall_cons in Hcs as [Hc Hcs].
  assert (Hnext : ∀ single double escaped backtick depth current segments,
    plain current → Forall plain segments →
    Forall plain (split_loop cs single double escaped backtick depth current segments)).
  { intros. eapply (IH (length cs)); [simpl; lia|done..]. }
  repeat match goal with
  | |- context [if ?b then _ else _] => destruct b
  end; try (apply Hnext; auto with safety).
  destruct cs as [|next cs']; [apply Hnext; auto with safety|].
  destruct (bool_decide (next = c)); [|apply Hnext; auto with safety].
  apply Forall_cons in Hcs as [_ Hcs].
  eapply (IH (length cs')); [simpl; lia|done|done|auto with safety..].
Qed.
Lemma plain_split_segments s : plain s → Forall plain (split_segments s).
Proof. intros. apply plain_split_loop; auto using Forall_chars_plain. done. Qed.

Lemma plain_paren_body cs depth body :
  Forall plain cs → plain body →
  plain (paren_body cs depth body).1 ∧ Forall plain (paren_body cs depth body).2.
Proof.
  intros Hcs. revert depth body. induction Hcs as [|c cs Hc Hcs IH]; intros depth body Hb; simpl; [done|].
  destruct (is_chr open_paren c); [apply IH; auto with safety|].
  destruct (is_chr close_paren c); [|apply IH; auto with safety].
  destruct depth as [|[|d]]; [done..|]. apply IH; auto with safety.
Qed.
Lemma plain_backtick_body cs body :
  Forall plain cs → plain body →
  plain (backtick_body cs body).1 ∧ Forall plain (backtick_body cs body).2.
Proof.
  intros Hcs. revert body. induction Hcs as [|c cs Hc Hcs IH]; intros body Hb; simpl; [done|].
  destruct (is_chr bquote c); [done|]. apply IH; auto with safety.
Qed.
Lemma plain_substitutions_from fuel cs :
  Forall plain cs → Forall plain (substitutions_from fuel cs).
Proof.
  revert cs. induction fuel as [|fuel IH]; intros cs Hcs; simpl; [done|].
  destruct Hcs as [|c cs Hc Hcs]; [done|].
  assert (Htail : Forall plain (tail cs)) by (destruct Hcs; done).
  destruct (is_chr dollar c && _); [|destruct (is_chr bquote c)].
  - pose proof (plain_paren_body (tail cs) 1 "" Htail plain_empty) as Hp.
    destruct (paren_body _ _ _) as [body after]. destruct Hp. by constructor; [|apply IH].
  - pose proof (plain_backtick_body cs "" Hcs plain_empty) as Hp.
    destruct (backtick_body _ _) as [body after]. destruct Hp. by constructor; [|apply IH].
  - by apply IH.
Qed.
Lemma plain_extract_substitutions s : plain s → Forall plain (extract_substitutions s).
Proof. intros. by apply plain_substitutions_from, Forall_chars_plain. Qed.

(** ** Wrappers: what is left of the words is at their end *)

Lemma drop_sudo_suffix tokens : drop_sudo_options tokens `suffix_of` tokens.
Proof.
  remember (length tokens) as n eqn:Hn. revert tokens Hn.
  induction (lt_wf n) as [n _ IH]. intros [|o rest] ->; simpl; [done|].
  destruct (negb _); [done|]. destruct (contains _ o).
  - destruct rest as [|v rest]; [by exists [o]|]. destruct (negb _).
    + transitivity rest; [eapply IH; [|done]; simpl; lia|]. by exists [o; v].
    + transitivity (v :: rest); [eapply IH; [|done]; simpl; lia|]. by exists [o].
  - transitivity rest; [eapply IH; [|done]; simpl; lia|]. by exists [o].
Qed.
Lemma drop_xargs_suffix tokens : drop_xargs_options tokens `suffix_of` tokens.
Proof.
  remember (length tokens) as n eqn:Hn. revert tokens Hn.
  induction (lt_wf n) as [n _ IH]. intros [|o rest] ->; simpl; [done|].
  destruct (negb _); [done|]. destruct (contains _ o).
  - destruct rest as [|v rest]; [by exists [o]|].
    transitivity rest; [eapply IH; [|done]; simpl; lia|]. by exists [o; v].
  - transitivity rest; [eapply IH; [|done]; simpl; lia|]. by exists [o].
Qed.
Lemma drop_wrapper_suffix tokens : drop_wrapper_words tokens `suffix_of` tokens.
Proof.
  induction tokens as [|t rest IH]; simpl; [done|]. destruct (_ || _); [|done].
  transitivity rest; [done|]. by exists [t].
Qed.
Definition after_wrapper (base : string) (rest : list string) : list string :=
  if contains ["sudo"; "doas"] base then drop_sudo_options rest
  else if bool_decide (base = "xargs") then drop_xargs_options rest
  else drop_wrapper_words rest.
Lemma after_wrapper_suffix base rest : after_wrapper base rest `suffix_of` rest.
Proof.
  unfold after_wrapper. destruct (contains _ _); [apply drop_sudo_suffix|].
  destruct (bool_decide _); [apply drop_xargs_suffix|apply drop_wrapper_suffix].
Qed.
Lemma after_wrapper_length base rest : length (after_wrapper base rest) ≤ length rest.
Proof. apply suffix_length, after_wrapper_suffix. Qed.

Lemma strip_loop_suffix fuel tokens : strip_loop fuel tokens `suffix_of` tokens.
Proof.
  revert tokens. induction fuel as [|fuel IH]; intros [|first rest]; simpl; try done.
  destruct (negb _); [done|]. fold (after_wrapper (base_name first) rest).
  transitivity (after_wrapper (base_name first) rest); [apply IH|].
  transitivity rest; [apply after_wrapper_suffix|]. by exists [first].
Qed.
Lemma plain_strip_wrappers tokens : Forall plain tokens → Forall plain (strip_wrappers tokens).
Proof.
  destruct (strip_loop_suffix (length tokens) tokens) as [pre Hpre].
  unfold strip_wrappers. intros Hall. rewrite Hpre in Hall. by apply Forall_app in Hall as [_ ?].
Qed.

(** Enough fuel: more words than rounds are never left. *)
Lemma strip_loop_fuel fuel tokens :
  length tokens ≤ fuel → strip_loop fuel tokens = strip_loop (S fuel) tokens.
Proof.
  revert tokens. induction fuel as [|fuel IH]; intros [|first rest] Hlen; simpl in *; try done; [lia|].
  destruct (negb _); [done|]. rewrite IH; [done|].
  fold (after_wrapper (base_name first) rest).
  pose proof (after_wrapper_length (base_name first) rest). lia.
Qed.
Lemma strip_loop_enough fuel tokens :
  length tokens ≤ fuel → strip_loop fuel tokens = strip_wrappers tokens.
Proof.
  unfold strip_wrappers. induction 1 as [|fuel Hle IH]; [done|].
  by rewrite <- strip_loop_fuel.
Qed.
(** The equation of [strip_wrappers]. *)
Lemma strip_wrappers_unfold first rest :
  strip_wrappers (first :: rest)
  = if contains WRAPPERS (base_name first)
    then strip_wrappers (after_wrapper (base_name first) rest) else first :: rest.
Proof.
  unfold strip_wrappers at 1. simpl. destruct (contains WRAPPERS _); [|done]. simpl.
  apply strip_loop_enough, after_wrapper_length.
Qed.

(** ** Library calls *)

Lemma text_drop_length n s : String.length (text_drop n s) = String.length s - n.
Proof. revert s. induction n as [|n IH]; intros [|a s]; simpl; auto. Qed.
Lemma text_drop_drop n m s : text_drop n (text_drop m s) = text_drop (m + n) s.
Proof.
  revert s. induction m as [|m IH]; intros s; simpl; [done|].
  destruct s as [|a s]; simpl; [by destruct n|]. apply IH.
Qed.
Lemma find_text_bound pattern s i :
  find_text pattern s = Some i → i + String.length pattern ≤ String.length s.
Proof.
  revert i. induction s as [|a s IH]; intros i; cbn [find_text];
    destruct (starts_with pattern _) eqn:Hst.
  - intros [= <-]. apply starts_with_spec in Hst as [r Hr].
    apply (f_equal String.length) in Hr. rewrite length_append in Hr. simpl in *. lia.
  - done.
  - intros [= <-]. apply starts_with_spec in Hst as [r Hr].
    apply (f_equal String.length) in Hr. rewrite length_append in Hr. lia.
  - destruct (find_text pattern s) as [j|]; simpl; [|done]. intros [= <-].
    specialize (IH j eq_refl). lia.
Qed.

(** [plain] characters are single bytes, so [map] has one entry per byte. *)
Lemma lower_length s : String.length (to_ascii_lowercase s) = String.length s.
Proof.
  unfold to_ascii_lowercase. induction s as [|a s IH]; simpl in *; [done|]. by rewrite IH.
Qed.
Lemma strip_with_map_length cs index :
  Forall (λ c, String.length c = 1) cs →
  String.length (strip_with_map cs index).1 = length (strip_with_map cs index).2.
Proof.
  intros Hcs. revert index. induction Hcs as [|c cs Hc Hcs IH]; intros index; simpl; [done|].
  specialize (IH (index + String.length c)). destruct (strip_with_map cs _) as [stripped map].
  simpl in IH. destruct (is_whitespace c); simpl; [done|].
  rewrite length_append, lower_length, Hc, IH. done.
Qed.
Lemma chars_plain_length s : plain s → Forall (λ c, String.length c = 1) (chars s).
Proof. intros Hs. rewrite plain_chars by done. apply Forall_fmap, Forall_true. done. Qed.

Lemma plain_byte_as_char a : ascii_byte a = true → plain (byte_as_char a).
Proof.
  intros Ha. unfold byte_as_char. unfold ascii_byte in Ha. rewrite Ha.
  apply plain_cons. by split.
Qed.
Lemma plain_literal_body s quote escaped value :
  plain s → plain value →
  plain (literal_body s quote escaped value).1 ∧ plain (literal_body s quote escaped value).2.
Proof.
  revert escaped value. induction s as [|a s IH]; intros escaped value; [done|].
  intros [Ha Hs]%plain_cons Hv. simpl.
  assert (plain (value +:+ byte_as_char a)) by auto using plain_push, plain_byte_as_char.
  destruct escaped; [by apply IH|]. destruct (Ascii.eqb a bslash); [by apply IH|].
  destruct (Ascii.eqb a quote); [done|by apply IH].
Qed.
Lemma plain_literals_from fuel s : plain s → Forall plain (literals_from fuel s).
Proof.
  revert s. induction fuel as [|fuel IH]; intros [|a s] Hs; simpl; try done.
  apply plain_cons in Hs as [Ha Hs]. destruct (_ || _); [|by apply IH].
  pose proof (plain_literal_body s a false "" Hs plain_empty) as Hp.
  destruct (literal_body _ _ _ _) as [value after]. destruct Hp. by constructor; [|apply IH].
Qed.
Lemma plain_paren_arg command open arg :
  plain command → extract_paren_arg command open = Some arg → plain arg.
Proof.
  unfold extract_paren_arg. destruct (bool_decide _); [|done]. intros Hp.
  destruct (closing_paren _ _ _ _ _ _) as [index|]; [|done].
  intros [= <-]. apply plain_take, (plain_drop (S open)), Hp.
Qed.

(** Either side of a computation without errors: it gives a value, or it
    panics and that is allowed. *)
Definition ends (panics : bool) {A} (m : outcome Empty_set A) : Prop :=
  (∃ a, m = Ok a) ∨ (panics = true ∧ m = Panic).
Lemma ends_Ok panics {A} (a : A) : ends panics (Ok a).
Proof. left. eauto. Qed.
Lemma ends_bind panics {A B} (m : outcome Empty_set A) (k : A → outcome Empty_set B) :
  ends panics m → (∀ a, m = Ok a → ends panics (k a)) → ends panics (m ≫= k).
Proof. intros [[a ->]|[-> ->]] Hk; [by apply Hk|by right]. Qed.
#[export] Hint Resolve ends_Ok : safety.

(** Texts a scan that must not panic is given. *)
Definition readable (panics : bool) (s : string) : Prop := panics = false → plain s.

Section Library.
Context (panics : bool) (command stripped : string) (map : list nat).
Hypothesis Hcommand : readable panics command.
Hypothesis Hmap : panics = false → String.length stripped = length map.

Lemma marker_candidates_ends fuel marker from :
  0 < String.length marker → from ≤ String.length stripped →
  String.length stripped - from < fuel →
  ends panics (marker_candidates fuel command stripped map marker from)
  ∧ ∀ l, marker_candidates fuel command stripped map marker from = Ok l →
      Forall (readable panics) l.
Proof.
  intros Hm. revert from. induction fuel as [|fuel IH]; intros from Hfrom Hfuel; [lia|]. simpl.
  destruct (find_text marker (text_drop from stripped)) as [found|] eqn:Hfind;
    [|split; [apply ends_Ok|by intros l [= <-]]].
  apply find_text_bound in Hfind. rewrite text_drop_length in Hfind.
  destruct (map !! _) as [open|] eqn:Hopen; simpl.
  2:{ apply lookup_ge_None in Hopen. destruct panics; [|specialize (Hmap eq_refl); lia].
      split; [by right|done]. }
  destruct (IH (from + found + 1)) as [Hends Hall]; [lia..|].
  split.
  - apply ends_bind; [done|]. intros more _. apply ends_Ok.
  - intros l Hl. apply bind_Ok_inv in Hl as (more & Hmore & [= <-]).
    specialize (Hall _ Hmore). destruct (bool_decide _); [done|].
    assert (Hlits : panics = false → Forall plain
      (default [] (collect_string_literals <$> extract_paren_arg command open))).
    { intros Hp. destruct (extract_paren_arg command open) as [arg|] eqn:Harg; simpl; [|done].
      eapply plain_literals_from, plain_paren_arg, Harg. auto. }
    repeat constructor; [..|done]; intros Hp; auto with safety.
Qed.
Lemma candidates_of_ends markers :
  Forall (λ marker, 0 < String.length marker) markers →
  ends panics (candidates_of command stripped map markers)
  ∧ ∀ l, candidates_of command stripped map markers = Ok l → Forall (readable panics) l.
Proof.
  induction 1 as [|marker markers Hm _ [IHe IHl]]; cbn [candidates_of];
    [split; [apply ends_Ok|by intros l [= <-]]|].
  destruct (marker_candidates_ends (S (String.length stripped)) marker 0) as [He Hl]; [lia..|].
  split.
  - apply ends_bind; [done|]. intros here _. apply ends_bind; [done|]. intros. apply ends_Ok.
  - intros l (here & Hhere & (more & Hmore & [= <-])%bind_Ok_inv)%bind_Ok_inv.
    apply Forall_app; auto.
Qed.
End Library.

Lemma extract_library_ends panics command :
  readable panics command →
  ends panics (extract_library_shell_commands command)
  ∧ ∀ l, extract_library_shell_commands command = Ok l → Forall (readable panics) l.
Proof.
  intros Hread. unfold extract_library_shell_commands.
  pose proof (strip_with_map_length (chars command) 0) as Hlen.
  destruct (strip_with_map (chars command) 0) as [stripped map]. simpl in Hlen.
  apply candidates_of_ends; [done| |].
  - intros Hp. by apply Hlen, chars_plain_length, Hread.
  - by repeat (constructor; [simpl; lia|]).
Qed.

(** ** The scan ends, and a workspace only relaxes it

    [scan_answers]: with its fuel the scan always gives a verdict or panics, and
    it does not panic on ASCII text.  [scan_relaxes]: what is refused inside a
    workspace is refused without one. *)

(** ** Variables hold texts of the command *)

Definition plain_values (variables : gmap string string) : Prop :=
  map_Forall (λ _ value, plain value) variables.

Lemma plain_assign_token variables token :
  plain_values variables → plain token → plain_values (assign_token variables token).
Proof.
  intros Hv Ht. unfold assign_token, split_once.
  destruct (find_char equals_sign token) as [i|]; simpl; [|done].
  destruct (_ && _); [|done]. apply map_Forall_insert_2; [|done].
  apply plain_trim, (plain_drop (S i)), Ht.
Qed.
Lemma plain_assign_tokens tokens variables :
  plain_values variables → Forall plain tokens → plain_values (foldl assign_token variables tokens).
Proof.
  intros Hv Ht. revert variables Hv. induction Ht as [|t tokens Ht Hts IH]; intros variables Hv; simpl;
    [done|]. by apply IH, plain_assign_token.
Qed.
Lemma plain_assign_segment variables segment :
  plain_values variables → plain segment → plain_values (assign_segment variables segment).
Proof.
  intros Hv Hs. unfold assign_segment.
  destruct (tokenize (trim segment)) as [[|first rest]|] eqn:Htok; [done| |done].
  apply plain_tokenize in Htok; [|by apply plain_trim]. apply Forall_cons in Htok as [Hf Hr].
  destruct (_ || _); [done|]. apply plain_assign_tokens; [done|].
  destruct (contains _ _); [done|by constructor].
Qed.
Lemma plain_collect segments :
  Forall plain segments → plain_values (collect_shell_variable_assignments segments).
Proof.
  intros Hall. unfold collect_shell_variable_assignments.
  assert (Hv : plain_values ∅) by apply map_Forall_empty.
  revert Hv. generalize (∅ : gmap string string).
  induction Hall as [|s segments Hs Hss IH]; intros variables Hv; simpl; [done|].
  by apply IH, plain_assign_segment.
Qed.
Lemma plain_expand tokens variables expanded :
  Forall plain tokens → plain_values variables →
  expand_shell_variable_arguments tokens variables = Some expanded → Forall plain expanded.
Proof.
  intros Ht Hv. unfold expand_shell_variable_arguments. destruct (existsb _ _); [|done].
  intros [= <-]. apply Forall_fmap. eapply Forall_impl; [exact Ht|]. intros token Htoken. simpl.
  destruct (variable_value variables token) as [value|] eqn:Hval; simpl; [|done].
  unfold variable_value in Hval. apply bind_Some in Hval as (name & _ & Hval).
  by apply Hv in Hval.
Qed.

(** ** Nested scripts are words of the segment *)

Lemma nested_shell_script_elem args script :
  nested_shell_script args = Some script → script ∈ args.
Proof.
  induction args as [|arg args IH]; simpl; [done|]. intros H.
  destruct (contains _ _) in H; [apply head_Some_elem_of in H; by constructor|].
  destruct (_ && _) in H; [apply head_Some_elem_of in H; by constructor|].
  constructor. auto.
Qed.
Lemma script_of_plain words script :
  Forall plain words → script_of words = Some script → plain script.
Proof.
  unfold script_of. intros Hw. destruct (is_blank _); [done|]. intros [= <-].
  by apply plain_join.
Qed.
Lemma nested_cmd_script_plain args script :
  Forall plain args → nested_cmd_script args = Some script → plain script.
Proof.
  unfold nested_cmd_script. intros Ha Hs. apply bind_Some in Hs as (index & _ & Hs).
  eapply script_of_plain, Hs. by apply Forall_drop.
Qed.
Lemma nested_powershell_script_plain args script :
  Forall plain args → nested_powershell_script args = Some script → plain script.
Proof.
  induction 1 as [|arg args Ha Hs IH]; simpl; [done|]. destruct (contains _ _); [|done].
  by apply script_of_plain.
Qed.
Lemma nested_shell_script_plain args script :
  Forall plain args → nested_shell_script args = Some script → plain script.
Proof.
  intros Ha Hs%nested_shell_script_elem. by eapply Forall_forall in Hs.
Qed.

(** ** Every verdict is reached *)

Lemma ends_first_reason panics m rest :
  ends panics m → ends panics (rest tt) → ends panics (first_reason m rest).
Proof. intros [[[r|] ->]|[-> ->]] Hr; simpl; auto with safety. by right. Qed.
Lemma ends_verdict_map panics f m : ends panics m → ends panics (verdict_map f m).
Proof. intros [[v ->]|[-> ->]]; simpl; auto with safety. by right. Qed.
Lemma ends_unremarkable panics : ends panics unremarkable.
Proof. apply ends_Ok. Qed.
#[export] Hint Resolve ends_first_reason ends_verdict_map ends_unremarkable : safety.

Section Ends.
Context (panics : bool) (scan : string → nat → verdict) (context : option SafetyContext).
(** The scan one or two levels below [depth] ends. *)
Definition scan_ends (depth : nat) : Prop :=
  ∀ s d, readable panics s → depth < d → d ≤ depth + 2 → ends panics (scan s d).
Definition readable_values (variables : gmap string string) : Prop :=
  panics = false → plain_values variables.

Lemma readable_words s tokens :
  readable panics s → tokenize s = Some tokens →
  panics = false → Forall plain tokens ∧ Forall plain (strip_wrappers tokens).
Proof.
  intros Hs Htok Hp. pose proof (plain_tokenize s tokens (Hs Hp) Htok).
  auto using plain_strip_wrappers.
Qed.

Lemma check_variable_ends segment variables depth :
  (∀ s, readable panics s → ends panics (scan s (depth + 1))) →
  readable panics segment → readable_values variables →
  ends panics (check_variable_indirection scan segment variables depth).
Proof.
  intros Hscan Hseg Hvars. unfold check_variable_indirection.
  destruct (bool_decide _); [auto with safety|].
  destruct (tokenize segment) as [tokens|] eqn:Htok; simpl; [|auto with safety].
  pose proof (readable_words _ _ Hseg Htok) as Hwords.
  destruct (strip_wrappers tokens) as [|first rest]; [auto with safety|].
  destruct (shell_variable_reference first) as [variable|]; [|auto with safety].
  destruct (variables !! variable) as [value|] eqn:Hval; [|auto with safety].
  apply ends_verdict_map, Hscan. intros Hp. apply plain_join; [done|].
  destruct (Hwords Hp) as [_ [_ Hrest]%Forall_cons].
  assert (Hexp : Forall plain (value :: rest)) by (constructor; [by eapply (Hvars Hp)|done]).
  destruct (expand_shell_variable_arguments _ _) as [expanded|] eqn:He; simpl; [|done].
  by eapply plain_expand, He; [|apply Hvars].
Qed.
Lemma check_argument_ends segment variables depth :
  (∀ s, readable panics s → ends panics (scan s (depth + 1))) →
  readable panics segment → readable_values variables →
  ends panics (check_argument_variable_expansion scan segment variables depth).
Proof.
  intros Hscan Hseg Hvars. unfold check_argument_variable_expansion.
  destruct (bool_decide _); [auto with safety|].
  destruct (tokenize segment) as [tokens|] eqn:Htok; [|auto with safety].
  destruct (expand_shell_variable_arguments _ _) as [expanded|] eqn:He; [|auto with safety].
  apply ends_verdict_map, Hscan. intros Hp. apply plain_join; [done|].
  eapply plain_expand, He; [apply (readable_words _ _ Hseg Htok Hp)|by apply Hvars].
Qed.
Lemma check_nested_ends segment variables depth :
  scan_ends depth → readable panics segment → readable_values variables →
  ends panics (check_nested_variable_indirection scan segment variables depth).
Proof.
  intros Hscan Hseg Hvars. unfold check_nested_variable_indirection.
  destruct (bool_decide _); [auto with safety|].
  destruct (tokenize segment) as [tokens|] eqn:Htok; simpl; [|auto with safety].
  pose proof (readable_words _ _ Hseg Htok) as Hwords.
  destruct (strip_wrappers tokens) as [|first rest]; [auto with safety|].
  assert (Hdeep : ∀ inner, readable panics inner →
    ends panics (check_variable_indirection scan inner variables (depth + 1)
                 or_reason check_argument_variable_expansion scan inner variables (depth + 1))).
  { intros inner Hinner. apply ends_first_reason;
      [apply check_variable_ends|apply check_argument_ends]; try done;
      intros; apply Hscan; (done || lia). }
  destruct (bool_decide _).
  - apply Hdeep. intros Hp. apply plain_join; [done|].
    by destruct (Hwords Hp) as [_ [_ ?]%Forall_cons].
  - destruct (contains _ _); [|auto with safety].
    destruct (nested_shell_script rest) as [script|] eqn:Hs; [|auto with safety].
    apply Hdeep. intros Hp. eapply nested_shell_script_plain, Hs.
    by destruct (Hwords Hp) as [_ [_ ?]%Forall_cons].
Qed.
Lemma check_base_ends base args segment : ends panics (check_base context base args segment).
Proof. unfold check_base. auto 8 with safety. Qed.

Lemma check_segment_ends segment depth :
  scan_ends depth → readable panics segment →
  ends panics (check_segment scan context segment depth).
Proof.
  intros Hscan Hseg. unfold check_segment.
  destruct (redirect_to_block_device segment); [auto with safety|].
  destruct (tokenize segment) as [[|first rest]|] eqn:Htok; [auto with safety| |auto with safety].
  pose proof (readable_words _ _ Hseg Htok) as Hwords.
  assert (Hdeep : ∀ s, readable panics s → ends panics (scan s (depth + 1))).
  { intros s Hs. apply Hscan; (done || lia). }
  destruct (bool_decide _).
  { apply Hdeep. intros Hp. apply plain_join; [done|].
    by destruct (Hwords Hp) as [[_ ?]%Forall_cons _]. }
  destruct (strip_wrappers (first :: rest)) as [|base_raw args]; [auto with safety|].
  assert (Hargs : panics = false → Forall plain args).
  { intros Hp. by destruct (Hwords Hp) as [_ [_ ?]%Forall_cons]. }
  destruct (if contains NESTED_SHELLS _ then _ else _) as [script|] eqn:Hs.
  { apply Hdeep. intros Hp. destruct (contains NESTED_SHELLS _); [|done].
    eauto using nested_shell_script_plain. }
  destruct (if bool_decide (base_name base_raw = "cmd") then _ else _) as [script|] eqn:Hc.
  { apply Hdeep. intros Hp. destruct (bool_decide _) in Hc; [|done].
    eauto using nested_cmd_script_plain. }
  destruct (contains POWERSHELL_SHELLS _); [|apply check_base_ends].
  destruct (has_encoded_powershell_command args); [auto with safety|].
  destruct (nested_powershell_script args) as [script|] eqn:Hps; [|apply check_base_ends].
  apply Hdeep. intros Hp. eauto using nested_powershell_script_plain.
Qed.

Lemma check_segments_ends segments variables depth :
  scan_ends depth → Forall (readable panics) segments → readable_values variables →
  ends panics (check_segments scan context segments variables depth).
Proof.
  intros Hscan Hsegs Hvars. induction Hsegs as [|s segments Hs _ IH]; simpl; [auto with safety|].
  destruct (is_empty _); [done|].
  assert (Htrim : readable panics (trim s)) by (intros Hp; auto using plain_trim).
  repeat apply ends_first_reason; [|apply check_nested_ends| |apply check_segment_ends|]; try done;
    [apply check_variable_ends|apply check_argument_ends]; try done;
    intros; apply Hscan; (done || lia).
Qed.
Lemma scan_each_ends describe bodies depth :
  scan_ends depth → Forall (readable panics) bodies →
  ends panics (scan_each scan describe bodies depth).
Proof.
  intros Hscan. induction 1 as [|body bodies Hb _ IH]; simpl; [auto with safety|].
  apply ends_first_reason; [|done]. apply ends_verdict_map, Hscan; (done || lia).
Qed.
Lemma scan_body_ends command depth :
  scan_ends depth → readable panics command → ends panics (scan_body scan context command depth).
Proof.
  intros Hscan Hc. unfold scan_body. destruct (is_fork_bomb command); [auto with safety|].
  assert (Hall : ∀ l, (plain command → Forall plain l) → Forall (readable panics) l).
  { intros l Hl. apply Forall_forall. intros x Hx Hp.
    specialize (Hl (Hc Hp)). by eapply Forall_forall in Hl. }
  repeat apply ends_first_reason; auto with safety.
  - apply check_segments_ends; [done|auto using plain_split_segments|].
    intros Hp. apply plain_collect, plain_split_segments, Hc, Hp.
  - apply scan_each_ends; [done|auto using plain_extract_substitutions].
  - destruct (extract_library_ends panics command Hc) as [He Hl].
    apply (ends_bind panics _ _ He). intros candidates Hcand.
    apply scan_each_ends; [done|by apply Hl].
Qed.
End Ends.

Lemma scan_answers panics fuel context command depth :
  readable panics command → 0 < fuel → 10 ≤ fuel + depth →
  ends panics (scan fuel context command depth).
Proof.
  revert command depth. induction fuel as [|fuel IH]; intros command depth Hc Hf Hd; [lia|].
  simpl. destruct (8 <? depth) eqn:Hdeep; [auto with safety|]. apply Nat.ltb_ge in Hdeep.
  apply scan_body_ends; [|done]. intros s d Hs ? ?. apply IH; (done || lia).
Qed.
Lemma inspect_ends panics env_var context command :
  readable panics command → ends panics (inspect env_var context command).
Proof.
  intros Hc. unfold inspect. destruct (interceptor_disabled env_var); [auto with safety|].
  destruct (is_empty _); [auto with safety|].
  apply scan_answers; [|unfold scan_fuel; lia..]. intros Hp. apply plain_trim, Hc, Hp.
Qed.

(** ** A workspace only relaxes the scan

    [relaxes inside outside]: without a workspace the command is refused, or
    both runs agree on something other than a refusal. *)

Definition refused (m : verdict) : Prop := ∃ reason, m = Ok (Some reason).
Definition relaxes (inside outside : verdict) : Prop :=
  refused outside ∨ (inside = outside ∧ ¬ refused inside).

Lemma refused_Some reason : refused (Ok (Some reason)).
Proof. by exists reason. Qed.
Lemma relaxes_same m : relaxes m m.
Proof.
  destruct m as [[r|]|[]| |]; [left; apply refused_Some|right; split; [done|by intros [? ?]]..].
Qed.
Lemma relaxes_first_reason m n inside outside :
  relaxes m n → relaxes (inside tt) (outside tt) →
  relaxes (first_reason m inside) (first_reason n outside).
Proof.
  intros [[r ->]|[-> Hm]] Hk; [left; apply refused_Some|].
  destruct n as [[r|]|[]| |]; simpl; [by destruct Hm; apply refused_Some|done|..];
    apply relaxes_same.
Qed.
Lemma relaxes_verdict_map f m n : relaxes m n → relaxes (verdict_map f m) (verdict_map f n).
Proof. intros [[r ->]|[-> Hm]]; [left; apply refused_Some|apply relaxes_same]. Qed.
#[export] Hint Resolve relaxes_same relaxes_first_reason relaxes_verdict_map : safety.

(** The checks of a base command only compare more leniently. *)
Definition lenient (inside outside : option string) : Prop :=
  ∀ reason, inside = Some reason → outside = Some reason.

Lemma targets_without_context targets : deletion_targets_inside_workspace targets None = false.
Proof. done. Qed.
Lemma check_unix_lenient base args context :
  lenient (check_unix_base base args context) (check_unix_base base args None).
Proof.
  intros reason. unfold check_unix_base.
  rewrite !targets_without_context, !andb_false_r.
  destruct (is_base base ["rm"]); [by repeat case_match|].
  destruct (is_base base ["rmdir"] && targets_system_path args); [done|].
  by destruct (is_base base ["rmdir"] && deletion_targets_inside_workspace _ context).
Qed.
Lemma check_cmd_lenient base args segment context :
  lenient (check_cmd_base base args segment context) (check_cmd_base base args segment None).
Proof.
  intros reason. unfold check_cmd_base. rewrite !targets_without_context, !andb_false_r.
  destruct (is_base base ["del"; "erase"] && targets_system_path args); [done|].
  destruct (is_base base ["del"; "erase"] && deletion_targets_inside_workspace _ context); [done|].
  destruct (is_base base ["del"; "erase"] && existsb _ args); [done|].
  destruct (is_base base ["rd"; "rmdir"] && targets_system_path args); [done|].
  by destruct (is_base base ["rd"; "rmdir"] && deletion_targets_inside_workspace _ context).
Qed.
Lemma check_windows_lenient base args segment context :
  lenient (check_windows_base base args segment context) (check_windows_base base args segment None).
Proof.
  intros reason. unfold check_windows_base. rewrite !targets_without_context.
  destruct (is_base base _); [|done]. destruct (targets_system_path args); [done|].
  by destruct (deletion_targets_inside_workspace _ context).
Qed.
Lemma lenient_or inside outside rest rest' :
  lenient inside outside → relaxes (rest tt) (rest' tt) →
  relaxes (first_reason (Ok inside) rest) (first_reason (Ok outside) rest').
Proof.
  intros Hl Hrest. destruct outside as [r|]; [left; apply refused_Some|].
  destruct inside as [r|]; [by specialize (Hl r eq_refl)|]. done.
Qed.
Lemma lenient_relaxes inside outside : lenient inside outside → relaxes (Ok inside) (Ok outside).
Proof.
  intros Hl. destruct outside as [r|]; [left; apply refused_Some|].
  destruct inside as [r|]; [by specialize (Hl r eq_refl)|]. apply relaxes_same.
Qed.
Lemma check_base_relaxes base args segment context :
  relaxes (check_base context base args segment) (check_base None base args segment).
Proof.
  unfold check_base. apply lenient_or; [apply check_unix_lenient|].
  apply lenient_or; [apply check_cmd_lenient|].
  apply lenient_relaxes, check_windows_lenient.
Qed.

Section Relaxes.
Context (inside outside : string → nat → verdict) (context : option SafetyContext).
Hypothesis Hscan : ∀ s d, relaxes (inside s d) (outside s d).
#[local] Hint Resolve Hscan check_base_relaxes : safety.

Lemma check_variable_relaxes segment variables depth :
  relaxes (check_variable_indirection inside segment variables depth)
    (check_variable_indirection outside segment variables depth).
Proof. unfold check_variable_indirection. repeat case_match; auto with safety. Qed.
Lemma check_argument_relaxes segment variables depth :
  relaxes (check_argument_variable_expansion inside segment variables depth)
    (check_argument_variable_expansion outside segment variables depth).
Proof. unfold check_argument_variable_expansion. repeat case_match; auto with safety. Qed.
#[local] Hint Resolve check_variable_relaxes check_argument_relaxes : safety.
Lemma check_nested_relaxes segment variables depth :
  relaxes (check_nested_variable_indirection inside segment variables depth)
    (check_nested_variable_indirection outside segment variables depth).
Proof. unfold check_nested_variable_indirection. repeat case_match; auto with safety. Qed.
Lemma check_segment_relaxes segment depth :
  relaxes (check_segment inside context segment depth) (check_segment outside None segment depth).
Proof. unfold check_segment. repeat case_match; auto with safety. Qed.
#[local] Hint Resolve check_nested_relaxes check_segment_relaxes : safety.
Lemma check_segments_relaxes segments variables depth :
  relaxes (check_segments inside context segments variables depth)
    (check_segments outside None segments variables depth).
Proof.
  induction segments as [|s segments IH]; simpl; [apply relaxes_same|]. case_match; [done|].
  repeat apply relaxes_first_reason; auto 2 with safety.
Qed.
Lemma scan_each_relaxes describe bodies depth :
  relaxes (scan_each inside describe bodies depth) (scan_each outside describe bodies depth).
Proof. induction bodies; simpl; auto with safety. Qed.
Lemma scan_body_relaxes command depth :
  relaxes (scan_body inside context command depth) (scan_body outside None command depth).
Proof.
  unfold scan_body. case_match; [auto with safety|].
  repeat apply relaxes_first_reason; auto using check_segments_relaxes, scan_each_relaxes with safety.
  destruct (extract_library_shell_commands command) as [l|[]| |]; simpl;
    auto using scan_each_relaxes with safety.
Qed.
End Relaxes.

Lemma scan_relaxes fuel context command depth :
  relaxes (scan fuel context command depth) (scan fuel None command depth).
Proof.
  revert command depth. induction fuel as [|fuel IH]; intros command depth; simpl;
    [apply relaxes_same|]. case_match; [apply relaxes_same|]. by apply scan_body_relaxes.
Qed.
