(* ===== verification/CommandGrammar.v ===== *)
(** * The texts the interceptor reads, as grammars

    Words and quotes ([line]), segments closed under quotes and parentheses and
    the connectors between them ([sequence]), and the bodies of substitutions
    ([balanced], [passed]).  [tokenize] is exactly [line]; [split_segments] and
    [extract_substitutions] find the segments and bodies of such texts. *)

From stdpp Require Import base list strings gmap sorting.
From Stdlib Require Import ZArith Lia Ascii.
From S2P Require Import Prelude RustStd RustText CommandSafety CommandText.
Local Open Scope nat_scope.

(** ** Characters *)

Definition sq : string := ascii_char squote.
Definition dq : string := ascii_char dquote.
Definition bs : string := ascii_char bslash.
Definition bq : string := ascii_char bquote.
Definition lp : string := ascii_char open_paren.
Definition rp : string := ascii_char close_paren.
Definition dl : string := ascii_char dollar.

Definition unquoted (c : string) : bool :=
  negb (contains [sq; dq; bs] c) && negb (is_whitespace c).

(** ** Words *)

(** The inside of double quotes, and the text it stands for. *)
Inductive quoted : list string → string → Prop :=
| quoted_nil : quoted [] ""
| quoted_char c t v : c ≠ dq → c ≠ bs → quoted t v → quoted (c :: t) (c +:+ v)
| quoted_escape c t v : quoted t v → quoted (bs :: c :: t) (c +:+ v).

Inductive word : list string → string → Prop :=
| word_nil : word [] ""
| word_char c t v : unquoted c = true → word t v → word (c :: t) (c +:+ v)
| word_escape c t v : word t v → word (bs :: c :: t) (c +:+ v)
| word_single q t v :
    Forall (λ c, c ≠ sq) q → word t v → word (sq :: q ++ sq :: t) (text_of q +:+ v)
| word_double q w t v : quoted q w → word t v → word (dq :: q ++ dq :: t) (w +:+ v).

(** A line and its words.  A backslash at the end is dropped. *)
Inductive line : list string → list string → Prop :=
| line_end : line [] []
| line_blank c t ws : is_whitespace c = true → line t ws → line (c :: t) ws
| line_last t v : t ≠ [] → word t v → line t [v]
| line_open t v : word t v → line (t ++ [bs]) [v]
| line_word t v c rest ws :
    t ≠ [] → word t v → is_whitespace c = true → line rest ws →
    line (t ++ c :: rest) (v :: ws).

(** ** Facts about characters *)

Lemma is_chr_true a c : is_chr a c = true ↔ c = ascii_char a.
Proof. apply bool_decide_eq_true. Qed.
Lemma is_chr_false a c : is_chr a c = false ↔ c ≠ ascii_char a.
Proof. apply bool_decide_eq_false. Qed.
Lemma is_chr_refl a : is_chr a (ascii_char a) = true.
Proof. by apply is_chr_true. Qed.
Lemma is_chr_ne a b : a ≠ b → is_chr a (ascii_char b) = false.
Proof. intros Hab. apply is_chr_false. intros [= ->]. done. Qed.

Lemma unquoted_spec c :
  unquoted c = true ↔
  is_chr squote c = false ∧ is_chr dquote c = false ∧ is_chr bslash c = false
  ∧ is_whitespace c = false.
Proof.
  unfold unquoted, contains.
  rewrite andb_true_iff, !negb_true_iff, bool_decide_eq_false, !is_chr_false,
    !not_elem_of_cons.
  split; [intros [(?&?&?&_) ?]|intros (?&?&?&?)]; split_and!; try done. apply not_elem_of_nil.
Qed.
Lemma text_of_cons c t : text_of (c :: t) = c +:+ text_of t.
Proof. destruct t as [|d t]; [symmetry; apply append_empty|done]. Qed.
Lemma text_of_app t u : text_of (t ++ u) = text_of t +:+ text_of u.
Proof.
  induction t as [|c t IH]; [done|]. change ((c :: t) ++ u) with (c :: (t ++ u)).
  by rewrite !text_of_cons, IH, append_assoc.
Qed.
Lemma text_of_chars s : text_of (chars s) = s.
Proof. apply chars_concat. Qed.

(** ** The tokenizer accepts the lines of the grammar *)

Lemma words_escape c cs single double started cur toks :
  single = false →
  tokenize_loop (bs :: c :: cs) single double false started cur toks
  = tokenize_loop cs single double false true (cur +:+ c) toks.
Proof. by intros ->. Qed.

Lemma words_single q cs cur toks :
  Forall (λ c, c ≠ sq) q →
  tokenize_loop (q ++ sq :: cs) true false false true cur toks
  = tokenize_loop cs false false false true (cur +:+ text_of q) toks.
Proof.
  intros Hq. revert cur. induction Hq as [|c q Hc Hq IH]; intros cur; [by rewrite append_empty|].
  cbn [app tokenize_loop]. apply (is_chr_false squote) in Hc. rewrite Hc, !andb_false_r.
  rewrite IH, text_of_cons, append_assoc. done.
Qed.
Lemma words_quoted q w cs cur toks :
  quoted q w →
  tokenize_loop (q ++ dq :: cs) false true false true cur toks
  = tokenize_loop cs false false false true (cur +:+ w) toks.
Proof.
  intros Hq. revert cur. induction Hq as [|c t v Hd Hb Hq IH|c t v Hq IH]; intros cur.
  - by rewrite append_empty.
  - cbn [app tokenize_loop]. apply (is_chr_false dquote) in Hd. apply (is_chr_false bslash) in Hb.
    rewrite Hd, Hb, !andb_false_r. simpl. by rewrite IH, append_assoc.
  - change ((bs :: c :: t) ++ dq :: cs) with (bs :: c :: (t ++ dq :: cs)).
    rewrite words_escape by done. by rewrite IH, append_assoc.
Qed.
Lemma words_word t v cs started cur toks :
  word t v →
  tokenize_loop (t ++ cs) false false false started cur toks
  = tokenize_loop cs false false false (started || bool_decide (t ≠ [])) (cur +:+ v) toks.
Proof.
  intros Hw. revert started cur.
  assert (Ht : ∀ c l, bool_decide ((c :: l : list string) ≠ []) = true)
    by (intros; by apply bool_decide_eq_true).
  induction Hw as [|c t v Hc Hw IH|c t v Hw IH|q t v Hq Hw IH|q w t v Hq Hw IH];
    intros started cur; rewrite ?Ht, ?orb_true_r.
  - by rewrite bool_decide_eq_false_2, orb_false_r, append_empty by auto.
  - apply unquoted_spec in Hc as (Hs & Hd & Hb & Hws).
    cbn [app tokenize_loop]. rewrite Hs, Hd, Hb, Hws. simpl. by rewrite IH, append_assoc.
  - change ((bs :: c :: t) ++ cs) with (bs :: c :: (t ++ cs)).
    rewrite words_escape by done. by rewrite IH, append_assoc.
  - change ((sq :: q ++ sq :: t) ++ cs) with (sq :: (q ++ sq :: t) ++ cs).
    rewrite <- app_assoc. simpl. rewrite words_single by done. by rewrite IH, append_assoc.
  - change ((dq :: q ++ dq :: t) ++ cs) with (dq :: (q ++ dq :: t) ++ cs).
    rewrite <- app_assoc. simpl. rewrite (words_quoted q w) by done. by rewrite IH, append_assoc.
Qed.
Lemma words_blank c cs started cur toks :
  is_whitespace c = true →
  tokenize_loop (c :: cs) false false false started cur toks
  = tokenize_loop cs false false false false (if started then "" else cur)
      (if started then toks ++ [cur] else toks).
Proof.
  intros Hc. simpl.
  assert (Hne : is_chr bslash c = false ∧ is_chr squote c = false ∧ is_chr dquote c = false).
  { split_and!; apply is_chr_false; intros ->; vm_compute in Hc; done. }
  destruct Hne as (-> & -> & ->). rewrite Hc. by destruct started.
Qed.
Lemma words_line cs ws toks :
  line cs ws → tokenize_loop cs false false false false "" toks = Some (toks ++ ws).
Proof.
  intros Hl. revert toks. induction Hl as [|c t ws Hc Hl IH|t v Hne Hw|t v Hw|t v c rest ws Hne Hw Hc Hl IH];
    intros toks.
  - simpl. by rewrite app_nil_r.
  - rewrite words_blank by done. apply IH.
  - rewrite <- (app_nil_r t), (words_word t v) by done. simpl.
    by rewrite bool_decide_eq_true_2.
  - by rewrite (words_word t v).
  - rewrite (words_word t v) by done. rewrite bool_decide_eq_true_2 by done. simpl orb.
    rewrite words_blank by done. rewrite IH, <- app_assoc. done.
Qed.

(** ** It accepts nothing else *)

(** The rest of a line inside a word: what the word goes on with, then words. *)
Inductive word_tail : list string → string → list string → Prop :=
| wt_last t v : word t v → word_tail t v []
| wt_open t v : word t v → word_tail (t ++ [bs]) v []
| wt_word t v c rest ws :
    word t v → is_whitespace c = true → line rest ws → word_tail (t ++ c :: rest) v ws.

(** [p] stands for [pv] at the front of a word. *)
Definition word_front (p : list string) (pv : string) : Prop :=
  p ≠ [] ∧ ∀ t v, word t v → word (p ++ t) (pv +:+ v).
Lemma word_tail_front p pv cs v ws :
  word_front p pv → word_tail cs v ws → word_tail (p ++ cs) (pv +:+ v) ws.
Proof.
  intros [_ Hp] Ht. destruct Ht as [t v Hw|t v Hw|t v c rest ws Hw Hc Hl].
  - by apply wt_last, Hp.
  - rewrite app_assoc. by apply wt_open, Hp.
  - rewrite app_assoc. by apply wt_word, Hl; [apply Hp|].
Qed.
Lemma line_front p pv cs v ws :
  word_front p pv → word_tail cs v ws → line (p ++ cs) ((pv +:+ v) :: ws).
Proof.
  intros [Hne Hp] Ht.
  assert (Hne' : ∀ t, p ++ t ≠ []) by (intros t; by destruct p).
  destruct Ht as [t v Hw|t v Hw|t v c rest ws Hw Hc Hl].
  - by apply line_last; [|apply Hp].
  - rewrite app_assoc. by apply line_open, Hp.
  - rewrite app_assoc. by apply line_word; [|apply Hp|..].
Qed.
Lemma front_char c : unquoted c = true → word_front [c] c.
Proof. intros Hc. split; [done|]. intros. by apply word_char. Qed.
Lemma front_escape c : word_front [bs; c] c.
Proof. split; [done|]. intros. by apply word_escape. Qed.
Lemma front_single q : Forall (λ c, c ≠ sq) q → word_front (sq :: q ++ [sq]) (text_of q).
Proof.
  intros Hq. split; [done|]. intros t v Hw. simpl. rewrite <- app_assoc. by apply word_single.
Qed.
Lemma front_double q w : quoted q w → word_front (dq :: q ++ [dq]) w.
Proof.
  intros Hq. split; [done|]. intros t v Hw. simpl. rewrite <- app_assoc. by apply word_double.
Qed.

Lemma single_inv cs cur toks out :
  tokenize_loop cs true false false true cur toks = Some out →
  ∃ q rest, cs = q ++ sq :: rest ∧ Forall (λ c, c ≠ sq) q ∧
    tokenize_loop rest false false false true (cur +:+ text_of q) toks = Some out.
Proof.
  revert cur. induction cs as [|c cs IH]; intros cur; simpl; [done|].
  rewrite !andb_false_r. simpl. destruct (is_chr squote c) eqn:Hc; simpl.
  - intros Hloop. apply is_chr_true in Hc as ->. exists [], cs. by rewrite append_empty.
  - rewrite ?andb_false_r. intros (q & rest & -> & Hq & Hloop)%IH. apply is_chr_false in Hc.
    exists (c :: q), rest. rewrite text_of_cons, <- append_assoc. split_and!; [done|by constructor|done].
Qed.
Lemma double_inv n cs cur toks out :
  length cs ≤ n →
  tokenize_loop cs false true false true cur toks = Some out →
  ∃ q w rest, cs = q ++ dq :: rest ∧ quoted q w ∧
    tokenize_loop rest false false false true (cur +:+ w) toks = Some out.
Proof.
  revert cs cur. induction n as [|n IH]; intros [|c cs] cur Hn; simpl in *; try done; try lia.
  rewrite !andb_true_r, !andb_false_r. simpl. destruct (is_chr bslash c) eqn:Hb.
  - apply is_chr_true in Hb as ->. destruct cs as [|d cs]; [done|]. simpl in Hn.
    intros Hloop. simpl in Hloop.
    apply IH in Hloop as (q & w & rest & -> & Hq & Hloop); [|lia].
    exists (bs :: d :: q), (d +:+ w), rest. rewrite <- append_assoc.
    split_and!; [done|by apply quoted_escape|done].
  - destruct (is_chr dquote c) eqn:Hd; simpl.
    + intros Hloop. apply is_chr_true in Hd as ->. exists [], "", cs.
      rewrite append_empty. split_and!; [done|apply quoted_nil|done].
    + intros (q & w & rest & -> & Hq & Hloop)%IH; [|lia].
      apply is_chr_false in Hb, Hd. exists (c :: q), (c +:+ w), rest. rewrite <- append_assoc.
      split_and!; [done|by apply quoted_char|done].
Qed.

(** The first step of the loop outside quotes. *)
Lemma words_front cs started cur toks out :
  tokenize_loop cs false false false started cur toks = Some out →
  cs = []
  ∨ (∃ c cs', cs = c :: cs' ∧ is_whitespace c = true)
  ∨ cs = [bs]
  ∨ (∃ p pv cs', cs = p ++ cs' ∧ word_front p pv ∧ length cs' < length cs ∧
       tokenize_loop cs' false false false true (cur +:+ pv) toks = Some out).
Proof.
  destruct cs as [|c cs]; [by left|]. simpl. rewrite !andb_true_r.
  destruct (is_chr bslash c) eqn:Hb.
  { apply is_chr_true in Hb as ->. destruct cs as [|d cs]; [by right; right; left|].
    simpl. intros Hloop. right; right; right. exists [bs; d], d, cs.
    split_and!; [done|apply front_escape|simpl; lia|done]. }
  destruct (is_chr squote c) eqn:Hs.
  { apply is_chr_true in Hs as ->. simpl. intros (q & rest & -> & Hq & Hloop)%single_inv.
    right; right; right. exists (sq :: q ++ [sq]), (text_of q), rest. simpl.
    rewrite <- app_assoc, length_app. simpl.
    split_and!; [done|by apply front_single|lia|done]. }
  destruct (is_chr dquote c) eqn:Hd.
  { apply is_chr_true in Hd as ->. simpl.
    intros (q & w & rest & -> & Hq & Hloop)%(double_inv (length cs)); [|done].
    right; right; right. exists (dq :: q ++ [dq]), w, rest. simpl.
    rewrite <- app_assoc, length_app. simpl.
    split_and!; [done|by apply front_double|lia|done]. }
  destruct (is_whitespace c) eqn:Hw; simpl; [intros _; right; left; eauto|].
  intros Hloop. right; right; right. exists [c], c, cs.
  split_and!; [done|by apply front_char, unquoted_spec|simpl; lia|done].
Qed.

Lemma words_inv n :
  (∀ cs cur toks out, length cs ≤ n →
     tokenize_loop cs false false false true cur toks = Some out →
     ∃ v ws, out = toks ++ (cur +:+ v) :: ws ∧ word_tail cs v ws) ∧
  (∀ cs toks out, length cs ≤ n →
     tokenize_loop cs false false false false "" toks = Some out →
     ∃ ws, out = toks ++ ws ∧ line cs ws).
Proof.
  induction n as [n IH] using lt_wf_ind. split; intros cs.
  - intros cur toks out Hn Hloop.
    destruct (words_front _ _ _ _ _ Hloop) as [->|[(c & cs' & -> & Hc)|[->|(p & pv & cs' & -> & Hp & Hlt & Hrest)]]].
    + simpl in Hloop. injection Hloop as <-. exists "", []. rewrite append_empty.
      split; [done|]. apply wt_last, word_nil.
    + rewrite words_blank in Hloop by done.
      destruct (IH (length cs')) as [_ IHl]; [simpl in *; lia|].
      destruct (IHl cs' _ _ (le_n _) Hloop) as (ws & -> & Hl).
      exists "", ws. rewrite append_empty, <- app_assoc. split; [done|].
      by apply (wt_word [] "" c cs' ws word_nil).
    + simpl in Hloop. injection Hloop as <-. exists "", []. rewrite append_empty.
      split; [done|]. apply (wt_open [] ""), word_nil.
    + destruct (IH (length cs')) as [IHw _]; [lia|].
      destruct (IHw cs' _ _ _ (le_n _) Hrest) as (v & ws & -> & Ht).
      exists (pv +:+ v), ws. rewrite <- append_assoc. split; [done|]. by apply word_tail_front.
  - intros toks out Hn Hloop.
    destruct (words_front _ _ _ _ _ Hloop) as [->|[(c & cs' & -> & Hc)|[->|(p & pv & cs' & -> & Hp & Hlt & Hrest)]]].
    + simpl in Hloop. injection Hloop as <-. exists []. rewrite app_nil_r.
      split; [done|apply line_end].
    + rewrite words_blank in Hloop by done.
      destruct (IH (length cs')) as [_ IHl]; [simpl in *; lia|].
      destruct (IHl cs' _ _ (le_n _) Hloop) as (ws & -> & Hl).
      exists ws. split; [done|by apply line_blank].
    + simpl in Hloop. injection Hloop as <-. exists [""]. split; [done|].
      apply (line_open [] ""), word_nil.
    + destruct (IH (length cs')) as [IHw _]; [lia|].
      destruct (IHw cs' _ _ _ (le_n _) Hrest) as (v & ws & -> & Ht).
      exists ((pv +:+ v) :: ws). split; [done|]. by apply line_front.
Qed.

Lemma tokenize_line segment words : tokenize segment = Some words ↔ line (chars segment) words.
Proof.
  unfold tokenize. split.
  - intros Hloop. destruct (words_inv (length (chars segment))) as [_ Hinv].
    by destruct (Hinv _ _ _ (le_n _) Hloop) as (ws & -> & Hl).
  - intros Hl. by rewrite (words_line _ _ [] Hl).
Qed.

(** ** Segments *)

(** Characters [split_segments] only copies. *)
Definition ordinary (c : string) : bool := negb (contains [sq; dq; bs; bq; lp; rp] c).
Definition connector_char (c : string) : bool :=
  contains (ascii_char <$> [line_feed; semicolon; pipe; ampersand]) c.

(** A text that starts inside [k] parentheses and ends outside all of them,
    with no connector outside. *)
Inductive closed : nat → list string → Prop :=
| closed_nil : closed 0 []
| closed_char k c t :
    ordinary c = true → (0 < k ∨ connector_char c = false) → closed k t → closed k (c :: t)
| closed_escape k c t : closed k t → closed k (bs :: c :: t)
| closed_single k q t : Forall (λ c, c ≠ sq) q → closed k t → closed k (sq :: q ++ sq :: t)
| closed_double k q v t : quoted q v → closed k t → closed k (dq :: q ++ dq :: t)
| closed_backquote k q t :
    Forall (λ c, c ≠ bq ∧ c ≠ bs) q → closed k t → closed k (bq :: q ++ bq :: t)
| closed_open k t : closed (S k) t → closed k (lp :: t)
| closed_close k t : closed k t → closed (S k) (rp :: t).

(** Connectors; [&&] and [||] are one connector, so a single [&] or [|] is not
    followed by its like. *)
Inductive connector : list string → list string → Prop :=
| connector_line rest : connector [ascii_char line_feed] rest
| connector_semicolon rest : connector [ascii_char semicolon] rest
| connector_and rest : connector [ascii_char ampersand; ascii_char ampersand] rest
| connector_or rest : connector [ascii_char pipe; ascii_char pipe] rest
| connector_background rest :
    head rest ≠ Some (ascii_char ampersand) → connector [ascii_char ampersand] rest
| connector_pipe rest : head rest ≠ Some (ascii_char pipe) → connector [ascii_char pipe] rest.

Inductive sequence : list (list string) → list string → Prop :=
| sequence_last s : closed 0 s → sequence [s] s
| sequence_cons s separator t segments :
    closed 0 s → connector separator t → sequence segments t →
    sequence (s :: segments) (s ++ separator ++ t).

Lemma ordinary_spec c :
  ordinary c = true ↔
  is_chr squote c = false ∧ is_chr dquote c = false ∧ is_chr bslash c = false ∧
  is_chr bquote c = false ∧ is_chr open_paren c = false ∧ is_chr close_paren c = false.
Proof.
  unfold ordinary, contains.
  rewrite negb_true_iff, bool_decide_eq_false, !is_chr_false, !not_elem_of_cons.
  split; [intros (?&?&?&?&?&?&_)|intros (?&?&?&?&?&?)]; split_and!; try done. apply not_elem_of_nil.
Qed.
Lemma connector_char_spec c :
  connector_char c = false ↔
  is_chr line_feed c = false ∧ is_chr semicolon c = false ∧ is_chr pipe c = false ∧
  is_chr ampersand c = false.
Proof.
  unfold connector_char, contains. simpl.
  rewrite bool_decide_eq_false, !is_chr_false, !not_elem_of_cons.
  split; [intros (?&?&?&?&_)|intros (?&?&?&?)]; split_and!; try done. apply not_elem_of_nil.
Qed.

Section Split.
Context (rest : list string) (segs : list string).

Lemma split_quoted q v k current :
  quoted q v →
  split_loop (q ++ dq :: rest) false true false false k current segs
  = split_loop rest false false false false k (current +:+ text_of q +:+ dq) segs.
Proof.
  intros Hq. revert current. induction Hq as [|c t v Hd Hb Hq IH|c t v Hq IH]; intros current.
  - reflexivity.
  - cbn [app split_loop]. apply (is_chr_false dquote) in Hd. apply (is_chr_false bslash) in Hb.
    rewrite Hd, Hb, ?andb_false_r. cbn [andb negb orb]. rewrite ?andb_false_r. cbn [andb].
    rewrite IH, text_of_cons. by rewrite !append_assoc.
  - change ((bs :: c :: t) ++ dq :: rest) with (bs :: c :: (t ++ dq :: rest)).
    cbn [split_loop]. change (is_chr bslash bs) with true. cbn [andb negb].
    rewrite IH, !text_of_cons. by rewrite !append_assoc.
Qed.
Lemma split_single q k current :
  Forall (λ c, c ≠ sq) q →
  split_loop (q ++ sq :: rest) true false false false k current segs
  = split_loop rest false false false false k (current +:+ text_of q +:+ sq) segs.
Proof.
  intros Hq. revert current. induction Hq as [|c q Hc Hq IH]; intros current; [reflexivity|].
  cbn [app split_loop]. apply (is_chr_false squote) in Hc.
  rewrite Hc, ?andb_false_r. cbn [andb negb orb]. rewrite ?andb_false_r. cbn [andb].
  rewrite IH, text_of_cons. by rewrite !append_assoc.
Qed.
Lemma split_backquoted q k current :
  Forall (λ c, c ≠ bq ∧ c ≠ bs) q →
  split_loop (q ++ bq :: rest) false false false true k current segs
  = split_loop rest false false false false k (current +:+ text_of q +:+ bq) segs.
Proof.
  intros Hq. revert current. induction Hq as [|c q [Hc Hb] Hq IH]; intros current; [reflexivity|].
  cbn [app split_loop]. apply (is_chr_false bquote) in Hc. apply (is_chr_false bslash) in Hb.
  rewrite Hc, Hb, ?andb_false_r. cbn [andb negb orb]. rewrite ?andb_false_r.
  rewrite IH, text_of_cons. by rewrite !append_assoc.
Qed.
End Split.

Lemma split_closed k t rest current segs :
  closed k t →
  split_loop (t ++ rest) false false false false k current segs
  = split_loop rest false false false false 0 (current +:+ text_of t) segs.
Proof.
  intros Ht. revert current.
  induction Ht as [|k c t Hc Hk Ht IH|k c t Ht IH|k q t Hq Ht IH|k q v t Hq Ht IH|k q t Hq Ht IH|k t Ht IH|k t Ht IH];
    intros current; rewrite ?text_of_cons.
  - by rewrite append_empty.
  - apply ordinary_spec in Hc as (Hs & Hd & Hb & Hbq & Hlp & Hrp).
    cbn [app split_loop]. rewrite Hs, Hd, Hb, Hbq, Hlp, Hrp. cbn [andb orb].
    rewrite IH, append_assoc. destruct Hk as [Hk|Hk].
    + by rewrite (proj2 (Nat.ltb_lt 0 k) Hk).
    + apply connector_char_spec in Hk as (-> & -> & -> & ->). simpl. by destruct (0 <? k).
  - change ((bs :: c :: t) ++ rest) with (bs :: c :: (t ++ rest)). cbn [split_loop].
    change (is_chr bslash bs) with true. cbn [andb negb].
    rewrite IH. by rewrite !append_assoc.
  - change ((sq :: q ++ sq :: t) ++ rest) with (sq :: (q ++ sq :: t) ++ rest).
    rewrite <- app_assoc. cbn [split_loop app]. change (is_chr bslash sq) with false.
    change (is_chr squote sq) with true. cbn [andb negb].
    rewrite split_single, IH, text_of_app, text_of_cons by done. by rewrite !append_assoc.
  - change ((dq :: q ++ dq :: t) ++ rest) with (dq :: (q ++ dq :: t) ++ rest).
    rewrite <- app_assoc. cbn [split_loop app]. change (is_chr bslash dq) with false.
    change (is_chr squote dq) with false. change (is_chr dquote dq) with true. cbn [andb negb].
    rewrite (split_quoted _ _ q v), IH, text_of_app, text_of_cons by done. by rewrite !append_assoc.
  - change ((bq :: q ++ bq :: t) ++ rest) with (bq :: (q ++ bq :: t) ++ rest).
    rewrite <- app_assoc. cbn [split_loop app]. change (is_chr bslash bq) with false.
    change (is_chr squote bq) with false. change (is_chr dquote bq) with false.
    change (is_chr bquote bq) with true. cbn [andb negb].
    rewrite split_backquoted, IH, text_of_app, text_of_cons by done. by rewrite !append_assoc.
  - cbn [app split_loop]. change (is_chr bslash lp) with false. change (is_chr squote lp) with false.
    change (is_chr dquote lp) with false. change (is_chr bquote lp) with false.
    change (is_chr open_paren lp) with true. cbn [andb negb]. by rewrite IH, append_assoc.
  - cbn [app split_loop]. change (is_chr bslash rp) with false. change (is_chr squote rp) with false.
    change (is_chr dquote rp) with false. change (is_chr bquote rp) with false.
    change (is_chr open_paren rp) with false. change (is_chr close_paren rp) with true.
    cbn [andb negb pred]. by rewrite IH, append_assoc.
Qed.
Lemma split_connector separator rest current segs :
  connector separator rest →
  split_loop (separator ++ rest) false false false false 0 current segs
  = split_loop rest false false false false 0 "" (segs ++ [current]).
Proof.
  intros Hc. destruct Hc as [rest|rest|rest|rest|rest Hne|rest Hne]; try reflexivity.
  - destruct rest as [|next rest]; [done|]. simpl in *.
    rewrite bool_decide_eq_false_2; [done|]. congruence.
  - destruct rest as [|next rest]; [done|]. simpl in *.
    rewrite bool_decide_eq_false_2; [done|]. congruence.
Qed.
Lemma split_sequence segments t segs :
  sequence segments t →
  split_loop t false false false false 0 "" segs = segs ++ (text_of <$> segments).
Proof.
  intros Hs. revert segs. induction Hs as [s Hs|s separator t segments Hs Hc Hseq IH]; intros segs.
  - rewrite <- (app_nil_r s) at 1. rewrite (split_closed 0) by done. done.
  - rewrite (split_closed 0) by done. rewrite split_connector by done. rewrite IH.
    by rewrite <- app_assoc.
Qed.
Lemma split_segments_sequence command segments :
  sequence segments (chars command) → split_segments command = text_of <$> segments.
Proof. intros Hs. unfold split_segments. by rewrite (split_sequence segments). Qed.

Lemma Forall_other x t : forallb (λ c, negb (bool_decide (c = x))) t = true → Forall (λ c : string, c ≠ x) t.
Proof.
  induction t as [|c t IH]; [done|]. simpl. intros. guards. constructor; auto.
Qed.
Lemma closed_plain t u :
  forallb (λ c, ordinary c && negb (connector_char c)) t = true → closed 0 u → closed 0 (t ++ u).
Proof.
  intros Ht Hu. induction t as [|c t IH]; [done|]. simpl in Ht. guards.
  apply closed_char; auto.
Qed.

(** ** Substitutions *)

(** The text of a [$(...)] body: parentheses match, quotes do not matter. *)
Inductive balanced : nat → list string → Prop :=
| balanced_nil : balanced 0 []
| balanced_char k c t : c ≠ lp → c ≠ rp → balanced k t → balanced k (c :: t)
| balanced_open k t : balanced (S k) t → balanced k (lp :: t)
| balanced_close k t : balanced k t → balanced (S k) (rp :: t).

(** A substitution: its text and its body. *)
Inductive substitution : list string → list string → Prop :=
| substitution_paren body : balanced 0 body → substitution (dl :: lp :: body ++ [rp]) body
| substitution_backquote body :
    Forall (λ c, c ≠ bq) body → substitution (bq :: body ++ [bq]) body.

(** A text the reader of substitutions walks past: characters that start none,
    and whole substitutions. *)
Inductive passed : list string → Prop :=
| passed_nil : passed []
| passed_char c t :
    c ≠ bq → (c = dl → head t ≠ Some lp) → passed t → passed (c :: t)
| passed_substitution s body t : substitution s body → passed t → passed (s ++ t).

Lemma balanced_plain t : forallb (λ c, negb (contains [lp; rp] c)) t = true → balanced 0 t.
Proof.
  induction t as [|c t IH]; [intros _; apply balanced_nil|]. simpl. unfold contains. intros. guards.
  apply balanced_char; [set_solver..|auto].
Qed.
Lemma passed_plain t : forallb (λ c, negb (contains [bq; dl] c)) t = true → passed t.
Proof.
  induction t as [|c t IH]; [intros _; apply passed_nil|]. simpl. unfold contains. intros. guards.
  apply passed_char; [set_solver..|auto].
Qed.
Lemma paren_body_balanced k t rest acc :
  balanced k t → paren_body (t ++ rp :: rest) (S k) acc = (acc +:+ text_of t, rest).
Proof.
  intros Ht. revert acc. induction Ht as [|k c t Hl Hr Ht IH|k t Ht IH|k t Ht IH]; intros acc.
  - simpl. by rewrite append_empty.
  - apply (is_chr_false open_paren) in Hl. apply (is_chr_false close_paren) in Hr.
    cbn [app paren_body]. by rewrite Hl, Hr, IH, text_of_cons, append_assoc.
  - cbn [app paren_body]. change (is_chr open_paren lp) with true. cbn [andb].
    by rewrite IH, text_of_cons, append_assoc.
  - cbn [app paren_body]. change (is_chr open_paren rp) with false.
    change (is_chr close_paren rp) with true. cbn [andb].
    by rewrite IH, text_of_cons, append_assoc.
Qed.
Lemma backtick_body_closed t rest acc :
  Forall (λ c, c ≠ bq) t → backtick_body (t ++ bq :: rest) acc = (acc +:+ text_of t, rest).
Proof.
  intros Ht. revert acc. induction Ht as [|c t Hc Ht IH]; intros acc; simpl.
  - by rewrite append_empty.
  - apply (is_chr_false bquote) in Hc. by rewrite Hc, IH, text_of_cons, append_assoc.
Qed.

(** More rounds than characters change nothing. *)
Lemma paren_body_length cs depth acc : length (paren_body cs depth acc).2 ≤ length cs.
Proof.
  revert depth acc. induction cs as [|c cs IH]; intros depth acc; simpl; [done|].
  destruct (is_chr open_paren c); [etrans; [apply IH|lia]|].
  destruct (is_chr close_paren c); [|etrans; [apply IH|lia]].
  destruct depth as [|[|d]]; simpl; [lia..|]. etrans; [apply IH|lia].
Qed.
Lemma backtick_body_length cs acc : length (backtick_body cs acc).2 ≤ length cs.
Proof.
  revert acc. induction cs as [|c cs IH]; intros acc; simpl; [done|].
  destruct (is_chr bquote c); simpl; [lia|]. etrans; [apply IH|lia].
Qed.
Lemma substitutions_fuel fuel cs :
  length cs ≤ fuel → substitutions_from fuel cs = substitutions_from (S fuel) cs.
Proof.
  revert cs. induction fuel as [|fuel IH]; intros [|c cs] Hlen; simpl in *; try done; [lia|].
  destruct (is_chr dollar c && _).
  - pose proof (paren_body_length (tail cs) 1 "") as Hb.
    assert (length (tail cs) ≤ length cs) by (destruct cs; simpl; lia).
    destruct (paren_body _ _ _) as [body after]. simpl in Hb. rewrite IH by lia. done.
  - destruct (is_chr bquote c); [|rewrite IH by lia; done].
    pose proof (backtick_body_length cs "") as Hb.
    destruct (backtick_body _ _) as [body after]. simpl in Hb. rewrite IH by lia. done.
Qed.
Lemma substitutions_enough fuel cs :
  length cs ≤ fuel → substitutions_from fuel cs = substitutions_from (length cs) cs.
Proof. induction 1 as [|fuel Hle IH]; [done|]. by rewrite <- substitutions_fuel. Qed.

Lemma substitutions_char c cs :
  c ≠ bq → (c = dl → head cs ≠ Some lp) →
  substitutions_from (length (c :: cs)) (c :: cs) = substitutions_from (length cs) cs.
Proof.
  intros Hb Hd. simpl. apply (is_chr_false bquote) in Hb. rewrite Hb.
  destruct (is_chr dollar c) eqn:Hc; simpl; [|done].
  apply is_chr_true in Hc. destruct cs as [|next cs]; [done|].
  replace (is_chr open_paren next) with false; [done|]. symmetry. apply is_chr_false.
  intros ->. by apply (Hd Hc).
Qed.
Lemma substitutions_substitution s body rest :
  substitution s body →
  substitutions_from (length (s ++ rest)) (s ++ rest)
  = text_of body :: substitutions_from (length rest) rest.
Proof.
  intros Hs. destruct Hs as [body Hb|body Hb].
  - change ((dl :: lp :: body ++ [rp]) ++ rest) with (dl :: lp :: (body ++ [rp]) ++ rest).
    rewrite <- app_assoc. cbn [app]. destruct (length _) as [|n] eqn:Hn; [done|].
    cbn [substitutions_from]. change (is_chr dollar dl) with true.
    change (is_chr open_paren lp) with true. cbn [andb tail].
    rewrite (paren_body_balanced 0) by done. f_equal. apply substitutions_enough.
    simpl in Hn. rewrite length_app in Hn. simpl in Hn. lia.
  - change ((bq :: body ++ [bq]) ++ rest) with (bq :: (body ++ [bq]) ++ rest).
    rewrite <- app_assoc. cbn [app]. destruct (length _) as [|n] eqn:Hn; [done|].
    cbn [substitutions_from]. change (is_chr dollar bq) with false.
    change (is_chr bquote bq) with true. cbn [andb].
    rewrite backtick_body_closed by done. f_equal. apply substitutions_enough.
    simpl in Hn. rewrite length_app in Hn. simpl in Hn. lia.
Qed.
Lemma extract_passed pre s body post :
  passed pre → substitution s body →
  text_of body ∈ substitutions_from (length (pre ++ s ++ post)) (pre ++ s ++ post).
Proof.
  intros Hp Hs. induction Hp as [|c t Hb Hd Ht IH|s' body' t Hs' Ht IH].
  - cbn [app]. rewrite (substitutions_substitution s body) by done. constructor.
  - change ((c :: t) ++ s ++ post) with (c :: (t ++ s ++ post)).
    rewrite substitutions_char; [done..|]. intros Hc. destruct t as [|d t]; [|by apply Hd].
    by destruct Hs.
  - rewrite <- app_assoc, (substitutions_substitution s' body') by done. by constructor.
Qed.
