(* ===== verification/CommandPathFacts.v ===== *)
(** * Removal targets and the workspace

    [target_inside_workspace] compares texts.  For a workspace and a working
    directory that are canonical Unix paths ([abs_text] of clean names) it is a
    statement about names: the target, joined to the working directory and with
    its dots resolved lexically, lies below the workspace, up to ASCII case. *)

From stdpp Require Import base list strings gmap sorting.
From Stdlib Require Import ZArith Lia Ascii.
From S2P Require Import Prelude RustStd RustText RustPath.
From S2P Require Import CommandSafety.
Local Open Scope nat_scope.

(** ** The names a path stands for *)

(** [..] drops the name before it, whatever that name is. *)
Definition step_component (names : list string) (c : Component) : list string :=
  match c with
  | Normal name => names ++ [name]
  | ParentDir => removelast names
  | RootDir | CurDir => names
  end.
Definition lexical (path : string) : list string := foldl step_component [] (components path).

Lemma push_part_step names part :
  push_part names part
  = match body_component part with Some c => step_component names c | None => names end.
Proof.
  unfold push_part, body_component. destruct (is_empty part || _); [done|].
  by destruct (bool_decide (part = "..")).
Qed.
Lemma foldl_push names parts : foldl push_part names parts = foldl step_component names (body parts).
Proof.
  revert names. induction parts as [|part parts IH]; intros names; [done|].
  change (body (part :: parts)) with
    (match body_component part with Some c => c :: body parts | None => body parts end).
  cbn [foldl]. rewrite IH, push_part_step. by destruct (body_component part).
Qed.
Lemma lexical_split p : lexical p = foldl push_part [] (split_char fslash p).
Proof.
  unfold lexical. rewrite components_parts, foldl_app, foldl_push.
  change fslash with slash. f_equal. unfold first_component. by repeat case_bool_decide.
Qed.
Lemma lexical_abs names : Forall normal_name names → lexical (abs_text names) = names.
Proof.
  intros Hall. unfold lexical. rewrite components_abs by done. simpl.
  assert (Hgen : ∀ acc, foldl step_component acc (Normal <$> names) = acc ++ names).
  { clear Hall. induction names as [|n names IH]; intros acc; simpl; [by rewrite app_nil_r|].
    by rewrite IH, <- app_assoc. }
  apply Hgen.
Qed.

Lemma removelast_Forall {A} (P : A → Prop) l : Forall P l → Forall P (removelast l).
Proof. induction 1 as [|x [|y l] Hx Hl IH]; simpl in *; auto. Qed.
Lemma lexical_normal p : Forall normal_name (lexical p).
Proof.
  unfold lexical.
  assert (Hall : Forall (λ c, ∀ name, c = Normal name → normal_name name) (components p)).
  { apply Forall_forall. intros c Hc name ->. by eapply component_normal. }
  assert (Hnil : Forall normal_name []) by constructor. revert Hnil.
  generalize (@nil string). induction Hall as [|c cs Hc Hcs IH]; intros acc Hacc; simpl; [done|].
  apply IH. destruct c; simpl; try done; [by apply removelast_Forall|].
  apply Forall_app. split; [done|]. constructor; [by apply Hc|done].
Qed.

(** The parent of canonical names drops the last one. *)
Lemma trim_parts_snoc parts name : normal_name name → trim_parts_end (parts ++ [name]) = parts ++ [name].
Proof.
  intros Hn. unfold trim_parts_end. rewrite rev_app_distr. simpl. rewrite (normal_body _ Hn). simpl.
  by rewrite rev_involutive.
Qed.
Lemma join_root names : names ≠ [] → join "/" (""%string :: names) = abs_text names.
Proof. by destruct names. Qed.
Lemma pop_abs names : Forall normal_name names → pop (abs_text names) = abs_text (removelast names).
Proof.
  intros Hall. destruct names as [|name names _] using rev_ind; [done|]. rewrite removelast_last.
  pose proof Hall as [Hnames [Hn _]%Forall_cons]%Forall_app.
  unfold pop, parent. rewrite (components_abs _ Hall), fmap_app, app_comm_cons.
  change (Normal <$> [name]) with [Normal name]. rewrite last_snoc, split_abs by done.
  replace (match names ++ [name] with [] => [""%string] | _ => names ++ [name] end)
    with (names ++ [name]) by (by destruct names).
  rewrite app_comm_cons, trim_parts_snoc, removelast_last by done.
  destruct names as [|m names _] using rev_ind; [reflexivity|].
  apply Forall_app in Hnames as [_ [Hm _]%Forall_cons].
  rewrite app_comm_cons, trim_parts_snoc by done. rewrite <- app_comm_cons, <- join_root by (by destruct names).
  by destruct names.
Qed.
Lemma body_no_root parts : RootDir ∉ body parts.
Proof.
  intros (part & _ & Hb)%list_elem_of_omap. unfold body_component in Hb. by repeat case_match.
Qed.

(** The names keep what the text has no byte of. *)
Lemma lexical_lacks c p : has_char c p = false → Forall (λ name, has_char c name = false) (lexical p).
Proof.
  intros Hp. rewrite lexical_split.
  assert (Forall (λ part, has_char c part = false) (split_char fslash p)) as Hparts.
  { revert Hp. induction p as [|a p IH]; [by repeat constructor|]. intros [Ha Hp]%orb_false_iff.
    specialize (IH Hp). cbn [split_char]. destruct (Ascii.eqb a fslash); [by constructor|].
    destruct (split_char fslash p) as [|s l]; [by repeat constructor; simpl; rewrite Ha|].
    apply Forall_cons in IH as [Hs Hl]. constructor; [|done]. simpl. by rewrite Ha. }
  clear Hp. assert (Forall (λ name, has_char c name = false) []) as Hnil by constructor. revert Hnil.
  generalize (@nil string). induction Hparts as [|part parts Hpart Hparts IH]; intros acc Hacc; [done|].
  simpl. apply IH. unfold push_part. repeat case_match; try done; [by apply removelast_Forall|].
  apply Forall_app. by split; [|constructor].
Qed.

(** ** Joining *)

Lemma join_app_slash l k :
  l ≠ [] → k ≠ [] → join "/" (l ++ k) = join "/" l +:+ "/" +:+ join "/" k.
Proof.
  intros Hl Hk. induction l as [|x l IH]; [done|]. destruct l as [|y l].
  - destruct k; done.
  - change (join "/" ((x :: y :: l) ++ k)) with (x +:+ "/" +:+ join "/" ((y :: l) ++ k)).
    change (join "/" (x :: y :: l)) with (x +:+ "/" +:+ join "/" (y :: l)).
    rewrite IH by done. by rewrite !append_assoc.
Qed.
Lemma split_slash_app s t :
  split_char slash (s +:+ "/" +:+ t) = split_char slash s ++ split_char slash t.
Proof.
  change (s +:+ "/" +:+ t) with (s +:+ String slash t).
  induction s as [|a s IH].
  - change ("" +:+ String slash t) with (String slash t). cbn [split_char].
    by rewrite Ascii.eqb_refl.
  - change (String a s +:+ String slash t) with (String a (s +:+ String slash t)). cbn [split_char].
    rewrite IH. destruct (Ascii.eqb a slash); [done|].
    pose proof (split_char_nonempty slash s). by destruct (split_char slash s).
Qed.
Lemma abs_text_inj l k :
  l ≠ [] → k ≠ [] → no_slash l → no_slash k → abs_text l = abs_text k → l = k.
Proof.
  intros Hl Hk Hnl Hnk Heq. unfold abs_text in Heq.
  apply (f_equal (split_char slash)) in Heq.
  change ("/" +:+ join "/" l) with ("" +:+ "/" +:+ join "/" l) in Heq.
  change ("/" +:+ join "/" k) with ("" +:+ "/" +:+ join "/" k) in Heq.
  rewrite !split_slash_app, !(split_char_join slash) in Heq by done. by simplify_eq/=.
Qed.

(** ** ASCII case *)

Definition lower_names (names : list string) : list string := to_ascii_lowercase <$> names.

Lemma lower_app s t :
  to_ascii_lowercase (s +:+ t) = to_ascii_lowercase s +:+ to_ascii_lowercase t.
Proof.
  unfold to_ascii_lowercase. induction s as [|a s IH]; [done|]. exact (f_equal (String _) IH).
Qed.
Lemma lower_join l : to_ascii_lowercase (join "/" l) = join "/" (lower_names l).
Proof.
  induction l as [|x l IH]; [done|]. destruct l as [|y l]; [done|].
  change (join "/" (x :: y :: l)) with (x +:+ "/" +:+ join "/" (y :: l)).
  change (join "/" (lower_names (x :: y :: l)))
    with (to_ascii_lowercase x +:+ "/" +:+ join "/" (lower_names (y :: l))).
  by rewrite !lower_app, IH.
Qed.
Lemma lower_abs l : to_ascii_lowercase (abs_text l) = abs_text (lower_names l).
Proof. unfold abs_text. by rewrite lower_app, lower_join. Qed.
Lemma has_slash_lower s : has_char slash (to_ascii_lowercase s) = has_char slash s.
Proof.
  unfold to_ascii_lowercase. induction s as [|a s IH]; [done|]. cbn [str_map has_char].
  rewrite IH. f_equal. destruct ((65 <=? _) && _)%nat eqn:Hr; [|done].
  apply andb_true_iff in Hr as [H1%Nat.leb_le H2%Nat.leb_le].
  assert (Hne : ∀ n, n < 256 → ascii_of_nat n = slash → n = 47).
  { intros n Hn Heq. apply (f_equal nat_of_ascii) in Heq.
    rewrite nat_ascii_embedding in Heq by done. done. }
  transitivity false; [|symmetry]; apply Ascii.eqb_neq.
  - intros Heq. apply Hne in Heq; lia.
  - intros ->. vm_compute in H1. lia.
Qed.
Lemma no_slash_lower l : no_slash l → no_slash (lower_names l).
Proof.
  intros Hall. apply Forall_fmap. eapply Forall_impl; [exact Hall|]. intros x Hx. simpl.
  by rewrite has_slash_lower.
Qed.

(** ** Names below names *)

Lemma starts_with_split s t :
  starts_with (s +:+ "/") t = true ↔ ∃ r, t = s +:+ "/" +:+ r.
Proof.
  rewrite starts_with_spec. split; intros [r ->]; exists r; by rewrite append_assoc.
Qed.
Lemma join_prefix l k :
  l ≠ [] → k ≠ [] → no_slash l → no_slash k →
  (join "/" k = join "/" l ∨ (∃ r, join "/" k = join "/" l +:+ "/" +:+ r)) ↔ l `prefix_of` k.
Proof.
  intros Hl Hk Hnl Hnk. split.
  - intros [Heq|[r Hr]].
    + apply (f_equal (split_char slash)) in Heq.
      rewrite !(split_char_join slash) in Heq by done. by rewrite Heq.
    + apply (f_equal (split_char slash)) in Hr.
      rewrite split_slash_app, !(split_char_join slash) in Hr by done.
      rewrite Hr. by exists (split_char slash r).
  - intros [m ->]. destruct m as [|x m]; [left; by rewrite app_nil_r|]. right.
    exists (join "/" (x :: m)). by rewrite join_app_slash.
Qed.
Lemma lower_names_join_nonempty l :
  l ≠ [] → Forall normal_name l → join "/" (lower_names l) ≠ "".
Proof.
  intros Hl Hall Heq. apply split_empty in Heq.
  rewrite (split_char_join slash) in Heq.
  - destruct Hall as [|x l Hx _]; [done|]. simplify_eq/=. destruct Hx as [Hx _ _ _].
    apply (f_equal String.length) in H.
    destruct x; [done|]. done.
  - by destruct l.
  - by apply no_slash_lower, normal_no_slash.
Qed.
Lemma inside_names l k :
  l ≠ [] → Forall normal_name l → Forall normal_name k →
  (eq_ignore_case (abs_text k) (abs_text l) = true
   ∨ starts_with (to_ascii_lowercase (abs_text l) +:+ "/") (to_ascii_lowercase (abs_text k)) = true)
  ↔ lower_names l `prefix_of` lower_names k.
Proof.
  intros Hl Hnl Hnk. unfold eq_ignore_case. rewrite bool_decide_eq_true, !lower_abs.
  assert (Hl' : lower_names l ≠ []) by (by destruct l).
  pose proof (lower_names_join_nonempty l Hl Hnl) as Hjoin.
  apply normal_no_slash, no_slash_lower in Hnl, Hnk. rewrite starts_with_split. unfold abs_text.
  change ("/" +:+ join "/" (lower_names k)) with (String slash (join "/" (lower_names k))).
  change ("/" +:+ join "/" (lower_names l)) with (String slash (join "/" (lower_names l))).
  destruct (decide (lower_names k = [])) as [Hk|Hk].
  - rewrite Hk. split.
    + intros [[= Heq]|[r [= Hr]]]; [done|]. by destruct (join "/" (lower_names l)).
    + intros [m Hm]. by destruct (lower_names l).
  - rewrite <- join_prefix by done. split; intros [Heq|[r Hr]].
    + left. congruence.
    + right. exists r. by injection Hr.
    + left. congruence.
    + right. exists r. by rewrite Hr.
Qed.

(** ** Normal texts *)

Lemma trim_end_fixed set s t :
  t ≠ "" → trim_end_set set t = t → trim_end_set set (s +:+ t) = s +:+ t.
Proof.
  intros Hne Ht. induction s as [|a s IH]; [done|].
  change (String a s +:+ t) with (String a (s +:+ t)). cbn [trim_end_set]. rewrite IH.
  destruct (s +:+ t) as [|b u] eqn:Hst; [|done].
  apply (f_equal String.length) in Hst. rewrite length_append in Hst. destruct t; simpl in *; [done|lia].
Qed.
Lemma trim_end_clean c s : has_char c s = false → trim_end_set [c] s = s.
Proof.
  induction s as [|a s IH]; [done|]. intros [Ha Hs]%orb_false_iff. cbn [trim_end_set].
  rewrite IH by done. destruct s; [|done]. unfold one_of. simpl. by rewrite Ha.
Qed.
Lemma trim_end_abs names :
  names ≠ [] → Forall normal_name names → trim_end_set [fslash] (abs_text names) = abs_text names.
Proof.
  intros Hne Hall. destruct names as [|x names _] using rev_ind; [done|].
  apply Forall_app in Hall as [_ [Hx _]%Forall_cons].
  assert (Hlast : ∃ u, abs_text (names ++ [x]) = u +:+ x).
  { destruct names as [|y names]; [by exists "/"|].
    exists ("/" +:+ join "/" (y :: names) +:+ "/"). unfold abs_text. rewrite join_snoc by done.
    by rewrite !append_assoc. }
  destruct Hlast as [u ->]. apply trim_end_fixed.
  - intros ->. by destruct Hx.
  - apply trim_end_clean, Hx.
Qed.

(** Clean names: no text of theirs reads as a verbatim path, or has a backslash. *)
Lemma no_verbatim names : Forall normal_name names → strip_prefix "//?/" (abs_text names) = None.
Proof.
  intros Hall. destruct names as [|n names]; [done|]. apply Forall_cons in Hall as [Hn _].
  destruct (strip_prefix "//?/" _) as [r|] eqn:Hs; [|done].
  apply strip_prefix_Some in Hs. destruct Hn as [He _ _ Hsl]. destruct n as [|a n]; [done|].
  assert (Hbyte : byte_at 1 (abs_text (String a n :: names)) = Some a) by (by destruct names).
  rewrite Hs in Hbyte. injection Hbyte as <-. by simpl in Hsl.
Qed.
Lemma abs_text_backslash names : no_backslash names → has_char backslash (abs_text names) = false.
Proof.
  intros Hall. unfold abs_text. rewrite has_char_append. simpl.
  induction Hall as [|n names Hn Hall IH]; [done|]. destruct names as [|m names]; [done|].
  change (join "/" (n :: m :: names)) with (n +:+ "/" +:+ join "/" (m :: names)).
  by rewrite !has_char_append, Hn.
Qed.

(** The normal text of names: nothing for the root directory. *)
Definition unix_text (names : list string) : string :=
  match names with [] => "" | _ => abs_text names end.

Lemma normalize_unix p :
  has_char bslash p = false → starts_with "/" p = true → starts_with "//?/" p = false →
  is_drive p = false → normalize_compare_path p = unix_text (lexical p).
Proof.
  intros Hb Hs Hv Hd. unfold normalize_compare_path.
  rewrite (replace_char_none _ _ _ Hb), Hd. cbn [andb].
  assert (strip_prefix "//?/" p = None) as ->.
  { unfold starts_with in Hv. by destruct (strip_prefix "//?/" p). }
  cbn [default]. rewrite Hd, Hs. change (bool_decide ("/" = "/")) with true. cbn iota.
  rewrite <- lexical_split. pose proof (lexical_normal p) as Hn.
  destruct (lexical p) as [|n names]; [done|]. by apply trim_end_abs.
Qed.

Definition lower_byte (a : ascii) : ascii :=
  let n := nat_of_ascii a in if ((65 <=? n) && (n <=? 90))%nat then ascii_of_nat (n + 32) else a.
Lemma byte_at_lower n s : byte_at n (to_ascii_lowercase s) = lower_byte <$> byte_at n s.
Proof.
  change (to_ascii_lowercase s) with (str_map lower_byte s).
  revert n. induction s as [|a s IH]; intros n; [by destruct n|].
  destruct n as [|n]; [reflexivity|]. apply IH.
Qed.
Lemma lower_colon a : lower_byte a = colon → a = colon.
Proof. destruct a as [[] [] [] [] [] [] [] []]; vm_compute; congruence. Qed.
Lemma byte_at_trim_end set n s a :
  byte_at n s = Some a → one_of set a = false → byte_at n (trim_end_set set s) = Some a.
Proof.
  revert n. induction s as [|b s IH]; intros n; [by destruct n|]. intros Hn Ha. cbn [trim_end_set].
  destruct n as [|n]; simpl in Hn.
  - injection Hn as ->. rewrite Ha. by destruct (trim_end_set set s).
  - specialize (IH n Hn Ha). destruct (trim_end_set set s); [by destruct n|exact IH].
Qed.
Lemma byte_at_app n s t a : byte_at n s = Some a → byte_at n (s +:+ t) = Some a.
Proof.
  revert n. induction s as [|b s IH]; intros n; [by destruct n|].
  change (String b s +:+ t) with (String b (s +:+ t)). destruct n; simpl; auto.
Qed.

(** A text with a drive keeps its colon. *)
Definition normal_from (text : string) : string :=
  let text := default text (strip_prefix "//?/" text) in
  let prefix :=
    if is_drive text then to_ascii_lowercase (text_take 2 text)
    else if starts_with "/" text then "/" else "" in
  let rest := if is_drive text then text_drop 2 text else text in
  let parts := foldl push_part [] (split_char fslash rest) in
  if bool_decide (prefix = "/") then trim_end_set [fslash] ("/" +:+ join "/" parts)
  else if is_empty prefix then join "/" parts
  else if bool_decide (parts = []) then prefix
  else prefix +:+ "/" +:+ join "/" parts.
Lemma normal_from_drive a r : byte_at 1 (normal_from (String a (String colon r))) = Some colon.
Proof.
  unfold normal_from.
  assert (strip_prefix "//?/" (String a (String colon r)) = None) as ->.
  { simpl. destruct a as [[] [] [] [] [] [] [] []]; reflexivity. }
  cbn [default]. change (is_drive (String a (String colon r))) with true. cbv zeta iota.
  change (to_ascii_lowercase (text_take 2 (String a (String colon r))))
    with (String (lower_byte a) (String colon "")).
  rewrite bool_decide_eq_false_2 by done.
  change (is_empty (String (lower_byte a) (String colon ""))) with false. cbn iota.
  destruct (bool_decide _); [done|]. by apply byte_at_app.
Qed.
Lemma normalize_drive p :
  has_char bslash p = false → is_drive p = true →
  byte_at 1 (normalize_compare_path p) = Some colon.
Proof.
  intros Hb Hd.
  assert (normalize_compare_path p
    = normal_from (if is_drive p && bool_decide (byte_at 2 p ≠ Some fslash)
                   then text_take 2 p +:+ "/" +:+ text_drop 2 p else p)) as ->.
  { unfold normalize_compare_path. by rewrite (replace_char_none _ _ _ Hb). }
  rewrite Hd. unfold is_drive in Hd. apply bool_decide_eq_true in Hd.
  destruct p as [|a [|b p]]; try done. simpl in Hd. injection Hd as ->. cbn [andb].
  destruct (bool_decide _); apply normal_from_drive.
Qed.

(** ** The check of one target *)

(** A canonical Unix path below the root directory, without backslashes, that
    the check does not take for a drive. *)
Record canonical_dir (path : string) (names : list string) : Prop := {
  cd_text : path = abs_text names;
  cd_nonempty : names ≠ [];
  cd_normal : Forall normal_name names;
  cd_backslash : has_char bslash path = false;
  cd_no_drive : is_drive path = false;
}.
Lemma canonical_normalize path names :
  canonical_dir path names → normalize_compare_path path = abs_text names.
Proof.
  intros [-> Hne Hall Hb Hd].
  assert (starts_with "//?/" (abs_text names) = false) as Hv by (unfold starts_with; by rewrite no_verbatim).
  rewrite normalize_unix, lexical_abs by done. by destruct names.
Qed.

Lemma inside_unix root names parts :
  canonical_dir root names → Forall normal_name parts →
  path_inside_normalized (unix_text parts) (abs_text names) = true
  ↔ lower_names names `prefix_of` lower_names parts.
Proof.
  intros [-> Hne Hall _ _] Hparts. unfold path_inside_normalized.
  rewrite trim_end_abs by done. destruct parts as [|n parts].
  - rewrite orb_true_iff. split.
    + intros [Heq|Hs]; exfalso.
      * unfold eq_ignore_case in Heq. apply bool_decide_eq_true in Heq. by rewrite lower_abs in Heq.
      * by rewrite lower_abs in Hs.
    + intros [m Hm]. by destruct names.
  - cbn [unix_text]. rewrite trim_end_abs by done. rewrite orb_true_iff. by apply inside_names.
Qed.
Lemma inside_drive root names path :
  canonical_dir root names → byte_at 1 path = Some colon →
  path_inside_normalized path (abs_text names) = false.
Proof.
  intros [-> Hne Hall _ Hd] Hp. unfold path_inside_normalized. rewrite trim_end_abs by done.
  apply (byte_at_trim_end [fslash]) in Hp; [|done].
  assert (Hlow : byte_at 1 (to_ascii_lowercase (trim_end_set [fslash] path)) = Some colon).
  { by rewrite byte_at_lower, Hp. }
  assert (Hroot : byte_at 1 (to_ascii_lowercase (abs_text names)) = Some colon → False).
  { rewrite byte_at_lower. destruct (byte_at 1 (abs_text names)) as [a|] eqn:Ha; [|done].
    intros [= Hc]. apply lower_colon in Hc as ->. unfold is_drive in Hd. by rewrite Ha in Hd. }
  assert (Hsome : is_Some (byte_at 1 (to_ascii_lowercase (abs_text names)))).
  { rewrite byte_at_lower. destruct names as [|n names]; [done|].
    apply Forall_cons in Hall as [[He _ _ _] _]. destruct n as [|a n]; [done|].
    destruct names; simpl; eauto. }
  apply orb_false_iff. split.
  - apply bool_decide_eq_false. intros Heq. rewrite Heq in Hlow. by apply Hroot.
  - destruct (starts_with _ _) eqn:Hs; [|done]. exfalso. apply Hroot.
    apply starts_with_spec in Hs as [r Hr]. rewrite Hr in Hlow.
    destruct Hsome as [b Hb]. rewrite Hb. rewrite append_assoc in Hlow.
    by rewrite (byte_at_app _ _ _ _ Hb) in Hlow.
Qed.

(** The operand without the white space and quotes around it, and with the
    separators of Unix. *)
Definition operand_text (target : string) : string := trim_set [dquote; squote] (trim target).
Definition with_slashes (text : string) : string := replace_char bslash fslash text.
(** An operand no shell would still expand from its start. *)
Definition literal_start (text : string) : bool :=
  negb (is_empty text || starts_with "$" text || starts_with "%" text || starts_with "~" text).

Lemma with_slashes_app s t : with_slashes (s +:+ t) = with_slashes s +:+ with_slashes t.
Proof.
  unfold with_slashes, replace_char. induction s as [|a s IH]; [done|]. exact (f_equal (String _) IH).
Qed.
Lemma with_slashes_clean s : has_char bslash (with_slashes s) = false.
Proof. by apply has_char_replaced. Qed.
Lemma with_slashes_idem s : with_slashes (with_slashes s) = with_slashes s.
Proof. apply replace_char_none, with_slashes_clean. Qed.
Lemma normalize_with_slashes p : normalize_compare_path (with_slashes p) = normalize_compare_path p.
Proof.
  unfold normalize_compare_path. change (replace_char bslash fslash p) with (with_slashes p).
  change (replace_char bslash fslash (with_slashes p)) with (with_slashes (with_slashes p)).
  by rewrite with_slashes_idem.
Qed.
Lemma canonical_byte path names :
  canonical_dir path names → ∃ a, byte_at 1 path = Some a ∧ a ≠ colon ∧ a ≠ slash.
Proof.
  intros [-> Hne Hall _ Hd]. destruct names as [|n names]; [done|].
  apply Forall_cons in Hall as [[He _ _ Hs] _]. destruct n as [|a n]; [done|].
  assert (Hbyte : byte_at 1 (abs_text (String a n :: names)) = Some a) by (by destruct names).
  exists a. split_and!; [done|..].
  - intros ->. unfold is_drive in Hd. by rewrite Hbyte in Hd.
  - intros ->. by simpl in Hs.
Qed.
Lemma canonical_join path names t :
  canonical_dir path names → is_empty t = false → is_absolute t = false →
  path_join path t = path +:+ "/" +:+ t.
Proof.
  intros [-> Hne Hall _ _] He Ha. unfold path_join. rewrite Ha.
  assert (is_empty (abs_text names) = false) as -> by done.
  destruct names as [|x names _] using rev_ind; [done|].
  apply Forall_app in Hall as [_ [Hx _]%Forall_cons].
  assert (ends_with "/" (abs_text (names ++ [x])) = false) as ->; [|done].
  unfold abs_text. destruct names as [|y names].
  - apply (ends_slash_app "/"); apply Hx.
  - rewrite join_snoc by done. rewrite <- !append_assoc. apply ends_slash_app; apply Hx.
Qed.

Section Target.
Context (context : SafetyContext) (root_names cwd_names : list string).
Hypothesis Hroot : canonical_dir (workspace_root context) root_names.
Hypothesis Hcwd : canonical_dir (cwd context) cwd_names.

Lemma normalize_relative t0 :
  is_empty (with_slashes t0) = false → is_absolute (with_slashes t0) = false →
  normalize_compare_path (abs_text cwd_names +:+ "/" +:+ t0)
  = unix_text (lexical (path_join (cwd context) (with_slashes t0))).
Proof.
  intros He Ha. rewrite (canonical_join _ cwd_names) by done.
  rewrite <- normalize_with_slashes, !with_slashes_app.
  change (with_slashes "/") with "/". rewrite <- (cd_text _ _ Hcwd).
  change (with_slashes (cwd context)) with (replace_char bslash fslash (cwd context)).
  rewrite (replace_char_none _ _ _ (cd_backslash _ _ Hcwd)).
  destruct (canonical_byte _ _ Hcwd) as (a & Hbyte & Hcolon & Hslash).
  pose proof (byte_at_app _ _ ("/" +:+ with_slashes t0) _ Hbyte) as Hb.
  apply normalize_unix.
  - rewrite !has_char_append, (cd_backslash _ _ Hcwd), with_slashes_clean. done.
  - rewrite (cd_text _ _ Hcwd). done.
  - destruct (starts_with "//?/" _) eqn:Hs; [|done]. apply starts_with_spec in Hs as [r Hr].
    rewrite Hr in Hb. by injection Hb as <-.
  - unfold is_drive. rewrite Hb. apply bool_decide_eq_false. congruence.
Qed.

Lemma target_inside_iff target :
  starts_with "//?/" (with_slashes (operand_text target)) = false →
  target_inside_workspace target context = true ↔
  literal_start (operand_text target) = true ∧ is_drive (with_slashes (operand_text target)) = false ∧
  lower_names root_names
    `prefix_of` lower_names (lexical (path_join (cwd context) (with_slashes (operand_text target)))).
Proof.
  intros Hv. unfold target_inside_workspace.
  change (trim_set [dquote; squote] (trim target)) with (operand_text target).
  set (t0 := operand_text target) in *. unfold literal_start.
  destruct (is_empty t0 || _ || _ || _) eqn:Hlit; [by split; [|intros [? _]]|]. cbn [negb].
  rewrite (canonical_normalize _ _ Hroot), (canonical_normalize _ _ Hcwd).
  assert (is_empty (abs_text root_names) = false) as -> by done.
  unfold is_absolute_path_text. change (replace_char bslash fslash t0) with (with_slashes t0).
  destruct (is_drive (with_slashes t0)) eqn:Hd.
  { rewrite !orb_true_r. rewrite (inside_drive _ _ _ Hroot); [by split; [|intros (_ & ? & _)]|].
    rewrite <- normalize_with_slashes. by apply normalize_drive; [apply with_slashes_clean|]. }
  rewrite orb_false_r. destruct (starts_with "/" (with_slashes t0)) eqn:Habs; cbn [orb].
  - rewrite <- (normalize_with_slashes t0), normalize_unix by (done || apply with_slashes_clean).
    assert (path_join (cwd context) (with_slashes t0) = with_slashes t0) as ->.
    { unfold path_join, is_absolute. by rewrite Habs. }
    rewrite (inside_unix _ _ _ Hroot) by apply lexical_normal. naive_solver.
  - destruct (starts_with "//" (with_slashes t0)) eqn:Habs2.
    { apply starts_with_spec in Habs2 as [r Hr].
      assert (starts_with "/" (with_slashes t0) = true); [|congruence].
      apply starts_with_spec. exists ("/" +:+ r). by rewrite Hr. }
    rewrite normalize_relative; [|..|done].
    + rewrite (inside_unix _ _ _ Hroot) by apply lexical_normal. naive_solver.
    + destruct t0 as [|a t0]; [done|]. done.
Qed.
End Target.
