(* ===== verification/CommandPrograms.v ===== *)
(** * Commands a shell would run

    [runs n command argv] is the part of the shell language the interceptor
    follows, as a relation on texts: [argv] are the words of a simple command
    somewhere in [command], below [n] substitutions, nested shells and [eval]s.
    [delegates] are the wrapper commands.  [accepted_reaches]: a scan that lets
    [command] run has let every such simple command pass its own check. *)

From stdpp Require Import base list strings gmap sorting relations.
From Stdlib Require Import ZArith Lia Ascii.
From S2P Require Import Prelude RustStd RustText CommandSafety CommandText.
From S2P Require Import CommandTextFacts CommandGrammar.
Local Open Scope nat_scope.

(** ** Wrappers *)

Definition is_option (token : string) : bool := starts_with "-" token.

(** Options, some of which take the next word. *)
Inductive options (takes_value : list string) (value_ok : string → bool) : list string → Prop :=
| options_nil : options takes_value value_ok []
| options_flag o rest :
    is_option o = true → o ∉ takes_value → options takes_value value_ok rest →
    options takes_value value_ok (o :: rest)
| options_value o v rest :
    is_option o = true → o ∈ takes_value → value_ok v = true →
    options takes_value value_ok rest → options takes_value value_ok (o :: v :: rest).

Definition sudo_values : list string :=
  ["-u"; "-g"; "-C"; "-p"; "-h"; "-r"; "-t"; "--user"; "--group"].
Definition xargs_values : list string := ["-I"; "-n"; "-P"; "-d"; "-E"].
(** The words before the command of [env], [timeout], [nice], ... *)
Definition wrapper_word (token : string) : bool :=
  is_option token || is_assignment token || is_duration token.
Definition plain_wrappers : list string :=
  ["env"; "nohup"; "nice"; "ionice"; "time"; "timeout"; "stdbuf"; "setsid"; "command"; "exec"].

Inductive delegates : list string → list string → Prop :=
| delegates_sudo w opts first inner :
    base_name w ∈ ["sudo"; "doas"] → options sudo_values (λ v, negb (is_option v)) opts →
    is_option first = false → delegates (w :: opts ++ first :: inner) (first :: inner)
| delegates_xargs w opts first inner :
    base_name w = "xargs" → options xargs_values (λ _, true) opts →
    is_option first = false → delegates (w :: opts ++ first :: inner) (first :: inner)
| delegates_plain w words first inner :
    base_name w ∈ plain_wrappers → Forall (λ t, wrapper_word t = true) words →
    wrapper_word first = false → delegates (w :: words ++ first :: inner) (first :: inner).

Lemma contains_true `{EqDecision A} (l : list A) x : x ∈ l → contains l x = true.
Proof. apply bool_decide_eq_true_2. Qed.
Lemma contains_not `{EqDecision A} (l : list A) x : x ∉ l → contains l x = false.
Proof. apply bool_decide_eq_false_2. Qed.

Lemma drop_sudo_spec opts first inner :
  options sudo_values (λ v, negb (is_option v)) opts → is_option first = false →
  drop_sudo_options (opts ++ first :: inner) = first :: inner.
Proof.
  intros Ho Hf. induction Ho as [|o rest Hd Hv Ho IH|o v rest Hd Hv Hok Ho IH];
    unfold is_option in *.
  - simpl. by rewrite Hf.
  - simpl. rewrite Hd. simpl. fold sudo_values. by rewrite contains_not.
  - simpl. rewrite Hd. simpl. fold sudo_values. rewrite contains_true by done. by rewrite Hok.
Qed.
Lemma drop_xargs_spec opts first inner :
  options xargs_values (λ _, true) opts → is_option first = false →
  drop_xargs_options (opts ++ first :: inner) = first :: inner.
Proof.
  intros Ho Hf. induction Ho as [|o rest Hd Hv Ho IH|o v rest Hd Hv Hok Ho IH];
    unfold is_option in *.
  - simpl. by rewrite Hf.
  - simpl. rewrite Hd. simpl. fold xargs_values. by rewrite contains_not.
  - simpl. rewrite Hd. simpl. fold xargs_values. by rewrite contains_true.
Qed.
Lemma drop_wrapper_spec words first inner :
  Forall (λ t, wrapper_word t = true) words → wrapper_word first = false →
  drop_wrapper_words (words ++ first :: inner) = first :: inner.
Proof.
  unfold wrapper_word, is_option. intros Hw Hf. induction Hw as [|t words Ht Hw IH]; simpl.
  - by rewrite Hf.
  - by rewrite Ht.
Qed.

Lemma delegates_strip argv inner : delegates argv inner → strip_wrappers argv = strip_wrappers inner.
Proof.
  intros Hd. destruct Hd as [w opts first inner Hw Ho Hf|w opts first inner Hw Ho Hf|w words first inner Hw Ho Hf];
    rewrite strip_wrappers_unfold; unfold after_wrapper.
  - rewrite (contains_true ["sudo"; "doas"]), contains_true by set_solver. by rewrite drop_sudo_spec.
  - rewrite Hw. change (contains WRAPPERS "xargs") with true.
    change (contains ["sudo"; "doas"] "xargs") with false. cbn iota.
    rewrite bool_decide_eq_true_2 by done. by rewrite drop_xargs_spec.
  - assert (Hall : Forall (λ b, contains WRAPPERS b = true ∧ contains ["sudo"; "doas"] b = false
        ∧ bool_decide (b = "xargs") = false) plain_wrappers).
    { by repeat (constructor; [by vm_compute|]). }
    rewrite Forall_forall in Hall. destruct (Hall _ Hw) as (-> & -> & ->). by rewrite drop_wrapper_spec.
Qed.
Lemma delegates_first argv inner w rest :
  delegates argv inner → argv = w :: rest → contains WRAPPERS (base_name w) = true.
Proof.
  intros Hd. assert (Hall : ["sudo"; "doas"; "xargs"] ++ plain_wrappers ⊆ WRAPPERS).
  { unfold WRAPPERS, plain_wrappers. set_solver. }
  destruct Hd as [w' ???? |w' ???? |w' ????]; intros [= -> _]; apply contains_true, Hall; set_solver.
Qed.
Lemma delegated_strip argv inner : rtc delegates argv inner → strip_wrappers argv = strip_wrappers inner.
Proof. induction 1 as [|argv mid inner Hd _ IH]; [done|]. by rewrite (delegates_strip _ _ Hd). Qed.
(** Wrappers are not [eval]: only a first word that is [eval] itself is one. *)
Lemma delegated_eval argv first args :
  rtc delegates argv (first :: args) → base_name first ≠ "eval" →
  ∃ w rest, argv = w :: rest ∧ base_name w ≠ "eval".
Proof.
  intros Hd Hf. inversion Hd as [|x y z Hxy Hyz]; subst; [by eauto|].
  assert (∃ w rest, argv = w :: rest) as (w & rest & ->) by (destruct Hxy; eauto).
  exists w, rest. split; [done|]. intros He.
  pose proof (delegates_first _ _ w rest Hxy eq_refl) as Hw. by rewrite He in Hw.
Qed.

(** ** Simple commands in a text *)

(** The script of [sh ... -c script ...]: no word before it looks like [-c]. *)
Definition script_flag (arg : string) : bool :=
  is_option arg && has_char (ch 99) arg && (String.length arg <=? 5).
Definition script_argument (args : list string) (script : string) : Prop :=
  ∃ before flag after, args = before ++ flag :: script :: after
    ∧ Forall (λ a, script_flag a = false) before ∧ script_flag flag = true.

Inductive runs : nat → string → list string → Prop :=
| runs_segment command segments s argv :
    sequence segments (chars command) → s ∈ segments →
    line (chars (trim (text_of s))) argv → argv ≠ [] → runs 0 command argv
| runs_substitution n command pre s body post argv :
    chars command = pre ++ s ++ post → passed pre → substitution s body →
    runs n (text_of body) argv → runs (S n) command argv
| runs_shell n m command argv shell args script inner :
    runs n command argv → rtc delegates argv (shell :: args) →
    base_name shell ∈ NESTED_SHELLS → script_argument args script →
    runs m script inner → runs (S (n + m)) command inner
| runs_eval n m command eval words inner :
    runs n command (eval :: words) → base_name eval = "eval" →
    runs m (join " " words) inner → runs (S (n + m)) command inner.

Lemma nested_shell_script_argument args script :
  script_argument args script → nested_shell_script args = Some script.
Proof.
  intros (before & flag & after & -> & Hb & Hf). unfold script_flag, is_option in *.
  assert (Hlist : ∀ a, contains ["-c"; "-lc"; "-lic"; "-ic"] a = true →
    starts_with "-" a && has_char (ch 99) a && (String.length a <=? 5) = true).
  { intros a Ha. apply bool_decide_eq_true in Ha.
    assert (Hall : Forall (λ a, starts_with "-" a && has_char (ch 99) a && (String.length a <=? 5) = true)
      ["-c"; "-lc"; "-lic"; "-ic"]) by (by repeat (constructor; [by vm_compute|])).
    by eapply Forall_forall in Hall. }
  induction Hb as [|a before Ha Hb IH]; simpl.
  - rewrite Hf. by destruct (contains _ flag).
  - rewrite Ha. destruct (contains _ a) eqn:Hc; [|done]. apply Hlist in Hc. congruence.
Qed.

(** ** What an accepting scan has checked *)

Lemma first_reason_accept m rest :
  first_reason m rest = Ok None ↔ m = Ok None ∧ rest tt = Ok None.
Proof.
  destruct m as [[r|]|[]| |]; simpl; split; try done; try by intros [? ?].
Qed.
Lemma verdict_map_accept f m : verdict_map f m = Ok None ↔ m = Ok None.
Proof. destruct m as [[r|]|[]| |]; simpl; split; congruence. Qed.

Lemma check_segments_accept scan context segments variables depth segment :
  check_segments scan context segments variables depth = Ok None → segment ∈ segments →
  is_empty (trim segment) = false → check_segment scan context (trim segment) depth = Ok None.
Proof.
  intros Hall Hin Hne. induction segments as [|s segments IH]; [by apply not_elem_of_nil in Hin|].
  simpl in Hall. apply elem_of_cons in Hin as [->|Hin].
  - rewrite Hne in Hall. rewrite !first_reason_accept in Hall. tauto.
  - apply IH; [|done]. destruct (is_empty (trim s)); [done|].
    rewrite !first_reason_accept in Hall. tauto.
Qed.
Lemma scan_each_accept scan describe bodies depth body :
  scan_each scan describe bodies depth = Ok None → body ∈ bodies → scan body (depth + 1) = Ok None.
Proof.
  intros Hall Hin. induction bodies as [|b bodies IH]; [by apply not_elem_of_nil in Hin|].
  simpl in Hall. rewrite first_reason_accept, verdict_map_accept in Hall.
  apply elem_of_cons in Hin as [->|Hin]; [tauto|]. apply IH; tauto.
Qed.
Lemma scan_accept fuel context command depth :
  depth ≤ 8 → scan fuel context command depth = Ok None →
  ∃ f, scan_body (scan f context) context command depth = Ok None.
Proof.
  intros Hd. destruct fuel as [|f]; simpl; [done|].
  assert ((8 <? depth) = false) as -> by (apply Nat.ltb_ge; done). eauto.
Qed.
Lemma scan_body_accept scan context command depth :
  scan_body scan context command depth = Ok None →
  check_segments scan context (split_segments command)
    (collect_shell_variable_assignments (split_segments command)) depth = Ok None
  ∧ scan_each scan id (extract_substitutions command) depth = Ok None.
Proof.
  unfold scan_body. destruct (is_fork_bomb command); [done|].
  rewrite !first_reason_accept. tauto.
Qed.

Lemma trim_nonempty_line s argv :
  line (chars (trim s)) argv → argv ≠ [] → is_empty (trim s) = false.
Proof.
  intros Hl Hne. apply bool_decide_eq_false. intros Hs. rewrite Hs in Hl.
  rewrite <- tokenize_line in Hl. vm_compute in Hl. congruence.
Qed.

Definition script_hosts : list string := NESTED_SHELLS ++ "cmd" :: POWERSHELL_SHELLS.
Section Segment.
Context (scan : string → nat → verdict) (context : option SafetyContext).
Context (segment : string) (depth : nat) (first : string) (rest : list string).
Hypothesis Haccept : check_segment scan context segment depth = Ok None.
Hypothesis Hwords : tokenize segment = Some (first :: rest).

Lemma check_segment_eval : base_name first = "eval" → scan (join " " rest) (depth + 1) = Ok None.
Proof.
  intros He. unfold check_segment in Haccept. destruct (redirect_to_block_device segment); [done|].
  rewrite Hwords in Haccept. by rewrite bool_decide_eq_true_2 in Haccept.
Qed.
Context (base : string) (args : list string).
Hypothesis Hnot_eval : base_name first ≠ "eval".
Hypothesis Hstrip : strip_wrappers (first :: rest) = base :: args.

Lemma check_segment_shell script :
  base_name base ∈ NESTED_SHELLS → nested_shell_script args = Some script →
  scan script (depth + 1) = Ok None.
Proof.
  intros Hb Hs. unfold check_segment in Haccept. destruct (redirect_to_block_device segment); [done|].
  rewrite Hwords, (bool_decide_eq_false_2 _ Hnot_eval), Hstrip, contains_true, Hs in Haccept by done.
  done.
Qed.
Lemma check_segment_base :
  base_name base ∉ script_hosts → check_base context (base_name base) args segment = Ok None.
Proof.
  unfold script_hosts. rewrite not_elem_of_app, not_elem_of_cons. intros (Hs & Hc & Hp).
  unfold check_segment in Haccept. destruct (redirect_to_block_device segment); [done|].
  rewrite Hwords, (bool_decide_eq_false_2 _ Hnot_eval), Hstrip in Haccept.
  rewrite !contains_not, (bool_decide_eq_false_2 (base_name base = "cmd")) in Haccept by done.
  done.
Qed.
End Segment.

(** The check of a simple command that an accepting scan has passed. *)
Definition passed_check (context : option SafetyContext) (argv : list string) (depth : nat) : Prop :=
  ∃ f segment d, d ≤ depth ∧ tokenize segment = Some argv
    ∧ check_segment (scan f context) context segment d = Ok None.

Lemma shell_not_wrapper shell args :
  base_name shell ∈ NESTED_SHELLS → strip_wrappers (shell :: args) = shell :: args
    ∧ base_name shell ≠ "eval".
Proof.
  intros Hs. rewrite strip_wrappers_unfold.
  assert (Hall : Forall (λ b, contains WRAPPERS b = false ∧ b ≠ "eval") NESTED_SHELLS).
  { by repeat (constructor; [by split; [vm_compute|]|]). }
  rewrite Forall_forall in Hall. by destruct (Hall _ Hs) as [-> ?].
Qed.

Lemma accepted_reaches n command argv :
  runs n command argv → ∀ fuel context depth,
  depth + n ≤ 8 → scan fuel context command depth = Ok None → passed_check context argv (depth + n).
Proof.
  induction 1 as [command segments s argv Hseq Hs Hline Hne
    |n command pre s body post argv Hchars Hpre Hsub Hruns IH
    |n m command argv shell args script inner Hruns IH Hdel Hsh Hscript Hrunsi IHi
    |n m command eval words inner Hruns IH Heval Hrunsi IHi];
    intros fuel context depth Hd Hscan.
  - apply scan_accept in Hscan as [f [Hsegs _]%scan_body_accept]; [|lia].
    exists f, (trim (text_of s)), depth. split_and!; [lia|by apply tokenize_line|].
    eapply check_segments_accept; [exact Hsegs| |by eapply trim_nonempty_line].
    rewrite (split_segments_sequence _ segments) by done. by apply list_elem_of_fmap_2.
  - apply scan_accept in Hscan as [f [_ Hbodies]%scan_body_accept]; [|lia].
    eapply (scan_each_accept _ _ _ _ (text_of body)) in Hbodies.
    + replace (depth + S n) with (depth + 1 + n) by lia. eapply IH; [lia|exact Hbodies].
    + unfold extract_substitutions. rewrite Hchars. by apply extract_passed.
  - destruct (IH fuel context depth) as (f & segment & d & Hdd & Htok & Hcheck); [lia|done|].
    destruct (shell_not_wrapper shell args Hsh) as [Hstrip Hne].
    destruct (delegated_eval _ _ _ Hdel Hne) as (w & rest & -> & Hw).
    apply delegated_strip in Hdel. rewrite Hstrip in Hdel.
    apply nested_shell_script_argument in Hscript.
    pose proof (check_segment_shell _ _ _ _ _ _ Hcheck Htok _ _ Hw Hdel _ Hsh Hscript) as Hin.
    destruct (IHi f context (d + 1)) as (f' & seg' & d' & ? & ? & ?); [lia|done|].
    exists f', seg', d'. split_and!; [lia|done..].
  - destruct (IH fuel context depth) as (f & segment & d & Hdd & Htok & Hcheck); [lia|done|].
    pose proof (check_segment_eval _ _ _ _ _ _ Hcheck Htok Heval) as Hin.
    destruct (IHi f context (d + 1)) as (f' & seg' & d' & ? & ? & ?); [lia|done|].
    exists f', seg', d'. split_and!; [lia|done..].
Qed.

Lemma runs_command_nonempty n command argv : runs n command argv → is_empty command = false.
Proof.
  intros Hr. apply bool_decide_eq_false. intros Hc. revert Hc.
  induction Hr as [command segments s argv Hseq Hs Hline Hne
    |n command pre s body post argv Hchars Hpre Hsub Hruns IH
    |n m command argv shell args script inner Hruns IH Hdel Hsh Hscript Hrunsi IHi
    |n m command eval words inner Hruns IH Heval Hrunsi IHi]; intros ->; [| |by apply IH..].
  - apply split_segments_sequence in Hseq as Hsegs. apply (list_elem_of_fmap_2 text_of) in Hs.
    rewrite <- Hsegs in Hs. change (split_segments "") with [""] in Hs.
    apply list_elem_of_singleton in Hs. rewrite Hs in Hline.
    apply trim_nonempty_line in Hline; [|done]. by vm_compute in Hline.
  - change (chars "") with (@nil string) in Hchars. destruct Hsub; by destruct pre.
Qed.

(** What letting [command] run says of a simple command in it. *)
Lemma inspect_accept env_var context command n argv base args :
  interceptor_disabled env_var = false → inspect env_var context command = Ok None →
  runs n (trim command) argv → n ≤ 8 → rtc delegates argv (base :: args) →
  base_name base ∉ WRAPPERS → base_name base ≠ "eval" → base_name base ∉ script_hosts →
  ∃ segment, check_base context (base_name base) args segment = Ok None.
Proof.
  intros Hen Hacc Hruns Hn Hdel Hw He Hhost. unfold inspect in Hacc. rewrite Hen in Hacc.
  rewrite (runs_command_nonempty _ _ _ Hruns) in Hacc.
  apply (accepted_reaches _ _ _ Hruns) in Hacc; [|lia].
  destruct Hacc as (f & segment & d & _ & Htok & Hcheck). exists segment.
  destruct (delegated_eval _ _ _ Hdel He) as (w & rest & -> & Hwe).
  apply delegated_strip in Hdel. rewrite (strip_wrappers_unfold base), contains_not in Hdel by done.
  by eapply check_segment_base.
Qed.
Lemma check_base_accept context base args segment :
  check_base context base args segment = Ok None →
  check_unix_base base args context = None ∧ check_cmd_base base args segment context = None
  ∧ check_windows_base base args segment context = None.
Proof. unfold check_base. rewrite !first_reason_accept. naive_solver congruence. Qed.
