(* ===== verification/FileLocks.v ===== *)
(** * File locks: [tools/src/runtime/file_locks/mod.rs]

    The commands of a process take turns on files through one [FileLockManager].
    A command asks for the locks of its [Access], sorted, one after the other,
    and sleeps on a condition variable while a lock is not to be had; its guard
    gives them back in the opposite order.  [lock_step] is the interleaving of
    any number of commands. *)

From stdpp Require Import base list strings gmap sorting.
From Stdlib Require Import ZArith Lia Ascii.
From S2P Require Import Prelude RustStd RustText RustPath.
Local Open Scope nat_scope.

(** ** Requests *)

Record Access := {
  ac_read_paths : list string;
  ac_write_paths : list string;
  ac_workspace_write : bool;
  ac_lock_scope : option string;
}.
Definition Access_default : Access :=
  {| ac_read_paths := []; ac_write_paths := []; ac_workspace_write := false; ac_lock_scope := None |}.
#[export] Instance eta_Access : Eta Access :=
  MkEta (λ a, Build_Access (ac_read_paths a) (ac_write_paths a) (ac_workspace_write a)
                (ac_lock_scope a)).
Definition is_read_only (self : Access) : bool :=
  bool_decide (ac_write_paths self = []) && negb (ac_workspace_write self).

Inductive LockMode := Read | Write.
#[export] Instance LockMode_eq_dec : EqDecision LockMode.
Proof. solve_decision. Defined.
Notation Request := (string * LockMode)%type.

Definition DEFAULT_LOCK_SCOPE : string := "".
Definition LOCK_SCOPE_SEPARATOR : ascii := ascii_of_nat 31.
Definition WORKSPACE_LOCK_PATH : string := ".".

Definition lock_key (scope : option string) (path : string) : string :=
  match scope with
  | Some scope => scope +:+ String LOCK_SCOPE_SEPARATOR path
  | None => path
  end.
Definition lock_scope (key : string) : string :=
  default DEFAULT_LOCK_SCOPE (fst <$> split_once LOCK_SCOPE_SEPARATOR key).
Definition lock_path (key : string) : string :=
  default key (snd <$> split_once LOCK_SCOPE_SEPARATOR key).
Definition is_workspace_lock (key : string) : bool := bool_decide (lock_path key = WORKSPACE_LOCK_PATH).
Definition same_lock_scope (left right : string) : bool := bool_decide (lock_scope left = lock_scope right).

(** [path.trim().trim_end_matches(['/', '\\'])]. *)
Definition request_path (path : string) : string := trim_end_set [slash; backslash] (trim path).
Definition scope_of (self : Access) : option string :=
  scope ← trim <$> ac_lock_scope self;
  if is_empty scope then None else Some scope.
Definition lock_requests (self : Access) : list Request :=
  let scope := scope_of self in
  if ac_workspace_write self then [(lock_key scope WORKSPACE_LOCK_PATH, Write)]
  else ((λ path, (lock_key scope (request_path path), Read)) <$> ac_read_paths self)
       ++ ((λ path, (lock_key scope (request_path path), Write)) <$> ac_write_paths self).

(** [locks.sort()]: by key, a read before a write of the same key. *)
Definition mode_le (m n : LockMode) : bool :=
  match m, n with Write, Read => false | _, _ => true end.
Definition request_leb (r q : Request) : bool :=
  str_lt r.1 q.1 || bool_decide (r.1 = q.1) && mode_le r.2 q.2.
Definition request_le (r q : Request) : Prop := request_leb r q = true.
#[export] Instance request_le_dec : RelDecision request_le.
Proof. intros r q. unfold request_le. apply _. Defined.
Definition sorted_requests (self : Access) : list Request := merge_sort request_le (lock_requests self).

(** ** The manager *)

Record LockState := { lk_readers : gmap string nat; lk_writers : gset string }.
Definition LockState_default : LockState := {| lk_readers := ∅; lk_writers := ∅ |}.

Definition has_workspace_writer_in_scope (state : LockState) (key : string) : bool :=
  existsb (λ writer, is_workspace_lock writer && same_lock_scope writer key)
    (elements (lk_writers state)).
Definition readers_of (state : LockState) : list string := (map_to_list (lk_readers state)).*1.

Definition can_acquire (state : LockState) (key : string) (mode : LockMode) : bool :=
  if is_workspace_lock key && bool_decide (mode = Write) then
    forallb (λ reader, negb (same_lock_scope reader key)) (readers_of state)
    && forallb (λ writer, negb (same_lock_scope writer key)) (elements (lk_writers state))
  else if bool_decide (key ∈ lk_writers state) || has_workspace_writer_in_scope state key then false
  else if bool_decide (mode = Read) then true
  else bool_decide (default 0 (lk_readers state !! key) = 0)
       && forallb (λ reader, negb (is_workspace_lock reader) || negb (same_lock_scope reader key))
            (readers_of state).

(** The body of [acquire_one] once the lock can be had, and [release_one]. *)
Definition take_one (state : LockState) (key : string) (mode : LockMode) : LockState :=
  match mode with
  | Read => {| lk_readers := <[key := S (default 0 (lk_readers state !! key))]> (lk_readers state);
               lk_writers := lk_writers state |}
  | Write => {| lk_readers := lk_readers state; lk_writers := {[key]} ∪ lk_writers state |}
  end.
Definition release_one (state : LockState) (key : string) (mode : LockMode) : LockState :=
  match mode with
  | Read =>
      let count := default 0 (lk_readers state !! key) - 1 in
      {| lk_readers := if bool_decide (count = 0) then delete key (lk_readers state)
                       else <[key := count]> (lk_readers state);
         lk_writers := lk_writers state |}
  | Write => {| lk_readers := lk_readers state; lk_writers := lk_writers state ∖ {[key]} |}
  end.

(** ** Commands that use the manager

    A command has locks still to take and locks taken, the latest last; it may
    be asleep in [condvar.wait].  Once nothing is left to take it holds its
    [LockGuard], until the guard is dropped. *)
Record Holder := { ho_todo : list Request; ho_held : list Request; ho_asleep : bool }.
Definition arriving (access : Access) : Holder :=
  {| ho_todo := sorted_requests access; ho_held := []; ho_asleep := false |}.
Definition gone (h : Holder) : bool := bool_decide (ho_todo h = []) && bool_decide (ho_held h = []).

Record Locks := { ls_state : LockState; ls_holders : list Holder }.
Definition locks_of (accesses : list Access) : Locks :=
  {| ls_state := LockState_default; ls_holders := arriving <$> accesses |}.
(** [notify_all]. *)
Definition awaken (h : Holder) : Holder :=
  {| ho_todo := ho_todo h; ho_held := ho_held h; ho_asleep := false |}.

(** [lock_progress]: a command takes a lock, or gives one back while its guard
    is dropped.  [lock_rest]: it goes to sleep, or wakes up unasked. *)
Inductive lock_progress (s : Locks) : Locks → Prop :=
| progress_acquire i key mode todo held :
    ls_holders s !! i = Some {| ho_todo := (key, mode) :: todo; ho_held := held; ho_asleep := false |} →
    can_acquire (ls_state s) key mode = true →
    lock_progress s
      {| ls_state := take_one (ls_state s) key mode;
         ls_holders := <[i := {| ho_todo := todo; ho_held := held ++ [(key, mode)];
                                 ho_asleep := false |}]> (ls_holders s) |}
| progress_release i key mode held :
    ls_holders s !! i = Some {| ho_todo := []; ho_held := held ++ [(key, mode)]; ho_asleep := false |} →
    lock_progress s
      {| ls_state := release_one (ls_state s) key mode;
         ls_holders := awaken <$> <[i := {| ho_todo := []; ho_held := held;
                                            ho_asleep := false |}]> (ls_holders s) |}.
Inductive lock_rest (s : Locks) : Locks → Prop :=
| rest_wait i key mode todo held :
    ls_holders s !! i = Some {| ho_todo := (key, mode) :: todo; ho_held := held; ho_asleep := false |} →
    can_acquire (ls_state s) key mode = false →
    lock_rest s
      {| ls_state := ls_state s;
         ls_holders := <[i := {| ho_todo := (key, mode) :: todo; ho_held := held;
                                 ho_asleep := true |}]> (ls_holders s) |}
| rest_spurious i h :
    ls_holders s !! i = Some h →
    lock_rest s {| ls_state := ls_state s; ls_holders := <[i := awaken h]> (ls_holders s) |}.
Definition lock_step (s s' : Locks) : Prop := lock_progress s s' ∨ lock_rest s s'.
Definition reachable (accesses : list Access) (s : Locks) : Prop := rtc lock_step (locks_of accesses) s.

(** [acquire] of a command that is alone: the state with all of its locks, if
    it never has to wait. *)
Fixpoint acquire_from (state : LockState) (requests : list Request) : option LockState :=
  match requests with
  | [] => Some state
  | (key, mode) :: rest =>
      if can_acquire state key mode then acquire_from (take_one state key mode) rest else None
  end.
Definition acquire_alone (access : Access) : option LockState :=
  acquire_from LockState_default (sorted_requests access).

Definition writes (paths : list string) : Access := Access_default.{ac_write_paths := paths}.
Example requests_examples :
  sorted_requests (writes ["b/"; " a "; "a\"]) = [("a", Write); ("a", Write); ("b", Write)]%string
  ∧ sorted_requests ((writes ["a"]).{ac_read_paths := ["."; "a"] }.{ac_lock_scope := Some " s "%string})
    = [("s" +:+ String LOCK_SCOPE_SEPARATOR ".", Read); ("s" +:+ String LOCK_SCOPE_SEPARATOR "a", Read);
       ("s" +:+ String LOCK_SCOPE_SEPARATOR "a", Write)]
  ∧ is_workspace_lock ("s" +:+ String LOCK_SCOPE_SEPARATOR ".") = true ∧ lock_scope "a" = ""%string
  ∧ is_Some (acquire_alone (writes ["a"; "b"])) ∧ acquire_alone (writes ["a"; "a/"]) = None.
Proof. vm_compute. split_and!; try done. by eexists. Qed.
