(* ===== verification/FileLockFacts.v ===== *)
(** * File locks: exclusion, progress, and requests that clash *)

From stdpp Require Import base list strings gmap sorting.
From Stdlib Require Import ZArith Lia Ascii.
From S2P Require Import Prelude RustStd TaskIdentity RustText RustPath FileLocks.
Local Open Scope nat_scope.

(** ** What a held lock admits *)

(** [held] leaves room for [wanted]. *)
Definition covers_key (held : string) (key : string) : bool :=
  bool_decide (held = key) || is_workspace_lock held && same_lock_scope held key.
Definition admits (held wanted : Request) : bool :=
  if is_workspace_lock wanted.1 && bool_decide (wanted.2 = Write)
  then negb (same_lock_scope held.1 wanted.1)
  else negb (covers_key held.1 wanted.1 && (bool_decide (held.2 = Write) || bool_decide (wanted.2 = Write))).

(** Two locks that no two commands may hold at once: a write of the same key,
    or a write of the whole workspace of the scope. *)
Definition shuts_out (r q : Request) : Prop := r.2 = Write ∧ covers_key r.1 q.1 = true.
Definition excludes (r q : Request) : Prop := shuts_out r q ∨ shuts_out q r.

Lemma same_scope_refl key : same_lock_scope key key = true.
Proof. by apply bool_decide_eq_true_2. Qed.
Lemma same_scope_sym k l : same_lock_scope k l = same_lock_scope l k.
Proof. by apply bool_decide_ext. Qed.
Lemma covers_scope held key : covers_key held key = true → same_lock_scope held key = true.
Proof.
  unfold covers_key. rewrite orb_true_iff, andb_true_iff, bool_decide_eq_true.
  intros [->|[_ ?]]; [apply same_scope_refl|done].
Qed.
Lemma admits_other_scope held wanted : same_lock_scope held.1 wanted.1 = false → admits held wanted = true.
Proof.
  intros Hs. unfold admits. rewrite Hs. case_match; [done|].
  destruct (covers_key held.1 wanted.1) eqn:Hc; [|done]. apply covers_scope in Hc. congruence.
Qed.
Lemma admits_not_excludes held wanted : admits held wanted = true → ¬ excludes held wanted.
Proof.
  intros Ha Hex. unfold admits in Ha. destruct (same_lock_scope held.1 wanted.1) eqn:Hs.
  - destruct (is_workspace_lock wanted.1 && bool_decide (wanted.2 = Write)) eqn:Hw; [done|].
    apply negb_true_iff in Ha. destruct Hex as [[Hm Hc]|[Hm Hc]].
    + rewrite Hc, (bool_decide_eq_true_2 (held.2 = Write)) in Ha by done. done.
    + rewrite (bool_decide_eq_true_2 (wanted.2 = Write)) in * by done. rewrite andb_true_r in Hw.
      unfold covers_key in Hc. rewrite Hw, orb_false_r in Hc. apply bool_decide_eq_true in Hc.
      unfold covers_key in Ha. by rewrite (bool_decide_eq_true_2 (held.1 = wanted.1)), orb_true_r in Ha.
  - destruct Hex as [[_ Hc]|[_ Hc]]; apply covers_scope in Hc; [|rewrite same_scope_sym in Hc]; congruence.
Qed.

(** ** The state stands for the locks held *)

Definition occurrences (r : Request) (held : list Request) : nat := length (filter (r =.) held).
#[local] Arguments occurrences : simpl never.
Record backed (state : LockState) (held : list Request) : Prop := {
  bk_readers key : lk_readers state !! key =
    let count := occurrences (key, Read) held in if decide (count = 0) then None else Some count;
  bk_writers key : key ∈ lk_writers state ↔ (key, Write) ∈ held;
}.
Lemma occurrences_perm r held held' : held ≡ₚ held' → occurrences r held = occurrences r held'.
Proof. intros Hp. unfold occurrences. by rewrite Hp. Qed.
#[export] Instance backed_proper state : Proper ((≡ₚ) ==> iff) (backed state).
Proof.
  assert (Hle : ∀ held held', held ≡ₚ held' → backed state held → backed state held').
  { intros held held' Hp [Hr Hw]. split; intros key.
    - rewrite Hr. simpl. by rewrite (occurrences_perm _ _ _ Hp).
    - by rewrite Hw, Hp. }
  intros held held' Hp. split; by apply Hle.
Qed.
Lemma occurrences_elem r held : occurrences r held = 0 ↔ r ∉ held.
Proof.
  unfold occurrences. rewrite length_zero_iff_nil. split.
  - intros Hf Hin. assert (Hn : r ∈ filter (r =.) held) by by apply list_elem_of_filter.
    rewrite Hf in Hn. by apply elem_of_nil in Hn.
  - intros Hn. apply elem_of_nil_inv. intros x [-> Hx]%list_elem_of_filter. done.
Qed.
Lemma occurrences_cons r q held :
  occurrences r (q :: held) = (if decide (r = q) then 1 else 0) + occurrences r held.
Proof. unfold occurrences. rewrite filter_cons. by case_decide. Qed.

Lemma backed_reader state held key :
  backed state held → key ∈ readers_of state ↔ (key, Read) ∈ held.
Proof.
  intros [Hr _]. unfold readers_of. rewrite list_elem_of_fmap. split.
  - intros ([key' n] & -> & Hin%elem_of_map_to_list). rewrite Hr in Hin. simpl in Hin.
    destruct (decide (occurrences (key', Read) held = 0)) as [|Hne]; [done|].
    rewrite occurrences_elem in Hne. simpl. by apply dec_stable.
  - intros Hin. exists (key, occurrences (key, Read) held). split; [done|]. apply elem_of_map_to_list.
    rewrite Hr. simpl. rewrite decide_False; [done|]. rewrite occurrences_elem. tauto.
Qed.

Lemma forallb_elem {A} (p : A → bool) l : forallb p l = true ↔ ∀ x, x ∈ l → p x = true.
Proof. rewrite forallb_forall. by setoid_rewrite list_elem_of_In. Qed.
Lemma has_workspace_writer_spec state held key :
  backed state held → has_workspace_writer_in_scope state key = true ↔
  ∃ writer, (writer, Write) ∈ held ∧ is_workspace_lock writer = true ∧ same_lock_scope writer key = true.
Proof.
  intros [_ Hw]. unfold has_workspace_writer_in_scope. rewrite existsb_exists.
  setoid_rewrite <- list_elem_of_In. setoid_rewrite elem_of_elements. setoid_rewrite Hw.
  by setoid_rewrite andb_true_iff.
Qed.

(** [can_acquire] asks every lock that is held. *)
Lemma can_acquire_admits state held key mode :
  backed state held →
  can_acquire state key mode = true ↔ ∀ r, r ∈ held → admits r (key, mode) = true.
Proof.
  intros Hb. unfold can_acquire, admits. simpl.
  destruct (is_workspace_lock key && bool_decide (mode = Write)) eqn:Hws.
  - rewrite andb_true_iff, !forallb_elem. setoid_rewrite elem_of_elements.
    setoid_rewrite (backed_reader _ _ _ Hb). setoid_rewrite (bk_writers _ _ Hb). split.
    + intros [Hr Hw] [k [|]] Hin; auto.
    + intros Hall. split; intros k Hin; by apply (Hall _ Hin).
  - destruct (bool_decide (key ∈ lk_writers state) || has_workspace_writer_in_scope state key) eqn:Hc.
    + split; [done|]. intros Hall. exfalso.
      assert (∃ writer, (writer, Write) ∈ held ∧ covers_key writer key = true) as (w & Hin & Hcov).
      { apply orb_true_iff in Hc as [Hc|Hc].
        - apply bool_decide_eq_true, (bk_writers _ _ Hb) in Hc. exists key. split; [done|].
          unfold covers_key. by rewrite (bool_decide_eq_true_2 (key = key)).
        - apply (has_workspace_writer_spec _ _ _ Hb) in Hc as (w & ? & Hw & Hs). exists w.
          split; [done|]. unfold covers_key. by rewrite Hw, Hs, orb_true_r. }
      apply Hall in Hin. simpl in Hin. by rewrite Hcov in Hin.
    + apply orb_false_iff in Hc as [Hkey Hnows].
      assert (Hnw : ∀ w, (w, Write) ∈ held → covers_key w key = false).
      { intros w Hin. unfold covers_key. apply orb_false_iff. split.
        - apply bool_decide_eq_false. intros ->. apply bool_decide_eq_false in Hkey.
          by apply Hkey, (bk_writers _ _ Hb).
        - apply not_true_iff_false. intros [Hw Hs]%andb_true_iff. apply not_true_iff_false in Hnows.
          apply Hnows, (has_workspace_writer_spec _ _ _ Hb). by exists w. }
      destruct mode; simpl.
      * split; [|done]. intros _ [k [|]] Hin; simpl; [by rewrite andb_false_r|].
        by rewrite Hnw.
      * rewrite andb_true_iff, bool_decide_eq_true, forallb_elem.
        setoid_rewrite (backed_reader _ _ _ Hb). rewrite (bk_readers _ _ Hb). simpl. split.
        -- intros [H0 Hall] [k [|]] Hin; simpl; [|by rewrite Hnw].
           rewrite andb_true_r. unfold covers_key. apply negb_true_iff, orb_false_iff. split.
           ++ apply bool_decide_eq_false. intros ->. destruct (decide (occurrences _ _ = 0)) as [Hz|]; [|done].
              by apply occurrences_elem in Hz.
           ++ specialize (Hall _ Hin). by destruct (is_workspace_lock k), (same_lock_scope k key).
        -- intros Hall. split.
           ++ destruct (decide (occurrences _ _ = 0)) as [|Hne]; [done|]. rewrite occurrences_elem in Hne. apply dec_stable in Hne.
              apply Hall in Hne. unfold covers_key in Hne. simpl in Hne.
              by rewrite (bool_decide_eq_true_2 (key = key)) in Hne.
           ++ intros k Hin. apply Hall in Hin. unfold covers_key in Hin. simpl in Hin.
              destruct (is_workspace_lock k), (same_lock_scope k key); try done.
              by rewrite orb_true_r in Hin.
Qed.

Lemma blocked_by state held key mode :
  backed state held → can_acquire state key mode = false →
  ∃ r, r ∈ held ∧ admits r (key, mode) = false.
Proof.
  intros Hb Hcan. destruct (forallb (λ r, admits r (key, mode)) held) eqn:Hall.
  - rewrite forallb_elem in Hall. apply (can_acquire_admits _ _ _ _ Hb) in Hall. congruence.
  - apply not_true_iff_false in Hall. rewrite forallb_forall in Hall.
    assert (Hex : Exists (λ r, admits r (key, mode) ≠ true) held).
    { apply not_Forall_Exists; [intros ?; apply _|]. intros Hf. apply Hall. by apply List.Forall_forall. }
    apply Exists_exists in Hex as (r & Hr & Hadm%not_true_iff_false). by exists r.
Qed.
Lemma backed_empty : backed LockState_default [].
Proof. split; intros key; [done|]. simpl. rewrite elem_of_nil. set_solver. Qed.
Lemma backed_take state held key mode :
  backed state held → backed (take_one state key mode) ((key, mode) :: held).
Proof.
  intros [Hr Hw]. split; intros k; destruct mode; simpl; rewrite ?occurrences_cons.
  - destruct (decide (k = key)) as [->|Hne].
    + rewrite lookup_insert_eq, Hr, (decide_True (P := (key, Read) = _)) by done. simpl.
      by destruct (decide (occurrences _ _ = 0)) as [->|].
    + rewrite lookup_insert_ne by done. rewrite Hr. by rewrite (decide_False (P := (k, Read) = _)) by congruence.
  - rewrite Hr. by rewrite (decide_False (P := (k, Read) = _)) by congruence.
  - rewrite Hw, elem_of_cons. naive_solver.
  - rewrite elem_of_union, elem_of_singleton, Hw, elem_of_cons. naive_solver.
Qed.
(** Giving a lock back undoes taking it, when no other write of the key is held. *)
Lemma backed_release state held key mode :
  backed state ((key, mode) :: held) → (mode = Write → (key, Write) ∉ held) →
  backed (release_one state key mode) held.
Proof.
  intros [Hr Hw] Honce. split; intros k.
  - specialize (Hr k). simpl in Hr. rewrite occurrences_cons in Hr. destruct mode; simpl.
    + destruct (decide (k = key)) as [->|Hne].
      * rewrite (decide_True (P := (key, Read) = _)) in Hr by done. simpl in Hr. rewrite Hr. simpl.
        rewrite Nat.sub_0_r. destruct (decide (occurrences _ _ = 0)) as [->|Hne].
        -- simpl. by rewrite lookup_delete_eq.
        -- rewrite bool_decide_eq_false_2 by done. by rewrite lookup_insert_eq.
      * rewrite (decide_False (P := (k, Read) = _)) in Hr by congruence. case_bool_decide.
        -- rewrite lookup_delete_ne by done. by rewrite Hr.
        -- rewrite lookup_insert_ne by done. by rewrite Hr.
    + by rewrite (decide_False (P := (k, Read) = _)) in Hr by congruence.
  - specialize (Hw k). rewrite elem_of_cons in Hw. destruct mode; simpl.
    + rewrite Hw. naive_solver.
    + rewrite elem_of_difference, elem_of_singleton, Hw. naive_solver.
Qed.

(** No two of the locks held exclude each other. *)
Definition exclusive (held : list Request) : Prop := ∀ r q rest, held ≡ₚ r :: q :: rest → ¬ excludes r q.
#[export] Instance exclusive_proper : Proper ((≡ₚ) ==> iff) exclusive.
Proof. intros l k Hlk. unfold exclusive. by setoid_rewrite Hlk. Qed.
Lemma exclusive_cons_inv r held : exclusive (r :: held) → exclusive held.
Proof. intros He x y rest Hp. apply (He x y (r :: rest)). rewrite Hp. solve_Permutation. Qed.
Lemma excludes_sym r q : excludes r q → excludes q r.
Proof. unfold excludes. tauto. Qed.
Lemma exclusive_cons r held :
  exclusive held → (∀ q, q ∈ held → admits q r = true) → exclusive (r :: held).
Proof.
  intros He Hadm x y rest Hp.
  assert (Hr : ∀ q rest', held ≡ₚ q :: rest' → ¬ excludes q r).
  { intros q rest' Hq. apply admits_not_excludes, Hadm. rewrite Hq. by left. }
  assert (Hin : r ∈ x :: y :: rest) by (rewrite <- Hp; by left).
  rewrite !elem_of_cons in Hin. destruct Hin as [->|[->|Hin]].
  - apply Permutation.Permutation_cons_inv in Hp. intros Hex%excludes_sym. by eapply Hr.
  - rewrite (Permutation_swap _ x) in Hp. apply Permutation.Permutation_cons_inv in Hp. by eapply Hr.
  - apply elem_of_Permutation in Hin as [rest' Hrest]. apply (He x y rest').
    apply (Permutation.Permutation_cons_inv (a := r)). rewrite Hp, Hrest. solve_Permutation.
Qed.
Lemma exclusive_pair held r q : exclusive held → r ∈ held → q ∈ held → r ≠ q → ¬ excludes r q.
Proof.
  intros He Hr Hq Hne. apply elem_of_Permutation in Hr as [rest Hrest]. rewrite Hrest in Hq.
  apply elem_of_cons in Hq as [->|Hq]; [done|]. apply elem_of_Permutation in Hq as [rest' Hrest'].
  apply (He r q rest'). by rewrite Hrest, Hrest'.
Qed.
Lemma exclusive_write_once key held : exclusive ((key, Write) :: held) → (key, Write) ∉ held.
Proof.
  intros He Hin. apply elem_of_Permutation in Hin as [rest Hrest].
  apply (He (key, Write) (key, Write) rest); [by rewrite Hrest|]. left. split; [done|].
  unfold covers_key. by rewrite bool_decide_eq_true_2.
Qed.

(** ** The invariant of the interleaving *)

Definition all_held (s : Locks) : list Request := concat (ho_held <$> ls_holders s).
(** Requests of which each admits the later ones. *)
Definition in_order (requests : list Request) : Prop :=
  ∀ before r between q after, requests = before ++ r :: between ++ q :: after → admits r q = true.

Record holder_ok (state : LockState) (access : Access) (h : Holder) : Prop := {
  hk_taken : ∃ taken, sorted_requests access = taken ++ ho_todo h ∧ ho_held h `prefix_of` taken
    ∧ (ho_todo h ≠ [] → ho_held h = taken) ∧ in_order taken;
  hk_asleep : ho_asleep h = true →
    ∃ key mode todo, ho_todo h = (key, mode) :: todo ∧ can_acquire state key mode = false;
}.
Record locks_ok (accesses : list Access) (s : Locks) : Prop := {
  lo_backed : backed (ls_state s) (all_held s);
  lo_exclusive : exclusive (all_held s);
  lo_holders : Forall2 (holder_ok (ls_state s)) accesses (ls_holders s);
}.

Lemma held_split holders i h h' :
  holders !! i = Some h →
  ∃ rest, concat (ho_held <$> holders) ≡ₚ ho_held h ++ rest
          ∧ concat (ho_held <$> <[i := h']> holders) ≡ₚ ho_held h' ++ rest.
Proof.
  intros Hi. exists (concat (ho_held <$> take i holders) ++ concat (ho_held <$> drop (S i) holders)).
  rewrite insert_take_drop by by eapply lookup_lt_Some.
  rewrite <- (take_drop_middle _ _ _ Hi) at 1. rewrite !fmap_app, !concat_app. simpl.
  split; solve_Permutation.
Qed.
Lemma holder_held s i h r : ls_holders s !! i = Some h → r ∈ ho_held h → r ∈ all_held s.
Proof. intros Hi Hr. destruct (held_split _ _ _ h Hi) as (rest & Hp & _). unfold all_held. rewrite Hp. set_solver. Qed.
Lemma held_holder s r : r ∈ all_held s → ∃ i h, ls_holders s !! i = Some h ∧ r ∈ ho_held h.
Proof.
  unfold all_held. rewrite list_elem_of_In, in_concat. setoid_rewrite <- list_elem_of_In.
  intros (l & Hl & Hr). apply list_elem_of_fmap in Hl as (h & -> & [i Hi]%list_elem_of_lookup). eauto.
Qed.

Lemma in_order_snoc taken r :
  in_order taken → (∀ q, q ∈ taken → admits q r = true) → in_order (taken ++ [r]).
Proof.
  intros Ho Hr before x between y after Heq. destruct after as [|z after _] using rev_ind.
  - rewrite app_comm_cons, app_assoc in Heq. apply app_inj_tail in Heq as [-> <-]. apply Hr. set_solver.
  - assert (Heq' : taken ++ [r] = (before ++ x :: between ++ y :: after) ++ [z]).
    { rewrite Heq, <- app_assoc. simpl. by rewrite <- app_assoc. }
    apply app_inj_tail in Heq' as [-> _]. by eapply (Ho before x between y after).
Qed.

Lemma holder_ok_blocked state state' access h :
  (∀ key mode, can_acquire state key mode = false → can_acquire state' key mode = false) →
  holder_ok state access h → holder_ok state' access h.
Proof. intros Hmono [Ht Ha]. split; [done|]. intros Has. destruct (Ha Has) as (k & m & t & ? & ?). eauto 6. Qed.
Lemma holder_ok_awake state state' access h : holder_ok state access h → holder_ok state' access (awaken h).
Proof. intros [Ht _]. by split. Qed.

Lemma take_blocks state held key mode k m :
  backed state held → can_acquire state k m = false → can_acquire (take_one state key mode) k m = false.
Proof.
  intros Hb. rewrite <- !not_true_iff_false. intros Hno Hyes. apply Hno.
  rewrite (can_acquire_admits _ _ _ _ (backed_take _ _ key mode Hb)) in Hyes.
  apply (can_acquire_admits _ _ _ _ Hb). intros r Hr. apply Hyes. by right.
Qed.

Lemma start_ok accesses : locks_ok accesses (locks_of accesses).
Proof.
  assert (all_held (locks_of accesses) = []) as Hnone.
  { unfold all_held, locks_of. simpl. induction accesses as [|access accesses IH]; [done|]. exact IH. }
  split; rewrite ?Hnone; [apply backed_empty|by intros ??? ?%Permutation_nil_cons|].
  simpl. apply Forall2_fmap_r, Forall_Forall2_diag, Forall_true. intros access. split; [|done].
  exists []. split_and!; [done|by exists []|done|]. by intros [].
Qed.

Lemma progress_ok accesses s s' : locks_ok accesses s → lock_progress s s' → locks_ok accesses s'.
Proof.
  intros [Hb He Hh] Hstep. destruct Hstep as [i key mode todo held Hi Hcan|i key mode held Hi].
  - destruct (held_split _ _ _ {| ho_todo := todo; ho_held := held ++ [(key, mode)]; ho_asleep := false |} Hi)
      as (rest & Hold & Hnew). simpl in Hold, Hnew.
    assert (Hadm := proj1 (can_acquire_admits _ _ _ _ Hb) Hcan).
    assert (Hall : concat (ho_held <$> <[i := {| ho_todo := todo; ho_held := held ++ [(key, mode)];
              ho_asleep := false |}]> (ls_holders s)) ≡ₚ (key, mode) :: all_held s).
    { unfold all_held. rewrite Hnew, Hold. solve_Permutation. }
    split; simpl; unfold all_held; simpl; rewrite ?Hall.
    + by apply backed_take.
    + by apply exclusive_cons.
    + destruct (Forall2_lookup_r _ _ _ _ _ Hh Hi) as (access & Ha & [Ht _]).
      rewrite <- (list_insert_id _ _ _ Ha). apply Forall2_insert.
      * eapply Forall2_impl; [exact Hh|]. intros a h. apply holder_ok_blocked. intros k m.
        by apply (take_blocks _ (all_held s)).
      * split; [|done]. simpl in *. destruct Ht as (taken & Heq & _ & Htaken & Ho).
        rewrite (Htaken ltac:(done)) in *. exists (taken ++ [(key, mode)]).
        rewrite <- app_assoc. split_and!; [done|done|done|]. apply in_order_snoc; [done|].
        intros q Hq. by apply Hadm, (holder_held _ _ _ _ Hi).
  - destruct (held_split _ _ _ {| ho_todo := []; ho_held := held; ho_asleep := false |} Hi)
      as (rest & Hold & Hnew). simpl in Hold, Hnew.
    assert (Hwas : all_held s ≡ₚ (key, mode) :: held ++ rest).
    { unfold all_held. rewrite Hold. solve_Permutation. }
    assert (Hall : concat (ho_held <$> (awaken <$> <[i := {| ho_todo := []; ho_held := held;
              ho_asleep := false |}]> (ls_holders s))) ≡ₚ held ++ rest).
    { rewrite <- list_fmap_compose. exact Hnew. }
    rewrite Hwas in Hb, He. split; simpl; unfold all_held; simpl; rewrite ?Hall.
    + apply backed_release; [done|]. intros ->. by apply exclusive_write_once.
    + by eapply exclusive_cons_inv.
    + destruct (Forall2_lookup_r _ _ _ _ _ Hh Hi) as (access & Ha & [Ht _]).
      rewrite <- (list_insert_id _ _ _ Ha). apply Forall2_fmap_r.
      apply (Forall2_impl (holder_ok (ls_state s))); [|intros ? h; apply holder_ok_awake].
      apply Forall2_insert; [done|]. split; [|done]. simpl in *.
      destruct Ht as (taken & Heq & Hpre & _ & Ho). exists taken. split_and!; [done| |done|done].
      etrans; [by apply prefix_app_r|done].
Qed.

Lemma rest_ok accesses s s' : locks_ok accesses s → lock_rest s s' → locks_ok accesses s'.
Proof.
  intros [Hb He Hh] Hstep. destruct Hstep as [i key mode todo held Hi Hcan|i h Hi].
  all: destruct (Forall2_lookup_r _ _ _ _ _ Hh Hi) as (access & Ha & Hok).
  all: match goal with |- locks_ok _ {| ls_holders := <[_ := ?h']> _ |} =>
         destruct (held_split _ _ _ h' Hi) as (rest & Hold & Hnew) end.
  all: simpl in Hold, Hnew; rewrite <- Hold in Hnew.
  all: split; simpl; unfold all_held; simpl; rewrite ?Hnew; try done.
  all: rewrite <- (list_insert_id _ _ _ Ha); apply Forall2_insert; [done|].
  - destruct Hok as [Ht _]. split; [done|]. intros _. simpl. eauto.
  - by eapply holder_ok_awake.
Qed.

Lemma reachable_locks_ok accesses s : reachable accesses s → locks_ok accesses s.
Proof.
  intros Hr. eapply (rtc_ind_r (locks_ok accesses) (locks_of accesses)); [apply start_ok| |done].
  intros s1 s2 _ [Hp|Hp] Hok; [by eapply progress_ok|by eapply rest_ok].
Qed.

(** ** Exclusion *)

Lemma two_held s i j h1 h2 r q :
  ls_holders s !! i = Some h1 → ls_holders s !! j = Some h2 → i ≠ j → r ∈ ho_held h1 → q ∈ ho_held h2 →
  ∃ rest, all_held s ≡ₚ r :: q :: rest.
Proof.
  intros Hi Hj Hne Hr Hq. set (none := {| ho_todo := []; ho_held := []; ho_asleep := false |}).
  destruct (held_split _ _ _ none Hi) as (rest & Hall & Hrest). simpl in Hrest.
  assert (Hin : q ∈ rest).
  { rewrite <- Hrest.
    pose proof (holder_held {| ls_state := ls_state s; ls_holders := <[i := none]> (ls_holders s) |} j h2 q)
      as Hheld. cbn [ls_holders] in Hheld. rewrite list_lookup_insert_ne in Hheld by done.
    by apply Hheld. }
  apply elem_of_Permutation in Hr as [rest1 Hr], Hin as [rest2 Hin]. exists (rest1 ++ rest2).
  unfold all_held. rewrite Hall, Hr, Hin. solve_Permutation.
Qed.

(** C15: file locks exclude: whatever commands use the manager and however their
    steps interleave, its tables count exactly the locks held; no two commands
    hold locks of which one is a write of the same key or of the workspace of
    the same scope; and a command sleeps only while a lock of its own scope is
    held that rules out the one it waits for, so no wake-up is lost. *)
Theorem file_locks_exclude accesses s :
  reachable accesses s →
  backed (ls_state s) (all_held s)
  ∧ (∀ i j h1 h2 r q, i ≠ j → ls_holders s !! i = Some h1 → ls_holders s !! j = Some h2 →
       r ∈ ho_held h1 → q ∈ ho_held h2 → ¬ excludes r q)
  ∧ (∀ i h, ls_holders s !! i = Some h → ho_asleep h = true →
       ∃ key mode todo r, ho_todo h = (key, mode) :: todo ∧ r ∈ all_held s
         ∧ same_lock_scope r.1 key = true ∧ admits r (key, mode) = false).
Proof.
  intros [Hb He Hh]%reachable_locks_ok. split_and!; [done| |].
  - intros i j h1 h2 r q Hne Hi Hj Hr Hq.
    destruct (two_held _ _ _ _ _ _ _ Hi Hj Hne Hr Hq) as [rest Hp]. by eapply He.
  - intros i h Hi Has. destruct (Forall2_lookup_r _ _ _ _ _ Hh Hi) as (access & _ & [_ Hs]).
    destruct (Hs Has) as (key & mode & todo & Htodo & Hcan). exists key, mode, todo.
    apply (blocked_by _ _ _ _ Hb) in Hcan as (r & Hr & Hadm). exists r. split_and!; try done.
    apply not_false_iff_true. intros Hscope.
    by rewrite (admits_other_scope r (key, mode)) in Hadm.
Qed.

(** ** Commands alone *)

Lemma in_order_prefix l k : in_order (l ++ k) → in_order l.
Proof.
  intros Ho before r between q after ->. apply (Ho before r between q (after ++ k)).
  rewrite <- app_assoc. simpl. by rewrite <- app_assoc.
Qed.
Lemma acquire_from_in_order state held taken requests :
  backed state held → held ≡ₚ taken → in_order taken →
  is_Some (acquire_from state requests) ↔ in_order (taken ++ requests).
Proof.
  revert state held taken. induction requests as [|[key mode] requests IH]; intros state held taken Hb Hp Ho; simpl.
  { rewrite app_nil_r. split; [done|by eexists]. }
  assert (Hcan := can_acquire_admits _ _ key mode Hb). setoid_rewrite Hp in Hcan.
  destruct (can_acquire state key mode) eqn:Hc.
  - rewrite (IH _ ((key, mode) :: held) (taken ++ [(key, mode)])).
    + by rewrite <- app_assoc.
    + by apply backed_take.
    + rewrite Hp. solve_Permutation.
    + apply in_order_snoc; [done|]. by apply Hcan.
  - split; [by intros [? ?]|]. intros Hord. enough (false = true) by done.
    apply Hcan. intros r [l1 [l2 ->]]%list_elem_of_split. apply (Hord l1 r l2 (key, mode) requests).
    by rewrite <- app_assoc.
Qed.
(** A command that is alone gets its locks unless two of them clash. *)
Lemma acquire_alone_in_order access :
  is_Some (acquire_alone access) ↔ in_order (sorted_requests access).
Proof.
  unfold acquire_alone. rewrite (acquire_from_in_order _ [] []); [done|apply backed_empty|done|].
  by intros [] ?????.
Qed.

(** ** Progress *)

(** Locks a command can have when it is alone; a lock of the workspace is a
    write, and the only one asked for. *)
Definition orderly (access : Access) : Prop :=
  is_Some (acquire_alone access)
  ∧ ∀ r, r ∈ sorted_requests access → is_workspace_lock r.1 = true →
      r.2 = Write ∧ sorted_requests access = [r].

Definition holder_work (h : Holder) : nat := 2 * length (ho_todo h) + length (ho_held h).
Definition work (s : Locks) : nat := sum_list_with holder_work (ls_holders s).
Lemma work_insert (holders : list Holder) i h h' :
  holders !! i = Some h →
  sum_list_with holder_work (<[i := h']> holders) + holder_work h
  = sum_list_with holder_work holders + holder_work h'.
Proof.
  revert i. induction holders as [|x holders IH]; intros [|i] Hi; try done.
  - simpl in Hi. injection Hi as ->. simpl. lia.
  - simpl in *. specialize (IH _ Hi). lia.
Qed.
Lemma work_awaken holders : sum_list_with holder_work (awaken <$> holders) = sum_list_with holder_work holders.
Proof. induction holders as [|h holders IH]; [done|]. exact (f_equal (Nat.add (holder_work h)) IH). Qed.
Lemma progress_works s s' : lock_progress s s' → work s' < work s.
Proof.
  unfold work. intros [i key mode todo held Hi _|i key mode held Hi]; simpl; rewrite ?work_awaken.
  all: match goal with |- sum_list_with _ (<[_ := ?h']> _) < _ => pose proof (work_insert _ _ _ h' Hi) as Hw end.
  all: unfold holder_work in Hw at 2 4; simpl in Hw; rewrite ?length_app in Hw; simpl in Hw; lia.
Qed.
Lemma rest_works s s' : lock_rest s s' → work s' = work s.
Proof.
  unfold work. intros [i key mode todo held Hi _|i h Hi]; simpl.
  all: match goal with |- sum_list_with _ (<[_ := ?h']> _) = _ => pose proof (work_insert _ _ _ h' Hi) as Hw end.
  all: unfold holder_work in Hw at 2 4; simpl in Hw; lia.
Qed.

(** The keys are compared as the sort compares them. *)
#[local] Instance request_le_trans : Transitive request_le.
Proof.
  intros [k m] [k' m'] [k'' m'']. unfold request_le, request_leb. simpl.
  rewrite !orb_true_iff, !andb_true_iff, !bool_decide_eq_true.
  intros [H1|[-> H1]] [H2|[-> H2]].
  - left. by eapply str_lt_trans.
  - by left.
  - by left.
  - right. split; [done|]. by destruct m, m', m''.
Qed.
#[local] Instance request_le_total : Total request_le.
Proof.
  intros [k m] [k' m']. unfold request_le, request_leb. simpl.
  destruct (decide (k = k')) as [->|Hne].
  - rewrite bool_decide_eq_true_2 by done. destruct m, m'; rewrite ?orb_true_r; auto.
  - destruct (str_lt k k') eqn:Hlt; [by left|]. right.
    by rewrite (str_lt_total k k' Hne Hlt).
Qed.
Lemma greatest {A} (R : A → A → Prop) `{!Transitive R, !Total R} (l : list A) :
  l ≠ [] → ∃ x, x ∈ l ∧ ∀ y, y ∈ l → R y x.
Proof.
  induction l as [|x l IH]; intros Hne; [done|]. destruct (decide (l = [])) as [->|Hl].
  - exists x. split; [by left|]. intros y ->%list_elem_of_singleton. by destruct (total R x x).
  - destruct (IH Hl) as (m & Hm & Hall). destruct (total R x m) as [Hxm|Hmx].
    + exists m. split; [by right|]. intros y [->|Hy]%elem_of_cons; auto.
    + exists x. split; [by left|]. intros y [->|Hy]%elem_of_cons; [by destruct (total R x x)|].
      etrans; [by apply Hall|done].
Qed.

Definition enabled (state : LockState) (h : Holder) : bool :=
  match ho_todo h with
  | [] => negb (bool_decide (ho_held h = []))
  | (key, mode) :: _ => can_acquire state key mode
  end.
Lemma enabled_progress accesses s i h :
  locks_ok accesses s → ls_holders s !! i = Some h → enabled (ls_state s) h = true →
  ∃ s', lock_progress s s'.
Proof.
  intros Hok Hi Hen. destruct (Forall2_lookup_r _ _ _ _ _ (lo_holders _ _ Hok) Hi) as (access & _ & [_ Hs]).
  destruct h as [[|[key mode] todo] held []]; cbn [enabled ho_todo ho_held ho_asleep] in *.
  - by destruct (Hs eq_refl) as (? & ? & ? & ? & _).
  - destruct held as [|[key mode] held _] using rev_ind; [done|].
    eexists. by eapply progress_release.
  - destruct (Hs eq_refl) as (? & ? & ? & [= <- <- <-] & Hcan). congruence.
  - eexists. by eapply progress_acquire.
Qed.

Section Stuck.
Context (accesses : list Access) (s : Locks).
Context (Hok : locks_ok accesses s) (Horderly : Forall orderly accesses).
Context (Hstuck : Forall (λ h, enabled (ls_state s) h = false) (ls_holders s)).

(** The request a holder is stuck at, its locks taken, and the order of both. *)
Lemma stuck_at i h :
  ls_holders s !! i = Some h → gone h = false →
  ∃ key mode todo access, ho_todo h = (key, mode) :: todo ∧ can_acquire (ls_state s) key mode = false
    ∧ sorted_requests access = ho_held h ++ (key, mode) :: todo ∧ orderly access.
Proof.
  intros Hi Hgone. rewrite Forall_lookup in Hstuck. specialize (Hstuck _ _ Hi).
  destruct (Forall2_lookup_r _ _ _ _ _ (lo_holders _ _ Hok) Hi) as (access & Ha & [Ht _]).
  unfold enabled in Hstuck. unfold gone in Hgone. destruct (ho_todo h) as [|[key mode] todo].
  - rewrite negb_false_iff in Hstuck. rewrite Hstuck in Hgone. done.
  - destruct Ht as (taken & Heq & _ & Htaken & _). rewrite (Htaken ltac:(done)).
    exists key, mode, todo, access. split_and!; try done. by eapply (Forall_lookup_1 _ _ _ _ Horderly).
Qed.
Lemma stuck_blocker key mode :
  can_acquire (ls_state s) key mode = false →
  ∃ r i h key' mode' todo access, ls_holders s !! i = Some h ∧ r ∈ ho_held h
    ∧ admits r (key, mode) = false ∧ ho_todo h = (key', mode') :: todo
    ∧ can_acquire (ls_state s) key' mode' = false
    ∧ sorted_requests access = ho_held h ++ (key', mode') :: todo ∧ orderly access
    ∧ is_workspace_lock r.1 = false ∧ is_workspace_lock key' = false.
Proof.
  intros Hcan. destruct (blocked_by _ _ _ _ (lo_backed _ _ Hok) Hcan) as (r & Hr & Hadm).
  apply held_holder in Hr as (i & h & Hi & Hr).
  destruct (stuck_at i h Hi) as (key' & mode' & todo & access & Htodo & Hcan' & Hsorted & [Halone Hws]).
  { unfold gone. rewrite andb_false_iff. right. apply bool_decide_eq_false. intros Hnone.
    rewrite Hnone in Hr. by apply elem_of_nil in Hr. }
  exists r, i, h, key', mode', todo, access.
  assert (Hone : ∀ q, q ∈ sorted_requests access → is_workspace_lock q.1 = false).
  { intros q Hq. apply not_true_iff_false. intros Hw. destruct (Hws q Hq Hw) as [_ Hsingle].
    rewrite Hsorted in Hsingle. destruct (ho_held h) as [|x l]; [by apply elem_of_nil in Hr|].
    by destruct l. }
  split_and!; try done.
  - apply Hone. rewrite Hsorted. apply elem_of_app. by left.
  - apply (Hone (key', mode')). rewrite Hsorted. set_solver.
Qed.

(** A file lock refused by another file lock: they share the key, and one of
    them writes. *)
Lemma refused_same_key r key mode :
  is_workspace_lock r.1 = false → is_workspace_lock key = false → admits r (key, mode) = false →
  r.1 = key ∧ (r.2 = Write ∨ mode = Write).
Proof.
  intros Hr Hk Hadm. unfold admits, covers_key in Hadm. simpl in Hadm. rewrite Hk, Hr in Hadm. simpl in Hadm.
  rewrite orb_false_r in Hadm. apply negb_false_iff in Hadm.
  by rewrite andb_true_iff, orb_true_iff, !bool_decide_eq_true in Hadm.
Qed.
Lemma file_request_greatest i h :
  ls_holders s !! i = Some h → gone h = false →
  ∃ j h' key mode todo access, ls_holders s !! j = Some h' ∧ ho_todo h' = (key, mode) :: todo
    ∧ can_acquire (ls_state s) key mode = false ∧ is_workspace_lock key = false
    ∧ sorted_requests access = ho_held h' ++ (key, mode) :: todo ∧ orderly access
    ∧ ∀ j h' key' mode' todo, ls_holders s !! j = Some h' → ho_todo h' = (key', mode') :: todo →
        is_workspace_lock key' = false → request_le (key', mode') (key, mode).
Proof.
  intros Hi Hgone. destruct (stuck_at i h Hi Hgone) as (k & m & t & a & _ & Hcan & _).
  set (waits := omap (λ h, r ← head (ho_todo h); if is_workspace_lock r.1 then None else Some r) (ls_holders s)).
  assert (Hin : ∀ j h' r todo, ls_holders s !! j = Some h' → ho_todo h' = r :: todo →
    is_workspace_lock r.1 = false → r ∈ waits).
  { intros j h' r todo Hj Htodo Hw. apply list_elem_of_omap. exists h'.
    split; [by eapply list_elem_of_lookup_2|]. rewrite Htodo. simpl. by rewrite Hw. }
  destruct (greatest request_le waits) as ([key mode] & Hmax & Hall).
  { destruct (stuck_blocker _ _ Hcan) as (r & j & h' & k' & m' & t' & a' & Hj & _ & _ & Ht & _ & _ & _ & _ & Hw).
    pose proof (Hin _ _ _ _ Hj Ht Hw) as Hne. intros Hnil. rewrite Hnil in Hne. by apply elem_of_nil in Hne. }
  apply list_elem_of_omap in Hmax as (h' & [j Hj]%list_elem_of_lookup & Hhead).
  destruct (ho_todo h') as [|r todo] eqn:Htodo; [done|]. simpl in Hhead.
  destruct (is_workspace_lock r.1) eqn:Hw; [done|]. injection Hhead as ->.
  destruct (stuck_at j h' Hj) as (key' & mode' & todo' & access & Htodo' & Hcan' & Hsorted & Hord).
  { unfold gone. by rewrite Htodo. }
  rewrite Htodo in Htodo'. injection Htodo' as <- <- <-.
  exists j, h', key, mode, todo, access. split_and!; try done. intros; eapply Hall; eauto.
Qed.

Lemma stuck_gone : Forall (λ h, gone h = true) (ls_holders s).
Proof.
  apply Forall_lookup. intros i h Hi. apply not_false_iff_true. intros Hgone.
  destruct (file_request_greatest i h Hi Hgone)
    as (j1 & h1 & key & mode & todo1 & a1 & _ & _ & Hcan1 & Hw1 & _ & _ & Hmax).
  destruct (stuck_blocker _ _ Hcan1)
    as (r & j2 & h2 & key2 & mode2 & todo2 & a2 & Hj2 & Hr & Hadm & Htodo2 & Hcan2 & Hs2 & [Ho2 _] & Hwr & Hw2).
  destruct (refused_same_key _ _ _ Hwr Hw1 Hadm) as [Hkey _].
  pose proof (Hmax _ _ _ _ _ Hj2 Htodo2 Hw2) as Hle2.
  assert (Hle1 : request_le r (key2, mode2)).
  { eapply (StronglySorted_app_1_elem_of request_le (ho_held h2)); [|exact Hr|by left].
    rewrite <- Hs2. apply StronglySorted_merge_sort; apply _. }
  assert (key2 = key) as ->.
  { unfold request_le, request_leb in Hle1, Hle2. simpl in *. rewrite Hkey in Hle1.
    rewrite orb_true_iff, andb_true_iff, bool_decide_eq_true in Hle1, Hle2.
    destruct Hle1 as [Hlt1|[? _]]; [|done]. destruct Hle2 as [Hlt2|[? _]]; [|done].
    pose proof (str_lt_trans _ _ _ Hlt1 Hlt2) as Hirr. by rewrite str_lt_irrefl in Hirr. }
  assert (Hadm2 : admits r (key, mode2) = true).
  { apply acquire_alone_in_order in Ho2. apply list_elem_of_split in Hr as (l1 & l2 & Hheld).
    apply (Ho2 l1 r l2 (key, mode2) todo2). rewrite Hs2, Hheld, <- app_assoc. done. }
  destruct (stuck_blocker _ _ Hcan2)
    as (q & j3 & h3 & k3 & m3 & t3 & a3 & Hj3 & Hq & Hadm3 & _ & _ & _ & _ & Hwq & _).
  destruct (refused_same_key _ _ _ Hwq Hw1 Hadm3) as [Hqkey Hqw].
  assert (Hread : r.2 ≠ Write ∧ mode2 ≠ Write).
  { unfold admits, covers_key in Hadm2. simpl in Hadm2. rewrite Hw1 in Hadm2. simpl in Hadm2.
    rewrite (bool_decide_eq_true_2 (r.1 = key)) in Hadm2 by done. simpl in Hadm2.
    apply negb_true_iff, orb_false_iff in Hadm2 as [H1%bool_decide_eq_false H2%bool_decide_eq_false]. done. }
  destruct Hqw as [Hqw|Hqw]; [|by destruct Hread].
  apply (exclusive_pair (all_held s) q r); [apply (lo_exclusive _ _ Hok)|
    by apply (holder_held s j3 h3)|by apply (holder_held s j2 h2)|congruence|].
  left. split; [done|]. unfold covers_key. rewrite Hqkey, Hkey. by rewrite bool_decide_eq_true_2.
Qed.
End Stuck.

(** C23: file locks never deadlock among orderly commands: when every
    command asks for locks that do not clash with each other, and for the
    lock of the workspace only to write and alone ([orderly]; readers of the
    workspace can deadlock, [workspace_reader_locks_out]), then at every
    moment of every interleaving either all commands have come and gone and
    the tables are empty, or some command can take or give back a lock at
    once; each such step uses up some of a finite amount of work, which
    waiting and waking do not change. *)
Theorem file_locks_drain accesses s :
  reachable accesses s → Forall orderly accesses →
  (Forall (λ h, gone h = true) (ls_holders s) ∧ lk_readers (ls_state s) = ∅ ∧ lk_writers (ls_state s) = ∅
   ∨ ∃ s', lock_progress s s')
  ∧ (∀ s', lock_progress s s' → work s' < work s) ∧ (∀ s', lock_rest s s' → work s' = work s).
Proof.
  intros Hr Ho. pose proof (reachable_locks_ok _ _ Hr) as Hok.
  split; [|split; [apply progress_works|apply rest_works]].
  destruct (decide (Forall (λ h, enabled (ls_state s) h = false) (ls_holders s))) as [Hstuck|Hmove].
  - left. pose proof (stuck_gone accesses s Hok Ho Hstuck) as Hgone. split; [done|].
    assert (Hnone : all_held s = []).
    { unfold all_held. clear Hstuck. induction Hgone as [|h l Hh _ IH]; [done|].
      change (ho_held h ++ concat (ho_held <$> l) = []). rewrite IH, app_nil_r.
      unfold gone in Hh. by apply andb_true_iff in Hh as [_ Hh%bool_decide_eq_true]. }
    destruct (lo_backed _ _ Hok) as [Hreaders Hwriters]. rewrite Hnone in Hreaders, Hwriters. split.
    + apply map_empty. intros key. by rewrite Hreaders.
    + apply set_eq. intros key. rewrite Hwriters. set_solver.
  - right. apply not_Forall_Exists in Hmove; [|intros ?; apply _].
    apply Exists_exists in Hmove as (h & [i Hi]%list_elem_of_lookup & Hen).
    apply not_false_iff_true in Hen. by eapply enabled_progress.
Qed.

Lemma in_order_refusal requests :
  ¬ in_order requests ↔ ∃ before r between q after,
    requests = before ++ r :: between ++ q :: after ∧ admits r q = false.
Proof.
  split.
  - induction requests as [|q requests IH] using rev_ind; [intros Hn; exfalso; by apply Hn; intros [] ?????|].
    intros Hn. destruct (decide (Forall (λ r, admits r q = true) requests)) as [Hall|Hex].
    + destruct IH as (before & r & between & x & after & -> & Hadm).
      * intros Ho. apply Hn, in_order_snoc; [done|]. by apply Forall_forall.
      * exists before, r, between, x, (after ++ [q]). split; [|done].
        rewrite <- app_assoc. simpl. by rewrite <- app_assoc.
    + apply not_Forall_Exists in Hex; [|intros ?; apply _].
      apply Exists_exists in Hex as (r & (before & between & ->)%list_elem_of_split & Hadm).
      apply not_true_iff_false in Hadm. exists before, r, between, q, []. by rewrite <- app_assoc.
  - intros (before & r & between & q & after & -> & Hadm) Ho.
    rewrite (Ho before r between q after) in Hadm; done.
Qed.
Lemma repeated_split {A} `{EqDecision A} (l : list A) :
  ¬ NoDup l → ∃ a x b c, l = a ++ x :: b ++ x :: c.
Proof.
  induction l as [|y l IH]; intros Hn; [by destruct Hn; constructor|].
  destruct (decide (y ∈ l)) as [(b & c & ->)%list_elem_of_split|Hy]; [by exists [], y, b, c|].
  destruct IH as (a & x & b & c & ->); [|by exists (y :: a), x, b, c].
  intros Hl. apply Hn. by constructor.
Qed.
Lemma twice_split {A} (l : list A) x rest :
  l ≡ₚ x :: x :: rest → ∃ a b c, l = a ++ x :: b ++ x :: c.
Proof.
  intros Hp. assert (Hx : x ∈ l) by (rewrite Hp; by left).
  apply list_elem_of_split in Hx as (l1 & l2 & ->). rewrite <- Permutation_middle in Hp.
  apply Permutation.Permutation_cons_inv in Hp. assert (Hx : x ∈ l1 ++ l2) by (rewrite Hp; by left).
  apply elem_of_app in Hx as [(a & b & ->)%list_elem_of_split|(b & c & ->)%list_elem_of_split].
  - exists a, b, l2. by rewrite <- app_assoc.
  - by exists l1, b, c.
Qed.
Lemma write_refuses_itself key : admits (key, Write) (key, Write) = false.
Proof.
  unfold admits, covers_key. simpl. rewrite same_scope_refl, (bool_decide_eq_true_2 (key = key)) by done.
  by destruct (is_workspace_lock key).
Qed.

(** C38: requests that clash: a command is given its locks when it is alone
    exactly if each of its sorted requests admits the later ones; otherwise
    it waits for ever, whatever the other commands do.  In particular a
    command that is to write a path twice, such as a patch with two sections
    for one file, never starts. *)
Theorem clashing_requests_never_granted access :
  (acquire_alone access = None ↔ ∃ before r between q after,
     sorted_requests access = before ++ r :: between ++ q :: after ∧ admits r q = false)
  ∧ (∀ accesses s i h, acquire_alone access = None → reachable accesses s →
       accesses !! i = Some access → ls_holders s !! i = Some h → ho_todo h ≠ [])
  ∧ (ac_workspace_write access = false → ¬ NoDup (request_path <$> ac_write_paths access) →
     acquire_alone access = None).
Proof.
  assert (Hnone : acquire_alone access = None ↔ ¬ in_order (sorted_requests access)).
  { rewrite <- acquire_alone_in_order. by rewrite eq_None_not_Some. }
  split_and!; [rewrite Hnone; apply in_order_refusal| |].
  - intros accesses s i h Hn%Hnone Hr%reachable_locks_ok Ha Hi Htodo.
    destruct (Forall2_lookup_r _ _ _ _ _ (lo_holders _ _ Hr) Hi) as (a & Ha' & [(taken & Heq & _ & _ & Ho) _]).
    rewrite Ha in Ha'. injection Ha' as <-. rewrite Htodo, app_nil_r in Heq. apply Hn. by rewrite Heq.
  - intros Hws Hdup. apply Hnone, in_order_refusal.
    destruct (repeated_split _ Hdup) as (a & path & b & c & Hpaths).
    set (r := (lock_key (scope_of access) path, Write)).
    destruct (twice_split (sorted_requests access) r (
        ((λ path, (lock_key (scope_of access) (request_path path), Read)) <$> ac_read_paths access)
        ++ ((λ path, (lock_key (scope_of access) path, Write)) <$> a ++ b ++ c)))
      as (before & between & after & Hsorted).
    { unfold sorted_requests, lock_requests. rewrite Hws, merge_sort_Permutation.
      set (writing := λ path, (lock_key (scope_of access) path, Write)).
      change (λ path, (lock_key (scope_of access) (request_path path), Write)) with (writing ∘ request_path).
      rewrite (list_fmap_compose request_path writing).
      rewrite Hpaths, !fmap_app, !fmap_cons, !fmap_app, !fmap_cons.
      change (writing path) with r. solve_Permutation. }
    exists before, r, between, r, after. split; [done|]. apply write_refuses_itself.
Qed.

(** ** File locks: runs, and accesses that cannot share the manager *)

(** One step of holder [i]: it takes its next lock, or falls asleep. *)
Ltac takes i := eapply rtc_l; [left; eapply (progress_acquire _ i); vm_compute; reflexivity|]; simpl.
Ltac sleeps i := eapply rtc_l; [right; eapply (rest_wait _ i); vm_compute; reflexivity|]; simpl.

Definition two_writers : list Access := [writes ["a"; "b"]; writes ["b"]].
(** The first has both of its locks, the second sleeps. *)
Definition second_sleeps : Locks := {|
  ls_state := {| lk_readers := ∅; lk_writers := {["b"]} ∪ ({["a"]} ∪ ∅) |};
  ls_holders := [{| ho_todo := []; ho_held := [("a", Write); ("b", Write)]; ho_asleep := false |};
                 {| ho_todo := [("b", Write)]; ho_held := []; ho_asleep := true |}];
|}.
Lemma second_sleeps_reachable : reachable two_writers second_sleeps.
Proof. unfold reachable. takes 0. takes 0. sleeps 1. apply rtc_refl. Qed.

Lemma writes_orderly paths :
  is_Some (acquire_alone (writes paths)) →
  forallb (λ r : Request, negb (is_workspace_lock r.1)) (sorted_requests (writes paths)) = true →
  orderly (writes paths).
Proof.
  intros Ha Hall. split; [done|]. rewrite forallb_elem in Hall. intros r Hr Hw.
  apply Hall in Hr. by rewrite Hw in Hr.
Qed.

Lemma file_locks_exclude_witness :
  ∃ h r, ls_holders second_sleeps !! 1 = Some h ∧ ho_asleep h = true ∧ r ∈ all_held second_sleeps
    ∧ admits r ("b"%string, Write) = false.
Proof.
  destruct (file_locks_exclude two_writers second_sleeps second_sleeps_reachable) as (_ & _ & Hs).
  destruct (Hs 1 _ eq_refl eq_refl) as (key & mode & todo & r & [= <- <- <-] & Hr & _ & Hadm).
  by exists {| ho_todo := [("b"%string, Write)]; ho_held := []; ho_asleep := true |}, r.
Defined.

Lemma file_locks_drain_witness : ∃ s', lock_progress second_sleeps s' ∧ work s' < work second_sleeps.
Proof.
  assert (Forall orderly two_writers) as Ho.
  { repeat apply Forall_cons_2; try apply Forall_nil_2; apply writes_orderly; vm_compute; done || by eexists. }
  destruct (file_locks_drain two_writers second_sleeps second_sleeps_reachable Ho) as ([Hgone|[s' Hs]] & Hw & _).
  - exfalso. destruct Hgone as [Hgone _]. by inversion Hgone.
  - exists s'. split; [done|by apply Hw].
Defined.

(** Reading the workspace (the path [.]) is not exclusive with a write that is
    already held, and two accesses that are each granted alone can lock each
    other out: the first holds [x] and waits for the reader of the workspace to
    leave, who waits for [x]. *)
Definition workspace_reader : Access := Access_default.{ac_read_paths := ["."; "x"] }.
Definition crossed : Locks := {|
  ls_state := {| lk_readers := <["." := 1]> ∅; lk_writers := {["x"]} ∪ ∅ |};
  ls_holders := [{| ho_todo := [("y", Write)]; ho_held := [("x", Write)]; ho_asleep := true |};
                 {| ho_todo := [("x", Read)]; ho_held := [(".", Read)]; ho_asleep := true |}];
|}.
Theorem workspace_reader_locks_out :
  is_Some (acquire_alone (writes ["x"; "y"])) ∧ is_Some (acquire_alone workspace_reader)
  ∧ reachable [writes ["x"; "y"]; workspace_reader] crossed ∧ ∀ s', ¬ lock_progress crossed s'.
Proof.
  split_and!; [vm_compute; by eexists..| |].
  - unfold reachable. takes 0. takes 1. sleeps 0. sleeps 1. apply rtc_refl.
  - intros s' Hs. destruct Hs as [[|[|i]] key mode todo held Hi _|[|[|i]] key mode held Hi]; simpl in Hi; try done.
Qed.

(** A patch with two sections for one file asks for its lock twice. *)
Lemma clashing_requests_never_granted_witness :
  acquire_alone (writes ["a"; " a/"]) = None
  ∧ ∀ s h, reachable [writes ["a"; " a/"]; writes ["b"]] s → ls_holders s !! 0 = Some h → ho_todo h ≠ [].
Proof.
  destruct (clashing_requests_never_granted (writes ["a"; " a/"])) as (_ & Hnever & Hdup).
  assert (Hnone : acquire_alone (writes ["a"; " a/"]) = None).
  { apply Hdup; [done|]. refine (bool_decide_eq_false_1 _ _). by vm_compute. }
  split; [done|]. intros s h Hr Hi. exact (Hnever _ s 0 h Hnone Hr eq_refl Hi).
Defined.
