(* ===== verification/PatchParse.v ===== *)
(** * Lines of a text: what the patch command uses of [str]

    [lines] and [split_inclusive], one-sided trimming, and the lemmas that
    relate the lines of a text to the text. *)

From stdpp Require Import base list strings gmap sorting pretty.
From Stdlib Require Import ZArith Lia Ascii.
From S2P Require Import Prelude RustStd Externals RustText.
Local Open Scope nat_scope.

Definition lf : ascii := ascii_of_nat 10.
Definition cr : ascii := ascii_of_nat 13.
Definition newline_text : string := String lf EmptyString.
Definition crlf_text : string := String cr newline_text.

(** [str::split_inclusive('\n')]. *)
Fixpoint split_inclusive (s : string) : list string :=
  match s with
  | EmptyString => []
  | String a s' =>
      if Ascii.eqb a lf then String a EmptyString :: split_inclusive s'
      else match split_inclusive s' with
           | piece :: rest => String a piece :: rest
           | [] => [String a EmptyString]
           end
  end.

(** The line of a piece: without [\r\n] or [\n] at its end. *)
Definition line_of (piece : string) : string :=
  match strip_suffix crlf_text piece with
  | Some line => line
  | None => default piece (strip_suffix newline_text piece)
  end.
(** [str::lines]. *)
Definition str_lines (s : string) : list string := line_of <$> split_inclusive s.

(** [str::trim_start], [str::trim_end]. *)
Definition trim_start (s : string) : string :=
  String.string_of_list_ascii (trim_start_bytes (String.list_ascii_of_string s)).
Definition trim_end (s : string) : string :=
  String.string_of_list_ascii (trim_end_bytes (String.list_ascii_of_string s)).

Lemma split_inclusive_concat s : String.concat "" (split_inclusive s) = s.
Proof.
  assert (Hcons : ∀ x l, String.concat "" (x :: l) = x +:+ String.concat "" l).
  { intros x [|y l]; [symmetry; apply append_empty|done]. }
  induction s as [|a s IH]; [done|]. cbn [split_inclusive].
  destruct (Ascii.eqb a lf); [by rewrite Hcons, IH|].
  destruct (split_inclusive s) as [|piece rest].
  - simpl in IH. by rewrite <- IH.
  - rewrite Hcons in *. by rewrite <- IH.
Qed.

(** A text of whole lines: each without a line feed, and a line feed after. *)
Definition whole_lines (lines : list string) : string :=
  String.concat "" ((λ l, l +:+ newline_text) <$> lines).
Lemma whole_lines_cons l lines : whole_lines (l :: lines) = l +:+ newline_text +:+ whole_lines lines.
Proof.
  unfold whole_lines. simpl. destruct lines as [|m lines]; simpl.
  - by rewrite append_empty.
  - by rewrite append_assoc.
Qed.
Lemma split_inclusive_line l s :
  has_char lf l = false → split_inclusive (l +:+ newline_text +:+ s) = (l +:+ newline_text) :: split_inclusive s.
Proof.
  induction l as [|a l IH]; intros Hl.
  - change ("" +:+ newline_text +:+ s) with (String lf s). cbn [split_inclusive].
    by rewrite Ascii.eqb_refl.
  - simpl in Hl. apply orb_false_iff in Hl as [Ha Hl].
    change (String a l +:+ newline_text +:+ s) with (String a (l +:+ newline_text +:+ s)).
    cbn [split_inclusive]. by rewrite Ha, IH.
Qed.
Lemma split_inclusive_last l :
  has_char lf l = false → l ≠ "" → split_inclusive l = [l].
Proof.
  induction l as [|a l IH]; intros Hl Hne; [done|]. simpl in Hl.
  apply orb_false_iff in Hl as [Ha Hl]. cbn [split_inclusive]. rewrite Ha.
  destruct l as [|b l]; [done|]. by rewrite IH.
Qed.
(** A line that reads back: no line feed, no carriage return at its end. *)
Definition clean_line (l : string) : bool := negb (has_char lf l) && negb (ends_with (String cr "") l).

Lemma strip_suffix_None suffix s : strip_suffix suffix s = None ↔ ends_with suffix s = false.
Proof. unfold ends_with. by destruct (strip_suffix suffix s). Qed.
Lemma append_inj_r s t u : s +:+ u = t +:+ u → s = t.
Proof.
  revert t. induction s as [|a s IH]; intros t Heq.
  - destruct t as [|b t]; [done|]. apply (f_equal String.length) in Heq.
    rewrite !length_append in Heq. simpl in Heq. lia.
  - destruct t as [|b t].
    + apply (f_equal String.length) in Heq. rewrite !length_append in Heq. simpl in Heq. lia.
    + change (String a s +:+ u) with (String a (s +:+ u)) in Heq.
      change (String b t +:+ u) with (String b (t +:+ u)) in Heq.
      injection Heq as -> Heq. f_equal. by apply IH.
Qed.
Lemma line_of_clean l : clean_line l = true → line_of (l +:+ newline_text) = l.
Proof.
  unfold clean_line. intros Hl. guards. unfold line_of.
  assert (strip_suffix crlf_text (l +:+ newline_text) = None) as ->.
  { apply strip_suffix_None. destruct (ends_with crlf_text _) eqn:Hend; [|done].
    apply ends_with_spec in Hend as [r Hr].
    change crlf_text with (String cr "" +:+ newline_text) in Hr. rewrite <- append_assoc in Hr.
    apply append_inj_r in Hr. assert (ends_with (String cr "") l = true); [|congruence].
    apply ends_with_spec. by exists r. }
  by rewrite strip_suffix_append.
Qed.
Lemma str_lines_whole lines :
  Forall (λ l, clean_line l = true) lines → str_lines (whole_lines lines) = lines.
Proof.
  unfold str_lines. induction 1 as [|l lines Hl Hlines IH]; [done|].
  rewrite whole_lines_cons, split_inclusive_line.
  - rewrite fmap_cons. by rewrite line_of_clean, IH.
  - unfold clean_line in Hl. by guards.
Qed.

(** ** What trimming removes *)

(** Only bytes of white space are stripped. *)
Lemma strip_removed (w1 : ascii → bool) w2 w3 (P : ascii → Prop) :
  (∀ a, w1 a = true → P a) → (∀ a b, w2 a b = true → P a ∧ P b) →
  (∀ a b c, w3 a b c = true → P a ∧ P b ∧ P c) →
  ∀ s, ∃ u, s = u ++ strip w1 w2 w3 s ∧ Forall P u.
Proof.
  intros H1 H2 H3 s. remember (length s) as n eqn:Hn. revert s Hn.
  induction (lt_wf n) as [n _ IH]. intros s ->.
  assert (Hrec : ∀ removed rest, s = removed ++ rest → removed ≠ [] → Forall P removed →
    ∃ u, s = u ++ strip w1 w2 w3 rest ∧ Forall P u).
  { intros removed rest -> Hne Hr. destruct (IH (length rest)) with (s := rest) as (u & Hu & HP); [|done|].
    - rewrite length_app. destruct removed; [done|simpl; lia].
    - exists (removed ++ u). rewrite <- app_assoc, <- Hu. split; [done|by apply Forall_app]. }
  assert (Hkeep : ∃ u, s = u ++ s ∧ Forall P u) by by exists [].
  destruct s as [|a s1]; [done|]. cbn [strip]. destruct (w1 a) eqn:E1.
  { apply (Hrec [a]); [done|done|]. apply Forall_singleton. auto. }
  destruct s1 as [|b s2]; [done|]. destruct (w2 a b) eqn:E2.
  { apply (Hrec [a; b]); [done|done|]. destruct (H2 _ _ E2). by repeat constructor. }
  destruct s2 as [|c s3]; [done|]. destruct (w3 a b c) eqn:E3; [|done].
  apply (Hrec [a; b; c]); [done|done|]. destruct (H3 _ _ _ E3) as (? & ? & ?). by repeat constructor.
Qed.

Notation text := String.string_of_list_ascii (only parsing).
Notation bytes := String.list_ascii_of_string (only parsing).
Notation white := (λ a, ws_byte a = true) (only parsing).
Lemma text_app x y : text (x ++ y) = text x +:+ text y.
Proof. induction x as [|a x IH]; [done|]. exact (f_equal (String a) IH). Qed.
Lemma bytes_app s t : bytes (s +:+ t) = bytes s ++ bytes t.
Proof. induction s as [|a s IH]; [done|]. exact (f_equal (cons a) IH). Qed.
Lemma text_bytes s : text (bytes s) = s.
Proof. apply String.string_of_list_ascii_of_string. Qed.
Lemma bytes_text l : bytes (text l) = l.
Proof. apply String.list_ascii_of_string_of_list_ascii. Qed.

Lemma trim_start_removed l : ∃ u, l = u ++ trim_start_bytes l ∧ Forall white u.
Proof.
  apply strip_removed; [|apply ws2_byte|apply ws3_byte]. intros a Ha. unfold ws_byte. by rewrite Ha.
Qed.
Lemma trim_end_removed l : ∃ v, l = trim_end_bytes l ++ v ∧ Forall white v.
Proof.
  destruct (strip_removed ws1 (λ a b, ws2 b a) (λ a b c, ws3 c b a) white) with (s := rev l) as (u & Hu & Hw).
  - intros a Ha. unfold ws_byte. by rewrite Ha.
  - intros a b Hab%ws2_byte. naive_solver.
  - intros a b c Habc%ws3_byte. naive_solver.
  - exists (rev u). unfold trim_end_bytes. split; [|by apply Forall_rev].
    by rewrite <- rev_app_distr, <- Hu, rev_involutive.
Qed.
(** A byte that is no part of white space survives, with what is around it. *)
Lemma trim_around U c V :
  ws_byte c = false → ∃ u U' V', U = u +:+ U' ∧ trim (U +:+ String c V) = U' +:+ String c V'.
Proof.
  intros Hc. unfold trim, trim_bytes. rewrite bytes_app.
  change (bytes (String c V)) with (c :: bytes V). set (l := bytes U ++ c :: bytes V).
  destruct (trim_start_removed l) as (u & Hl & Hu). destruct (trim_end_removed (trim_start_bytes l)) as (v & Hm & Hv).
  set (m := trim_end_bytes (trim_start_bytes l)) in *. rewrite Hm in Hl. clear Hm.
  assert (Hnot : ∀ k, Forall white k → c ∉ k).
  { intros k Hk Hin. rewrite Forall_forall in Hk. specialize (Hk _ Hin). congruence. }
  destruct (app_eq_inv (bytes U) (c :: bytes V) u (m ++ v)) as [(k & HU & Hrest)|(k & Hk & Hrest)]; [done| |].
  - destruct (app_eq_inv k (c :: bytes V) m v) as [(k' & Hk' & Hrest')|(k' & Hk' & Hrest')]; [done| |].
    + exfalso. apply (Hnot v Hv). rewrite Hrest'. set_solver.
    + destruct k' as [|c' k'].
      * exfalso. apply (Hnot v Hv). simpl in Hrest'. rewrite <- Hrest'. by left.
      * injection Hrest' as <- HV. exists (text u), (text k), (text k').
        split; [by rewrite <- text_app, <- HU, text_bytes|]. rewrite Hk', text_app. done.
  - destruct k as [|c' k].
    + exists U, EmptyString, (text (tail m)). split; [by rewrite append_empty|].
      simpl in Hrest. destruct m as [|c' m].
      * exfalso. apply (Hnot v Hv). simpl in Hrest. rewrite <- Hrest. by left.
      * by injection Hrest as <- _.
    + exfalso. injection Hrest as <- _. apply (Hnot u Hu). rewrite Hk. set_solver.
Qed.
Lemma trim_visible_head c V : ws_byte c = false → ∃ V', trim (String c V) = String c V'.
Proof.
  intros Hc. destruct (trim_around "" c V Hc) as (u & U' & V' & HU & Ht). exists V'.
  assert (U' = "") as -> by (by destruct u, U'). exact Ht.
Qed.
Lemma trim_start_head s c r :
  trim_start s = String c r → ws_byte c = false → ∃ V', trim s = String c V'.
Proof.
  intros Hs Hc. destruct (trim_visible_head c r Hc) as [V' HV]. exists V'. rewrite <- HV, <- Hs.
  unfold trim, trim_bytes, trim_start. rewrite bytes_text. unfold trim_start_bytes.
  by rewrite strip_idemp.
Qed.

(** Pieces of a text that follows complete lines. *)
Lemma split_inclusive_app s t :
  s = ""%string ∨ ends_with newline_text s = true →
  split_inclusive (s +:+ t) = split_inclusive s ++ split_inclusive t.
Proof.
  induction s as [|a s IH]; intros Hs; [done|]. destruct Hs as [?|Hs]; [done|].
  change (String a s +:+ t) with (String a (s +:+ t)). cbn [split_inclusive].
  assert (Hs' : s = ""%string ∧ a = lf ∨ ends_with newline_text s = true).
  { apply ends_with_spec in Hs as [[|b r] Hr].
    - left. by injection Hr as -> ->.
    - right. injection Hr as -> ->. apply ends_with_spec. by exists r. }
  destruct Hs' as [[-> ->]|Hs']; [by rewrite Ascii.eqb_refl|].
  rewrite IH by by right. destruct (Ascii.eqb a lf); [done|].
  destruct (split_inclusive s) as [|piece rest] eqn:Hpieces; [|done].
  exfalso. pose proof (split_inclusive_concat s) as Hc. rewrite Hpieces in Hc. simpl in Hc. by subst s.
Qed.

Example lines_examples :
  str_lines ("a" +:+ crlf_text +:+ newline_text +:+ "b" +:+ String cr "") = ["a"; ""; "b" +:+ String cr ""]
  ∧ str_lines newline_text = [""] ∧ str_lines "" = []
  ∧ trim_start " a " = "a " ∧ trim_end " a " = " a".
Proof. vm_compute. by split_and!. Qed.

(** ** The patch format: [tools/src/commands/apply_patch/mod.rs], first half

    Finding a patch in what a model sent, and parsing it into file changes. *)

Record PatchChange := {
  pc_kind : string;
  pc_path : string;
  pc_move_path : option string;
  pc_hunks : list (list string);
  pc_lines : list string;
}.
#[export] Instance eta_PatchChange : Eta PatchChange :=
  MkEta (λ c, Build_PatchChange (pc_kind c) (pc_path c) (pc_move_path c) (pc_hunks c) (pc_lines c)).
#[export] Instance PatchChange_eq_dec : EqDecision PatchChange.
Proof. solve_decision. Defined.

(** ** Finding the patch *)

Definition BEGIN_PATCH : string := "*** Begin Patch".
Definition END_PATCH : string := "*** End Patch".

(** The byte range of the first line that is the marker; [start] is where the
    pieces begin. *)
Fixpoint marker_in (pieces : list string) (marker : string) (start : nat) : option (nat * nat) :=
  match pieces with
  | [] => None
  | physical :: rest =>
      let line := line_of physical in
      if bool_decide (line = marker) then Some (start, start + String.length line)
      else marker_in rest marker (start + String.length physical)
  end.
Definition patch_marker_range (text marker : string) : option (nat * nat) :=
  marker_in (split_inclusive text) marker 0.

Definition double_quote : ascii := ascii_of_nat 34.
Definition command_prefixes : list string :=
  ["apply_patch <<'PATCH'";
   "apply_patch <<" +:+ String double_quote ("PATCH" +:+ String double_quote EmptyString);
   "apply_patch"].
Fixpoint strip_first_prefix (prefixes : list string) (text : string) : string :=
  match prefixes with
  | [] => text
  | prefix :: rest =>
      match strip_prefix prefix text with
      | Some rest => trim_start_set [cr; lf; ascii_of_nat 32; ascii_of_nat 9] rest
      | None => strip_first_prefix rest text
      end
  end.
Definition strip_apply_patch_command_line (text : string) : string :=
  strip_first_prefix command_prefixes text.

Definition starts_with_patch_hunk (text : string) : bool :=
  let body := trim_start text in
  starts_with "*** Add File: " body || starts_with "*** Delete File: " body
  || starts_with "*** Update File: " body.

Definition normalize_apply_patch_body_without_begin (text : string) : option string :=
  let body := strip_apply_patch_command_line (trim_start text) in
  if negb (starts_with_patch_hunk body) then None else
  let body := match patch_marker_range body END_PATCH with
              | Some (_, stop) => text_take stop body
              | None => let separator := if ends_with newline_text body then ""%string else newline_text in
                        body +:+ separator +:+ END_PATCH
              end in
  Some (BEGIN_PATCH +:+ newline_text +:+ body).

Definition extract_apply_patch_body (text : string) : option string :=
  match patch_marker_range text BEGIN_PATCH with
  | Some (start, _) =>
      let patch := text_drop start text in
      '(_, stop) ← patch_marker_range patch END_PATCH;
      Some (text_take stop patch)
  | None => normalize_apply_patch_body_without_begin text
  end.

Section Values.
Context `{SerdeJson}.

(** [find_map] over what was found below the entries of an object. *)
Definition found_at (key : string) (found : list (string * option string)) : option string :=
  entry ← find (λ e, bool_decide (e.1 = key)) found; entry.2.
Definition first_some {A} (l : list (option A)) : option A := head (omap id l).
Fixpoint extract_apply_patch_body_from_value (value : Value) : option string :=
  match value with
  | VString text => extract_apply_patch_body text
  | VObject fields =>
      let found := (λ f, (f.1, extract_apply_patch_body_from_value f.2)) <$> fields in
      match first_some ((λ key, found_at key found) <$>
                          ["patch"; "command"; "command_line"; "input"; "payload"; "content"]) with
      | Some body => Some body
      | None => first_some found.*2
      end
  | VArray items => first_some (extract_apply_patch_body_from_value <$> items)
  | _ => None
  end.

Definition extract_apply_patch_body_from_json_wrapper (text : string) : option string :=
  value ← from_str (trim text); extract_apply_patch_body_from_value value.

Definition normalize_apply_patch_text (text : string) : string :=
  match extract_apply_patch_body_from_json_wrapper text with
  | Some body => body
  | None =>
      match extract_apply_patch_body text with
      | Some body => body
      | None => default text (normalize_apply_patch_body_without_begin text)
      end
  end.

Inductive ToolPayload := Freeform (input : string) | Function (arguments : Value).

Definition patch_text_from_payload (payload : ToolPayload) : string :=
  let raw :=
    match payload with
    | Freeform input => input
    | Function arguments =>
        match extract_apply_patch_body_from_value arguments with
        | Some patch => patch
        | None =>
            match first_some (value_get arguments <$>
                                ["patch"; "command"; "command_line"; "input"; "payload"]) ≫= as_str with
            | Some text => text
            | None => default ""%string (as_str arguments)
            end
        end
    end in
  normalize_apply_patch_text raw.

(** [build_tool_call] in [command_run/handler.rs], which has its own copy of
    [extract_apply_patch_body]. *)
Definition patch_payload (command_line : string) : ToolPayload :=
  Freeform (default command_line (extract_apply_patch_body command_line)).
End Values.

(** ** Parsing *)

Record ParseState := {
  ps_changes : list PatchChange;
  ps_current : option PatchChange;
  ps_hunk : option (list string);
  ps_started : bool;
  ps_ended : bool;
}.
#[export] Instance eta_ParseState : Eta ParseState :=
  MkEta (λ s, Build_ParseState (ps_changes s) (ps_current s) (ps_hunk s) (ps_started s) (ps_ended s)).
Definition parse_start : ParseState :=
  {| ps_changes := []; ps_current := None; ps_hunk := None; ps_started := false; ps_ended := false |}.

Definition push_hunk (change : PatchChange) (hunk : list string) : PatchChange :=
  change.{pc_hunks := pc_hunks change ++ [hunk] }.
(** The open hunk goes to the current change, and the current change to the
    list. *)
Definition finish_change (s : ParseState) : ParseState :=
  let current := match ps_hunk s, ps_current s with
                 | Some hunk, Some change => Some (push_hunk change hunk)
                 | _, current => current
                 end in
  {| ps_changes := ps_changes s ++ match current with Some change => [change] | None => [] end;
     ps_current := None; ps_hunk := None;
     ps_started := ps_started s; ps_ended := ps_ended s |}.
Definition open_change (s : ParseState) (kind path : string) : ParseState :=
  (finish_change s).{ps_current := Some {| pc_kind := kind; pc_path := path; pc_move_path := None;
                                           pc_hunks := []; pc_lines := [] |} }.

Definition at_line (before : string) (line_number : nat) (after : string) : string :=
  before +:+ pretty line_number +:+ after.
(** [matches!(line.as_bytes().first(), Some(b' ' | b'+' | b'-'))]. *)
Definition is_hunk_line (line : string) : bool :=
  starts_with " " line || starts_with "+" line || starts_with "-" line.

(** A line that is no marker. *)
Definition parse_content (line_number : nat) (line : string) (s : ParseState)
    : outcome string ParseState :=
  match ps_current s with
  | Some change =>
      if bool_decide (pc_kind change = "add") && starts_with "+" line then
        Ok (s.{ps_current := Some (change.{pc_lines := pc_lines change ++ [text_drop 1 line] })})
      else match ps_hunk s with
      | Some hunk =>
          if is_hunk_line line then Ok (s.{ps_hunk := Some (hunk ++ [line])})
          else if is_blank line then Ok (s.{ps_hunk := Some (hunk ++ [" " +:+ line])})
          else Err (at_line "invalid patch line " line_number ": hunk lines must start with space, +, or -")
      | None =>
          if is_blank line then Ok s
          else Err (at_line "invalid patch line " line_number ": content must be inside a hunk")
      end
  | None =>
      if is_blank line then Ok s
      else Err (at_line "invalid patch line " line_number ": expected file operation")
  end.

Definition parse_move (path : string) (s : ParseState) : outcome string ParseState :=
  match ps_current s with
  | None => Err "move target without file"%string
  | Some change =>
      if negb (bool_decide (pc_kind change = "update"))
      then Err "move target is only valid for update file changes"%string
      else Ok (s.{ps_current := Some (change.{pc_move_path := Some path})})
  end.
Definition parse_hunk_start (s : ParseState) : outcome string ParseState :=
  match ps_current s with
  | None => Err "hunk without file"%string
  | Some change =>
      if negb (bool_decide (pc_kind change = "update"))
      then Err "hunk is only valid for update file changes"%string
      else let current := match ps_hunk s with
                          | Some hunk => push_hunk change hunk
                          | None => change
                          end in
           Ok (s.{ps_current := Some current}.{ps_hunk := Some [] })
  end.

(** One round of the loop. *)
Definition parse_line (line_number : nat) (line : string) (s : ParseState) : outcome string ParseState :=
  if negb (ps_started s) then
    if is_blank line then Ok s
    else if bool_decide (line = BEGIN_PATCH) then Ok (s.{ps_started := true})
    else Err (at_line "invalid patch: expected *** Begin Patch at line " line_number "")
  else
    match strip_prefix "*** Update File: " line with
    | Some path => Ok (open_change s "update" path)
    | None =>
    match strip_prefix "*** Add File: " line with
    | Some path => Ok (open_change s "add" path)
    | None =>
    match strip_prefix "*** Delete File: " line with
    | Some path => Ok (open_change s "delete" path)
    | None =>
    match strip_prefix "*** Move to: " line with
    | Some path => parse_move path s
    | None =>
        if starts_with "@@" line then parse_hunk_start s
        else if bool_decide (line = END_PATCH) then Ok ((finish_change s).{ps_ended := true})
        else if bool_decide (line = "*** End of File") then Ok s
        else parse_content line_number line s
    end end end end.

Fixpoint parse_lines (line_number : nat) (lines : list string) (s : ParseState)
    : outcome string ParseState :=
  match lines with
  | [] => Ok s
  | line :: rest =>
      s ← parse_line line_number line s;
      if ps_ended s then Ok s else parse_lines (S line_number) rest s
  end.

Definition validate_change (change : PatchChange) : outcome string unit :=
  let has_move := match pc_move_path change with Some _ => true | None => false end in
  let has_hunks := negb (bool_decide (pc_hunks change = [])) in
  _ ← reject_if (is_blank (pc_path change)) "invalid patch: file path must not be empty"%string;
  if bool_decide (pc_kind change = "add") then
    _ ← reject_if has_move "invalid patch: add file cannot have move target"%string;
    reject_if has_hunks "invalid patch: add file cannot contain hunks"%string
  else if bool_decide (pc_kind change = "delete") then
    _ ← reject_if has_move "invalid patch: delete file cannot have move target"%string;
    reject_if (has_hunks || negb (bool_decide (pc_lines change = [])))
      "invalid patch: delete file cannot contain content"%string
  else if bool_decide (pc_kind change = "update") then
    reject_if (existsb (λ hunk, bool_decide (hunk = [])) (pc_hunks change))
      ("invalid patch: update file " +:+ pc_path change +:+ " contains an empty hunk")
  else Err ("unsupported patch change kind: " +:+ pc_kind change).
Fixpoint validate_changes (changes : list PatchChange) : outcome string unit :=
  match changes with
  | [] => Ok tt
  | change :: rest => _ ← validate_change change; validate_changes rest
  end.

Definition parse_patch (patch_text : string) : outcome string (list PatchChange) :=
  s ← parse_lines 1 (str_lines patch_text) parse_start;
  if negb (ps_started s) then
    Err (if is_blank patch_text
         then "invalid patch: command_line is empty; put the complete patch text, from *** Begin Patch to *** End Patch, in command_line"%string
         else "invalid patch: missing *** Begin Patch"%string)
  else
  _ ← reject_if (negb (ps_ended s)) "invalid patch: missing *** End Patch"%string;
  _ ← reject_if (bool_decide (ps_changes s = [])) "no file changes found in patch"%string;
  _ ← validate_changes (ps_changes s);
  Ok (ps_changes s).

Definition jspace_changes `{SerdeJson} (patch_text : string)
    : outcome string (list (string * string * option string)) :=
  changes ← parse_patch (normalize_apply_patch_text patch_text);
  Ok ((λ change, (pc_kind change, pc_path change, pc_move_path change)) <$> (changes : list PatchChange)).

(** The unit tests of the source, and the shapes of the grammar. *)
Definition text_lines (lines : list string) : string := join newline_text lines.
Example parse_examples :
  parse_patch (text_lines [BEGIN_PATCH; "*** Update File: a"; "*** Move to: b"; "@@ here"; " x"; "-y"; ""; "+z";
                           "*** End of File"; "*** Add File: c"; "+1"; "+"; "*** Delete File: d"; END_PATCH])%string
  = Ok [{| pc_kind := "update"; pc_path := "a"; pc_move_path := Some "b"%string;
           pc_hunks := [[" x"; "-y"; " "; "+z"]]; pc_lines := [] |};
        {| pc_kind := "add"; pc_path := "c"; pc_move_path := None; pc_hunks := []; pc_lines := ["1"; ""] |};
        {| pc_kind := "delete"; pc_path := "d"; pc_move_path := None; pc_hunks := []; pc_lines := [] |}]%string
  ∧ parse_patch (text_lines ["*** Add File: app.txt"; "+ok"; END_PATCH])
    = Err "invalid patch: expected *** Begin Patch at line 1"%string
  ∧ parse_patch (text_lines [BEGIN_PATCH; "*** Add File: app.txt"; "+ok"])
    = Err "invalid patch: missing *** End Patch"%string
  ∧ parse_patch (text_lines [BEGIN_PATCH; "*** Update File: app.txt"; "-old"; "+new"; END_PATCH])
    = Err "invalid patch line 3: content must be inside a hunk"%string
  ∧ parse_patch (text_lines [BEGIN_PATCH; "*** Update File: a"; "@@"; "@@"; "+x"; END_PATCH])
    = Err "invalid patch: update file a contains an empty hunk"%string
  ∧ parse_patch (text_lines [BEGIN_PATCH; "*** Add File: x"; "+x"; "*** End Patch suffix"])%string
    = Err "invalid patch line 4: content must be inside a hunk"%string
  ∧ extract_apply_patch_body (text_lines ["apply_patch"; "*** Add File: app.txt"; "+ok"; END_PATCH; "PATCH"])
    = Some (text_lines [BEGIN_PATCH; "*** Add File: app.txt"; "+ok"; END_PATCH])
  ∧ extract_apply_patch_body (text_lines ["*** Add File: app.txt"; "+ok"])
    = Some (text_lines [BEGIN_PATCH; "*** Add File: app.txt"; "+ok"; END_PATCH])
  ∧ extract_apply_patch_body (text_lines ["I will apply this:"; BEGIN_PATCH; "*** Add File: a"; "+*** End Patch";
                                          END_PATCH; "Done."])
    = Some (text_lines [BEGIN_PATCH; "*** Add File: a"; "+*** End Patch"; END_PATCH])
  ∧ extract_apply_patch_body (text_lines [BEGIN_PATCH; "*** Add File: a"; "*** End Patch "])%string = None.
Proof. vm_compute. by split_and!. Qed.
