(* ===== verification/PatchApply.v ===== *)
(** * Applying hunks to a text: [apply_patch/mod.rs], second half, with
    [failure_context.rs] and [postimage.rs] *)

From stdpp Require Import base list strings gmap sorting pretty.
From Stdlib Require Import ZArith Lia Ascii.
From S2P Require Import Prelude RustStd RustText Externals TaskData TaskIdentity JSpaceJson PatchParse.
Local Open Scope nat_scope.

(** ** Where a hunk fits *)

Inductive MatchMode := Exact | TrimEnd | Trim | Normalized.

Definition one_code_point (c : string) (codes : list Z) : bool := bool_decide (code_point c ∈ codes).
Definition normalize_char (c : string) : string :=
  if one_code_point c [160; 8199; 8239]%Z then " "
  else if one_code_point c [8208; 8209; 8210; 8211; 8212; 8722]%Z then "-"
  else if one_code_point c [8216; 8217; 8218; 8219]%Z then "'"
  else if one_code_point c [8220; 8221; 8222; 8223]%Z then String double_quote EmptyString
  else c.
Definition normalize_match_text (text : string) : string :=
  String.concat "" (normalize_char <$> chars (trim text)).

Definition line_matches (mode : MatchMode) (left right : string) : bool :=
  match mode with
  | Exact => bool_decide (left = right)
  | TrimEnd => bool_decide (trim_end left = trim_end right)
  | Trim => bool_decide (trim left = trim right)
  | Normalized => bool_decide (normalize_match_text left = normalize_match_text right)
  end.
(** [candidate.iter().zip(pattern).all(...)]. *)
Definition sequence_matches (candidate pattern : list string) (mode : MatchMode) : bool :=
  forallb (λ pair, line_matches mode pair.1 pair.2) (zip candidate pattern).
Definition fits_at (lines pattern : list string) (index : nat) : bool :=
  let candidate := take (length pattern) (drop index lines) in
  sequence_matches candidate pattern Exact || sequence_matches candidate pattern TrimEnd
  || sequence_matches candidate pattern Trim || sequence_matches candidate pattern Normalized.

(** [for index in start..=max_start], with [count] indices to go. *)
Fixpoint seek_from (lines pattern : list string) (index count : nat) : option nat :=
  match count with
  | O => None
  | S count => if fits_at lines pattern index then Some index else seek_from lines pattern (S index) count
  end.
Definition seek_sequence (lines pattern : list string) (start : nat) : option nat :=
  if bool_decide (pattern = []) then Some (start `min` length lines)
  else if (length lines <? length pattern) || (length lines - length pattern <? start) then None
  else seek_from lines pattern start (S (length lines - length pattern) - start).

(** ** The lines of a hunk *)

Definition old_lines (hunk : list string) : list string :=
  text_drop 1 <$> filter (λ line, starts_with " " line || starts_with "-" line = true) hunk.
Definition new_lines (hunk : list string) : list string :=
  text_drop 1 <$> filter (λ line, starts_with " " line || starts_with "+" line = true) hunk.

Fixpoint replacement_from (hunk actual_old_lines : list string) (actual_index : nat) : list string :=
  match hunk with
  | [] => []
  | line :: rest =>
      match strip_prefix " " line with
      | Some text => default text (actual_old_lines !! actual_index)
                     :: replacement_from rest actual_old_lines (S actual_index)
      | None =>
      match strip_prefix "-" line with
      | Some _ => replacement_from rest actual_old_lines (S actual_index)
      | None =>
      match strip_prefix "+" line with
      | Some text => text :: replacement_from rest actual_old_lines actual_index
      | None => replacement_from rest actual_old_lines actual_index
      end end end
  end.
Definition replacement_lines_for_hunk (hunk actual_old_lines : list string) : list string :=
  replacement_from hunk actual_old_lines 0.

Notation Replacement := (nat * nat * list string)%type.

(** [lines.splice(start..end, new)]; a range out of bounds panics. *)
Definition splice (lines : list string) (r : Replacement) : outcome string (list string) :=
  let '(start, stop, new) := r in
  if (start <=? stop) && (stop <=? length lines) then Ok (take start lines ++ new ++ drop stop lines)
  else Panic.
(** [for ... in replacements.iter().rev()]. *)
Fixpoint splice_all (replacements : list Replacement) (lines : list string) : outcome string (list string) :=
  match replacements with
  | [] => Ok lines
  | r :: rest => lines ← splice_all rest lines; splice lines r
  end.

Definition dominant_line_ending (text : string) : string :=
  if contains_text crlf_text text then crlf_text else newline_text.
Definition join_lines (lines : list string) (line_ending : string) (final_newline : bool) : string :=
  let text := join line_ending lines in
  if final_newline && negb (is_empty text) then text +:+ line_ending else text.

(** ** [failure_context::excerpt] *)

Fixpoint common_prefix (a b : list string) : nat :=
  match a, b with
  | x :: a, y :: b => if bool_decide (x = y) then S (common_prefix a b) else 0
  | _, _ => 0
  end.
Fixpoint best_line (lines : list string) (expected : list string) (i best : nat) (index : option nat)
    : nat * option nat :=
  match lines with
  | [] => (best, index)
  | line :: rest =>
      let common := 120 `min` common_prefix (chars (trim line)) expected in
      if best <? common then best_line rest expected (S i) common (Some i)
      else if common =? best then best_line rest expected (S i) best None
      else best_line rest expected (S i) best index
  end.
Definition excerpt (original expected : string) : option (nat * string) :=
  let expected := chars (trim expected) in
  if length expected <? 16 then None else
  let lines := split_inclusive original in
  let '(best, index) := best_line lines expected 0 0 None in
  if best <? 16 then None else
  index ← index;
  let start := index - 3 in
  let stop := (index + 4) `min` length lines in
  let text := String.concat "" (take (stop - start) (drop start lines)) in
  if (4096 <? len text)%Z then None else Some (start + 1, text).

(** ** [postimage]: what changed, as evidence *)

Definition MAX_BYTES : Z := 32768.
Definition MAX_LINES : nat := 600.
Definition MAX_FILE_BYTES : Z := 1024 * 1024.

Definition checked_add (a b : nat) : option nat :=
  if (Z.of_nat (a + b) <=? u64_max)%Z then Some (a + b) else None.
Definition checked_sub (a b : nat) : option nat := if b <=? a then Some (a - b) else None.
Definition range_of (pieces : list string) (start stop : nat) : string :=
  String.concat "" (take (stop - start) (drop start pieces)).

Record DeltaHunk := {
  dh_before_start : nat;
  dh_before_count : nat;
  dh_after_start : nat;
  dh_after_count : nat;
  dh_before_text : string;
  dh_after_text : string;
}.
(** The counters of the loop. *)
Record DeltaState := {
  ds_hunks : list DeltaHunk;
  ds_removed : nat;
  ds_added : nat;
  ds_previous_end : nat;
  ds_count : nat;
  ds_reconstructed : string;
}.
Definition delta_start : DeltaState :=
  {| ds_hunks := []; ds_removed := 0; ds_added := 0; ds_previous_end := 0; ds_count := 0;
     ds_reconstructed := "" |}.
Definition reject_option (condition : bool) : option unit := if condition then None else Some tt.

Definition delta_step (old new : list string) (s : DeltaState) (r : Replacement) : option DeltaState :=
  let '(start, stop, replacement) := r in
  _ ← reject_option ((stop <? start) || (length old <? stop) || (start <? ds_previous_end s));
  kept ← checked_sub start (ds_removed s);
  new_start ← checked_add kept (ds_added s);
  new_end ← checked_add new_start (length replacement);
  _ ← reject_option (length new <? new_end);
  let before_text := range_of old start stop in
  let after_text := range_of new new_start new_end in
  removed ← checked_add (ds_removed s) (stop - start);
  added ← checked_add (ds_added s) (length replacement);
  count ← checked_add (ds_count s) (stop - start);
  count ← checked_add count (new_end - new_start);
  _ ← reject_option (MAX_LINES <? count);
  Some {| ds_hunks := ds_hunks s ++
            [{| dh_before_start := start + 1; dh_before_count := stop - start;
                dh_after_start := new_start + 1; dh_after_count := new_end - new_start;
                dh_before_text := before_text; dh_after_text := after_text |}];
          ds_removed := removed; ds_added := added; ds_previous_end := stop; ds_count := count;
          ds_reconstructed := ds_reconstructed s +:+ range_of old (ds_previous_end s) start
                              +:+ after_text |}.
Fixpoint delta_steps (old new : list string) (s : DeltaState) (replacements : list Replacement)
    : option DeltaState :=
  match replacements with
  | [] => Some s
  | r :: rest => s ← delta_step old new s r; delta_steps old new s rest
  end.

(** The hunks and their number of lines, when they account for every change. *)
Definition applied_delta (before after : string) (replacements : list Replacement)
    : option (list DeltaHunk * nat) :=
  if (MAX_FILE_BYTES <? len before)%Z || (MAX_FILE_BYTES <? len after)%Z then None else
  let old := split_inclusive before in
  let new := split_inclusive after in
  s ← delta_steps old new delta_start replacements;
  let reconstructed := ds_reconstructed s +:+ range_of old (ds_previous_end s) (length old) in
  if bool_decide (ds_hunks s = []) || negb (bool_decide (reconstructed = after)) then None
  else Some (ds_hunks s, ds_count s).

Section Evidence.
Context `{SerdeJson, Sha2}.

Definition json_usize (n : nat) : Value := json_u64 (Z.of_nat n).
(** [serde_json::to_vec(value).len()]. *)
Definition json_len (value : Value) : Z := len (canonical value).

Definition delta_hunk_value (h : DeltaHunk) : Value :=
  json_object
    [("before_start_line", json_usize (dh_before_start h));
     ("before_line_count", json_usize (dh_before_count h));
     ("after_start_line", json_usize (dh_after_start h));
     ("after_line_count", json_usize (dh_after_count h));
     ("before_text", VString (dh_before_text h));
     ("after_text", VString (dh_after_text h))]%string.
Definition delta_value (hunks : list DeltaHunk) (count : nat) : Value :=
  json_object
    [("schema_version", VString "nokiy_applied_source_delta_v1");
     ("coverage", VString "all_text_changes");
     ("line_count", json_usize count);
     ("hunks", VArray (delta_hunk_value <$> hunks));
     ("notice", VString "Exact applied buffers bound by this change's preimage/postimage SHA and terminal receipt. Reuse only matching prior source plus these hunks; unseen surrounding context is not supplied. Not verifier facts, acceptance or current state after later edits.")]%string.
Definition from_applied_buffers (before after : string) (replacements : list Replacement) : option Value :=
  '(hunks, count) ← applied_delta before after replacements;
  let value := delta_value hunks count in
  if (json_len value <=? MAX_BYTES)%Z then Some value else None.

(** ** [apply_hunks_with_delta] *)

Definition context_not_found (original : string) (old : list string) (readback : bool) : string :=
  let message := "patch context not found: "
                 +:+ String.concat "" (take 120 (chars (join newline_text old))) in
  match (if readback then expected ← head old; excerpt original expected else None) with
  | Some (start_line, text) =>
      let evidence := json_object
        [("kind", VString "diagnostic_candidate_not_patch_match");
         ("preimage_sha256", VString (sha256_hex original));
         ("start_line", json_usize start_line); ("text", VString text)]%string in
      message +:+ newline_text +:+ "Read-only preimage context: " +:+ canonical evidence
  | None => message
  end.

Fixpoint place_hunks (original : string) (lines : list string) (readback : bool)
    (hunks : list (list string)) (search_start : nat) : outcome string (list Replacement) :=
  match hunks with
  | [] => Ok []
  | hunk :: rest =>
      let old := old_lines hunk in
      if bool_decide (old = []) then
        replacements ← place_hunks original lines readback rest (length lines);
        Ok ((length lines, length lines, new_lines hunk) :: replacements)
      else
        match seek_sequence lines old search_start with
        | Some start =>
            let stop := start + length old in
            let new := replacement_lines_for_hunk hunk (take (stop - start) (drop start lines)) in
            replacements ← place_hunks original lines readback rest stop;
            Ok ((start, stop, new) :: replacements)
        | None => Err (context_not_found original old readback)
        end
  end.

Definition apply_hunks_with_delta (original : string) (hunks : list (list string)) (readback : bool)
    : outcome string (string * option Value) :=
  let lines := str_lines original in
  let line_ending := dominant_line_ending original in
  let original_had_final_newline :=
    ends_with newline_text original || ends_with (String cr EmptyString) original in
  replacements ← place_hunks original lines readback hunks 0;
  lines ← splice_all replacements lines;
  let updated := join_lines lines line_ending original_had_final_newline in
  Ok (updated, if readback then from_applied_buffers original updated replacements else None).

(** [postimage::bound_batch]: the evidence of all changes is dropped when it is
    too large together. *)
Definition value_remove (key : string) (value : Value) : Value :=
  match value with
  | VObject fields => VObject (filter (λ f, f.1 ≠ key) fields)
  | _ => value
  end.
Context `{!JsonRead}.
Definition line_count_of (delta : Value) : Z :=
  match value_get delta "line_count" with
  | Some (VNumber n) => default u64_max (number_as_u64 n)
  | _ => u64_max
  end.
Definition delta_totals (changes : list Value) : Z * Z * nat :=
  foldl (λ '(bytes, lines, files) change,
           match value_get change "source_delta" with
           | Some delta => (u64_saturating_add bytes (json_len delta),
                            u64_saturating_add lines (line_count_of delta), S files)
           | None => (bytes, lines, files)
           end) (0%Z, 0%Z, 0) changes.
Definition bound_batch (changes : list Value) : list Value :=
  let '(bytes, lines, files) := delta_totals changes in
  if (MAX_BYTES <? bytes)%Z || (Z.of_nat MAX_LINES <? lines)%Z || (4 <? files)
  then value_remove "source_delta" <$> changes else changes.
End Evidence.
