(* ===== verification/PatchFiles.v ===== *)
(** * Patches and files: the operations of [apply_patch/mod.rs] on the disk

    The disk is a parameter: a state with the calls of [std::fs] that the
    command makes. *)

From stdpp Require Import base list strings gmap sorting pretty.
From Stdlib Require Import ZArith Lia Ascii.
From S2P Require Import Prelude RustStd RustText RustPath Externals TaskData TaskIdentity JSpaceJson FileLocks PatchParse PatchApply.
Local Open Scope nat_scope.

Record FileError := { fe_permission_denied : bool; fe_text : string }.

(** [canonicalize], [exists], [fs::read], [fs::read_to_string], [fs::write],
    [fs::remove_file] and [fs::create_dir_all].  A call that fails may have
    changed the disk. *)
Class Disk (W : Type) := {
  disk_canonicalize : W → string → FileError + string;
  disk_exists : W → string → bool;
  disk_read : W → string → FileError + string;
  disk_read_to_string : W → string → FileError + string;
  disk_write : string → string → W → option FileError * W;
  disk_remove_file : string → W → option FileError * W;
  disk_create_dir_all : string → W → option FileError * W;
}.

Section Files.
Context `{Disk W, SerdeJson, Sha2, !JsonRead}.

(** ** Paths *)

Definition patch_path (raw : string) : string := trim raw.
Definition safe_path (w : W) (root raw : string) : outcome string string :=
  match disk_canonicalize w root with
  | inl err => Err ("failed to resolve patch root " +:+ root +:+ ": " +:+ fe_text err)
  | inr root =>
      let raw_path := patch_path raw in
      let path := if is_absolute raw_path then raw_path else path_join root raw_path in
      Ok (match disk_canonicalize w path with inr path => path | inl _ => path end)
  end.

Definition comparable_path_string (path : string) : string :=
  let text := replace_char backslash slash path in
  let text := default text (strip_prefix "//?/" text) in
  trim_end_set [slash] text.

Definition patch_lock_key (w : W) (root raw : string) : option string :=
  match safe_path w root raw, disk_canonicalize w root with
  | Ok path, inr root =>
      match strip_path_prefix path root with
      | Some relative => Some (replace_char backslash slash relative)
      | None =>
          let path := comparable_path_string path in
          let root := comparable_path_string root in
          match strip_prefix (root +:+ "/") path with
          | Some suffix => Some suffix
          | None => Some ("absolute:" +:+ path)
          end
      end
  | _, _ => None
  end.
Definition change_keys (w : W) (session_dir : string) (change : PatchChange) : list string :=
  option_list (patch_lock_key w session_dir (pc_path change))
  ++ option_list (path ← pc_move_path change; patch_lock_key w session_dir path).
Definition patch_access (w : W) (patch_text session_dir : string) : Access :=
  match parse_patch patch_text with
  | Ok changes => Access_default.{ac_write_paths := changes ≫= change_keys w session_dir}
  | _ => Access_default.{ac_workspace_write := true}
  end.

(** [normalize_path_lexically]: the path with its dots taken away. *)
Definition push_component (normalized : string) (c : Component) : string :=
  match c with
  | CurDir => normalized
  | ParentDir => pop normalized
  | _ => path_join normalized (component_text c)
  end.
Definition normalize_path_lexically (path : string) : string :=
  foldl push_component EmptyString (components path).
Definition path_is_within_root (path root : string) : bool :=
  match strip_path_prefix path root with
  | Some _ => true
  | None =>
      let path := comparable_path_string path in
      let root := comparable_path_string root in
      bool_decide (path = root) || starts_with (root +:+ "/") path
  end.
Definition validate_patch_path_within_session_dir (w : W) (session_dir raw : string)
    : outcome string unit :=
  root ← match disk_canonicalize w session_dir with
         | inr root => Ok root
         | inl err => Err ("failed to resolve patch workspace " +:+ session_dir +:+ ": " +:+ fe_text err)
         end;
  path ← safe_path w session_dir raw;
  if path_is_within_root (normalize_path_lexically path) root then Ok tt
  else Err ("apply_patch path is outside workspace: " +:+ patch_path raw).
Fixpoint validate_each (w : W) (session_dir : string) (changes : list PatchChange) : outcome string unit :=
  match changes with
  | [] => Ok tt
  | change :: rest =>
      _ ← validate_patch_path_within_session_dir w session_dir (pc_path change);
      _ ← match pc_move_path change with
          | Some move_path => validate_patch_path_within_session_dir w session_dir move_path
          | None => Ok tt
          end;
      validate_each w session_dir rest
  end.
Definition validate_paths_within_session_dir (w : W) (patch_text session_dir : string)
    : outcome string unit :=
  changes ← parse_patch patch_text; validate_each w session_dir changes.

(** ** Errors *)

Record PatchError := { pe_kind : string; pe_message : string; pe_failed_change : option Value }.

Definition json_lists (hunks : list (list string)) : Value := VArray (json_strings <$> hunks).
Definition patch_change_value (change : PatchChange) : Value :=
  if bool_decide (pc_kind change = "add") then
    json_object [("kind", VString (pc_kind change)); ("path", VString (pc_path change));
                 ("lines", json_strings (pc_lines change))]%string
  else
    json_object [("kind", VString (pc_kind change)); ("path", VString (pc_path change));
                 ("move_path", json_opt_string (pc_move_path change));
                 ("hunks", json_lists (pc_hunks change))]%string.

Definition context_mismatch (change : PatchChange) (message : string) : PatchError :=
  {| pe_kind := "ContextMismatch"; pe_message := message;
     pe_failed_change := Some (patch_change_value change) |}.
Definition io_error (err : FileError) : PatchError :=
  {| pe_kind := if fe_permission_denied err then "PermissionDenied" else "IoError";
     pe_message := fe_text err; pe_failed_change := None |}.
Definition missing_file (kind : string) (change : PatchChange) : PatchError :=
  {| pe_kind := kind; pe_message := kind +:+ ": " +:+ pc_path change;
     pe_failed_change := Some (patch_change_value change) |}.
Definition file_exists (change : PatchChange) : PatchError :=
  {| pe_kind := "AddFileExists"; pe_message := "AddFileExists: " +:+ pc_path change;
     pe_failed_change := Some (patch_change_value change) |}.
Definition path_error (message : string) : PatchError :=
  {| pe_kind := "IoError"; pe_message := message; pe_failed_change := None |}.
Definition apply_patch_failure_guidance (kind : string) (partial : bool) : string :=
  if bool_decide (kind = "ContextMismatch") then
    if partial
    then "apply_patch failed because expected context was not found after earlier changes were applied. Use any attached preimage context to correct smaller hunks; read the exact missing range only if context is insufficient or the file may have changed. The excerpt is diagnostic, not a patch match or authority to replay the whole batch. Subsequent commands run against a partially changed tree."
    else "apply_patch failed because expected context was not found. Use any attached preimage context to correct a smaller hunk; read the exact missing range only if context is absent, insufficient, or the file may have changed. The excerpt is diagnostic, not a patch match or authority to replay the whole batch."
  else if partial
  then "apply_patch failed after earlier changes were applied; inspect changes before retrying."
  else "apply_patch failed; inspect error_type and message before retrying.".

(** ** One change

    [disk A]: a step of a change on the disk. *)
Definition disk (A : Type) : Type := W → outcome PatchError A * W.
#[global] Instance disk_ret : MRet disk := λ _ a w, (Ok a, w).
#[global] Instance disk_bind : MBind disk := λ _ _ k m w,
  let '(r, w) := m w in
  match r with
  | Ok a => k a w
  | Err e => (Err e, w)
  | Panic => (Panic, w)
  | OutOfFuel => (OutOfFuel, w)
  end.
Definition observe {A} (f : W → A) : disk A := λ w, (Ok (f w), w).
Definition settle {A} (m : outcome PatchError A) : disk A := λ w, (m, w).
Definition reading {A} (f : W → FileError + A) : disk A := λ w,
  (match f w with inr a => Ok a | inl err => Err (io_error err) end, w).
Definition writing (f : W → option FileError * W) : disk unit := λ w,
  let '(failed, w) := f w in
  (match failed with None => Ok tt | Some err => Err (io_error err) end, w).
Definition resolve (session_dir raw : string) : disk string := λ w,
  (map_err path_error (safe_path w session_dir raw), w).
Definition create_parent (path : string) : disk unit :=
  match parent path with
  | Some parent => writing (disk_create_dir_all parent)
  | None => mret tt
  end.

Definition added_text (change : PatchChange) : string :=
  let updated := join newline_text (pc_lines change) in
  if negb (is_empty updated) && negb (ends_with newline_text updated)
  then updated +:+ newline_text else updated.

Definition delete_change (change : PatchChange) (path : string) : disk (option string * option string) :=
  present ← observe (λ w, disk_exists w path);
  _ ← settle (reject_if (negb present) (missing_file "DeleteFileNotFound" change));
  original ← reading (λ w, disk_read w path);
  _ ← writing (disk_remove_file path);
  mret (Some (sha256_hex original), None).
Definition add_change (change : PatchChange) (path : string) : disk (option string * option string) :=
  present ← observe (λ w, disk_exists w path);
  _ ← settle (reject_if present (file_exists change));
  let updated := added_text change in
  _ ← create_parent path;
  _ ← writing (disk_write path updated);
  mret (None, Some (sha256_hex updated)).
Definition update_change (change : PatchChange) (session_dir path : string) (read_paths : list string)
    : disk (option string * option string * option Value) :=
  present ← observe (λ w, disk_exists w path);
  _ ← settle (reject_if (negb present) (missing_file "UpdateFileNotFound" change));
  original ← reading (λ w, disk_read_to_string w path);
  let readback := bool_decide (pc_move_path change = None) && existsb (path_eqb path) read_paths in
  applied ← settle (map_err (context_mismatch change)
                      (apply_hunks_with_delta original (pc_hunks change) readback));
  let '(updated, delta) := (applied : string * option Value) in
  destination ← match pc_move_path change with
                | Some move_path => resolve session_dir move_path
                | None => mret path
                end;
  _ ← create_parent destination;
  _ ← writing (disk_write destination updated);
  remains ← observe (λ w, negb (path_eqb destination path) && disk_exists w path);
  _ ← (if remains : bool then writing (disk_remove_file path) else mret tt);
  mret (Some (sha256_hex original), Some (sha256_hex updated), delta).

(** [value[key] = entry] of an object. *)
Definition value_set (key : string) (entry value : Value) : Value :=
  match value with
  | VObject fields => VObject (map_insert key entry fields)
  | _ => value
  end.
Definition apply_change (change : PatchChange) (session_dir : string) (read_paths : list string)
    : disk Value :=
  path ← resolve session_dir (pc_path change);
  identities ←
    (if bool_decide (pc_kind change = "delete") then
       ids ← delete_change change path; mret (ids, None)
     else if bool_decide (pc_kind change = "add") then
       ids ← add_change change path; mret (ids, None)
     else if bool_decide (pc_kind change = "update") then
       update_change change session_dir path read_paths
     else settle (Err {| pe_kind := "ParseError";
                         pe_message := "unsupported patch change kind: " +:+ pc_kind change;
                         pe_failed_change := Some (patch_change_value change) |}));
  let '(preimage_sha256, postimage_sha256, source_delta) :=
    (identities : option string * option string * option Value) in
  let applied_change := value_set "preimage_sha256" (json_opt_string preimage_sha256)
                          (patch_change_value change) in
  let applied_change := value_set "postimage_sha256" (json_opt_string postimage_sha256) applied_change in
  mret (match source_delta with
        | Some delta => value_set "source_delta" delta applied_change
        | None => applied_change
        end).

(** ** The command *)

Record CommandResponse := {
  cr_success : bool;
  cr_exit_code : Z;
  cr_stdout : string;
  cr_stderr : string;
  cr_output : Value;
  cr_changes : list Value;
}.

Definition failure_value (err : PatchError) (partial : bool) : Value :=
  let failure := json_object
    [("error_type", VString (pe_kind err)); ("message", VString (pe_message err));
     ("guidance", VString (apply_patch_failure_guidance (pe_kind err) partial))]%string in
  match pe_failed_change err with
  | Some failed_change => value_set "failed_change" failed_change failure
  | None => failure
  end.
(** [for change in &changes]: what was applied, and what failed. *)
Fixpoint apply_changes (changes : list PatchChange) (session_dir : string) (read_paths : list string)
    (applied failed : list Value) (w : W) : outcome PatchError (list Value * list Value) * W :=
  match changes with
  | [] => (Ok (applied, failed), w)
  | change :: rest =>
      let '(r, w) := apply_change change session_dir read_paths w in
      match r with
      | Ok applied_change => apply_changes rest session_dir read_paths (applied ++ [applied_change]) failed w
      | Err err =>
          let failure := failure_value err (negb (bool_decide (applied = []))) in
          apply_changes rest session_dir read_paths applied (failed ++ [failure]) w
      | Panic => (Panic, w)
      | OutOfFuel => (OutOfFuel, w)
      end
  end.

Definition no_effect_response : CommandResponse := {|
  cr_success := true; cr_exit_code := 0; cr_stdout := ""; cr_stderr := "";
  cr_output := json_object
    [("no_effect", VBool true);
     ("message", VString "This apply_patch entry has no command_line, so nothing changed. Entries are commands, not labels: to edit files, put the complete patch from *** Begin Patch to *** End Patch in command_line.")]%string;
  cr_changes := [];
|}.
Definition parse_error_response (err : string) : CommandResponse := {|
  cr_success := false; cr_exit_code := 1; cr_stdout := ""; cr_stderr := err;
  cr_output := json_object [("error_type", VString "ParseError"); ("message", VString err)]%string;
  cr_changes := [];
|}.
Definition text_field (key default_text : string) (failure : option Value) : string :=
  default default_text (failure ≫= λ f, value_get f key ≫= as_str).
Definition failure_response (changes : list PatchChange) (applied failed : list Value) : CommandResponse :=
  let first_kind := text_field "error_type" "PatchFailed" (head failed) in
  let first_message := text_field "message" "apply_patch failed" (head failed) in
  let one := length failed =? 1 in
  {| cr_success := false; cr_exit_code := 1; cr_stdout := "";
     cr_stderr := if one then first_message
                  else "apply_patch failed for " +:+ pretty (length failed) +:+ " of "
                       +:+ pretty (length changes) +:+ " changes; first failure: " +:+ first_message;
     cr_output := json_object
       [("error_type", VString (if one then first_kind else "MultiplePatchFailures"));
        ("failed_changes", VArray failed)]%string;
     cr_changes := value_remove "source_delta" <$> applied |}.
Definition success_response (applied : list Value) : CommandResponse := {|
  cr_success := true; cr_exit_code := 0; cr_stdout := "Success. Updated files."; cr_stderr := "";
  cr_output := json_object []; cr_changes := bound_batch applied;
|}.

Definition execute_with_readback (patch_text session_dir : string) (read_paths : list string)
    (w : W) : outcome PatchError CommandResponse * W :=
  if is_blank patch_text then (Ok no_effect_response, w) else
  match parse_patch patch_text with
  | Ok changes =>
      let '(r, w) := apply_changes changes session_dir read_paths [] [] w in
      (result ← r;
       let '(applied, failed) := (result : list Value * list Value) in
       Ok (if negb (bool_decide (failed = [])) then failure_response changes applied failed
           else success_response applied), w)
  | Err err => (Ok (parse_error_response err), w)
  | Panic => (Panic, w)
  | OutOfFuel => (OutOfFuel, w)
  end.
Definition execute (patch_text session_dir : string) (w : W) : outcome PatchError CommandResponse * W :=
  execute_with_readback patch_text session_dir [] w.
End Files.
