(* ===== verification/PatchParseFacts.v ===== *)
(** * Patches: what parses, and which patch is executed *)

From stdpp Require Import base list strings gmap sorting pretty.
From Stdlib Require Import ZArith Lia Ascii.
From S2P Require Import Prelude RustStd Externals RustText PatchParse.
Local Open Scope nat_scope.

(** ** Printing a patch *)

Definition change_lines (c : PatchChange) : list string :=
  if bool_decide (pc_kind c = "add") then
    ("*** Add File: " +:+ pc_path c) :: (String.append "+" <$> pc_lines c)
  else if bool_decide (pc_kind c = "delete") then ["*** Delete File: " +:+ pc_path c]
  else ("*** Update File: " +:+ pc_path c)
       :: (String.append "*** Move to: " <$> option_list (pc_move_path c))
       ++ (pc_hunks c ≫= λ hunk, "@@"%string :: hunk).
(** Every line ends with [\r\n], so that a line may itself end with [\r]. *)
Definition crlf_lines (lines : list string) : string :=
  String.concat "" ((λ l, l +:+ crlf_text) <$> lines).
Definition print_patch (changes : list PatchChange) : string :=
  crlf_lines (BEGIN_PATCH :: (changes ≫= change_lines) ++ [END_PATCH]).

(** One line of text. *)
Definition one_line (s : string) : bool := negb (has_char lf s).
Definition kind_ok (c : PatchChange) : bool :=
  if bool_decide (pc_kind c = "add") then bool_decide (pc_move_path c = None) && bool_decide (pc_hunks c = [])
  else if bool_decide (pc_kind c = "delete")
  then bool_decide (pc_move_path c = None) && bool_decide (pc_hunks c = []) && bool_decide (pc_lines c = [])
  else bool_decide (pc_kind c = "update") && bool_decide (pc_lines c = []).
Definition hunk_ok (hunk : list string) : bool := forallb (λ l, is_hunk_line l && one_line l) hunk.
(** A change as the parser builds it, and as it passes validation. *)
Record built (c : PatchChange) : Prop := {
  bu_kind : kind_ok c = true;
  bu_path : one_line (pc_path c) = true;
  bu_move : Forall (λ p, one_line p = true) (option_list (pc_move_path c));
  bu_lines : Forall (λ l, one_line l = true) (pc_lines c);
  bu_hunks : Forall (λ h, hunk_ok h = true) (pc_hunks c);
}.
Record well_formed (c : PatchChange) : Prop := {
  wf_built : built c;
  wf_path : is_blank (pc_path c) = false;
  wf_hunks : Forall (λ h, h ≠ []) (pc_hunks c);
}.

(** ** Lines of a printed text *)

Lemma line_of_crlf l : line_of (l +:+ crlf_text) = l.
Proof. unfold line_of. by rewrite strip_suffix_append. Qed.
Lemma crlf_lines_cons l lines : crlf_lines (l :: lines) = (l +:+ String cr "") +:+ newline_text +:+ crlf_lines lines.
Proof.
  rewrite append_assoc. unfold crlf_lines. destruct lines as [|m lines]; [done|].
  rewrite !fmap_cons. cbn [String.concat]. by rewrite append_assoc.
Qed.
Lemma str_lines_crlf lines : Forall (λ l, one_line l = true) lines → str_lines (crlf_lines lines) = lines.
Proof.
  unfold str_lines. induction 1 as [|l lines Hl _ IH]; [done|].
  rewrite crlf_lines_cons, split_inclusive_line.
  - rewrite fmap_cons, IH. f_equal. rewrite append_assoc. apply line_of_crlf.
  - rewrite has_char_append. unfold one_line in Hl. by apply negb_true_iff in Hl as ->.
Qed.
Lemma has_char_stripped c prefix s r : strip_prefix prefix s = Some r → has_char c s = false → has_char c r = false.
Proof. intros ->%strip_prefix_Some. rewrite has_char_append. by intros [_ ?]%orb_false_iff. Qed.
Lemma has_char_suffix c suffix s r : strip_suffix suffix s = Some r → has_char c s = false → has_char c r = false.
Proof. intros ->%strip_suffix_Some. rewrite has_char_append. by intros [? _]%orb_false_iff. Qed.
Lemma split_inclusive_pieces s :
  Forall (λ piece, has_char lf piece = false ∨ ∃ l, piece = l +:+ newline_text ∧ has_char lf l = false)
    (split_inclusive s).
Proof.
  induction s as [|a s IH]; [constructor|]. cbn [split_inclusive]. destruct (Ascii.eqb a lf) eqn:Ha.
  - apply Forall_cons. split; [|done]. right. exists "". apply Ascii.eqb_eq in Ha as ->. done.
  - destruct (split_inclusive s) as [|piece rest]; [apply Forall_singleton; left; simpl; by rewrite Ha|].
    apply Forall_cons in IH as [Hp Hrest]. apply Forall_cons. split; [|done].
    destruct Hp as [Hp|(l & -> & Hl)]; [left|right]; [simpl; by rewrite Ha|].
    exists (String a l). split; [done|]. simpl. by rewrite Ha.
Qed.
Lemma str_lines_one_line s : Forall (λ l, one_line l = true) (str_lines s).
Proof.
  unfold str_lines. apply Forall_fmap. eapply Forall_impl; [apply split_inclusive_pieces|].
  intros piece Hp. unfold one_line, compose. apply negb_true_iff. unfold line_of.
  destruct (strip_suffix crlf_text piece) as [line|] eqn:Hcr.
  - apply strip_suffix_Some in Hcr as ->. destruct Hp as [Hp|(l & Heq & Hl)].
    + rewrite has_char_append in Hp. by apply orb_false_iff in Hp as [? _].
    + change crlf_text with (String cr "" +:+ newline_text) in Heq. rewrite <- append_assoc in Heq.
      apply append_inj_r in Heq as <-. rewrite has_char_append in Hl. by apply orb_false_iff in Hl as [? _].
  - destruct Hp as [Hp|(l & -> & Hl)].
    + destruct (strip_suffix newline_text piece) eqn:Hn; [|done]. by eapply has_char_suffix.
    + by rewrite strip_suffix_append.
Qed.

(** ** Parsing what was printed *)

Definition running (s : ParseState) : Prop := ps_started s = true ∧ ps_ended s = false.
(** The state after one more change, once the change is finished. *)
Definition with_change (s : ParseState) (c : PatchChange) : ParseState :=
  let done := finish_change s in done.{ps_changes := ps_changes done ++ [c] }.

Definition marker_char (line : string) : bool :=
  match line with
  | String a _ => Ascii.eqb a (ascii_of_nat 42) || Ascii.eqb a (ascii_of_nat 64)
  | EmptyString => false
  end.
Lemma parse_line_content n line s :
  ps_started s = true → marker_char line = false → parse_line n line s = parse_content n line s.
Proof.
  intros Hs Hm. unfold parse_line. rewrite Hs. cbn [negb].
  assert (Hmark : ∀ a rest, Ascii.eqb a (ascii_of_nat 42) || Ascii.eqb a (ascii_of_nat 64) = true →
    strip_prefix (String a rest) line = None ∧ line ≠ String a rest).
  { intros a rest Ha. destruct line as [|b line]; [done|]. simpl in Hm.
    assert (a ≠ b) as Hab by (intros ->; congruence). split; [|by intros [= ? _]].
    cbn [strip_prefix]. by rewrite (proj2 (Ascii.eqb_neq a b)). }
  unfold starts_with, BEGIN_PATCH, END_PATCH.
  repeat match goal with |- context [strip_prefix (String ?a ?r) line] =>
    rewrite (proj1 (Hmark a r eq_refl)) end.
  rewrite !bool_decide_eq_false_2; [done|by apply Hmark..].
Qed.
Lemma hunk_line_content line : is_hunk_line line = true → marker_char line = false.
Proof. destruct line as [|a line]; [done|]. unfold is_hunk_line, starts_with. simpl.
  destruct (Ascii.eqb_spec a (ascii_of_nat 42)) as [->|]; [done|].
  by destruct (Ascii.eqb_spec a (ascii_of_nat 64)) as [->|]. Qed.

(** Runs of lines that the parser takes one after the other. *)
Lemma parse_lines_step n line rest s s' :
  parse_line n line s = Ok s' → ps_ended s' = false →
  parse_lines n (line :: rest) s = parse_lines (S n) rest s'.
Proof. intros Hl Hs. cbn [parse_lines]. rewrite Hl. cbn. by rewrite Hs. Qed.

Lemma parse_added lines : ∀ n rest s c,
  running s → ps_current s = Some c → pc_kind c = "add"%string →
  parse_lines n ((String.append "+" <$> lines) ++ rest) s
  = parse_lines (length lines + n) rest (s.{ps_current := Some (c.{pc_lines := pc_lines c ++ lines})}).
Proof.
  induction lines as [|l lines IH]; intros n rest s c [Hs He] Hc Hk.
  - simpl. rewrite app_nil_r. destruct s, c. simpl in *. by subst.
  - rewrite fmap_cons. cbn [app].
    rewrite (parse_lines_step _ _ _ _ (s.{ps_current := Some (c.{pc_lines := pc_lines c ++ [l] })})).
    + rewrite (IH _ _ _ (c.{pc_lines := pc_lines c ++ [l] })); [|done..].
      cbn. rewrite Nat.add_succ_r. f_equal. destruct s, c. simpl in *. by rewrite <- app_assoc.
    + rewrite parse_line_content by done. unfold parse_content. rewrite Hc, bool_decide_eq_true_2 by done.
      done.
    + done.
Qed.
Lemma parse_hunk_lines hunk : ∀ n rest s c open,
  running s → ps_current s = Some c → pc_kind c = "update"%string → ps_hunk s = Some open →
  Forall (λ l, is_hunk_line l = true) hunk →
  parse_lines n (hunk ++ rest) s = parse_lines (length hunk + n) rest (s.{ps_hunk := Some (open ++ hunk)}).
Proof.
  induction hunk as [|l hunk IH]; intros n rest s c open [Hs He] Hc Hk Ho Hall.
  - simpl. rewrite app_nil_r. destruct s. simpl in *. by subst.
  - apply Forall_cons in Hall as [Hl Hall]. cbn [app].
    rewrite (parse_lines_step _ _ _ _ (s.{ps_hunk := Some (open ++ [l])})).
    + rewrite (IH _ _ _ c (open ++ [l])); [|done..].
      cbn. rewrite Nat.add_succ_r. f_equal. destruct s. simpl in *. by rewrite <- app_assoc.
    + rewrite parse_line_content by (done || by apply hunk_line_content). unfold parse_content.
      rewrite Hc, Hk, Ho. simpl. by rewrite Hl.
    + done.
Qed.
(** The hunks of a change but the last are pushed, the last stays open. *)
Lemma parse_hunks hunks : ∀ n rest s c,
  running s → ps_current s = Some c → pc_kind c = "update"%string →
  Forall (λ h, hunk_ok h = true) hunks →
  ∃ s', running s' ∧ parse_lines n ((hunks ≫= λ h, "@@"%string :: h) ++ rest) s
                     = parse_lines (length (hunks ≫= λ h, "@@"%string :: h) + n) rest s'
    ∧ finish_change s' = let d := finish_change s in
        d.{ps_changes := ps_changes s
             ++ [let pushed := match ps_hunk s with Some h => push_hunk c h | None => c end in
                 pushed.{pc_hunks := pc_hunks pushed ++ hunks}] }.
Proof.
  induction hunks as [|h hunks IH]; intros n rest s c [Hs He] Hc Hk Hall.
  - exists s. split_and!; [done|done|]. unfold finish_change. rewrite Hc. destruct s as [chs cur open st en], c; simpl in *.
    destruct open; simpl; by rewrite app_nil_r.
  - apply Forall_cons in Hall as [Hh Hall].
    set (pushed := match ps_hunk s with Some h => push_hunk c h | None => c end).
    set (s1 := s.{ps_current := Some pushed}.{ps_hunk := Some [] }).
    set (s2 := s1.{ps_hunk := Some h}).
    assert (Hkp : pc_kind pushed = "update"%string) by (unfold pushed; by destruct (ps_hunk s)).
    destruct (IH (length h + S n) rest s2 pushed) as (s' & Hrun & Hparse & Hfinish); [done..|].
    exists s'. split_and!; [done| |].
    + rewrite bind_cons. cbn [app]. rewrite <- app_assoc.
      rewrite (parse_lines_step _ _ _ _ s1).
      * rewrite (parse_hunk_lines h _ _ s1 pushed []); [|done..|].
        -- simpl. change (s1.{ps_hunk := Some h}) with s2. rewrite Hparse. f_equal.
           rewrite length_app. simpl. lia.
        -- unfold hunk_ok in Hh. apply Forall_forall. intros l Hl. rewrite forallb_forall in Hh.
           apply list_elem_of_In, Hh, andb_true_iff in Hl. by destruct Hl.
      * unfold parse_line. rewrite Hs. simpl. unfold parse_hunk_start. rewrite Hc, Hk. done.
      * done.
    + rewrite Hfinish. unfold pushed. destruct s as [chs cur open st en], c; simpl in *. subst.
      destruct open; simpl; by rewrite <- !app_assoc.
Qed.

Lemma parse_move_line move n rest s c :
  running s → ps_current s = Some c → pc_kind c = "update"%string →
  ∃ s', running s' ∧ ps_current s' = Some (match move with Some p => c.{pc_move_path := Some p} | None => c end)
    ∧ ps_hunk s' = ps_hunk s ∧ ps_changes s' = ps_changes s
    ∧ parse_lines n ((String.append "*** Move to: " <$> option_list move) ++ rest) s
      = parse_lines (length (option_list move) + n) rest s'.
Proof.
  intros [Hs He] Hc Hk. destruct move as [p|]; [|by exists s].
  exists (s.{ps_current := Some (c.{pc_move_path := Some p})}). split_and!; try done.
  simpl. apply parse_lines_step; [|done]. unfold parse_line. rewrite Hs. simpl.
  unfold parse_move. by rewrite Hc, Hk.
Qed.
Lemma parse_change c n rest s :
  running s → built c →
  ∃ s', running s' ∧ finish_change s' = with_change s c
    ∧ parse_lines n (change_lines c ++ rest) s = parse_lines (length (change_lines c) + n) rest s'.
Proof.
  intros [Hs He] [Hkind _ _ _ Hhunks]. unfold change_lines, kind_ok in *.
  destruct c as [kind p move hunks lines]. simpl in *. unfold with_change.
  case_bool_decide as Hadd; [subst kind|case_bool_decide as Hdel; [subst kind|]]; guards; subst.
  - set (c := {| pc_kind := "add"; pc_path := p; pc_move_path := None; pc_hunks := []; pc_lines := [] |}).
    exists ((open_change s "add" p).{ps_current := Some (c.{pc_lines := lines})}). split_and!; [done|done|].
    cbn [app]. rewrite (parse_lines_step _ _ _ _ (open_change s "add" p)).
    + rewrite (parse_added lines _ _ _ c); [|done..]. cbn. rewrite length_fmap. f_equal. lia.
    + unfold parse_line. by rewrite Hs.
    + done.
  - exists (open_change s "delete" p). split_and!; [done|done|]. cbn [app length].
    apply parse_lines_step; [|done]. unfold parse_line. by rewrite Hs.
  - set (c := {| pc_kind := "update"; pc_path := p; pc_move_path := None; pc_hunks := []; pc_lines := [] |}).
    set (s0 := open_change s "update" p).
    destruct (parse_move_line move (S n) ((hunks ≫= λ h, "@@"%string :: h) ++ rest) s0 c)
      as (s1 & Hrun1 & Hcur1 & Hh1 & Hch1 & Hparse1); [done..|].
    destruct (parse_hunks hunks (length (option_list move) + S n) rest s1 _ Hrun1 Hcur1)
      as (s' & Hrun' & Hparse' & Hfinish'); [by destruct move|done|].
    exists s'. split_and!; [done| |].
    + rewrite Hfinish', Hh1, Hch1. unfold finish_change. rewrite Hcur1, Hh1.
      destruct s1 as [chs cur open st en], Hrun1 as [Hst1 Hen1]; simpl in *.
      destruct s as [chs0 cur0 open0 st0 en0]; simpl in *. subst. by destruct move, open0, cur0.
    + cbn [app]. rewrite <- app_assoc. rewrite (parse_lines_step _ _ _ _ s0).
      * rewrite Hparse1, Hparse'. f_equal. cbn [length]. rewrite length_app, length_fmap. lia.
      * unfold parse_line. by rewrite Hs.
      * done.
Qed.
Lemma parse_changes changes : ∀ n rest s,
  running s → Forall built changes →
  ∃ n' s', running s' ∧ ps_changes (finish_change s') = ps_changes (finish_change s) ++ changes
    ∧ parse_lines n ((changes ≫= change_lines) ++ rest) s = parse_lines n' rest s'.
Proof.
  induction changes as [|c changes IH]; intros n rest s Hs Hall.
  - exists n, s. split_and!; [done|by rewrite app_nil_r|done].
  - apply Forall_cons in Hall as [Hc Hall].
    destruct (parse_change c n ((changes ≫= change_lines) ++ rest) s Hs Hc) as (s1 & Hs1 & Hf1 & Hp1).
    destruct (IH (length (change_lines c) + n) rest s1 Hs1 Hall) as (n' & s' & Hs' & Hf' & Hp').
    exists n', s'. split_and!; [done| |].
    + rewrite Hf', Hf1. simpl. by rewrite <- app_assoc.
    + rewrite bind_cons, <- app_assoc. by rewrite Hp1, Hp'.
Qed.

Lemma built_one_line c : built c → Forall (λ l, one_line l = true) (change_lines c).
Proof.
  intros [_ Hp Hm Hl Hh]. unfold change_lines.
  assert (Hpre : ∀ prefix s, one_line prefix = true → one_line s = true → one_line (prefix +:+ s) = true).
  { intros prefix s. unfold one_line. rewrite has_char_append, !negb_true_iff. by intros -> ->. }
  case_bool_decide; [|case_bool_decide].
  - apply Forall_cons. split; [by apply Hpre|]. apply Forall_fmap.
    eapply Forall_impl; [exact Hl|]. intros l ?. by apply (Hpre "+"%string).
  - apply Forall_singleton. by apply Hpre.
  - apply Forall_cons. split; [by apply Hpre|]. apply Forall_app. split.
    + apply Forall_fmap. eapply Forall_impl; [exact Hm|]. intros l ?. by apply (Hpre "*** Move to: "%string).
    + apply Forall_forall. intros l (h & Hlh & Hin)%list_elem_of_bind.
      rewrite Forall_forall in Hh. specialize (Hh _ Hin). apply elem_of_cons in Hlh as [->|Hlh]; [done|].
      unfold hunk_ok in Hh. rewrite forallb_forall in Hh.
      by apply list_elem_of_In, Hh, andb_true_iff in Hlh as [_ ?].
Qed.
Lemma validate_well_formed changes :
  Forall well_formed changes → validate_changes changes = Ok tt.
Proof.
  induction 1 as [|c changes [[Hk _ _ _ _] Hp Hh] _ IH]; [done|]. cbn [validate_changes].
  assert (validate_change c = Ok tt) as ->; [|done].
  unfold validate_change, kind_ok in *. rewrite Hp. simpl.
  case_bool_decide; [|case_bool_decide]; guards.
  - by repeat match goal with Heq : pc_move_path _ = _ |- _ => rewrite Heq | Heq : pc_hunks _ = _ |- _ => rewrite Heq end.
  - by repeat match goal with Heq : pc_move_path _ = _ |- _ => rewrite Heq | Heq : pc_hunks _ = _ |- _ => rewrite Heq
      | Heq : pc_lines _ = _ |- _ => rewrite Heq end.
  - rewrite bool_decide_eq_true_2 by done. apply reject_if_Ok, not_true_iff_false.
    rewrite existsb_exists. intros (h & Hin & Hnil%bool_decide_eq_true). rewrite Forall_forall in Hh.
    by apply (Hh h); [apply list_elem_of_In|].
Qed.
Lemma parse_print changes :
  changes ≠ [] → Forall well_formed changes → parse_patch (print_patch changes) = Ok changes.
Proof.
  intros Hne Hwf. assert (Hb : Forall built changes) by (eapply Forall_impl; [exact Hwf|by intros ? []]).
  unfold parse_patch, print_patch. rewrite str_lines_crlf.
  - rewrite (parse_lines_step _ _ _ _ (parse_start.{ps_started := true})) by done.
    destruct (parse_changes changes 2 [END_PATCH] (parse_start.{ps_started := true})) as (n' & s' & [Hs He] & Hf & Hp);
      [done..|]. rewrite Hp.
    assert (Hend : parse_lines n' [END_PATCH] s' = Ok ((finish_change s').{ps_ended := true})).
    { cbn [parse_lines]. unfold parse_line. by rewrite Hs. }
    rewrite Hend. cbn [mbind outcome_bind].
    change (ps_started ((finish_change s').{ps_ended := true})) with (ps_started s'). rewrite Hs.
    change (ps_changes ((finish_change s').{ps_ended := true})) with (ps_changes (finish_change s')).
    rewrite Hf. change (ps_changes (finish_change (parse_start.{ps_started := true}))) with (@nil PatchChange).
    cbn [app].
    rewrite bool_decide_eq_false_2 by done. simpl. by rewrite validate_well_formed.
  - apply Forall_cons. split; [done|]. apply Forall_app. split; [|by apply Forall_singleton].
    apply Forall_forall. intros l (c & Hl & Hc)%list_elem_of_bind. rewrite Forall_forall in Hb.
    specialize (Hb _ Hc). apply built_one_line in Hb. rewrite Forall_forall in Hb. by apply Hb.
Qed.

(** ** What the parser builds *)

Record state_built (s : ParseState) : Prop := {
  sb_changes : Forall built (ps_changes s);
  sb_current c : ps_current s = Some c → built c;
  sb_hunk h : ps_hunk s = Some h →
    hunk_ok h = true ∧ ∃ c, ps_current s = Some c ∧ pc_kind c = "update"%string;
}.
Lemma built_push_hunk c h :
  built c → pc_kind c = "update"%string → hunk_ok h = true → built (push_hunk c h).
Proof.
  intros [Hk Hp Hm Hl Hh] Hkind Hok. split; simpl; try done.
  - unfold kind_ok in *. simpl. by rewrite Hkind in *.
  - by apply Forall_app_2, Forall_singleton.
Qed.
Lemma state_built_finish s : state_built s → Forall built (ps_changes (finish_change s)).
Proof.
  intros [Hch Hcur Hhunk]. unfold finish_change. simpl. apply Forall_app_2; [done|].
  destruct (ps_current s) as [c|], (ps_hunk s) as [h|]; try (by constructor).
  - destruct (Hhunk h eq_refl) as (Hok & c' & [= <-] & Hk). apply Forall_singleton, built_push_hunk; auto.
  - apply Forall_singleton. by apply Hcur.
Qed.
Lemma state_built_done s : state_built s → state_built (finish_change s).
Proof. intros Hs. split; [by apply state_built_finish|done..]. Qed.
Lemma state_built_open s kind path :
  state_built s → one_line path = true → kind ∈ ["add"; "delete"; "update"]%string →
  state_built (open_change s kind path).
Proof.
  intros Hs Hp Hk. split; simpl; [by apply (state_built_finish s)|intros c [= <-]|done].
  split; simpl; [|done|constructor..].
  by repeat (apply elem_of_cons in Hk as [->|Hk]; [done|]); apply elem_of_nil in Hk.
Qed.
Lemma state_built_content n line s s' :
  state_built s → one_line line = true → parse_content n line s = Ok s' → state_built s'.
Proof.
  intros Hs Hl Hp. pose proof Hs as [Hch Hcur Hhunk]. unfold parse_content in Hp.
  destruct (ps_current s) as [c|] eqn:Hc; [|destruct (is_blank line); [by injection Hp as <-|done]].
  specialize (Hcur c eq_refl).
  destruct (bool_decide (pc_kind c = "add"%string) && starts_with "+" line) eqn:Hadd.
  - apply andb_true_iff in Hadd as [Hk%bool_decide_eq_true Hplus]. injection Hp as <-.
    destruct Hcur as [Hkind Hpath Hm Hlines Hhunks].
    split; simpl; [done| |].
    + intros c' [= <-]. split; simpl; try done.
      * unfold kind_ok in *. simpl. by rewrite Hk in *.
      * apply Forall_app_2; [done|]. apply Forall_singleton.
        apply starts_with_spec in Hplus as [r ->]. change (text_drop 1 ("+" +:+ r)) with (text_drop 0 r).
        by destruct r.
    + intros h Hh. destruct (Hhunk h Hh) as (_ & c' & Hc' & Hk'). congruence.
  - destruct (ps_hunk s) as [h|] eqn:Hh.
    + destruct (Hhunk h eq_refl) as (Hok & c' & [= <-] & Hk).
      assert (Hpush : ∀ l, is_hunk_line l = true → one_line l = true →
        state_built (s.{ps_hunk := Some (h ++ [l])})).
      { intros l Hl1 Hl2. split; simpl; [done|by intros ? [= <-]%(eq_trans (eq_sym Hc))|]. intros h' [= <-].
        split; [|by exists c]. unfold hunk_ok in *. rewrite forallb_app. simpl. by rewrite Hl1, Hl2, Hok. }
      destruct (is_hunk_line line) eqn:Hline; [injection Hp as <-; by apply Hpush|].
      destruct (is_blank line); [|done]. injection Hp as <-. by apply Hpush.
    + destruct (is_blank line); [by injection Hp as <-|done].
Qed.
Lemma state_built_line n line s s' :
  state_built s → one_line line = true → parse_line n line s = Ok s' → state_built s'.
Proof.
  intros Hs Hl Hp. unfold parse_line in Hp.
  destruct (ps_started s); cbn [negb] in Hp.
  2: { destruct (is_blank line); [by injection Hp as <-|]. case_bool_decide; [|done].
       injection Hp as <-. by destruct Hs. }
  assert (Hrest : ∀ prefix path, strip_prefix prefix line = Some path → one_line path = true).
  { intros prefix path Hpre. apply negb_true_iff. by eapply has_char_stripped, negb_true_iff. }
  destruct (strip_prefix "*** Update File: " line) as [path|] eqn:H1;
    [injection Hp as <-; apply state_built_open; [done|by eapply Hrest|set_solver]|].
  destruct (strip_prefix "*** Add File: " line) as [path|] eqn:H2;
    [injection Hp as <-; apply state_built_open; [done|by eapply Hrest|set_solver]|].
  destruct (strip_prefix "*** Delete File: " line) as [path|] eqn:H3;
    [injection Hp as <-; apply state_built_open; [done|by eapply Hrest|set_solver]|].
  destruct (strip_prefix "*** Move to: " line) as [path|] eqn:H4.
  { unfold parse_move in Hp. destruct Hs as [Hch Hcur Hhunk]. destruct (ps_current s) as [c|]; [|done].
    destruct (bool_decide (pc_kind c = "update"%string)) eqn:Hk; [|done]. injection Hp as <-.
    apply bool_decide_eq_true in Hk. destruct (Hcur c eq_refl) as [Hkind Hpath Hm Hlines Hhunks].
    split; simpl; [done| |].
    - intros c' [= <-]. split; simpl; try done.
      + unfold kind_ok in *. simpl. by rewrite Hk in *.
      + apply Forall_singleton. by eapply Hrest.
    - intros h Hh. destruct (Hhunk h Hh) as (Hok & c' & [= <-] & _). split; [done|by eexists]. }
  destruct (starts_with "@@" line).
  { unfold parse_hunk_start in Hp. destruct Hs as [Hch Hcur Hhunk]. destruct (ps_current s) as [c|]; [|done].
    destruct (bool_decide (pc_kind c = "update"%string)) eqn:Hk; [|done]. injection Hp as <-.
    apply bool_decide_eq_true in Hk. split; simpl; [done| |].
    - intros c' [= <-]. destruct (ps_hunk s) as [h|]; [|by apply Hcur].
      destruct (Hhunk h eq_refl) as (Hok & _). apply built_push_hunk; auto.
    - intros h [= <-]. split; [done|]. by destruct (ps_hunk s); eexists. }
  case_bool_decide; [injection Hp as <-; by destruct (state_built_done _ Hs)|].
  case_bool_decide; [by injection Hp as <-|]. by eapply state_built_content.
Qed.
Lemma state_built_lines lines : ∀ n s s',
  Forall (λ l, one_line l = true) lines → state_built s → parse_lines n lines s = Ok s' → state_built s'.
Proof.
  induction lines as [|l lines IH]; intros n s s' Hall Hs Hp; [by injection Hp as <-|].
  apply Forall_cons in Hall as [Hl Hall]. cbn [parse_lines] in Hp.
  apply bind_Ok_inv in Hp as (s1 & H1 & Hp). pose proof (state_built_line _ _ _ _ Hs Hl H1) as Hs1.
  destruct (ps_ended s1); [by injection Hp as <-|]. by eapply IH.
Qed.

Lemma validate_sound changes :
  validate_changes changes = Ok tt → Forall built changes → Forall well_formed changes.
Proof.
  intros Hv Hb. induction Hb as [|c changes Hc _ IH]; [constructor|]. cbn [validate_changes] in Hv.
  apply bind_Ok_inv in Hv as ([] & H1 & Hv). apply Forall_cons. split; [|by apply IH].
  unfold validate_change in H1. apply bind_Ok_inv in H1 as ([] & Hp & H1). apply reject_if_Ok in Hp.
  split; [done|done|]. destruct Hc as [Hk _ _ _ _]. unfold kind_ok in Hk.
  case_bool_decide; [|case_bool_decide]; guards.
  - match goal with Heq : pc_hunks c = [] |- _ => by rewrite Heq end.
  - match goal with Heq : pc_hunks c = [] |- _ => by rewrite Heq end.
  - rewrite bool_decide_eq_true_2 in H1 by done. apply reject_if_Ok, not_true_iff_false in H1.
    apply Forall_forall. intros h Hin ->. apply H1, existsb_exists. exists [].
    split; [by apply list_elem_of_In|by apply bool_decide_eq_true].
Qed.

Lemma parsed_changes text changes : parse_patch text = Ok changes → changes ≠ [] ∧ Forall well_formed changes.
Proof.
  intros Hp. unfold parse_patch in Hp. apply bind_Ok_inv in Hp as (s & Hs & Hp).
  destruct (ps_started s); [|done]. cbn [negb] in Hp. apply bind_Ok_inv in Hp as ([] & _ & Hp).
  apply bind_Ok_inv in Hp as ([] & Hne & Hp). apply bind_Ok_inv in Hp as ([] & Hv & Hp).
  injection Hp as <-. apply reject_if_Ok, bool_decide_eq_false in Hne. split; [done|].
  apply validate_sound; [done|]. apply (state_built_lines _ _ _ _ (str_lines_one_line text)) in Hs.
  + by apply sb_changes.
  + by split.
Qed.

(** C36: the patch format: a list of changes is what some text parses to exactly
    if it is not empty and every change is well formed (an added file has only
    lines, a deleted file nothing, an updated file hunks that are not empty and
    made of marked lines, every path is visible); and a well-formed list parses
    back from its printed form, hunk and line by line. *)
Theorem patch_print_parse changes :
  ((∃ text, parse_patch text = Ok changes) ↔ changes ≠ [] ∧ Forall well_formed changes)
  ∧ (changes ≠ [] → Forall well_formed changes → parse_patch (print_patch changes) = Ok changes).
Proof.
  split; [|apply parse_print]. split.
  - intros [text Hp]. by eapply parsed_changes.
  - intros [Hne Hwf]. exists (print_patch changes). by apply parse_print.
Qed.

(** ** Which patch is executed

    A patch is found in a text by its marker lines.  What is found is found
    again unchanged, so the patch that admission parses is the one that runs. *)

(** ** Marker lines *)

Definition whole (piece : string) : Prop := ∃ l, piece = l +:+ newline_text ∧ has_char lf l = false.
Definition bytes_in (pieces : list string) : nat := sum_list_with String.length pieces.

Lemma pieces_cons x (l : list string) : String.concat "" (x :: l) = x +:+ String.concat "" l.
Proof. destruct l; [symmetry; apply append_empty|done]. Qed.
Lemma concat_app (l k : list string) : String.concat "" (l ++ k) = String.concat "" l +:+ String.concat "" k.
Proof. induction l as [|x l IH]; [done|]. cbn [app]. rewrite !pieces_cons, IH. by rewrite append_assoc. Qed.
Lemma concat_length l : String.length (String.concat "" l) = bytes_in l.
Proof. induction l as [|x l IH]; [done|]. rewrite pieces_cons, length_append, IH. done. Qed.

Lemma marker_in_spec pieces marker : ∀ start range,
  marker_in pieces marker start = Some range ↔
  ∃ pre p post, pieces = pre ++ p :: post ∧ line_of p = marker
    ∧ Forall (λ q, line_of q ≠ marker) pre
    ∧ range = (start + bytes_in pre, start + bytes_in pre + String.length marker).
Proof.
  induction pieces as [|q pieces IH]; intros start range; cbn [marker_in].
  { split; [done|]. by intros ([] & ? & ? & ? & _). }
  case_bool_decide as Hq; [|rewrite IH]; split.
  - intros [= <-]. exists [], q, pieces. simpl. rewrite Nat.add_0_r. by rewrite Hq.
  - intros ([|q' pre] & p & post & Heq & Hp & Hpre & ->); injection Heq as -> ->.
    + simpl. rewrite Nat.add_0_r. by rewrite Hp.
    + by apply Forall_cons in Hpre as [? _].
  - intros (pre & p & post & -> & Hp & Hpre & ->). exists (q :: pre), p, post. split_and!; try done.
    + by apply Forall_cons.
    + simpl. f_equal; lia.
  - intros ([|q' pre] & p & post & Heq & Hp & Hpre & ->); injection Heq as -> ->; [done|].
    apply Forall_cons in Hpre as [_ Hpre]. exists pre, p, post. split_and!; try done. simpl. f_equal; lia.
Qed.
Lemma marker_in_None pieces marker start :
  marker_in pieces marker start = None ↔ Forall (λ q, line_of q ≠ marker) pieces.
Proof.
  revert start. induction pieces as [|q pieces IH]; intros start; cbn [marker_in]; [done|].
  rewrite Forall_cons. case_bool_decide; [naive_solver|]. rewrite IH. naive_solver.
Qed.

(** Every piece but the last is whole. *)
Lemma pieces_before s pre p post : split_inclusive s = pre ++ p :: post → Forall whole pre.
Proof.
  revert pre. induction s as [|a s IH]; intros pre Heq; cbn [split_inclusive] in Heq; [by destruct pre|].
  destruct (Ascii.eqb a lf) eqn:Ha.
  - destruct pre as [|q pre]; [constructor|]. injection Heq as <- Heq. apply Forall_cons.
    split; [|by eapply IH]. exists ""%string. apply Ascii.eqb_eq in Ha as ->. done.
  - destruct (split_inclusive s) as [|piece rest] eqn:Hs; [destruct pre as [|? []]; [constructor|done..]|].
    destruct pre as [|q pre]; [constructor|]. injection Heq as <- ->.
    pose proof (IH (piece :: pre) eq_refl) as [(l & -> & Hl) Hpre]%Forall_cons.
    apply Forall_cons. split; [|done]. exists (String a l). split; [done|]. simpl. by rewrite Ha.
Qed.
Lemma split_whole pre s : Forall whole pre → split_inclusive (String.concat "" pre +:+ s) = pre ++ split_inclusive s.
Proof.
  induction 1 as [|p pre (l & -> & Hl) _ IH]; [done|].
  rewrite pieces_cons, !append_assoc, split_inclusive_line by done. by rewrite IH.
Qed.
Lemma text_drop_concat pre s : text_drop (bytes_in pre) (String.concat "" pre +:+ s) = s.
Proof.
  rewrite <- concat_length. generalize (String.concat "" pre). intros t.
  induction t as [|a t IH]; [by destruct s|done].
Qed.
Lemma text_take_append t s n : text_take (String.length t + n) (t +:+ s) = t +:+ text_take n s.
Proof. induction t as [|a t IH]; [done|]. exact (f_equal (String a) IH). Qed.
Lemma text_take_concat pre m s :
  text_take (bytes_in pre + String.length m) (String.concat "" pre +:+ m +:+ s) = String.concat "" pre +:+ m.
Proof.
  rewrite <- concat_length, text_take_append. f_equal. rewrite <- (Nat.add_0_r (String.length m)).
  rewrite text_take_append. assert (text_take 0 s = ""%string) as -> by by destruct s. apply append_empty.
Qed.
Lemma line_of_prefix p : ∃ eol, p = line_of p +:+ eol.
Proof.
  unfold line_of. destruct (strip_suffix crlf_text p) as [l|] eqn:Hcr.
  { apply strip_suffix_Some in Hcr as ->. by eexists. }
  destruct (strip_suffix newline_text p) as [l|] eqn:Hn.
  { apply strip_suffix_Some in Hn as ->. by eexists. }
  exists EmptyString. symmetry. apply append_empty.
Qed.

(** A text that begins with the first marker line and has the second. *)
Definition is_patch (t : string) : Prop :=
  ∃ first rest, split_inclusive t = first :: rest ∧ line_of first = BEGIN_PATCH
    ∧ Exists (λ q, line_of q = END_PATCH) rest.

Lemma split_end_patch : split_inclusive END_PATCH = [END_PATCH].
Proof. done. Qed.

(** The marker lines of a text, as parts of the text. *)
Lemma patch_marker_range_spec t marker start stop :
  patch_marker_range t marker = Some (start, stop) →
  ∃ pre p post, split_inclusive t = pre ++ p :: post ∧ line_of p = marker ∧ Forall whole pre
    ∧ Forall (λ q, line_of q ≠ marker) pre ∧ text_drop start t = String.concat "" (p :: post)
    ∧ text_take stop t = String.concat "" pre +:+ marker.
Proof.
  unfold patch_marker_range. intros (pre & p & post & Hp & Hline & Hpre & [= -> ->])%marker_in_spec.
  exists pre, p, post. simpl. pose proof (split_inclusive_concat t) as Ht. rewrite Hp, concat_app in Ht.
  split_and!; try done.
  - by eapply pieces_before.
  - rewrite <- Ht at 1. apply text_drop_concat.
  - destruct (line_of_prefix p) as [eol Heol]. rewrite Hline in Heol.
    rewrite <- Ht at 1. rewrite pieces_cons, Heol, append_assoc. apply text_take_concat.
Qed.
Lemma split_tail t pre p post :
  split_inclusive t = pre ++ p :: post → split_inclusive (String.concat "" (p :: post)) = p :: post.
Proof.
  intros Hp. pose proof (split_inclusive_concat t) as Ht. rewrite Hp, concat_app in Ht.
  rewrite <- Ht, split_whole in Hp by by eapply pieces_before. by apply app_inv_head in Hp.
Qed.

(** ** What is extracted is a patch *)

(** Lines after the one that ends the patch do not matter. *)
Lemma parse_line_started n line s s' :
  ps_started s = true → parse_line n line s = Ok s' → ps_started s' = true.
Proof.
  intros Hs Hp. unfold parse_line in Hp. rewrite Hs in Hp. cbn [negb] in Hp.
  unfold parse_move, parse_hunk_start, parse_content in Hp.
  repeat case_match; try done; injection Hp as <-; exact Hs.
Qed.
Lemma parse_lines_stop l rest : ∀ n s,
  ps_started s = true → parse_lines n (l ++ END_PATCH :: rest) s = parse_lines n (l ++ [END_PATCH]) s.
Proof.
  induction l as [|x l IH]; intros n s Hs.
  - cbn [app parse_lines]. unfold parse_line. rewrite Hs. done.
  - cbn [app parse_lines]. destruct (parse_line n x s) as [s'| | |] eqn:Hx; try done. cbn.
    destruct (ps_ended s'); [done|]. apply IH. by eapply parse_line_started.
Qed.
Lemma parse_patch_cut b b' l rest :
  str_lines b = BEGIN_PATCH :: l ++ END_PATCH :: rest → str_lines b' = BEGIN_PATCH :: l ++ [END_PATCH] →
  parse_patch b' = parse_patch b.
Proof.
  intros Hb Hb'. unfold parse_patch. rewrite Hb, Hb'.
  rewrite !(parse_lines_step _ _ _ _ (parse_start.{ps_started := true})) by done.
  rewrite (parse_lines_stop l rest) by done.
  destruct (parse_lines 2 (l ++ [END_PATCH]) (parse_start.{ps_started := true})) as [s| | |] eqn:Hs; try done.
  cbn. destruct (ps_started s) eqn:Hst; [done|]. exfalso.
  assert (Hkeep : ∀ lines n s0 s1, ps_started s0 = true → parse_lines n lines s0 = Ok s1 → ps_started s1 = true).
  { clear. induction lines as [|x lines IH]; intros n s0 s1 H0 H1; [by injection H1 as <-|].
    cbn [parse_lines] in H1. apply bind_Ok_inv in H1 as (s2 & Hx & H1).
    pose proof (parse_line_started _ _ _ _ H0 Hx). destruct (ps_ended s2); [by injection H1 as <-|]. by eapply IH. }
  apply (Hkeep _ _ (parse_start.{ps_started := true})) in Hs; [congruence|done].
Qed.

Lemma extract_patch b :
  is_patch b → ∃ b', extract_apply_patch_body b = Some b' ∧ parse_patch b' = parse_patch b.
Proof.
  intros (first & rest & Hpieces & Hfirst & Hend). unfold extract_apply_patch_body.
  assert (patch_marker_range b BEGIN_PATCH = Some (0, String.length BEGIN_PATCH)) as ->.
  { unfold patch_marker_range. rewrite Hpieces. cbn [marker_in]. cbn zeta. by rewrite Hfirst. }
  assert (text_drop 0 b = b) as -> by by destruct b.
  destruct (patch_marker_range b END_PATCH) as [[start stop]|] eqn:Hrange.
  - exists (text_take stop b). split; [done|].
    apply patch_marker_range_spec in Hrange as (pre & p & post & Hp & Hline & Hwhole & _ & _ & ->).
    pose proof Hp as Hpieces'. rewrite Hpieces in Hp.
    destruct pre as [|first' mid]; injection Hp as <- ->; [by rewrite Hfirst in Hline|].
    apply (parse_patch_cut _ _ (line_of <$> mid) (line_of <$> post)); unfold str_lines.
    + rewrite Hpieces'. rewrite fmap_app, !fmap_cons, Hfirst, Hline. done.
    + rewrite split_whole, split_end_patch by done. by rewrite fmap_app, fmap_cons, Hfirst.
  - exfalso. unfold patch_marker_range in Hrange. rewrite Hpieces in Hrange.
    apply marker_in_None, Forall_cons_1 in Hrange as [_ Hno].
    apply Exists_exists in Hend as (q & Hq & Hline). rewrite Forall_forall in Hno. by apply (Hno q).
Qed.

Lemma body_without_begin t b : normalize_apply_patch_body_without_begin t = Some b → is_patch b.
Proof.
  unfold normalize_apply_patch_body_without_begin. set (body := strip_apply_patch_command_line (trim_start t)).
  destruct (starts_with_patch_hunk body); [|done]. cbn [negb]. intros [= <-].
  set (body' := match patch_marker_range body END_PATCH with Some _ => _ | None => _ end).
  exists (BEGIN_PATCH +:+ newline_text), (split_inclusive body').
  split; [by apply split_inclusive_line|]. split; [done|].
  assert (∃ whole_part, split_inclusive body' = whole_part ++ [END_PATCH]) as [w ->].
  { unfold body'. destruct (patch_marker_range body END_PATCH) as [[start stop]|] eqn:Hend.
    - apply patch_marker_range_spec in Hend as (pre & p & post & _ & _ & Hpre & _ & _ & ->).
      exists pre. by rewrite split_whole, split_end_patch.
    - rewrite <- append_assoc. eexists. rewrite split_inclusive_app; [by rewrite split_end_patch|].
      destruct (ends_with newline_text body) eqn:He.
      + right. by rewrite append_empty.
      + right. apply ends_with_spec. by exists body. }
  apply Exists_app. right. by apply Exists_cons_hd.
Qed.
Lemma extracted_is_patch t b : extract_apply_patch_body t = Some b → is_patch b.
Proof.
  unfold extract_apply_patch_body. destruct (patch_marker_range t BEGIN_PATCH) as [[start stop]|] eqn:Hbegin.
  - apply patch_marker_range_spec in Hbegin as (pre & p & post & Hp & Hline & _ & _ & -> & _).
    pose proof (split_tail _ _ _ _ Hp) as Htail. set (patch := String.concat "" (p :: post)) in *.
    destruct (patch_marker_range patch END_PATCH) as [[start' stop']|] eqn:Hend; [|done].
    intros [= <-]. apply patch_marker_range_spec in Hend as (pre' & p' & post' & Hp' & Hline' & Hwhole & _ & _ & ->).
    rewrite Htail in Hp'. destruct pre' as [|first mid]; injection Hp' as <- ->; [by rewrite Hline in Hline'|].
    exists p, (mid ++ [END_PATCH]). split_and!; [by rewrite split_whole, split_end_patch|done|].
    apply Exists_app. right. by apply Exists_cons_hd.
  - apply body_without_begin.
Qed.

(** ** Texts that are JSON *)

Section Executed.
Context `{SerdeJson}.

(** No line of a JSON text starts with [*] or [a]: no token does, and a string
    has no line feed in it. *)
Class JsonLines : Prop :=
  json_lines t v : from_str t = Some v →
    Forall (λ piece, starts_with "*" piece = false ∧ starts_with "a" piece = false) (split_inclusive t).

Lemma json_not_line U c V v :
  JsonLines → c = ascii_of_nat 42 ∨ c = ascii_of_nat 97 → U = ""%string ∨ ends_with newline_text U = true →
  from_str (trim (U +:+ String c V)) = Some v → False.
Proof.
  intros Hlaw Hc HU Hv. assert (Hvisible : ws_byte c = false) by by destruct Hc as [-> | ->].
  destruct (trim_around U c V Hvisible) as (u & U' & V' & Hsplit & Ht). rewrite Ht in Hv.
  apply Hlaw in Hv. rewrite split_inclusive_app in Hv.
  - apply Forall_app in Hv as [_ Hv]. cbn [split_inclusive] in Hv.
    assert (Hhead : ∀ piece rest, Forall (λ q, starts_with "*" q = false ∧ starts_with "a" q = false)
      (String c piece :: rest) → False).
    { intros piece rest [[H1 H2] _]%Forall_cons_1. by destruct Hc as [-> | ->]. }
    destruct (Ascii.eqb c lf); [by eapply Hhead|]. by destruct (split_inclusive V'); eapply Hhead.
  - subst U. destruct HU as [HU|HU].
    + left. by destruct u, U'.
    + destruct U' as [|a U']; [by left|right]. apply ends_with_spec in HU as [r Hr].
      clear -Hr. revert r Hr. induction u as [|b u IH]; intros r Hr.
      * apply ends_with_spec. by exists r.
      * destruct r as [|b' r].
        -- apply (f_equal String.length) in Hr. change (String b u +:+ String a U') with (String b (u +:+ String a U')) in Hr.
           simpl in Hr. rewrite length_append in Hr. simpl in Hr. lia.
        -- injection Hr as _ Hr. by apply (IH r).
Qed.
Lemma patch_head t : is_patch t → ∃ r, t = String (ascii_of_nat 42) r.
Proof.
  intros (first & rest & Hpieces & Hfirst & _). destruct (line_of_prefix first) as [eol Heol].
  rewrite Hfirst in Heol. pose proof (split_inclusive_concat t) as Ht.
  rewrite Hpieces, pieces_cons, Heol in Ht. rewrite <- Ht. eexists. reflexivity.
Qed.
Lemma patch_not_json `{!JsonLines} t : is_patch t → from_str (trim t) = None.
Proof.
  intros [r ->]%patch_head. destruct (from_str _) as [v|] eqn:Hv; [|done]. exfalso.
  apply (json_not_line "" (ascii_of_nat 42) r v); [done|by left|by left|exact Hv].
Qed.
Lemma strip_first_cases prefixes t :
  Forall (λ p, starts_with "a" p = true) prefixes →
  strip_first_prefix prefixes t = t ∨ ∃ r, t = String (ascii_of_nat 97) r.
Proof.
  induction 1 as [|p prefixes Hp _ IH]; [by left|]. cbn [strip_first_prefix].
  destruct (strip_prefix p t) as [rest|] eqn:Hstrip; [right|done].
  apply strip_prefix_Some in Hstrip as ->. apply starts_with_spec in Hp as [r ->]. by eexists.
Qed.
Lemma strip_command_head t :
  starts_with_patch_hunk (strip_apply_patch_command_line t) = true →
  (∃ r, t = String (ascii_of_nat 97) r) ∨ ∃ r, trim_start t = String (ascii_of_nat 42) r.
Proof.
  destruct (strip_first_cases command_prefixes t) as [Hsame|Ha]; [by repeat constructor| |by left].
  unfold strip_apply_patch_command_line. rewrite Hsame.
  unfold starts_with_patch_hunk. intros Hs. right.
  assert (∃ prefix, starts_with (String (ascii_of_nat 42) prefix) (trim_start t) = true) as [prefix Hp].
  { cbn zeta in Hs. rewrite !orb_true_iff in Hs. by destruct Hs as [[Hs|Hs]|Hs]; eexists. }
  apply starts_with_spec in Hp as [r ->]. eexists. reflexivity.
Qed.
Lemma extracted_not_json `{!JsonLines} t b : extract_apply_patch_body t = Some b → from_str (trim t) = None.
Proof.
  unfold extract_apply_patch_body. intros Hb. destruct (from_str _) as [v|] eqn:Hv; [|done]. exfalso.
  destruct (patch_marker_range t BEGIN_PATCH) as [[start stop]|] eqn:Hrange.
  - apply patch_marker_range_spec in Hrange as (pre & p & post & Hp & Hline & Hwhole & _).
    pose proof (split_inclusive_concat t) as Ht. rewrite Hp, concat_app, pieces_cons in Ht.
    destruct (line_of_prefix p) as [eol Heol]. rewrite Hline in Heol. rewrite Heol in Ht.
    rewrite <- Ht in Hv. eapply (json_not_line (String.concat "" pre) (ascii_of_nat 42)); [done|by left| |exact Hv].
    destruct pre as [|x pre _] using rev_ind; [by left|right].
    apply Forall_app in Hwhole as [_ [(l & -> & _) _]%Forall_cons_1]. rewrite concat_app.
    apply ends_with_spec. exists (String.concat "" pre +:+ l). by rewrite append_assoc.
  - unfold normalize_apply_patch_body_without_begin in Hb.
    destruct (starts_with_patch_hunk _) eqn:Hs in Hb; [|done].
    assert (∃ c r, trim_start t = String c r ∧ (c = ascii_of_nat 42 ∨ c = ascii_of_nat 97)) as (c & r & Htrim & Hc).
    { apply strip_command_head in Hs as [[r Hr]|[r Hr]]; [by eauto|].
      exists (ascii_of_nat 42), r. split; [|by left]. rewrite <- Hr. unfold trim_start. rewrite bytes_text.
      unfold trim_start_bytes. by rewrite strip_idemp. }
    destruct (trim_start_head t c r) as [V' HV']; [done|by destruct Hc as [-> | ->]|].
    apply (json_not_line "" c V' v); [done|done|by left|].
    change (from_str (trim (String c V')) = Some v). by rewrite <- HV', trim_idemp.
Qed.

(** Every text a value yields is a patch that was found in one of its strings. *)
Lemma value_patch v : ∀ b, extract_apply_patch_body_from_value v = Some b → is_patch b.
Proof.
  assert (Hfirst : ∀ A (f : A → option string) l o, first_some (f <$> l) = Some o → ∃ x, x ∈ l ∧ f x = Some o).
  { clear. intros A f l o Hl. induction l as [|x l IH]; [done|]. unfold first_some in *. cbn in Hl.
    destruct (f x) eqn:Hx; [injection Hl as ->; exists x; split; [by left|done]|].
    destruct (IH Hl) as (y & ? & ?). exists y. split; [by right|done]. }
  induction v as [|flag|n|text|vs IH|fields IH] using Value_nested_ind; intros b Hb; try done.
  - by eapply extracted_is_patch.
  - cbn [extract_apply_patch_body_from_value] in Hb. apply Hfirst in Hb as (v & Hv & Hb).
    rewrite Forall_forall in IH. by eapply IH.
  - cbn [extract_apply_patch_body_from_value] in Hb. rewrite Forall_forall in IH.
    set (found := (λ f, (f.1, extract_apply_patch_body_from_value f.2)) <$> fields) in *.
    assert (Hall : ∀ entry, entry ∈ found → entry.2 = Some b → is_patch b).
    { intros entry Hin He. apply list_elem_of_fmap in Hin as (f & -> & Hf). by eapply IH. }
    destruct (first_some (_ <$> ["patch"; _; _; _; _; _]%string)) as [b'|] eqn:Hkeys.
    + injection Hb as ->. apply Hfirst in Hkeys as (key & _ & Hk). unfold found_at in Hk.
      destruct (find _ found) as [entry|] eqn:He; [|done]. apply find_Some in He as [Hin _]. by eapply Hall.
    + apply (Hfirst _ snd) in Hb as (entry & Hin & Hb). by eapply Hall.
Qed.

Lemma normalize_patch `{!JsonLines} t :
  is_patch t → parse_patch (normalize_apply_patch_text t) = parse_patch t.
Proof.
  intros Hp. destruct (extract_patch t Hp) as (t' & Ht & Hparse).
  unfold normalize_apply_patch_text, extract_apply_patch_body_from_json_wrapper.
  rewrite (patch_not_json t) by done. simpl. by rewrite Ht.
Qed.

Lemma executed_parse `{!JsonLines} command_line :
  parse_patch (patch_text_from_payload (patch_payload command_line))
  = parse_patch (normalize_apply_patch_text command_line).
Proof.
  unfold patch_payload, patch_text_from_payload.
  destruct (extract_apply_patch_body command_line) as [b|] eqn:Hb; [|done].
  change (default command_line (Some b)) with b.
  rewrite normalize_patch by by eapply extracted_is_patch.
  unfold normalize_apply_patch_text, extract_apply_patch_body_from_json_wrapper.
  rewrite (extracted_not_json command_line b) by done. simpl. by rewrite Hb.
Qed.

(** C16: the patch that runs is the patch that was admitted: admission parses the
    normalised command line; the executor extracts the patch from the command
    line, normalises what it extracted, and parses that.  Both see the same
    changes, or the same error, wrapped in JSON or not; and a patch found
    anywhere in a JSON payload is run as it was found. *)
Theorem executed_patch_is_admitted `{!JsonLines} command_line arguments patch :
  parse_patch (patch_text_from_payload (patch_payload command_line))
  = parse_patch (normalize_apply_patch_text command_line)
  ∧ (extract_apply_patch_body_from_value arguments = Some patch →
     parse_patch (patch_text_from_payload (Function arguments)) = parse_patch patch).
Proof.
  split; [apply executed_parse|].
  intros Hv. unfold patch_text_from_payload. rewrite Hv. apply normalize_patch. by eapply value_patch.
Qed.
End Executed.
