(* ===== verification/PatchApplyFacts.v ===== *)
(** * Applying hunks: a reference semantics, and what stays as it is *)

From stdpp Require Import base list strings gmap sorting pretty.
From Stdlib Require Import ZArith Lia Ascii.
From S2P Require Import Prelude RustStd Externals TaskData TaskIdentity RustText JSpaceJson.
From S2P Require Import PatchParse PatchApply PatchParseFacts.
Local Open Scope nat_scope.

(** ** Reference semantics

    A hunk edits lines of the file: a line of context stands for whatever line
    the file has there, and keeps it. *)
Inductive edits : list string → list string → list string → Prop :=
| edits_nil : edits [] [] []
| edits_context t h a old new : edits h old new → edits ((" " +:+ t) :: h) (a :: old) (a :: new)
| edits_removal t h a old new : edits h old new → edits (("-" +:+ t) :: h) (a :: old) new
| edits_addition t h old new : edits h old new → edits (("+" +:+ t) :: h) old (t :: new).

(** Lines that match those a hunk expects, all in the same way. *)
Definition fits (lines pattern : list string) : Prop :=
  ∃ mode, Forall2 (λ l r, line_matches mode l r = true) lines pattern.

(** Hunks change the first lines they fit, one after the other; a hunk that
    expects nothing adds its lines at the end. *)
Inductive patched : list string → list (list string) → list string → Prop :=
| patched_nil lines : patched lines [] lines
| patched_at h hs before old new after rest :
    old_lines h ≠ [] → fits old (old_lines h) →
    (∀ b o a, before ++ old ++ after = b ++ o ++ a → length b < length before → ¬ fits o (old_lines h)) →
    edits h old new → patched after hs rest →
    patched (before ++ old ++ after) (h :: hs) (before ++ new ++ rest)
| patched_end h hs lines new rest :
    old_lines h = [] → edits h [] new → patched [] hs rest →
    patched lines (h :: hs) (lines ++ new ++ rest).

(** ** Lines of a hunk *)

Inductive hunk_line : string → Prop :=
| hl_context t : hunk_line (" " +:+ t)
| hl_removal t : hunk_line ("-" +:+ t)
| hl_addition t : hunk_line ("+" +:+ t).
Lemma is_hunk_line_spec l : is_hunk_line l = true → hunk_line l.
Proof.
  unfold is_hunk_line. rewrite !orb_true_iff, !starts_with_spec.
  intros [[[r ->]|[r ->]]|[r ->]]; constructor.
Qed.
Lemma text_drop_one a r : text_drop 1 (String a r) = r.
Proof. by destruct r. Qed.
Lemma old_lines_cons l h :
  hunk_line l → old_lines (l :: h) =
    match l with String "+" _ => old_lines h | _ => text_drop 1 l :: old_lines h end.
Proof. by intros [t|t|t]. Qed.
Lemma edits_replacement h : ∀ old k,
  Forall (λ l, is_hunk_line l = true) h → k + length (old_lines h) = length old →
  edits h (drop k old) (replacement_from h old k).
Proof.
  induction h as [|l h IH]; intros old k Hall Hlen.
  - simpl in Hlen. rewrite drop_ge by lia. constructor.
  - apply Forall_cons in Hall as [Hl%is_hunk_line_spec Hall]. rewrite old_lines_cons in Hlen by done.
    destruct Hl as [t|t|t]; simpl in Hlen.
    + destruct (lookup_lt_is_Some_2 old k) as [a Ha]; [lia|]. rewrite (drop_S _ _ _ Ha).
      change (replacement_from ((" " +:+ t) :: h) old k)
        with (default t (old !! k) :: replacement_from h old (S k)).
      rewrite Ha. constructor. apply IH; [done|lia].
    + destruct (lookup_lt_is_Some_2 old k) as [a Ha]; [lia|]. rewrite (drop_S _ _ _ Ha).
      change (replacement_from (("-" +:+ t) :: h) old k) with (replacement_from h old (S k)).
      constructor. apply IH; [done|lia].
    + change (replacement_from (("+" +:+ t) :: h) old k) with (t :: replacement_from h old k).
      constructor. apply IH; [done|lia].
Qed.
Lemma edits_det h old new new' : edits h old new → edits h old new' → new = new'.
Proof.
  intros He. revert new'. induction He; intros new' He'; inversion He'; subst; try done; f_equal; auto.
Qed.
Lemma edits_length h old new : edits h old new → length old = length (old_lines h).
Proof. induction 1; [done|..]; rewrite old_lines_cons by constructor; simpl; lia. Qed.
Lemma edits_new_lines h new : old_lines h = [] → edits h [] new → new_lines h = new.
Proof.
  intros Hold He. remember [] as old eqn:Hnil in He. induction He; try done.
  change (new_lines (("+" +:+ t) :: h)) with (t :: new_lines h).
  rewrite old_lines_cons in Hold by constructor. by rewrite IHHe.
Qed.
Lemma edits_of_hunk h old :
  Forall (λ l, is_hunk_line l = true) h → length (old_lines h) = length old →
  edits h old (replacement_lines_for_hunk h old).
Proof. intros Hh Hlen. by apply (edits_replacement h old 0). Qed.

(** ** Where a hunk fits *)

Lemma sequence_matches_spec candidate pattern mode :
  length candidate = length pattern →
  sequence_matches candidate pattern mode = true ↔ Forall2 (λ l r, line_matches mode l r = true) candidate pattern.
Proof.
  revert pattern. induction candidate as [|l candidate IH]; intros [|r pattern] Hlen; try done.
  unfold sequence_matches in *. simpl in *. rewrite andb_true_iff, Forall2_cons, IH by lia. done.
Qed.
Lemma fits_at_spec lines pattern i :
  i + length pattern ≤ length lines →
  fits_at lines pattern i = true ↔ fits (take (length pattern) (drop i lines)) pattern.
Proof.
  intros Hi. unfold fits_at, fits. rewrite !orb_true_iff.
  rewrite !sequence_matches_spec by (rewrite length_take, length_drop; lia).
  split; [intros [[[?|?]|?]|?]; by eexists|]. intros [[] ?]; tauto.
Qed.
Lemma fits_length lines pattern : fits lines pattern → length lines = length pattern.
Proof. intros [mode Hf]. by apply Forall2_length in Hf. Qed.
Lemma fits_at_drop lines pattern k i : fits_at lines pattern (k + i) = fits_at (drop k lines) pattern i.
Proof. unfold fits_at. by rewrite drop_drop. Qed.

Lemma seek_from_spec lines pattern count : ∀ index,
  match seek_from lines pattern index count with
  | Some i => index ≤ i < index + count ∧ fits_at lines pattern i = true
              ∧ ∀ j, index ≤ j < i → fits_at lines pattern j = false
  | None => ∀ j, index ≤ j < index + count → fits_at lines pattern j = false
  end.
Proof.
  induction count as [|count IH]; intros index; cbn [seek_from]; [lia|].
  destruct (fits_at lines pattern index) eqn:Hf; [split_and!; [lia..|done|lia]|].
  specialize (IH (S index)). assert (Hsplit : ∀ j k, index ≤ j < k → j = index ∨ S index ≤ j < k) by lia.
  destruct (seek_from _ _ _ _) as [i|].
  - destruct IH as (Hi & Hfi & Hbefore). split_and!; [lia..|done|].
    intros j [->|Hj]%Hsplit; auto.
  - intros j Hj. destruct (Hsplit j (S index + count)) as [->|?]; [lia|done|auto].
Qed.

(** The first lines of [rest] that fit. *)
Definition first_fit (rest pattern before old after : list string) : Prop :=
  rest = before ++ old ++ after ∧ fits old pattern
  ∧ ∀ b o a, rest = b ++ o ++ a → length b < length before → ¬ fits o pattern.
Lemma first_fit_det rest pattern before old after before' old' after' :
  first_fit rest pattern before old after → first_fit rest pattern before' old' after' →
  before = before' ∧ old = old' ∧ after = after'.
Proof.
  intros (Heq & Hf & Hfirst) (Heq' & Hf' & Hfirst').
  assert (length before = length before') as Hlen.
  { destruct (lt_eq_lt_dec (length before) (length before')) as [[Hlt|?]|Hlt]; [|done|].
    - exfalso. by apply (Hfirst' before old after).
    - exfalso. by apply (Hfirst before' old' after'). }
  rewrite Heq' in Heq. apply app_inj_1 in Heq as [-> Heq]; [|done].
  apply fits_length in Hf, Hf'. apply app_inj_1 in Heq as [-> ->]; [done|congruence].
Qed.
Lemma window rest pattern b o a :
  rest = b ++ o ++ a → fits o pattern →
  length b + length pattern ≤ length rest ∧ fits_at rest pattern (length b) = true.
Proof.
  intros Heq Hf. pose proof (fits_length _ _ Hf) as Hlen.
  assert (Hle : length b + length pattern ≤ length rest) by (rewrite Heq, !length_app; lia).
  split; [done|]. apply fits_at_spec; [done|]. by rewrite Heq, drop_app_length, <- Hlen, take_app_length.
Qed.
Lemma window_inv rest pattern i :
  i + length pattern ≤ length rest → fits_at rest pattern i = true →
  ∃ b o a, rest = b ++ o ++ a ∧ length b = i ∧ length o = length pattern ∧ fits o pattern.
Proof.
  intros Hi Hf%fits_at_spec; [|done].
  exists (take i rest), (take (length pattern) (drop i rest)), (drop (length pattern) (drop i rest)).
  split_and!; [by rewrite take_drop, take_drop| | |done].
  - rewrite length_take. lia.
  - rewrite length_take, length_drop. lia.
Qed.
Lemma seek_sequence_spec lines pattern start :
  pattern ≠ [] → start ≤ length lines →
  match seek_sequence lines pattern start with
  | Some i => ∃ before old after, first_fit (drop start lines) pattern before old after
                ∧ i = start + length before
  | None => ∀ b o a, drop start lines = b ++ o ++ a → ¬ fits o pattern
  end.
Proof.
  intros Hne Hstart. unfold seek_sequence. rewrite bool_decide_eq_false_2 by done.
  set (rest := drop start lines). assert (Hrest : length rest = length lines - start) by apply length_drop.
  destruct (Nat.ltb_spec (length lines) (length pattern)) as [Hshort|Hlong];
    [|destruct (Nat.ltb_spec (length lines - length pattern) start) as [Hlate|Htime]]; simpl.
  - intros b o a Heq Hf. destruct (window _ _ _ _ _ Heq Hf). lia.
  - intros b o a Heq Hf. destruct (window _ _ _ _ _ Heq Hf). lia.
  - pose proof (seek_from_spec lines pattern (S (length lines - length pattern) - start) start) as Hs.
    destruct (seek_from _ _ _ _) as [i|].
    + destruct Hs as (Hi & Hfi & Hbefore). replace i with (start + (i - start)) in Hfi by lia.
      rewrite fits_at_drop in Hfi. destruct (window_inv rest pattern (i - start)) as (b & o & a & Heq & Hlen & _ & Hf);
        [lia|done|]. exists b, o, a. split; [|lia]. split_and!; [done|done|].
      intros b' o' a' Heq' Hlt Hf'. destruct (window _ _ _ _ _ Heq' Hf') as [_ Hat].
      unfold rest in Hat. rewrite <- fits_at_drop, Hbefore in Hat; [done|lia].
    + intros b o a Heq Hf. destruct (window _ _ _ _ _ Heq Hf) as [Hle Hat].
      unfold rest in Hat. rewrite <- fits_at_drop, Hs in Hat; [done|lia].
Qed.

Lemma patched_at_first h hs rest before old new after result :
  old_lines h ≠ [] → first_fit rest (old_lines h) before old after → edits h old new →
  patched after hs result → patched rest (h :: hs) (before ++ new ++ result).
Proof. intros Hne (-> & Hf & Hfirst) He Hp. by eapply patched_at. Qed.
Lemma patched_at_inv h hs rest result :
  old_lines h ≠ [] → patched rest (h :: hs) result →
  ∃ before old new after result', first_fit rest (old_lines h) before old after ∧ edits h old new
    ∧ patched after hs result' ∧ result = before ++ new ++ result'.
Proof. intros Hne Hp. inversion Hp; subst; [|done]. eexists _, _, _, _, _. by split_and!. Qed.

Lemma patched_det rest hs result result' : patched rest hs result → patched rest hs result' → result = result'.
Proof.
  intros Hp. revert result'. induction Hp as [|h hs before old new after rest Hne Hf Hfirst He Hp IH|h hs lines new rest Hold He Hp IH];
    intros result' Hp'.
  - by inversion Hp'.
  - apply patched_at_inv in Hp' as (b & o & n & a & r & Hfirst' & He' & Hp' & ->); [|done].
    assert (Hfit : first_fit (before ++ old ++ after) (old_lines h) before old after) by done.
    destruct (first_fit_det _ _ _ _ _ _ _ _ Hfit Hfirst') as (<- & <- & <-).
    by rewrite (edits_det _ _ _ _ He He'), (IH _ Hp').
  - inversion Hp'; subst; [done|].
    match goal with He2 : edits h [] _ |- _ => rewrite (edits_det _ _ _ _ He He2) end.
    by erewrite IH.
Qed.
Lemma splice_rest (lines : list string) start stop (new result : list string) :
  start ≤ stop → stop ≤ length lines →
  splice (take stop lines ++ result) (start, stop, new) = Ok (take start lines ++ new ++ result).
Proof.
  intros Hle Hlen. unfold splice. rewrite length_app, length_take.
  rewrite (proj2 (Nat.leb_le _ _) Hle), (proj2 (Nat.leb_le _ _)) by lia. simpl.
  rewrite take_app_le by (rewrite length_take; lia). rewrite take_take, Nat.min_l by done.
  rewrite drop_app_ge by (rewrite length_take; lia). rewrite length_take, Nat.min_l, Nat.sub_diag by done.
  done.
Qed.

Section Hunks.
Context `{SerdeJson, Sha2}.

Lemma place_patched original lines readback hunks : ∀ start,
  start ≤ length lines → Forall (Forall (λ l, is_hunk_line l = true)) hunks →
  match place_hunks original lines readback hunks start with
  | Ok replacements => ∃ result, patched (drop start lines) hunks result
      ∧ splice_all replacements lines = Ok (take start lines ++ result)
  | Err _ => ∀ result, ¬ patched (drop start lines) hunks result
  | _ => False
  end.
Proof.
  induction hunks as [|h hunks IH]; intros start Hstart Hall; cbn [place_hunks].
  { exists (drop start lines). split; [constructor|]. simpl. by rewrite take_drop. }
  apply Forall_cons in Hall as [Hh Hall]. case_bool_decide as Hold.
  - specialize (IH (length lines) (le_n _) Hall). rewrite drop_all in IH.
    destruct (place_hunks _ _ _ _ _) as [reps| | |]; try done; cbn [mbind outcome_bind splice_all].
    + destruct IH as (result & Hp & Hs). rewrite take_ge in Hs by lia.
      assert (He : edits h [] (new_lines h)).
      { pose proof (edits_of_hunk h [] Hh) as He. rewrite Hold in He. specialize (He eq_refl).
        by rewrite (edits_new_lines _ _ Hold He). }
      exists (drop start lines ++ new_lines h ++ result). split; [by apply patched_end|].
      rewrite Hs. cbn [mbind outcome_bind]. pose proof (splice_rest lines (length lines) (length lines) (new_lines h) result) as Hsp.
      rewrite take_ge in Hsp by lia. rewrite Hsp by lia. by rewrite (app_assoc (take start lines)), take_drop.
    + intros result Hp. inversion Hp; subst; [done|]. by eapply IH.
  - pose proof (seek_sequence_spec lines (old_lines h) start Hold Hstart) as Hseek.
    destruct (seek_sequence lines (old_lines h) start) as [i|].
    2: { intros result Hp. apply patched_at_inv in Hp as (b & o & n & a & r & (Heq & Hf & _) & _); [|done].
         by eapply Hseek. }
    destruct Hseek as (before & old & after & Hfirst & ->). pose proof Hfirst as (Heq & Hf & _).
    pose proof (fits_length _ _ Hf) as Hlen. pose proof (f_equal length Heq) as Htotal.
    rewrite length_drop, !length_app in Htotal.
    set (i := start + length before) in *. set (stop := i + length (old_lines h)).
    assert (Hdrop : drop i lines = old ++ after).
    { unfold i. by rewrite <- drop_drop, Heq, drop_app_length. }
    assert (Hafter : drop stop lines = after).
    { unfold stop. by rewrite <- drop_drop, Hdrop, <- Hlen, drop_app_length. }
    assert (Htake : take i lines = take start lines ++ before).
    { unfold i. rewrite <- (take_drop start lines) at 1. rewrite take_app_ge by (rewrite length_take; lia).
      rewrite length_take, Nat.min_l by done. replace (start + length before - start) with (length before) by lia.
      by rewrite Heq, take_app_length. }
    assert (Hactual : take (stop - i) (drop i lines) = old).
    { rewrite Hdrop. replace (stop - i) with (length old) by (unfold stop; lia). apply take_app_length. }
    rewrite Hactual. specialize (IH stop ltac:(unfold stop, i; lia) Hall). rewrite Hafter in IH.
    pose proof (edits_of_hunk h old Hh ltac:(lia)) as He.
    destruct (place_hunks _ _ _ _ stop) as [reps| | |]; try done; cbn [mbind outcome_bind splice_all].
    + destruct IH as (result & Hp & Hs). exists (before ++ replacement_lines_for_hunk h old ++ result).
      split; [by eapply patched_at_first|]. rewrite Hs. cbn [mbind outcome_bind]. rewrite splice_rest by (unfold stop, i; lia).
      by rewrite Htake, <- app_assoc.
    + intros result Hp. apply patched_at_inv in Hp as (b & o & n & a & r & Hfirst' & _ & Hp & _); [|done].
      destruct (first_fit_det _ _ _ _ _ _ _ _ Hfirst Hfirst') as (_ & _ & <-). by eapply IH.
Qed.

Definition patched_text (original : string) (lines : list string) : string :=
  join_lines lines (dominant_line_ending original)
    (ends_with newline_text original || ends_with (String cr EmptyString) original).
Lemma apply_hunks_spec original hunks readback :
  Forall (Forall (λ l, is_hunk_line l = true)) hunks →
  match apply_hunks_with_delta original hunks readback with
  | Ok (updated, _) => ∃ lines, patched (str_lines original) hunks lines ∧ updated = patched_text original lines
  | Err _ => ∀ lines, ¬ patched (str_lines original) hunks lines
  | _ => False
  end.
Proof.
  intros Hall. unfold apply_hunks_with_delta. set (lines := str_lines original).
  pose proof (place_patched original lines readback hunks 0 ltac:(lia) Hall) as Hplace.
  change (drop 0 lines) with lines in Hplace. change (take 0 lines) with (@nil string) in Hplace.
  destruct (place_hunks _ _ _ _ _) as [reps|e| |]; try done; cbn [mbind outcome_bind].
  destruct Hplace as (result & Hp & ->). by exists result.
Qed.

(** C18: hunks: applying hunks never fails but with an error, and it yields a
    text exactly when the hunks edit the lines of the file one after the
    other, each at the first lines it fits below the previous one: context and
    removed lines are matched by lines of the file, context keeps the file's
    own text, added lines come in their place, and all other lines stay. *)
Theorem hunks_applied original hunks readback updated :
  Forall (Forall (λ l, is_hunk_line l = true)) hunks →
  settles (apply_hunks_with_delta original hunks readback)
  ∧ ((∃ delta, apply_hunks_with_delta original hunks readback = Ok (updated, delta)) ↔
     ∃ lines, patched (str_lines original) hunks lines ∧ updated = patched_text original lines).
Proof.
  intros Hall. pose proof (apply_hunks_spec original hunks readback Hall) as Hspec.
  destruct (apply_hunks_with_delta original hunks readback) as [[text delta]|e| |]; try done.
  - destruct Hspec as (lines & Hp & ->). split; [apply settles_Ok|]. split.
    + intros [delta' [= <- _]]. by exists lines.
    + intros (lines' & Hp' & ->). rewrite (patched_det _ _ _ _ Hp' Hp). by exists delta.
  - split; [apply settles_Err|]. split; [by intros [? ?]|]. intros (lines & Hp & _). by apply Hspec in Hp.
Qed.
End Hunks.

(** ** What a patched text keeps, and the evidence of what changed *)

(** ** Line endings *)

(** A text of lines that all end in [eol], but the last if [final] is not set. *)
Definition file_text (eol : string) (lines : list string) (final : bool) : string :=
  join eol lines +:+ (if final then eol else EmptyString).

Lemma contains_cons p a s : contains_text p (String a s) = starts_with p (String a s) || contains_text p s.
Proof.
  unfold contains_text. cbn [find_text]. destruct (starts_with p (String a s)); [done|].
  by destruct (find_text p s).
Qed.
Lemma ends_cons p a s : ends_with p (String a s) = bool_decide (String a s = p) || ends_with p s.
Proof. unfold ends_with. cbn [strip_suffix]. case_bool_decide; [done|]. by destruct (strip_suffix p s). Qed.
Lemma contains_crlf_line l s :
  has_char lf l = false →
  contains_text crlf_text (l +:+ newline_text +:+ s) = ends_with (String cr "") l || contains_text crlf_text s.
Proof.
  induction l as [|a l IH]; intros Hl.
  - change ("" +:+ newline_text +:+ s) with (String lf s). rewrite contains_cons. done.
  - simpl in Hl. apply orb_false_iff in Hl as [Ha Hl].
    change (String a l +:+ newline_text +:+ s) with (String a (l +:+ newline_text +:+ s)).
    rewrite contains_cons, IH by done. rewrite orb_assoc. f_equal.
    rewrite ends_cons. destruct l as [|b l].
    + change ("" +:+ newline_text +:+ s) with (String lf s). unfold starts_with, crlf_text, newline_text.
      cbn [strip_prefix]. destruct (Ascii.eqb_spec cr a) as [<-|Hne]; [done|].
      rewrite bool_decide_eq_false_2; [done|]. by intros [= ?].
    + rewrite bool_decide_eq_false_2 by done. cbn [orb].
      assert (starts_with crlf_text (String a (String b l +:+ newline_text +:+ s)) = false) as ->; [|done].
      unfold starts_with, crlf_text, newline_text. cbn [strip_prefix].
      change (String b l +:+ String lf "" +:+ s) with (String b (l +:+ String lf "" +:+ s)). cbn [strip_prefix].
      simpl in Hl. apply orb_false_iff in Hl as [Hb _].
      destruct (Ascii.eqb cr a); [|done]. rewrite Ascii.eqb_sym in Hb. by rewrite Hb.
Qed.
Lemma contains_crlf_none l : has_char lf l = false → contains_text crlf_text l = false.
Proof.
  induction l as [|a l IH]; intros Hl; [done|]. simpl in Hl. apply orb_false_iff in Hl as [Ha Hl].
  rewrite contains_cons, IH, orb_false_r by done. unfold starts_with, crlf_text, newline_text. cbn [strip_prefix].
  destruct (Ascii.eqb cr a); [|done]. destruct l as [|b l]; [done|]. cbn [strip_prefix].
  simpl in Hl. apply orb_false_iff in Hl as [Hb _]. rewrite Ascii.eqb_sym in Hb. by rewrite Hb.
Qed.

Definition eol_of (crlf : bool) : string := if crlf then crlf_text else newline_text.
Definition ended (crlf : bool) (lines : list string) : string :=
  String.concat "" ((λ l, l +:+ eol_of crlf) <$> lines).
Lemma ended_cons crlf l lines : ended crlf (l :: lines) = l +:+ eol_of crlf +:+ ended crlf lines.
Proof. unfold ended. by rewrite fmap_cons, pieces_cons, append_assoc. Qed.
Lemma clean_line_spec l : clean_line l = true → has_char lf l = false ∧ ends_with (String cr "") l = false.
Proof. unfold clean_line. intros Hl. by guards. Qed.

Lemma str_lines_ended crlf lines t :
  Forall (λ l, clean_line l = true) lines → str_lines (ended crlf lines +:+ t) = lines ++ str_lines t.
Proof.
  unfold str_lines. induction 1 as [|l lines Hl _ IH]; [done|].
  pose proof (clean_line_spec _ Hl) as [Hlf _]. rewrite ended_cons. destruct crlf; unfold eol_of in *.
  - change crlf_text with (String cr "" +:+ newline_text) at 1. rewrite !append_assoc, <- (append_assoc l).
    rewrite split_inclusive_line by by rewrite has_char_append, Hlf. rewrite fmap_cons, IH. cbn [app]. f_equal.
    rewrite append_assoc. apply line_of_crlf.
  - rewrite !append_assoc, split_inclusive_line, fmap_cons, IH by done. cbn [app]. f_equal. by apply line_of_clean.
Qed.
Lemma contains_ended crlf lines t :
  Forall (λ l, clean_line l = true) lines →
  contains_text crlf_text (ended crlf lines +:+ t)
  = (crlf && negb (bool_decide (lines = []))) || contains_text crlf_text t.
Proof.
  induction 1 as [|l lines Hl _ IH]; [by rewrite andb_false_r|].
  pose proof (clean_line_spec _ Hl) as [Hlf Hcr]. rewrite ended_cons, (bool_decide_eq_false_2 (l :: lines = [])) by done.
  destruct crlf; unfold eol_of in *.
  - change crlf_text with (String cr "" +:+ newline_text) at 2. rewrite !append_assoc, <- (append_assoc l).
    rewrite contains_crlf_line by by rewrite has_char_append, Hlf.
    assert (ends_with (String cr "") (l +:+ String cr "") = true) as ->; [|done].
    apply ends_with_spec. by eexists.
  - rewrite !append_assoc, contains_crlf_line, Hcr by done. exact IH.
Qed.
Lemma ends_append p x t : t ≠ ""%string → ends_with (String p "") (x +:+ t) = ends_with (String p "") t.
Proof.
  intros Ht. induction x as [|a x IH]; [done|]. change (String a x +:+ t) with (String a (x +:+ t)).
  rewrite ends_cons, IH, bool_decide_eq_false_2; [done|]. intros [= _ Hnil]. by destruct x.
Qed.
Lemma str_lines_single l : has_char lf l = false → l ≠ ""%string → str_lines l = [l].
Proof.
  intros Hl Hne. unfold str_lines. rewrite split_inclusive_last by done. cbn. f_equal.
  destruct (line_of_prefix l) as [eol Heol]. unfold line_of in *.
  destruct (strip_suffix crlf_text l) as [r|] eqn:Hc.
  { apply strip_suffix_Some in Hc as ->. rewrite has_char_append in Hl. by rewrite orb_true_r in Hl. }
  destruct (strip_suffix newline_text l) as [r|] eqn:Hn; [|done].
  apply strip_suffix_Some in Hn as ->. rewrite has_char_append in Hl. by rewrite orb_true_r in Hl.
Qed.

Lemma join_snoc_lines eol init (last : string) :
  join eol (init ++ [last]) = String.concat "" ((λ l, l +:+ eol) <$> init) +:+ last.
Proof.
  unfold join. induction init as [|l init IH]; [done|]. cbn [app]. rewrite fmap_cons, pieces_cons, append_assoc.
  assert (Hj : String.concat eol (l :: init ++ [last]) = l +:+ eol +:+ String.concat eol (init ++ [last])).
  { by destruct init. }
  rewrite Hj, IH. by rewrite append_assoc.
Qed.
Lemma file_text_final crlf lines : lines ≠ [] → file_text (eol_of crlf) lines true = ended crlf lines.
Proof.
  destruct lines as [|last init _] using rev_ind; [done|]. intros _. unfold file_text, ended.
  by rewrite join_snoc_lines, fmap_app, concat_app, append_assoc.
Qed.

(** A file whose lines all end the same way is read as its lines. *)
Lemma uniform_text crlf lines final original :
  original = file_text (eol_of crlf) lines final →
  Forall (λ l, clean_line l = true) lines → lines ≠ [] → (final = false → last lines ≠ Some ""%string) →
  (crlf = true → final = true ∨ 2 ≤ length lines) →
  str_lines original = lines ∧ dominant_line_ending original = eol_of crlf
  ∧ ends_with newline_text original || ends_with (String cr EmptyString) original = final.
Proof.
  intros -> Hclean Hne Hlast Hcrlf. destruct final.
  - rewrite file_text_final by done. rewrite <- (append_empty (ended crlf lines)). split_and!.
    + rewrite str_lines_ended by done. apply app_nil_r.
    + unfold dominant_line_ending. rewrite contains_ended by done. rewrite bool_decide_eq_false_2 by done.
      by destruct crlf.
    + apply orb_true_iff. left. rewrite append_empty. rewrite <- file_text_final by done. unfold file_text.
      apply ends_with_spec. destruct crlf; simpl; [|by eexists].
      exists (join crlf_text lines +:+ String cr ""). by rewrite append_assoc.
  - destruct lines as [|final_line init _] using rev_ind; [done|]. clear Hne. rewrite last_snoc in Hlast.
    specialize (Hlast eq_refl). assert (Hl : final_line ≠ ""%string) by congruence.
    apply Forall_app in Hclean as [Hinit [[Hlf Hcr]%clean_line_spec _]%Forall_cons_1].
    unfold file_text. rewrite append_empty, join_snoc_lines. fold (ended crlf init). split_and!.
    + by rewrite str_lines_ended, str_lines_single.
    + unfold dominant_line_ending. rewrite contains_ended, contains_crlf_none, orb_false_r by done.
      destruct crlf; [|done]. destruct (Hcrlf eq_refl) as [?|Hlen]; [done|].
      rewrite bool_decide_eq_false_2; [done|]. intros ->. simpl in Hlen. lia.
    + unfold newline_text at 1. rewrite !ends_append by done. rewrite Hcr, orb_false_r.
      apply not_true_iff_false. intros (r & Hr)%ends_with_spec. rewrite Hr, has_char_append in Hlf.
      by rewrite orb_true_r in Hlf.
Qed.

(** ** Evidence *)

(** The text a reader gets who has the old one and the hunks. *)
Fixpoint replay_from (old : list string) (position : nat) (hunks : list DeltaHunk) : string :=
  match hunks with
  | [] => String.concat "" (drop position old)
  | h :: rest =>
      let start := dh_before_start h - 1 in
      range_of old position start +:+ dh_after_text h +:+ replay_from old (start + dh_before_count h) rest
  end.
(** Hunks name their lines, in order and without overlap, with their text. *)
Fixpoint located_from (old new : list string) (position : nat) (hunks : list DeltaHunk) : Prop :=
  match hunks with
  | [] => position ≤ length old
  | h :: rest =>
      let start := dh_before_start h - 1 in
      let stop := start + dh_before_count h in
      let after := dh_after_start h - 1 in
      1 ≤ dh_before_start h ∧ 1 ≤ dh_after_start h ∧ position ≤ start ∧ stop ≤ length old
      ∧ after + dh_after_count h ≤ length new
      ∧ dh_before_text h = range_of old start stop
      ∧ dh_after_text h = range_of new after (after + dh_after_count h)
      ∧ located_from old new stop rest
  end.
Definition hunk_size (h : DeltaHunk) : nat := dh_before_count h + dh_after_count h.

Lemma checked_add_Some a b c : checked_add a b = Some c → c = a + b.
Proof. unfold checked_add. case_match; [by intros [= <-]|done]. Qed.
Lemma checked_sub_Some a b c : checked_sub a b = Some c → b ≤ a ∧ c = a - b.
Proof. unfold checked_sub. destruct (Nat.leb_spec b a); [by intros [= <-]|done]. Qed.
Lemma reject_option_Some c u : reject_option c = Some u ↔ c = false.
Proof. unfold reject_option. destruct u, c; naive_solver. Qed.

Lemma delta_step_spec old new s r s' :
  delta_step old new s r = Some s' →
  ∃ h, ds_hunks s' = ds_hunks s ++ [h] ∧ ds_count s' = ds_count s + hunk_size h ∧ ds_count s' ≤ MAX_LINES
    ∧ 1 ≤ dh_before_start h ∧ 1 ≤ dh_after_start h ∧ ds_previous_end s ≤ dh_before_start h - 1
    ∧ ds_previous_end s' = dh_before_start h - 1 + dh_before_count h ∧ ds_previous_end s' ≤ length old
    ∧ dh_after_start h - 1 + dh_after_count h ≤ length new
    ∧ dh_before_text h = range_of old (dh_before_start h - 1) (ds_previous_end s')
    ∧ dh_after_text h = range_of new (dh_after_start h - 1) (dh_after_start h - 1 + dh_after_count h)
    ∧ ds_reconstructed s' = ds_reconstructed s +:+ range_of old (ds_previous_end s) (dh_before_start h - 1)
                            +:+ dh_after_text h.
Proof.
  destruct r as [[start stop] replacement]. unfold delta_step. intros Hs.
  apply bind_Some in Hs as ([] & Hguard%reject_option_Some & Hs).
  apply orb_false_iff in Hguard as [[H1%Nat.ltb_ge H2%Nat.ltb_ge]%orb_false_iff H3%Nat.ltb_ge].
  apply bind_Some in Hs as (kept & [Hk ->]%checked_sub_Some & Hs).
  apply bind_Some in Hs as (new_start & Hns%checked_add_Some & Hs).
  apply bind_Some in Hs as (new_end & Hne%checked_add_Some & Hs).
  apply bind_Some in Hs as ([] & H4%reject_option_Some%Nat.ltb_ge & Hs).
  apply bind_Some in Hs as (removed & _ & Hs). apply bind_Some in Hs as (added & _ & Hs).
  apply bind_Some in Hs as (count1 & Hc1%checked_add_Some & Hs).
  apply bind_Some in Hs as (count2 & Hc2%checked_add_Some & Hs).
  apply bind_Some in Hs as ([] & H5%reject_option_Some%Nat.ltb_ge & Hs). injection Hs as <-.
  eexists. split; [reflexivity|]. cbn [dh_before_start dh_before_count dh_after_start dh_after_count dh_before_text
    dh_after_text ds_count ds_previous_end ds_reconstructed]. unfold hunk_size. cbn [dh_before_count dh_after_count].
  rewrite !Nat.add_sub. split_and!; try lia; try done.
  f_equal; lia.
Qed.

Lemma delta_steps_spec old new replacements : ∀ s s',
  delta_steps old new s replacements = Some s' → ds_previous_end s ≤ length old →
  ∃ hunks, ds_hunks s' = ds_hunks s ++ hunks
    ∧ ds_count s' = ds_count s + sum_list_with hunk_size hunks
    ∧ (hunks = [] ∨ ds_count s' ≤ MAX_LINES)
    ∧ located_from old new (ds_previous_end s) hunks
    ∧ ds_reconstructed s' +:+ String.concat "" (drop (ds_previous_end s') old)
      = ds_reconstructed s +:+ replay_from old (ds_previous_end s) hunks.
Proof.
  induction replacements as [|r replacements IH]; intros s s' Hs Hend; cbn [delta_steps] in Hs.
  { injection Hs as <-. exists []. rewrite app_nil_r. simpl. split_and!; auto. }
  apply bind_Some in Hs as (s1 & H1 & Hs).
  apply delta_step_spec in H1 as (h & Hh & Hc & Hmax & Hb1 & Ha1 & Hpos & Hprev & Hlen & Hnew & Hbt & Hat & Hrec).
  destruct (IH s1 s' Hs Hlen) as (hunks & Hhs & Hcs & Hms & Hloc & Hreplay).
  exists (h :: hunks). rewrite Hhs, Hh, <- app_assoc. split_and!; [done| | | |].
  - rewrite Hcs, Hc. simpl. lia.
  - right. destruct Hms as [->|Hms]; [|done]. rewrite Hcs. simpl. lia.
  - cbn [located_from]. rewrite Hprev in Hloc, Hbt, Hlen. by split_and!.
  - rewrite Hreplay, Hrec. cbn [replay_from]. by rewrite Hprev, !append_assoc.
Qed.

Section Evidence.
Context `{SerdeJson, Sha2}.

(** Line ends are kept: a patch of a file whose lines all end in [\n], or
    all in [\r\n], the last one perhaps without, writes the edited lines with
    the same ends; when the edited lines have no text at all, as one
    empty line, it writes an empty file. *)
Theorem line_ends_kept crlf lines final hunks readback updated delta :
  Forall (λ l, clean_line l = true) lines → lines ≠ [] → (final = false → last lines ≠ Some ""%string) →
  (crlf = true → final = true ∨ 2 ≤ length lines) →
  Forall (Forall (λ l, is_hunk_line l = true)) hunks →
  apply_hunks_with_delta (file_text (eol_of crlf) lines final) hunks readback = Ok (updated, delta) →
  ∃ edited, patched lines hunks edited
    ∧ updated = if is_empty (join (eol_of crlf) edited) then ""%string
                else file_text (eol_of crlf) edited final.
Proof.
  intros Hclean Hne Hlast Hcrlf Hhunks Hok.
  pose proof (apply_hunks_spec (file_text (eol_of crlf) lines final) hunks readback Hhunks) as Hspec.
  rewrite Hok in Hspec. destruct Hspec as (edited & Hp & ->).
  destruct (uniform_text crlf lines final _ eq_refl Hclean Hne Hlast Hcrlf) as (Hlines & Hdom & Hfinal).
  rewrite Hlines in Hp. exists edited. split; [done|]. unfold patched_text. rewrite Hdom, Hfinal.
  unfold join_lines, file_text, is_empty. case_bool_decide as He; [rewrite He; by destruct final|].
  destruct final; simpl; [done|]. by rewrite append_empty.
Qed.

(** C37: evidence: when a change reports what it replaced, the hunks name lines of
    the file as it was and of the file as it is, in order and without
    overlap, with their exact text; putting the new text in the place of the
    old one gives the new file byte for byte; the hunks have at most 600 lines,
    and the report at most 32768 bytes. *)
Theorem evidence_replays before after replacements value :
  from_applied_buffers before after replacements = Some value →
  ∃ hunks, value = delta_value hunks (sum_list_with hunk_size hunks) ∧ hunks ≠ []
    ∧ located_from (split_inclusive before) (split_inclusive after) 0 hunks
    ∧ replay_from (split_inclusive before) 0 hunks = after
    ∧ sum_list_with hunk_size hunks ≤ MAX_LINES ∧ (json_len value ≤ MAX_BYTES)%Z.
Proof.
  unfold from_applied_buffers, applied_delta. intros Hv. apply bind_Some in Hv as ([hunks count] & Hd & Hv).
  destruct (_ || _); [done|]. apply bind_Some in Hd as (s & Hs & Hd).
  destruct (bool_decide _ || _) eqn:Hgood in Hd; [done|]. injection Hd as <- <-.
  apply orb_false_iff in Hgood as [Hne%bool_decide_eq_false Hrec%negb_false_iff%bool_decide_eq_true].
  destruct (Z.leb_spec (json_len (delta_value (ds_hunks s) (ds_count s))) MAX_BYTES) as [Hlen|]; [|done].
  injection Hv as <-. apply delta_steps_spec in Hs as (hunks & Hh & Hc & Hmax & Hloc & Hreplay); [|simpl; lia].
  simpl in Hh, Hc, Hloc, Hreplay. exists hunks. rewrite <- Hc, <- Hh. split_and!; try done.
  - by rewrite Hh.
  - rewrite Hh. change (replay_from (split_inclusive before) 0 hunks)
      with ("" +:+ replay_from (split_inclusive before) 0 hunks)%string.
    rewrite <- Hreplay, <- Hrec. f_equal. unfold range_of. f_equal.
    by rewrite take_ge by (rewrite length_drop; lia).
  - destruct Hmax as [->|?]; [|lia]. rewrite Hh in Hne. done.
Qed.
End Evidence.
