(* ===== verification/PatchFilesFacts.v ===== *)
(** * Patches on the disk: the batch, refusals, effects and confinement *)

From stdpp Require Import base list strings gmap sorting pretty.
From Stdlib Require Import ZArith Lia Ascii.
From S2P Require Import Prelude RustStd RustText RustPath Externals TaskData TaskIdentity SessionProjectionJson JSpaceJson FileLocks CommandPathFacts PatchParse PatchApply PatchFiles PatchParseFacts PatchApplyFacts.
Local Open Scope nat_scope.

Section Files.
Context `{Disk W, SerdeJson, Sha2, !JsonRead}.
Implicit Types w : W.

(** ** Steps on the disk *)

(** Run at [w], [m] ends: with a value and [Q], or with an error and [E]. *)
Definition ends {A} (m : disk A) (w : W) (Q : A → W → Prop) (E : PatchError → W → Prop) : Prop :=
  match m w with
  | (Ok a, w') => Q a w'
  | (Err e, w') => E e w'
  | _ => False
  end.
Lemma disk_ends_bind {A B} (m : disk A) (k : A → disk B) w Q E :
  ends m w (λ a w', ends (k a) w' Q E) E → ends (m ≫= k) w Q E.
Proof. unfold ends, mbind, disk_bind. by destruct (m w) as [[a|e| |] w']. Qed.
Lemma ends_ret {A} (a : A) w (Q : A → W → Prop) E : Q a w → ends (mret a) w Q E.
Proof. done. Qed.
Lemma ends_observe {A} (f : W → A) w (Q : A → W → Prop) E : Q (f w) w → ends (observe f) w Q E.
Proof. done. Qed.
Lemma ends_settle {A} (m : outcome PatchError A) w (Q : A → W → Prop) E :
  settles m → (∀ a, m = Ok a → Q a w) → (∀ e, m = Err e → E e w) → ends (settle m) w Q E.
Proof. unfold ends, settle. intros [[a ->]|[e ->]] HQ HE; auto. Qed.
Lemma ends_reading {A} (f : W → FileError + A) w (Q : A → W → Prop) E :
  (∀ a, f w = inr a → Q a w) → (∀ e, f w = inl e → E (io_error e) w) → ends (reading f) w Q E.
Proof. unfold ends, reading. intros HQ HE. destruct (f w); auto. Qed.
Lemma ends_writing (f : W → option FileError * W) w (Q : unit → W → Prop) E :
  (∀ w', f w = (None, w') → Q tt w') → (∀ e w', f w = (Some e, w') → E (io_error e) w') →
  ends (writing f) w Q E.
Proof. unfold ends, writing. intros HQ HE. destruct (f w) as [[e|] w']; auto. Qed.
Lemma safe_path_settles w dir raw : settles (safe_path w dir raw).
Proof. unfold safe_path. destruct (disk_canonicalize w dir); [apply settles_Err|apply settles_Ok]. Qed.
Lemma ends_resolve dir raw w (Q : string → W → Prop) E :
  (∀ p, safe_path w dir raw = Ok p → Q p w) →
  (∀ text, safe_path w dir raw = Err text → E (path_error text) w) →
  ends (resolve dir raw) w Q E.
Proof.
  unfold ends, resolve. intros HQ HE. destruct (safe_path_settles w dir raw) as [[p Hp]|[e Hp]]; rewrite Hp; simpl; auto.
Qed.
Lemma ends_reject (c : bool) e w (Q : unit → W → Prop) E :
  (c = false → Q tt w) → (c = true → E e w) → ends (settle (reject_if c e)) w Q E.
Proof. unfold ends, settle. destruct c; simpl; auto. Qed.
Lemma ends_parent p w (Q : unit → W → Prop) E :
  (parent p = None → Q tt w) →
  (∀ d w', parent p = Some d → disk_create_dir_all d w = (None, w') → Q tt w') →
  (∀ d e w', parent p = Some d → disk_create_dir_all d w = (Some e, w') → E (io_error e) w') →
  ends (create_parent p) w Q E.
Proof.
  intros HN HQ HE. unfold create_parent. destruct (parent p) as [d|] eqn:Hp; [|by apply ends_ret, HN].
  apply ends_writing; eauto.
Qed.

(** One step of a change. *)
Ltac disk_step :=
  match goal with
  | |- ends (_ ≫= _) _ _ _ => apply disk_ends_bind
  | |- ends (mret _) _ _ _ => apply ends_ret
  | |- ends (observe _) _ _ _ => apply ends_observe
  | |- ends (settle (reject_if _ _)) _ _ _ => apply ends_reject; intros
  | |- ends (reading _) _ _ _ => apply ends_reading; intros
  | |- ends (writing _) _ _ _ => apply ends_writing; intros
  | |- ends (resolve _ _) _ _ _ => apply ends_resolve; intros
  | |- ends (create_parent _) _ _ _ => apply ends_parent; intros
  | |- ends (if ?b then _ else _) _ _ _ => destruct b eqn:?
  | |- ends (match ?m with Some _ => _ | None => _ end) _ _ _ => destruct m eqn:?
  end.

(** ** One change *)

(** The paths a change names. *)
Definition change_paths (c : PatchChange) : list string := pc_path c :: option_list (pc_move_path c).

(** The error of a change that was refused: not an error of the disk. *)
Definition refusal (e : PatchError) : bool :=
  negb (bool_decide (pe_kind e = "IoError")) && negb (bool_decide (pe_kind e = "PermissionDenied")).
Lemma io_error_no_refusal e : refusal (io_error e) = false.
Proof. unfold refusal, io_error. by destruct (fe_permission_denied e). Qed.

(** What the disk operations of a change must satisfy for [I] to be kept. *)
Record keeps (I : W → Prop) (p : string) : Prop := {
  ke_write : ∀ text w, I w → I (disk_write p text w).2;
  ke_remove : ∀ w, I w → I (disk_remove_file p w).2;
  ke_parent : ∀ d w, parent p = Some d → I w → I (disk_create_dir_all d w).2;
}.
(** [p] is a path that one of the named paths stands for, in a state of [I]. *)
Definition opened (I : W → Prop) (dir : string) (raws : list string) (p : string) : Prop :=
  ∃ w raw, I w ∧ raw ∈ raws ∧ safe_path w dir raw = Ok p.

Definition hunk_lines_ok (c : PatchChange) : Prop :=
  Forall (Forall (λ l, is_hunk_line l = true)) (pc_hunks c).
Lemma well_formed_hunks c : well_formed c → hunk_lines_ok c.
Proof.
  intros [[_ _ _ _ Hh] _ _]. eapply Forall_impl; [exact Hh|]. intros h Hok.
  apply Forall_forall. intros l Hl. unfold hunk_ok in Hok. rewrite forallb_forall in Hok.
  by apply list_elem_of_In, Hok, andb_true_iff in Hl as [? _].
Qed.
Lemma hunks_settle c original readback :
  hunk_lines_ok c →
  settles (map_err (context_mismatch c) (apply_hunks_with_delta original (pc_hunks c) readback)).
Proof.
  intros Hc. apply settles_map_err. pose proof (apply_hunks_spec original (pc_hunks c) readback Hc) as Hs.
  destruct (apply_hunks_with_delta _ _ _) as [?|?| |]; [apply settles_Ok|apply settles_Err|done|done].
Qed.

(** What a change reports once it is applied, and the kinds of a change. *)
Definition reported (c : PatchChange) (before after : option string) (delta : option Value) : Value :=
  let applied_change := value_set "preimage_sha256" (json_opt_string before) (patch_change_value c) in
  let applied_change := value_set "postimage_sha256" (json_opt_string after) applied_change in
  match delta with
  | Some delta => value_set "source_delta" delta applied_change
  | None => applied_change
  end.
Lemma apply_change_cases c dir reads w Q E :
  (∀ p, safe_path w dir (pc_path c) = Ok p →
     (pc_kind c = "delete"%string →
        ends (delete_change c p) w (λ ids, Q (reported c ids.1 ids.2 None)) E)
   ∧ (pc_kind c = "add"%string →
        ends (add_change c p) w (λ ids, Q (reported c ids.1 ids.2 None)) E)
   ∧ (pc_kind c = "update"%string →
        ends (update_change c dir p reads) w (λ ids, Q (reported c ids.1.1 ids.1.2 ids.2)) E)
   ∧ (pc_kind c ≠ "delete"%string → pc_kind c ≠ "add"%string → pc_kind c ≠ "update"%string →
      E {| pe_kind := "ParseError"; pe_message := "unsupported patch change kind: " +:+ pc_kind c;
           pe_failed_change := Some (patch_change_value c) |} w)) →
  (∀ text, safe_path w dir (pc_path c) = Err text → E (path_error text) w) →
  ends (apply_change c dir reads) w Q E.
Proof.
  intros Hk Hp. unfold apply_change. disk_step. apply ends_resolve; [|done]. intros p Hpath.
  destruct (Hk p Hpath) as (Hd & Ha & Hu & He). apply disk_ends_bind.
  repeat case_bool_decide; [apply disk_ends_bind|apply disk_ends_bind| |].
  - specialize (Hd ltac:(done)). unfold ends in *. by destruct (delete_change c p w) as [[[? ?]|e| |] w'].
  - specialize (Ha ltac:(done)). unfold ends in *. by destruct (add_change c p w) as [[[? ?]|e| |] w'].
  - specialize (Hu ltac:(done)). unfold ends in *.
    by destruct (update_change c dir p reads w) as [[[[? ?] ?]|e| |] w'].
  - by apply He.
Qed.

(** The steps of a change, and that each keeps [I]. *)
Lemma kept_write I p text w r w' : keeps I p → I w → disk_write p text w = (r, w') → I w'.
Proof. intros [K _ _] Hw Heq. specialize (K text w Hw). by rewrite Heq in K. Qed.
Lemma kept_remove I p w r w' : keeps I p → I w → disk_remove_file p w = (r, w') → I w'.
Proof. intros [_ K _] Hw Heq. specialize (K w Hw). by rewrite Heq in K. Qed.
Lemma kept_parent I p d w r w' :
  keeps I p → parent p = Some d → I w → disk_create_dir_all d w = (r, w') → I w'.
Proof. intros [_ _ K] Hd Hw Heq. specialize (K d w Hd Hw). by rewrite Heq in K. Qed.
Ltac keep_steps I dir raws :=
  repeat disk_step;
  repeat match goal with
  | Hk : ∀ p, opened I dir raws p → keeps I p, Ho : opened I dir raws ?p |- _ =>
      lazymatch goal with Hq : keeps I p |- _ => fail | _ => pose proof (Hk p Ho) end
  | Hk : keeps I ?p, Hw : I ?w0, Heq : disk_write ?p _ ?w0 = (_, ?w1) |- _ =>
      pose proof (kept_write I p _ w0 _ w1 Hk Hw Heq); clear Heq
  | Hk : keeps I ?p, Hw : I ?w0, Heq : disk_remove_file ?p ?w0 = (_, ?w1) |- _ =>
      pose proof (kept_remove I p w0 _ w1 Hk Hw Heq); clear Heq
  | Hk : keeps I ?p, Hw : I ?w0, Hd : parent ?p = Some ?d, Heq : disk_create_dir_all ?d ?w0 = (_, ?w1) |- _ =>
      pose proof (kept_parent I p d w0 _ w1 Hk Hd Hw Heq); clear Heq
  end.

(** A change keeps what the operations on its paths keep. *)
Lemma change_keeps I c dir reads w raws :
  hunk_lines_ok c → (∀ raw, raw ∈ change_paths c → raw ∈ raws) →
  (∀ p, opened I dir raws p → keeps I p) → I w →
  ends (apply_change c dir reads) w (λ _, I) (λ _, I).
Proof.
  intros Hc Hraws Hkeeps Hw.
  apply apply_change_cases; [|done]. intros p Hp.
  assert (Hopen : opened I dir raws p).
  { exists w, (pc_path c). split_and!; [done| |done]. apply Hraws. by left. }
  split_and!; [| | |done]; intros _.
  - unfold delete_change. by keep_steps I dir raws.
  - unfold add_change. by keep_steps I dir raws.
  - unfold update_change. repeat disk_step; try done.
    apply ends_settle; [by apply hunks_settle| |by intros]. intros [updated delta] _.
    disk_step. disk_step; [|by keep_steps I dir raws]. disk_step; [|done].
    match goal with Hq : safe_path w dir _ = Ok ?q |- _ => assert (opened I dir raws q) end.
    { eexists w, _. split_and!; [done| |done]. apply Hraws. unfold change_paths. rewrite Heqo. right. by left. }
    by keep_steps I dir raws.
Qed.

(** A refused change leaves the disk as it was. *)
Lemma change_refused c dir reads w :
  hunk_lines_ok c →
  ends (apply_change c dir reads) w (λ _ _, True) (λ e w', refusal e = true → w' = w).
Proof.
  intros Hc.
  assert (Hio : ∀ (P : Prop) e, refusal (io_error e) = true → P) by (intros P e; by rewrite io_error_no_refusal).
  apply apply_change_cases; [|done]. intros p Hp. split_and!; [| | |done]; intros _.
  - unfold delete_change. repeat disk_step; try done; by eapply Hio.
  - unfold add_change. repeat disk_step; try done; by eapply Hio.
  - unfold update_change. repeat disk_step; try done; try (by eapply Hio).
    apply ends_settle; [by apply hunks_settle| |by intros]. intros [updated delta] _.
    repeat disk_step; try done; by eapply Hio.
Qed.

(** ** The batch *)

Definition attempt (c : PatchChange) (dir : string) (reads : list string) (w : W)
    (r : PatchError + Value) (w' : W) : Prop :=
  apply_change c dir reads w = (match r with inl e => Err e | inr v => Ok v end, w').
(** Every change is tried, in order, whatever became of the earlier ones. *)
Inductive attempts (dir : string) (reads : list string)
    : list PatchChange → W → list (PatchError + Value) → W → Prop :=
| attempts_nil w : attempts dir reads [] w [] w
| attempts_cons c cs w r w1 rs w' :
    attempt c dir reads w r w1 → attempts dir reads cs w1 rs w' → attempts dir reads (c :: cs) w (r :: rs) w'.

Definition successes (rs : list (PatchError + Value)) : list Value :=
  rs ≫= λ r, match r with inr v => [v] | inl _ => [] end.
Definition refusals (rs : list (PatchError + Value)) : list PatchError :=
  rs ≫= λ r, match r with inl e => [e] | inr _ => [] end.
(** A failure is reported as partial when an earlier change was applied. *)
Fixpoint failures (partial : bool) (rs : list (PatchError + Value)) : list Value :=
  match rs with
  | [] => []
  | inl e :: rest => failure_value e partial :: failures partial rest
  | inr _ :: rest => failures true rest
  end.

Lemma apply_changes_attempts cs dir reads : ∀ w applied failed,
  Forall hunk_lines_ok cs →
  ∃ rs w', attempts dir reads cs w rs w'
    ∧ apply_changes cs dir reads applied failed w
      = (Ok (applied ++ successes rs, failed ++ failures (negb (bool_decide (applied = []))) rs), w').
Proof.
  induction cs as [|c cs IH]; intros w applied failed Hcs; cbn [apply_changes].
  { exists [], w. rewrite !app_nil_r. split; [constructor|done]. }
  apply Forall_cons in Hcs as [Hc Hcs]. pose proof (change_refused c dir reads w Hc) as He. unfold ends in He.
  destruct (apply_change c dir reads w) as [[v|e| |] w1] eqn:Hrun; try done.
  - destruct (IH w1 (applied ++ [v]) failed Hcs) as (rs & w' & Ha & ->). exists (inr v :: rs), w'.
    split; [by econstructor|]. rewrite <- app_assoc, bool_decide_eq_false_2 by by destruct applied. done.
  - destruct (IH w1 applied (failed ++ [failure_value e (negb (bool_decide (applied = [])))]) Hcs)
      as (rs & w' & Ha & ->). exists (inl e :: rs), w'. split; [by econstructor|]. by rewrite <- app_assoc.
Qed.

Lemma attempts_keep I dir reads cs w rs w' raws :
  attempts dir reads cs w rs w' → Forall hunk_lines_ok cs →
  (∀ c raw, c ∈ cs → raw ∈ change_paths c → raw ∈ raws) →
  (∀ p, opened I dir raws p → keeps I p) → I w → I w'.
Proof.
  induction 1 as [|c cs w r w1 rs w' Hr _ IH]; intros Hcs Hraws Hk Hw; [done|].
  apply Forall_cons in Hcs as [Hc Hcs]. apply IH; [done| |done|].
  - intros c' raw Hc'. apply Hraws. by right.
  - pose proof (change_keeps I c dir reads w raws Hc) as Hkeep. unfold ends in Hkeep.
    rewrite Hr in Hkeep. destruct r; apply Hkeep; try done; intros raw; apply Hraws; by left.
Qed.

Lemma parsed_hunks text changes : parse_patch text = Ok changes → Forall hunk_lines_ok changes.
Proof.
  intros Hp. destruct (parsed_changes text changes Hp) as [_ Hwf].
  eapply Forall_impl; [exact Hwf|]. apply well_formed_hunks.
Qed.
Lemma value_remove_idem key v : value_remove key (value_remove key v) = value_remove key v.
Proof.
  destruct v as [| | | | |fields]; try done. simpl. f_equal. rewrite list_filter_filter.
  apply list_filter_iff. naive_solver.
Qed.
Lemma bound_batch_strip values :
  value_remove "source_delta" <$> bound_batch values = value_remove "source_delta" <$> values.
Proof.
  unfold bound_batch. destruct (delta_totals values) as [[bytes lines] files].
  destruct (_ || _); [|done]. rewrite <- list_fmap_compose. apply list_fmap_ext.
  intros ? ? _. apply value_remove_idem.
Qed.
Lemma failures_nil partial rs : failures partial rs = [] ↔ refusals rs = [].
Proof.
  revert partial. induction rs as [|[e|v] rs IH]; intros partial; [done|done|]. apply (IH true).
Qed.

Lemma length_failures partial rs : length (failures partial rs) = length (refusals rs).
Proof. revert partial. induction rs as [|[e|v] rs IH]; intros partial; simpl; [done|by rewrite IH|apply IH]. Qed.
Lemma failures_single partial rs e :
  refusals rs = [e] → ∃ partial', head (failures partial rs) = Some (failure_value e partial').
Proof.
  revert partial. induction rs as [|[e'|v] rs IH]; intros partial Hr; simpl in Hr |- *; [done| |by apply IH].
  injection Hr as -> _. by exists partial.
Qed.

(** The error of a batch: that of its change, if only one failed. *)
Definition batch_error_type (rs : list (PatchError + Value)) : string :=
  match refusals rs with [e] => pe_kind e | _ => "MultiplePatchFailures" end.
Lemma failure_kind e partial : text_field "error_type" "PatchFailed" (Some (failure_value e partial)) = pe_kind e.
Proof.
  unfold failure_value. destruct (pe_failed_change e) as [c|]; done.
Qed.

(** C25: a batch of changes: a patch that parses always ends in an answer; every
    change is tried once, in order, on the disk the earlier ones left, whether
    they were applied or not; the answer is a success exactly when all were
    applied, it lists the applied changes in order (their evidence perhaps
    left out), and else it lists every failed change with its error. *)
Theorem patch_batch text dir reads changes w :
  is_blank text = false → parse_patch text = Ok changes →
  ∃ rs w' response,
    execute_with_readback text dir reads w = (Ok response, w')
    ∧ attempts dir reads changes w rs w'
    ∧ (cr_success response = true ↔ refusals rs = [])
    ∧ value_remove "source_delta" <$> cr_changes response = value_remove "source_delta" <$> successes rs
    ∧ (refusals rs ≠ [] →
         cr_output response = json_object
           [("error_type", VString (batch_error_type rs));
            ("failed_changes", VArray (failures false rs))]%string).
Proof.
  intros Hblank Hp. destruct (apply_changes_attempts changes dir reads w [] [] (parsed_hunks _ _ Hp))
    as (rs & w' & Ha & Hrun).
  unfold execute_with_readback. rewrite Hblank, Hp, Hrun. cbn [mbind outcome_bind app].
  rewrite (bool_decide_eq_true_2 ([] = [])) by done. cbn [negb].
  eexists rs, w', _. split; [reflexivity|]. split; [done|]. rewrite <- (failures_nil false).
  destruct (bool_decide (failures false rs = [])) eqn:Hf; cbn [negb];
    [apply bool_decide_eq_true in Hf|apply bool_decide_eq_false in Hf].
  - split; [done|]. split; [apply bound_batch_strip|]. by intros [].
  - split; [done|]. split.
    + cbn [cr_changes failure_response]. rewrite <- list_fmap_compose. apply list_fmap_ext.
      intros ? ? _. apply value_remove_idem.
    + intros _. cbn [cr_output failure_response]. unfold batch_error_type.
      rewrite (length_failures false). destruct (refusals rs) as [|e [|e' es]] eqn:He.
      * by apply (failures_nil false) in He.
      * by destruct (failures_single false rs e He) as [partial ->]; rewrite failure_kind.
      * done.
Qed.

(** ** Refusals *)

(** Why a change is refused on the disk [w]. *)
Inductive refused (c : PatchChange) (p : string) (w : W) : PatchError → Prop :=
| refused_exists : pc_kind c = "add"%string → disk_exists w p = true → refused c p w (file_exists c)
| refused_delete :
    pc_kind c = "delete"%string → disk_exists w p = false → refused c p w (missing_file "DeleteFileNotFound" c)
| refused_update :
    pc_kind c = "update"%string → disk_exists w p = false → refused c p w (missing_file "UpdateFileNotFound" c)
| refused_context original message :
    pc_kind c = "update"%string → disk_exists w p = true → disk_read_to_string w p = inr original →
    (∀ lines, ¬ patched (str_lines original) (pc_hunks c) lines) →
    refused c p w (context_mismatch c message).
Lemma refused_not_io c p w e : refused c p w (io_error e) → False.
Proof.
  intros Hr. assert (refusal (io_error e) = true) as Hio by by inversion Hr.
  by rewrite io_error_no_refusal in Hio.
Qed.

Lemma well_formed_kind c :
  well_formed c → pc_kind c = "add"%string ∨ pc_kind c = "delete"%string ∨ pc_kind c = "update"%string.
Proof.
  intros [[Hk _ _ _ _] _ _]. unfold kind_ok in Hk. repeat case_bool_decide; auto; done.
Qed.
(** Closes the goals at the end of a change: it was applied, the disk failed,
    or it was refused. *)
Ltac unrefused :=
  let e := fresh in let Hr := fresh in
  intros e Hr; inversion Hr; simplify_eq; try congruence;
  match goal with H1 : ?x = inr _, H2 : ?x = inr _ |- _ => rewrite H1 in H2; injection H2 as ->; naive_solver end.
Ltac refusal_end :=
  repeat match goal with
  | H : negb _ = true |- _ => apply negb_true_iff in H
  | H : negb _ = false |- _ => apply negb_false_iff in H
  end;
  match goal with
  | |- ∀ e, ¬ refused _ _ _ e => unrefused
  | |- (refusal (io_error ?e) = true → _) ∧ _ =>
      split; [by rewrite io_error_no_refusal|];
      let e' := fresh in let Hr := fresh in intros [e' Hr]; exfalso; revert e' Hr; unrefused
  | |- (refusal (path_error ?e) = true → _) ∧ _ =>
      split; [done|]; let e' := fresh in let Hr := fresh in intros [e' Hr]; exfalso; revert e' Hr; unrefused
  | |- (refusal _ = true → _) ∧ _ => split; [intros _; by econstructor|done]
  end.
Lemma change_refusals c dir reads w p :
  well_formed c → safe_path w dir (pc_path c) = Ok p →
  ends (apply_change c dir reads) w (λ _ _, ∀ e, ¬ refused c p w e)
    (λ e w', (refusal e = true → refused c p w e) ∧ ((∃ e', refused c p w e') → refusal e = true)).
Proof.
  intros Hwf Hp. pose proof (well_formed_hunks c Hwf) as Hc. pose proof (well_formed_kind c Hwf) as Hkind.
  apply apply_change_cases; [|by intros text; rewrite Hp]. rewrite Hp. intros ? [= <-].
  split_and!; [| | |naive_solver]; intros Hk.
  - unfold delete_change. repeat disk_step; refusal_end.
  - unfold add_change. repeat disk_step; refusal_end.
  - unfold update_change. repeat disk_step; try refusal_end.
    apply ends_settle; [by apply hunks_settle| |].
    + intros [updated delta] Hok.
      pose proof (apply_hunks_spec a (pc_hunks c) (bool_decide (pc_move_path c = None) && existsb (path_eqb p) reads) Hc) as Hs.
      destruct (apply_hunks_with_delta _ _ _) as [[? ?]|?| |]; try done. destruct Hs as (lines & Hpatched & _).
      repeat disk_step; refusal_end.
    + intros e Hbad.
      pose proof (apply_hunks_spec a (pc_hunks c) (bool_decide (pc_move_path c = None) && existsb (path_eqb p) reads) Hc) as Hs.
      destruct (apply_hunks_with_delta _ _ _) as [[? ?]|?| |]; try done. injection Hbad as <-. refusal_end.
Qed.

(** Refusals: a blank command or a text that is no patch leaves the disk as it
    is; a change of a parsed patch is refused exactly when a file to add
    exists, a file to delete or update does not, or its hunks do not fit the
    file, and a refused change leaves the disk as it is; any other error comes
    from the disk. *)
Theorem refused_patch_no_effect text dir reads w :
  ((is_blank text = true ∨ ∃ e, parse_patch text = Err e) →
     ∃ response, execute_with_readback text dir reads w = (Ok response, w)
       ∧ (cr_success response = true ↔ is_blank text = true))
  ∧ ∀ changes c p, parse_patch text = Ok changes → c ∈ changes → safe_path w dir (pc_path c) = Ok p →
      ∃ r w', attempt c dir reads w r w'
        ∧ (∀ e, r = inl e → refusal e = true → refused c p w e ∧ w' = w)
        ∧ ((∃ e, refused c p w e) → ∃ e, r = inl e ∧ refusal e = true).
Proof.
  split.
  - unfold execute_with_readback. intros Hbad. destruct (is_blank text) eqn:Hb; [by eexists|].
    destruct Hbad as [|[e ->]]; [done|]. by eexists.
  - intros changes c p Hparse Hc Hp. destruct (parsed_changes _ _ Hparse) as [_ Hwf].
    rewrite Forall_forall in Hwf. specialize (Hwf c Hc).
    pose proof (change_refusals c dir reads w p Hwf Hp) as Hr.
    pose proof (change_refused c dir reads w (well_formed_hunks c Hwf)) as Hw.
    unfold ends, attempt in *. destruct (apply_change c dir reads w) as [[v|e| |] w']; try done.
    + exists (inr v), w'. split_and!; [done|by intros|]. intros [e He]. by destruct (Hr e).
    + destruct Hr as [Hr1 Hr2]. exists (inl e), w'. split_and!; [done| |intros Hex; exists e; auto].
      intros ? [= <-] Hrefusal. auto.
Qed.

(** ** Confinement

    The names a path stands for, once its dots are taken away, and what the
    test of [path_is_within_root] says of them. *)

(** A path whose dots are taken away component by component. *)
Lemma push_component_abs names c :
  Forall normal_name names → c ≠ RootDir → (∀ name, c = Normal name → normal_name name) →
  push_component (abs_text names) c = abs_text (step_component names c).
Proof.
  intros Hall Hr Hc. destruct c as [| | |name]; try done; simpl.
  - by apply pop_abs.
  - apply path_join_abs; [done|]. by apply Hc.
Qed.
Lemma push_components_abs cs : ∀ names,
  Forall normal_name names → RootDir ∉ cs → (∀ name, Normal name ∈ cs → normal_name name) →
  foldl push_component (abs_text names) cs = abs_text (foldl step_component names cs).
Proof.
  induction cs as [|c cs IH]; intros names Hall Hr Hn; [done|]. simpl.
  rewrite push_component_abs; [|done|set_solver|intros name ->; apply Hn, list_elem_of_here].
  apply IH; [|set_solver|intros name Hname; apply Hn; by right].
  destruct c; simpl; try done; [by apply removelast_Forall|]. apply Forall_app. split; [done|].
  constructor; [|done]. apply Hn, list_elem_of_here.
Qed.
Lemma normalize_lexical p : is_absolute p = true → normalize_path_lexically p = abs_text (lexical p).
Proof.
  intros Ha. unfold normalize_path_lexically, lexical.
  assert (components p = RootDir :: body (split_char slash p)) as Hc by (unfold components; by rewrite Ha).
  rewrite Hc. cbn [foldl push_component]. change (path_join "" (component_text RootDir)) with (abs_text []).
  apply push_components_abs; [constructor|apply body_no_root|].
  intros name Hname. apply (component_normal p). rewrite Hc. by right.
Qed.

Lemma comparable_abs names :
  Forall normal_name names → no_backslash names →
  comparable_path_string (abs_text names) = unix_text names.
Proof.
  intros Hall Hb. unfold comparable_path_string.
  rewrite replace_char_none by (by apply abs_text_backslash). rewrite no_verbatim by done. cbn [default].
  destruct names as [|n names]; [done|]. by apply trim_end_abs.
Qed.
Lemma within_root_names root names :
  Forall normal_name root → Forall normal_name names → no_backslash root → no_backslash names →
  path_is_within_root (abs_text names) (abs_text root) = true → root `prefix_of` names.
Proof.
  intros Hr Hn Hbr Hbn. unfold path_is_within_root.
  destruct (strip_path_prefix _ _) as [rel|] eqn:Hs.
  { intros _. apply strip_path_prefix_abs in Hs as (rest & -> & _); [by eexists|done..]. }
  rewrite !comparable_abs by done. destruct root as [|r root]; [intros _; apply prefix_nil|].
  intros [Heq%bool_decide_eq_true|Hw]%orb_true_iff.
  - destruct names as [|n names]; [done|]. apply abs_text_inj in Heq; [by rewrite Heq|done|done|..];
      by apply normal_no_slash.
  - apply starts_with_split in Hw as [rest Hrest]. destruct names as [|n names]; [done|].
    apply join_prefix; [done|done|by apply normal_no_slash..|]. right. exists rest.
    unfold unix_text, abs_text in Hrest. by injection Hrest.
Qed.

Lemma validate_each_inside w dir cs :
  validate_each w dir cs = Ok tt → ∀ c raw, c ∈ cs → raw ∈ change_paths c →
  validate_patch_path_within_session_dir w dir raw = Ok tt.
Proof.
  induction cs as [|c cs IH]; intros Hv c' raw Hc Hraw; [by apply not_elem_of_nil in Hc|].
  cbn [validate_each] in Hv. apply bind_Ok_inv in Hv as ([] & Hpath & Hv).
  apply bind_Ok_inv in Hv as ([] & Hmove & Hv). apply elem_of_cons in Hc as [->|Hc]; [|by eapply IH].
  unfold change_paths in Hraw. apply elem_of_cons in Hraw as [->|Hraw]; [done|].
  destruct (pc_move_path c); [|by apply not_elem_of_nil in Hraw]. apply list_elem_of_singleton in Hraw as ->. done.
Qed.

(** What is relied on of the disk: a canonical path is absolute, stands for
    itself, and still does when directories are made and files written; a path
    that exists has one.  A text that was written is read back; a path that was
    removed is gone; and removing a file leaves the text of a path that is not
    another name of it. *)
Class DiskLaws : Prop := {
  canonical_absolute r p w : disk_canonicalize w r = inr p → is_absolute p = true;
  canonical_fixed r p w : disk_canonicalize w r = inr p → disk_canonicalize w p = inr p;
  made_canonical d p w w' :
    disk_create_dir_all d w = (None, w') → disk_canonicalize w p = inr p → disk_canonicalize w' p = inr p;
  written_canonical q text p w w' :
    disk_write q text w = (None, w') → disk_canonicalize w p = inr p → disk_canonicalize w' p = inr p;
  exists_canonical p w : disk_exists w p = true → ∃ q, disk_canonicalize w p = inr q;
  written_reads p text w w' : disk_write p text w = (None, w') → disk_read_to_string w' p = inr text;
  removed_gone p w w' : disk_remove_file p w = (None, w') → disk_exists w' p = false;
  removed_other p q w w' :
    disk_remove_file p w = (None, w') → disk_canonicalize w p = inr p → disk_canonicalize w q ≠ inr p →
    disk_read_to_string w' q = disk_read_to_string w q;
}.

Lemma safe_path_absolute `{!DiskLaws} w dir raw p : safe_path w dir raw = Ok p → is_absolute p = true.
Proof.
  unfold safe_path. destruct (disk_canonicalize w dir) as [e|root] eqn:Hroot; [done|].
  assert (is_absolute (if is_absolute (patch_path raw) then patch_path raw else path_join root (patch_path raw)) = true)
    as Hjoin.
  { destruct (is_absolute (patch_path raw)) eqn:Ha; [done|]. apply canonical_absolute in Hroot.
    unfold is_absolute in Hroot. apply starts_with_spec in Hroot as [rest ->].
    unfold path_join. rewrite Ha. change (is_empty ("/" +:+ rest)) with false. cbn iota.
    by destruct (ends_with _ _); rewrite append_assoc; apply starts_with_spec; eexists. }
  cbv zeta. destruct (disk_canonicalize w (if is_absolute _ then _ else _)) as [e|q] eqn:Hq; intros [= <-]; [done|]. exact (canonical_absolute _ _ _ Hq).
Qed.
Lemma validated_inside `{!DiskLaws} w dir raw names p :
  validate_patch_path_within_session_dir w dir raw = Ok tt →
  disk_canonicalize w dir = inr (abs_text names) → Forall normal_name names → no_backslash names →
  safe_path w dir raw = Ok p → has_char backslash p = false → names `prefix_of` lexical p.
Proof.
  unfold validate_patch_path_within_session_dir. intros Hv Hroot Hall Hb Hp Hpb. rewrite Hroot, Hp in Hv.
  cbn [mbind outcome_bind] in Hv. rewrite (normalize_lexical p (safe_path_absolute _ _ _ _ Hp)) in Hv.
  destruct (path_is_within_root _ _) eqn:Hw; [|done].
  apply (within_root_names names); [done|apply lexical_normal|done|by apply lexical_lacks|done].
Qed.

Lemma execute_keeps text dir reads changes w I :
  parse_patch text = Ok changes → I w →
  (∀ p, opened I dir (changes ≫= change_paths) p → keeps I p) →
  settles (execute_with_readback text dir reads w).1
  ∧ I (execute_with_readback text dir reads w).2.
Proof.
  intros Hparse Hw Hkeeps. pose proof (parsed_hunks _ _ Hparse) as Hh. unfold execute_with_readback.
  destruct (is_blank text); [split; [apply settles_Ok|done]|]. rewrite Hparse.
  destruct (apply_changes_attempts changes dir reads w [] [] Hh) as (rs & w' & Ha & ->).
  cbn [mbind outcome_bind fst snd]. split; [apply settles_Ok|].
  eapply (attempts_keep I dir reads changes w rs w' (changes ≫= change_paths)); try done.
  intros c raw Hc Hraw. apply list_elem_of_bind. by exists c.
Qed.

(** C11: confinement: for a session directory and named paths whose canonical
    texts have no backslash: when a patch was validated on the disk it starts
    from, and the paths it names stand for the same paths as long as [I]
    holds, its run only writes and removes paths whose names, once the dots
    are resolved, begin with the names of the session directory, and makes
    their parents: every [I] that these operations keep holds at the end. *)
Theorem patch_confined `{!DiskLaws} text dir reads changes names w I :
  parse_patch text = Ok changes →
  validate_paths_within_session_dir w text dir = Ok tt →
  disk_canonicalize w dir = inr (abs_text names) → Forall normal_name names → no_backslash names →
  (∀ p raw, raw ∈ changes ≫= change_paths → safe_path w dir raw = Ok p → has_char backslash p = false) → I w →
  (∀ w' raw, I w' → raw ∈ changes ≫= change_paths → safe_path w' dir raw = safe_path w dir raw) →
  (∀ p raw, raw ∈ changes ≫= change_paths → safe_path w dir raw = Ok p →
     names `prefix_of` lexical p → keeps I p) →
  settles (execute_with_readback text dir reads w).1
  ∧ I (execute_with_readback text dir reads w).2.
Proof.
  intros Hparse Hv Hroot Hall Hb Hpb Hw Hsame Hin. apply (execute_keeps text dir reads changes); try done.
  intros p (w0 & raw & Hw0 & Hraw & Hp). rewrite (Hsame w0 raw Hw0 Hraw) in Hp. eapply Hin; [done|done|].
  unfold validate_paths_within_session_dir in Hv. rewrite Hparse in Hv. cbn [mbind outcome_bind] in Hv.
  specialize (Hpb p raw Hraw Hp). apply list_elem_of_bind in Hraw as (c & Hraw & Hc).
  by eapply validated_inside; [eapply validate_each_inside|..].
Qed.

(** ** Effects *)

Lemma value_get_value_set key v fields key' :
  value_get (value_set key v (VObject fields)) key'
  = if bool_decide (key = key') then Some v else value_get (VObject fields) key'.
Proof. simpl. rewrite map_insert_find. by case_bool_decide. Qed.

(** The digests a change reports. *)
Definition digests (v : Value) (before after : option string) : Prop :=
  value_get v "preimage_sha256" = Some (json_opt_string (sha256_hex <$> before))
  ∧ value_get v "postimage_sha256" = Some (json_opt_string (sha256_hex <$> after)).
(** The disk once the parents of [q] are made and [text] is written there. *)
Definition parents_made (q : string) (w : W) : W :=
  match parent q with Some d => (disk_create_dir_all d w).2 | None => w end.
Definition written (q text : string) (w : W) : W := (disk_write q text (parents_made q w)).2.
(** The file [p] is now the text at [q]: in its place; or it is gone, and the
    text stays at [q] when [q] was there before, or is, once written, not
    another name of [p]. *)
Definition rewritten (p q updated : string) (w w' : W) : Prop :=
  if bool_decide (components q = components p) then disk_read_to_string w' q = inr updated
  else disk_exists w' p = false
       ∧ (disk_exists w q = true ∨ disk_canonicalize (written q updated w) q ≠ inr p →
          disk_read_to_string w' q = inr updated).

(** What an applied change has done to the disk. *)
Definition takes_effect (c : PatchChange) (dir p : string) (w : W) (v : Value) (w' : W) : Prop :=
  (pc_kind c = "delete"%string ∧ ∃ original, disk_read w p = inr original
     ∧ disk_exists w' p = false ∧ digests v (Some original) None)
  ∨ (pc_kind c = "add"%string ∧ disk_exists w p = false
     ∧ disk_read_to_string w' p = inr (added_text c) ∧ digests v None (Some (added_text c)))
  ∨ (pc_kind c = "update"%string ∧ ∃ original lines q, disk_read_to_string w p = inr original
     ∧ patched (str_lines original) (pc_hunks c) lines
     ∧ match pc_move_path c with Some raw => safe_path w dir raw = Ok q | None => q = p end
     ∧ rewritten p q (patched_text original lines) w w'
     ∧ digests v (Some original) (Some (patched_text original lines))).

Lemma reported_digests c before after delta :
  digests (reported c (sha256_hex <$> before) (sha256_hex <$> after) delta) before after.
Proof.
  unfold digests, reported, patch_change_value.
  destruct (bool_decide (pc_kind c = "add")); destruct delta; unfold json_object;
    repeat (rewrite value_get_value_set || (cbn [value_set]; rewrite value_get_value_set)); done.
Qed.

Section Laws.
Context {Hlaws : DiskLaws}.

(** A path that resolved to one that exists is canonical. *)
Lemma safe_path_canonical w dir raw p :
  safe_path w dir raw = Ok p → disk_exists w p = true → disk_canonicalize w p = inr p.
Proof.
  unfold safe_path. destruct (disk_canonicalize w dir) as [e|root]; [done|]. intros Hp Hex.
  destruct (disk_canonicalize w (if is_absolute _ then _ else _)) as [e|q] eqn:Hq; injection Hp as <-; [|exact (canonical_fixed _ _ _ Hq)].
  apply exists_canonical in Hex as [q Hq']. by rewrite Hq' in Hq.
Qed.
Lemma rewritten_intro p q text w w0 w1 w' :
  match parent q with Some d => disk_create_dir_all d w = (None, w0) | None => w0 = w end →
  disk_write q text w0 = (None, w1) →
  (if negb (path_eqb q p) && disk_exists w1 p then disk_remove_file p w1 = (None, w') else w' = w1) →
  disk_canonicalize w p = inr p → (disk_exists w q = true → disk_canonicalize w q = inr q) →
  rewritten p q text w w'.
Proof.
  intros Hparent Hwrite Hr Hp Hq. pose proof (written_reads _ _ _ _ Hwrite) as Hread.
  assert (∀ x, disk_canonicalize w x = inr x → disk_canonicalize w1 x = inr x) as Hkept.
  { intros x Hx. eapply written_canonical; [done|].
    destruct (parent q); [by eapply made_canonical|by subst]. }
  assert (written q text w = w1) as Hw1.
  { unfold written, parents_made. destruct (parent q); [rewrite Hparent|subst w0]; by simpl; rewrite Hwrite. }
  unfold rewritten. rewrite Hw1. unfold path_eqb in Hr.
  destruct (bool_decide_reflect (components q = components p)) as [Heq|Heq]; cbn [negb andb] in Hr; [by subst|].
  destruct (disk_exists w1 p) eqn:Hex; [|by subst].
  split; [by eapply removed_gone|]. intros Hother.
  rewrite (removed_other p q w1 w' Hr (Hkept p Hp)); [done|]. destruct Hother as [Hthere|Hne]; [|done].
  rewrite (Hkept q (Hq Hthere)). congruence.
Qed.

Lemma update_effect c dir reads p w :
  pc_kind c = "update"%string → hunk_lines_ok c → safe_path w dir (pc_path c) = Ok p →
  ends (update_change c dir p reads) w (λ ids, takes_effect c dir p w (reported c ids.1.1 ids.1.2 ids.2))
    (λ _ _, True).
Proof.
  intros Hk Hc Hp. unfold update_change. repeat disk_step; try done.
  assert (disk_canonicalize w p = inr p) as Hcanon.
  { eapply safe_path_canonical; [exact Hp|]. by apply negb_false_iff. }
  apply ends_settle; [by apply hunks_settle| |done]. intros [updated delta] Hok.
  pose proof (apply_hunks_spec a (pc_hunks c) (bool_decide (pc_move_path c = None) && existsb (path_eqb p) reads) Hc) as Hs.
  destruct (apply_hunks_with_delta _ _ _) as [[? ?]|?| |]; try done. injection Hok as -> ->.
  destruct Hs as (lines & Hpatched & ->).
  repeat disk_step; try done.
  all: right; right; split; [done|]; eexists _, _, _; split_and!; [done|done| | |];
    [match goal with Hm : pc_move_path _ = _ |- _ => by rewrite Hm end
    |eapply rewritten_intro; [by match goal with Hd : parent _ = _ |- _ => rewrite Hd end|done| |done|
      by intros; (done || eapply safe_path_canonical)]
    |apply (reported_digests _ (Some _) (Some _))].
  all: match goal with Hb : _ && _ = _ |- _ => by rewrite Hb end.
Qed.

(** C24: effects: on a disk that keeps what is written, an applied change
    has done what it says: a deleted file is gone; an added file was not
    there and has the added lines; an updated file had a text its hunks fit,
    and the edited text is where the file was; or, when it was moved to
    another path, it is gone from its old place and the edited text is at
    the new one, if that was there before the change or is, once written,
    not another name of the moved file; the digests reported are those of
    the text before and after. *)
Theorem applied_change_takes_effect text changes c dir reads w v w' :
  parse_patch text = Ok changes → c ∈ changes → attempt c dir reads w (inr v) w' →
  ∃ p, safe_path w dir (pc_path c) = Ok p ∧ takes_effect c dir p w v w'.
Proof.
  intros Hparse Hc Hrun. pose proof (parsed_hunks _ _ Hparse) as Hh. rewrite Forall_forall in Hh.
  specialize (Hh c Hc).
  assert (ends (apply_change c dir reads) w
            (λ v w', ∃ p, safe_path w dir (pc_path c) = Ok p ∧ takes_effect c dir p w v w') (λ _ _, True)) as He.
  { apply apply_change_cases; [|done]. intros p Hp. split_and!; [| | |done]; intros Hk.
    - unfold delete_change. repeat disk_step; try done. exists p. split; [done|]. left. split; [done|].
      eexists. split_and!; [done|by eapply removed_gone|apply (reported_digests c (Some a) None None)..].
    - unfold add_change. repeat disk_step; try done; exists p; (split; [done|]); right; left;
        (split_and!; [done|done|by eapply written_reads|apply (reported_digests c None (Some _) None)..]).
    - pose proof (update_effect c dir reads p w Hk Hh) as Hu. unfold ends in *.
      specialize (Hu Hp). destruct (update_change c dir p reads w) as [[ids|e| |] w1]; [by exists p|done..]. }
  unfold ends in He. by rewrite Hrun in He.
Qed.
End Laws.
End Files.
