(* ===== verification/PatchExamples.v ===== *)
(** * A disk: directories and files in a map, by their canonical paths

    An instance of [Disk] that keeps the laws of [PatchFilesFacts.DiskLaws]:
    a path is walked from the root, and every directory on its way must
    exist, also below a [..]. *)

From stdpp Require Import base list strings gmap sorting pretty.
From Stdlib Require Import ZArith Lia Ascii.
From S2P Require Import Prelude RustStd Externals Instances TaskData TaskIdentity StoreInstances.
From S2P Require Import RustText RustPath JSpaceJson JSpaceInstances FileLocks PatchParse PatchApply.
From S2P Require Import CommandPathFacts PatchFiles PatchParseFacts PatchApplyFacts PatchFilesFacts.
Local Open Scope nat_scope.

Record Tree := { tr_dirs : gset string; tr_files : gmap string string }.

Fixpoint walk (t : Tree) (here : string) (parts : list Component) : option string :=
  match parts with
  | [] => Some here
  | Normal name :: rest => if decide (here ∈ tr_dirs t) then walk t (path_join here name) rest else None
  | ParentDir :: rest => if decide (here ∈ tr_dirs t) then walk t (pop here) rest else None
  | _ :: rest => walk t here rest
  end.
Definition locate (t : Tree) (p : string) : option string := walk t "/" (components p).
Definition not_found : FileError := {| fe_permission_denied := false; fe_text := "No such file or directory" |}.
Definition is_directory : FileError := {| fe_permission_denied := false; fe_text := "Is a directory" |}.

Definition canonical (t : Tree) (p : string) : FileError + string :=
  match locate t p with
  | Some l => if decide (l ∈ tr_dirs t ∨ is_Some (tr_files t !! l)) then inr l else inl not_found
  | None => inl not_found
  end.
Definition exists_at (t : Tree) (p : string) : bool :=
  match canonical t p with inr _ => true | inl _ => false end.
Definition read_at (t : Tree) (p : string) : FileError + string :=
  match locate t p with
  | Some l => match tr_files t !! l with Some text => inr text | None => inl not_found end
  | None => inl not_found
  end.
Definition write_at (p text : string) (t : Tree) : option FileError * Tree :=
  match locate t p with
  | Some l => if decide (l ∈ tr_dirs t) then (Some is_directory, t)
              else (None, {| tr_dirs := tr_dirs t; tr_files := <[l := text]> (tr_files t) |})
  | None => (Some not_found, t)
  end.
Definition remove_at (p : string) (t : Tree) : option FileError * Tree :=
  match locate t p with
  | Some l => if decide (l ∈ tr_dirs t) then (Some is_directory, t)
              else match tr_files t !! l with
                   | Some _ => (None, {| tr_dirs := tr_dirs t; tr_files := delete l (tr_files t) |})
                   | None => (Some not_found, t)
                   end
  | None => (Some not_found, t)
  end.
(** [create_dir_all]: the directories on the way are made one after the other. *)
Fixpoint make_dirs (t : Tree) (here : string) (parts : list Component) : option FileError * Tree :=
  match parts with
  | [] => (None, t)
  | Normal name :: rest =>
      let here := path_join here name in
      if decide (is_Some (tr_files t !! here)) then (Some is_directory, t)
      else make_dirs {| tr_dirs := {[here]} ∪ tr_dirs t; tr_files := tr_files t |} here rest
  | ParentDir :: rest => make_dirs t (pop here) rest
  | _ :: rest => make_dirs t here rest
  end.

Definition tree_disk : Disk Tree := {|
  disk_canonicalize := canonical;
  disk_exists := exists_at;
  disk_read := read_at;
  disk_read_to_string := read_at;
  disk_write := write_at;
  disk_remove_file := remove_at;
  disk_create_dir_all p t := make_dirs t "/" (components p);
|}.

(** Walking depends on the directories only. *)
Lemma walk_dirs t t' here parts : tr_dirs t = tr_dirs t' → walk t here parts = walk t' here parts.
Proof. intros Hd. revert here. induction parts as [|[] rest IH]; intros here; simpl; rewrite ?Hd; repeat case_decide; auto. Qed.
Lemma locate_dirs t t' p : tr_dirs t = tr_dirs t' → locate t p = locate t' p.
Proof. apply walk_dirs. Qed.

(** A walk ends at canonical names, whose parents are directories; and walking
    along them ends there too. *)
Definition reached_at (t : Tree) (names : list string) : Prop :=
  Forall normal_name names ∧ ∀ above n below, names = above ++ n :: below → abs_text above ∈ tr_dirs t.
Lemma reached_down t names name :
  reached_at t names → normal_name name → abs_text names ∈ tr_dirs t → reached_at t (names ++ [name]).
Proof.
  intros [Hall Hdirs] Hn Hin. split; [by rewrite Forall_app, Forall_singleton|].
  intros above n below Heq. destruct below as [|b below _] using rev_ind.
  - by apply app_inj_tail in Heq as [-> _].
  - rewrite app_comm_cons, app_assoc in Heq. apply app_inj_tail in Heq as [-> _]. by eapply Hdirs.
Qed.
Lemma reached_up t names : reached_at t names → reached_at t (removelast names).
Proof.
  intros [Hall Hdirs]. split; [by apply removelast_Forall|].
  destruct names as [|name names _] using rev_ind; [by intros []|]. rewrite removelast_last.
  intros above n below ->. apply (Hdirs above n (below ++ [name])). by rewrite <- app_assoc.
Qed.
Lemma walk_reached t parts : ∀ names l,
  reached_at t names → (∀ name, Normal name ∈ parts → normal_name name) →
  walk t (abs_text names) parts = Some l → ∃ names', l = abs_text names' ∧ reached_at t names'.
Proof.
  induction parts as [|c parts IH]; intros names l Hr Hn Hw; [injection Hw as <-; eauto|].
  assert (∀ name, Normal name ∈ parts → normal_name name) as Hn' by (intros name Hin; apply Hn; by right).
  destruct c as [| | |name]; simpl in Hw; [by eapply IH..| |]; (case_decide; [|done]).
  - rewrite pop_abs in Hw by apply Hr. by eapply IH; [apply reached_up| |].
  - assert (normal_name name) as Hname by apply Hn, list_elem_of_here.
    rewrite path_join_abs in Hw by (done || apply Hr). by eapply IH; [apply reached_down| |].
Qed.
Lemma locate_reached t r l : locate t r = Some l → ∃ names, l = abs_text names ∧ reached_at t names.
Proof.
  apply (walk_reached t (components r) []); [split; [constructor|by intros []]|].
  intros name. apply component_normal.
Qed.
Lemma walk_names t below : ∀ names,
  reached_at t (names ++ below) → walk t (abs_text names) (Normal <$> below) = Some (abs_text (names ++ below)).
Proof.
  induction below as [|n below IH]; intros names Hr; [by rewrite app_nil_r|]. simpl.
  pose proof Hr as [[Hall [Hn _]%Forall_cons]%Forall_app Hdirs].
  rewrite decide_True by (by eapply Hdirs). rewrite path_join_abs by done.
  replace (names ++ n :: below) with ((names ++ [n]) ++ below) in * by (by rewrite <- app_assoc).
  by apply IH.
Qed.
Lemma locate_names t names : reached_at t names → locate t (abs_text names) = Some (abs_text names).
Proof. intros Hr. unfold locate. rewrite components_abs by apply Hr. by apply (walk_names t names []). Qed.

(** Directories and files that are added leave what is there. *)
Definition grown (t t' : Tree) : Prop :=
  tr_dirs t ⊆ tr_dirs t' ∧ ∀ l, is_Some (tr_files t !! l) → is_Some (tr_files t' !! l).
Lemma walk_grown t t' here parts l : grown t t' → walk t here parts = Some l → walk t' here parts = Some l.
Proof.
  intros Hg. revert here. induction parts as [|[] parts IH]; intros here; simpl; auto;
    (case_decide as Hin; [|done]); apply Hg in Hin; rewrite decide_True by done; apply IH.
Qed.
Lemma canonical_grown t t' p : grown t t' → canonical t p = inr p → canonical t' p = inr p.
Proof.
  intros Hg. unfold canonical, locate. destruct (walk t "/" (components p)) as [l|] eqn:Hl; [|done].
  case_decide as Hin; [|done]. intros [= ->]. rewrite (walk_grown _ _ _ _ _ Hg Hl).
  rewrite decide_True; [done|]. destruct Hg as [Hd Hf]. destruct Hin; auto.
Qed.
Lemma make_dirs_grown parts : ∀ t here t', make_dirs t here parts = (None, t') → grown t t'.
Proof.
  induction parts as [|c parts IH]; intros t here t' Hm; [injection Hm as <-; by split|].
  destruct c as [| | |name]; simpl in Hm; [by eapply IH..|]. case_decide; [done|].
  apply IH in Hm as [Hd Hf]. split; [|done]. simpl in Hd. set_solver.
Qed.

Lemma tree_laws : DiskLaws (H:=tree_disk).
Proof.
  assert (∀ r p w, canonical w r = inr p →
            ∃ names, p = abs_text names ∧ reached_at w names ∧ (p ∈ tr_dirs w ∨ is_Some (tr_files w !! p))) as Hcanon.
  { intros r p w. unfold canonical. destruct (locate w r) as [l|] eqn:Hl; [|done].
    case_decide; [|done]. intros [= <-]. apply locate_reached in Hl as (names & -> & Hr). by exists names. }
  split; simpl.
  - by intros r p w (names & -> & _)%Hcanon.
  - intros r p w (names & -> & Hr & Hin)%Hcanon. unfold canonical. rewrite locate_names by done. by rewrite decide_True.
  - intros d p w w' Hm%make_dirs_grown. by apply canonical_grown.
  - intros q text p w w'. unfold write_at. destruct (locate w q) as [l|]; [|done]. case_decide; [done|].
    intros [= <-]. apply canonical_grown. split; [done|]. simpl. intros k Hk.
    destruct (decide (l = k)) as [->|Hne]; [rewrite lookup_insert_eq; by eexists|by rewrite lookup_insert_ne].
  - intros p w. unfold exists_at. destruct (canonical w p) as [e|q]; [done|]. by exists q.
  - intros p text w w'. unfold write_at, read_at. destruct (locate w p) as [l|] eqn:Hl; [|done].
    case_decide; [done|]. intros [= <-]. rewrite (locate_dirs _ w) by done. rewrite Hl. simpl.
    by rewrite lookup_insert_eq.
  - intros p w w'. unfold remove_at, exists_at, canonical. destruct (locate w p) as [l|] eqn:Hl; [|done].
    case_decide; [done|]. destruct (tr_files w !! l); [|done]. intros [= <-].
    rewrite (locate_dirs _ w) by done. rewrite Hl. simpl. rewrite lookup_delete_eq.
    case_decide as Hd; [|done]. by destruct Hd as [?|[? ?]].
  - intros p q w w'. unfold remove_at, canonical, read_at. destruct (locate w p) as [l|] eqn:Hl; [|done].
    case_decide; [done|]. destruct (tr_files w !! l) eqn:Hf; [|done]. intros [= <-].
    case_decide; [|done]. intros [= ->] Hq. rewrite (locate_dirs _ w) by done.
    destruct (locate w q) as [k|]; [|done]. simpl. destruct (decide (k = p)) as [->|Hne].
    + case_decide; naive_solver.
    + by rewrite lookup_delete_ne.
Qed.

(** ** [apply_patch] on a concrete disk

    The tests of [apply_patch/tests/mod.rs], evaluated; what happens to
    files of an unusual form; and the theorems on patches at concrete inputs. *)

Local Open Scope string_scope.
Local Open Scope list_scope.

#[local] Existing Instances json_z json_text sha_poly number_reader tree_disk tree_laws.

Definition workspace (files : list (string * string)) : Tree :=
  {| tr_dirs := {["/"%string; "/w"%string]}; tr_files := list_to_map files |}.
Definition patch (lines : list string) : string := text_lines (BEGIN_PATCH :: lines ++ [END_PATCH]).
Definition unix (lines : list string) : string := String.concat "" ((λ l, l +:+ newline_text) <$> lines).
Definition dos (lines : list string) : string := String.concat "" ((λ l, l +:+ crlf_text) <$> lines).

(** Whether the run was a success, the error it names, and the texts it
    leaves at some paths of [/w]. *)
Definition run_patch (text : string) (files : list (string * string)) (paths : list string)
    : option (bool * string * list (option string)) :=
  let '(r, t) := execute text "/w" (workspace files) in
  match r with
  | Ok response =>
      Some (cr_success response, default ""%string (value_get (cr_output response) "error_type" ≫= as_str),
            (λ p, tr_files t !! (path_join "/w" p)) <$> paths)
  | _ => None
  end.
Definition updating (path : string) (hunks : list string) : list string :=
  ("*** Update File: " +:+ path) :: hunks.

(** ** The tests of the source *)

Example tests_that_apply :
  run_patch (patch ["*** Add File: checked.txt"; "+ok"]) [] ["checked.txt"]
  = Some (true, "", [Some (unix ["ok"])])
  ∧ run_patch (patch (updating "app.txt" ["@@"; " alpha"; "-old"; "+new"; " omega"]))
      [("/w/app.txt", dos ["alpha"; "old"; "omega"])] ["app.txt"]
    = Some (true, "", [Some (dos ["alpha"; "new"; "omega"])])
  ∧ run_patch (patch (updating "app.txt" ["@@"; " alpha"; "-old"; "+new"; " omega"]))
      [("/w/app.txt", unix ["alpha  "; "old "; "omega"])] ["app.txt"]
    = Some (true, "", [Some (unix ["alpha  "; "new"; "omega"])])
  ∧ run_patch (patch (updating "app.txt" ["@@"; " say 'hello'"; "-old - value"; "+new - value"]))
      [("/w/app.txt", unix ["say ‘hello’"; "old – value"])] ["app.txt"]
    = Some (true, "", [Some (unix ["say ‘hello’"; "new - value"])])
  ∧ run_patch (patch (updating "app.txt" ["@@"; "-old-a"; "+new-a"; "@@"; "-old-b"; "+new-b"]))
      [("/w/app.txt", unix ["one"; "old-a"; "middle"; "old-b"; "end"])] ["app.txt"]
    = Some (true, "", [Some (unix ["one"; "new-a"; "middle"; "new-b"; "end"])])
  ∧ run_patch (patch ["*** Add File: empty.txt"; "+"; "*** Delete File: empty.txt"]) [] ["empty.txt"]
    = Some (true, "", [None])
  ∧ run_patch (patch ["*** Update File: app.txt"; "*** Move to: moved.txt"; "@@"; "-old"; "+new"])
      [("/w/app.txt", dos ["old"]); ("/w/moved.txt", unix ["different destination"])] ["app.txt"; "moved.txt"]
    = Some (true, "", [None; Some (dos ["new"])])
  ∧ run_patch (patch (updating "app.txt" ["@@"; "-old"; "+middle"] ++ updating "app.txt" ["@@"; "-middle"; "+new"]))
      [("/w/app.txt", "old")] ["app.txt"]
    = Some (true, "", [Some "new"])
  ∧ run_patch (patch ["*** Update File: app.txt"]) [("/w/app.txt", unix ["unchanged"])] ["app.txt"]
    = Some (true, "", [Some (unix ["unchanged"])])
  ∧ run_patch (patch (updating "app.txt" ["@@"; "-old"; "+new"; "*** End of File"; "*** Add File: other.txt"; "+ok"]))
      [("/w/app.txt", unix ["old"])] ["app.txt"; "other.txt"]
    = Some (true, "", [Some (unix ["new"]); Some (unix ["ok"])]).
Proof. by vm_compute. Qed.

Example tests_that_fail :
  run_patch (patch (updating "app.txt" ["@@"; "-old"; "+new"; "@@"; "-missing"; "+rejected"]))
    [("/w/app.txt", unix ["old"; "actual"])] ["app.txt"]
  = Some (false, "ContextMismatch", [Some (unix ["old"; "actual"])])
  ∧ run_patch (patch (updating "first.txt" ["@@"; "-old"; "+new"] ++ updating "second.txt" ["@@"; "-missing"; "+value"]
                      ++ updating "third.txt" ["@@"; "-old"; "+new"]))
      [("/w/first.txt", unix ["old"]); ("/w/second.txt", unix ["actual"]); ("/w/third.txt", unix ["old"])]
      ["first.txt"; "second.txt"; "third.txt"]
    = Some (false, "ContextMismatch", [Some (unix ["new"]); Some (unix ["actual"]); Some (unix ["new"])])
  ∧ run_patch (text_lines ["*** Add File: app.txt"; "+ok"; END_PATCH]) [] ["app.txt"] = Some (false, "ParseError", [None])
  ∧ run_patch (text_lines [BEGIN_PATCH; "*** Add File: app.txt"; "+ok"]) [] ["app.txt"]
    = Some (false, "ParseError", [None])
  ∧ run_patch (patch (updating "app.txt" ["-old"; "+new"])) [("/w/app.txt", unix ["old"])] ["app.txt"]
    = Some (false, "ParseError", [Some (unix ["old"])])
  ∧ run_patch (patch (updating "missing.txt" ["@@"; "-old"; "+new"])) [] [] = Some (false, "UpdateFileNotFound", [])
  ∧ run_patch (patch ["*** Delete File: missing.txt"]) [] [] = Some (false, "DeleteFileNotFound", [])
  ∧ run_patch (patch ["*** Add File: app.txt"; "+new"]) [("/w/app.txt", unix ["old"])] ["app.txt"]
    = Some (false, "AddFileExists", [Some (unix ["old"])])
  ∧ run_patch (patch ["*** Update File: app.txt"; "*** Move to: ."; "@@"; "-old"; "+new"])
      [("/w/app.txt", unix ["old"])] ["app.txt"]
    = Some (false, "IoError", [Some (unix ["old"])]).
Proof. by vm_compute. Qed.

(** A file that is moved to another name of itself is gone: the destination
    [a/../app.txt] does not resolve before [a] is made, so that it differs from
    the source; it is written, and then the source, the same file, removed. *)
Example moved_onto_itself :
  run_patch (patch ["*** Update File: app.txt"; "*** Move to: a/../app.txt"; "@@"; "-old"; "+new"])
    [("/w/app.txt", unix ["old"])] ["app.txt"]
  = Some (true, "", [None]).
Proof. by vm_compute. Qed.
(** The test of confinement reads a backslash as a separator, also where it is a
    byte of a name: a file beside the session directory passes for one inside. *)
Example backslash_escapes_confinement :
  let text := patch ["*** Add File: /w\evil"; "+x"] in
  validate_paths_within_session_dir (workspace []) text "/w" = Ok tt
  ∧ lexical "/w\evil" = ["w\evil"]
  ∧ tr_files (execute text "/w" (workspace [])).2 !! "/w\evil"%string = Some (unix ["x"]).
Proof. by vm_compute. Qed.
(** A file of one empty line is written back as an empty file. *)
Example empty_line_lost :
  run_patch (patch (updating "app.txt" [])) [("/w/app.txt", newline_text)] ["app.txt"]
  = Some (true, "", [Some ""]).
Proof. by vm_compute. Qed.
(** One [\r\n] makes every line end in [\r\n]. *)
Example mixed_line_ends :
  run_patch (patch (updating "app.txt" ["@@"; "-x"; "+y"]))
    [("/w/app.txt", unix ["a"; "b"; "c"] +:+ dos ["x"])] ["app.txt"]
  = Some (true, "", [Some (dos ["a"; "b"; "c"; "y"])]).
Proof. by vm_compute. Qed.

(** ** The theorems at concrete inputs *)

Definition sample : PatchChange :=
  {| pc_kind := "update"; pc_path := "a.txt"; pc_move_path := None;
     pc_hunks := [[" keep"; "-old"; "+new"]]; pc_lines := [] |}.
Definition sample_text : string := patch (updating "a.txt" ["@@"; " keep"; "-old"; "+new"]).
Definition sample_tree : Tree := workspace [("/w/a.txt", unix ["keep"; "old"]); ("/secret", "s")].
Definition sample_end : outcome PatchError Value * Tree := apply_change sample "/w" [] sample_tree.
Definition sample_value : Value := match sample_end.1 with Ok v => v | _ => Null end.

Lemma sample_parsed : parse_patch sample_text = Ok [sample].
Proof. by vm_compute. Qed.
Lemma sample_well_formed : well_formed sample.
Proof.
  split; [split|..]; try by vm_compute.
  all: repeat (apply Forall_nil_2 || (apply Forall_cons_2; [done|])).
Qed.
Lemma sample_attempt : attempt sample "/w" [] sample_tree (inr sample_value) sample_end.2.
Proof. by vm_compute. Qed.

Lemma patch_print_parse_witness : parse_patch (print_patch [sample]) = Ok [sample].
Proof.
  apply (patch_print_parse [sample]); [done|]. apply Forall_singleton, sample_well_formed.
Defined.

(** A reader of one kind of JSON text, an object with one string. *)
Fixpoint decode (s : string) : string :=
  match s with
  | String a rest =>
      match rest with
      | String b s' =>
          if Ascii.eqb a backslash && Ascii.eqb b (ascii_of_nat 110) then String lf (decode s')
          else String a (decode rest)
      | EmptyString => s
      end
  | EmptyString => s
  end.
Definition quoted (s : string) : string := String quote_char (s +:+ String quote_char "").
Definition one_string_json : SerdeJson (H:=json_z) := {|
  quote := quote (SerdeJson:=json_text);
  from_str t :=
    if has_char lf t then None
    else inner ← strip_prefix ("{" +:+ quoted "patch" +:+ ":" +:+ String quote_char "") t;
         body ← strip_suffix (String quote_char "}") inner;
         Some (VObject [("patch"%string, VString (decode body))]);
|}.
Lemma one_string_lines : JsonLines (H0:=one_string_json).
Proof.
  intros t v Hv. cbn [from_str one_string_json] in Hv. destruct (has_char lf t) eqn:Hlf; [done|].
  apply bind_Some in Hv as (inner & ->%strip_prefix_Some & _).
  rewrite split_inclusive_last by done. by apply Forall_singleton.
Qed.

Definition wrapped_sample : string :=
  "{" +:+ quoted "patch" +:+ ":" +:+ quoted (join "\n" ([BEGIN_PATCH] ++ updating "a.txt" ["@@"; " keep"; "-old"; "+new"] ++ [END_PATCH]))
  +:+ "}".
Lemma executed_patch_is_admitted_witness :
  let command_line := "apply_patch " +:+ newline_text +:+ sample_text in
  let arguments := VObject [("patch"%string, VString sample_text)] in
  parse_patch (patch_text_from_payload (H0:=one_string_json) (patch_payload command_line)) = Ok [sample]
  ∧ parse_patch (patch_text_from_payload (H0:=one_string_json) (patch_payload wrapped_sample)) = Ok [sample]
  ∧ parse_patch (patch_text_from_payload (H0:=one_string_json) (Function arguments)) = Ok [sample].
Proof.
  intros command_line arguments. pose proof one_string_lines.
  split; [|split].
  - rewrite (proj1 (executed_patch_is_admitted command_line arguments sample_text)). by vm_compute.
  - rewrite (proj1 (executed_patch_is_admitted wrapped_sample arguments sample_text)). by vm_compute.
  - rewrite (proj2 (executed_patch_is_admitted command_line arguments sample_text)); by vm_compute.
Defined.

Lemma hunks_applied_witness :
  ∃ lines, patched (str_lines (unix ["keep"; "old"])) (pc_hunks sample) lines
    ∧ unix ["keep"; "new"] = patched_text (unix ["keep"; "old"]) lines.
Proof.
  apply (hunks_applied (unix ["keep"; "old"]) (pc_hunks sample) false (unix ["keep"; "new"])).
  - repeat (apply Forall_nil_2 || apply Forall_cons_2); done.
  - exists None. by vm_compute.
Defined.

Lemma line_ends_kept_witness :
  ∃ edited, patched ["keep"; "old"] (pc_hunks sample) edited
    ∧ dos ["keep"; "new"] = if is_empty (join (eol_of true) edited) then ""%string
                            else file_text (eol_of true) edited true.
Proof.
  apply (line_ends_kept true ["keep"; "old"] true (pc_hunks sample) false (dos ["keep"; "new"]) None);
    try done; try (by vm_compute); try (by left).
  all: repeat (apply Forall_nil_2 || apply Forall_cons_2); done.
Defined.

Lemma evidence_replays_witness :
  ∃ hunks, hunks ≠ [] ∧ replay_from (split_inclusive (unix ["keep"; "old"])) 0 hunks = unix ["keep"; "new"].
Proof.
  destruct (from_applied_buffers (unix ["keep"; "old"]) (unix ["keep"; "new"]) [(0, 2, ["keep"; "new"])])
    as [value|] eqn:Hv; [|by vm_compute in Hv].
  destruct (evidence_replays _ _ _ _ Hv) as (hunks & _ & Hne & _ & Hr & _). by exists hunks.
Defined.

Lemma patch_batch_witness :
  ∃ rs w' response, execute sample_text "/w" sample_tree = (Ok response, w')
    ∧ attempts "/w" [] [sample] sample_tree rs w' ∧ (cr_success response = true ↔ refusals rs = []).
Proof.
  destruct (patch_batch sample_text "/w" [] [sample] sample_tree eq_refl sample_parsed)
    as (rs & w' & response & Hrun & Ha & Hs & _). by exists rs, w', response.
Defined.

Lemma refused_patch_no_effect_witness :
  (∃ response, execute "not a patch" "/w" sample_tree = (Ok response, sample_tree))
  ∧ ∃ e w', attempt sample "/w" [] (workspace []) (inl e) w' ∧ w' = workspace [].
Proof.
  split.
  - destruct (refused_patch_no_effect "not a patch" "/w" [] sample_tree) as [Hbad _].
    destruct Hbad as (response & Hrun & _); [right; by eexists|]. by exists response.
  - destruct (refused_patch_no_effect sample_text "/w" [] (workspace [])) as [_ Hr].
    destruct (Hr [sample] sample "/w/a.txt" sample_parsed ltac:(by left) ltac:(by vm_compute)) as (r & w' & Ha & Hw & Href).
    destruct Href as (e & -> & He); [eexists; by apply refused_update|]. exists e, w'. split; [done|]. by apply (Hw e).
Defined.

Lemma applied_change_takes_effect_witness :
  ∃ p, safe_path sample_tree "/w" "a.txt" = Ok p
    ∧ takes_effect sample "/w" p sample_tree sample_value sample_end.2.
Proof.
  apply (applied_change_takes_effect sample_text [sample] sample "/w" [] sample_tree sample_value sample_end.2).
  - exact sample_parsed.
  - by left.
  - exact sample_attempt.
Defined.

(** The directories stay, there is no file where a directory is, and the
    secret outside of the workspace stays. *)
Definition untouched (w : Tree) : Prop :=
  tr_dirs w = tr_dirs sample_tree ∧ tr_files w !! "/w"%string = None ∧ tr_files w !! "/secret"%string = Some "s"%string.
Lemma untouched_path w : untouched w → safe_path w "/w" "a.txt" = Ok "/w/a.txt"%string.
Proof.
  intros (Hd & _ & _). unfold safe_path. simpl. unfold canonical at 1. rewrite (locate_dirs w sample_tree) by done.
  change (locate sample_tree "/w") with (Some "/w"%string). cbn beta iota.
  case_decide as Hroot; [|by exfalso; apply Hroot; left; rewrite Hd; simpl; set_solver]. cbn beta iota.
  unfold canonical. rewrite (locate_dirs w sample_tree) by done.
  change (locate sample_tree _) with (Some "/w/a.txt"%string). cbn beta iota. by case_decide.
Qed.
Lemma untouched_kept : keeps untouched "/w/a.txt".
Proof.
  split.
  - intros text w (Hd & Hw & Hs). simpl. unfold write_at. rewrite (locate_dirs w sample_tree) by done.
    change (locate sample_tree "/w/a.txt") with (Some "/w/a.txt"%string). cbn beta iota.
    case_decide; [done|]. split; [done|]. simpl. by rewrite !lookup_insert_ne by done.
  - intros w (Hd & Hw & Hs). simpl. unfold remove_at. rewrite (locate_dirs w sample_tree) by done.
    change (locate sample_tree "/w/a.txt") with (Some "/w/a.txt"%string). cbn beta iota.
    case_decide; [done|]. destruct (tr_files w !! "/w/a.txt"%string); [|done].
    split; [done|]. simpl. by rewrite !lookup_delete_ne by done.
  - intros d w Hp (Hd & Hw & Hs). assert (d = "/w"%string) as -> by (vm_compute in Hp; congruence).
    simpl. change (components "/w") with [RootDir; Normal "w"]. cbn [make_dirs].
    change (path_join "/" "w") with "/w"%string. case_decide as Hfile; [done|].
    split; [|done]. simpl. rewrite Hd. simpl. apply set_eq. set_solver.
Qed.
Lemma patch_confined_witness : untouched (execute sample_text "/w" sample_tree).2.
Proof.
  apply (patch_confined sample_text "/w" [] [sample] ["w"%string] sample_tree untouched).
  - exact sample_parsed.
  - by vm_compute.
  - by vm_compute.
  - apply Forall_singleton. by split.
  - by apply Forall_singleton.
  - intros p raw Hraw Hp. apply list_elem_of_singleton in Hraw as ->.
    assert (p = "/w/a.txt"%string) as -> by (vm_compute in Hp; congruence). done.
  - by vm_compute.
  - intros w raw Hw Hraw. apply list_elem_of_singleton in Hraw as ->.
    rewrite untouched_path by done. by vm_compute.
  - intros p raw Hraw Hp _. apply list_elem_of_singleton in Hraw as ->.
    assert (p = "/w/a.txt"%string) as -> by (vm_compute in Hp; congruence). apply untouched_kept.
Defined.
