(* ===== verification/OutputBindings.v ===== *)
(** * Output bindings: [tools/src/command_run/output_binding.rs]

    A command of a batch may name the output of an earlier step.  The executor
    replaces such placeholders in the command line before it runs it. *)

From stdpp Require Import base list strings gmap sorting.
From Stdlib Require Import ZArith Lia Ascii.
From S2P Require Import Prelude RustStd Externals TaskData TaskIdentity RustText PatchParse.
Local Open Scope nat_scope.

Definition PLACEHOLDER_OPEN : string := "#@#${".
Definition PLACEHOLDER_CLOSE : string := "#@#$".

(** ** Texts *)

(** [str::rfind], [str::replace] of a text that is not empty. *)
Fixpoint rfind_text (pattern s : string) : option nat :=
  match s with
  | EmptyString => if is_empty pattern then Some 0 else None
  | String _ rest =>
      match rfind_text pattern rest with
      | Some n => Some (S n)
      | None => if starts_with pattern s then Some 0 else None
      end
  end.
(** [skip]: bytes of a match still to pass over. *)
Fixpoint replace_from (pattern to s : string) (skip : nat) : string :=
  match s with
  | EmptyString => EmptyString
  | String a rest =>
      match skip with
      | S skip => replace_from pattern to rest skip
      | O => if starts_with pattern s
             then to +:+ replace_from pattern to rest (String.length pattern - 1)
             else String a (replace_from pattern to rest 0)
      end
  end.
Definition replace_text (pattern to s : string) : string := replace_from pattern to s 0.
Definition left_brace : ascii := ascii_of_nat 123.
Definition right_brace : ascii := ascii_of_nat 125.
Definition left_bracket : ascii := ascii_of_nat 91.
Definition right_bracket : ascii := ascii_of_nat 93.
Definition text_quote : ascii := ascii_of_nat 34.
Definition escape_char : ascii := ascii_of_nat 92.
(** [str::parse::<usize>]. *)
Fixpoint digits_value (s : string) (value : Z) : option Z :=
  match s with
  | EmptyString => Some value
  | String a rest =>
      let n := nat_of_ascii a in
      if (48 <=? n) && (n <=? 57) then
        let value := (value * 10 + Z.of_nat (n - 48))%Z in
        if (u64_max <? value)%Z then None else digits_value rest value
      else None
  end.
Definition parse_usize (s : string) : option nat :=
  let digits := default s (strip_prefix "+" s) in
  if is_empty digits then None else Z.to_nat <$> digits_value digits 0%Z.

(** ** JSON in a text *)

Definition strip_code_fence (input : string) : option string :=
  stripped ← strip_prefix "```" input;
  newline ← find_char lf stripped;
  let body := text_drop (newline + 1) stripped in
  stop ← rfind_text "```" body;
  Some (text_take stop body).

(** How many bytes of [s] close the open brackets, if any do. *)
Fixpoint balanced_end (s : string) (stack : list ascii) (in_string escaped : bool) : option nat :=
  match s with
  | EmptyString => None
  | String c rest =>
      if in_string then
        S <$> (if escaped then balanced_end rest stack true false
               else if Ascii.eqb c escape_char then balanced_end rest stack true true
               else balanced_end rest stack (negb (Ascii.eqb c text_quote)) false)
      else if Ascii.eqb c text_quote then S <$> balanced_end rest stack true false
      else if Ascii.eqb c left_brace then S <$> balanced_end rest (right_brace :: stack) false false
      else if Ascii.eqb c left_bracket then S <$> balanced_end rest (right_bracket :: stack) false false
      else if (Ascii.eqb c right_brace || Ascii.eqb c right_bracket)
              && bool_decide (head stack = Some c) then
        match tail stack with
        | [] => Some 1
        | stack => S <$> balanced_end rest stack false false
        end
      else S <$> balanced_end rest stack false false
  end.
Definition closing_of (opening : ascii) : option ascii :=
  if Ascii.eqb opening left_brace then Some right_brace
  else if Ascii.eqb opening left_bracket then Some right_bracket
  else None.
Fixpoint extract_balanced_json (input : string) : option string :=
  match input with
  | EmptyString => None
  | String opening rest =>
      match closing ← closing_of opening; balanced_end rest [closing] false false with
      | Some n => Some (text_take (S n) input)
      | None => extract_balanced_json rest
      end
  end.

Section Bindings.
Context `{SerdeJson}.

Definition parse_json_document (input : string) : option Value :=
  let trimmed := trim input in
  match strip_code_fence trimmed with
  | Some unfenced => from_str (trim unfenced)
  | None => from_str trimmed
  end.
Fixpoint compatible_rounds (rounds : nat) (text : string) : option Value :=
  match rounds with
  | O => None
  | S rounds =>
      parsed ← match parse_json_document text with
               | Some value => Some value
               | None => json ← extract_balanced_json text; from_str json
               end;
      match parsed with
      | VString nested =>
          if negb (bool_decide (trim nested = text)) then compatible_rounds rounds nested else Some parsed
      | value => Some value
      end
  end.
Definition parse_json_compatible (input : string) : option Value := compatible_rounds 3 (trim input).

Fixpoint find_some {A B} (f : A → option B) (l : list A) : option B :=
  match l with
  | [] => None
  | x :: rest => match f x with Some b => Some b | None => find_some f rest end
  end.
Definition field (object : list (string * Value)) (key : string) : option Value :=
  value_get (VObject object) key.
Definition structured_content_from_mcp_text (object : list (string * Value)) : option Value :=
  content ← field object "content";
  match content with
  | VArray items =>
      find_some (λ item,
        if bool_decide ((value_get item "type" ≫= as_str) = Some "text"%string)
        then value ← value_get item "text"; text ← as_str value; parse_json_compatible text
        else None) items
  | _ => None
  end.

(** [object.entry(key).or_insert_with(..)]. *)
Definition insert_absent (object : list (string * Value)) (entry : string * Value) : list (string * Value) :=
  match field object entry.1 with Some _ => object | None => map_insert entry.1 entry.2 object end.
Definition lift_fields (object : list (string * Value)) (source_key : string) : list (string * Value) :=
  match value ← field object source_key; text ← as_str value; parse_json_compatible text with
  | Some (VObject fields) => foldl insert_absent object fields
  | _ => object
  end.
Definition binding_projection (value : Value) : Value :=
  match value with
  | VString text => default (VString text) (parse_json_compatible text)
  | VObject source =>
      let object :=
        match field source "structuredContent", structured_content_from_mcp_text source with
        | None, Some structured => map_insert "structuredContent" structured source
        | _, _ => source
        end in
      VObject (foldl lift_fields object ["stdout"; "output"; "result"; "data"])
  | other => other
  end.

(** ** Paths into an output *)

Fixpoint resolve_direct_path (root : Value) (path : list string) : option Value :=
  match path with
  | [] => Some root
  | segment :: rest =>
      let current := match root with
                     | VString text => default root (parse_json_compatible text)
                     | other => other
                     end in
      next ← match current with
             | VObject object => field object segment
             | VArray items => index ← parse_usize segment; items !! index
             | _ => None
             end;
      resolve_direct_path next rest
  end.
Definition is_output_key (segment : string) : bool :=
  bool_decide (segment = "output") || bool_decide (segment = "result") || bool_decide (segment = "data").
(** The first of two answers. *)
Definition or_else {A} (a b : option A) : option A := match a with Some x => Some x | None => b end.
Definition resolve_compatible_path (root : Value) (path : list string) : option Value :=
  or_else (resolve_direct_path root path)
    (or_else (match path with
              | segment :: rest => if is_output_key segment then resolve_direct_path root rest else None
              | [] => None
              end)
       (match root with
        | VObject object =>
            or_else (find_some (λ key, candidate ← field object key; resolve_direct_path candidate path)
                       ["structuredContent"; "output"; "result"; "data"])
              (or_else (value ← field object "stdout"; stdout ← as_str value; parsed ← parse_json_compatible stdout;
                        resolve_direct_path parsed path)
                 (candidate ← structured_content_from_mcp_text object; resolve_direct_path candidate path))
        | _ => None
        end)).

(** [normalize_expression]. *)
Definition is_segment_char (a : ascii) : bool :=
  is_ascii_alphanumeric (String a EmptyString)
  || existsb (Ascii.eqb a) [ascii_of_nat 95; ascii_of_nat 45; ascii_of_nat 58].
Definition normalize_expression (input : string) : outcome string string :=
  let trimmed := trim_end_set [ascii_of_nat 44] (trim_end_set [right_brace] (trim input)) in
  let joined := replace_char (ascii_of_nat 44) (ascii_of_nat 46) (replace_text "},{" "." trimmed) in
  let normalized := String.string_of_list_ascii
    (filter (λ a, negb (Ascii.eqb a left_brace || Ascii.eqb a right_brace) = true) (String.list_ascii_of_string joined)) in
  let segments := filter (λ s, is_empty s = false) (trim <$> split_char (ascii_of_nat 46) normalized) in
  if bool_decide (segments = []) || existsb (λ s, negb (bytes_all is_segment_char s)) segments
  then Err ("invalid command_run output placeholder expression `" +:+ input +:+ "`")
  else Ok (join "." segments).

Definition exact_placeholder_expression (input : string) : option string :=
  body ← strip_prefix PLACEHOLDER_OPEN (trim input);
  body ← strip_suffix PLACEHOLDER_CLOSE body;
  match normalize_expression body with Ok expression => Some expression | _ => None end.

(** ** Bindings *)

Record CommandRunOutputBindings := { ob_values : gmap string Value }.
Definition no_bindings : CommandRunOutputBindings := {| ob_values := ∅ |}.
Definition bindings_insert (self : CommandRunOutputBindings) (command_type : string)
    (binding_id : option string) (output : Value) : CommandRunOutputBindings :=
  let projection := binding_projection output in
  let values := <[command_type := projection]> (ob_values self) in
  {| ob_values := match binding_id with
                  | Some id => if is_blank id then values else <[id := projection]> values
                  | None => values
                  end |}.

Definition resolve (self : CommandRunOutputBindings) (expression : string) : outcome string Value :=
  match split_char (ascii_of_nat 46) expression with
  | [] => Err "empty command_run output placeholder"%string
  | binding_name :: path =>
      match ob_values self !! binding_name with
      | None =>
          Err ("command_run output placeholder `" +:+ expression +:+ "` references unavailable `"
               +:+ binding_name +:+ "`; available previous-step bindings: ["
               +:+ join ", " (btree_iter (dom (ob_values self))) +:+ "]")
      | Some root =>
          ok_or (resolve_compatible_path root path)
            ("command_run output placeholder `" +:+ expression
             +:+ "` did not match the previous-step JSON output")
      end
  end.

Definition render_embedded_value (value : Value) : string :=
  match value with VString text => text | other => canonical other end.

(** The loop of [interpolate_text]: the rest of the input, and the output. *)
Fixpoint interpolate_loop (self : CommandRunOutputBindings) (fuel : nat) (remaining output : string)
    : outcome string string :=
  match find_text PLACEHOLDER_OPEN remaining with
  | None => Ok (output +:+ remaining)
  | Some start =>
      match fuel with
      | O => OutOfFuel
      | S fuel =>
          let output := output +:+ text_take start remaining in
          let after_open := text_drop (start + String.length PLACEHOLDER_OPEN) remaining in
          match find_text PLACEHOLDER_CLOSE after_open with
          | None => Err ("unterminated command_run output placeholder starting at `"
                         +:+ text_drop start remaining +:+ "`")
          | Some stop =>
              expression ← normalize_expression (text_take stop after_open);
              value ← resolve self expression;
              interpolate_loop self fuel (text_drop (stop + String.length PLACEHOLDER_CLOSE) after_open)
                (output +:+ render_embedded_value value)
          end
      end
  end.
Definition interpolate_text (self : CommandRunOutputBindings) (input : string) : outcome string string :=
  interpolate_loop self (String.length input) input "".

(** The items of an array, or the fields of an object, one after the other. *)
Fixpoint each_ok {A} (l : list (outcome string A)) : outcome string (list A) :=
  match l with
  | [] => Ok []
  | m :: rest => x ← m; xs ← each_ok rest; Ok (x :: xs)
  end.
Fixpoint interpolate_value (self : CommandRunOutputBindings) (value : Value) : outcome string Value :=
  match value with
  | VString text =>
      match exact_placeholder_expression text with
      | Some expression => resolve self expression
      | None =>
          if contains_text PLACEHOLDER_OPEN text
          then text ← interpolate_text self text; Ok (VString text)
          else Ok value
      end
  | VArray items => items ← each_ok (interpolate_value self <$> items); Ok (VArray items)
  | VObject object =>
      fields ← each_ok ((λ f, v ← interpolate_value self f.2; Ok (f.1, v)) <$> object);
      Ok (VObject fields)
  | _ => Ok value
  end.
Definition interpolate_command_line (self : CommandRunOutputBindings) (input : string)
    : outcome string string :=
  if negb (contains_text PLACEHOLDER_OPEN input) then Ok input else
  match parse_json_document input with
  | Some json => json ← interpolate_value self json; Ok (canonical json)
  | None => interpolate_text self input
  end.

(** [resolve_command_bindings] of [command_run/handler.rs]: the fields of a
    command that are filled in before it runs. *)
Record BoundFields := {
  bf_command_line : string;
  bf_inline_arguments : option Value;
  bf_workdir : option string;
}.
Definition resolve_command_bindings (bindings : CommandRunOutputBindings) (command : BoundFields)
    : outcome string BoundFields :=
  command_line ← interpolate_command_line bindings (bf_command_line command);
  arguments ← match bf_inline_arguments command with
              | Some arguments => arguments ← interpolate_value bindings arguments; Ok (Some arguments)
              | None => Ok None
              end;
  workdir ← match bf_workdir command with
            | Some workdir =>
                if contains_text PLACEHOLDER_OPEN workdir
                then workdir ← interpolate_command_line bindings workdir; Ok (Some workdir)
                else Ok (Some workdir)
            | None => Ok None
            end;
  Ok {| bf_command_line := command_line; bf_inline_arguments := arguments; bf_workdir := workdir |}.
End Bindings.

(** ** What interpolation makes of a text *)

(** ** The first occurrence of a text *)

Definition first_split (pattern before after s : string) : Prop :=
  s = before +:+ pattern +:+ after
  ∧ ∀ b a, s = b +:+ pattern +:+ a → String.length before ≤ String.length b.
Definition absent (pattern s : string) : Prop := ∀ b a, s ≠ b +:+ pattern +:+ a.

Lemma text_take_app a b : text_take (String.length a) (a +:+ b) = a.
Proof. induction a as [|x a IH]; [by destruct b|]. simpl. by f_equal. Qed.
Lemma text_drop_app a b n : text_drop (String.length a + n) (a +:+ b) = text_drop n b.
Proof. induction a as [|x a IH]; [done|exact IH]. Qed.
Lemma text_drop_all a b : text_drop (String.length a) (a +:+ b) = b.
Proof. rewrite <- (Nat.add_0_r (String.length a)), text_drop_app. by destruct b. Qed.

Lemma find_text_spec pattern s :
  match find_text pattern s with
  | Some n => ∃ before after, n = String.length before ∧ first_split pattern before after s
  | None => absent pattern s
  end.
Proof.
  induction s as [|c s IH]; cbn [find_text]; destruct (starts_with pattern _) eqn:Hs.
  1, 3: apply starts_with_spec in Hs as [r Hr]; exists "", r; split; [done|split; [done|intros; simpl; lia]].
  - intros b a Heq. assert (starts_with pattern "" = true) as Ht; [|congruence].
    apply starts_with_spec. exists a. by destruct b.
  - assert (Hhead : ∀ b a, String c s = b +:+ pattern +:+ a → ∃ b', b = String c b' ∧ s = b' +:+ pattern +:+ a).
    { intros [|d b] a Heq; [|injection Heq as <- ->; by exists b].
      assert (starts_with pattern (String c s) = true) as Ht; [|congruence].
      apply starts_with_spec. by exists a. }
    destruct (find_text pattern s) as [n|]; simpl.
    + destruct IH as (before & after & -> & -> & Hfirst). exists (String c before), after.
      split; [done|]. split; [done|]. intros b a (b' & -> & Hb')%Hhead. simpl. apply le_n_S. by eapply Hfirst.
    + intros b a (b' & -> & Hb')%Hhead. by apply (IH b' a).
Qed.
Lemma append_same_prefix (a b c d : string) : a +:+ b = c +:+ d → String.length a = String.length c → a = c ∧ b = d.
Proof.
  revert c. induction a as [|x a IH]; intros [|y c] Heq Hlen; try done.
  injection Heq as -> Heq. injection Hlen as Hlen. by destruct (IH c Heq Hlen) as [-> ->].
Qed.
Lemma first_split_det pattern b a b' a' s :
  first_split pattern b a s → first_split pattern b' a' s → b = b' ∧ a = a'.
Proof.
  intros [Heq Hf] [Heq' Hf']. pose proof (Hf _ _ Heq'). pose proof (Hf' _ _ Heq).
  rewrite Heq in Heq'. apply append_same_prefix in Heq' as [-> Heq']; [|lia].
  by apply append_same_prefix in Heq' as [_ ->].
Qed.
Lemma find_text_first pattern before after s :
  first_split pattern before after s → find_text pattern s = Some (String.length before).
Proof.
  intros Hf. pose proof (find_text_spec pattern s) as Hs. destruct (find_text pattern s) as [n|].
  - destruct Hs as (b & a & -> & Hf'). by destruct (first_split_det _ _ _ _ _ _ Hf Hf') as [-> _].
  - destruct Hf as [Heq _]. by apply Hs in Heq.
Qed.
Lemma find_text_absent pattern s : absent pattern s → find_text pattern s = None.
Proof.
  intros Ha. pose proof (find_text_spec pattern s) as Hs. destruct (find_text pattern s); [|done].
  destruct Hs as (b & a & _ & Heq & _). by apply Ha in Heq.
Qed.

(** ** Interpolation *)

Section Facts.
Context `{SerdeJson}.
Implicit Types self : CommandRunOutputBindings.

(** The placeholders of a text, left to right, each replaced by the text of the
    value it names; what is put in is not looked at again. *)
Inductive expands self : string → string → Prop :=
| expands_done s : absent PLACEHOLDER_OPEN s → expands self s s
| expands_at s before after inner rest expression value out :
    first_split PLACEHOLDER_OPEN before after s → first_split PLACEHOLDER_CLOSE inner rest after →
    normalize_expression inner = Ok expression → resolve self expression = Ok value →
    expands self rest out → expands self s (before +:+ render_embedded_value value +:+ out).

Lemma normalize_settles s : settles (normalize_expression s).
Proof. unfold normalize_expression. destruct (_ || _); [apply settles_Err|apply settles_Ok]. Qed.
Lemma binding_settles self s : settles (resolve self s).
Proof.
  unfold resolve. destruct (split_char _ s); [apply settles_Err|].
  destruct (ob_values self !! _); [apply settles_ok_or|apply settles_Err].
Qed.

Lemma expands_inv self s out before after :
  expands self s out → first_split PLACEHOLDER_OPEN before after s →
  ∃ inner rest expression value out', first_split PLACEHOLDER_CLOSE inner rest after
    ∧ out = before +:+ render_embedded_value value +:+ out' ∧ normalize_expression inner = Ok expression
    ∧ resolve self expression = Ok value ∧ expands self rest out'.
Proof.
  destruct 1 as [s Ha|s b a inner rest expression value out Hf Hc Hn Hr He]; intros Hfirst.
  - exfalso. destruct Hfirst as [-> _]. by eapply Ha.
  - destruct (first_split_det _ _ _ _ _ _ Hfirst Hf) as [-> ->]. by exists inner, rest, expression, value, out.
Qed.

Lemma interpolate_loop_spec self fuel : ∀ remaining output,
  String.length remaining ≤ fuel →
  match interpolate_loop self fuel remaining output with
  | Ok text => ∃ out, text = output +:+ out ∧ expands self remaining out
  | Err _ => ∀ out, ¬ expands self remaining out
  | _ => False
  end.
Proof.
  induction fuel as [|fuel IH]; intros remaining output Hlen; cbn [interpolate_loop];
    pose proof (find_text_spec PLACEHOLDER_OPEN remaining) as Hopen;
    destruct (find_text PLACEHOLDER_OPEN remaining) as [start|].
  1: { destruct Hopen as (b & a & _ & -> & _). rewrite !length_append in Hlen. simpl in Hlen. lia. }
  1, 3: by exists remaining; split; [|constructor].
  destruct Hopen as (before & after & -> & Hfirst). pose proof Hfirst as [Heq _].
  assert (text_take (String.length before) remaining = before) as -> by (rewrite Heq; apply text_take_app).
  assert (text_drop (String.length before + String.length PLACEHOLDER_OPEN) remaining = after) as ->.
  { rewrite Heq, text_drop_app. apply text_drop_all. }
  pose proof (find_text_spec PLACEHOLDER_CLOSE after) as Hclose.
  destruct (find_text PLACEHOLDER_CLOSE after) as [stop|].
  2: { intros out He. destruct (expands_inv _ _ _ _ _ He Hfirst) as (inner & rest & _ & _ & _ & [Hc _] & _).
       by apply Hclose in Hc. }
  destruct Hclose as (inner & rest & -> & Hsecond). pose proof Hsecond as [Heq' _].
  assert (text_take (String.length inner) after = inner) as -> by (rewrite Heq'; apply text_take_app).
  assert (text_drop (String.length inner + String.length PLACEHOLDER_CLOSE) after = rest) as ->.
  { rewrite Heq', text_drop_app. apply text_drop_all. }
  assert (Hinv : ∀ out, expands self remaining out → ∃ expression value out',
            out = before +:+ render_embedded_value value +:+ out' ∧ normalize_expression inner = Ok expression
            ∧ resolve self expression = Ok value ∧ expands self rest out').
  { intros out He. destruct (expands_inv _ _ _ _ _ He Hfirst)
      as (inner' & rest' & expression & value & out' & Hc & Hout & Hn & Hr & Hrest).
    destruct (first_split_det _ _ _ _ _ _ Hsecond Hc) as [-> ->]. by exists expression, value, out'. }
  destruct (normalize_settles inner) as [[expression Hn]|[e Hn]]; rewrite Hn; cbn [mbind outcome_bind];
    [|intros out (? & ? & ? & _ & Hn' & _)%Hinv; congruence].
  destruct (binding_settles self expression) as [[value Hr]|[e Hr]]; rewrite Hr; cbn [mbind outcome_bind];
    [|intros out (? & ? & ? & _ & Hn' & Hr' & _)%Hinv; congruence].
  specialize (IH rest ((output +:+ before) +:+ render_embedded_value value)).
  assert (String.length rest ≤ fuel) as Hrest.
  { rewrite Heq, Heq', !length_append in Hlen. simpl in Hlen. lia. }
  specialize (IH Hrest). destruct (interpolate_loop self fuel rest _) as [text|e| |]; try done.
  - destruct IH as (out & -> & He). exists (before +:+ render_embedded_value value +:+ out).
    split; [by rewrite !append_assoc|]. by eapply expands_at.
  - intros out (? & ? & out' & _ & _ & _ & He)%Hinv. by apply (IH out').
Qed.

Lemma expands_det self s out out' : expands self s out → expands self s out' → out = out'.
Proof.
  intros He. revert out'. induction He as [s Ha|s before after inner rest expression value out Hf Hc Hn Hr He IH];
    intros out' He'.
  - destruct He' as [s Ha'|s b a ? ? ? ? ? [-> _]]; [done|]. exfalso. by eapply Ha.
  - destruct (expands_inv _ _ _ _ _ He' Hf) as (inner' & rest' & expression' & value' & out2 & Hc' & -> & Hn' & Hr' & Hrest).
    destruct (first_split_det _ _ _ _ _ _ Hc Hc') as [<- <-].
    rewrite Hn in Hn'. injection Hn' as <-. rewrite Hr in Hr'. injection Hr' as <-. by rewrite (IH _ Hrest).
Qed.

(** Interpolation: filling in a text ends, with enough fuel, in an error or in
    the text whose placeholders, found left to right, are replaced by what they
    name, once, without looking into what was put in. *)
Theorem interpolate_text_exact self input out :
  settles (interpolate_text self input) ∧ (interpolate_text self input = Ok out ↔ expands self input out).
Proof.
  unfold interpolate_text. pose proof (interpolate_loop_spec self (String.length input) input "" (le_n _)) as Hs.
  destruct (interpolate_loop self _ input "") as [text|e| |]; try done.
  - destruct Hs as (out' & -> & He). split; [apply settles_Ok|]. split.
    + by intros [= <-].
    + intros He'. by rewrite (expands_det _ _ _ _ He He').
  - split; [apply settles_Err|]. split; [done|]. intros He. by apply Hs in He.
Qed.

(** A line without placeholders is run as it is. *)
Lemma interpolate_plain self line : contains_text PLACEHOLDER_OPEN line = false → interpolate_command_line self line = Ok line.
Proof. unfold interpolate_command_line. by intros ->. Qed.
End Facts.
