(* ===== verification/PatchAdmission.v ===== *)
(** * Patches that a contract admits: [router/src/services/command_run.rs]

    Before a batch runs, the router checks every [apply_patch] entry against the
    capability contract of the session ([validate_jspace_arguments_with_capsule],
    the branch of patches); the batch is then run by [command_run], which first
    fills in the outputs of earlier steps. *)

From stdpp Require Import base list strings gmap sorting.
From Stdlib Require Import ZArith Lia Ascii.
From S2P Require Import Prelude RustStd RustText RustPath Externals TaskData TaskIdentity JSpaceScopes JSpaceScopeFacts JSpaceClaimFacts JSpaceArgv JSpaceJson JSpaceTemplates JSpaceVerifier JSpacePolicies JSpaceDigest JSpaceMatcher JSpaceCompile JSpaceSettles JSpaceMatcherFacts JSpaceIsolation.
From S2P Require Import PatchParse PatchApply PatchFiles PatchParseFacts PatchFilesFacts OutputBindings.
Local Open Scope nat_scope.

Section Admission.
Context `{SerdeJson, !JsonRead, Sha2, !JSpaceSerde, !JSpaceHost}.
Implicit Types (m : JSpaceMatcher) (fs : FileTree).

Definition patch_operation (kind : string) : option string :=
  if bool_decide (kind = "add") then Some "create"%string
  else if bool_decide (kind = "update") then Some "modify"%string
  else if bool_decide (kind = "delete") then Some "delete"%string
  else None.
Fixpoint check_changes fs m (changes : list (string * string * option string)) : result unit :=
  match changes with
  | [] => Ok tt
  | (kind, path, move_path) :: rest =>
      operation ← ok_or (patch_operation kind)
                    (JSpaceError_new "JSPACE_UNKNOWN_OPERATION" "modify" path
                       ("unknown apply_patch change kind " +:+ kind));
      _ ← check_path fs m operation path;
      _ ← match move_path with Some move_path => check_path fs m "create" move_path | None => Ok tt end;
      check_changes fs m rest
  end.
Definition check_patch_command fs m (command_line : string) : result unit :=
  _ ← check_command fs m "apply_patch" command_line;
  if is_blank command_line then Ok tt else
  changes ← map_err (JSpaceError_new "JSPACE_PATCH_MALFORMED" "modify" "") (jspace_changes command_line);
  check_changes fs m changes.

(** ** What an admitted patch may touch *)

(** A path is that of a file below an admitted root that a write claim of the
    published projection covers. *)
Definition write_granted fs m (p : string) : Prop :=
  ∃ root below, abs_text root ∈ admitted_roots m ∧ Forall normal_name (root ++ below)
    ∧ resolve_existing_boundary fs p = Ok (abs_text (root ++ below))
    ∧ claims_cover (claim_path m root below) (sp_write_scopes (jm_scope_projection m)).
Definition named_path m (raw : string) : string :=
  if is_absolute raw then raw else path_join (jm_repo_root m) raw.
Definition patch_names (changes : list PatchChange) : list string := changes ≫= change_paths.

Lemma check_changes_paths fs m changes c raw :
  check_changes fs m ((λ c, (pc_kind c, pc_path c, pc_move_path c)) <$> changes) = Ok tt →
  c ∈ changes → raw ∈ change_paths c →
  ∃ operation, operation ≠ "read"%string ∧ check_path fs m operation raw = Ok tt.
Proof.
  intros Hc Hin Hraw. induction changes as [|d changes IH]; [by apply not_elem_of_nil in Hin|].
  rewrite fmap_cons in Hc. cbn [check_changes] in Hc.
  apply bind_Ok_inv in Hc as (operation & Hop & Hc). apply bind_Ok_inv in Hc as ([] & Hpath & Hc).
  apply bind_Ok_inv in Hc as ([] & Hmove & Hc). apply elem_of_cons in Hin as [->|Hin]; [|by apply IH].
  unfold change_paths in Hraw. apply elem_of_cons in Hraw as [->|Hraw].
  - exists operation. split; [|done]. unfold patch_operation in Hop. repeat case_bool_decide; by simplify_eq/=.
  - destruct (pc_move_path d) as [move|]; [|by apply not_elem_of_nil in Hraw].
    apply list_elem_of_singleton in Hraw as ->. by exists "create"%string.
Qed.

Lemma patch_granted fs fs' session_root contract m changes raw :
  FileTreeLaws fs → from_value fs' session_root contract = Ok m → clean_matcher m →
  check_changes fs m ((λ c, (pc_kind c, pc_path c, pc_move_path c)) <$> changes) = Ok tt →
  raw ∈ patch_names changes → write_granted fs m (named_path m raw).
Proof.
  intros Hlaws Hm Hclean Hc Hraw. apply list_elem_of_bind in Hraw as (c & Hraw & Hin).
  destruct (check_changes_paths fs m changes c raw Hc Hin Hraw) as (operation & Hop & Hpath).
  apply from_value_sound in Hm as [Hwf _].
  destruct (granted fs m operation raw Hlaws Hwf Hclean Hpath) as (root & below & Hroot & Hn & Hfile & Hcov).
  exists root, below. split_and!; [done|done| |].
  - revert Hfile. unfold target_file, named_path.
    destruct (is_absolute raw) eqn:Habs; [by rewrite orb_true_r|]. rewrite orb_false_r.
    destruct (is_multi_domain m) eqn:Hmulti; [|done]. intros _. exfalso.
    unfold check_path in Hpath. rewrite Hmulti in Hpath. unfold check_effect_path in Hpath.
    by rewrite Habs in Hpath.
  - unfold claims_for in Hcov. by rewrite bool_decide_eq_false_2 in Hcov.
Qed.

(** ** The executor on the disk the check saw *)

Section Executor.
Context `{Disk W}.
Implicit Types w : W.

(** What the disk says of an existing path, the check saw. *)
Definition sees_at fs w (p : string) : Prop :=
  ∀ q, disk_canonicalize w p = inr q →
    ft_canonicalize fs p = inr q ∧ path_exists fs p = true
    ∧ ft_canonicalize fs q = inr q ∧ path_exists fs q = true.

Lemma resolve_existing fs p q :
  path_exists fs p = true → ft_canonicalize fs p = inr q → ft_canonicalize fs q = inr q →
  resolve_existing_boundary fs p = Ok (strip_verbatim_prefix q).
Proof.
  intros Hex Hp Hq. unfold resolve_existing_boundary.
  destruct (length (components p)); cbn [existing_boundary]; rewrite Hex; cbn [mbind outcome_bind];
    rewrite Hp; cbn [mbind outcome_bind rev foldl]; unfold normalize_path; by rewrite Hq.
Qed.
(** The path the executor opens stands for the file that was checked. *)
Lemma opened_is_named fs w m dir raw p :
  disk_canonicalize w dir = inr (jm_repo_root m) → trim raw = raw → sees_at fs w (named_path m raw) →
  safe_path w dir raw = Ok p →
  resolve_existing_boundary fs p = resolve_existing_boundary fs (named_path m raw).
Proof.
  intros Hdir Hraw Hsees Hp. unfold safe_path, patch_path in Hp. rewrite Hdir, Hraw in Hp.
  fold (named_path m raw) in Hp. destruct (disk_canonicalize w (named_path m raw)) as [e|q] eqn:Hq.
  - by injection Hp as <-.
  - injection Hp as <-. destruct (Hsees q Hq) as (Hc & Hex & Hc' & Hex').
    by rewrite !(resolve_existing fs _ q).
Qed.

End Executor.
End Admission.
