(* ===== verification/PatchAdmissionExamples.v ===== *)
(** * An admitted patch, and one that changes after its admission *)

From stdpp Require Import base list strings gmap sorting pretty.
From Stdlib Require Import ZArith Lia Ascii.
From S2P Require Import PatchExamples.
From S2P Require Import Prelude RustStd RustText RustPath Externals Instances TaskData TaskIdentity StoreInstances.
From S2P Require Import JSpaceScopes JSpaceClaimFacts JSpaceJson JSpaceVerifier JSpaceDigest JSpaceMatcher JSpaceCompile.
From S2P Require Import JSpaceMatcherFacts JSpaceIsolation JSpaceInstances JSpaceWitnesses.
From S2P Require Import PatchParse PatchApply PatchFiles PatchParseFacts PatchFilesFacts OutputBindings PatchAdmission.
Local Open Scope nat_scope.
Local Open Scope string_scope.
Local Open Scope list_scope.

#[local] Existing Instances json_z json_text sha_poly number_reader only_empty plain_host tree_disk tree_laws.

(** The disk of [JSpaceWitnesses.workspace], where the contract [editor] may
    modify [src/a.rs] only. *)
Definition disk_now : PatchExamples.Tree :=
  {| tr_dirs := {["/"; "/r"; "/r/src"; "/r/docs"]};
     tr_files := list_to_map [("/r/src/a.rs", "fn main() {}"); ("/r/docs/n.md", "notes")] |}.
Definition rewrite_main (line : string) : string :=
  text_lines [BEGIN_PATCH; "*** Update File: src/a.rs"; "@@"; "-fn main() {}"; "+" +:+ line; END_PATCH].
Definition run_line (line : string) : outcome PatchError CommandResponse * PatchExamples.Tree :=
  execute (patch_text_from_payload (patch_payload line)) "/r" disk_now.

Example admitted_and_refused :
  check_patch_command workspace editor (rewrite_main "fn main() { run() }") = Ok tt
  ∧ is_ok (check_patch_command workspace editor
             (text_lines [BEGIN_PATCH; "*** Delete File: docs/n.md"; END_PATCH])) = false
  ∧ tr_files (run_line (rewrite_main "fn main() { run() }")).2 !! "/r/src/a.rs" = Some "fn main() { run() }"
  ∧ tr_files (run_line (rewrite_main "fn main() { run() }")).2 !! "/r/docs/n.md" = Some "notes".
Proof. by vm_compute. Qed.

(** The tests of [output_binding.rs] that need no reader of JSON text. *)
Definition produced : CommandRunOutputBindings :=
  bindings_insert no_bindings "workspace_tool" (Some "create_file")
    (json_object [("filename", VString "draft.txt");
                  ("metadata", json_object [("revision", json_u64 3)])]).
Definition inline (text : string) : outcome string Value :=
  interpolate_value produced (json_object [("field", VString text)]).
Example binding_tests :
  inline "#@#${create_file.filename}#@#$" = Ok (json_object [("field", VString "draft.txt")])
  ∧ inline "#@#${workspace_tool,metadata,revision}#@#$" = Ok (json_object [("field", json_u64 3)])
  ∧ inline "#@#${create_file.output.filename}#@#$" = Ok (json_object [("field", VString "draft.txt")])
  ∧ interpolate_command_line produced "rev #@#${create_file.metadata.revision}#@#$ of #@#${create_file},{filename}#@#$;"
    = Ok ("rev " +:+ number_to_string (number_of_u64 3) +:+ " of draft.txt;")
  ∧ interpolate_command_line no_bindings "#@#${future.value}#@#$"
    = Err "command_run output placeholder `future.value` references unavailable `future`; available previous-step bindings: []"
  ∧ extract_balanced_json ("created: {" +:+ String text_quote ("}" +:+ String text_quote ":[1]} and {}"))
    = Some ("{" +:+ String text_quote ("}" +:+ String text_quote ":[1]}"))
  ∧ strip_code_fence (text_lines ["```json"; "7"; "```"]) = Some ("7" +:+ newline_text).
Proof. by vm_compute. Qed.

(** An earlier step of the batch whose output has a line of a patch:
    [task_status] with a question keeps the text of [final_reply] as it was sent. *)
Definition earlier_output : Value :=
  json_object [("task_status", json_object
    [("final_reply", VString (text_lines ["fn main() {}"; "*** Delete File: docs/n.md"]));
     ("status", VString "question")])].
Definition bindings_now : CommandRunOutputBindings := bindings_insert no_bindings "task_status" None earlier_output.
Definition open_line : string := rewrite_main "#@#${task_status.task_status.final_reply}#@#$".

(** The patch that runs need not be the one that was admitted: a line that
    names the output of an earlier step is admitted with the name in it, and run
    with the output in its place, which may hold further changes; here a contract
    that grants one file admits a batch that deletes another, and the answer
    is a success. *)
Example interpolation_escapes_admission :
  ∃ line response w,
    check_patch_command workspace editor open_line = Ok tt
    ∧ is_ok (check_path workspace editor "delete" "docs/n.md") = false
    ∧ interpolate_command_line bindings_now open_line = Ok line
    ∧ run_line line = (Ok response, w) ∧ cr_success response = true
    ∧ tr_files disk_now !! "/r/docs/n.md" = Some "notes" ∧ tr_files w !! "/r/docs/n.md" = None.
Proof.
  set (line := ok_value "" (interpolate_command_line bindings_now open_line)).
  exists line, (ok_value no_effect_response (run_line line).1), (run_line line).2.
  split_and!; by vm_compute.
Qed.

(** The directories of the workspace stay. *)
Definition workspace_stays (w : PatchExamples.Tree) : Prop := "/" ∈ tr_dirs w ∧ "/r" ∈ tr_dirs w.
Lemma stays_path w : workspace_stays w → safe_path w "/r" "src/a.rs" = Ok "/r/src/a.rs".
Proof.
  intros [Hroot Hr]. unfold safe_path. simpl. unfold PatchExamples.canonical at 1, locate.
  change (components "/r") with [RootDir; Normal "r"]. cbn [walk].
  rewrite decide_True by done. change (path_join "/" "r") with "/r".
  rewrite decide_True by by left. cbn beta iota.
  unfold PatchExamples.canonical, locate. change (components (path_join "/r" (patch_path "src/a.rs"))) with [RootDir; Normal "r"; Normal "src"; Normal "a.rs"].
  cbn [walk]. change (path_join "/" "r") with "/r". rewrite (decide_True (P:="/" ∈ tr_dirs w)) by done.
  rewrite (decide_True (P:="/r" ∈ tr_dirs w)) by done. change (path_join "/r" "src") with "/r/src".
  case_decide; [|done]. change (path_join "/r/src" "a.rs") with "/r/src/a.rs". by case_decide.
Qed.
Lemma make_dirs_grow parts : ∀ t here d, d ∈ tr_dirs t → d ∈ tr_dirs (make_dirs t here parts).2.
Proof.
  induction parts as [|[] parts IH]; intros t here d Hd; simpl; auto. case_decide; [done|]. apply IH. simpl. set_solver.
Qed.
Lemma stays_kept p : keeps workspace_stays p.
Proof.
  split.
  - intros text w Hw. simpl. unfold write_at. destruct (locate w p); [|done]. by case_decide.
  - intros w Hw. simpl. unfold remove_at. destruct (locate w p); [|done]. case_decide; [done|].
    by destruct (tr_files w !! _).
  - intros d w _ [H1 H2]. split; simpl; by apply make_dirs_grow.
Qed.
Lemma no_json_lines : JsonLines (H0:=json_text).
Proof. done. Qed.

