(* ===== verification/CommandBatch.v ===== *)
(** * Batches of commands: [tools/src/command_run/handler.rs]

    A batch is a list of commands with step numbers.  The commands of a step
    may share the executor or need it for themselves; a later step may name the
    outputs of an earlier one.  [batch_step] is the executor of a whole batch
    with its tasks in flight, [push_command] and [finish] are the executor that
    receives a batch command by command.  The tools behind the router are
    parameters: their answers, and whether a call may share. *)

From stdpp Require Import base list strings gmap sorting relations.
From Stdlib Require Import ZArith Lia Ascii.
From S2P Require Import Prelude RustStd Externals TaskIdentity RustText JSpaceScopes JSpaceJson PatchParse.
From S2P Require Import OutputBindings.
Open Scope Z_scope.

(** ** Commands and results *)

Record CommandItem `{JsonNumber} := {
  ci_index : Z;
  ci_command : string;
  ci_command_line : string;
  ci_inline_arguments : option Value;
  ci_workdir : option string;
  ci_step : option Z;
  ci_timeout_ms : option Z;
  ci_stall_timeout_ms : option Z;
  ci_binding_id : option string;
}.
#[export] Instance eta_CommandItem `{JsonNumber} : Eta CommandItem :=
  MkEta (λ c, Build_CommandItem _ (ci_index c) (ci_command c) (ci_command_line c) (ci_inline_arguments c)
    (ci_workdir c) (ci_step c) (ci_timeout_ms c) (ci_stall_timeout_ms c) (ci_binding_id c)).

Record CommandRunItemResult `{JsonNumber} := {
  ri_index : Z;
  ri_step : Z;
  ri_command_type : string;
  ri_id : option string;
  ri_success : bool;
  ri_output : option Value;
  ri_error : option string;
}.

Record CommandRunOutput `{JsonNumber} := {
  co_results : list CommandRunItemResult;
  co_cancelled : option bool;
  co_cancel_reason : option string;
}.

(** The variable that chooses the shell and the shell of the platform; the
    names of tools in the registry; the task types found on disk; the text of a
    JSON error; the output of a command that the sandbox blocks. *)
Class CommandHost `{JsonNumber} := {
  shell_variable : option string;
  platform_shell : string;
  resolve_command_tool_name : string → option string;
  task_type_ids : list string;
  json_error : string → string;
  sandbox_output : string → Value;
}.

(** What the tools answered to one command, call by call. *)
Record Answers `{JsonNumber} := {
  an_accepted : option string;
  an_planning : bool * Value * string;
  an_call : option string;
  an_sandbox : option string;
  an_dispatch : string + bool * Value;
}.

Definition APPLY_PATCH_FAILURE_CANCEL_REASON : string :=
  "apply_patch failed; command_run stopped before later commands".
Definition PRIOR_RESULT_ERROR : string :=
  "TERMINAL_STATUS_PRIOR_RESULT: task_status done blocked by a failed or unknown result in this command_run batch; recover in a new batch".
Definition ORDER_ERROR : string :=
  "TERMINAL_STATUS_BATCH_ORDER: task_status done must be alone in a strictly later final step; streamed done waits for finish and requires explicit ordered steps".

(** ** Texts *)

(** [input.split(p)] on the characters of a text. *)
Fixpoint split_where (p : string → bool) (cs : list string) : list string :=
  match cs with
  | [] => [EmptyString]
  | c :: cs =>
      if p c then EmptyString :: split_where p cs
      else match split_where p cs with
           | part :: rest => (c +:+ part) :: rest
           | [] => [c]
           end
  end.

Definition one_char (n : nat) : string := String (ascii_of_nat n) EmptyString.
Definition escape_control (c : string) : string :=
  if bool_decide (c = one_char 10) then "\n"
  else if bool_decide (c = one_char 13) then "\r"
  else if bool_decide (c = one_char 9) then "\t"
  else if is_control c then "\u" +:+ hex4 (code_point c)
  else c.
Fixpoint escape_controls (cs : list string) (in_string escaped : bool) : string :=
  match cs with
  | [] => EmptyString
  | c :: cs =>
      if in_string then
        if escaped then c +:+ escape_controls cs true false
        else if bool_decide (c = one_char 92) then c +:+ escape_controls cs true true
        else if bool_decide (c = one_char 34) then c +:+ escape_controls cs false false
        else escape_control c +:+ escape_controls cs true false
      else c +:+ escape_controls cs (bool_decide (c = one_char 34)) false
  end.
Definition escape_control_chars_in_json_strings (input : string) : string :=
  escape_controls (chars input) false false.

(** Commands and statuses are compared in this form. *)
Definition snake (text : string) : string :=
  replace_char (ascii_of_nat 45) (ascii_of_nat 95) (to_ascii_lowercase (trim text)).

Section Commands.
Context `{SerdeJson, !CommandHost}.
Implicit Types (command : CommandItem) (r : CommandRunItemResult).

(** ** Names of commands *)

Definition active_shell_command_name : string :=
  match (λ value, to_ascii_lowercase (trim value)) <$> shell_variable with
  | Some value =>
      if bool_decide (value = "bash") then "bash"
      else if bool_decide (value = "zsh") then "zsh"
      else if existsb (λ s, bool_decide (value = s)) ["shell"; "shell_command"; "shll"; "shall"]
      then "shell_command"
      else platform_shell
  | None => platform_shell
  end.
Definition one_of (names : list string) (text : string) : bool :=
  existsb (λ name, bool_decide (text = name)) names.
Definition canonical_command (name : string) : string :=
  let text := snake name in
  if one_of ["bash"; "zsh"; "shell"; "shells"; "shell_command"; "shll"; "shall"] text
  then active_shell_command_name
  else if one_of ["read_media"; "view_media"; "inspect_media"] text then "read_media"
  else if one_of ["web_discover"; "web_search"; "web_fetch"; "discover_web"; "search_web"] text
  then "web_discover"
  else if one_of ["generate_media"; "image_gen"; "generate_image"; "text_to_image"; "t2i"] text
  then "generate_media"
  else text.
Definition command_allowed (command : string) (allowed_commands : option (gset string)) : bool :=
  match allowed_commands with
  | None => true
  | Some allowed =>
      existsb (λ name, bool_decide (canonical_command name = canonical_command command)) (elements allowed)
  end.

(** ** [task_status]: [commands/task_status/mod.rs] *)

(** [string_field], of this file and of [handler_parse.rs]. *)
Definition string_field (object : Map) (names : list string) : option string :=
  find_some (λ name,
    value ← get object name;
    match value with
    | VString text => if is_blank text then None else Some text
    | VObject _ | VArray _ => Some (canonical value)
    | _ => None
    end) names.

Definition parse_task_status_json (trimmed : string) : outcome string Value :=
  match from_str trimmed with
  | Some value => Ok value
  | None =>
      let escaped := escape_control_chars_in_json_strings trimmed in
      if negb (bool_decide (escaped = trimmed))
      then ok_or (from_str escaped) (json_error escaped) else Err (json_error trimmed)
  end.
Definition status_separator (c : string) : bool := is_whitespace c || one_of [":"; "="; ","; ";"] c.
Definition known_status : string → bool := one_of ["doing"; "question"; "done"].
Definition parse_status_text (text : string) : Value :=
  match find_some (λ part, let part := snake part in if known_status part then Some part else None)
          (split_where status_separator (chars text)) with
  | Some status => json_object [("status", VString status)]
  | None => VObject []
  end.

Fixpoint task_types (items : list Value) (out : list string) : outcome string (list string) :=
  match items with
  | [] => Ok out
  | item :: rest =>
      match trim <$> as_str item with
      | Some id =>
          if is_empty id then Err "task_status task_type must be an array of strings"%string
          else if negb (one_of task_type_ids id)
          then Err ("task_status task_type must be one of: " +:+ join ", " task_type_ids)
          else task_types rest (if one_of out id then out else out ++ [id])
      | None => Err "task_status task_type must be an array of strings"%string
      end
  end.
Definition task_type_field (object : Map) (name : string) : outcome string (option (list string)) :=
  match get object name with
  | None => Ok None
  | Some value =>
      items ← ok_or (as_array value) "task_status task_type must be an array of strings"%string;
      out ← task_types items []; Ok (Some out)
  end.

(** The reply, and whether it was given as JSON. *)
Definition final_reply_field (object : Map) (status compact_context : option string)
    : outcome string (option (string * bool)) :=
  match get object "final_reply" with
  | None => Ok None
  | Some value =>
      _ ← reject_if (negb (bool_decide (status = Some "done" ∨ status = Some "question"))
                     || bool_decide (is_Some compact_context))
            "task_status final_reply requires done or question without compact_context"%string;
      let refused := "task_status final_reply must be nonempty text or JSON object/array"%string in
      match value with
      | VString reply => if is_blank reply then Err refused else Ok (Some (reply, false))
      | VObject fields => if bool_decide (fields = []) then Err refused else Ok (Some (canonical value, true))
      | VArray items => if bool_decide (length items = 0%nat) then Err refused else Ok (Some (canonical value, true))
      | _ => Err refused
      end
  end.
Definition present (key : string) (value : option Value) : list (string * Value) :=
  match value with Some value => [(key, value)] | None => [] end.
Definition normalize_output (inline_arguments : option Value) (command_line : string)
    : outcome string Value :=
  let trimmed := trim command_line in
  value ← if is_empty trimmed then Ok (default (VObject []) inline_arguments)
          else if starts_with "{" trimmed
          then map_err (String.append "invalid task_status command_line JSON: ") (parse_task_status_json trimmed)
          else Ok (parse_status_text trimmed);
  object ← ok_or (as_object value) "task_status expects an object"%string;
  let status := snake <$> string_field object ["status"; "task_status"] in
  _ ← reject_if (match status with Some status => negb (known_status status) | None => false end)
        "task_status status must be doing, question, or done"%string;
  let task_group := string_field object ["task_group"] in
  task_type ← task_type_field object "task_type";
  let compact_context := string_field object ["compact_context"] in
  final_reply ← final_reply_field object status compact_context;
  Ok (json_object [("task_status", json_object
    (present "status" (VString <$> status)
     ++ present "task_group" (VString <$> task_group)
     ++ present "task_type" (json_strings <$> task_type)
     ++ present "compact_context" (VString <$> compact_context)
     ++ match final_reply with
        | Some (reply, structured) =>
            ("final_reply", VString reply)
            :: (if structured : bool then [("final_reply_format", VString "json")] else [])
        | None => []
        end))]).

(** ** Items *)

Definition effective_step command : Z := Z.max 1 (default (ci_index command + 1) (ci_step command)).

Definition is_terminal_done command : bool :=
  bool_decide (canonical_command (ci_command command) = "task_status")
  && match normalize_output (ci_inline_arguments command) (ci_command_line command) with
     | Ok output =>
         bool_decide ((status ← value_get output "task_status"; status ← value_get status "status";
                       as_str status) = Some "done"%string)
     | _ => false
     end.

(** [shares]: the call can be built, its tool takes such calls, and it changes
    nothing, as far as the tool can tell. *)
Definition is_macro_command_safe (shares : bool) command : bool :=
  match resolve_command_tool_name (ci_command command) with
  | None => false
  | Some tool_name => if bool_decide (tool_name = "apply_patch") then false else shares
  end.

Definition failed (index step : Z) (command error : string) : CommandRunItemResult := {|
  ri_index := index; ri_step := step; ri_command_type := command; ri_id := None;
  ri_success := false; ri_output := None; ri_error := Some error |}.
Definition blocked (index step : Z) (command error : string) : CommandRunItemResult := {|
  ri_index := index; ri_step := step; ri_command_type := command; ri_id := None;
  ri_success := false; ri_output := Some (sandbox_output error); ri_error := None |}.
Definition terminal_status_failure command (error : string) : CommandRunItemResult := {|
  ri_index := ci_index command; ri_step := effective_step command; ri_command_type := "task_status";
  ri_id := ci_binding_id command; ri_success := false; ri_output := None; ri_error := Some error |}.
Definition command_run_task_status_result command : CommandRunItemResult :=
  match normalize_output (ci_inline_arguments command) (ci_command_line command) with
  | Ok output => {|
      ri_index := ci_index command; ri_step := effective_step command; ri_command_type := "task_status";
      ri_id := ci_binding_id command; ri_success := true; ri_output := Some output; ri_error := None |}
  | Err error => failed (ci_index command) (effective_step command) "task_status" error
  | Panic | OutOfFuel => failed (ci_index command) (effective_step command) "task_status" ""
  end.
Definition is_failed_apply_patch_result r : bool :=
  bool_decide (ri_command_type r = "apply_patch") && negb (ri_success r).

(** [run_command_run_item].  Whether the call was forced to be exclusive decides
    the locks under which the tool runs, and nothing else. *)
Definition run_command_run_item (answers : Answers) command (allowed_commands : option (gset string))
    (sandbox : bool) : CommandRunItemResult :=
  let failed := failed (ci_index command) (effective_step command) in
  if negb (command_allowed (ci_command command) allowed_commands)
  then failed (ci_command command) "unsupported command_run command"%string else
  let canonical := canonical_command (ci_command command) in
  if bool_decide (canonical = "task_status") then
    match an_accepted answers with
    | Some error => failed (ci_command command) error
    | None => command_run_task_status_result command
    end
  else if bool_decide (canonical = "planning")
          && match allowed_commands with Some names => bool_decide ("planning" ∈ names) | None => false end then
    match an_accepted answers with
    | Some error => failed (ci_command command) error
    | None =>
        let '(success, output, stderr) := an_planning answers in {|
          ri_index := ci_index command; ri_step := effective_step command; ri_command_type := "planning";
          ri_id := ci_binding_id command; ri_success := success; ri_output := Some output;
          ri_error := if success then None else Some stderr |}
    end
  else match resolve_command_tool_name (ci_command command) with
  | None => failed (ci_command command) "unsupported command_run command"%string
  | Some command_name =>
      match an_call answers with
      | Some message => failed command_name message
      | None =>
          match (if sandbox then an_sandbox answers else None) with
          | Some message => blocked (ci_index command) (effective_step command) command_name message
          | None =>
              match an_accepted answers with
              | Some error => failed command_name error
              | None =>
                  match an_dispatch answers with
                  | inr (success, output) => {|
                      ri_index := ci_index command; ri_step := effective_step command;
                      ri_command_type := command_name; ri_id := ci_binding_id command;
                      ri_success := success; ri_output := Some output; ri_error := None |}
                  | inl error => failed command_name error
                  end
              end
          end
      end
  end.

(** [resolve_command_bindings] on the fields of an item. *)
Definition resolve_item (bindings : CommandRunOutputBindings) command : outcome string CommandItem :=
  fields ← resolve_command_bindings bindings {|
    bf_command_line := ci_command_line command;
    bf_inline_arguments := ci_inline_arguments command;
    bf_workdir := ci_workdir command |};
  Ok (command.{ci_command_line := bf_command_line fields}
             .{ci_inline_arguments := bf_inline_arguments fields}
             .{ci_workdir := bf_workdir fields}).
End Commands.

(** ** Steps *)

Section Steps.
Context `{JsonNumber}.
Implicit Types (command : CommandItem) (commands : list CommandItem) (r : CommandRunItemResult).

(** [normalize_next_step]: the step and whether it was repaired.  The addition
    is the one of a release build. *)
Definition normalize_next_step (previous : option Z) (repaired : bool) (requested : Z) : Z * bool :=
  let step :=
    match previous with
    | Some previous =>
        if (requested <? previous) || (requested =? previous) && repaired
        then u64_wrapping_add previous 1 else requested
    | None => requested
    end in
  (step, negb (step =? requested)).
Fixpoint normalize_steps (previous : option Z) (repaired : bool) commands : list CommandItem :=
  match commands with
  | [] => []
  | command :: rest =>
      let '(step, repaired) := normalize_next_step previous repaired (effective_step command) in
      command.{ci_step := Some step} :: normalize_steps (Some step) repaired rest
  end.
Definition normalize_command_steps commands : list CommandItem := normalize_steps None false commands.

(** [by_step.entry(step).or_default().push(command)]. *)
Fixpoint push_by_step command (groups : list (Z * list CommandItem)) : list (Z * list CommandItem) :=
  let step := effective_step command in
  match groups with
  | [] => [(step, [command])]
  | (key, group) :: rest =>
      if step <? key then (step, [command]) :: groups
      else if step =? key then (key, group ++ [command]) :: rest
      else (key, group) :: push_by_step command rest
  end.
Definition by_step commands : list (list CommandItem) :=
  (foldl (λ groups command, push_by_step command groups) [] commands).*2.

Definition final_index commands : Z := Z.max 0 (Z.of_nat (length commands) - 1).
Definition final_declared_order commands : bool :=
  match last commands with
  | Some final =>
      forallb (λ command, effective_step command <? effective_step final) (removelast commands)
  | None => true
  end.

(** ** The guard of a terminal status *)

Record CommandRunTerminalStatusGuard := {
  tg_failed_or_unknown : bool;
  tg_prior_step : option Z;
  tg_ambiguous_order : bool;
}.
#[export] Instance eta_Guard : Eta CommandRunTerminalStatusGuard :=
  MkEta (λ g, Build_CommandRunTerminalStatusGuard (tg_failed_or_unknown g) (tg_prior_step g) (tg_ambiguous_order g)).
Definition guard_default : CommandRunTerminalStatusGuard :=
  {| tg_failed_or_unknown := false; tg_prior_step := None; tg_ambiguous_order := false |}.
Implicit Types (guard : CommandRunTerminalStatusGuard).
Definition observe_result guard (success : option bool) : CommandRunTerminalStatusGuard :=
  guard.{tg_failed_or_unknown := tg_failed_or_unknown guard || negb (bool_decide (success = Some true))}.
Definition declared (step : option Z) : option Z :=
  step ← step; if 0 <? step then Some step else None.
Definition observe_step guard (step : option Z) : CommandRunTerminalStatusGuard :=
  match declared step with
  | Some step => guard.{tg_prior_step := Some (Z.max (default 0 (tg_prior_step guard)) step)}
  | None => guard.{tg_ambiguous_order := true}
  end.
Definition done_error guard (step : option Z) (final_command : bool) : option string :=
  if tg_failed_or_unknown guard then Some PRIOR_RESULT_ERROR
  else if negb final_command || tg_ambiguous_order guard
          || match step with
             | None => true
             | Some step =>
                 (step =? 0) || match tg_prior_step guard with Some prior => step <=? prior | None => false end
             end
  then Some ORDER_ERROR
  else None.

(** [results.sort_by_key(|result| (result.step, result.index))], stable. *)
Definition sort_results (results : list CommandRunItemResult) : list CommandRunItemResult :=
  sort_by_key ri_step (sort_by_key ri_index results).
End Steps.

(** ** The executor of a whole batch

    [execute_async] with [run_command_run_step] and [run_macro_command_batch].
    Within a step the commands that may share are gathered until one comes that
    may not, or none is left; then those gathered are in flight together, and
    the one that may not share runs alone. *)

Inductive Stage `{JsonNumber} :=
| Gathering (batch : list CommandItem)
| Sharing (in_flight : list CommandItem) (next : option CommandItem)
| Alone (command : CommandItem).

Record StepRun `{JsonNumber} := {
  sr_step : Z;
  sr_errors : list CommandRunItemResult;
  sr_commands : list CommandItem;
  sr_stage : Stage;
  sr_results : list CommandRunItemResult;
}.
Record Batch `{JsonNumber} := {
  ba_todo : list (list CommandItem);
  ba_now : option StepRun;
  ba_output_bindings : CommandRunOutputBindings;
  ba_guard : CommandRunTerminalStatusGuard;
  ba_results : list CommandRunItemResult;
  ba_cancelled : bool;
  ba_cancel_reason : option string;
}.

Section Batches.
Context `{SerdeJson, !CommandHost}.
Context (may_answer : CommandItem → Answers → Prop).
Context (allowed_commands : option (gset string)) (sandbox : bool).
Implicit Types (command : CommandItem) (commands : list CommandItem) (r : CommandRunItemResult)
  (results : list CommandRunItemResult).

Definition batch_of commands : Batch := {|
  ba_todo := by_step (normalize_command_steps commands); ba_now := None;
  ba_output_bindings := no_bindings; ba_guard := guard_default; ba_results := [];
  ba_cancelled := false; ba_cancel_reason := None |}.

(** A command of a step before it runs: its result if it does not run, or the
    command with its placeholders filled in. *)
Definition screen (bindings : CommandRunOutputBindings) (guard : CommandRunTerminalStatusGuard)
    (step : Z) (sole_final_command : bool) command : CommandRunItemResult + CommandItem :=
  match resolve_item bindings command with
  | Ok resolved =>
      match (if is_terminal_done resolved then done_error guard (Some step) sole_final_command else None) with
      | Some error => inl (terminal_status_failure resolved error)
      | None => inr resolved
      end
  | Err error => inl (failed (ci_index command) (effective_step command) (ci_command command) error)
  | Panic | OutOfFuel => inl (failed (ci_index command) (effective_step command) (ci_command command) "")
  end.
Definition lefts {A B} (l : list (A + B)) : list A := omap (λ x, match x with inl a => Some a | inr _ => None end) l.
Definition rights {A B} (l : list (A + B)) : list B := omap (λ x, match x with inr b => Some b | inl _ => None end) l.
Definition step_of commands : Z := match commands with command :: _ => effective_step command | [] => 0 end.
Definition sole_final_command (batch : list CommandItem) commands : bool :=
  match commands with
  | [command] => (ci_index command =? final_index batch) && final_declared_order batch
  | _ => false
  end.
Definition screened (batch : list CommandItem) bindings guard commands : list (CommandRunItemResult + CommandItem) :=
  screen bindings guard (step_of commands) (sole_final_command batch commands) <$> commands.

Definition observe (guard : CommandRunTerminalStatusGuard) (step : Z) results : CommandRunTerminalStatusGuard :=
  foldl (λ guard r, observe_result guard (Some (ri_success r))) (observe_step guard (Some step)) results.
Definition publish (bindings : CommandRunOutputBindings) results : CommandRunOutputBindings :=
  foldl (λ bindings r,
    match (if ri_success r then ri_output r else None) with
    | Some output => bindings_insert bindings (ri_command_type r) (ri_id r) output
    | None => bindings
    end) bindings results.
(** The end of a step: its results are observed, published and kept. *)
Definition close_step (s : Batch) (run : StepRun) (cancelled : bool) : Batch :=
  let step_results := sort_results (sr_errors run ++ sr_results run) in {|
    ba_todo := ba_todo s; ba_now := None;
    ba_output_bindings := publish (ba_output_bindings s) step_results;
    ba_guard := observe (ba_guard s) (sr_step run) step_results;
    ba_results := ba_results s ++ step_results;
    ba_cancelled := cancelled;
    ba_cancel_reason := if cancelled then Some APPLY_PATCH_FAILURE_CANCEL_REASON else None |}.

Definition with_now (s : Batch) (run : StepRun) : Batch := {|
  ba_todo := ba_todo s; ba_now := Some run; ba_output_bindings := ba_output_bindings s;
  ba_guard := ba_guard s; ba_results := ba_results s; ba_cancelled := ba_cancelled s;
  ba_cancel_reason := ba_cancel_reason s |}.
Definition with_stage (run : StepRun) commands (stage : Stage) results : StepRun := {|
  sr_step := sr_step run; sr_errors := sr_errors run; sr_commands := commands;
  sr_stage := stage; sr_results := results |}.

(** A move within a step: the next stage, and the results so far. *)
Inductive run_step (run : StepRun) : StepRun → Prop :=
| run_gather command rest batch :
    sr_stage run = Gathering batch → sr_commands run = command :: rest →
    is_macro_command_safe true command = true →
    run_step run (with_stage run rest (Gathering (batch ++ [command])) (sr_results run))
| run_launch command rest batch :
    sr_stage run = Gathering batch → sr_commands run = command :: rest →
    run_step run (with_stage run rest (Sharing batch (Some command)) (sr_results run))
| run_launch_last batch :
    sr_stage run = Gathering batch → sr_commands run = [] →
    run_step run (with_stage run [] (Sharing batch None) (sr_results run))
| run_answer before command after next answers :
    sr_stage run = Sharing (before ++ command :: after) next → may_answer command answers →
    run_step run (with_stage run (sr_commands run) (Sharing (before ++ after) next)
      (sr_results run ++ [run_command_run_item answers command allowed_commands sandbox]))
| run_next command :
    sr_stage run = Sharing [] (Some command) →
    run_step run (with_stage run (sr_commands run) (Alone command) (sr_results run))
| run_alone command answers :
    let r := run_command_run_item answers command allowed_commands sandbox in
    sr_stage run = Alone command → may_answer command answers →
    is_failed_apply_patch_result r = false →
    run_step run (with_stage run (sr_commands run) (Gathering []) (sr_results run ++ [r])).

Inductive batch_step (batch : list CommandItem) (s : Batch) : Batch → Prop :=
| batch_begin commands rest :
    ba_now s = None → ba_cancelled s = false → ba_todo s = commands :: rest →
    let screened := screened batch (ba_output_bindings s) (ba_guard s) commands in
    batch_step batch s
      {| ba_todo := rest;
         ba_now := Some {| sr_step := step_of commands; sr_errors := lefts screened;
                           sr_commands := rights screened; sr_stage := Gathering []; sr_results := [] |};
         ba_output_bindings := ba_output_bindings s; ba_guard := ba_guard s;
         ba_results := ba_results s; ba_cancelled := false; ba_cancel_reason := ba_cancel_reason s |}
| batch_run run run' :
    ba_now s = Some run → run_step run run' → batch_step batch s (with_now s run')
| batch_end run :
    ba_now s = Some run → sr_stage run = Sharing [] None → batch_step batch s (close_step s run false)
| batch_stop run command answers :
    ba_now s = Some run → sr_stage run = Alone command → may_answer command answers →
    let r := run_command_run_item answers command allowed_commands sandbox in
    is_failed_apply_patch_result r = true →
    batch_step batch s (close_step s (with_stage run (sr_commands run) (sr_stage run) (sr_results run ++ [r])) true).

Definition batch_reachable commands (s : Batch) : Prop := rtc (batch_step commands) (batch_of commands) s.
Definition batch_over (s : Batch) : Prop := ba_now s = None ∧ (ba_cancelled s = true ∨ ba_todo s = []).
Definition batch_output (s : Batch) : CommandRunOutput := {|
  co_results := sort_results (ba_results s);
  co_cancelled := if ba_cancelled s then Some true else None;
  co_cancel_reason := ba_cancel_reason s |}.
(** The commands that have started and not answered yet. *)
Definition running (s : Batch) : list CommandItem :=
  match ba_now s with
  | Some run => match sr_stage run with
                | Sharing in_flight _ => in_flight
                | Alone command => [command]
                | Gathering _ => []
                end
  | None => []
  end.
Definition results_so_far (s : Batch) : list CommandRunItemResult :=
  ba_results s ++ match ba_now s with Some run => sr_errors run ++ sr_results run | None => [] end.
End Batches.

(** ** The executor that receives a batch command by command

    [StreamingCommandRunExecutor].  A command that may share is spawned and
    awaited by the same call, so no task is in flight between two calls; the
    receiver's answer to a task that panics is not modelled. *)

Record Streaming `{JsonNumber} := {
  sx_receipt_store_error : option string;
  sx_active_step : option Z;
  sx_active_step_repaired : bool;
  sx_next_index : Z;
  sx_results : list CommandRunItemResult;
  sx_output_bindings : CommandRunOutputBindings;
  sx_pending_binding_results : list CommandRunItemResult;
  sx_guard : CommandRunTerminalStatusGuard;
  sx_pending_done : option CommandItem;
  sx_halted : bool;
  sx_halt_reason : option string;
}.
#[export] Instance eta_Streaming `{JsonNumber} : Eta Streaming :=
  MkEta (λ x, Build_Streaming _ (sx_receipt_store_error x) (sx_active_step x) (sx_active_step_repaired x)
    (sx_next_index x) (sx_results x) (sx_output_bindings x) (sx_pending_binding_results x) (sx_guard x)
    (sx_pending_done x) (sx_halted x) (sx_halt_reason x)).

Section StreamingExecutor.
Context `{SerdeJson, !CommandHost}.
Context (allowed_commands : option (gset string)) (sandbox : bool).
Implicit Types (self : Streaming) (command : CommandItem) (r : CommandRunItemResult).

(** [receipt_store_error]: whether the store of receipts could be bound. *)
Definition streaming_new (receipt_store_error : option string) : Streaming := {|
  sx_receipt_store_error := receipt_store_error; sx_active_step := None; sx_active_step_repaired := false;
  sx_next_index := 0; sx_results := []; sx_output_bindings := no_bindings;
  sx_pending_binding_results := []; sx_guard := guard_default; sx_pending_done := None;
  sx_halted := false; sx_halt_reason := None |}.

Definition accept_result self r : Streaming :=
  self.{sx_guard := observe_result (sx_guard self) (Some (ri_success r))}
      .{sx_pending_binding_results := sx_pending_binding_results self ++ [r] }
      .{sx_results := sx_results self ++ [r] }.
Definition publish_pending_bindings self : Streaming :=
  self.{sx_output_bindings := publish (sx_output_bindings self) (sx_pending_binding_results self)}
      .{sx_pending_binding_results := [] }.
Definition drain_finished_results self : Streaming * list CommandRunItemResult :=
  (self.{sx_results := [] }, sort_results (sx_results self)).
Definition observes_step self (step : option Z) : Streaming :=
  self.{sx_guard := observe_step (sx_guard self) step}.
Definition halt_after_apply_patch_failure self : Streaming :=
  self.{sx_halted := true}.{sx_halt_reason := Some APPLY_PATCH_FAILURE_CANCEL_REASON}.
Definition reject_pending_done self : Streaming :=
  match sx_pending_done self with
  | Some done => accept_result (self.{sx_pending_done := None}) (terminal_status_failure done ORDER_ERROR)
  | None => self
  end.
Definition refuse_push self (step : Z) (error : string) : Streaming * list CommandRunItemResult :=
  let self := accept_result self (failed (sx_next_index self) step "command_run" error) in
  drain_finished_results (self.{sx_next_index := sx_next_index self + 1}).

(** A command with its step, once the bindings of earlier steps are known. *)
Definition push_resolved self command (ordered_step : option Z)
    (answers : CommandItem → Answers) (shares : CommandItem → bool) : Streaming * list CommandRunItemResult :=
  match resolve_item (sx_output_bindings self) command with
  | Ok command =>
      if is_terminal_done command then
        match done_error (sx_guard self) ordered_step true with
        | Some error =>
            drain_finished_results
              (accept_result (observes_step self ordered_step) (terminal_status_failure command error))
        | None => drain_finished_results (self.{sx_pending_done := Some command})
        end
      else
        let r := run_command_run_item (answers command) command allowed_commands sandbox in
        let self := accept_result (observes_step self ordered_step) r in
        drain_finished_results
          (if negb (is_macro_command_safe (shares command) command) && is_failed_apply_patch_result r
           then halt_after_apply_patch_failure self else self)
  | Err error =>
      drain_finished_results
        (accept_result (observes_step self ordered_step)
           (failed (ci_index command) (effective_step command) (ci_command command) error))
  | Panic | OutOfFuel => (self, [])
  end.

(** [parsed]: the one command that [parse_single_streamed_command] reads, or its
    error; [raw_step]: the number in the field [step], or 1; [answers], [shares]:
    what the tools say of the command once its placeholders are filled in. *)
Definition push_command_value self (raw_step : Z) (parsed : string + CommandItem)
    (answers : CommandItem → Answers) (shares : CommandItem → bool) : Streaming * list CommandRunItemResult :=
  let self := reject_pending_done self in
  match sx_receipt_store_error self with
  | Some error => refuse_push self raw_step error
  | None =>
      if sx_halted self then (self, []) else
      match parsed with
      | inl message => refuse_push self raw_step message
      | inr command =>
          let command := command.{ci_index := sx_next_index self} in
          let self := self.{sx_next_index := sx_next_index self + 1} in
          let '(step, repaired) :=
            normalize_next_step (sx_active_step self) (sx_active_step_repaired self) (effective_step command) in
          let ordered_step := declared_step ← declared (ci_step command);
                              if declared_step =? step then Some declared_step else None in
          let command := command.{ci_step := Some step} in
          let changes := match sx_active_step self with Some current => negb (step =? current) | None => false end in
          let self := if changes then publish_pending_bindings self else self in
          push_resolved (self.{sx_active_step := Some step}.{sx_active_step_repaired := repaired})
            command ordered_step answers shares
      end
  end.

Definition finish self (answers : CommandItem → Answers) : list CommandRunItemResult :=
  if sx_halted self then sort_results (sx_results self) else
  match sx_pending_done self with
  | Some command =>
      let r := match done_error (sx_guard self) (Some (effective_step command)) true with
               | Some error => terminal_status_failure command error
               | None => run_command_run_item (answers command) command allowed_commands sandbox
               end in
      sort_results (sx_results (accept_result self r))
  | None => sort_results (sx_results self)
  end.
End StreamingExecutor.
