(* ===== verification/CommandBatchFacts.v ===== *)
(** * What the executors of a batch guarantee

    Steps are barriers; a batch that ends runs as if its commands ran one by
    one; a terminal status is the last word; both executors agree. *)

From stdpp Require Import base list strings gmap sorting relations.
From Stdlib Require Import ZArith Lia Ascii.
From S2P Require Import Prelude RustStd Externals TaskIdentity RustText JSpaceScopes JSpaceJson PatchParse.
From S2P Require Import OutputBindings CommandBatch.
Open Scope Z_scope.

(** ** Sorting *)

Section Sorted.
Context {A : Type} (key : A → Z).

Lemma sort_by_key_id l : StronglySorted (λ a b, key a ≤ key b) l → sort_by_key key l = l.
Proof.
  induction 1 as [|x l _ IH Hx]; simpl; [done|]. rewrite IH. destruct l as [|y l]; [done|].
  simpl. apply Forall_cons in Hx as [Hx _]. by apply Z.leb_le in Hx as ->.
Qed.

Lemma increasing_unique l k :
  l ≡ₚ k → StronglySorted (λ a b, key a ≤ key b) l → StronglySorted (λ a b, key a < key b) k → l = k.
Proof.
  revert k. induction l as [|x l IH]; intros k Hp Hl Hk.
  { symmetry in Hp. by apply Permutation_nil_r in Hp as ->. }
  destruct k as [|y k]; [by apply Permutation_nil_r in Hp|].
  apply StronglySorted_inv in Hl as [Hl Hx]. apply StronglySorted_inv in Hk as [Hk Hy].
  rewrite Forall_forall in Hx, Hy.
  assert (x = y) as ->.
  { assert (x ∈ y :: k) as Hxk by (rewrite <- Hp; apply list_elem_of_here).
    assert (y ∈ x :: l) as Hyl by (rewrite Hp; apply list_elem_of_here).
    apply elem_of_cons in Hxk as [?|Hxk]; [done|]. apply elem_of_cons in Hyl as [?|Hyl]; [done|].
    apply Hx in Hyl. apply Hy in Hxk. lia. }
  f_equal. apply IH; [by apply Permutation_cons_inv in Hp|done|done].
Qed.
Lemma sort_by_key_increasing l k :
  l ≡ₚ k → StronglySorted (λ a b, key a < key b) k → sort_by_key key l = k.
Proof. intros Hp. apply increasing_unique; [by rewrite sort_by_key_perm|apply sort_by_key_sorted]. Qed.
End Sorted.

Lemma StronglySorted_map {A B} (f : A → B) (R : B → B → Prop) (S : A → A → Prop) l :
  (∀ a b, S a b → R (f a) (f b)) → StronglySorted S l → StronglySorted R (f <$> l).
Proof.
  intros Hf. induction 1 as [|x l _ IH Hx]; simpl; constructor; [done|].
  apply Forall_fmap. eapply Forall_impl; [exact Hx|]. intros y. apply Hf.
Qed.
Lemma StronglySorted_join {A} (R : A → A → Prop) l k :
  StronglySorted R (l ++ k) ↔ StronglySorted R l ∧ StronglySorted R k ∧ ∀ x y, x ∈ l → y ∈ k → R x y.
Proof.
  induction l as [|x l IH]; simpl.
  - split; [|by intros (_ & ? & _)]. intros H. split_and!; [constructor|done|]. by intros x y ?%not_elem_of_nil.
  - split.
    + intros [Hs Hx]%StronglySorted_inv. apply IH in Hs as (Hl & Hk & Hlk). apply Forall_app in Hx as [Hxl Hxk].
      split_and!; [by constructor|done|]. intros y z [->|Hy]%elem_of_cons Hz; [|by apply Hlk].
      by eapply Forall_forall in Hxk.
    + intros ([Hl Hx]%StronglySorted_inv & Hk & Hlk). constructor.
      * apply IH. split_and!; [done|done|]. intros y z Hy Hz. apply Hlk; [by right|done].
      * apply Forall_app. split; [done|]. apply Forall_forall. intros z Hz. apply Hlk; [by left|done].
Qed.

(** Both orders of results at once. *)
Definition in_order `{JsonNumber} (r r' : CommandRunItemResult) : Prop :=
  ri_step r ≤ ri_step r' ∧ ri_index r < ri_index r'.
Lemma sort_results_perm `{JsonNumber} l k : l ≡ₚ k → StronglySorted in_order k → sort_results l = k.
Proof.
  intros Hp Hk. unfold sort_results. rewrite (sort_by_key_increasing ri_index l k); [|done|].
  - apply sort_by_key_id. rewrite <- (list_fmap_id k). by eapply StronglySorted_map; [|exact Hk]; intros ? ? [].
  - rewrite <- (list_fmap_id k). by eapply StronglySorted_map; [|exact Hk]; intros ? ? [].
Qed.

(** ** Steps after normalization *)

Section Steps.
Context `{JsonNumber}.
Implicit Types (command : CommandItem) (commands : list CommandItem).

(** [parse_args] numbers the commands of a batch. *)
Definition numbered_from (i : Z) commands : Prop :=
  ∀ k command, commands !! k = Some command → ci_index command = i + Z.of_nat k.
Definition numbered : list CommandItem → Prop := numbered_from 0.
(** No repaired step exceeds 64 bits. *)
Definition steps_fit commands : Prop :=
  Forall (λ command, effective_step command + Z.of_nat (length commands) ≤ u64_max) commands.

Lemma effective_step_pos command : 1 ≤ effective_step command.
Proof. unfold effective_step. lia. Qed.
Lemma effective_step_set command step : 1 ≤ step → effective_step (command.{ci_step := Some step}) = step.
Proof. unfold effective_step. simpl. lia. Qed.

Lemma normalize_next previous repaired requested n :
  match previous with Some p => 1 ≤ p ∧ p + Z.of_nat (S n) ≤ u64_max | None => True end →
  1 ≤ requested → requested + Z.of_nat (S n) ≤ u64_max →
  ∃ step, (normalize_next_step previous repaired requested).1 = step
    ∧ default 0 previous ≤ step ∧ 1 ≤ step ∧ step + Z.of_nat n ≤ u64_max.
Proof.
  intros Hp Hr Hf. eexists. split; [done|]. unfold normalize_next_step. simpl.
  destruct previous as [p|]; simpl; [|lia].
  destruct ((requested <? p) || (requested =? p) && repaired) eqn:E; [|lia].
  unfold u64_wrapping_add. rewrite Z.mod_small; unfold u64_max in *; lia.
Qed.

Definition restepped command command' : Prop := ∃ step, command' = command.{ci_step := Some step}.
Lemma normalize_steps_spec commands : ∀ previous repaired,
  match previous with Some p => 1 ≤ p ∧ p + Z.of_nat (length commands) ≤ u64_max | None => True end →
  steps_fit commands →
  Forall2 restepped commands (normalize_steps previous repaired commands)
  ∧ StronglySorted (λ a b, effective_step a ≤ effective_step b) (normalize_steps previous repaired commands)
  ∧ Forall (λ c, default 0 previous ≤ effective_step c) (normalize_steps previous repaired commands).
Proof.
  unfold steps_fit. induction commands as [|c commands IH]; intros previous repaired Hp Hf.
  { split_and!; constructor. }
  apply Forall_cons in Hf as [Hc Hf]. cbn [normalize_steps length].
  destruct (normalize_next previous repaired (effective_step c) (length commands)) as (step & Hstep & Hle & Hpos & Hfit);
    [done|apply effective_step_pos|done|].
  destruct (normalize_next_step _ _ _) as [step' repaired']. simpl in Hstep. subst step'.
  destruct (IH (Some step) repaired') as (IH1 & IH2 & IH3); [done| |].
  { eapply Forall_impl; [exact Hf|]. simpl. intros. lia. }
  split_and!.
  - constructor; [by eexists|done].
  - constructor; [done|]. rewrite effective_step_set by done. exact IH3.
  - constructor; [by rewrite effective_step_set|]. eapply Forall_impl; [exact IH3|]. simpl. lia.
Qed.
Lemma normalized commands :
  steps_fit commands →
  Forall2 restepped commands (normalize_command_steps commands)
  ∧ StronglySorted (λ a b, effective_step a ≤ effective_step b) (normalize_command_steps commands).
Proof. intros Hf. destruct (normalize_steps_spec commands None false) as (? & ? & _); done. Qed.

Lemma restepped_numbered commands commands' i :
  Forall2 restepped commands commands' → numbered_from i commands → numbered_from i commands'.
Proof.
  intros Hr Hn k c' Hc'. destruct (Forall2_lookup_r _ _ _ _ _ Hr Hc') as (c & Hc & step & ->). exact (Hn k c Hc).
Qed.
Lemma numbered_sorted commands i :
  numbered_from i commands → StronglySorted (λ a b, ci_index a < ci_index b) commands.
Proof.
  revert i. induction commands as [|c commands IH]; intros i Hn; constructor.
  - apply (IH (i + 1)). intros k d Hd. rewrite (Hn (S k) d Hd). lia.
  - apply Forall_forall. intros d [k Hk]%list_elem_of_lookup.
    rewrite (Hn (S k) d Hk), (Hn O c eq_refl). lia.
Qed.

(** ** Groups *)

(** The commands of a step, in batches of increasing steps. *)
Definition group_ok (group : list CommandItem) : Prop :=
  group ≠ [] ∧ Forall (λ c, effective_step c = step_of group) group.
Definition layered (groups : list (list CommandItem)) : Prop :=
  Forall group_ok groups ∧ StronglySorted (λ g g', step_of g < step_of g') groups.

Lemma same_steps_sorted step commands :
  Forall (λ c, effective_step c = step) commands →
  StronglySorted (λ a b, effective_step a ≤ effective_step b) commands.
Proof.
  induction 1 as [|c commands Hc Hcs IH]; constructor; [done|].
  eapply Forall_impl; [exact Hcs|]. simpl. intros. lia.
Qed.

Lemma push_by_step_last command past key group :
  Forall (λ g : Z * list CommandItem, g.1 < key) past → key ≤ effective_step command →
  push_by_step command (past ++ [(key, group)])
  = if effective_step command =? key then past ++ [(key, group ++ [command])]
    else past ++ [(key, group); (effective_step command, [command])].
Proof.
  intros Hpast Hkey. induction Hpast as [|[k g] past Hk _ IH]; simpl.
  - destruct (Z.ltb_spec (effective_step command) key); [lia|]. by destruct (_ =? _).
  - simpl in Hk. destruct (Z.ltb_spec (effective_step command) k); [lia|].
    destruct (Z.eqb_spec (effective_step command) k); [lia|]. rewrite IH. by destruct (_ =? _).
Qed.

(** The groups so far, the last of them still open at a step. *)
Definition keyed (groups : list (Z * list CommandItem)) : Prop :=
  Forall (λ g, group_ok g.2 ∧ step_of g.2 = g.1) groups ∧ StronglySorted (λ g g', g.1 < g'.1) groups.
Lemma push_by_step_spec command groups :
  keyed groups → Forall (λ g, g.1 ≤ effective_step command) groups →
  keyed (push_by_step command groups)
  ∧ concat (push_by_step command groups).*2 = concat groups.*2 ++ [command]
  ∧ Forall (λ g, g.1 ≤ effective_step command) (push_by_step command groups).
Proof.
  intros [Hg Hs] Hle. destruct groups as [|[key group] past _] using rev_ind.
  { simpl. split_and!; [|done|by repeat constructor]. split; repeat constructor; done. }
  apply StronglySorted_join in Hs as (Hs & _ & Hlt). apply Forall_app in Hg as [Hg Hlast].
  apply Forall_app in Hle as [Hle Hk]. apply Forall_singleton in Hlast as [[Hne Hall] Hkey].
  apply Forall_cons in Hk as [Hk _]. simpl in *.
  assert (Forall (λ g : Z * list CommandItem, g.1 < key) past) as Hpast.
  { apply Forall_forall. intros g Hin. apply (Hlt g (key, group)); [done|by apply list_elem_of_singleton]. }
  rewrite push_by_step_last by done. destruct (Z.eqb_spec (effective_step command) key) as [Heq|Hneq].
  - split_and!.
    + split.
      * apply Forall_app. split; [done|]. apply Forall_singleton. simpl.
        assert (step_of (group ++ [command]) = key) as Hst by (by destruct group).
        split; [|done]. split; [by destruct group|]. rewrite Hst. apply Forall_app. split.
        { eapply Forall_impl; [exact Hall|]. simpl. lia. } by apply Forall_singleton.
      * apply StronglySorted_join. split_and!; [done|repeat constructor|].
        intros g g' Hin ->%list_elem_of_singleton. by eapply Forall_forall in Hpast.
    + rewrite !fmap_app, !concat_app. simpl. rewrite !app_nil_r. by rewrite app_assoc.
    + apply Forall_app. split; [done|]. apply Forall_singleton. simpl. lia.
  - split_and!.
    + split.
      * apply Forall_app. split; [done|]. repeat constructor; simpl; done.
      * apply StronglySorted_join. split_and!; [done| |].
        { repeat constructor. simpl. lia. }
        intros g g' Hin Hin'. assert (g.1 < key) by (by eapply Forall_forall in Hpast).
        apply elem_of_cons in Hin' as [->|Heq%list_elem_of_singleton]; [|subst g']; simpl; lia.
    + rewrite !fmap_app, !concat_app. simpl. rewrite !app_nil_r. by rewrite app_assoc.
    + apply Forall_app. split; [done|]. repeat constructor; simpl; lia.
Qed.

Lemma by_step_from commands : ∀ groups,
  keyed groups → StronglySorted (λ a b, effective_step a ≤ effective_step b) commands →
  Forall (λ g, Forall (λ c, g.1 ≤ effective_step c) commands) groups →
  let groups' := foldl (λ groups command, push_by_step command groups) groups commands in
  keyed groups' ∧ concat groups'.*2 = concat groups.*2 ++ commands.
Proof.
  induction commands as [|c commands IH]; intros groups Hg Hs Hle; simpl.
  { by rewrite app_nil_r. }
  apply StronglySorted_inv in Hs as [Hs Hc].
  destruct (push_by_step_spec c groups) as (Hg' & Hcat & Hle'); [done| |].
  { eapply Forall_impl; [exact Hle|]. by intros g [? _]%Forall_cons. }
  destruct (IH (push_by_step c groups)) as [Hk Hcat']; [done|done| |].
  - eapply Forall_impl; [exact Hle'|]. intros g Hgc. eapply Forall_impl; [exact Hc|]. simpl in *. lia.
  - split; [done|]. rewrite Hcat', Hcat, <- app_assoc. done.
Qed.
Lemma keyed_layered groups : keyed groups → layered groups.*2.
Proof.
  intros [Hg Hk]. split.
  - apply Forall_fmap. eapply Forall_impl; [exact Hg|]. intros g [Hok _]. exact Hok.
  - induction Hk as [|g groups _ IH Hk]; simpl; [constructor|]. apply Forall_cons in Hg as [[_ Hg] Hgs].
    constructor; [by apply IH|]. apply Forall_fmap. rewrite Forall_forall in Hgs, Hk |- *.
    intros g' Hin. simpl. destruct (Hgs g' Hin) as [_ ->]. rewrite Hg. by apply Hk.
Qed.
Lemma by_step_layered commands :
  StronglySorted (λ a b, effective_step a ≤ effective_step b) commands →
  layered (by_step commands) ∧ concat (by_step commands) = commands.
Proof.
  intros Hs. destruct (by_step_from commands []) as [Hk Hcat]; [|done|constructor|].
  { split; constructor. }
  split; [by apply keyed_layered|done].
Qed.
End Steps.

(** ** Commands keep their place *)

Section Places.
Context `{SerdeJson, !CommandHost}.
Implicit Types (command : CommandItem) (r : CommandRunItemResult).

Definition place_of command r : Prop := ri_index r = ci_index command ∧ ri_step r = effective_step command.

Lemma resolve_item_keeps bindings command command' :
  resolve_item bindings command = Ok command' →
  ci_index command' = ci_index command ∧ effective_step command' = effective_step command
  ∧ ci_command command' = ci_command command.
Proof. unfold resolve_item. intros Hr. outcome_inv. done. Qed.
Lemma each_ok_settles {A} (l : list (outcome string A)) : Forall settles l → settles (each_ok l).
Proof.
  induction 1 as [|m l Hm _ IH]; [apply settles_Ok|]. simpl.
  apply settles_bind; [done|intros x]. apply settles_bind; [done|intros; apply settles_Ok].
Qed.
Lemma interpolate_value_settles bindings value : settles (interpolate_value bindings value).
Proof.
  induction value as [| | |text|items IH|fields IH] using Value_nested_ind; simpl; try apply settles_Ok.
  - destruct (exact_placeholder_expression text); [apply binding_settles|].
    destruct (contains_text _ _); [|apply settles_Ok].
    apply settles_bind; [|intros; apply settles_Ok]. apply (interpolate_text_exact bindings text "").
  - apply settles_bind; [|intros; apply settles_Ok]. by apply each_ok_settles, Forall_fmap.
  - apply settles_bind; [|intros; apply settles_Ok]. apply each_ok_settles, Forall_fmap.
    eapply Forall_impl; [exact IH|]. intros f Hf. simpl. apply settles_bind; [done|intros; apply settles_Ok].
Qed.
Lemma interpolate_command_line_settles bindings input : settles (interpolate_command_line bindings input).
Proof.
  unfold interpolate_command_line. destruct (negb _); [apply settles_Ok|].
  destruct (parse_json_document input).
  - apply settles_bind; [apply interpolate_value_settles|intros; apply settles_Ok].
  - apply (interpolate_text_exact bindings input "").
Qed.
Lemma resolve_item_answers bindings command : settles (resolve_item bindings command).
Proof.
  unfold resolve_item, resolve_command_bindings. simpl.
  assert (∀ input, settles (interpolate_command_line bindings input)) as Hline by apply interpolate_command_line_settles.
  repeat (apply settles_bind; [|intros ?]); try apply settles_Ok; [done| |].
  - destruct (ci_inline_arguments command); [|apply settles_Ok].
    apply settles_bind; [apply interpolate_value_settles|intros; apply settles_Ok].
  - destruct (ci_workdir command); [|apply settles_Ok]. destruct (contains_text _ _); [|apply settles_Ok].
    apply settles_bind; [done|intros; apply settles_Ok].
Qed.

Lemma task_status_result_place command : place_of command (command_run_task_status_result command).
Proof. unfold command_run_task_status_result. by destruct (normalize_output _ _). Qed.
Lemma run_item_place answers command allowed sandbox :
  place_of command (run_command_run_item answers command allowed sandbox).
Proof.
  unfold run_command_run_item. destruct (negb _); [done|].
  destruct (bool_decide (canonical_command _ = "task_status")).
  { destruct (an_accepted answers); [done|apply task_status_result_place]. }
  destruct (_ && _). { destruct (an_accepted answers); [done|]. by destruct (an_planning answers) as [[] ?]. }
  destruct (resolve_command_tool_name _); [|done]. destruct (an_call answers); [done|].
  destruct (if sandbox then _ else _); [done|]. destruct (an_accepted answers); [done|].
  by destruct (an_dispatch answers) as [|[]].
Qed.

Lemma screen_inl bindings guard step sole command r :
  screen bindings guard step sole command = inl r → place_of command r.
Proof.
  unfold screen. destruct (resolve_item bindings command) as [command'| | |] eqn:Hr; [|by intros [= <-]..].
  apply resolve_item_keeps in Hr as (Hi & Hs & _). case_match; [|done]. intros [= <-]. by split.
Qed.
Lemma screen_inr bindings guard step sole command command' :
  screen bindings guard step sole command = inr command' →
  resolve_item bindings command = Ok command'
  ∧ (is_terminal_done command' = true → done_error guard (Some step) sole = None).
Proof.
  unfold screen. destruct (resolve_item bindings command) as [resolved| | |] eqn:Hr; [|done..].
  destruct (is_terminal_done resolved) eqn:Hd; [|intros [= <-]; rewrite Hd; done].
  destruct (done_error guard (Some step) sole) eqn:He; [done|]. intros [= <-]. done.
Qed.
End Places.

(** ** One command at a time *)

Section Executor.
Context `{SerdeJson, !CommandHost}.
Context (may_answer : CommandItem → Answers → Prop).
Context (allowed_commands : option (gset string)) (sandbox : bool).
Implicit Types (command : CommandItem) (commands batch : list CommandItem) (r : CommandRunItemResult)
  (bindings : CommandRunOutputBindings) (guard : CommandRunTerminalStatusGuard) (s : Batch) (run : StepRun).

(** A command that ran and gave a result.  One that may not share, such as a
    patch, ran alone, and the batch went on, so it did not fail as a patch. *)
Definition ran command r : Prop :=
  ∃ answers, may_answer command answers
    ∧ r = run_command_run_item answers command allowed_commands sandbox
    ∧ (is_macro_command_safe true command = false → is_failed_apply_patch_result r = false).
Definition settles_as (screened : CommandRunItemResult + CommandItem) r : Prop :=
  match screened with inl r' => r = r' | inr command => ran command r end.

(** The commands of a batch one by one, in order; what a step publishes is seen
    by the steps after it. *)
Inductive one_by_one batch : list (list CommandItem) → CommandRunOutputBindings →
    CommandRunTerminalStatusGuard → list CommandRunItemResult → Prop :=
| one_by_one_start : one_by_one batch [] no_bindings guard_default []
| one_by_one_step past bindings guard results group rs :
    one_by_one batch past bindings guard results →
    Forall2 settles_as (screened batch bindings guard group) rs →
    one_by_one batch (past ++ [group]) (publish bindings rs) (observe guard (step_of group) rs)
      (results ++ rs).

Lemma ran_place command r : ran command r → place_of command r.
Proof. intros (answers & _ & -> & _). apply run_item_place. Qed.
Lemma settles_as_place bindings guard step sole command r :
  settles_as (screen bindings guard step sole command) r → place_of command r.
Proof.
  destruct (screen _ _ _ _ _) as [r'|command'] eqn:Hs; simpl.
  - intros ->. by eapply screen_inl.
  - apply screen_inr in Hs as [Hr _]. apply resolve_item_keeps in Hr as (Hi & Hst & _).
    intros [Hri Hrs]%ran_place. split; congruence.
Qed.
Lemma settled_places batch bindings guard group rs :
  Forall2 settles_as (screened batch bindings guard group) rs → Forall2 place_of group rs.
Proof.
  unfold screened. rewrite Forall2_fmap_l. intros Hf. eapply Forall2_impl; [exact Hf|].
  intros c r. apply settles_as_place.
Qed.
Lemma one_by_one_places batch past bindings guard results :
  one_by_one batch past bindings guard results → Forall2 place_of (concat past) results.
Proof.
  induction 1 as [|past bindings guard results group rs _ IH Hrs]; [constructor|].
  rewrite concat_app. simpl. rewrite app_nil_r. apply Forall2_app; [done|]. by eapply settled_places.
Qed.

Lemma places_in_order commands results :
  Forall2 place_of commands results →
  StronglySorted (λ a b, ci_index a < ci_index b) commands →
  StronglySorted (λ a b, effective_step a ≤ effective_step b) commands →
  StronglySorted in_order results.
Proof.
  induction 1 as [|c r commands results [Hi Hs] Hr IH]; [constructor|].
  intros [Hsi Hci]%StronglySorted_inv [Hss Hcs]%StronglySorted_inv. constructor; [by apply IH|].
  apply Forall_forall. intros r' [k Hk]%list_elem_of_lookup.
  destruct (Forall2_lookup_r _ _ _ _ _ Hr Hk) as (c' & Hc' & Hi' & Hs').
  apply list_elem_of_lookup_2 in Hc'. rewrite Forall_forall in Hci, Hcs.
  specialize (Hci c' Hc'). specialize (Hcs c' Hc'). split; lia.
Qed.

(** ** Within a step *)

Definition may_share command : Prop := is_macro_command_safe true command = true.
Definition stage_commands (stage : Stage) : list CommandItem :=
  match stage with
  | Gathering batch => batch
  | Sharing in_flight next => in_flight ++ option_list next
  | Alone command => [command]
  end.
Definition stage_ok (stage : Stage) commands : Prop :=
  match stage with
  | Gathering batch => Forall may_share batch
  | Sharing in_flight next => Forall may_share in_flight ∧ (next = None → commands = [])
  | Alone _ => True
  end.
Record run_ok (step : Z) (screened : list (CommandRunItemResult + CommandItem)) run : Prop := {
  ro_step : sr_step run = step;
  ro_errors : sr_errors run = lefts screened;
  ro_commands : ∃ answered,
    sr_results run = answered.*2 ∧ Forall (λ p, ran p.1 p.2) answered
    ∧ rights screened ≡ₚ answered.*1 ++ stage_commands (sr_stage run) ++ sr_commands run;
  ro_stage : stage_ok (sr_stage run) (sr_commands run);
}.

Lemma shared_is_no_patch command :
  may_share command → resolve_command_tool_name (ci_command command) ≠ Some "apply_patch"%string.
Proof.
  unfold may_share, is_macro_command_safe. destruct (resolve_command_tool_name _); [|done].
  case_bool_decide; [done|]. congruence.
Qed.
Lemma run_step_ok step screened run run' :
  run_ok step screened run → run_step may_answer allowed_commands sandbox run run' → run_ok step screened run'.
Proof.
  intros [Hstep Herr (answered & Hres & Hran & Hperm) Hstage] Hs.
  destruct Hs as [command rest batch Hst Hc Hsafe|command rest batch Hst Hc|batch Hst Hc
    |before command after next answers Hst Hmay|command Hst|command answers r Hst Hmay Hok];
    rewrite Hst in Hstage, Hperm; split; simpl; try done.
  - exists answered. split_and!; [done|done|]. rewrite Hperm, Hc. simpl. by rewrite <- !app_assoc.
  - simpl in Hstage. apply Forall_app. split; [done|]. by constructor.
  - exists answered. split_and!; [done|done|]. rewrite Hperm, Hc. simpl. by rewrite <- !app_assoc.
  - exists answered. split_and!; [done|done|]. rewrite Hperm, Hc. simpl. by rewrite !app_nil_r.
  - exists (answered ++ [(command, run_command_run_item answers command allowed_commands sandbox)]).
    rewrite !fmap_app, Hres. simpl. split_and!; [done| |].
    + apply Forall_app. split; [done|]. apply Forall_singleton. exists answers. split_and!; [done|done|].
      destruct Hstage as [Hf _]. apply Forall_app in Hf as [_ Hf].
      apply Forall_cons in Hf as [Hm _]. unfold may_share in Hm. simpl. by rewrite Hm.
    + rewrite Hperm. simpl. rewrite <- !app_assoc. f_equiv. simpl. symmetry. apply Permutation_middle.
  - destruct Hstage as [Hf Hn]. split; [|done]. apply Forall_app in Hf as [Hf1 Hf2].
    apply Forall_cons in Hf2 as [_ Hf2]. by apply Forall_app.
  - exists answered. by split_and!.
  - exists (answered ++ [(command, r)]). rewrite !fmap_app, Hres. simpl. split_and!; [done| |].
    + apply Forall_app. split; [done|]. apply Forall_singleton. by exists answers.
    + rewrite Hperm. simpl. by rewrite <- !app_assoc.
Qed.

Lemma screened_all screened : ∀ answered : list (CommandItem * CommandRunItemResult),
  Forall (λ p, ran p.1 p.2) answered → rights screened ≡ₚ answered.*1 →
  ∃ rs, Forall2 settles_as screened rs ∧ lefts screened ++ answered.*2 ≡ₚ rs.
Proof.
  induction screened as [|[r|command] screened IH]; intros answered Hran Hperm; simpl in *.
  - apply Permutation_nil_l in Hperm. destruct answered; [|done]. by exists [].
  - destruct (IH answered Hran Hperm) as (rs & Hrs & Hp). exists (r :: rs). split; [by constructor|].
    by rewrite Hp.
  - assert (command ∈ answered.*1) as Hin by (rewrite <- Hperm; apply list_elem_of_here).
    apply list_elem_of_fmap in Hin as ([c r] & -> & Hin). apply list_elem_of_split in Hin as (before & after & ->).
    apply Forall_app in Hran as [Hb Ha]. apply Forall_cons in Ha as [Hr Ha]. simpl in *.
    destruct (IH (before ++ after)) as (rs & Hrs & Hp).
    + by apply Forall_app.
    + rewrite fmap_app in Hperm |- *. simpl in Hperm. apply (Permutation_cons_inv (a:=c)).
      by rewrite Hperm, Permutation_middle.
    + exists (r :: rs). split; [by constructor|]. rewrite <- Hp, !fmap_app. simpl.
      by rewrite <- !Permutation_middle.
Qed.

(** The results of a finished step are those of its commands, in order. *)
Lemma step_settles batch bindings guard group run :
  group_ok group → StronglySorted (λ a b, ci_index a < ci_index b) group →
  run_ok (step_of group) (screened batch bindings guard group) run → sr_stage run = Sharing [] None →
  ∃ rs, Forall2 settles_as (screened batch bindings guard group) rs
    ∧ sort_results (sr_errors run ++ sr_results run) = rs.
Proof.
  intros [_ Hall] Hidx [_ Herr (answered & Hres & Hran & Hperm) Hstage] Hst.
  rewrite Hst in Hstage, Hperm. destruct Hstage as [_ Hnone]. rewrite Hnone, app_nil_r in Hperm by done.
  destruct (screened_all (screened batch bindings guard group) answered Hran Hperm) as (rs & Hrs & Hp).
  exists rs. split; [done|]. rewrite Herr, Hres. apply sort_results_perm; [done|].
  eapply places_in_order; [by eapply settled_places|done|by apply (same_steps_sorted (step_of group))].
Qed.

(** ** Reachable states of a batch *)

Definition key_in_group (group : list CommandItem) r : Prop := ∃ command, command ∈ group ∧ place_of command r.
(** A failed patch ended the batch: the steps before it ran in full, its own
    step up to it. *)
Definition stopped batch (groups past : list (list CommandItem)) s : Prop :=
  ∃ bindings guard results group rs,
    groups = past ++ group :: ba_todo s ∧ one_by_one batch past bindings guard results
    ∧ ba_results s = results ++ rs ∧ Forall (key_in_group group) rs
    ∧ (∃ r, r ∈ rs ∧ is_failed_apply_patch_result r = true).
Definition batch_inv batch (groups : list (list CommandItem)) s : Prop :=
  ∃ past,
    match ba_now s with
    | None =>
        if ba_cancelled s then stopped batch groups past s
        else groups = past ++ ba_todo s
             ∧ one_by_one batch past (ba_output_bindings s) (ba_guard s) (ba_results s)
    | Some run =>
        ba_cancelled s = false ∧ ∃ group, groups = past ++ group :: ba_todo s
        ∧ one_by_one batch past (ba_output_bindings s) (ba_guard s) (ba_results s)
        ∧ run_ok (step_of group) (screened batch (ba_output_bindings s) (ba_guard s) group) run
    end.

Definition ordered_groups (groups : list (list CommandItem)) : Prop :=
  layered groups ∧ StronglySorted (λ a b, ci_index a < ci_index b) (concat groups).
Lemma ordered_group groups past group todo :
  ordered_groups groups → groups = past ++ group :: todo →
  group_ok group ∧ StronglySorted (λ a b, ci_index a < ci_index b) group.
Proof.
  intros [[Hok _] Hidx] ->. apply Forall_app in Hok as [_ Hok]. apply Forall_cons in Hok as [Hok _].
  rewrite concat_app in Hidx. simpl in Hidx. apply StronglySorted_join in Hidx as (_ & Hidx & _).
  by apply StronglySorted_join in Hidx as (Hidx & _).
Qed.
Lemma batch_groups commands :
  numbered commands → steps_fit commands →
  ordered_groups (by_step (normalize_command_steps commands))
  ∧ concat (by_step (normalize_command_steps commands)) = normalize_command_steps commands
  ∧ Forall2 restepped commands (normalize_command_steps commands)
  ∧ numbered (normalize_command_steps commands).
Proof.
  intros Hn Hf. destruct (normalized commands Hf) as [Hr Hs].
  destruct (by_step_layered _ Hs) as [Hl Hc].
  assert (numbered (normalize_command_steps commands)) as HN by by eapply restepped_numbered.
  split_and!; [|done|done|done]. split; [done|]. rewrite Hc. by eapply numbered_sorted.
Qed.

Lemma left_place batch bindings guard group r :
  r ∈ lefts (screened batch bindings guard group) → key_in_group group r.
Proof.
  intros (x & Hx & Hr)%list_elem_of_omap. destruct x as [r'|]; [|done]. injection Hr as ->.
  apply list_elem_of_fmap in Hx as (c & Hs & Hc). exists c. split; [done|]. by eapply screen_inl.
Qed.
Lemma right_screened batch bindings guard group command :
  command ∈ rights (screened batch bindings guard group) →
  ∃ c, c ∈ group
    ∧ screen bindings guard (step_of group) (sole_final_command batch group) c = inr command.
Proof.
  intros (x & Hx & Hr)%list_elem_of_omap. destruct x as [|c']; [done|]. injection Hr as ->.
  apply list_elem_of_fmap in Hx as (c & Hs & Hc). by exists c.
Qed.

Lemma run_places batch bindings guard group run :
  run_ok (step_of group) (screened batch bindings guard group) run →
  Forall (key_in_group group) (sr_errors run ++ sr_results run).
Proof.
  intros [_ Herr (answered & Hres & Hran & Hperm) _]. rewrite Herr, Hres. apply Forall_app. split.
  - apply Forall_forall. intros r. apply left_place.
  - apply Forall_fmap, Forall_forall. intros [c r] Hin. simpl.
    rewrite Forall_forall in Hran. specialize (Hran _ Hin). simpl in Hran.
    assert (c ∈ rights (screened batch bindings guard group)) as Hc.
    { rewrite Hperm. apply elem_of_app. left. apply list_elem_of_fmap. by exists (c, r). }
    apply right_screened in Hc as (c0 & Hc0 & Hs). exists c0. split; [done|].
    apply screen_inr in Hs as [Hk _]. apply resolve_item_keeps in Hk as (Hi & Hst & _).
    apply ran_place in Hran as [??]. split; congruence.
Qed.

Lemma batch_step_inv batch groups s s' :
  ordered_groups groups → batch_inv batch groups s →
  batch_step may_answer allowed_commands sandbox batch s s' → batch_inv batch groups s'.
Proof.
  intros Hord [past Hinv] Hs.
  destruct Hs as [commands rest Hnow Hcan Htodo sc|run run' Hnow Hrun|run Hnow Hst
    |run command answers Hnow Hst Hmay r Hfail]; rewrite Hnow in Hinv.
  - rewrite Hcan, Htodo in Hinv. destruct Hinv as [Hg Hone]. exists past. split; [done|].
    exists commands. split_and!; [done|done|]. split; simpl; [done|done| |by constructor].
    exists []. by split_and!.
  - destruct Hinv as (Hcan & group & Hg & Hone & Hok). exists past. split; [done|].
    exists group. split_and!; [done|done|]. by eapply run_step_ok.
  - destruct Hinv as (Hcan & group & Hg & Hone & Hok). exists (past ++ [group]). simpl.
    destruct (ordered_group _ _ _ _ Hord Hg) as [Hgo Hidx].
    destruct (step_settles _ _ _ _ _ Hgo Hidx Hok Hst) as (rs & Hrs & ->).
    rewrite (ro_step _ _ _ Hok). split; [by rewrite <- app_assoc|]. by constructor.
  - destruct Hinv as (Hcan & group & Hg & Hone & Hok). exists past. simpl.
    exists (ba_output_bindings s), (ba_guard s), (ba_results s), group,
      (sort_results (sr_errors run ++ sr_results run ++ [r])).
    assert (Forall (key_in_group group) (sr_errors run ++ sr_results run ++ [r])) as Hkeys.
    { rewrite app_assoc. apply Forall_app. split; [by eapply run_places|]. apply Forall_singleton.
      destruct Hok as [_ _ (answered & _ & _ & Hperm) _]. rewrite Hst in Hperm.
      assert (command ∈ rights (screened batch (ba_output_bindings s) (ba_guard s) group)) as Hc.
      { rewrite Hperm. apply elem_of_app. right. apply list_elem_of_here. }
      apply right_screened in Hc as (c0 & Hc0 & Hs). exists c0. split; [done|].
      apply screen_inr in Hs as [Hk _]. apply resolve_item_keeps in Hk as (Hi & Hss & _).
      destruct (run_item_place answers command allowed_commands sandbox). split; subst r; congruence. }
    assert (sort_results (sr_errors run ++ sr_results run ++ [r]) ≡ₚ sr_errors run ++ sr_results run ++ [r]) as Hp
      by (unfold sort_results; by rewrite !sort_by_key_perm).
    split_and!; [done|done|done|by rewrite Hp|]. exists r. split; [|done]. rewrite Hp, app_assoc.
    apply elem_of_app. right. apply list_elem_of_singleton. done.
Qed.
Lemma batch_reachable_inv commands s :
  numbered commands → steps_fit commands →
  batch_reachable may_answer allowed_commands sandbox commands s →
  batch_inv commands (by_step (normalize_command_steps commands)) s.
Proof.
  intros Hn Hf Hr. destruct (batch_groups commands Hn Hf) as (Hord & _).
  revert Hr. apply (rtc_ind_r (batch_inv commands _)).
  - exists []. split; [done|constructor].
  - intros s1 s2 _ Hs Hinv. by eapply batch_step_inv.
Qed.

(** ** Theorems on the executor of a whole batch *)

Lemma one_by_one_publishes batch past bindings guard results :
  one_by_one batch past bindings guard results → bindings = publish no_bindings results.
Proof.
  induction 1 as [|past bindings guard results group rs _ IH _]; [done|].
  rewrite IH. unfold publish. by rewrite foldl_app.
Qed.
Lemma step_before groups past group todo command :
  layered groups → groups = past ++ group :: todo → command ∈ concat groups →
  effective_step command < step_of group ↔ command ∈ concat past.
Proof.
  intros [Hok Hlt] -> Hin. apply StronglySorted_join in Hlt as (_ & Hlater & Hlt).
  apply StronglySorted_inv in Hlater as [_ Hlater].
  assert (∀ g, g ∈ past ++ group :: todo → command ∈ g → effective_step command = step_of g) as Hstep.
  { intros g Hg Hc. rewrite Forall_forall in Hok. destruct (Hok g Hg) as [_ Hall].
    by eapply Forall_forall in Hall. }
  split.
  - intros Hc. rewrite concat_app in Hin. apply elem_of_app in Hin as [Hin|Hin]; [done|]. exfalso.
    apply list_elem_of_In, in_concat in Hin as (g & Hg & Hcg). apply list_elem_of_In in Hg, Hcg.
    rewrite (Hstep g) in Hc by (done || (apply elem_of_app; by right)).
    apply elem_of_cons in Hg as [->|Hg]; [lia|]. rewrite Forall_forall in Hlater. specialize (Hlater g Hg). lia.
  - intros Hc. apply list_elem_of_In, in_concat in Hc as (g & Hg & Hcg). apply list_elem_of_In in Hg, Hcg.
    rewrite (Hstep g) by (done || (apply elem_of_app; by left)). apply Hlt; [done|apply list_elem_of_here].
Qed.

(** What is known of a command in flight. *)
Lemma running_in_group commands s command :
  numbered commands → steps_fit commands →
  batch_reachable may_answer allowed_commands sandbox commands s → command ∈ running s →
  ∃ past group c0,
    by_step (normalize_command_steps commands) = past ++ group :: ba_todo s
    ∧ one_by_one commands past (ba_output_bindings s) (ba_guard s) (ba_results s)
    ∧ c0 ∈ group ∧ effective_step command = step_of group
    ∧ screen (ba_output_bindings s) (ba_guard s) (step_of group) (sole_final_command commands group) c0 = inr command
    ∧ (running s = [command] ∨ Forall may_share (running s))
    ∧ (group = [c0] → running s = [command]).
Proof.
  intros Hn Hf Hr Hc. destruct (batch_reachable_inv commands s Hn Hf Hr) as [past Hinv].
  destruct (batch_groups commands Hn Hf) as (Hord & _).
  revert Hc. unfold running. destruct (ba_now s) as [run|]; [|by intros ?%not_elem_of_nil].
  destruct Hinv as (_ & group & Hg & Hone & [_ _ (answered & _ & _ & Hperm) Hstage]). intros Hc.
  assert (command ∈ rights (screened commands (ba_output_bindings s) (ba_guard s) group)) as Hright.
  { rewrite Hperm. apply elem_of_app. right. apply elem_of_app. left.
    destruct (sr_stage run); simpl; [by apply not_elem_of_nil in Hc|by apply elem_of_app; left|done]. }
  apply right_screened in Hright as (c0 & Hc0 & Hs). exists past, group, c0.
  destruct (ordered_group _ _ _ _ Hord Hg) as [[_ Hall] _].
  assert (effective_step command = step_of group) as Hstep.
  { pose proof Hs as Hs'. apply screen_inr in Hs' as [Hk _]. apply resolve_item_keeps in Hk as (_ & -> & _).
    by eapply Forall_forall in Hall. }
  split_and!; [done|done|done|done|done| |].
  - destruct (sr_stage run); simpl in *; [by apply not_elem_of_nil in Hc|right; apply Hstage|left].
    apply list_elem_of_singleton in Hc as ->. done.
  - intros ->. cbn [screened] in Hperm. unfold screened in Hperm. simpl in Hperm. simpl in Hs. rewrite Hs in Hperm.
    simpl in Hperm. apply Permutation_length in Hperm. rewrite !length_app in Hperm. simpl in Hperm.
    destruct (sr_stage run) as [b|fl next|c]; simpl in *; [by apply not_elem_of_nil in Hc| |].
    + rewrite length_app in Hperm. destruct fl as [|x [|y fl]]; simpl in *; [by apply not_elem_of_nil in Hc| |lia].
      apply list_elem_of_singleton in Hc as ->. done.
    + apply list_elem_of_singleton in Hc as ->. done.
Qed.

(** C13: steps are barriers, when the commands are numbered as the parser
    numbers them and no repaired step exceeds 64 bits ([steps_fit]): a
    command of a batch starts when every command of a smaller step has its
    result and none of a later step has one; its placeholders are filled in
    with the outputs of those results and no others; and it runs alone, or
    with commands that all may share, never with a patch. *)
Theorem steps_are_barriers commands s command :
  numbered commands → steps_fit commands →
  batch_reachable may_answer allowed_commands sandbox commands s → command ∈ running s →
  (∀ d, d ∈ normalize_command_steps commands → effective_step d < effective_step command →
     ∃ r, r ∈ ba_results s ∧ place_of d r)
  ∧ Forall (λ r, ri_step r < effective_step command) (ba_results s)
  ∧ (∃ c, c ∈ normalize_command_steps commands ∧ resolve_item (publish no_bindings (ba_results s)) c = Ok command)
  ∧ (running s = [command]
     ∨ Forall (λ c, resolve_command_tool_name (ci_command c) ≠ Some "apply_patch"%string
                    ∧ is_macro_command_safe true c = true) (running s)).
Proof.
  intros Hn Hf Hr Hc.
  destruct (running_in_group commands s command Hn Hf Hr Hc)
    as (past & group & c0 & Hg & Hone & Hc0 & Hstep & Hscreen & Halone & _).
  destruct (batch_groups commands Hn Hf) as ([Hl _] & Hcat & _).
  pose proof (one_by_one_places _ _ _ _ _ Hone) as Hplaces. rewrite <- Hcat. split_and!.
  - intros d Hd Hlt. rewrite Hstep in Hlt. apply (step_before _ _ _ _ _ Hl Hg Hd) in Hlt.
    apply list_elem_of_lookup in Hlt as [k Hk].
    destruct (Forall2_lookup_l _ _ _ _ _ Hplaces Hk) as (r & Hrk & Hp).
    exists r. split; [by eapply list_elem_of_lookup_2|done].
  - apply Forall_forall. intros r [k Hk]%list_elem_of_lookup.
    destruct (Forall2_lookup_r _ _ _ _ _ Hplaces Hk) as (d & Hd & _ & ->). rewrite Hstep.
    apply list_elem_of_lookup_2 in Hd. apply (step_before _ _ _ _ d Hl Hg); [|done].
    rewrite Hg, concat_app. apply elem_of_app. by left.
  - exists c0. split; [rewrite Hg, concat_app; apply elem_of_app; right; apply elem_of_app; by left|].
    rewrite <- (one_by_one_publishes _ _ _ _ _ Hone). by apply screen_inr in Hscreen as [? _].
  - destruct Halone as [?|Hshare]; [by left|right]. eapply Forall_impl; [exact Hshare|].
    intros c Hm. split; [by apply shared_is_no_patch|done].
Qed.

Lemma observed_failure rs : ∀ guard,
  tg_failed_or_unknown (foldl (λ guard r, observe_result guard (Some (ri_success r))) guard rs) = false →
  tg_failed_or_unknown guard = false ∧ Forall (λ r, ri_success r = true) rs.
Proof.
  induction rs as [|r rs IH]; intros guard; simpl; [done|]. intros [Hg Hrs]%IH. simpl in Hg.
  apply orb_false_iff in Hg as [Hg Hr]. split; [done|]. constructor; [|done].
  apply negb_false_iff, bool_decide_eq_true in Hr. by injection Hr.
Qed.
Lemma guard_clear batch past bindings guard results :
  one_by_one batch past bindings guard results → tg_failed_or_unknown guard = false →
  Forall (λ r, ri_success r = true) results.
Proof.
  induction 1 as [|past bindings guard results group rs _ IH _]; [constructor|].
  unfold observe. intros [Hg Hrs]%observed_failure. apply Forall_app. split; [|done]. apply IH.
  revert Hg. unfold observe_step. by destruct (declared _).
Qed.
Lemma done_error_None guard step final_command :
  done_error guard step final_command = None → tg_failed_or_unknown guard = false ∧ final_command = true.
Proof.
  unfold done_error. destruct (tg_failed_or_unknown guard); [done|]. by destruct final_command.
Qed.
Lemma numbered_lookup commands command :
  numbered commands → command ∈ commands → commands !! Z.to_nat (ci_index command) = Some command.
Proof.
  intros Hn [k Hk]%list_elem_of_lookup. rewrite (Hn k _ Hk). rewrite Z.add_0_l, Nat2Z.id. done.
Qed.

(** C14: a terminal status is the last word of a batch that is executed as a
    whole, when its commands are numbered as the parser numbers them and no
    repaired step exceeds 64 bits ([steps_fit]): when a [task_status] that
    says done starts, it is the last command, it is alone in flight, every
    other command of the batch declared a smaller step, and every other
    command has a result, which is a success. Streamed commands have
    [CommandStreaming.streamed_done_is_the_last_word]. *)
Theorem done_is_the_last_word commands s command :
  numbered commands → steps_fit commands →
  batch_reachable may_answer allowed_commands sandbox commands s → command ∈ running s →
  is_terminal_done command = true →
  running s = [command] ∧ ci_index command = final_index commands
  ∧ Forall (λ r, ri_success r = true) (ba_results s)
  ∧ ∀ d, d ∈ commands → ci_index d ≠ ci_index command →
      (∃ final, last commands = Some final ∧ effective_step d < effective_step final)
      ∧ ∃ r, r ∈ ba_results s ∧ ri_index r = ci_index d ∧ ri_success r = true.
Proof.
  intros Hn Hf Hr Hc Hd.
  destruct (running_in_group commands s command Hn Hf Hr Hc)
    as (past & group & c0 & Hg & Hone & Hc0 & _ & Hscreen & _ & Halone).
  destruct (batch_groups commands Hn Hf) as (Hord & Hcat & Hre & HnN).
  apply screen_inr in Hscreen as [Hk Hdone]. apply Hdone, done_error_None in Hd as [Hclear Hsole].
  apply resolve_item_keeps in Hk as (Hi & _ & _).
  assert (group = [c0] ∧ ci_index c0 = final_index commands ∧ final_declared_order commands = true)
    as (-> & Hfinal & Hdecl).
  { unfold sole_final_command in Hsole. destruct group as [|c [|]]; [done| |done].
    apply list_elem_of_singleton in Hc0 as ->. apply andb_true_iff in Hsole as [He ?].
    apply Z.eqb_eq in He. done. }
  assert (Forall (λ r, ri_success r = true) (ba_results s)) as Hgood by by eapply guard_clear.
  split_and!; [by apply Halone|congruence|done|]. intros d Hin Hneq. rewrite Hi in Hneq.
  assert (length (normalize_command_steps commands) = length commands) as Hlen
    by (symmetry; by eapply Forall2_length).
  pose proof (numbered_lookup _ _ Hn Hin) as Hlook.
  assert (Z.to_nat (ci_index d) < length commands - 1)%nat as Hlt.
  { pose proof (lookup_lt_Some _ _ _ Hlook). pose proof (Hn _ _ Hlook). unfold final_index in Hfinal. lia. }
  split.
  - revert Hdecl. unfold final_declared_order. destruct (last commands) as [final|] eqn:Hl.
    + intros Hall. exists final. split; [done|]. apply last_Some in Hl as [front ->].
      rewrite removelast_last in Hall. rewrite length_app in Hlt. simpl in Hlt.
      rewrite lookup_app_l in Hlook by lia. rewrite forallb_forall in Hall.
      apply list_elem_of_lookup_2, list_elem_of_In in Hlook. apply Hall in Hlook. by apply Z.ltb_lt in Hlook.
    + apply last_None in Hl as ->. by apply not_elem_of_nil in Hin.
  - destruct (Forall2_lookup_l _ _ _ _ _ Hre Hlook) as (d' & Hd' & step & ->).
    pose proof (one_by_one_places _ _ _ _ _ Hone) as Hplaces.
    destruct (lookup_lt_is_Some_2 (ba_results s) (Z.to_nat (ci_index d))) as [r Hrk].
    { rewrite <- (Forall2_length _ _ _ Hplaces).
      assert (concat past ++ c0 :: concat (ba_todo s) = normalize_command_steps commands) as Hsplit.
      { rewrite <- Hcat, Hg, concat_app. done. }
      pose proof (HnN (length (concat past)) c0) as Hpos. unfold final_index in Hfinal. simpl in Hpos.
      rewrite <- Hsplit, lookup_app_r, Nat.sub_diag in Hpos by done. specialize (Hpos eq_refl). lia. }
    exists r. destruct (Forall2_lookup_r _ _ _ _ _ Hplaces Hrk) as (d2 & Hd2 & Hi2 & _).
    assert (normalize_command_steps commands !! Z.to_nat (ci_index d) = Some d2) as Hd2'.
    { rewrite <- Hcat, Hg, concat_app. by apply lookup_app_l_Some. }
    apply list_elem_of_lookup_2 in Hrk as Hrin. split_and!; [done| |by eapply Forall_forall in Hgood].
    rewrite Hi2, (HnN _ _ Hd2'), (Hn _ _ Hlook). lia.
Qed.

Lemma group_results_step past group todo groups bindings guard results batch rs r :
  layered groups → groups = past ++ group :: todo → one_by_one batch past bindings guard results →
  Forall (key_in_group group) rs → r ∈ results ++ rs → ri_step r ≤ step_of group.
Proof.
  intros Hl Hg Hone Hkeys Hr. apply elem_of_app in Hr as [Hr|Hr].
  - apply list_elem_of_lookup in Hr as [k Hk].
    destruct (Forall2_lookup_r _ _ _ _ _ (one_by_one_places _ _ _ _ _ Hone) Hk) as (d & Hd & _ & ->).
    apply list_elem_of_lookup_2 in Hd. apply Z.lt_le_incl, (step_before _ _ _ _ d Hl Hg); [|done].
    rewrite Hg, concat_app. apply elem_of_app. by left.
  - rewrite Forall_forall in Hkeys. destruct (Hkeys r Hr) as (c & Hc & _ & ->). destruct Hl as [Hok _].
    rewrite Hg in Hok. apply Forall_app in Hok as [_ Hok]. apply Forall_cons in Hok as [[_ Hall] _].
    rewrite Forall_forall in Hall. by rewrite (Hall c Hc).
Qed.

Lemma cancelled_reason commands s :
  batch_reachable may_answer allowed_commands sandbox commands s → ba_cancelled s = true →
  ba_cancel_reason s = Some APPLY_PATCH_FAILURE_CANCEL_REASON.
Proof.
  apply (rtc_ind_r (λ s, ba_cancelled s = true → ba_cancel_reason s = Some APPLY_PATCH_FAILURE_CANCEL_REASON)); [done|].
  intros s1 s2 _ Hs IH. destruct Hs; simpl in *; by auto.
Qed.
Lemma batch_results commands s :
  numbered commands → steps_fit commands →
  batch_reachable may_answer allowed_commands sandbox commands s → batch_over s →
  co_cancelled (batch_output s) = None →
  ∃ bindings guard,
    one_by_one commands (by_step (normalize_command_steps commands)) bindings guard (co_results (batch_output s))
    ∧ StronglySorted in_order (co_results (batch_output s)).
Proof.
  intros Hn Hf Hr [Hnow Hover] Hcan. destruct (batch_reachable_inv commands s Hn Hf Hr) as [past Hinv].
  destruct (batch_groups commands Hn Hf) as ([Hl Hidx] & Hcat & Hre & HnN).
  rewrite Hnow in Hinv. unfold batch_output in *. simpl in *. destruct (ba_cancelled s); [done|].
  destruct Hover as [|Hover]; [done|]. rewrite Hover, app_nil_r in Hinv. destruct Hinv as [<- Hone].
  pose proof (one_by_one_places _ _ _ _ _ Hone) as Hplaces. rewrite Hcat in Hplaces, Hidx.
  destruct (normalized commands Hf) as [_ Hsorted].
  assert (StronglySorted in_order (ba_results s)) as Hord by by eapply places_in_order.
  rewrite (sort_results_perm (ba_results s) (ba_results s)) by done.
  by exists (ba_output_bindings s), (ba_guard s).
Qed.

(** C12: when the commands are numbered as the parser numbers them and no
    repaired step exceeds 64 bits ([steps_fit]), a batch that is over ran as
    if its commands had run one at a time, in the order in which they were
    sent: its answer has one result per command, in that order, each command
    saw the outputs of smaller steps, and no patch that ran failed.
    Otherwise a patch failed, the steps before its own ran in this way,
    nothing of a later step has a result, and the answer says so. *)
Theorem batch_runs_one_by_one commands s :
  numbered commands → steps_fit commands →
  batch_reachable may_answer allowed_commands sandbox commands s → batch_over s →
  match co_cancelled (batch_output s) with
  | None =>
      ∃ bindings guard,
        one_by_one commands (by_step (normalize_command_steps commands)) bindings guard (co_results (batch_output s))
        ∧ Forall2 (λ c r, ri_index r = ci_index c) commands (co_results (batch_output s))
  | Some cancelled =>
      cancelled = true ∧ co_cancel_reason (batch_output s) = Some APPLY_PATCH_FAILURE_CANCEL_REASON
      ∧ ∃ past group later bindings guard results rs,
          by_step (normalize_command_steps commands) = past ++ group :: later
          ∧ one_by_one commands past bindings guard results
          ∧ co_results (batch_output s) ≡ₚ results ++ rs
          ∧ Forall (λ r, ri_step r ≤ step_of group) (co_results (batch_output s))
          ∧ ∃ r, r ∈ rs ∧ is_failed_apply_patch_result r = true
  end.
Proof.
  intros Hn Hf Hr Hover. destruct (batch_groups commands Hn Hf) as ([Hl _] & Hcat & Hre & _).
  destruct (co_cancelled (batch_output s)) as [cancelled|] eqn:Hco.
  - destruct (batch_reachable_inv commands s Hn Hf Hr) as [past Hinv]. destruct Hover as [Hnow _].
    rewrite Hnow in Hinv. unfold batch_output in *. simpl in *. destruct (ba_cancelled s) eqn:Hcan; [|done].
    injection Hco as <-.
    destruct Hinv as (bindings & guard & results & group & rs & Hg & Hone & Hres & Hkeys & Hfail).
    assert (sort_results (ba_results s) ≡ₚ results ++ rs) as Hp
      by (unfold sort_results; by rewrite !sort_by_key_perm, Hres).
    split_and!; [done|by eapply cancelled_reason|].
    exists past, group, (ba_todo s), bindings, guard, results, rs. split_and!; [done|done|done| |done].
    rewrite Hp. apply Forall_forall. intros r. by eapply group_results_step.
  - destruct (batch_results commands s Hn Hf Hr Hover Hco) as (bindings & guard & Hone & _).
    exists bindings, guard. split; [done|].
    pose proof (one_by_one_places _ _ _ _ _ Hone) as Hplaces. rewrite Hcat in Hplaces.
    apply Forall2_same_length_lookup. split.
    { by rewrite (Forall2_length _ _ _ Hre), (Forall2_length _ _ _ Hplaces). }
    intros k c r Hk Hrk. destruct (Forall2_lookup_l _ _ _ _ _ Hre Hk) as (c' & Hc' & step & ->).
    destruct (Forall2_lookup_l _ _ _ _ _ Hplaces Hc') as (r' & Hr' & Hi & _). by simplify_eq.
Qed.

(** ** Every batch ends *)

Definition stage_weight (stage : Stage) : nat :=
  match stage with
  | Gathering batch => 2 * length batch + 2
  | Sharing in_flight next => 2 * length in_flight + match next with Some _ => 4 | None => 1 end
  | Alone _ => 3
  end.
Definition run_weight run : nat := 4 * length (sr_commands run) + stage_weight (sr_stage run).
Definition batch_weight s : nat :=
  sum_list_with (λ group, 4 * length group + 3)%nat (ba_todo s)
  + match ba_now s with Some run => run_weight run | None => 0 end.

Lemma rights_length {A B} (l : list (A + B)) : (length (rights l) <= length l)%nat.
Proof. induction l as [|[] l IH]; simpl in *; lia. Qed.
Lemma run_step_weight run run' :
  run_step may_answer allowed_commands sandbox run run' → (run_weight run' < run_weight run)%nat.
Proof.
  unfold run_weight. destruct 1 as [c rest b Hst Hc|c rest b Hst Hc|b Hst Hc|before c after next a Hst|c Hst|c a r Hst];
    rewrite Hst; try rewrite Hc; simpl; rewrite ?length_app; simpl; lia.
Qed.
Lemma batch_step_weight batch s s' :
  batch_step may_answer allowed_commands sandbox batch s s' → (batch_weight s' < batch_weight s)%nat.
Proof.
  unfold batch_weight. destruct 1 as [commands rest Hnow Hcan Htodo sc|run run' Hnow Hrun|run Hnow Hst|run c a Hnow Hst];
    rewrite Hnow; simpl.
  - rewrite Htodo. unfold run_weight. simpl.
    pose proof (rights_length sc) as Hlen. unfold sc at 2, screened in Hlen. rewrite length_fmap in Hlen. lia.
  - pose proof (run_step_weight _ _ Hrun). lia.
  - unfold run_weight. rewrite Hst. simpl. lia.
  - unfold run_weight. rewrite Hst. simpl. lia.
Qed.
Lemma batch_progress batch s :
  (∀ command, ∃ answers, may_answer command answers) → ¬ batch_over s →
  ∃ s', batch_step may_answer allowed_commands sandbox batch s s'.
Proof.
  intros Hmay Hover. destruct (ba_now s) as [run|] eqn:Hnow.
  - destruct (sr_stage run) as [b|fl next|c] eqn:Hst.
    + destruct (sr_commands run) as [|c rest] eqn:Hc; eexists.
      * by eapply batch_run, run_launch_last.
      * by eapply batch_run, run_launch.
    + destruct fl as [|c fl]; [destruct next as [c|]|].
      * eexists. by eapply batch_run, run_next.
      * eexists. by eapply batch_end.
      * destruct (Hmay c) as [a Ha]. eexists. by eapply batch_run, (run_answer _ _ _ _ []).
    + destruct (Hmay c) as [a Ha].
      destruct (is_failed_apply_patch_result (run_command_run_item a c allowed_commands sandbox)) eqn:Hfail;
        eexists; [by eapply batch_stop|by eapply batch_run, run_alone].
  - destruct (ba_cancelled s) eqn:Hcan; [exfalso; apply Hover; split; by auto|].
    destruct (ba_todo s) as [|group rest] eqn:Htodo; [exfalso; apply Hover; split; by auto|].
    eexists. by apply (batch_begin _ _ _ _ _ group rest).
Qed.

(** Every batch ends: no run of it is infinite, however the commands in
    flight interleave and whatever the tools answer; and when the tools always
    answer, a batch that is not over has a next step, so that it gets there. *)
Theorem batch_ends batch s :
  sn (batch_step may_answer allowed_commands sandbox batch) s
  ∧ ((∀ command, ∃ answers, may_answer command answers) →
     ∃ s', rtc (batch_step may_answer allowed_commands sandbox batch) s s' ∧ batch_over s').
Proof.
  assert (∀ n s, (batch_weight s < n)%nat →
    sn (batch_step may_answer allowed_commands sandbox batch) s
    ∧ ((∀ command, ∃ answers, may_answer command answers) →
       ∃ s', rtc (batch_step may_answer allowed_commands sandbox batch) s s' ∧ batch_over s')) as Hall;
    [|apply (Hall (S (batch_weight s))); lia].
  induction n as [|n IH]; intros s0 Hlt; [lia|]. split.
  - constructor. intros s1 Hs. apply IH. apply batch_step_weight in Hs. lia.
  - intros Hmay. assert (batch_over s0 ∨ ¬ batch_over s0) as [Hover|Hover].
    { unfold batch_over. destruct (ba_now s0); [right; by intros [? _]|].
      destruct (ba_cancelled s0); [left; by auto|]. destruct (ba_todo s0); [left; by auto|].
      right. by intros [_ [?|?]]. }
    { by exists s0. }
    destruct (batch_progress batch s0 Hmay Hover) as [s1 Hs]. pose proof (batch_step_weight _ _ _ Hs).
    destruct (IH s1) as [_ Hend]; [lia|]. destruct (Hend Hmay) as (s2 & Hr & Ho).
    exists s2. split; [by eapply rtc_l|done].
Qed.
End Executor.
