(* ===== verification/CommandStreaming.v ===== *)
(** * Both executors of a batch agree

    A batch that is streamed command by command gives the results of the batch
    executed as a whole, when it holds no [task_status] and no patch fails; a
    streamed [task_status] that says done is held until the stream ends; then
    the executors and the theorems on them at concrete batches. *)

From stdpp Require Import base list strings gmap sorting relations.
From Stdlib Require Import ZArith Lia Ascii.
From S2P Require Import Prelude RustStd Externals Instances TaskIdentity StoreInstances RustText JSpaceScopes JSpaceJson.
From S2P Require Import PatchParse OutputBindings CommandBatch CommandBatchFacts.
Open Scope Z_scope.

Section Filters.
Context {A : Type} (P : A → Prop) `{∀ x, Decision (P x)}.
Lemma filter_keeps_all l : Forall P l → filter P l = l.
Proof. induction 1 as [|x l Hx _ IH]; [done|]. rewrite filter_cons, decide_True, IH by done. done. Qed.
Lemma filter_keeps_none l : Forall (λ x, ¬ P x) l → filter P l = [].
Proof. induction 1 as [|x l Hx _ IH]; [done|]. rewrite filter_cons, decide_False by done. done. Qed.
End Filters.

Section Agreement.
Context `{SerdeJson, !CommandHost}.
Context (allowed_commands : option (gset string)) (sandbox : bool).
Context (answers : CommandItem → Answers) (shares : CommandItem → bool).
Implicit Types (command : CommandItem) (commands : list CommandItem) (r : CommandRunItemResult)
  (self : Streaming).

(** All commands of a batch pushed, then [finish]. *)
Fixpoint stream self commands : Streaming * list CommandRunItemResult :=
  match commands with
  | [] => (self, finish allowed_commands sandbox self answers)
  | command :: rest =>
      let '(self, out) := push_command_value allowed_commands sandbox self
                            (Z.max 1 (default 1 (ci_step command))) (inr command) answers shares in
      let '(self, out') := stream self rest in (self, out ++ out')
  end.

Definition plain command : Prop := canonical_command (ci_command command) ≠ "task_status"%string.
Lemma plain_not_done command : plain command → is_terminal_done command = false.
Proof. unfold plain, is_terminal_done. intros Hp. by rewrite bool_decide_eq_false_2. Qed.

(** What a command gives where the results of smaller steps are published. *)
Definition gives (results : list CommandRunItemResult) command r : Prop :=
  match resolve_item (publish no_bindings (filter (λ r, ri_step r < effective_step command) results)) command with
  | Ok command => r = run_command_run_item (answers command) command allowed_commands sandbox
                  ∧ (is_macro_command_safe true command = false → is_failed_apply_patch_result r = false)
  | Err error => r = failed (ci_index command) (effective_step command) (ci_command command) error
  | Panic | OutOfFuel => False
  end.

Lemma screened_gives bindings guard step sole command r (results : list CommandRunItemResult) :
  plain command → bindings = publish no_bindings (filter (λ r, ri_step r < effective_step command) results) →
  settles_as (λ c a, a = answers c) allowed_commands sandbox (screen bindings guard step sole command) r →
  gives results command r.
Proof.
  intros Hp Hb. unfold screen, gives. rewrite <- Hb.
  destruct (resolve_item_answers bindings command) as [[c' Hr]|[e Hr]]; rewrite Hr; simpl; [|done].
  apply resolve_item_keeps in Hr as (_ & _ & Hname).
  rewrite plain_not_done by (unfold plain; by rewrite Hname).
  intros (a & -> & -> & Hf). done.
Qed.

(** One by one, each command gives its result on the results of smaller steps. *)
Lemma one_by_one_gives batch past bindings guard results :
  layered past → Forall plain (concat past) →
  one_by_one (λ c a, a = answers c) allowed_commands sandbox batch past bindings guard results →
  Forall2 (gives results) (concat past) results.
Proof.
  intros Hl Hp Hone. induction Hone as [|past bindings guard results group rs Hone IH Hrs]; [constructor|].
  rewrite concat_app in Hp |- *. simpl in *. rewrite app_nil_r in Hp |- *.
  apply Forall_app in Hp as [Hp Hpg]. pose proof Hl as Hlayer. destruct Hl as [Hok Hlt].
  apply Forall_app in Hok as [Hok Hg]. apply Forall_cons in Hg as [[_ Hg] _].
  apply StronglySorted_join in Hlt as (Hlt & _ & Hbefore).
  pose proof (one_by_one_places _ _ _ _ _ _ _ _ Hone) as Hplaces.
  pose proof (settled_places _ _ _ _ _ _ _ _ Hrs) as Hgplaces.
  assert (Forall (λ r, ri_step r = step_of group) rs) as Hsteps.
  { apply Forall_forall. intros r [k Hk]%list_elem_of_lookup.
    destruct (Forall2_lookup_r _ _ _ _ _ Hgplaces Hk) as (c & Hc & _ & ->).
    apply list_elem_of_lookup_2 in Hc. by eapply Forall_forall in Hg. }
  assert (Forall (λ r, ri_step r < step_of group) results) as Hearlier.
  { apply Forall_forall. intros r [k Hk]%list_elem_of_lookup.
    destruct (Forall2_lookup_r _ _ _ _ _ Hplaces Hk) as (c & Hc & _ & ->).
    apply list_elem_of_lookup_2 in Hc. apply (step_before (past ++ [group]) past group [] c Hlayer eq_refl); [|done].
    rewrite concat_app. apply elem_of_app. by left. }
  apply Forall2_app.
  - specialize (IH (conj Hok Hlt) Hp). apply Forall2_same_length_lookup. split; [by eapply Forall2_length|].
    intros k c r Hc Hr. pose proof (Forall2_lookup_lr _ _ _ _ _ _ IH Hc Hr) as Hgives.
    unfold gives in *. rewrite filter_app, (filter_keeps_none _ rs), app_nil_r; [done|].
    eapply Forall_impl; [exact Hsteps|]. simpl. intros r' ->.
    assert (effective_step c < step_of group); [|lia].
    apply (step_before (past ++ [group]) past group [] c Hlayer eq_refl); [|by eapply list_elem_of_lookup_2].
    rewrite concat_app. apply elem_of_app. left. by eapply list_elem_of_lookup_2.
  - unfold screened in Hrs. rewrite Forall2_fmap_l in Hrs. apply Forall2_same_length_lookup.
    split; [by eapply Forall2_length|]. intros k c r Hc Hr.
    pose proof (Forall2_lookup_lr _ _ _ _ _ _ Hrs Hc Hr) as Hset. apply list_elem_of_lookup_2 in Hc as Hin.
    rewrite Forall_forall in Hpg, Hg. eapply screened_gives; [by apply Hpg| |exact Hset].
    rewrite (one_by_one_publishes _ _ _ _ _ _ _ _ Hone). f_equal.
    rewrite filter_app, (filter_keeps_none _ rs), app_nil_r.
    + symmetry. apply filter_keeps_all. by rewrite (Hg c Hin).
    + eapply Forall_impl; [exact Hsteps|]. simpl. rewrite (Hg c Hin). lia.
Qed.

(** A failed patch is a command that may not share, where the registry knows
    the tool by its name. *)
Lemma failed_patch_is_alone command a :
  resolve_command_tool_name "apply_patch" = Some "apply_patch"%string →
  is_failed_apply_patch_result (run_command_run_item a command allowed_commands sandbox) = true →
  is_macro_command_safe true command = false.
Proof.
  intros Hreg. unfold is_failed_apply_patch_result. intros [Hname _]%andb_true_iff.
  apply bool_decide_eq_true in Hname. unfold is_macro_command_safe.
  assert (ci_command command = "apply_patch"%string
          ∨ resolve_command_tool_name (ci_command command) = Some "apply_patch"%string) as [Heq|Heq];
    [|by rewrite Heq, ?Hreg|by rewrite Heq].
  revert Hname. unfold run_command_run_item. destruct (negb _); [by left|].
  destruct (bool_decide (canonical_command _ = "task_status")).
  { destruct (an_accepted a); [by left|]. unfold command_run_task_status_result. by destruct (normalize_output _ _). }
  destruct (_ && _). { destruct (an_accepted a); [by left|]. by destruct (an_planning a) as [[] ?]. }
  destruct (resolve_command_tool_name (ci_command command)) as [tool|]; [|by left].
  intros Htool. right. f_equal. revert Htool.
  destruct (an_call a); [done|]. destruct (if sandbox then _ else _); [done|].
  destruct (an_accepted a); [done|]. by destruct (an_dispatch a) as [|[]].
Qed.

(** The executor between two calls: [low] are the results of smaller steps than
    the active one, [pend] those of the active step. *)
Record between self (i : Z) (low pend : list CommandRunItemResult) : Prop := {
  be_receipts : sx_receipt_store_error self = None;
  be_index : sx_next_index self = i;
  be_results : sx_results self = [];
  be_bindings : sx_output_bindings self = publish no_bindings low;
  be_pending : sx_pending_binding_results self = pend;
  be_done : sx_pending_done self = None;
  be_halted : sx_halted self = false;
  be_active : match sx_active_step self with
              | Some active => Forall (λ r, ri_step r < active) low
                               ∧ Forall (λ r, ri_step r = active) pend ∧ pend ≠ []
              | None => low = [] ∧ pend = []
              end;
}.

Lemma index_kept command i : ci_index command = i → command.{ci_index := i} = command.
Proof. intros <-. by destruct command. Qed.

Lemma push_resolved_gives self command step ordered low pend results i r :
  effective_step command = step →
  resolve_command_tool_name "apply_patch" = Some "apply_patch"%string →
  plain command → sx_active_step self = Some step →
  sx_output_bindings self = publish no_bindings low →
  filter (λ r, ri_step r < step) results = low →
  sx_receipt_store_error self = None → sx_next_index self = i → sx_results self = [] →
  sx_pending_binding_results self = pend → sx_pending_done self = None → sx_halted self = false →
  Forall (λ r, ri_step r < step) low → Forall (λ r, ri_step r = step) pend →
  gives results command r → place_of command r →
  ∃ self', push_resolved allowed_commands sandbox self command ordered answers shares = (self', [r])
    ∧ between self' i low (pend ++ [r])
    ∧ sx_active_step self' = Some step
    ∧ sx_active_step_repaired self' = sx_active_step_repaired self.
Proof.
  intros <- Hreg Hplain Hact Hb Hlow Hrec Hi Hres Hpend Hdone Hhalt Hll Hpp Hgives [_ Hstep].
  assert (∃ self', drain_finished_results (accept_result (observes_step self ordered) r) = (self', [r])
    ∧ between self' i low (pend ++ [r])
    ∧ sx_active_step self' = Some (effective_step command)
    ∧ sx_active_step_repaired self' = sx_active_step_repaired self) as Hnext.
  { eexists. split_and!; [unfold drain_finished_results; simpl; by rewrite Hres| |done|done].
    split; simpl; [done|done|done|done|by rewrite Hpend|done|done|]. rewrite Hact. split_and!; [done| |by destruct pend].
    apply Forall_app. by rewrite Forall_singleton. }
  unfold gives in Hgives. rewrite Hlow in Hgives. unfold push_resolved. rewrite Hb.
  destruct (resolve_item (publish no_bindings low) command) as [c'|e| |] eqn:Hr; [|by subst r|done..].
  apply resolve_item_keeps in Hr as (_ & _ & Hname).
  rewrite plain_not_done by (unfold plain; by rewrite Hname). destruct Hgives as [Hrun Hok]. rewrite <- Hrun.
  assert (is_failed_apply_patch_result r = false) as ->; [|by rewrite andb_false_r].
  destruct (is_failed_apply_patch_result r) eqn:Hf; [|done]. rewrite Hrun in Hf.
  apply failed_patch_is_alone in Hf; [|done]. by apply Hok in Hf.
Qed.

(** The results of smaller steps, among all results in the order of steps. *)
Lemma earlier_results low pend r later step active :
  StronglySorted (λ a b, ri_step a ≤ ri_step b) ((low ++ pend) ++ r :: later) → ri_step r = step →
  match active with
  | Some active => Forall (λ r, ri_step r < active) low ∧ Forall (λ r, ri_step r = active) pend ∧ pend ≠ []
  | None => low = [] ∧ pend = []
  end →
  let changes := match active with Some current => negb (step =? current) | None => false end in
  let low' := if changes then low ++ pend else low in
  let pend' := if changes then [] else pend in
  filter (λ r, ri_step r < step) ((low ++ pend) ++ r :: later) = low'
  ∧ Forall (λ r, ri_step r < step) low' ∧ Forall (λ r, ri_step r = step) pend' ∧ low' ++ pend' = low ++ pend.
Proof.
  intros Hs <- Hact. apply StronglySorted_join in Hs as (_ & Hs & Hbefore).
  apply StronglySorted_inv in Hs as [_ Hlater].
  rewrite filter_app, (filter_keeps_none _ (r :: later)), app_nil_r.
  2: { constructor; [lia|]. eapply Forall_impl; [exact Hlater|]. simpl. lia. }
  destruct active as [active|]; [|destruct Hact as [-> ->]; simpl; split_and!; by constructor].
  destruct Hact as (Hlow & Hpend & Hne). destruct (Z.eqb_spec (ri_step r) active) as [Heq|Hneq]; simpl.
  - rewrite Heq. rewrite filter_app, (filter_keeps_all _ low), (filter_keeps_none _ pend), app_nil_r by
      (done || (eapply Forall_impl; [exact Hpend|]; simpl; lia)). by split_and!.
  - assert (active ≤ ri_step r) as Hle.
    { destruct pend as [|p pend]; [done|]. apply Forall_cons in Hpend as [<- _].
      apply Hbefore; [apply elem_of_app; right; apply list_elem_of_here|apply list_elem_of_here]. }
    assert (Forall (λ r', ri_step r' < ri_step r) (low ++ pend)) as Hall.
    { apply Forall_app. split; [eapply Forall_impl; [exact Hlow|]|eapply Forall_impl; [exact Hpend|]]; simpl; lia. }
    rewrite filter_keeps_all by done. rewrite app_nil_r. by split_and!.
Qed.

(** The executor as [push_command_value] has it when it fills in placeholders. *)
Definition stepped self (changes : bool) (step : Z) (repaired : bool) : Streaming :=
  let self := self.{sx_next_index := sx_next_index self + 1} in
  (if changes then publish_pending_bindings self else self)
    .{sx_active_step := Some step}.{sx_active_step_repaired := repaired}.
Lemma stepped_between self i low pend (changes : bool) step repaired :
  between self i low pend →
  let self' := stepped self changes step repaired in
  let low' := if changes then low ++ pend else low in
  let pend' := if changes then [] else pend in
  sx_active_step self' = Some step ∧ sx_active_step_repaired self' = repaired
  ∧ sx_output_bindings self' = publish no_bindings low' ∧ sx_pending_binding_results self' = pend'
  ∧ sx_receipt_store_error self' = None ∧ sx_next_index self' = i + 1 ∧ sx_results self' = []
  ∧ sx_pending_done self' = None ∧ sx_halted self' = false.
Proof.
  intros []. destruct changes; simpl; split_and!; try done; try lia.
  rewrite be_bindings0, be_pending0. unfold publish. by rewrite foldl_app.
Qed.

Lemma stream_gives commands : ∀ self low pend later results i,
  resolve_command_tool_name "apply_patch" = Some "apply_patch"%string →
  results = (low ++ pend) ++ later → StronglySorted (λ a b, ri_step a ≤ ri_step b) results →
  Forall plain commands → numbered_from i commands → steps_fit commands →
  match sx_active_step self with Some p => 1 ≤ p ∧ p + Z.of_nat (length commands) ≤ u64_max | None => True end →
  between self i low pend →
  let commands' := normalize_steps (sx_active_step self) (sx_active_step_repaired self) commands in
  Forall2 (gives results) commands' later → Forall2 place_of commands' later →
  (stream self commands).2 = later ∧ sx_halted (stream self commands).1 = false.
Proof.
  induction commands as [|command commands IH];
    intros self low pend later results i Hreg Hres Hsorted Hplain Hn Hf Hfit Hbe commands' Hgives Hplaces.
  { apply Forall2_nil_inv_l in Hgives as ->. destruct Hbe. simpl. unfold finish.
    by rewrite be_halted0, be_done0, be_results0. }
  subst commands'. cbn [stream]. cbn [normalize_steps] in Hgives, Hplaces. apply Forall_cons in Hplain as [Hp Hplain].
  apply Forall_cons in Hf as [Hfc Hf].
  assert (ci_index command = sx_next_index self) as Hidx by (rewrite (be_index _ _ _ _ Hbe), (Hn O command eq_refl); lia).
  destruct (normalize_next (sx_active_step self) (sx_active_step_repaired self) (effective_step command) (length commands))
    as (step & Hstep & _ & Hpos & Hbound); [done|apply effective_step_pos|done|].
  unfold push_command_value, reject_pending_done.
  rewrite (be_done _ _ _ _ Hbe), (be_receipts _ _ _ _ Hbe), (be_halted _ _ _ _ Hbe), index_kept by done.
  change (sx_active_step (self.{sx_next_index := sx_next_index self + 1})) with (sx_active_step self).
  change (sx_active_step_repaired (self.{sx_next_index := sx_next_index self + 1})) with (sx_active_step_repaired self).
  destruct (normalize_next_step _ _ (effective_step command)) as [step' repaired]. simpl in Hstep. subst step'.
  apply Forall2_cons_inv_l in Hgives as (r & later' & Hg & Hgs & ->).
  apply Forall2_cons in Hplaces as [Hpl Hpls].
  pose proof (effective_step_set command step Hpos) as Heff.
  pose proof (proj2 Hpl) as Hrstep. rewrite Heff in Hrstep.
  rewrite Hres in Hsorted. destruct (earlier_results low pend r later' step (sx_active_step self) Hsorted Hrstep (be_active _ _ _ _ Hbe))
    as (Hearlier & Hlow & Hpend & Happ). rewrite <- Hres in Hearlier, Hsorted.
  revert Hearlier Hlow Hpend Happ.
  generalize (match sx_active_step self with Some current => negb (step =? current) | None => false end) as changes.
  intros changes Hearlier Hlow Hpend Happ. cbv zeta.
  destruct (stepped_between self i low pend changes step repaired Hbe)
    as (Hact & Hrep & Hb & Hpd & Hrec & Hi & Hr & Hd & Hh).
  destruct (push_resolved_gives (stepped self changes step repaired) (command.{ci_step := Some step}) step
    (declared_step ← declared (ci_step command); if declared_step =? step then Some declared_step else None)
    _ _ results (i + 1) r Heff Hreg Hp Hact Hb Hearlier Hrec Hi Hr Hpd Hd Hh Hlow Hpend Hg Hpl)
    as (self' & Hpush & Hbe' & Hact' & Hrep').
  unfold stepped in Hpush. rewrite Hpush.
  destruct (IH self' (if changes then low ++ pend else low) ((if changes then [] else pend) ++ [r]) later' results (i + 1) Hreg) as [IH1 IH2]; [|done|done| | | |exact Hbe'| | |].
  - rewrite app_assoc, Happ, <- app_assoc. exact Hres.
  - intros k d Hk. rewrite (Hn (S k) d Hk). lia.
  - eapply Forall_impl; [exact Hf|]. simpl. intros. lia.
  - by rewrite Hact'.
  - by rewrite Hact', Hrep', Hrep.
  - by rewrite Hact', Hrep', Hrep.
  - destruct (stream self' commands) as [self'' out]. simpl in *. by rewrite IH1.
Qed.

(** C17: a batch without a [task_status], numbered as the parser numbers it
    and with no repaired step above 64 bits ([steps_fit]), gives the same
    results whether it is executed as a whole or received command by
    command, when the tools answer the same in both, the registry knows
    [apply_patch] by its name and no patch fails; and the streamed batch is
    not halted. *)
Theorem executors_agree commands s :
  resolve_command_tool_name "apply_patch" = Some "apply_patch"%string →
  numbered commands → steps_fit commands → Forall plain commands →
  batch_reachable (λ command a, a = answers command) allowed_commands sandbox commands s → batch_over s →
  co_cancelled (batch_output s) = None →
  (stream (streaming_new None) commands).2 = co_results (batch_output s)
  ∧ sx_halted (stream (streaming_new None) commands).1 = false.
Proof.
  intros Hreg Hn Hf Hp Hr Hover Hcan.
  destruct (batch_groups commands Hn Hf) as ([Hl Hidx] & Hcat & Hre & HnN).
  destruct (batch_results _ _ _ commands s Hn Hf Hr Hover Hcan) as (bindings & guard & Hone & Hsorted).
  pose proof (one_by_one_places _ _ _ _ _ _ _ _ Hone) as Hplaces.
  assert (Forall plain (concat (by_step (normalize_command_steps commands)))) as HpN.
  { rewrite Hcat. apply Forall_forall. intros c' [k Hk]%list_elem_of_lookup.
    destruct (Forall2_lookup_r _ _ _ _ _ Hre Hk) as (c & Hc & step & ->).
    apply list_elem_of_lookup_2 in Hc. rewrite Forall_forall in Hp. exact (Hp c Hc). }
  pose proof (one_by_one_gives _ _ _ _ _ Hl HpN Hone) as Hgives. rewrite Hcat in Hgives, Hplaces.
  apply (stream_gives commands (streaming_new None) [] [] _ (co_results (batch_output s)) 0); try done.
  rewrite <- (list_fmap_id (co_results (batch_output s))).
  eapply StronglySorted_map; [|exact Hsorted]. intros a b [Hab _]. exact Hab.
Qed.
End Agreement.

(** ** The last word of a stream

    A [task_status] that says done is held until the stream is finished.  What
    is known between two calls, of all results reported so far. *)

Section LastWord.
Context `{SerdeJson, !CommandHost}.
Context (allowed_commands : option (gset string)) (sandbox : bool).
Implicit Types (command : CommandItem) (r : CommandRunItemResult) (self : Streaming)
  (all log : list CommandRunItemResult).

(** What was reported by a stream of calls, from a new executor on. *)
Inductive streamed (receipts : option string) : Streaming → list CommandRunItemResult → Prop :=
| streamed_start : streamed receipts (streaming_new receipts) []
| streamed_push self log raw_step parsed answers shares self' out :
    streamed receipts self log →
    push_command_value allowed_commands sandbox self raw_step parsed answers shares = (self', out) →
    streamed receipts self' (log ++ out).

(** A success is that of a command that ran and does not say done. *)
Definition ran_before_done r : Prop :=
  ri_success r = true →
  ∃ command a, is_terminal_done command = false ∧ r = run_command_run_item a command allowed_commands sandbox.

Record held (n : Z) self all : Prop := {
  he_good : tg_failed_or_unknown (sx_guard self) = false → Forall (λ r, ri_success r = true) all;
  he_order : tg_failed_or_unknown (sx_guard self) = false → tg_ambiguous_order (sx_guard self) = false →
             Forall (λ r, ri_step r ≤ default 0 (tg_prior_step (sx_guard self))) all;
  he_ran : Forall ran_before_done all;
  he_count : 0 ≤ n;
  he_index : (ri_index <$> all) ++ (ci_index <$> option_list (sx_pending_done self)) ≡ₚ seqZ 0 n;
  he_done command : sx_pending_done self = Some command →
    sx_halted self = false ∧ is_terminal_done command = true
    ∧ done_error (sx_guard self) (Some (effective_step command)) true = None;
}.

Lemma held_ext n self self' all all' :
  held n self all → all ≡ₚ all' → sx_guard self' = sx_guard self →
  sx_pending_done self' = sx_pending_done self →
  sx_halted self' = sx_halted self ∨ sx_pending_done self = None → held n self' all'.
Proof.
  intros [Hg Ho Hr Hc Hi Hd] Hp Hguard Hpend Hh. split; rewrite ?Hguard, ?Hpend, <- ?Hp; try done.
  intros command Hcommand. destruct Hh as [->|Hn]; [by apply Hd|congruence].
Qed.
Lemma held_accept n self all r :
  held n self all → sx_pending_done self = None → ri_index r = n → ran_before_done r →
  (ri_success r = true → tg_ambiguous_order (sx_guard self) = false →
   ri_step r ≤ default 0 (tg_prior_step (sx_guard self))) →
  held (n + 1) (accept_result self r) (all ++ [r]).
Proof.
  intros [Hg Ho Hr Hc Hi Hd] Hpend Hri Hran Hord. split; simpl.
  - intros [Hf Hs%negb_false_iff]%orb_false_iff. apply Forall_app. rewrite Forall_singleton.
    apply bool_decide_eq_true in Hs. split; [auto|congruence].
  - intros [Hf Hs%negb_false_iff]%orb_false_iff Ha. apply Forall_app. rewrite Forall_singleton.
    apply bool_decide_eq_true in Hs. split; [auto|]. apply Hord; [congruence|done].
  - apply Forall_app. by rewrite Forall_singleton.
  - lia.
  - rewrite Hpend in *. simpl in *. rewrite fmap_app, !app_nil_r in *. rewrite seqZ_app by lia.
    rewrite Hi. simpl. by rewrite Hri, Z.add_0_l.
  - intros command. by rewrite Hpend.
Qed.
Lemma held_failure n self all r :
  held n self all → sx_pending_done self = None → ri_index r = n → ri_success r = false →
  held (n + 1) (accept_result self r) (all ++ [r]).
Proof. intros Hh Hp Hn Hs. apply held_accept; try done; unfold ran_before_done; by rewrite Hs. Qed.
Lemma held_observes n self all step :
  held n self all → sx_pending_done self = None → held n (observes_step self step) all.
Proof.
  intros [Hg Ho Hr Hc Hi Hd] Hp. unfold observes_step, observe_step.
  destruct (declared step) as [d|]; split; simpl; try done; try (by rewrite Hp).
  intros Hf Ha. eapply Forall_impl; [by apply Ho|]. simpl. intros r Hle. lia.
Qed.
Lemma held_reject n self all :
  held n self all →
  ∃ extra, held n (reject_pending_done self) (all ++ extra) ∧ sx_pending_done (reject_pending_done self) = None
    ∧ sx_results (reject_pending_done self) = sx_results self ++ extra
    ∧ extra = (λ command, terminal_status_failure command ORDER_ERROR) <$> option_list (sx_pending_done self).
Proof.
  intros Hh. unfold reject_pending_done. destruct (sx_pending_done self) as [command|] eqn:Hp.
  2: { exists []. rewrite !app_nil_r. by split_and!. }
  eexists. split_and!; [|done..]. destruct Hh as [Hg Ho Hr Hc Hi Hd]. rewrite Hp in Hi. split; simpl.
  - by rewrite orb_true_r.
  - by rewrite orb_true_r.
  - apply Forall_app. split; [done|]. by apply Forall_singleton.
  - done.
  - rewrite fmap_app, app_nil_r. exact Hi.
  - done.
Qed.
Lemma held_drained n self log self' out :
  held n self (log ++ sx_results self) → drain_finished_results self = (self', out) →
  held n self' (log ++ out) ∧ sx_results self' = [] ∧ sx_next_index self' = sx_next_index self.
Proof.
  intros Hh [= <- <-]. split_and!; [|done..]. eapply held_ext; [exact Hh| |done..|by left].
  f_equiv. unfold sort_results. by rewrite !sort_by_key_perm.
Qed.

(** A refused push, and a push of a command that was read. *)
Lemma held_refused n self log step error self' out :
  held n self (log ++ sx_results self) → sx_pending_done self = None → sx_next_index self = n →
  refuse_push self step error = (self', out) →
  held (n + 1) self' (log ++ out) ∧ sx_results self' = [] ∧ sx_next_index self' = n + 1.
Proof.
  intros Hh Hp Hn Hpush. apply (held_drained (n + 1) _ log) in Hpush as (Hh' & Hr & Hi).
  - split_and!; [done..|]. rewrite Hi. simpl. by rewrite Hn.
  - pose proof (held_failure n self _ (failed (sx_next_index self) step "command_run" error) Hh Hp Hn eq_refl) as Hacc.
    simpl. rewrite app_assoc. eapply held_ext; [exact Hacc|done..|by left].
Qed.
Lemma held_resolved n self log command ordered answers shares self' out :
  held n self (log ++ sx_results self) → sx_pending_done self = None → sx_halted self = false →
  ci_index command = n → (∀ step, ordered = Some step → step = effective_step command) →
  push_resolved allowed_commands sandbox self command ordered answers shares = (self', out) →
  held (n + 1) self' (log ++ out) ∧ sx_results self' = [] ∧ sx_next_index self' = sx_next_index self.
Proof.
  intros Hh Hp Hhalt Hn Hord. unfold push_resolved.
  assert (∀ r, place_of command r → ran_before_done r →
    held (n + 1) (accept_result (observes_step self ordered) r) (log ++ sx_results (accept_result (observes_step self ordered) r)))
    as Haccept.
  { intros r [Hri Hrs] Hran. simpl. rewrite app_assoc. apply held_accept; [by apply held_observes|done|congruence|done|].
    intros _. unfold observes_step, observe_step, declared. destruct ordered as [step|]; [|done]. simpl.
    rewrite Hrs, (Hord step eq_refl). pose proof (effective_step_pos command).
    rewrite (proj2 (Z.ltb_lt 0 (effective_step command))) by lia. simpl. lia. }
  destruct (resolve_item_answers (sx_output_bindings self) command) as [[c' Hr]|[e Hr]]; rewrite Hr.
  2: { intros Hd. eapply held_drained in Hd; [exact Hd|]. apply Haccept; [done|]. by intros. }
  apply resolve_item_keeps in Hr as (Hi & Hs & _).
  destruct (is_terminal_done c') eqn:Hdone.
  - destruct (done_error (sx_guard self) ordered true) as [error|] eqn:He; intros Hd; eapply held_drained in Hd; try exact Hd.
    + apply Haccept; [by split; simpl; congruence|]. by intros.
    + destruct Hh as [Hg Ho Hran Hc Hidx _]. split; simpl; try done; [lia| |].
      * rewrite Hp in Hidx. simpl in Hidx. rewrite app_nil_r in Hidx. rewrite seqZ_app, Hidx by lia. simpl.
        by rewrite Hi, Hn, Z.add_0_l.
      * intros command' [= <-]. split_and!; [done..|]. destruct ordered as [step|].
        -- by rewrite Hs, <- (Hord step eq_refl).
        -- exfalso. unfold done_error in He. by destruct (tg_failed_or_unknown _), (tg_ambiguous_order _).
  - set (r := run_command_run_item _ _ _ _). intros Hd.
    assert (held (n + 1) (accept_result (observes_step self ordered) r)
              (log ++ sx_results (accept_result (observes_step self ordered) r))) as Hacc.
    { apply Haccept; [|by intros; eexists _, _].
      pose proof (run_item_place (answers c') c' allowed_commands sandbox) as [? ?].
      split; subst r; congruence. }
    destruct (_ && _) in Hd; eapply held_drained in Hd; [exact Hd| |exact Hd|done].
    eapply held_ext; [exact Hacc|done..|]. right. exact Hp.
Qed.
Lemma held_push self log raw_step parsed answers shares self' out :
  held (sx_next_index self) self log → sx_results self = [] →
  push_command_value allowed_commands sandbox self raw_step parsed answers shares = (self', out) →
  held (sx_next_index self') self' (log ++ out) ∧ sx_results self' = [].
Proof.
  intros Hh Hres. destruct (held_reject _ _ _ Hh) as (extra & Hh' & Hpend & Hres' & Hextra).
  rewrite Hres in Hres'. simpl in Hres'. rewrite <- Hres' in Hh'.
  assert (sx_next_index (reject_pending_done self) = sx_next_index self) as Hnext
    by (unfold reject_pending_done; by destruct (sx_pending_done self)).
  unfold push_command_value. destruct (sx_receipt_store_error _) as [error|].
  { intros Hpush. eapply held_refused in Hpush as (Hheld & Hr & Hi); [|done..]. by rewrite Hi. }
  destruct (sx_halted (reject_pending_done self)) eqn:Hhalt.
  { assert (sx_pending_done self = None) as Hn.
    { destruct (sx_pending_done self) as [command|] eqn:Hp; [|done].
      destruct (he_done _ _ _ Hh command Hp) as [Hf _].
      unfold reject_pending_done in Hhalt. rewrite Hp in Hhalt. simpl in Hhalt. congruence. }
    unfold reject_pending_done. rewrite Hn. intros [= <- <-]. by rewrite app_nil_r. }
  destruct parsed as [message|command].
  { intros Hpush. eapply held_refused in Hpush as (Hheld & Hr & Hi); [|done..]. by rewrite Hi. }
  cbv zeta. destruct (normalize_next_step _ _ _) as [step repaired].
  match goal with |- context [if ?b then publish_pending_bindings _ else _] => generalize b; intros changes Hpush end.
  eapply (held_resolved (sx_next_index self) _ log) in Hpush as (Hheld & Hr & Hi).
  - split; [|done]. rewrite Hi. destruct changes; simpl; by rewrite Hnext.
  - eapply held_ext; [exact Hh'|by destruct changes..|]. left. by destruct changes.
  - by destruct changes.
  - by destruct changes.
  - by rewrite <- Hnext.
  - intros s. unfold declared. simpl. destruct (ci_step command) as [d|]; [|done]. simpl.
    destruct (Z.ltb_spec 0 d); [|done]. simpl. destruct (Z.eqb_spec d step); [|done]. intros [= <-].
    unfold effective_step. simpl. lia.
Qed.
Lemma streamed_held receipts self log :
  streamed receipts self log → held (sx_next_index self) self log ∧ sx_results self = [].
Proof.
  induction 1 as [|self log raw_step parsed answers shares self' out _ [Hh Hr] Hpush].
  - split; [|done]. by split; try constructor.
  - by eapply held_push.
Qed.

(** What waits to be reported is reported by the next call. *)
Lemma drained_elem r self : r ∈ sx_results self → r ∈ (drain_finished_results self).2.
Proof. intros Hr. simpl. unfold sort_results. by rewrite !sort_by_key_perm. Qed.
Lemma push_resolved_elem r self command ordered answers shares :
  r ∈ sx_results self → r ∈ (push_resolved allowed_commands sandbox self command ordered answers shares).2.
Proof.
  intros Hr. unfold push_resolved.
  destruct (resolve_item_answers (sx_output_bindings self) command) as [[c' Hc]|[e Hc]]; rewrite Hc.
  2: { apply drained_elem. simpl. apply elem_of_app. by left. }
  repeat case_match; apply drained_elem; simpl; rewrite ?elem_of_app; auto.
Qed.
Lemma push_reports_pending self command raw_step parsed answers shares :
  sx_pending_done self = Some command → sx_halted self = false →
  terminal_status_failure command ORDER_ERROR
    ∈ (push_command_value allowed_commands sandbox self raw_step parsed answers shares).2.
Proof.
  intros Hp Hhalt. unfold push_command_value, reject_pending_done. rewrite Hp.
  set (self' := accept_result _ _).
  assert (terminal_status_failure command ORDER_ERROR ∈ sx_results self') as Hr
    by (simpl; apply elem_of_app; right; by apply list_elem_of_singleton).
  assert (∀ step error, terminal_status_failure command ORDER_ERROR ∈ (refuse_push self' step error).2) as Hrefuse.
  { intros step error. apply drained_elem. simpl in *. rewrite !elem_of_app in *. auto. }
  destruct (sx_receipt_store_error self'); [apply Hrefuse|]. change (sx_halted self') with (sx_halted self).
  rewrite Hhalt. destruct parsed as [message|c]; [apply Hrefuse|]. cbv zeta.
  destruct (normalize_next_step _ _ _) as [step repaired]. apply push_resolved_elem. simpl in *.
  by case_match.
Qed.

End LastWord.

(** ** Running a batch *)

Section Schedule.
Context `{SerdeJson, !CommandHost}.
Context (allowed_commands : option (gset string)) (sandbox : bool).
Context (answers : CommandItem → Answers).

(** One schedule: commands share when they may, and answer in order. *)
Definition turn_within (s : Batch) (run : StepRun) : Batch :=
  let run_item command := run_command_run_item (answers command) command allowed_commands sandbox in
  match sr_stage run with
  | Gathering batch =>
      with_now s match sr_commands run with
                 | [] => with_stage run [] (Sharing batch None) (sr_results run)
                 | command :: rest =>
                     with_stage run rest
                       (if is_macro_command_safe true command then Gathering (batch ++ [command])
                        else Sharing batch (Some command)) (sr_results run)
                 end
  | Sharing (command :: in_flight) next =>
      with_now s (with_stage run (sr_commands run) (Sharing in_flight next) (sr_results run ++ [run_item command]))
  | Sharing [] (Some command) => with_now s (with_stage run (sr_commands run) (Alone command) (sr_results run))
  | Sharing [] None => close_step s run false
  | Alone command =>
      let results := sr_results run ++ [run_item command] in
      if is_failed_apply_patch_result (run_item command)
      then close_step s (with_stage run (sr_commands run) (Alone command) results) true
      else with_now s (with_stage run (sr_commands run) (Gathering []) results)
  end.
Definition turn (batch : list CommandItem) (s : Batch) : option Batch :=
  match ba_now s, ba_cancelled s, ba_todo s with
  | Some run, _, _ => Some (turn_within s run)
  | None, false, commands :: rest =>
      let screened := screened batch (ba_output_bindings s) (ba_guard s) commands in
      Some {| ba_todo := rest;
              ba_now := Some {| sr_step := step_of commands; sr_errors := lefts screened;
                                sr_commands := rights screened; sr_stage := Gathering []; sr_results := [] |};
              ba_output_bindings := ba_output_bindings s; ba_guard := ba_guard s;
              ba_results := ba_results s; ba_cancelled := false; ba_cancel_reason := ba_cancel_reason s |}
  | None, _, _ => None
  end.
Fixpoint turns (n : nat) (batch : list CommandItem) (s : Batch) : Batch :=
  match n with
  | O => s
  | S n => match turn batch s with Some s' => turns n batch s' | None => s end
  end.

Lemma turn_is_step batch s s' :
  turn batch s = Some s' →
  batch_step (λ command a, a = answers command) allowed_commands sandbox batch s s'.
Proof.
  unfold turn. destruct (ba_now s) as [run|] eqn:Hnow.
  - intros [= <-]. unfold turn_within. destruct (sr_stage run) as [b|fl next|c] eqn:Hst.
    + destruct (sr_commands run) as [|c rest] eqn:Hc; [by eapply batch_run, run_launch_last|].
      destruct (is_macro_command_safe true c) eqn:Hm; [by eapply batch_run, run_gather|by eapply batch_run, run_launch].
    + destruct fl as [|c fl]; [destruct next|].
      * by eapply batch_run, run_next.
      * by eapply batch_end.
      * eapply batch_run; [done|]. by apply (run_answer _ _ _ _ [] c fl).
    + destruct (is_failed_apply_patch_result _) eqn:Hf; [|by eapply batch_run, run_alone].
      rewrite <- Hst at 1. by eapply batch_stop.
  - destruct (ba_cancelled s) eqn:Hcan; [done|]. destruct (ba_todo s) as [|group rest] eqn:Htodo; [done|].
    intros [= <-]. by apply (batch_begin _ _ _ _ _ group rest).
Qed.
Lemma turns_reach n batch s :
  rtc (batch_step (λ command a, a = answers command) allowed_commands sandbox batch) s (turns n batch s).
Proof.
  revert s. induction n as [|n IH]; intros s; simpl; [done|].
  destruct (turn batch s) as [s'|] eqn:Ht; [|done]. eapply rtc_l; [by apply turn_is_step|done].
Qed.
End Schedule.

(** ** Concrete batches *)

#[local] Existing Instances json_z json_text.
#[local] Instance example_host : CommandHost := {|
  shell_variable := None;
  platform_shell := "bash";
  resolve_command_tool_name name :=
    let name := snake name in
    if existsb (λ known, bool_decide (name = known)) ["bash"; "apply_patch"; "read_media"; "source_read"]
    then Some name else None;
  task_type_ids := ["code"];
  json_error _ := "expected value";
  sandbox_output := VString;
|}.
Definition item (index : Z) (command line : string) (step : option Z) (id : option string) : CommandItem := {|
  ci_index := index; ci_command := command; ci_command_line := line; ci_inline_arguments := None;
  ci_workdir := None; ci_step := step; ci_timeout_ms := None; ci_stall_timeout_ms := None; ci_binding_id := id |}.
(** A shell echoes its line; a patch that is empty fails; a read finds a name. *)
Definition example_answers (command : CommandItem) : Answers := {|
  an_accepted := None; an_planning := (true, Null, ""); an_call := None; an_sandbox := None;
  an_dispatch :=
    if bool_decide (ci_command command = "read_media") then inr (true, json_object [("name", VString "notes")])
    else inr (negb (is_empty (ci_command_line command)), VString (ci_command_line command)) |}.

Definition three_steps : list CommandItem :=
  [item 0 "read_media" "a.png" (Some 1) (Some "a"); item 1 "Bash" "cat #@#${a.name}#@#$" (Some 2) None;
   item 2 "task_status" "done" (Some 3) None].
Definition at_turn (n : nat) (batch : list CommandItem) : Batch :=
  turns None false example_answers n batch (batch_of batch).
Lemma at_turn_reachable n batch :
  batch_reachable (λ command a, a = example_answers command) None false batch (at_turn n batch).
Proof. apply turns_reach. Qed.

Definition summary (o : CommandRunOutput) : list (Z * string * bool) * option bool :=
  ((λ r, (ri_index r, ri_command_type r, ri_success r)) <$> co_results o, co_cancelled o).
Example batch_examples :
  summary (batch_output (at_turn 30 three_steps))
  = ([(0, "read_media", true); (1, "bash", true); (2, "task_status", true)], None)
  ∧ ci_command_line <$> running (at_turn 8 three_steps) = ["cat notes"]
  (* A shell that fails keeps the terminal status from being recorded. *)
  ∧ summary (batch_output (at_turn 30 [item 0 "bash" "" (Some 1) None; item 1 "task_status" "done" (Some 2) None]))
    = ([(0, "bash", false); (1, "task_status", false)], None)
  (* A patch that fails ends the batch. *)
  ∧ summary (batch_output (at_turn 30 [item 0 "apply_patch" "" (Some 1) None; item 1 "bash" "ls" (Some 2) None]))
    = ([(0, "apply_patch", false)], Some true)
  (* A step below the one before is moved behind it, and so is one equal to a moved step. *)
  ∧ (ci_step <$> normalize_command_steps
      [item 0 "bash" "a" (Some 5) None; item 1 "bash" "b" (Some 2) None; item 2 "bash" "c" (Some 6) None;
       item 3 "bash" "d" (Some 7) None]) = [Some 5; Some 6; Some 7; Some 8].
Proof. by vm_compute. Qed.

(** A patch that names an output that does not exist fails without running; the
    batch is not stopped, unlike by any other patch that fails. *)
Example unresolved_patch_goes_on :
  summary (batch_output (at_turn 30 [item 0 "apply_patch" "#@#${x}#@#$" (Some 1) None; item 1 "bash" "ls" (Some 2) None]))
  = ([(0, "apply_patch", false); (1, "bash", true)], None).
Proof. by vm_compute. Qed.

(** After the last step number the repaired step wraps around: the command that
    was sent second runs first, and sees no output. *)
Example repaired_step_wraps :
  let batch := [item 0 "read_media" "a.png" (Some u64_max) (Some "a"); item 1 "bash" "cat #@#${a.name}#@#$" (Some 1) None] in
  summary (batch_output (at_turn 30 batch)) = ([(1, "bash", false); (0, "read_media", true)], None).
Proof. by vm_compute. Qed.

(** Without declared steps the whole batch records the terminal status, and the
    streamed one refuses it. *)
Definition no_steps : list CommandItem := [item 0 "bash" "ls" None None; item 1 "task_status" "done" None None].
Example terminal_status_needs_steps :
  summary (batch_output (at_turn 30 no_steps)) = ([(0, "bash", true); (1, "task_status", true)], None)
  ∧ (λ r, (ri_index r, ri_success r)) <$> (stream None false example_answers (λ _, false) (streaming_new None) no_steps).2
    = [(0, true); (1, false)].
Proof. by vm_compute. Qed.

(** The text of a question reaches the patch of a later step. *)
Example reply_reaches_a_patch :
  let reply := text_lines ["fn main() {}"; "*** Delete File: docs/n.md"] in
  let question := (item 0 "task_status" "" (Some 1) None)
    .{ci_inline_arguments := Some (json_object [("final_reply", VString reply); ("status", VString "question")])} in
  let patch := item 1 "apply_patch" (text_lines ["+#@#${task_status.task_status.final_reply}#@#$"]) (Some 2) None in
  ∃ n, ci_command_line <$> running (at_turn n [question; patch])
  = [text_lines ["+fn main() {}"; "*** Delete File: docs/n.md"] ].
Proof. exists 9%nat. by vm_compute. Qed.

(** ** The theorems at these batches *)

Ltac is_numbered := intros [|[|[|k]]] c Hc; simplify_eq/=; done.
Ltac steps_do_fit := repeat constructor; by vm_compute.

Lemma three_steps_ok : numbered three_steps ∧ steps_fit three_steps.
Proof. split; [is_numbered|steps_do_fit]. Qed.

Lemma steps_are_barriers_witness :
  ∃ r, r ∈ ba_results (at_turn 8 three_steps) ∧ place_of (item 0 "read_media" "a.png" (Some 1) (Some "a")) r.
Proof.
  destruct (steps_are_barriers (λ command a, a = example_answers command) None false three_steps
              (at_turn 8 three_steps) (item 1 "Bash" "cat notes" (Some 2) None)) as (Hearlier & _).
  - apply three_steps_ok.
  - apply three_steps_ok.
  - apply at_turn_reachable.
  - vm_compute. left.
  - apply Hearlier; [vm_compute; left|by vm_compute].
Defined.

Lemma done_is_the_last_word_witness :
  Forall (λ r, ri_success r = true) (ba_results (at_turn 13 three_steps)).
Proof.
  apply (done_is_the_last_word (λ command a, a = example_answers command) None false three_steps
           (at_turn 13 three_steps) (item 2 "task_status" "done" (Some 3) None)).
  - apply three_steps_ok.
  - apply three_steps_ok.
  - apply at_turn_reachable.
  - vm_compute. left.
  - by vm_compute.
Defined.

Lemma batch_runs_one_by_one_witness :
  co_cancelled (batch_output (at_turn 30 three_steps)) = None
  ∧ Forall2 (λ c r, ri_index r = ci_index c) three_steps (co_results (batch_output (at_turn 30 three_steps))).
Proof.
  pose proof (batch_runs_one_by_one (λ command a, a = example_answers command) None false three_steps
                (at_turn 30 three_steps)) as Hone.
  assert (co_cancelled (batch_output (at_turn 30 three_steps)) = None) as Hcan by by vm_compute.
  rewrite Hcan in Hone. split; [done|].
  assert (batch_over (at_turn 30 three_steps)) as Hover by (split; [by vm_compute|right; by vm_compute]).
  destruct Hone as (bindings & guard & _ & Hindexes); [apply three_steps_ok|apply three_steps_ok|apply at_turn_reachable|exact Hover|].
  exact Hindexes.
Defined.

Lemma batch_ends_witness :
  ∃ s, rtc (batch_step (λ command a, a = example_answers command) None false three_steps) (batch_of three_steps) s
       ∧ batch_over s.
Proof.
  apply (batch_ends (λ command a, a = example_answers command) None false three_steps (batch_of three_steps)).
  intros command. by eexists.
Defined.

Definition two_reads : list CommandItem :=
  [item 0 "read_media" "a.png" (Some 1) (Some "a"); item 1 "bash" "cat #@#${a.name}#@#$" (Some 2) None].
Lemma executors_agree_witness :
  (stream None false example_answers (λ _, false) (streaming_new None) two_reads).2
  = co_results (batch_output (at_turn 30 two_reads)).
Proof.
  apply (executors_agree None false example_answers (λ _, false) two_reads (at_turn 30 two_reads)).
  - by vm_compute.
  - is_numbered.
  - steps_do_fit.
  - repeat constructor; by vm_compute.
  - apply at_turn_reachable.
  - split; [by vm_compute|right; by vm_compute].
  - by vm_compute.
Defined.

(** The calls of a stream, without its end. *)
Definition pushes (commands : list CommandItem) : Streaming * list CommandRunItemResult :=
  foldl (λ '(self, log) command,
           let '(self, out) := push_command_value None false self (default 1 (ci_step command)) (inr command)
                                 example_answers (λ _, false) in (self, log ++ out))
    (streaming_new None, []) commands.
Lemma pushes_streamed commands : streamed None false None (pushes commands).1 (pushes commands).2.
Proof.
  induction commands as [|command commands IH] using rev_ind; [constructor|].
  unfold pushes in *. rewrite foldl_app. cbn [foldl].
  destruct (foldl _ _ commands) as [self log]. simpl in IH.
  destruct (push_command_value _ _ self _ _ _ _) as [self' out] eqn:Hpush. by eapply streamed_push.
Qed.
